(* ===== verification/_CoqProject ===== *)
-Q . S2P
Prelude.v
Enum.v
Leb128.v
Double.v
GuardTree.v
GuardCheck.v
GuardValidate.v
Xfl.v
IouAmount.v
StAmount.v
Runtime.v
FloatApi.v
Sto.v
Directory.v
Context.v
StateLedger.v
StateCache.v
StateFinal.v
HookParams.v
DirWalk.v
Namespace.v
SetHook.v
SetHookRefs.v
SetHookTotal.v
HookApi.v
Emit.v
EmitDetails.v
Tsh.v
EmitQueue.v
HookTx.v
HookPhases.v
Condition.v
ShaMapNode.v
Serializer.v
StoSyntax.v
Slots.v
ShaMap.v
ShaMapOps.v
ShaMapHash.v
ShaMapSpec.v
ShaMapIter.v
ShaMapDelta.v
ShaMapProof.v
Views.v
Overlay.v
ApplyTable.v
RawTable.v
LedgerView.v
ViewStack.v
PayLedger.v
TrustLine.v
Escrow.v
PayChan.v
XrpFlow.v
PayTxns.v
PayLive.v
