(* ===== verification/Prelude.v ===== *)
(** * XRPL with Hooks: a verification library

    [xrpld] with Hooks lets an account install small WebAssembly programs, hooks, that
    run with the transactions the account takes part in.  This library models the
    code that makes this safe, the ledger it rests on and the transactions that set money
    aside, and proves them correct.  Paths below are relative to [src/src/ripple].

    ** The program and its parts

    A [SetHook] transaction ([app/tx/impl/SetHook.cpp]) installs, updates and deletes
    hooks.  New code must pass the guard checker ([app/hook/Guard.h]): a scan of the
    binary that ensures that every loop calls the guard function with a bound and
    computes the worst-case number of instructions, from which fees are derived.
    Installed code is shared between accounts as reference-counted definitions.

    When a transaction is applied ([app/tx/impl/Transactor.cpp]) the hooks of its sender
    and of the accounts it concerns, its stakeholders, run: before it, strongly, with
    the right to roll it back; after it, weakly.  A hook runs in a WebAssembly engine
    (third party) and acts through the hook API ([app/hook/impl/applyHook.cpp],
    [app/hook/Macro.h]): decimal floating point, serialised objects, key-value state,
    parameters, and emission of new transactions.  State is cached per transaction
    and written to the ledger, into paged directories, at the end; emitted
    transactions wait in a directory of the ledger until they are applied themselves.

    The ledger is a pair of hash trees ([shamap/]).  Transactions see it through a stack
    of views ([ledger/]): sandboxes that buffer their changes, the open view that collects
    those of successful transactions, and the closed ledger ([app/ledger/Ledger.cpp]).

    Escrows and payment channels ([app/tx/impl/Escrow.cpp], [app/tx/impl/PayChan.cpp]) set
    XRP aside, or lock a balance of a trust line ([ledger/View.h]), until a time, a secret
    ([conditions/]) or a signed claim releases it.

    ** The files

    Foundations.
    - [Prelude]: machine integers with their wrap-around, the result type [res] of code
      that fails or is undefined, byte strings, tactics and hint databases.
    - [Enum]: codes, limits, flags and the import whitelist of [app/hook/Enum.h].
    - [Runtime]: the monad [api] of hook API functions, memory access and its macros.

    Guard checker ([app/hook/Guard.h]).
    - [Leb128]: [parseLeb128], [parseSignedLeb128].
    - [Double], [GuardTree]: binary64 arithmetic, the block tree and [compute_wce].
    - [GuardCheck]: [check_guard], one definition per group of instructions.
    - [GuardValidate]: [validateGuards], both passes over the sections.

    Numbers and objects of the API.
    - [Xfl], [IouAmount], [FloatApi]: the packed decimal format, the ledger's
      [IOUAmount] ([basics/impl/IOUAmount.cpp]) and the [float_] functions.
    - [Sto]: [get_stobject_length] and the [sto_] functions.
    - [StoSyntax]: the grammar of the objects they accept.

    The ledger.
    - [Directory], [DirWalk]: [dirAdd], [dirRemove] ([ledger/impl/ApplyView.cpp]) and the
      walk over a directory ([ledger/impl/View.cpp]).
    - [Context]: ledger objects as records, the [Ledger], and [HookContext] and
      [HookResult] of [app/hook/applyHook.h].

    Hook state.
    - [StateLedger]: [setHookState] and [finalizeHookState].
    - [StateCache], [StateFinal]: [state], [state_set], [state_foreign],
      [state_foreign_set], the cache with its reserve accounting and grants, and the
      flush at the end of a transaction.
    - [Namespace]: [destroyNamespace].

    Installing hooks.
    - [HookParams]: [updateHookParameters], [gatherHookParameters].
    - [SetHook], [SetHookRefs], [SetHookTotal]: the whole transactor, [preflight] to
      [setHook], with its consistency and totality.

    Running hooks.
    - [HookApi]: [accept], [rollback], [_g], and the functions on the originating
      transaction, hook parameters, chain control, burden, generation and nonces.
    - [Emit], [EmitDetails]: [emit] and [etxn_details].
    - [Tsh]: [getTransactionalStakeHolders].
    - [EmitQueue]: [finalizeHookResult], [removeEmissionEntry].
    - [Slots]: objects as trees, their serialisation, and the slot functions,
      [otxn_field] and [ledger_keylet].
    - [HookTx], [HookPhases]: [canHook], the fees of chains, [hook::apply],
      [executeHookChain], [doTSH], [doAgainAsWeak], [doHookCallback] and the strong and
      weak phases of [Transactor::operator()].

    The state tree and the views.
    - [Serializer]: [Serializer] and [SerialIter] ([protocol/impl/Serializer.cpp]).
    - [ShaMapNode], [ShaMap], [ShaMapOps]: nodes, their hashes and wire format; finding,
      adding, updating and removing items, against a finite map.
    - [ShaMapHash], [ShaMapSpec]: [unshare] and [getHash]; sequences of operations.
    - [ShaMapIter], [ShaMapDelta], [ShaMapProof]: iterators, [compare], proof paths.
    - [Views], [Overlay]: the interfaces of views as classes with laws; what the buffers of
      views share.
    - [ApplyTable], [RawTable], [LedgerView]: [ApplyStateTable] with [Sandbox],
      [RawStateTable] with [OpenView], and [Ledger]; each an instance of the laws.
    - [ViewStack]: sandboxes and transactions through the whole stack.

    Escrows and payment channels.
    - [StAmount]: [STAmount] arithmetic ([protocol/impl/STAmount.cpp], [Rate2.cpp]).
    - [Condition]: crypto-conditions.
    - [PayLedger]: the entries these transactions use, and the monad of their handlers.
    - [TrustLine]: [trustAdjustLockedBalance], [trustTransferLockedBalance] and the helpers
      they call.
    - [Escrow], [PayChan]: the six transactors, [closeChannel] and the signed authorization.
    - [XrpFlow], [PayTxns], [PayLive]: the invariant of the ledger, applying transactions,
      and infinite runs.

    ** How the code is modelled

    Definitions keep the names of the source.  A function over an integer type computes
    in [Z] and converts where the source's type wraps; signed overflow, shifts by the
    width or more, and reads through absent pointers are [Undef] (or [Stuck] in the
    API monad), so a theorem that a call returns a value also says that none of these
    happens.  C++ exceptions and [LogicError] are values of [res].  The ledger is a
    record of finite maps; what the source mutates is passed and returned.  All hook
    results of a phase share one state map, as the reference member of [HookResult]
    makes them do: each execution starts from the map the one before left.

    Code outside the repository is a parameter with the laws the engine relies on:
    [log10] and [pow] of the C library ([Log10] in [Xfl], arguments in [FloatApi]), the
    hashes behind ledger keys ([Keylets], [EmitKeylets]: different arguments give
    different keys), nonces ([NonceHash]) and hook code ([CodeHost]), the transaction
    parser, base fee and generic preflight ([TxHost]), the sources of slotted objects
    ([SlotHost]) and the WebAssembly engine
    ([Engine], with [engine_ok]: a hook touches the state map only through the state
    functions), the hash of tree nodes ([Sha512Half]), the serialized form of ledger
    entries ([Entries]), SHA-256 of secrets ([Sha256]), the keys of the entries of
    [PayLedger] ([PayKeylets]) and the verification of signatures ([Verify]).  Each has a concrete instance under which the theorems are applied.

    Loops that are not structural take fuel.  [check_guard] and both passes of
    [validateGuards] take a bound on the rounds of each loop, and the length of the
    binary is proved to be enough ([check_guard_terminates],
    [validateGuards_terminates], under a condition that excludes the backward jumps
    the source allows).  The loops on decimal digits have fuel 20, and a 64-bit number
    has at most 20 digits; those of [mulRatio] have one round per power of ten.  The
    walk over a directory has the number of its entries and pages, proved enough by
    [dir_walk_complete].  The search for a free slot has 257 rounds for 255 slots
    ([get_free_slot_spec]).  [sto_] walks count to 1024 as the source does.  A tree has 64
    digits to a key, so walks down it have fuel 65; the walks with a stack of their own
    have the number of nodes below ([flush_steps], [node_count]), and [belowHelper], which
    tries each of 16 branches on each of 65 levels, has 1106 rounds; the theorems on these
    operations give results, not only their correctness if there are any.  The
    search for the next key of a view has one round per buffered change.  Native amounts
    are scaled by at most 17 digits.

    Escrow and channel handlers run on a ledger of their own, [PayLedger], with typed
    entries, and not through [ViewStack].  The two are not connected by a theorem.

    ** What the theorems show

    - Guard checker: accepted code is guarded, calls only imports if it has any, and the
      counts reported for [hook] and [cbak] are those of their bodies
      ([validateGuards_sound], [check_guard_sound], [compute_wce_exact]), and
      the checker ends; at run time the guard stops loops at their bound
      ([guard_bounds_loops]).
    - Installing: [setHook] keeps reference counts, definitions and chains consistent
      ([setHook_hooks_ok]), changes the owner count by the reserve of the chain
      ([setHook_reserve]), replaces hooks only with the override flag
      ([setHook_override]) and ends with one of its documented results
      ([setHook_total]); parameters take effect as requested
      ([updateHookParameters_effective]).
    - State: the ledger refines an abstract store under [setHookState] and
      [destroyNamespace]; writes are authorised ([state_foreign_set_authorized]), what
      is written is read back ([state_set_get]), and the flush succeeds for every cache
      the API can produce ([finalizeHookState_succeeds]).
    - Running: a chain runs the right hooks in order with the right parameters
      ([executeHookChain_trace]); the strong phase commits everything or nothing, but
      for two inputs on which the code is undefined, a transaction type of 64 or more and
      the least exit code ([strong_phase_atomic]); weak stakeholders pay exactly what they
      owe, if they agreed, and keep their reserve ([weak_fees_fair]); stakeholders are those the rules name
      ([stakeholders_correct]).
    - Emission: only transactions that pass the checks are emitted ([emit_sound]), with
      fresh nonces ([etxn_nonces_distinct]) and details the API itself produces
      ([etxn_details_object]); chains of emissions end ([emission_ends]); the queue
      gains what was emitted and loses what was applied
      ([finalizeHookResult_queues], [removeEmissionEntry_removes]).
    - Numbers and objects: float functions refine or approximate exact arithmetic with
      stated error and keep the format's invariant; the [sto_] functions edit objects as
      lists of fields and stay inside their buffers, and [sto_validate] decides a grammar of
      objects ([sto_validate_correct]); the formats round-trip; slots stay well-formed
      under every call, and every call returns but [slot_float] of zero drops
      ([slot_calls_safe]); slots hold what was taken into them
      ([slot_subfield_slot]).
    - The state tree: any sequence of operations behaves as on a finite map and never throws
      ([shamap_refines]); the hash depends on the items alone, and equal hashes mean equal
      items unless two hashed messages collide ([shamap_hash_iff]); iteration is in key
      order ([shamap_iterates]), [compare] finds the differences ([compare_correct]), and
      proofs are sound and complete ([proof_path_sound], [proof_path_complete]).
    - Views: a sandbox over any lawful view behaves as a finite map ([sandbox_refines]);
      sandboxes over an open view, applied or discarded, and the transactions added to it
      leave the ledger with what was applied, in order ([open_view_commits]); [succ] and the range of entries see the whole stack
      ([stack_succ], [stack_range]).
    - Escrows and channels: every transaction that is applied keeps the invariant and the
      total of XRP ([pay_transactions_conserve]); an escrow is finished or cancelled only as
      its times, its condition and the destination allow, and then pays XRP, or moves or
      unlocks the locked tokens ([escrow_exits_sound]); a claim of XRP by
      the destination shows a signature of the channel for its amount
      ([claim_pays_authorized]), and a signature fits no other channel or amount
      ([authorization_binding]); an escrow of XRP whose cancel is submitted again and again
      after its cancel time leaves the ledger ([escrow_eventually_resolved]).
    - Locked balances and amounts: locking keeps the locked balance between zero and the
      balance ([trustAdjust_consistent]); a transfer without fee takes and gives the same
      amount ([trustTransfer_moves]); rounding has a stated error ([st_round_accuracy]);
      conditions are met by their secrets ([checkCondition_correct]).

    Lemmas in the sample sections at the ends of the files evaluate concrete cases in
    which the code departs from its comments or its evident purpose.

    ** Not modelled

    - [util_keylet], [util_verify], [util_accid], [util_raddr], [util_sha512h] and the
      [trace] functions: forwarding to hashes, signatures, base58 and logging;
      [ledger_seq], [ledger_last_hash], [ledger_last_time] and [fee_base]: they read one
      number each.  The [str_] functions are commented out in the source.
    - [HookExecutor]: calls of the WasmEdge library.
    - Between the two phases of [Transactor::operator()]: applying the transaction
      itself, resets and invariant checks; and [addWeakTSHFromSandbox], which reads
      balance changes of the payment engine.  The metadata of an execution is modelled
      without its instruction count, provisional metadata not at all.
    - [dirDelete], the iterators of [ledger/Directory.h], and [to_string] of amounts.
    - Trees are complete in memory: fetching missing nodes, snapshots, [walkMap] and the
      acquisition of maps from peers are left out, and so is the compact storage of the
      children of a node.
    - Views: the metadata of transactions ([generateTxMeta], threading, balance changes), the
      rules and fees of open views, and the set-up, skip lists and storage of ledgers.
    - Around escrow and channel transactions: the fee and sequence of [Transactor], and the
      generic [preflight1] and [preflight2], whose results are arguments.
    - Trust lines apart from locked balances: [rippleCredit], [rippleSend] and the deletion
      of lines; text and JSON forms of amounts.
    - The rest of the server: other transactors, payment engine, consensus, ledger
      storage, networking, RPC, cryptography.  They are input and output, threads and
      library calls, or rest on the order books and the payment engine. *)

From stdpp Require Import base numbers list option.
From Stdlib Require Import ZArith Lia.

Local Open Scope Z_scope.

(** ** Machine integers

    A [w]-bit C++ integer is a [Z] in the range of its type; every operation
    that may leave the range is followed by the conversion below, which is the
    modular one C++20 prescribes.  Signed overflow in arithmetic (undefined
    behaviour) is not a conversion: operations that can reach it test for it
    and yield [Undef]. *)

Definition uwrap (w z : Z) : Z := z mod 2 ^ w.
Definition swrap (w z : Z) : Z := (z + 2 ^ (w - 1)) mod 2 ^ w - 2 ^ (w - 1).

Definition u8 (z : Z) : Z := uwrap 8 z.
Definition u16 (z : Z) : Z := uwrap 16 z.
Definition u32 (z : Z) : Z := uwrap 32 z.
Definition u64 (z : Z) : Z := uwrap 64 z.
Definition i32 (z : Z) : Z := swrap 32 z.
Definition i64 (z : Z) : Z := swrap 64 z.

Definition i32_range (z : Z) : Prop := - 2 ^ 31 <= z < 2 ^ 31.
Definition i64_range (z : Z) : Prop := - 2 ^ 63 <= z < 2 ^ 63.
Definition u64_range (z : Z) : Prop := 0 <= z < 2 ^ 64.
Definition byte_range (z : Z) : Prop := 0 <= z < 256.

Definition i32_fits (z : Z) : bool := (- 2 ^ 31 <=? z) && (z <? 2 ^ 31).
Definition i64_fits (z : Z) : bool := (- 2 ^ 63 <=? z) && (z <? 2 ^ 63).

Lemma uwrap_small w z : 0 <= z < 2 ^ w -> uwrap w z = z.
Proof. apply Z.mod_small. Qed.

Lemma uwrap_range w z : 0 <= w -> 0 <= uwrap w z < 2 ^ w.
Proof. intros. apply Z.mod_pos_bound. lia. Qed.

Lemma swrap_small w z : 0 < w -> - 2 ^ (w - 1) <= z < 2 ^ (w - 1) -> swrap w z = z.
Proof.
  intros Hw Hz. unfold swrap.
  assert (2 ^ w = 2 * 2 ^ (w - 1)) as E by (rewrite <- Z.pow_succ_r; [f_equal|]; lia).
  rewrite Z.mod_small; lia.
Qed.

Lemma swrap_range w z : 0 < w -> - 2 ^ (w - 1) <= swrap w z < 2 ^ (w - 1).
Proof.
  intros Hw. unfold swrap.
  assert (2 ^ w = 2 * 2 ^ (w - 1)) as E by (rewrite <- Z.pow_succ_r; [f_equal|]; lia).
  assert (0 < 2 ^ (w - 1)) by lia.
  pose proof (Z.mod_pos_bound (z + 2 ^ (w - 1)) (2 ^ w)). lia.
Qed.

Lemma u8_small z : 0 <= z < 2 ^ 8 -> u8 z = z.
Proof. apply uwrap_small. Qed.
Lemma u16_small z : 0 <= z < 2 ^ 16 -> u16 z = z.
Proof. apply uwrap_small. Qed.
Lemma u32_small z : 0 <= z < 2 ^ 32 -> u32 z = z.
Proof. apply uwrap_small. Qed.
Lemma u64_small z : 0 <= z < 2 ^ 64 -> u64 z = z.
Proof. apply uwrap_small. Qed.
Lemma i32_small z : - 2 ^ 31 <= z < 2 ^ 31 -> i32 z = z.
Proof. apply (swrap_small 32). lia. Qed.
Lemma i64_small z : - 2 ^ 63 <= z < 2 ^ 63 -> i64 z = z.
Proof. apply (swrap_small 64). lia. Qed.
Lemma u8_range z : 0 <= u8 z < 2 ^ 8.
Proof. apply uwrap_range. lia. Qed.
Lemma u32_range z : 0 <= u32 z < 2 ^ 32.
Proof. apply uwrap_range. lia. Qed.
Lemma u64_bound z : 0 <= u64 z < 2 ^ 64.
Proof. apply uwrap_range. lia. Qed.
Lemma i32_bound z : - 2 ^ 31 <= i32 z < 2 ^ 31.
Proof. apply (swrap_range 32). lia. Qed.
Lemma i64_bound z : - 2 ^ 63 <= i64 z < 2 ^ 63.
Proof. apply (swrap_range 64). lia. Qed.

Lemma u64_i64 z : u64 (i64 z) = u64 z.
Proof. unfold u64, i64, uwrap, swrap. rewrite Zminus_mod_idemp_l. f_equal. lia. Qed.

Lemma testbit_small f n i : 0 <= f < 2 ^ n -> 0 <= n <= i -> Z.testbit f i = false.
Proof.
  intros Hf Hn. destruct (Z.eq_dec f 0) as [->|]; [apply Z.bits_0|].
  apply Z.bits_above_log2; [lia|]. pose proof (Z.log2_lt_pow2 f n). lia.
Qed.

(** ** Results

    [res E A] is the result of a C++ function that returns an [A], fails with
    an [E] (an early error return or a thrown exception) or has undefined
    behaviour.  It is an instance of stdpp's monad classes, so operations are
    written with the notation [x ← c; k]. *)

Inductive res (E A : Type) : Type :=
| Val (a : A)
| Err (e : E)
| Undef.
Arguments Val {E A} a.
Arguments Err {E A} e.
Arguments Undef {E A}.

#[export] Instance res_ret {E} : MRet (res E) := fun _ a => Val a.
#[export] Instance res_bind {E} : MBind (res E) := fun _ _ f c =>
  match c with
  | Val a => f a
  | Err e => Err e
  | Undef => Undef
  end.

Definition is_val {E A} (c : res E A) : bool :=
  match c with Val _ => true | _ => false end.

Definition from_res {E A} (d : A) (c : res E A) : A :=
  match c with Val a => a | _ => d end.

(** [assert_or e b] is the early return [if (!b) return e;]. *)
Definition assert_or {E} (e : E) (b : bool) : res E unit :=
  if b then Val tt else Err e.

Section res_lemmas.
Context {E A B : Type}.

Lemma bind_Val (c : res E A) (f : A -> res E B) b :
  c ≫= f = Val b <-> exists a, c = Val a /\ f a = Val b.
Proof.
  split; [destruct c as [a|e|]; cbn; [eauto|discriminate..]|].
  intros (a & -> & H). exact H.
Qed.

Lemma bind_Err (c : res E A) (f : A -> res E B) e :
  c ≫= f = Err e <-> c = Err e \/ exists a, c = Val a /\ f a = Err e.
Proof.
  split.
  - destruct c as [a|e'|]; cbn; [eauto|intros [= ->]; auto|discriminate].
  - intros [-> | (a & -> & H)]; [reflexivity|exact H].
Qed.

Lemma bind_not_Undef (c : res E A) (f : A -> res E B) :
  c <> Undef -> (forall a, c = Val a -> f a <> Undef) -> c ≫= f <> Undef.
Proof. destruct c as [a|e|]; cbn; intros Hc Hf; [by apply Hf|discriminate|done]. Qed.

Lemma assert_or_Val (e : E) b u : assert_or e b = Val u <-> b = true.
Proof. destruct b, u; cbn; split; congruence. Qed.
End res_lemmas.

(** [res_inv H] opens a successful run: every bind of [H] gives the value and
    the equation of its first computation, every early return its guard. *)
Ltac res_inv_one :=
  match goal with
  | H : Val _ = Val _ |- _ => injection H; clear H; intros; subst
  | H : Err _ = Val _ |- _ => discriminate H
  | H : Undef = Val _ |- _ => discriminate H
  | H : mret _ = Val _ |- _ => unfold mret, res_ret in H
  | H : assert_or _ _ = Val _ |- _ => apply assert_or_Val in H
  | H : @mbind (res _) _ _ _ _ _ = Val _ |- _ =>
      let a := fresh "a" in let H1 := fresh "Hb" in let H2 := fresh "Hk" in
      apply bind_Val in H; destruct H as (a & H1 & H2); cbn beta in H2
  end.
Ltac res_inv := repeat res_inv_one.

(** [case_if H] splits on the first conditional of the hypothesis [H] and
    closes the branches that cannot produce a value. *)
Ltac case_if H :=
  match type of H with
  | context [if ?b then _ else _] =>
      let E := fresh "Hif" in destruct b eqn:E; try discriminate H
  end.

(** [res_open] opens a successful run completely: binds, pairs, conditionals. *)
Ltac res_open :=
  repeat first
    [ res_inv_one
    | match goal with
      | H : (_, _) = (_, _) |- _ => injection H; clear H; intros; subst
      | x : (_ * _)%type |- _ => destruct x; cbn beta iota in *
      | H : (if ?b then _ else _) = Val _ |- _ =>
          let E := fresh "Hif" in destruct b eqn:E; try discriminate H
      | H : match ?o with Some _ => _ | None => _ end = Val _ |- _ =>
          let E := fresh "Hopt" in destruct o eqn:E; try discriminate H
      end ].

(** [bool_prop] turns boolean tests in the hypotheses into propositions. *)
Ltac bool_prop :=
  repeat match goal with
  | H : _ && _ = true |- _ => apply andb_true_iff in H; destruct H
  | H : _ || _ = false |- _ => apply orb_false_iff in H; destruct H
  | H : negb _ = true |- _ => apply negb_true_iff in H
  | H : negb _ = false |- _ => apply negb_false_iff in H
  | H : (_ <? _) = true |- _ => apply Z.ltb_lt in H
  | H : (_ <? _) = false |- _ => apply Z.ltb_ge in H
  | H : (_ <=? _) = true |- _ => apply Z.leb_le in H
  | H : (_ <=? _) = false |- _ => apply Z.leb_gt in H
  | H : (_ =? _) = true |- _ => apply Z.eqb_eq in H
  | H : (_ =? _) = false |- _ => apply Z.eqb_neq in H
  | H : bool_decide _ = true |- _ => apply bool_decide_eq_true_1 in H
  | H : bool_decide _ = false |- _ => apply bool_decide_eq_false_1 in H
  end.

(** ** Byte buffers

    A [std::vector<uint8_t>] is a list of [Z]s below 256.  Offsets are the
    [int]s of the source, so a read takes a [Z] and yields [Undef] outside the
    buffer, where [operator[]] has undefined behaviour. *)

Definition vsize (l : list Z) : Z := Z.of_nat (length l).

Definition bytes_ok (l : list Z) : Prop := Forall byte_range l.

Definition rd {E} (l : list Z) (i : Z) : res E Z :=
  if i <? 0 then Undef
  else match l !! Z.to_nat i with Some b => Val b | None => Undef end.

(** [sub_bytes l i n]: the [n] bytes from offset [i]. *)
Definition sub_bytes (l : list Z) (i n : Z) : list Z :=
  take (Z.to_nat n) (drop (Z.to_nat i) l).

Lemma vsize_nonneg l : 0 <= vsize l.
Proof. unfold vsize. lia. Qed.

Lemma vsize_app l1 l2 : vsize (l1 ++ l2) = vsize l1 + vsize l2.
Proof. unfold vsize. rewrite length_app. lia. Qed.

Lemma vsize_cons b l : vsize (b :: l) = 1 + vsize l.
Proof. unfold vsize. cbn [length]. lia. Qed.

Lemma rd_Val {E} l i b : rd (E := E) l i = Val b <-> 0 <= i /\ l !! Z.to_nat i = Some b.
Proof.
  unfold rd. destruct (Z.ltb_spec i 0); [split; [discriminate|lia]|].
  destruct (l !! Z.to_nat i); split; try discriminate.
  - intros [= ->]. auto with lia.
  - intros [_ [= ->]]. done.
  - intros [_ [=]].
Qed.

Lemma rd_in_range {E} l i b : rd (E := E) l i = Val b -> 0 <= i < vsize l.
Proof.
  intros [H1 H2]%rd_Val. apply lookup_lt_Some in H2. unfold vsize. lia.
Qed.

Lemma rd_total {E} l i : 0 <= i < vsize l -> exists b, rd (E := E) l i = Val b.
Proof.
  unfold vsize. intros Hi. destruct (lookup_lt_is_Some_2 l (Z.to_nat i)) as [b Hb]; [lia|].
  exists b. apply rd_Val. split; [lia|done].
Qed.

Lemma rd_byte {E} l i b : bytes_ok l -> rd (E := E) l i = Val b -> byte_range b.
Proof. intros Hl [_ Hb]%rd_Val. by eapply Forall_lookup_1. Qed.

Lemma drop_rd {E} l i b :
  rd (E := E) l i = Val b -> drop (Z.to_nat i) l = b :: drop (Z.to_nat (i + 1)) l.
Proof.
  intros [Hi Hb]%rd_Val. rewrite (drop_S _ _ _ Hb).
  replace (Z.to_nat (i + 1)) with (S (Z.to_nat i)) by lia. done.
Qed.

(** ** Numbers and bytes

    Hashes and account identifiers are unsigned numbers; in memory they are
    big-endian byte strings. *)

(** [fromVoid]: big-endian bytes as a number. *)
Definition of_bytes (bs : list Z) : Z := fold_left (fun a b => a * 256 + b) bs 0.

(** [data()]: the [n] bytes of a number. *)
Fixpoint to_bytes (n : nat) (z : Z) : list Z :=
  match n with
  | O => []
  | S n => to_bytes n (z / 256) ++ [z mod 256]
  end.

Lemma to_bytes_length n z : length (to_bytes n z) = n.
Proof. revert z. induction n as [|n IH]; intros z; cbn; [done|]. rewrite length_app, IH. cbn. lia. Qed.

Lemma to_bytes_ok n z : bytes_ok (to_bytes n z).
Proof.
  revert z. induction n as [|n IH]; intros z; cbn; [constructor|]. apply Forall_app. split; [apply IH|].
  repeat constructor; pose proof (Z.mod_pos_bound z 256); lia.
Qed.

Lemma of_bytes_snoc bs b : of_bytes (bs ++ [b]) = of_bytes bs * 256 + b.
Proof. unfold of_bytes. by rewrite fold_left_app. Qed.

Lemma of_to_bytes n z : 0 <= z < 256 ^ Z.of_nat n -> of_bytes (to_bytes n z) = z.
Proof.
  revert z. induction n as [|n IH]; intros z Hz; cbn [to_bytes].
  { change (256 ^ Z.of_nat 0) with 1 in Hz. change (of_bytes []) with 0. lia. }
  rewrite of_bytes_snoc, IH.
  - rewrite (Z.div_mod z 256) at 3 by lia. lia.
  - rewrite Nat2Z.inj_succ, Z.pow_succ_r in Hz by lia. split; [apply Z.div_pos; lia|].
    apply Z.div_lt_upper_bound; lia.
Qed.

Lemma to_bytes_inj n x y : 0 <= x < 256 ^ Z.of_nat n -> 0 <= y < 256 ^ Z.of_nat n -> to_bytes n x = to_bytes n y -> x = y.
Proof. intros Hx Hy E. by rewrite <- (of_to_bytes n x), <- (of_to_bytes n y), E. Qed.

Lemma of_bytes_range bs : bytes_ok bs -> 0 <= of_bytes bs < 256 ^ vsize bs.
Proof.
  induction bs as [|b bs IH] using rev_ind; intros Hb; [done|].
  apply Forall_app in Hb as [Hb Hb1]. inversion Hb1 as [|? ? Hr _]. rewrite of_bytes_snoc, vsize_app.
  change (vsize [b]) with 1. specialize (IH Hb). pose proof (vsize_nonneg bs).
  rewrite Z.pow_add_r, Z.pow_1_r by lia. unfold byte_range in Hr. lia.
Qed.

Lemma to_of_bytes bs : bytes_ok bs -> to_bytes (length bs) (of_bytes bs) = bs.
Proof.
  induction bs as [|b bs IH] using rev_ind; intros Hb; [done|].
  apply Forall_app in Hb as [Hb Hb1]. inversion Hb1 as [|? ? Hr _]. unfold byte_range in Hr.
  rewrite of_bytes_snoc, length_app, Nat.add_1_r. cbn [to_bytes].
  replace ((of_bytes bs * 256 + b) / 256) with (of_bytes bs) by (apply (Z.div_unique_pos _ _ _ b); lia).
  replace ((of_bytes bs * 256 + b) mod 256) with b by (apply (Z.mod_unique_pos _ _ (of_bytes bs)); lia).
  by rewrite IH.
Qed.

(** ** Lists *)

Lemma filter_all {A} (P : A -> Prop) `{forall x, Decision (P x)} (l : list A) :
  (forall x, x ∈ l -> P x) -> filter P l = l.
Proof.
  induction l as [|x l IH]; intros Hl; [done|]. rewrite filter_cons_True by (apply Hl; by left).
  f_equal. apply IH. intros y Hy. apply Hl. by right.
Qed.

Lemma length_filter_fmap {A B} (f : A -> B) (P : B -> Prop) `{forall x, Decision (P x)} (l : list A) :
  length (filter P (f <$> l)) = length (filter (fun x => P (f x)) l).
Proof.
  induction l as [|x l IH]; [done|]. rewrite fmap_cons, !filter_cons. destruct (decide _); cbn [length]; by rewrite IH.
Qed.

(** ** Hints

    [hook_arith] collects the range facts that make wrap-arounds vanish. *)
Create HintDb hook_arith.
#[export] Hint Resolve vsize_nonneg u8_range u32_range u64_bound i32_bound i64_bound : hook_arith.

