(* ===== verification/Enum.v ===== *)
(** * Enum: the constants of the hook engine ([app/hook/Enum.h])

    The operation and flag codes of a SetHook entry, the log codes with which
    the validators of SetHook explain a rejection, the return codes of the hook
    API, its limits, and the whitelist of importable functions with their
    WebAssembly signatures. *)

From stdpp Require Import base numbers list option strings.
From Stdlib Require Import ZArith.
From S2P Require Import Prelude.

Local Open Scope Z_scope.

(** [ripple::HookSetOperation] *)
Inductive HookSetOperation :=
| hsoINVALID | hsoNOOP | hsoCREATE | hsoINSTALL | hsoDELETE | hsoNSDELETE | hsoUPDATE.

#[export] Instance HookSetOperation_eq_dec : EqDecision HookSetOperation.
Proof. solve_decision. Defined.

(** [ripple::HookSetFlags] *)
Definition hsfOVERRIDE : Z := 1.
Definition hsfNSDELETE : Z := 2.
Definition hsfCOLLECT : Z := 4.

(** [hook::TSHFlags] *)
Definition tshNONE : Z := 0.
Definition tshROLLBACK : Z := 1.
Definition tshCOLLECT : Z := 2.
Definition tshMIXED : Z := 4.

(** [hook::log::hook_log_code] *)
Inductive hook_log_code :=
| AMENDMENT_DISABLED | API_ILLEGAL | API_INVALID | API_MISSING
| BLOCK_ILLEGAL | CALL_ILLEGAL | CALL_INDIRECT | CREATE_FLAG
| DELETE_FIELD | DELETE_FLAG | DELETE_NOTHING | EXPORTS_MISSING
| EXPORT_CBAK_FUNC | EXPORT_HOOK_FUNC | EXPORT_MISSING | FLAGS_INVALID
| FUNCS_MISSING | FUNC_PARAM_INVALID | FUNC_RETURN_COUNT | FUNC_RETURN_INVALID
| FUNC_TYPELESS | FUNC_TYPE_INVALID | GRANTS_EMPTY | GRANTS_EXCESS
| GRANTS_FIELD | GRANTS_ILLEGAL | GUARD_IMPORT | GUARD_MISSING
| GUARD_PARAMETERS | HASH_OR_CODE | HOOKON_MISSING | HOOKS_ARRAY_BAD
| HOOKS_ARRAY_BLANK | HOOKS_ARRAY_EMPTY | HOOKS_ARRAY_MISSING | HOOKS_ARRAY_TOO_BIG
| HOOK_ADD | HOOK_DEF_MISSING | HOOK_DELETE | HOOK_INVALID_FIELD
| HOOK_PARAMS_COUNT | HOOK_PARAM_SIZE | IMPORTS_MISSING | IMPORT_ILLEGAL
| IMPORT_MODULE_BAD | IMPORT_MODULE_ENV | IMPORT_NAME_BAD | INSTALL_FLAG
| INSTALL_MISSING | INSTRUCTION_COUNT | INSTRUCTION_EXCESS | MEMORY_GROW
| NAMESPACE_MISSING | NSDELETE | NSDELETE_ACCOUNT | NSDELETE_COUNT
| NSDELETE_DIR | NSDELETE_DIRECTORY | NSDELETE_DIR_ENTRY | NSDELETE_ENTRY
| NSDELETE_FIELD | NSDELETE_FLAGS | NSDELETE_NONSTATE | NSDELETE_NOTHING
| OPERATION_INVALID | OVERRIDE_MISSING | PARAMETERS_FIELD | PARAMETERS_ILLEGAL
| PARAMETERS_NAME | PARAM_HOOK_CBAK | RETURN_HOOK_CBAK | SHORT_HOOK
| TYPE_INVALID | WASM_BAD_MAGIC | WASM_INVALID | WASM_PARSE_LOOP
| WASM_SMOKE_TEST | WASM_TEST_FAILURE | WASM_TOO_BIG | WASM_TOO_SMALL
| WASM_VALIDATION | HOOK_CBAK_DIFF_TYPES | PARAMETERS_NAME_REPEATED | NESTING_LIMIT
| SECTIONS_OUT_OF_SEQUENCE | CUSTOM_SECTION_DISALLOWED.

(** The numeric value of a log code, as it appears in the logs. *)
Definition log_code_value (c : hook_log_code) : Z :=
  match c with
  | AMENDMENT_DISABLED => 1
  | API_ILLEGAL => 2
  | API_INVALID => 3
  | API_MISSING => 4
  | BLOCK_ILLEGAL => 5
  | CALL_ILLEGAL => 6
  | CALL_INDIRECT => 7
  | CREATE_FLAG => 8
  | DELETE_FIELD => 9
  | DELETE_FLAG => 10
  | DELETE_NOTHING => 11
  | EXPORTS_MISSING => 12
  | EXPORT_CBAK_FUNC => 13
  | EXPORT_HOOK_FUNC => 14
  | EXPORT_MISSING => 15
  | FLAGS_INVALID => 16
  | FUNCS_MISSING => 17
  | FUNC_PARAM_INVALID => 18
  | FUNC_RETURN_COUNT => 19
  | FUNC_RETURN_INVALID => 20
  | FUNC_TYPELESS => 21
  | FUNC_TYPE_INVALID => 22
  | GRANTS_EMPTY => 23
  | GRANTS_EXCESS => 24
  | GRANTS_FIELD => 25
  | GRANTS_ILLEGAL => 26
  | GUARD_IMPORT => 27
  | GUARD_MISSING => 28
  | GUARD_PARAMETERS => 29
  | HASH_OR_CODE => 30
  | HOOKON_MISSING => 31
  | HOOKS_ARRAY_BAD => 32
  | HOOKS_ARRAY_BLANK => 33
  | HOOKS_ARRAY_EMPTY => 34
  | HOOKS_ARRAY_MISSING => 35
  | HOOKS_ARRAY_TOO_BIG => 36
  | HOOK_ADD => 37
  | HOOK_DEF_MISSING => 38
  | HOOK_DELETE => 39
  | HOOK_INVALID_FIELD => 40
  | HOOK_PARAMS_COUNT => 41
  | HOOK_PARAM_SIZE => 42
  | IMPORTS_MISSING => 43
  | IMPORT_ILLEGAL => 44
  | IMPORT_MODULE_BAD => 45
  | IMPORT_MODULE_ENV => 46
  | IMPORT_NAME_BAD => 47
  | INSTALL_FLAG => 48
  | INSTALL_MISSING => 49
  | INSTRUCTION_COUNT => 50
  | INSTRUCTION_EXCESS => 51
  | MEMORY_GROW => 52
  | NAMESPACE_MISSING => 53
  | NSDELETE => 54
  | NSDELETE_ACCOUNT => 55
  | NSDELETE_COUNT => 56
  | NSDELETE_DIR => 57
  | NSDELETE_DIRECTORY => 58
  | NSDELETE_DIR_ENTRY => 59
  | NSDELETE_ENTRY => 60
  | NSDELETE_FIELD => 61
  | NSDELETE_FLAGS => 62
  | NSDELETE_NONSTATE => 63
  | NSDELETE_NOTHING => 64
  | OPERATION_INVALID => 65
  | OVERRIDE_MISSING => 66
  | PARAMETERS_FIELD => 67
  | PARAMETERS_ILLEGAL => 68
  | PARAMETERS_NAME => 69
  | PARAM_HOOK_CBAK => 70
  | RETURN_HOOK_CBAK => 71
  | SHORT_HOOK => 72
  | TYPE_INVALID => 73
  | WASM_BAD_MAGIC => 74
  | WASM_INVALID => 75
  | WASM_PARSE_LOOP => 76
  | WASM_SMOKE_TEST => 77
  | WASM_TEST_FAILURE => 78
  | WASM_TOO_BIG => 79
  | WASM_TOO_SMALL => 80
  | WASM_VALIDATION => 81
  | HOOK_CBAK_DIFF_TYPES => 82
  | PARAMETERS_NAME_REPEATED => 83
  | NESTING_LIMIT => 84
  | SECTIONS_OUT_OF_SEQUENCE => 85
  | CUSTOM_SECTION_DISALLOWED => 86
  end.

(** [hook_api::hook_return_code] *)
Inductive hook_return_code :=
| SUCCESS | OUT_OF_BOUNDS | INTERNAL_ERROR | TOO_BIG
| TOO_SMALL | DOESNT_EXIST | NO_FREE_SLOTS | INVALID_ARGUMENT
| ALREADY_SET | PREREQUISITE_NOT_MET | FEE_TOO_LARGE | EMISSION_FAILURE
| TOO_MANY_NONCES | TOO_MANY_EMITTED_TXN | NOT_IMPLEMENTED | INVALID_ACCOUNT
| GUARD_VIOLATION | INVALID_FIELD | PARSE_ERROR | RC_ROLLBACK
| RC_ACCEPT | NO_SUCH_KEYLET | NOT_AN_ARRAY | NOT_AN_OBJECT
| INVALID_FLOAT | DIVISION_BY_ZERO | MANTISSA_OVERSIZED | MANTISSA_UNDERSIZED
| EXPONENT_OVERSIZED | EXPONENT_UNDERSIZED | XFL_OVERFLOW | NOT_IOU_AMOUNT
| NOT_AN_AMOUNT | CANT_RETURN_NEGATIVE | NOT_AUTHORIZED | PREVIOUS_FAILURE_PREVENTS_RETRY
| TOO_MANY_PARAMS | INVALID_TXN | RESERVE_INSUFFICIENT | COMPLEX_NOT_SUPPORTED
| DOES_NOT_MATCH | INVALID_KEY | NOT_A_STRING | MEM_OVERLAP
| TOO_MANY_STATE_MODIFICATIONS.

(** The [int64_t] value of a return code; the enumeration converts implicitly,
    as it does in the source. *)
Definition rc (c : hook_return_code) : Z :=
  match c with
  | SUCCESS => 0
  | OUT_OF_BOUNDS => -1
  | INTERNAL_ERROR => -2
  | TOO_BIG => -3
  | TOO_SMALL => -4
  | DOESNT_EXIST => -5
  | NO_FREE_SLOTS => -6
  | INVALID_ARGUMENT => -7
  | ALREADY_SET => -8
  | PREREQUISITE_NOT_MET => -9
  | FEE_TOO_LARGE => -10
  | EMISSION_FAILURE => -11
  | TOO_MANY_NONCES => -12
  | TOO_MANY_EMITTED_TXN => -13
  | NOT_IMPLEMENTED => -14
  | INVALID_ACCOUNT => -15
  | GUARD_VIOLATION => -16
  | INVALID_FIELD => -17
  | PARSE_ERROR => -18
  | RC_ROLLBACK => -19
  | RC_ACCEPT => -20
  | NO_SUCH_KEYLET => -21
  | NOT_AN_ARRAY => -22
  | NOT_AN_OBJECT => -23
  | INVALID_FLOAT => -10024
  | DIVISION_BY_ZERO => -25
  | MANTISSA_OVERSIZED => -26
  | MANTISSA_UNDERSIZED => -27
  | EXPONENT_OVERSIZED => -28
  | EXPONENT_UNDERSIZED => -29
  | XFL_OVERFLOW => -30
  | NOT_IOU_AMOUNT => -31
  | NOT_AN_AMOUNT => -32
  | CANT_RETURN_NEGATIVE => -33
  | NOT_AUTHORIZED => -34
  | PREVIOUS_FAILURE_PREVENTS_RETRY => -35
  | TOO_MANY_PARAMS => -36
  | INVALID_TXN => -37
  | RESERVE_INSUFFICIENT => -38
  | COMPLEX_NOT_SUPPORTED => -39
  | DOES_NOT_MATCH => -40
  | INVALID_KEY => -41
  | NOT_A_STRING => -42
  | MEM_OVERLAP => -43
  | TOO_MANY_STATE_MODIFICATIONS => -44
  end.
Coercion rc : hook_return_code >-> Z.

(** [hook_api::ExitType] *)
Inductive ExitType := UNSET | WASM_ERROR | ROLLBACK | ACCEPT.

#[export] Instance ExitType_eq_dec : EqDecision ExitType.
Proof. solve_decision. Defined.

(** Limits of the hook API. *)
Definition max_state_modifications : Z := 5000.
Definition max_slots : Z := 255.
Definition max_nonce : Z := 255.
Definition max_emit : Z := 255.
Definition max_params : Z := 16.

(** [hook_api::import_whitelist]: the name of every API function a hook may
    import, with its WebAssembly result type followed by its parameter types. *)
Definition import_whitelist : list (string * list Z) :=
  [ ("_g"%string, [0x7F; 0x7F; 0x7F])
  ; ("accept"%string, [0x7E; 0x7F; 0x7F; 0x7E])
  ; ("rollback"%string, [0x7E; 0x7F; 0x7F; 0x7E])
  ; ("util_raddr"%string, [0x7E; 0x7F; 0x7F; 0x7F; 0x7F])
  ; ("util_accid"%string, [0x7E; 0x7F; 0x7F; 0x7F; 0x7F])
  ; ("util_verify"%string, [0x7E; 0x7F; 0x7F; 0x7F; 0x7F; 0x7F; 0x7F])
  ; ("sto_validate"%string, [0x7E; 0x7F; 0x7F])
  ; ("sto_subfield"%string, [0x7E; 0x7F; 0x7F; 0x7F])
  ; ("sto_subarray"%string, [0x7E; 0x7F; 0x7F; 0x7F])
  ; ("sto_emplace"%string, [0x7E; 0x7F; 0x7F; 0x7F; 0x7F; 0x7F; 0x7F; 0x7F])
  ; ("sto_erase"%string, [0x7E; 0x7F; 0x7F; 0x7F; 0x7F; 0x7F])
  ; ("util_sha512h"%string, [0x7E; 0x7F; 0x7F; 0x7F; 0x7F])
  ; ("util_keylet"%string, [0x7E; 0x7F; 0x7F; 0x7F; 0x7F; 0x7F; 0x7F; 0x7F; 0x7F; 0x7F])
  ; ("etxn_burden"%string, [0x7E])
  ; ("etxn_details"%string, [0x7E; 0x7F; 0x7F])
  ; ("etxn_fee_base"%string, [0x7E; 0x7F; 0x7F])
  ; ("etxn_reserve"%string, [0x7E; 0x7F])
  ; ("etxn_generation"%string, [0x7E])
  ; ("etxn_nonce"%string, [0x7E; 0x7F; 0x7F])
  ; ("emit"%string, [0x7E; 0x7F; 0x7F; 0x7F; 0x7F])
  ; ("float_set"%string, [0x7E; 0x7F; 0x7E])
  ; ("float_multiply"%string, [0x7E; 0x7E; 0x7E])
  ; ("float_mulratio"%string, [0x7E; 0x7E; 0x7F; 0x7F; 0x7F])
  ; ("float_negate"%string, [0x7E; 0x7E])
  ; ("float_compare"%string, [0x7E; 0x7E; 0x7E; 0x7F])
  ; ("float_sum"%string, [0x7E; 0x7E; 0x7E])
  ; ("float_sto"%string, [0x7E; 0x7F; 0x7F; 0x7F; 0x7F; 0x7F; 0x7F; 0x7E; 0x7F])
  ; ("float_sto_set"%string, [0x7E; 0x7F; 0x7F])
  ; ("float_invert"%string, [0x7E; 0x7E])
  ; ("float_divide"%string, [0x7E; 0x7E; 0x7E])
  ; ("float_one"%string, [0x7E])
  ; ("float_mantissa"%string, [0x7E; 0x7E])
  ; ("float_sign"%string, [0x7E; 0x7E])
  ; ("float_int"%string, [0x7E; 0x7E; 0x7F; 0x7F])
  ; ("float_log"%string, [0x7E; 0x7E])
  ; ("float_root"%string, [0x7E; 0x7E; 0x7F])
  ; ("hook_account"%string, [0x7E; 0x7F; 0x7F])
  ; ("hook_hash"%string, [0x7E; 0x7F; 0x7F; 0x7F])
  ; ("fee_base"%string, [0x7E])
  ; ("ledger_seq"%string, [0x7E])
  ; ("ledger_last_time"%string, [0x7E])
  ; ("ledger_last_hash"%string, [0x7E; 0x7F; 0x7F])
  ; ("ledger_nonce"%string, [0x7E; 0x7F; 0x7F])
  ; ("ledger_keylet"%string, [0x7E; 0x7F; 0x7F; 0x7F; 0x7F; 0x7F; 0x7F])
  ; ("hook_param_set"%string, [0x7E; 0x7F; 0x7F; 0x7F; 0x7F; 0x7F; 0x7F])
  ; ("hook_param"%string, [0x7E; 0x7F; 0x7F; 0x7F; 0x7F])
  ; ("hook_again"%string, [0x7E])
  ; ("hook_skip"%string, [0x7E; 0x7F; 0x7F; 0x7F])
  ; ("hook_pos"%string, [0x7E])
  ; ("slot"%string, [0x7E; 0x7F; 0x7F; 0x7F])
  ; ("slot_clear"%string, [0x7E; 0x7F])
  ; ("slot_count"%string, [0x7E; 0x7F])
  ; ("slot_set"%string, [0x7E; 0x7F; 0x7F; 0x7F])
  ; ("slot_size"%string, [0x7E; 0x7F])
  ; ("slot_subarray"%string, [0x7E; 0x7F; 0x7F; 0x7F])
  ; ("slot_subfield"%string, [0x7E; 0x7F; 0x7F; 0x7F])
  ; ("slot_type"%string, [0x7E; 0x7F; 0x7F])
  ; ("slot_float"%string, [0x7E; 0x7F])
  ; ("state_set"%string, [0x7E; 0x7F; 0x7F; 0x7F; 0x7F])
  ; ("state_foreign_set"%string, [0x7E; 0x7F; 0x7F; 0x7F; 0x7F; 0x7F; 0x7F; 0x7F; 0x7F])
  ; ("state"%string, [0x7E; 0x7F; 0x7F; 0x7F; 0x7F])
  ; ("state_foreign"%string, [0x7E; 0x7F; 0x7F; 0x7F; 0x7F; 0x7F; 0x7F; 0x7F; 0x7F])
  ; ("trace"%string, [0x7E; 0x7F; 0x7F; 0x7F; 0x7F; 0x7F])
  ; ("trace_num"%string, [0x7E; 0x7F; 0x7F; 0x7E])
  ; ("trace_float"%string, [0x7E; 0x7F; 0x7F; 0x7E])
  ; ("otxn_burden"%string, [0x7E])
  ; ("otxn_field"%string, [0x7E; 0x7F; 0x7F; 0x7F])
  ; ("otxn_generation"%string, [0x7E])
  ; ("otxn_id"%string, [0x7E; 0x7F; 0x7F; 0x7F])
  ; ("otxn_type"%string, [0x7E])
  ; ("otxn_slot"%string, [0x7E; 0x7F])
  ; ("otxn_param"%string, [0x7E; 0x7F; 0x7F; 0x7F; 0x7F])
  ; ("meta_slot"%string, [0x7E; 0x7F])
  ].

(** The bytes of a name, to compare it with the bytes of a binary. *)
Fixpoint string_bytes (s : string) : list Z :=
  match s with
  | EmptyString => []
  | String c s' => Z.of_N (Ascii.N_of_ascii c) :: string_bytes s'
  end.

(** [import_whitelist.find(name)] on the bytes of an import name. *)
Definition whitelist_find (name : list Z) : option (list Z) :=
  match find (fun e => bool_decide (string_bytes e.1 = name)) import_whitelist with
  | Some e => Some e.2
  | None => None
  end.
