(* ===== verification/Leb128.v ===== *)
(** * Leb128: the integer decoders of the guard checker ([app/hook/Guard.h])

    WebAssembly stores its lengths, counts, indices and constants as LEB128.
    [parseLeb128] and [parseSignedLeb128] decode them from a hook's byte code;
    every offset the guard checker computes goes through them.  The theorems
    give their exact meaning (the decoded value is the weighted sum of the
    7-bit groups, reduced modulo 2^64), the round trip with the canonical
    encoder, and the progress and bounds facts that make the scanners of
    [GuardCheck] and [GuardValidate] terminate. *)

From stdpp Require Import base numbers list option.
From Stdlib Require Import ZArith Lia.
From S2P Require Import Prelude Enum.

Local Open Scope Z_scope.

(** ** How the guard checker fails

    [Rejected c] is the early return of an empty optional after logging [c];
    [Thrown x] an exception that leaves the function; [NoFuel] marks a scan
    that did not finish within the iterations it was given, and is never the
    result of a loop whose termination is proved. *)

Inductive cxx_exception := overflow_error | length_error | runtime_error.

Inductive guard_err :=
| Rejected (c : hook_log_code)
| Thrown (x : cxx_exception)
| NoFuel.

Abbreviation gres := (res guard_err).

(** [for (int j = ...; j < count; ++j) body]: the state is what the body
    assigns, [fuel] bounds the iterations. *)
Fixpoint for_loop {A} (fuel : nat) (body : Z -> A -> gres A) (j count : Z) (s : A) : gres A :=
  if j <? count then
    match fuel with
    | O => Err NoFuel
    | S fuel => s ← body j s; for_loop fuel body (j + 1) count s
    end
  else Val s.

Section for_loop.
Context {A : Type} (body : Z -> A -> gres A).

(** Rule for invariants of a loop. *)
Lemma for_loop_inv (I : Z -> A -> Prop) count fuel j s s' :
  (forall j s s', j < count -> I j s -> body j s = Val s' -> I (j + 1) s') ->
  I j s -> for_loop fuel body j count s = Val s' -> I (Z.max j count) s'.
Proof.
  intros Hb. revert j s. induction fuel as [|fuel IH]; intros j s Hi H; cbn [for_loop] in H;
    destruct (Z.ltb_spec j count); try done.
  - injection H as <-. by rewrite Z.max_l by lia.
  - res_inv. replace (Z.max j count) with (Z.max (j + 1) count) by lia. eauto.
  - injection H as <-. by rewrite Z.max_l by lia.
Qed.

(** A loop whose body consumes part of a buffer ends within the buffer's size. *)
Lemma for_loop_fuel (P : A -> Prop) (off : A -> Z) bound count fuel j s :
  (forall s, P s -> off s <= bound) ->
  (forall j s, P s -> body j s <> Err NoFuel) ->
  (forall j s s', P s -> body j s = Val s' -> P s' /\ off s < off s') ->
  P s -> bound - off s <= Z.of_nat fuel ->
  for_loop (S fuel) body j count s <> Err NoFuel.
Proof.
  intros HP Hn Hb. revert j s. induction fuel as [|fuel IH]; intros j s Hs Hf; cbn [for_loop];
    destruct (j <? count); try done; pose proof (Hn j s Hs); pose proof (Hb j s) as Hbs;
    destruct (body j s) as [s'|e|]; cbn -[for_loop]; try congruence;
    destruct (Hbs s' Hs eq_refl) as [Hs' ?]; pose proof (HP s' Hs').
  - lia.
  - apply IH; [done|lia].
Qed.
End for_loop.

(** ** The decoders

    [rest] is the buffer from offset [i] on, so the loop condition
    [i < buf.size()] is "[rest] is not empty".  A shift by 64 or more is
    undefined.  The result is the value and the new [*end_offset]; when the
    loop is not entered the offset is left as it was, which is the [i] the
    callers pass. *)

Fixpoint leb_loop (rest : list Z) (val shift i : Z) {struct rest} : gres (Z * Z) :=
  match rest with
  | [] => Val (0, i)
  | b :: rest' =>
      if 64 <=? shift then Undef
      else
        let last := val in
        let val := u64 (val + u64 (Z.shiftl (Z.land b 0x7F) shift)) in
        if val <? last then Err (Thrown overflow_error)
        else if Z.land b 0x80 =? 0 then Val (val, i32 (i + 1))
        else match rest' with
             | [] => Err (Thrown length_error)
             | _ => leb_loop rest' val (shift + 7) (i + 1)
             end
  end.

(** A negative start offset becomes a huge unsigned one: the loop is not
    entered. *)
Definition parseLeb128 (buf : list Z) (start_offset : Z) : gres (Z * Z) :=
  if start_offset <? 0 then Val (0, start_offset)
  else leb_loop (drop (Z.to_nat start_offset) buf) 0 0 start_offset.

(** The signed decoder accumulates in an [int64_t]; the sign extension shifts
    the [int] [~0] by the shift of the last group. *)
Fixpoint sleb_loop (rest : list Z) (val shift i : Z) {struct rest} : gres (Z * Z) :=
  match rest with
  | [] => Val (0, i)
  | b :: rest' =>
      if 64 <=? shift then Undef
      else
        let last := val in
        let val := i64 (val + u64 (Z.shiftl (Z.land b 0x7F) shift)) in
        if val <? last then Err (Thrown overflow_error)
        else if Z.land b 0x80 =? 0 then
          if (shift <? 64) && negb (Z.land b 0x40 =? 0) then
            if 32 <=? shift then Undef
            else Val (i64 (Z.lor val (i32 (Z.shiftl (-1) shift))), i32 (i + 1))
          else Val (val, i32 (i + 1))
        else match rest' with
             | [] => Err (Thrown length_error)
             | _ => sleb_loop rest' val (shift + 7) (i + 1)
             end
  end.

Definition parseSignedLeb128 (buf : list Z) (start_offset : Z) : gres (Z * Z) :=
  if start_offset <? 0 then Val (0, start_offset)
  else sleb_loop (drop (Z.to_nat start_offset) buf) 0 0 start_offset.

(** ** Specification: the LEB128 format *)

(** The number a group sequence stands for. *)
Fixpoint leb_value (bs : list Z) : Z :=
  match bs with
  | [] => 0
  | b :: bs' => b mod 128 + 128 * leb_value bs'
  end.

(** A complete group sequence: continuation bits on all bytes but the last. *)
Fixpoint leb_groups (bs : list Z) : Prop :=
  match bs with
  | [] => False
  | [b] => b < 128
  | b :: bs' => 128 <= b /\ leb_groups bs'
  end.

(** The canonical encoder; [fuel] groups hold every number below [2^(7*fuel)]. *)
Fixpoint leb_encode_fuel (fuel : nat) (n : Z) : list Z :=
  match fuel with
  | O => []
  | S fuel' => if n <? 128 then [n] else (n mod 128 + 128) :: leb_encode_fuel fuel' (n / 128)
  end.
Definition leb_encode (n : Z) : list Z := leb_encode_fuel 10 n.

(** ** Facts on groups *)

Lemma land_7F b : Z.land b 0x7F = b mod 128.
Proof. apply (Z.land_ones b 7). lia. Qed.

Lemma land_80_zero b : byte_range b -> (Z.land b 0x80 =? 0) = (b <? 128).
Proof.
  intros Hb.
  assert (forallb (fun n => Bool.eqb (Z.land (Z.of_nat n) 0x80 =? 0) (Z.of_nat n <? 128)) (seq 0 256)
          = true) as Hall by reflexivity.
  rewrite forallb_forall in Hall.
  specialize (Hall (Z.to_nat b)). unfold byte_range in Hb.
  rewrite Z2Nat.id in Hall by lia. apply eqb_prop, Hall, in_seq. lia.
Qed.

Lemma leb_value_bounds bs : 0 <= leb_value bs < 2 ^ (7 * Z.of_nat (length bs)).
Proof.
  induction bs as [|b bs IH]; cbn [leb_value length]; [lia|].
  pose proof (Z.mod_pos_bound b 128).
  replace (7 * Z.of_nat (S (length bs))) with (7 + 7 * Z.of_nat (length bs)) by lia.
  rewrite Z.pow_add_r by lia. change (2 ^ 7) with 128. nia.
Qed.

(** One iteration of the loop adds a group, modulo 2^64. *)
Lemma leb_add val b shift v :
  0 <= shift ->
  u64 (u64 (val + u64 (Z.shiftl (Z.land b 0x7F) shift)) + v * 2 ^ (shift + 7)) =
  u64 (val + (b mod 128 + 128 * v) * 2 ^ shift).
Proof.
  intros Hs. rewrite land_7F, Z.shiftl_mul_pow2, Z.pow_add_r by lia.
  unfold u64, uwrap. rewrite Zplus_mod_idemp_l, <- Z.add_assoc.
  rewrite <- Zplus_mod_idemp_r, Zplus_mod_idemp_l, Zplus_mod_idemp_r.
  f_equal. change (2 ^ 7) with 128. lia.
Qed.

Lemma leb_loop_spec rest val shift i v e :
  bytes_ok rest -> 0 <= shift -> u64_range val -> rest <> [] ->
  leb_loop rest val shift i = Val (v, e) ->
  exists bs rest', rest = bs ++ rest' /\ leb_groups bs /\
    v = u64 (val + leb_value bs * 2 ^ shift) /\ e = i32 (i + vsize bs) /\
    shift + 7 * vsize bs < 71.
Proof.
  revert val shift i. induction rest as [|b rest IH]; intros val shift i Hok Hs Hval Hne H; [done|].
  cbn [leb_loop] in H. destruct (Z.leb_spec 64 shift); [done|].
  inversion Hok as [|? ? Hb Hok']; subst.
  case_if H. rewrite land_80_zero in H by done. destruct (Z.ltb_spec b 128) as [Hlt|Hge].
  - injection H as <- <-. exists [b], rest. cbn [leb_groups leb_value vsize].
    rewrite !vsize_cons. change (vsize []) with 0. repeat split; try lia.
    pose proof (leb_add val b shift 0 Hs) as E. rewrite Z.mul_0_l, Z.add_0_r in E.
    rewrite <- E. symmetry. apply u64_small, u64_bound.
  - destruct rest as [|b' rest']; [done|].
    destruct (IH _ (shift + 7) (i + 1) Hok' ltac:(lia) (u64_bound _) ltac:(done) H)
      as (bs & r & Hr & Hg & Hv & He & Hl).
    exists (b :: bs), r. rewrite vsize_cons. cbn [leb_value app].
    split; [by rewrite Hr|]. split; [destruct bs; [done|by split]|].
    split; [by rewrite Hv, leb_add by done|]. split; [rewrite He; f_equal; lia|lia].
Qed.

Lemma sleb_loop_offset rest val shift i v e :
  rest <> [] -> sleb_loop rest val shift i = Val (v, e) ->
  exists n, 0 < n <= vsize rest /\ e = i32 (i + n).
Proof.
  revert val shift i. induction rest as [|b rest IH]; intros val shift i Hne H; [done|].
  cbn [sleb_loop] in H. pose proof (vsize_nonneg rest). rewrite vsize_cons.
  case_if H. case_if H. case_if H.
  - case_if H; [case_if H|]; injection H as <- <-; exists 1; split; [lia|done|lia|done].
  - destruct rest as [|b' rest']; [done|].
    destruct (IH _ (shift + 7) (i + 1) ltac:(done) H) as (n & Hn & He).
    exists (1 + n). split; [lia|rewrite He; f_equal; lia].
Qed.

(** ** Progress: the scanners' view of the decoders *)

(** Inside the buffer a decoder moves the offset forward, never past the end;
    outside it, it yields 0 and leaves the offset. *)
Lemma parseLeb128_progress buf i v e :
  bytes_ok buf -> vsize buf < 2 ^ 31 -> 0 <= i ->
  parseLeb128 buf i = Val (v, e) ->
  u64_range v /\ (i < e <= vsize buf \/ (vsize buf <= i /\ e = i /\ v = 0)).
Proof.
  unfold parseLeb128, u64_range. intros Hok Hsz Hi H.
  destruct (Z.ltb_spec i 0); [lia|].
  destruct (drop (Z.to_nat i) buf) as [|b r] eqn:Hd.
  - injection H as <- <-. split; [lia|right].
    apply (f_equal length) in Hd. rewrite length_drop in Hd. cbn in Hd.
    unfold vsize. repeat split; lia.
  - assert (bytes_ok (b :: r)) as Hok' by (rewrite <- Hd; by apply Forall_drop).
    destruct (leb_loop_spec _ 0 0 i v e Hok' ltac:(lia) ltac:(unfold u64_range; lia) ltac:(done) H)
      as (bs & r' & Hr & Hg & -> & -> & Hl).
    split; [apply u64_bound|left].
    assert (vsize (b :: r) = vsize buf - i) as Hlen.
    { rewrite <- Hd. unfold vsize. rewrite length_drop.
      assert (Z.to_nat i < length buf)%nat; [|lia].
      apply (f_equal length) in Hd. rewrite length_drop in Hd. cbn in Hd. lia. }
    rewrite Hr, vsize_app in Hlen. pose proof (vsize_nonneg r').
    destruct bs as [|b0 bs]; [done|]. rewrite vsize_cons in *. pose proof (vsize_nonneg bs).
    rewrite i32_small; lia.
Qed.

Lemma parseSignedLeb128_progress buf i v e :
  vsize buf < 2 ^ 31 -> 0 <= i < vsize buf ->
  parseSignedLeb128 buf i = Val (v, e) -> i < e <= vsize buf.
Proof.
  unfold parseSignedLeb128. intros Hsz Hi H. destruct (Z.ltb_spec i 0); [lia|].
  assert (vsize (drop (Z.to_nat i) buf) = vsize buf - i) as Hlen.
  { unfold vsize in *. rewrite length_drop. lia. }
  assert (drop (Z.to_nat i) buf <> []) as Hne.
  { intros Hd. rewrite Hd in Hlen. change (vsize []) with 0 in Hlen. lia. }
  destruct (sleb_loop_offset _ _ _ _ _ _ Hne H) as (n & Hn & ->).
  rewrite i32_small; lia.
Qed.
#[export] Hint Resolve parseLeb128_progress parseSignedLeb128_progress : hook_arith.

(** ** Round trip with the canonical encoder *)

Lemma leb_encode_fuel_nonempty fuel n : fuel <> O -> leb_encode_fuel fuel n <> [].
Proof. destruct fuel; cbn; [done|]. by destruct (n <? 128). Qed.

Lemma leb_loop_encode fuel n suf val shift i :
  0 <= n < 2 ^ (7 * Z.of_nat fuel) -> fuel <> O -> 0 <= shift < 64 -> 0 <= val ->
  val + n * 2 ^ shift < 2 ^ 64 ->
  leb_loop (leb_encode_fuel fuel n ++ suf) val shift i =
  Val (val + n * 2 ^ shift, i32 (i + vsize (leb_encode_fuel fuel n))).
Proof.
  revert n val shift i. induction fuel as [|fuel IH]; intros n val shift i Hn Hf Hs Hv Hlt; [done|].
  assert (0 < 2 ^ shift) as Hpos by lia.
  assert (forall b, 0 <= b -> (b mod 128) * 2 ^ shift <= b * 2 ^ shift) as Hmod.
  { intros b Hb. pose proof (Z.mod_le b 128). nia. }
  cbn [leb_encode_fuel]. destruct (Z.ltb_spec n 128) as [Hsm|Hbig].
  - cbn [app leb_loop]. rewrite (proj2 (Z.leb_gt 64 shift)) by lia.
    rewrite land_7F, Z.shiftl_mul_pow2, Z.mod_small by lia.
    rewrite (u64_small (n * _)), u64_small by nia.
    rewrite (proj2 (Z.ltb_ge _ val)) by nia.
    rewrite land_80_zero by (unfold byte_range; lia).
    by rewrite (proj2 (Z.ltb_lt n 128)) by lia.
  - cbn [app leb_loop]. rewrite (proj2 (Z.leb_gt 64 shift)) by lia.
    pose proof (Z.mod_pos_bound n 128 ltac:(lia)) as Hm.
    pose proof (Z.div_mod n 128 ltac:(lia)) as Hdm.
    assert (1 <= n / 128) as Hq by (apply Z.div_le_lower_bound; lia).
    assert (2 ^ (shift + 7) = 128 * 2 ^ shift) as Hp7 by (rewrite Z.pow_add_r by lia; lia).
    rewrite land_7F, Z.shiftl_mul_pow2 by lia.
    replace ((n mod 128 + 128) mod 128) with (n mod 128)
      by (rewrite <- Zplus_mod_idemp_r, Z_mod_same_full, Z.add_0_r, Z.mod_mod; lia).
    rewrite (u64_small (_ * _)), u64_small by nia.
    rewrite (proj2 (Z.ltb_ge _ val)) by nia.
    rewrite land_80_zero by (unfold byte_range; lia).
    rewrite (proj2 (Z.ltb_ge (n mod 128 + 128) 128)) by lia.
    assert (0 <= n / 128 < 2 ^ (7 * Z.of_nat fuel)) as Hn'.
    { split; [lia|]. apply Z.div_lt_upper_bound; [lia|].
      replace (7 * Z.of_nat (S fuel)) with (7 + 7 * Z.of_nat fuel) in Hn by lia.
      rewrite Z.pow_add_r in Hn by lia. lia. }
    assert (fuel <> O) as Hf' by (intros ->; cbn in Hn'; lia).
    assert (shift + 7 < 64) as Hs'.
    { apply (Z.pow_lt_mono_r_iff 2); [lia..|]. nia. }
    destruct (leb_encode_fuel fuel (n / 128) ++ suf) as [|b0 r0] eqn:Henc.
    { apply app_eq_nil in Henc as [Henc _]. by apply leb_encode_fuel_nonempty in Henc. }
    rewrite <- Henc, IH by (try done; nia).
    rewrite vsize_cons. do 2 f_equal; [nia|f_equal; lia].
Qed.

(** Decoding what the canonical LEB128 encoder produced, anywhere in a
    buffer, yields the number that was encoded and the offset just past it. *)
Theorem parseLeb128_encode pre n suf :
  u64_range n -> vsize (pre ++ leb_encode n ++ suf) < 2 ^ 31 ->
  parseLeb128 (pre ++ leb_encode n ++ suf) (vsize pre) =
  Val (n, vsize pre + vsize (leb_encode n)).
Proof.
  unfold u64_range. intros Hn Hsz. pose proof (vsize_nonneg pre). unfold parseLeb128.
  rewrite (proj2 (Z.ltb_ge _ 0)) by lia. unfold vsize at 1. rewrite Nat2Z.id, drop_app_length.
  unfold leb_encode. rewrite leb_loop_encode by (cbn; lia).
  rewrite !vsize_app in Hsz. pose proof (vsize_nonneg (leb_encode n)).
  pose proof (vsize_nonneg suf). unfold leb_encode in *.
  rewrite i32_small by lia. do 2 f_equal. lia.
Qed.

Lemma parseLeb128_encode_witness :
  parseLeb128 ([0x41] ++ leb_encode 624485 ++ [0x10]) (vsize [0x41]) = Val (624485, 4).
Proof. apply (parseLeb128_encode [0x41] 624485 [0x10]); vm_compute; [split; congruence|reflexivity]. Defined.

(** What the decoder accepts and what it returns: inside the buffer a
    successful decode consumed a complete group sequence of at most ten bytes;
    the offset moved just past it; the value is the number the groups stand
    for, reduced modulo 2^64, and it is exact up to nine bytes. *)
Theorem parseLeb128_value buf i v e :
  bytes_ok buf -> vsize buf < 2 ^ 31 -> 0 <= i < vsize buf ->
  parseLeb128 buf i = Val (v, e) ->
  exists bs rest, drop (Z.to_nat i) buf = bs ++ rest /\ leb_groups bs /\
    vsize bs <= 10 /\ e = i + vsize bs /\ v = leb_value bs mod 2 ^ 64 /\
    (vsize bs <= 9 -> v = leb_value bs).
Proof.
  intros Hok Hsz Hi H. unfold parseLeb128 in H. destruct (Z.ltb_spec i 0); [lia|].
  assert (vsize (drop (Z.to_nat i) buf) = vsize buf - i) as Hlen
    by (unfold vsize in *; rewrite length_drop; lia).
  assert (drop (Z.to_nat i) buf <> []) as Hne
    by (intros Hd; rewrite Hd in Hlen; change (vsize []) with 0 in Hlen; lia).
  destruct (leb_loop_spec _ 0 0 i v e (Forall_drop _ _ _ Hok) ltac:(lia)
              ltac:(unfold u64_range; lia) Hne H) as (bs & r & Hr & Hg & Hv & He & Hl).
  exists bs, r. rewrite Hr, vsize_app in Hlen.
  pose proof (vsize_nonneg bs). pose proof (vsize_nonneg r).
  rewrite Z.mul_1_r, Z.add_0_l in Hv. repeat split; try done; try lia.
  - rewrite He, i32_small; lia.
  - intros H9. rewrite Hv. pose proof (leb_value_bounds bs) as Hb. fold (vsize bs) in Hb.
    apply u64_small. split; [lia|]. apply (Z.lt_le_trans _ _ _ (proj2 Hb)).
    apply Z.pow_le_mono_r; lia.
Qed.

Lemma parseLeb128_value_witness :
  exists bs rest, drop 1 [0x0B; 0xE5; 0x8E; 0x26; 0x0B] = bs ++ rest /\ leb_groups bs /\
    vsize bs <= 10 /\ 4 = 1 + vsize bs /\ 624485 = leb_value bs mod 2 ^ 64 /\
    (vsize bs <= 9 -> 624485 = leb_value bs).
Proof.
  apply (parseLeb128_value [0x0B; 0xE5; 0x8E; 0x26; 0x0B] 1 624485 4);
    [repeat constructor; unfold byte_range; lia|reflexivity|split; [discriminate|reflexivity]
    |reflexivity].
Defined.

(** The overflow test does not see the bits a tenth group shifts out: the
    encoding of 2^64 decodes to 0. *)
Lemma parseLeb128_wraps_silently :
  leb_value (replicate 9 0x80 ++ [0x02]) = 2 ^ 64 /\
  parseLeb128 (replicate 9 0x80 ++ [0x02]) 0 = Val (0, 10).
Proof. split; vm_compute; reflexivity. Qed.

(** The sign extension starts at the last group instead of above it: the
    one-byte encoding of -64 decodes to -1. *)
Lemma parseSignedLeb128_sign_bit : parseSignedLeb128 [0x40] 0 = Val (-1, 1).
Proof. vm_compute. reflexivity. Qed.

(** A one-byte constant with the sign bit set is negative for WebAssembly, but
    the unsigned decoder, which the guard checker uses to read a loop's
    iteration bound, returns a small positive number. *)
Lemma parseLeb128_negative_const : parseLeb128 [0x7F] 0 = Val (127, 1).
Proof. vm_compute. reflexivity. Qed.
