(* ===== verification/Double.v ===== *)
(** * Double: the floating-point arithmetic of the guard checker

    [compute_wce] of [app/hook/Guard.h] scales instruction counts with C++
    [double]s.  They are IEEE-754 binary64 numbers, which the Standard Library
    specifies by executable definitions ([SpecFloat]); this file instantiates
    them (precision 53, maximal exponent 1024, rounding to nearest even), gives
    the conversions from and to 64-bit integers, and proves that products and
    quotients of integers are exact when the result is an integer below
    [2^53]. *)

From stdpp Require Import base numbers option.
From Stdlib Require Import ZArith Lia SpecFloat.
From S2P Require Import Prelude.

Local Open Scope Z_scope.

Abbreviation double := spec_float.

(** The conversion of an integer rounds to nearest even. *)
Definition dbl (z : Z) : double := binary_normalize 53 1024 z 0 false.
Definition dbl_mul : double -> double -> double := SFmul 53 1024.
Definition dbl_div : double -> double -> double := SFdiv 53 1024.

Definition dbl_add : double -> double -> double := SFadd 53 1024.
Definition dbl_opp : double -> double := SFopp.
Definition dbl_ltb : double -> double -> bool := SFltb.
Definition dbl_eqb : double -> double -> bool := SFeqb.

(** The conversion to a signed integer type of [w] bits truncates. *)
Definition dbl_to_int {E} (w : Z) (f : double) : res E Z :=
  match f with
  | S754_zero _ => Val 0
  | S754_finite s m e =>
      let z := (if s then -1 else 1) * (if 0 <=? e then Zpos m * 2 ^ e else Zpos m / 2 ^ (- e)) in
      if (- 2 ^ (w - 1) <=? z) && (z <? 2 ^ (w - 1)) then Val z else Undef
  | _ => Undef
  end.

(** The conversion to [uint64_t] truncates; out of range it is undefined. *)
Definition dbl_to_u64 {E} (f : double) : res E Z :=
  match f with
  | S754_zero _ => Val 0
  | S754_finite s m e =>
      let z := (if s then -1 else 1) * (if 0 <=? e then Zpos m * 2 ^ e else Zpos m / 2 ^ (- e)) in
      if (0 <=? z) && (z <? 2 ^ 64) then Val z else Undef
  | _ => Undef
  end.

(** ** Exactness on integers below [2^53] *)

(** [rep f n]: the double [f] is the integer [n], with a full mantissa. *)
Definition rep (f : double) (n : Z) : Prop :=
  exists m e, f = S754_finite false m e /\ 2 ^ 52 <= Zpos m < 2 ^ 53 /\
    -1022 <= e <= 0 /\ Zpos m = n * 2 ^ (- e).

Lemma digits2_pos_log2 p : Zpos (digits2_pos p) = Z.log2 (Zpos p) + 1.
Proof.
  induction p as [p IH|p IH|]; cbn [digits2_pos]; [..|reflexivity];
    rewrite Pos2Z.inj_succ, IH.
  - rewrite Pos2Z.inj_xI, Z.log2_succ_double by lia. lia.
  - rewrite Pos2Z.inj_xO, Z.log2_double by lia. lia.
Qed.

Lemma Zdigits2_bounds z d : 0 < d -> 2 ^ (d - 1) <= z < 2 ^ d -> Zdigits2 z = d.
Proof.
  intros Hd Hz. assert (0 < 2 ^ (d - 1)) by lia.
  destruct z as [|p|p]; [lia| |lia]. cbn [Zdigits2]. rewrite digits2_pos_log2.
  rewrite (Z.log2_unique _ (d - 1)); [lia|lia|]. rewrite <- Z.add_1_r, Z.sub_add. lia.
Qed.

Lemma iter_pos_nat {A} (f : A -> A) p x : iter_pos f p x = Nat.iter (Pos.to_nat p) f x.
Proof.
  revert x. induction p as [p IH|p IH|]; intros x; cbn [iter_pos]; [| |done].
  - rewrite !IH, <- Nat.iter_add.
    replace (Pos.to_nat p~1) with (Pos.to_nat p + Pos.to_nat p + 1)%nat by lia.
    rewrite (Nat.iter_add _ 1). done.
  - rewrite !IH, <- Nat.iter_add. f_equal. lia.
Qed.

Lemma shr_1_exact m :
  0 < m -> shr_1 (Build_shr_record (2 * m) false false) = Build_shr_record m false false.
Proof. destruct m; [lia|reflexivity|lia]. Qed.

Lemma shr_exact m k e :
  0 < m -> 0 <= k ->
  shr (Build_shr_record (m * 2 ^ k) false false) e k = (Build_shr_record m false false, e + k).
Proof.
  intros Hm Hk. destruct k as [|p|p]; [|clear Hk|lia].
  - cbn [shr]. rewrite Z.mul_1_r. f_equal. lia.
  - cbn [shr]. f_equal. rewrite iter_pos_nat, <- (positive_nat_Z p).
    revert m Hm. induction (Pos.to_nat p) as [|n IH]; intros m Hm.
    + cbn [Nat.iter nat_rect Z.of_nat]. by rewrite Z.mul_1_r.
    + rewrite Nat.iter_succ.
      replace (m * 2 ^ Z.of_nat (S n)) with (2 * m * 2 ^ Z.of_nat n)
        by (rewrite Nat2Z.inj_succ, Z.pow_succ_r; lia).
      rewrite (IH (2 * m)) by lia. by apply shr_1_exact.
Qed.

(** Rounding a mantissa that is [k] bits too long, the low [k] bits zero. *)
Lemma round_aux_exact s m k e :
  2 ^ 52 <= Zpos m < 2 ^ 53 -> 0 <= k -> -1074 <= e + k <= 971 ->
  binary_round_aux 53 1024 s (Zpos m * 2 ^ k) e loc_Exact = S754_finite s m (e + k).
Proof.
  intros Hm Hk He. unfold binary_round_aux, shr_fexp, fexp, emin.
  assert (0 < 2 ^ k) by lia.
  rewrite (Zdigits2_bounds _ (53 + k)); [|lia|].
  2:{ replace (53 + k - 1) with (52 + k) by lia. rewrite !Z.pow_add_r by lia. nia. }
  replace (Z.max (53 + k + e - 53) (3 - 1024 - 53) - e) with k by lia.
  cbn [shr_record_of_loc]. rewrite shr_exact by lia.
  cbn [shr_m loc_of_shr_record shr_record_of_loc round_nearest_even].
  rewrite (Zdigits2_bounds _ 53) by lia.
  replace (Z.max (53 + (e + k) - 53) (3 - 1024 - 53) - (e + k)) with 0 by lia.
  cbn [shr shr_m]. change (1024 - 53) with 971.
  by rewrite (proj2 (Z.leb_le (e + k) 971)) by lia.
Qed.

Lemma round_aux_rep n k e :
  0 < n < 2 ^ 53 -> 53 <= Z.log2 n + 1 + k -> e + k = 0 -> -1074 <= e + (Z.log2 n + 1 + k - 53) ->
  rep (binary_round_aux 53 1024 false (n * 2 ^ k) e loc_Exact) n.
Proof.
  intros Hn Hk Hek He. pose proof (Z.log2_spec n ltac:(lia)) as Hl.
  assert (Z.log2 n < 53) by (apply Z.log2_lt_pow2; lia).
  pose proof (Z.log2_nonneg n).
  set (d := Z.log2 n + 1) in *. replace (Z.log2 n) with (d - 1) in * by lia.
  rewrite <- Z.add_1_r, Z.sub_add in Hl.
  assert (2 ^ 53 = 2 ^ (53 - d) * 2 ^ d) as E1 by (rewrite <- Z.pow_add_r; [f_equal|..]; lia).
  assert (2 ^ 52 = 2 ^ (53 - d) * 2 ^ (d - 1)) as E2 by (rewrite <- Z.pow_add_r; [f_equal|..]; lia).
  assert (0 < 2 ^ (53 - d)) by lia.
  destruct (n * 2 ^ (53 - d)) as [|m|m] eqn:Em; [lia| |lia].
  assert (2 ^ 52 <= Zpos m < 2 ^ 53) as Hm by (rewrite <- Em; nia).
  replace (n * 2 ^ k) with (Zpos m * 2 ^ (d + k - 53)).
  2:{ rewrite <- Em, <- Z.mul_assoc, <- Z.pow_add_r by lia. do 2 f_equal. lia. }
  rewrite round_aux_exact by lia.
  exists m, (e + (d + k - 53)). repeat split; try lia.
  rewrite <- Em. do 2 f_equal. lia.
Qed.

Lemma pos_iter_xO p d : Zpos (Pos.iter xO p d) = Zpos p * 2 ^ Zpos d.
Proof.
  induction d as [|d IH] using Pos.peano_ind.
  - cbn. lia.
  - rewrite Pos.iter_succ, Pos2Z.inj_xO, IH, Pos2Z.inj_succ, Z.pow_succ_r by lia. lia.
Qed.

Lemma dbl_rep n : 0 < n < 2 ^ 53 -> rep (dbl n) n.
Proof.
  intros Hn. destruct n as [|p|p]; [lia| |lia].
  unfold dbl, binary_normalize, binary_round.
  assert (Z.log2 (Zpos p) < 53) by (apply Z.log2_lt_pow2; lia).
  pose proof (Z.log2_nonneg (Zpos p)). rewrite digits2_pos_log2.
  unfold fexp, emin. set (d := Z.log2 (Zpos p) + 1) in *.
  replace (Z.max (d + 0 - 53) (3 - 1024 - 53)) with (- (53 - d)) by lia.
  unfold shl_align. rewrite Z.sub_0_r. destruct (53 - d) as [|k|k] eqn:Ek; [| |lia].
  - pose proof (round_aux_rep (Zpos p) 0 0) as R. rewrite Z.mul_1_r in R. apply R; lia.
  - pose proof (round_aux_rep (Zpos p) (Zpos k) (- Zpos k)) as R.
    rewrite <- pos_iter_xO in R. apply R; lia.
Qed.

(** The mantissa of [n] has [53 - digits n] trailing zeros. *)
Lemma rep_shift n m e :
  0 < n -> 2 ^ 52 <= Zpos m < 2 ^ 53 -> e <= 0 -> Zpos m = n * 2 ^ (- e) ->
  Z.log2 n + 1 + (- e) = 53.
Proof.
  intros Hn Hm He Em.
  assert (Z.log2 (Zpos m) = 52) as Hl by (apply Z.log2_unique; lia).
  rewrite Em, Z.log2_mul_pow2 in Hl by lia. lia.
Qed.

Lemma dbl_mul_rep f g w q :
  0 < w -> 0 < q -> w * q < 2 ^ 53 -> rep f w -> rep g q -> rep (dbl_mul f g) (w * q).
Proof.
  intros Hw Hq Hwq (m1 & e1 & -> & Hm1 & He1 & E1) (m2 & e2 & -> & Hm2 & He2 & E2).
  cbn [dbl_mul SFmul xorb]. rewrite Pos2Z.inj_mul, E1, E2.
  replace (w * 2 ^ (- e1) * (q * 2 ^ (- e2))) with (w * q * 2 ^ (- e1 + - e2))
    by (rewrite Z.pow_add_r by lia; ring).
  pose proof (rep_shift w _ _ Hw Hm1 (proj2 He1) E1).
  pose proof (rep_shift q _ _ Hq Hm2 (proj2 He2) E2).
  pose proof (Z.log2_mul_below w q ltac:(lia) ltac:(lia)).
  pose proof (Z.log2_nonneg w). pose proof (Z.log2_nonneg q).
  assert (0 < w * q) by nia. apply round_aux_rep; lia.
Qed.

Lemma dbl_div_rep f g p q :
  0 < p -> 0 < q -> p * q < 2 ^ 53 -> rep f (p * q) -> rep g p -> rep (dbl_div f g) q.
Proof.
  intros Hp Hq Hpq (m1 & e1 & -> & Hm1 & He1 & E1) (m2 & e2 & -> & Hm2 & He2 & E2).
  pose proof (rep_shift (p * q) _ _ ltac:(nia) Hm1 (proj2 He1) E1) as S1.
  pose proof (rep_shift p _ _ Hp Hm2 (proj2 He2) E2) as S2.
  pose proof (Z.log2_nonneg (p * q)). pose proof (Z.log2_nonneg p).
  cbn [dbl_div SFdiv xorb]. unfold SFdiv_core_binary.
  rewrite (Zdigits2_bounds (Zpos m1) 53), (Zdigits2_bounds (Zpos m2) 53) by lia.
  unfold fexp, emin. replace (Z.min _ (e1 - e2)) with (e1 - e2 - 53) by lia.
  replace (e1 - e2 - (e1 - e2 - 53)) with 53 by lia.
  cbn [Z.shiftl]. rewrite Z.shiftl_mul_pow2 by lia.
  assert (Zpos m1 * 2 ^ 53 = q * 2 ^ (53 + e2 - e1) * Zpos m2) as Ediv.
  { rewrite E1, E2. replace (q * 2 ^ (53 + e2 - e1) * (p * 2 ^ (- e2)))
      with (p * q * (2 ^ (53 + e2 - e1) * 2 ^ (- e2))) by ring.
    rewrite <- Z.mul_assoc, <- !Z.pow_add_r by lia. do 2 f_equal. lia. }
  assert (Z.div_eucl (Zpos m1 * 2 ^ 53) (Zpos m2) = (q * 2 ^ (53 + e2 - e1), 0)) as ->.
  { rewrite (surjective_pairing (Z.div_eucl _ _)). f_equal.
    - change (Zpos m1 * 2 ^ 53 / Zpos m2 = q * 2 ^ (53 + e2 - e1)). rewrite Ediv. apply Z.div_mul. lia.
    - change ((Zpos m1 * 2 ^ 53) mod Zpos m2 = 0). rewrite Ediv. apply Z.mod_mul. lia. }
  replace (new_location (Zpos m2) 0) with loc_Exact by (unfold new_location; by destruct (Z.even _)).
  pose proof (Z.log2_mul_above p q ltac:(lia) ltac:(lia)) as La.
  pose proof (Z.log2_nonneg q).
  assert (q < 2 ^ 53) by nia.
  assert (Z.log2 (p * q) <= Z.log2 p + Z.log2 q + 1) by (apply Z.log2_mul_above; lia).
  apply round_aux_rep; try lia.
Qed.

Lemma dbl_to_u64_rep {E} f n : 0 < n < 2 ^ 53 -> rep f n -> dbl_to_u64 (E := E) f = Val n.
Proof.
  intros Hn (m & e & -> & Hm & He & Em). cbn [dbl_to_u64]. rewrite Em.
  replace (1 * _) with n.
  2:{ destruct (Z.leb_spec 0 e).
      - replace e with 0 by lia. cbn [Z.opp]. change (2 ^ 0) with 1. lia.
      - rewrite Z.div_mul by lia. lia. }
  rewrite (proj2 (Z.leb_le 0 n)), (proj2 (Z.ltb_lt n (2 ^ 64))) by lia. done.
Qed.
