(* ===== verification/GuardTree.v ===== *)
(** * GuardTree: blocks and worst-case execution ([app/hook/Guard.h])

    The guard checker builds a tree with one node per WebAssembly block: the
    number of instructions directly inside it and the bound the hook's guard
    puts on how often it runs per execution of the hook.  [compute_wce] folds
    the tree into the worst-case number of instructions.  A child is scaled by
    the quotient of its bound and its parent's, in [double] arithmetic with
    truncation; [compute_wce_exact] shows that the result is the sum of
    instruction counts weighted by the bounds whenever each bound is a multiple
    of its parent's and the total is below [2^53].  The tree under construction
    is a stack of open blocks, the pointer [current] of the source being its
    top. *)

From stdpp Require Import base numbers list option.
From Stdlib Require Import ZArith Lia.
From S2P Require Import Prelude Enum Leb128 Double.

Local Open Scope Z_scope.

(** ** The tree *)

#[warnings="-register-all"]
Inductive WasmBlkInf := mkBlk {
  sanity_check : Z;
  iteration_bound : Z;
  instruction_count : Z;
  start_byte : Z;
  children : list WasmBlkInf
}.

Definition sanity_magic : Z := 0x1234ABCD.

(** The constructor and [add_child]'s [new WasmBlkInf(bound, 0, this, start)]. *)
Definition newBlk (bound count start : Z) : WasmBlkInf :=
  mkBlk sanity_magic (u32 bound) (u32 count) (u32 start) [].

Definition set_count (n : Z) (b : WasmBlkInf) : WasmBlkInf :=
  mkBlk (sanity_check b) (iteration_bound b) n (start_byte b) (children b).

Definition set_bound (n : Z) (b : WasmBlkInf) : WasmBlkInf :=
  mkBlk (sanity_check b) n (instruction_count b) (start_byte b) (children b).

Definition push_child (c b : WasmBlkInf) : WasmBlkInf :=
  mkBlk (sanity_check b) (iteration_bound b) (instruction_count b) (start_byte b)
    (children b ++ [c]).

(** ** Worst-case execution *)

(** [worst_case_execution *= multiplier], with
    [multiplier = (double)bound / (double)parent_bound], and the floor of one. *)
Definition scale_wce (wce bound pbound : Z) : gres Z :=
  w ← dbl_to_u64 (dbl_mul (dbl wce) (dbl_div (dbl bound) (dbl pbound)));
  Val (if w <? 1 then 1 else w).

(** The flag of the result is [*recursion_limit_reached]. *)
Fixpoint compute_wce (blk : WasmBlkInf) (parent : option WasmBlkInf) (level : Z)
    {struct blk} : gres (Z * bool) :=
  if 16 <? level then Val (0, true)
  else if negb (sanity_check blk =? sanity_magic) then Val (u64 (-1), true)
  else if match parent with Some p => negb (sanity_check p =? sanity_magic) | None => false end
  then Val (u64 (-1), true)
  else
    let fix sum (cs : list WasmBlkInf) (acc : Z) (lim : bool) : gres (Z * bool) :=
      match cs with
      | [] => Val (acc, lim)
      | c :: cs' =>
          '(w, l) ← compute_wce c (Some blk) (level + 1);
          sum cs' (u64 (acc + w)) (lim || l)
      end in
    '(wce, lim) ← sum (children blk) (u64 (instruction_count blk)) false;
    match parent with
    | None => Val (wce, lim)
    | Some p =>
        if iteration_bound p =? 0 then Val (wce, lim)
        else w ← scale_wce wce (iteration_bound blk) (iteration_bound p); Val (w, lim)
    end.

(** The same sum as a function of its own, for the proofs. *)
Fixpoint wce_sum (blk : WasmBlkInf) (level : Z) (cs : list WasmBlkInf) (acc : Z) (lim : bool)
    : gres (Z * bool) :=
  match cs with
  | [] => Val (acc, lim)
  | c :: cs' =>
      '(w, l) ← compute_wce c (Some blk) level;
      wce_sum blk level cs' (u64 (acc + w)) (lim || l)
  end.

(** ** The specification: instructions weighted by the bounds *)

Fixpoint weighted_count (b : WasmBlkInf) : Z :=
  instruction_count b * iteration_bound b + foldr (fun c n => weighted_count c + n) 0 (children b).

Fixpoint height (b : WasmBlkInf) : nat :=
  S (foldr (fun c n => Nat.max (height c) n) 0%nat (children b)).

(** Each bound is a multiple of the enclosing one, every block has an
    instruction. *)
Fixpoint nested_bounds (pbound : Z) (b : WasmBlkInf) : bool :=
  (sanity_check b =? sanity_magic) && (0 <? instruction_count b) && (0 <? iteration_bound b) &&
  (iteration_bound b <? 2 ^ 32) && (iteration_bound b mod pbound =? 0) &&
  forallb (nested_bounds (iteration_bound b)) (children b).

Definition sum_weighted (cs : list WasmBlkInf) : Z :=
  foldr (fun c n => weighted_count c + n) 0 cs.

(** ** Lemmas *)

(** Induction with the hypothesis for every child. *)
Lemma WasmBlkInf_nested_ind (P : WasmBlkInf -> Prop) :
  (forall b, Forall P (children b) -> P b) -> forall b, P b.
Proof.
  intros Hstep. fix IH 1. intros [s bd n st cs]. apply Hstep. cbn [children].
  induction cs; constructor; auto.
Qed.

Lemma compute_wce_eq blk parent level :
  compute_wce blk parent level =
  if 16 <? level then Val (0, true)
  else if negb (sanity_check blk =? sanity_magic) then Val (u64 (-1), true)
  else if match parent with Some p => negb (sanity_check p =? sanity_magic) | None => false end
  then Val (u64 (-1), true)
  else
    '(wce, lim) ← wce_sum blk (level + 1) (children blk) (u64 (instruction_count blk)) false;
    match parent with
    | None => Val (wce, lim)
    | Some p =>
        if iteration_bound p =? 0 then Val (wce, lim)
        else w ← scale_wce wce (iteration_bound blk) (iteration_bound p); Val (w, lim)
    end.
Proof.
  destruct blk as [s bd n st cs]. cbn [compute_wce].
  destruct (16 <? level); [done|]. destruct (negb _); [done|].
  destruct (match parent with Some _ => _ | None => _ end); [done|].
  f_equal. cbn [children instruction_count].
  generalize (mkBlk s bd n st cs) as blk. intros blk. generalize false as lim, (u64 n) as acc.
  induction cs as [|c cs IH]; intros lim acc; [done|].
  cbn. destruct (compute_wce c (Some blk) (level + 1)) as [[w l]| |]; cbn; [|done..].
  apply IH.
Qed.

Lemma scale_wce_exact w p q :
  0 < w -> 0 < p -> 0 < q -> w * q < 2 ^ 53 -> p * q < 2 ^ 53 ->
  scale_wce w (p * q) p = Val (w * q).
Proof.
  intros Hw Hp Hq Hwq Hpq. unfold scale_wce.
  assert (0 < w * q /\ 0 < p * q /\ w < 2 ^ 53 /\ p < 2 ^ 53) as (? & ? & ? & ?) by nia.
  erewrite dbl_to_u64_rep; [|split; [|exact Hwq]; lia|].
  - cbn. by rewrite (proj2 (Z.ltb_ge _ _)) by lia.
  - apply dbl_mul_rep; try lia; [apply dbl_rep; lia|].
    apply (dbl_div_rep _ _ p); try lia; apply dbl_rep; lia.
Qed.

Lemma nested_bounds_inv pb b :
  nested_bounds pb b = true ->
  sanity_check b = sanity_magic /\ 0 < instruction_count b /\ 0 < iteration_bound b < 2 ^ 32 /\
  iteration_bound b mod pb = 0 /\
  Forall (fun c => nested_bounds (iteration_bound b) c = true) (children b).
Proof.
  destruct b as [s bd n st cs]. cbn. intros H. bool_prop.
  repeat split; try done. by apply Forall_forall, forallb_forall.
Qed.

Lemma weighted_count_eq b :
  weighted_count b = instruction_count b * iteration_bound b + sum_weighted (children b).
Proof. by destruct b. Qed.

(** The weight of a block is a positive multiple of its bound. *)
Lemma weighted_count_multiple b : forall pb,
  nested_bounds pb b = true -> exists k, 0 < k /\ weighted_count b = iteration_bound b * k.
Proof.
  induction b as [b IH] using WasmBlkInf_nested_ind. intros pb Hb.
  apply nested_bounds_inv in Hb as (_ & Hn & Hbd & _ & Hcs).
  assert (exists k, 0 <= k /\ sum_weighted (children b) = iteration_bound b * k) as (k & Hk & E).
  { revert IH Hcs. generalize (children b) as cs.
    induction cs as [|c cs IHcs]; intros IH Hcs; [exists 0; cbn; lia|].
    inversion IH; inversion Hcs; subst. destruct IHcs as (k1 & ? & E1); [done..|].
    edestruct H1 as (k2 & ? & E2); [eassumption|].
    apply nested_bounds_inv in H5 as (_ & _ & Hc & Hm & _).
    apply Z.mod_divide in Hm as [m Hm]; [|lia].
    exists (k1 + m * k2). cbn. fold (sum_weighted cs). rewrite E1, E2, Hm. split; [|lia].
    assert (0 < m) by nia. nia. }
  exists (instruction_count b + k). rewrite weighted_count_eq, E. split; [lia|ring].
Qed.

(** [exact_at pb b]: the call on a child [b] of a block with bound [pb]. *)
Definition exact_at (b : WasmBlkInf) : Prop := forall p level,
  sanity_check p = sanity_magic -> 0 < iteration_bound p < 2 ^ 32 ->
  nested_bounds (iteration_bound p) b = true -> 0 <= level ->
  level + Z.of_nat (height b) <= 17 -> weighted_count b < 2 ^ 53 ->
  compute_wce b (Some p) level = Val (weighted_count b / iteration_bound p, false).

Lemma wce_sum_exact blk level cs : forall acc,
  sanity_check blk = sanity_magic -> 0 < iteration_bound blk < 2 ^ 32 ->
  Forall exact_at cs -> Forall (fun c => nested_bounds (iteration_bound blk) c = true) cs ->
  0 <= level -> level + Z.of_nat (foldr (fun c n => Nat.max (height c) n) 0%nat cs) <= 17 ->
  0 <= acc -> acc * iteration_bound blk + sum_weighted cs < 2 ^ 53 ->
  exists k, wce_sum blk level cs acc false = Val (acc + k, false) /\ 0 <= k /\
    sum_weighted cs = iteration_bound blk * k.
Proof.
  induction cs as [|c cs IH]; intros acc Hs Hb He Hn Hl Hh Ha Hw.
  { exists 0. cbn. rewrite Z.add_0_r. auto with lia. }
  inversion He as [|?? Hc Hcs]; inversion Hn as [|?? Nc Ncs]; subst.
  cbn [foldr sum_weighted] in Hw, Hh. change (foldr _ 0 cs) with (sum_weighted cs) in Hw.
  destruct (weighted_count_multiple _ _ Nc) as (k & Hk & Ek).
  pose proof (nested_bounds_inv _ _ Nc) as (_ & _ & Hcb & Hm & _).
  apply Z.mod_divide in Hm as [m Hm]; [|lia]. assert (0 < m) by nia.
  assert (0 <= sum_weighted cs).
  { clear -Ncs. induction Ncs as [|x l Hx _ IHl]; cbn; [lia|]. fold (sum_weighted l).
    destruct (weighted_count_multiple _ _ Hx) as (? & ? & ->).
    apply nested_bounds_inv in Hx as (_ & _ & ? & _). nia. }
  assert (weighted_count c = iteration_bound blk * (m * k)) as Ec by (rewrite Ek, Hm; ring).
  cbn [wce_sum]. rewrite Hc; [|done|done|done|done|lia|nia].
  cbn. rewrite Ec, Z.mul_comm, Z.div_mul by lia. rewrite u64_small by nia.
  destruct (IH (acc + m * k)) as (k' & -> & Hk' & E'); [done..|lia|nia|nia|].
  exists (m * k + k'). split; [do 2 f_equal; lia|]. split; [nia|].
  fold (sum_weighted cs). rewrite E'. ring.
Qed.

Lemma compute_wce_child_exact b : exact_at b.
Proof.
  induction b as [b IH] using WasmBlkInf_nested_ind. intros p level Hs Hp Hn Hl Hh Hw.
  pose proof (nested_bounds_inv _ _ Hn) as (Hsb & Hc & Hb & Hm & Hcs).
  rewrite compute_wce_eq, Hs, Hsb.
  rewrite weighted_count_eq in Hw. destruct b as [s bd n st cs]; cbn in Hh |- *. cbn in *.
  rewrite (proj2 (Z.ltb_ge 16 level)) by lia. subst s.
  destruct (wce_sum_exact (mkBlk sanity_magic bd n st cs) (level + 1) cs n) as (k & E & Hk & Ek);
    try done; try lia.
  cbn [iteration_bound] in Ek. fold (sum_weighted cs) in *. rewrite (u64_small n), E by nia.
  cbn in *. rewrite (proj2 (Z.eqb_neq _ _)) by lia.
  apply Z.mod_divide in Hm as [q Hq]; [|lia]. assert (0 < q) by nia.
  fold (sum_weighted cs) in *. rewrite Ek, Hq in *.
  replace (n * (q * iteration_bound p) + q * iteration_bound p * k)
    with ((n + k) * q * iteration_bound p) in * by ring.
  assert ((n + k) * q < 2 ^ 53) by nia.
  rewrite Z.div_mul, (Z.mul_comm q), scale_wce_exact by lia. done.
Qed.

(** Computing the worst case does not fail. *)
Lemma compute_wce_no_err b : forall p level e, compute_wce b p level <> Err e.
Proof.
  induction b as [b IH] using WasmBlkInf_nested_ind. intros p level e.
  assert (forall acc lim, wce_sum b (level + 1) (children b) acc lim <> Err e) as Hs.
  { induction IH as [|c cs Hc _ IHcs]; intros acc lim; cbn [wce_sum]; [done|].
    destruct (compute_wce c (Some b) (level + 1)) as [[w l]|e'|] eqn:E; cbn; [done| |done].
    intros [= ->]. by apply Hc in E. }
  rewrite compute_wce_eq. do 2 (case_match; [done|]). destruct (match p with Some _ => _ | _ => _ end); [done|].
  destruct (wce_sum _ _ _ _ _) as [[w l]|e'|] eqn:E; cbn; [|congruence|done].
  destruct p as [p|]; [|done]. case_match; [done|]. unfold scale_wce, dbl_to_u64.
  by repeat case_match.
Qed.

Lemma wce_sum_nonneg b level cs : forall acc lim w l,
  0 <= acc -> wce_sum b level cs acc lim = Val (w, l) -> 0 <= w.
Proof.
  induction cs as [|c cs IH]; intros acc lim w l Ha H; cbn [wce_sum] in H; res_inv; [congruence|].
  destruct a. eapply IH; [|eassumption]. apply u64_bound.
Qed.

(** The worst case is an unsigned number. *)
Lemma compute_wce_nonneg b p level w l : compute_wce b p level = Val (w, l) -> 0 <= w.
Proof.
  rewrite compute_wce_eq. unfold scale_wce. intros H.
  repeat (case_if H; [by injection H as <- <-|]). res_inv. destruct a as [v m].
  apply wce_sum_nonneg in Hb; [|apply u64_bound]. destruct p; [case_if Hk|]; res_open; try lia.
  case_match; bool_prop; lia.
Qed.

(** The worst case the guard checker computes for a function body, whose
    outermost block has bound one, is exactly the number of instructions
    weighted by the bounds of the blocks they are in, as long as each bound is
    a multiple of the enclosing block's, blocks nest at most seventeen deep and
    the total is below [2^53]; the recursion limit is not reported. *)
Theorem compute_wce_exact b :
  nested_bounds 1 b = true -> iteration_bound b = 1 -> (height b <= 17)%nat ->
  weighted_count b < 2 ^ 53 ->
  compute_wce b None 0 = Val (weighted_count b, false).
Proof.
  intros Hn Hb1 Hh Hw. rewrite compute_wce_eq.
  pose proof (nested_bounds_inv _ _ Hn) as (Hsb & Hc & Hb & _ & Hcs).
  rewrite weighted_count_eq, Hb1, Z.mul_1_r in *. rewrite Hsb.
  destruct b as [s bd n st cs]; cbn in *. subst s bd.
  fold (sum_weighted cs) in *.
  destruct (wce_sum_exact (mkBlk sanity_magic 1 n st cs) (0 + 1) cs n) as (k & E & Hk & Ek);
    cbn [iteration_bound sanity_check] in *; try done; try lia.
  - apply Forall_forall. intros c _. apply compute_wce_child_exact.
  - rewrite (u64_small n), E by lia. cbn. by rewrite Ek, Z.mul_1_l.
Qed.

(** A body of three instructions with a loop of ten that runs at most 8 times
    and in it a loop of five that runs at most 24 times in all. *)
Definition sample_tree : WasmBlkInf :=
  mkBlk sanity_magic 1 3 0 [mkBlk sanity_magic 8 10 4 [mkBlk sanity_magic 24 5 9 []]].

Lemma compute_wce_exact_witness : compute_wce sample_tree None 0 = Val (203, false).
Proof. apply (compute_wce_exact sample_tree); vm_compute; congruence || (intros; lia) || lia. Defined.

(** Without the divisibility the truncation undercounts: 1999 instructions that
    run once, inside a loop that runs up to 1000 times, count as one per
    iteration of that loop, so the body counts as less than what it contains. *)
Lemma compute_wce_undercounts :
  let b := mkBlk sanity_magic 1 1 0
             [mkBlk sanity_magic 1000 1 2 [mkBlk sanity_magic 1 1999 4 []]] in
  compute_wce b None 0 = Val (2001, false) /\ weighted_count b = 3000.
Proof. vm_compute. auto. Qed.
