(* ===== verification/GuardCheck.v ===== *)
(** * GuardCheck: the scanner of a function body ([app/hook/Guard.h])

    [check_guard] walks the instructions of one function body of a hook, checks
    that every loop starts with a call to the guard function [_g], that only
    imported functions are called, that neither [call_indirect] nor
    [memory.grow] occurs, builds the block tree of [GuardTree] on the way and
    accepts the body if its worst case is below 65535 instructions.  There is
    one definition per group of instructions, in the order of the source. *)

From stdpp Require Import base numbers list option.
From Stdlib Require Import ZArith Lia.
From S2P Require Import Prelude Enum Leb128 GuardTree.

Local Open Scope Z_scope.

(** ** The macros *)

(** [REQUIRE(x)]: the sum is an [int] sum, compared as a [size_t]. *)
Definition REQUIRE (hook : list Z) (i x : Z) : gres unit :=
  if i32_fits (i + x) then
    assert_or (Rejected SHORT_HOOK) (negb (vsize hook <? u64 (i + x)))
  else Undef.

(** [ADVANCE(x)]. *)
Definition ADVANCE (i x : Z) : gres Z := if i32_fits (i + x) then Val (i + x) else Undef.

(** [CHECK_SHORT_HOOK()]. *)
Definition CHECK_SHORT_HOOK (hook : list Z) (i : Z) : gres unit :=
  assert_or (Rejected SHORT_HOOK) (negb (vsize hook <=? u64 i)).

Definition GUARD_ERROR {A} : gres A := Err (Rejected GUARD_MISSING).

(** A [LEB()] whose value is not used. *)
Definition skip_leb (hook : list Z) (i : Z) : gres Z := '(_, i) ← parseLeb128 hook i; Val i.
Definition skip_signed_leb (hook : list Z) (i : Z) : gres Z :=
  '(_, i) ← parseSignedLeb128 hook i; Val i.

(** [REQUIRE(1); LEB();] *)
Definition require_leb (hook : list Z) (i : Z) : gres Z := _ ← REQUIRE hook i 1; skip_leb hook i.

Definition MAX_GUARD_CALLS : Z := 1024.

(** ** The immediates of the instructions that only move the offset *)

(** Every iteration of the label loop of [br_table] moves past a byte, so one
    more than the length of the hook is fuel enough; likewise below. *)
Definition guard_br_table (hook : list Z) (i : Z) : gres Z :=
  '(n, i) ← parseLeb128 hook i;
  i ← for_loop (S (length hook)) (fun _ i => require_leb hook i) 0 (i32 n) i;
  require_leb hook i.

Definition guard_reference (hook : list Z) (instr i : Z) : gres Z :=
  if instr =? 0xD0 then
    _ ← REQUIRE hook i 1;
    b ← rd hook i;
    if negb ((b =? 0x70) || (b =? 0x6F)) then GUARD_ERROR else ADVANCE i 1
  else if instr =? 0xD2 then require_leb hook i
  else Val i.

Definition select_type (hook : list Z) (i : Z) : gres Z :=
  _ ← REQUIRE hook i 1;
  v ← rd hook i;
  if ((0x7B <=? v) && (v <=? 0x7F)) || (v =? 0x70) || (v =? 0x6F) then ADVANCE i 1 else GUARD_ERROR.

Definition guard_parametric (hook : list Z) (instr i : Z) : gres Z :=
  if instr =? 0x1C then
    _ ← REQUIRE hook i 1;
    '(vec_count, i) ← parseLeb128 hook i;
    for_loop (S (length hook)) (fun _ i => select_type hook i) 0 vec_count i
  else Val i.

Definition guard_table (hook : list Z) (instr i : Z) : gres Z :=
  _ ← REQUIRE hook i 1;
  if negb (instr =? 0xFC) then skip_leb hook i
  else
    '(fc_type, i) ← parseLeb128 hook i;
    _ ← REQUIRE hook i 1;
    if (12 <=? fc_type) && (fc_type <=? 17) then
      i ← skip_leb hook i;
      if (fc_type =? 12) || (fc_type =? 14) then require_leb hook i else Val i
    else if fc_type =? 8 then
      i ← skip_leb hook i; _ ← REQUIRE hook i 1; ADVANCE i 1
    else if fc_type =? 9 then skip_leb hook i
    else if fc_type =? 10 then _ ← REQUIRE hook i 2; ADVANCE i 2
    else if fc_type =? 11 then ADVANCE i 1
    else if fc_type <=? 7 then Val i
    else GUARD_ERROR.

Definition guard_memory (hook : list Z) (instr i : Z) : gres Z :=
  if (0x28 <=? instr) && (instr <=? 0x3E) then
    i ← require_leb hook i; require_leb hook i
  else
    _ ← REQUIRE hook i 1;
    if instr =? 0x40 then Err (Rejected MEMORY_GROW) else ADVANCE i 1.

Definition guard_const (hook : list Z) (instr i : Z) : gres Z :=
  if (instr =? 0x41) || (instr =? 0x42) then require_leb hook i
  else if instr =? 0x43 then _ ← REQUIRE hook i 4; ADVANCE i 4
  else _ ← REQUIRE hook i 8; ADVANCE i 8.

Definition guard_vector (hook : list Z) (i : Z) : gres Z :=
  _ ← REQUIRE hook i 1;
  '(v, i) ← parseLeb128 hook i;
  if v <=? 11 then i ← require_leb hook i; require_leb hook i
  else if (84 <=? v) && (v <=? 91) then
    i ← require_leb hook i; i ← require_leb hook i; _ ← REQUIRE hook i 1; ADVANCE i 1
  else if (21 <=? v) && (v <=? 34) then _ ← REQUIRE hook i 1; ADVANCE i 1
  else if (v =? 12) || (v =? 13) then _ ← REQUIRE hook i 16; ADVANCE i 16
  else Val i.

(** Every instruction that is not a block, a block end or a call. *)
Definition guard_immediates (hook : list Z) (instr i : Z) : gres Z :=
  if (instr =? 0x0C) || (instr =? 0x0D) then require_leb hook i
  else if instr =? 0x0E then guard_br_table hook i
  else if instr =? 0x0F then Val i
  else if instr =? 0x11 then Err (Rejected CALL_INDIRECT)
  else if (0xD0 <=? instr) && (instr <=? 0xD2) then guard_reference hook instr i
  else if (instr =? 0x1A) || (instr =? 0x1B) || (instr =? 0x1C) then guard_parametric hook instr i
  else if (0x20 <=? instr) && (instr <=? 0x24) then require_leb hook i
  else if (instr =? 0x25) || (instr =? 0x26) || (instr =? 0xFC) then guard_table hook instr i
  else if (0x28 <=? instr) && (instr <=? 0x40) then guard_memory hook instr i
  else if (0x41 <=? instr) && (instr <=? 0x44) then guard_const hook instr i
  else if (0x45 <=? instr) && (instr <=? 0xC4) then Val i
  else if instr =? 0xFD then guard_vector hook i
  else GUARD_ERROR.

(** ** The state of the scan

    [cur] is the block [current] points to and [up] its ancestors, innermost
    first: [current->parent == 0] is [up = []].  A block enters the children
    of its parent when it is closed; siblings cannot start before, so the
    order of the children is the order of [add_child]. *)
Record scan := mkScan {
  pos : Z;
  guard_count : Z;
  block_depth : Z;
  cur : WasmBlkInf;
  up : list WasmBlkInf
}.

Definition with_pos (i : Z) (s : scan) : scan :=
  mkScan i (guard_count s) (block_depth s) (cur s) (up s).

Inductive guard_next :=
| Continue (s : scan)
| Break (root : WasmBlkInf).

Fixpoint close_all (b : WasmBlkInf) (ups : list WasmBlkInf) : WasmBlkInf :=
  match ups with
  | [] => b
  | p :: ups' => close_all (push_child b p) ups'
  end.

(** [if (guard_count++ > MAX_GUARD_CALLS) GUARD_ERROR(...)]. *)
Definition count_guard (n : Z) : gres Z :=
  if MAX_GUARD_CALLS <? n then GUARD_ERROR else Val (u32 (n + 1)).

(** ** Blocks, loops and conditionals *)

Definition guard_block_type (hook : list Z) (i : Z) : gres Z :=
  _ ← REQUIRE hook i 1;
  block_type ← rd hook i;
  if ((0x7C <=? block_type) && (block_type <=? 0x7F)) || (block_type =? 0x7B) ||
     (block_type =? 0x70) || (block_type =? 0x7B) || (block_type =? 0x40)
  then ADVANCE i 1
  else skip_signed_leb hook i.

(** The three instructions after [loop]; the result is the iteration bound,
    the callee and the offset after the call. *)
Definition guard_prologue (hook : list Z) (i : Z) : gres (Z * Z * Z) :=
  _ ← REQUIRE hook i 1;
  b ← rd hook i;
  if negb (b =? 0x41) then GUARD_ERROR else
  i ← ADVANCE i 1;
  i ← skip_signed_leb hook i;
  _ ← REQUIRE hook i 1;
  b ← rd hook i;
  if negb (b =? 0x41) then GUARD_ERROR else
  i ← ADVANCE i 1;
  '(bound, i) ← parseLeb128 hook i;
  _ ← REQUIRE hook i 1;
  b ← rd hook i;
  if negb (b =? 0x10) then GUARD_ERROR else
  i ← ADVANCE i 1;
  '(call_func_idx, i) ← parseLeb128 hook i;
  Val (u32 bound, call_func_idx, i).

Definition guard_block (hook : list Z) (guard_func_idx instr : Z) (s : scan) : gres guard_next :=
  i ← guard_block_type hook (pos s);
  let bound := match up s with [] => 1 | _ => iteration_bound (cur s) end in
  '(bound, gc, i) ←
    (if instr =? 0x03 then
       '(bound, call_func_idx, i) ← guard_prologue hook i;
       if bound =? 0 then GUARD_ERROR else
       if negb (call_func_idx =? u64 guard_func_idx) then GUARD_ERROR else
       gc ← count_guard (guard_count s);
       Val (bound, gc, i)
     else Val (bound, guard_count s, i));
  Val (Continue (mkScan i gc (block_depth s + 1) (newBlk bound 0 i) (cur s :: up s))).

Definition guard_block_end (end_offset : Z) (s : scan) : gres guard_next :=
  let depth := block_depth s - 1 in
  match up s with
  | [] => if (depth =? -1) && (end_offset <=? pos s) then Val (Break (cur s)) else GUARD_ERROR
  | p :: ups =>
      if depth <? 0 then GUARD_ERROR
      else if negb (sanity_check p =? sanity_magic) then GUARD_ERROR
      else Val (Continue (mkScan (pos s) (guard_count s) depth (push_child (cur s) p) ups))
  end.

(** ** Calls: the callee is compared as an unsigned 64-bit number *)
Definition guard_call (hook : list Z) (guard_func_idx last_import_idx : Z) (s : scan)
    : gres guard_next :=
  _ ← REQUIRE hook (pos s) 1;
  '(callee_idx, i) ← parseLeb128 hook (pos s);
  if u64 last_import_idx <? callee_idx then Err (Rejected CALL_ILLEGAL) else
  gc ← (if callee_idx =? u64 guard_func_idx then count_guard (guard_count s)
        else Val (guard_count s));
  Val (Continue (mkScan i gc (block_depth s) (cur s) (up s))).

(** ** One iteration of the loop *)
Definition guard_step (hook : list Z) (end_offset guard_func_idx last_import_idx : Z) (s : scan)
    : gres guard_next :=
  _ ← REQUIRE hook (pos s) 1;
  instr ← rd hook (pos s);
  i ← ADVANCE (pos s) 1;
  let s := mkScan i (guard_count s) (block_depth s)
             (set_count (u32 (instruction_count (cur s) + 1)) (cur s)) (up s) in
  if (instr =? 0x00) || (instr =? 0x01) || (instr =? 0x05) then Val (Continue s)
  else if (instr =? 0x02) || (instr =? 0x03) || (instr =? 0x04)
  then guard_block hook guard_func_idx instr s
  else if instr =? 0x0B then guard_block_end end_offset s
  else if instr =? 0x10 then guard_call hook guard_func_idx last_import_idx s
  else i ← guard_immediates hook instr i; Val (Continue (with_pos i s)).

Fixpoint guard_loop (fuel : nat) (hook : list Z) (end_offset guard_func_idx last_import_idx : Z)
    (s : scan) : gres WasmBlkInf :=
  if pos s <? end_offset then
    match fuel with
    | O => Err NoFuel
    | S fuel =>
        n ← guard_step hook end_offset guard_func_idx last_import_idx s;
        match n with
        | Continue s => guard_loop fuel hook end_offset guard_func_idx last_import_idx s
        | Break root => Val root
        end
    end
  else Val (close_all (cur s) (up s)).

(** ** The verdict *)
Definition guard_verdict (root : WasmBlkInf) : gres Z :=
  '(wce, recursion_limit_reached) ← compute_wce root None 0;
  if (recursion_limit_reached : bool) then Err (Rejected NESTING_LIMIT)
  else if 0xFFFF <=? wce then Err (Rejected INSTRUCTION_EXCESS)
  else Val wce.

Definition scan_start (start_offset : Z) : scan :=
  mkScan start_offset 0 0 (newBlk 1 0 start_offset) [].

Definition check_guard (hook : list Z) (start_offset end_offset guard_func_idx last_import_idx : Z)
    : gres Z :=
  let end_offset := if end_offset <=? 0 then i32 (vsize hook) else end_offset in
  root ← guard_loop (S (length hook)) hook end_offset guard_func_idx last_import_idx
           (scan_start start_offset);
  guard_verdict root.

(** ** Progress and termination *)

Lemma leb_loop_fuel r v sh i : leb_loop r v sh i <> Err NoFuel.
Proof.
  revert v sh i. induction r as [|b r IH]; intros v sh i; [done|].
  cbn [leb_loop]. repeat case_match; try done; apply IH.
Qed.

Lemma sleb_loop_fuel r v sh i : sleb_loop r v sh i <> Err NoFuel.
Proof.
  revert v sh i. induction r as [|b r IH]; intros v sh i; [done|].
  cbn [sleb_loop]. repeat case_match; try done; apply IH.
Qed.

Lemma REQUIRE_Err hook i x err : REQUIRE hook i x = Err err -> err = Rejected SHORT_HOOK.
Proof. unfold REQUIRE, assert_or. repeat case_match; congruence. Qed.

Lemma rd_not_Err {E} l i (e : E) : rd l i <> Err e.
Proof. unfold rd. by repeat case_match. Qed.

Section progress.
Context (hook : list Z) (Hok : bytes_ok hook) (Hsz : vsize hook < 2 ^ 31 - 16).

(** [moves off i c]: the computation [c], started at offset [i], does not run
    out of fuel, and the offset of its result is between [i] and the end of the
    hook. *)
Definition moves {A} (off : A -> Z) (i : Z) (c : gres A) : Prop :=
  c <> Err NoFuel /\ forall a, c = Val a -> i <= off a <= vsize hook.

Lemma parseLeb128_fuel i : parseLeb128 hook i <> Err NoFuel.
Proof using Type. unfold parseLeb128. case_match; [done|]. apply leb_loop_fuel. Qed.

Lemma parseSignedLeb128_fuel i : parseSignedLeb128 hook i <> Err NoFuel.
Proof using Type. unfold parseSignedLeb128. case_match; [done|]. apply sleb_loop_fuel. Qed.

Lemma parseLeb128_bounds i v e :
  0 <= i <= vsize hook -> parseLeb128 hook i = Val (v, e) -> i <= e <= vsize hook.
Proof using Hok Hsz.
  intros Hi H. apply parseLeb128_progress in H as [_ [?|?]]; try done; lia.
Qed.

Lemma parseSignedLeb128_bounds i v e :
  0 <= i <= vsize hook -> parseSignedLeb128 hook i = Val (v, e) -> i <= e <= vsize hook.
Proof using Hsz.
  intros Hi H. destruct (Z.eq_dec i (vsize hook)) as [->|].
  - unfold parseSignedLeb128 in H. pose proof (vsize_nonneg hook).
    rewrite (proj2 (Z.ltb_ge _ 0)) in H by lia. unfold vsize in H at 1.
    rewrite Nat2Z.id, drop_all in H. injection H as <- <-. lia.
  - apply parseSignedLeb128_progress in H; lia.
Qed.

Lemma REQUIRE_Val i x u :
  0 <= i <= vsize hook -> 0 <= x <= 16 -> REQUIRE hook i x = Val u -> i + x <= vsize hook.
Proof using Hsz.
  unfold REQUIRE. intros Hi Hx H. case_if H. apply assert_or_Val in H. bool_prop.
  rewrite u64_small in H; lia.
Qed.

Lemma moves_ret {A} (off : A -> Z) i a : i <= off a <= vsize hook -> moves off i (Val a).
Proof using Type. intros He. split; [done|]. by intros ? [= <-]. Qed.

Lemma moves_rejected {A} (off : A -> Z) i c : moves off i (Err (Rejected c)).
Proof using Type. done. Qed.

Lemma moves_weaken {A} (off : A -> Z) i j c : i <= j -> moves off j c -> moves off i c.
Proof using Type. intros Hij [Hf Hv]. split; [done|]. intros a Ha. apply Hv in Ha. lia. Qed.

Lemma moves_bind {A B} (off1 : A -> Z) (off : B -> Z) i c k :
  moves off1 i c -> (forall a, i <= off1 a <= vsize hook -> moves off (off1 a) (k a)) ->
  moves off i (c ≫= k).
Proof using Type.
  intros [Hf Hv] Hk. destruct c as [a|err|]; cbn; [|split; [congruence|done]|done].
  specialize (Hv a eq_refl). apply (moves_weaken _ _ (off1 a)); [lia|]. by apply Hk.
Qed.

Lemma moves_require {A} (off : A -> Z) i x k :
  0 <= i <= vsize hook -> 0 <= x <= 16 -> (i + x <= vsize hook -> moves off i (k tt)) ->
  moves off i (REQUIRE hook i x ≫= k).
Proof using Hsz.
  intros Hi Hx Hk. pose proof (REQUIRE_Val i x tt Hi Hx) as Hr. unfold REQUIRE, assert_or in *.
  repeat case_match; cbn; auto; done.
Qed.

Lemma moves_rd {A} (off : A -> Z) i k :
  (forall b, i < vsize hook -> rd (E := guard_err) hook i = Val b -> moves off i (k b)) ->
  moves off i (rd hook i ≫= k).
Proof using Type.
  intros Hk. destruct (rd (E := guard_err) hook i) as [b|err|] eqn:Hb.
  - cbn. apply Hk; [by eapply rd_in_range|done].
  - by apply rd_not_Err in Hb.
  - done.
Qed.

Lemma moves_advance i x : 0 <= x -> i + x <= vsize hook -> moves (fun e => e) i (ADVANCE i x).
Proof using Type. unfold ADVANCE. case_match; [intros; apply moves_ret; cbn; lia|done]. Qed.

Lemma moves_leb {A} (off : A -> Z) i k :
  0 <= i <= vsize hook -> (forall v e, i <= e <= vsize hook -> moves off e (k (v, e))) ->
  moves off i (parseLeb128 hook i ≫= k).
Proof using Hok Hsz.
  intros Hi Hk. apply (moves_bind snd).
  - split; [apply parseLeb128_fuel|]. intros [v e]. by apply parseLeb128_bounds.
  - intros [v e]. apply Hk.
Qed.

Lemma moves_signed_leb i : 0 <= i <= vsize hook -> moves (fun e => e) i (skip_signed_leb hook i).
Proof using Hsz.
  intros Hi. apply (moves_bind snd).
  - split; [apply parseSignedLeb128_fuel|]. intros [v e]. by apply parseSignedLeb128_bounds.
  - intros [v e] ?. apply moves_ret. cbn in *. lia.
Qed.

Lemma moves_skip_leb i : 0 <= i <= vsize hook -> moves (fun e => e) i (skip_leb hook i).
Proof using Hok Hsz. intros Hi. apply moves_leb; [done|]. intros. apply moves_ret. cbn. lia. Qed.

Lemma moves_require_leb i : 0 <= i <= vsize hook -> moves (fun e => e) i (require_leb hook i).
Proof using Hok Hsz. intros Hi. apply moves_require; [done|lia|]. intros. by apply moves_skip_leb. Qed.

(** Where a byte is left, [REQUIRE(1); LEB();] moves past it. *)
Lemma require_leb_strict i e :
  0 <= i <= vsize hook -> require_leb hook i = Val e -> i < e <= vsize hook.
Proof using Hok Hsz.
  unfold require_leb, skip_leb. intros Hi H. res_inv. apply REQUIRE_Val in Hb; [|lia..].
  destruct a0 as [v e']. res_inv. apply parseLeb128_progress in Hb0; try done; lia.
Qed.
End progress.

(** [scan_moves] proves [moves] goals by following the code. *)
Ltac scan_moves_one :=
  first
    [ apply moves_rejected
    | apply moves_require_leb; [done|done|lia]
    | apply moves_skip_leb; [done|done|lia]
    | apply moves_signed_leb; [done|lia]
    | apply moves_advance; lia
    | apply moves_ret; cbn; lia
    | apply moves_require; [done|lia|lia|]
    | apply moves_rd
    | apply moves_leb; [done|done|lia|]
    | match goal with |- moves _ _ _ (if ?b then _ else _) => destruct b eqn:? end
    | apply (moves_bind _ (fun e => e)) ].
Ltac scan_moves := repeat (intros; cbn beta in *; scan_moves_one); intros; cbn beta in *.

Section termination.
Context (hook : list Z) (Hok : bytes_ok hook) (Hsz : vsize hook < 2 ^ 31 - 16).

(** A loop of strictly moving steps. *)
Lemma for_loop_moves body n i :
  (forall i, 0 <= i <= vsize hook -> moves hook (fun e => e) i (body i)) ->
  (forall i e, 0 <= i <= vsize hook -> body i = Val e -> i < e) ->
  0 <= i <= vsize hook ->
  moves hook (fun e => e) i (for_loop (S (length hook)) (fun _ i => body i) 0 n i).
Proof using Type.
  intros Hm Hs Hi. split.
  - apply (for_loop_fuel _ (fun i => 0 <= i <= vsize hook) (fun i => i) (vsize hook)); try lia.
    + intros _ k Hk. by apply Hm.
    + intros _ k e Hk He. pose proof (Hs _ _ Hk He). apply Hm in He; lia.
    + unfold vsize in *. lia.
  - intros e He. eapply (for_loop_inv _ (fun _ e => i <= e <= vsize hook)) in He; [done| |lia].
    intros _ k e' _ Hk Hb. apply Hm in Hb; lia.
Qed.

Lemma select_type_moves i : 0 <= i <= vsize hook -> moves hook (fun e => e) i (select_type hook i).
Proof using Hok Hsz. intros Hi. unfold select_type, GUARD_ERROR. scan_moves. Qed.

Lemma select_type_strict i e : select_type hook i = Val e -> i < e.
Proof using Type.
  unfold select_type, ADVANCE, GUARD_ERROR. intros H. res_open; lia.
Qed.

Lemma guard_immediates_moves instr i :
  0 <= i <= vsize hook -> moves hook (fun e => e) i (guard_immediates hook instr i).
Proof using Hok Hsz.
  intros Hi. unfold guard_immediates, guard_br_table, guard_reference, guard_parametric, guard_table,
    guard_memory, guard_const, guard_vector, GUARD_ERROR.
  scan_moves; apply for_loop_moves; try lia; auto using moves_require_leb, select_type_moves,
    select_type_strict; intros; by eapply require_leb_strict.
Qed.

Lemma guard_prologue_moves i :
  0 <= i <= vsize hook -> moves hook (fun r => snd r) i (guard_prologue hook i).
Proof using Hok Hsz. intros Hi. unfold guard_prologue, GUARD_ERROR. scan_moves. Qed.

Definition next_pos (n : guard_next) : Z :=
  match n with Continue s => pos s | Break _ => vsize hook end.

Lemma guard_block_moves g instr s :
  0 <= pos s <= vsize hook -> moves hook next_pos (pos s) (guard_block hook g instr s).
Proof using Hok Hsz.
  intros Hi. unfold guard_block, guard_block_type, count_guard, GUARD_ERROR.
  apply (moves_bind _ (fun e => e)); [scan_moves|]. intros i Hpi.
  apply (moves_bind _ (fun r => snd r)).
  - destruct (instr =? 3); [|scan_moves].
    apply (moves_bind _ (fun r => snd r)); [apply guard_prologue_moves; lia|].
    intros [[b f] j] Hj. cbn in Hj |- *. case_match; [scan_moves|]. case_match; [scan_moves|].
    case_match; cbn; scan_moves.
  - intros [[b gc] j] Hj. cbn in Hj |- *. apply moves_ret. cbn. lia.
Qed.

Lemma guard_step_moves e g l s : moves hook next_pos (pos s + 1) (guard_step hook e g l s).
Proof using Hok Hsz.
  unfold guard_step. destruct (REQUIRE hook (pos s) 1) as [u|err|] eqn:HR.
  2:{ apply REQUIRE_Err in HR as ->. cbn. done. }
  2:{ done. }
  cbn -[set_count]. destruct (rd (E := guard_err) hook (pos s)) as [instr|err|] eqn:Hr.
  2:{ by apply rd_not_Err in Hr. }
  2:{ done. }
  pose proof (rd_in_range _ _ _ Hr) as Hi.
  unfold ADVANCE. cbn. destruct (i32_fits (pos s + 1)); [|done]. cbn.
  destruct ((instr =? 0) || _ || _); [apply moves_ret; cbn; lia|].
  destruct ((instr =? 2) || _ || _); [apply (moves_weaken _ _ _ (pos s + 1)); [lia|];
    apply (guard_block_moves g instr (mkScan (pos s + 1) _ _ _ _)); cbn; lia|].
  destruct (instr =? 11).
  { unfold guard_block_end. cbn. repeat case_match; try done; apply moves_ret; cbn; lia. }
  destruct (instr =? 16).
  { unfold guard_call, count_guard, GUARD_ERROR. cbn. apply moves_require; [done|lia|lia|]. intros _.
    apply moves_leb; [done|done|lia|]. intros v j Hj. cbn.
    case_match; [done|]. repeat case_match; cbn; try done; apply moves_ret; cbn; lia. }
  apply (moves_bind _ (fun e => e)); [apply guard_immediates_moves; lia|].
  intros j Hj. apply moves_ret. cbn. lia.
Qed.

Lemma guard_step_in_range e g l s n :
  guard_step hook e g l s = Val n -> 0 <= pos s < vsize hook.
Proof using Type. unfold guard_step. intros H. res_inv. by eapply rd_in_range. Qed.

Lemma guard_loop_fuel e g l fuel s :
  (0 <= pos s -> vsize hook - pos s <= Z.of_nat fuel) ->
  guard_loop (S fuel) hook e g l s <> Err NoFuel.
Proof using Hok Hsz.
  revert s. induction fuel as [|fuel IH]; intros s Hf; cbn [guard_loop];
    (case_match; [|done]); destruct (guard_step_moves e g l s) as [Hnf Hv];
    destruct (guard_step hook e g l s) as [[s'|root]|err|] eqn:Hst; cbn -[guard_loop];
    try done; try congruence; apply guard_step_in_range in Hst; specialize (Hv _ eq_refl); cbn in Hv.
  - lia.
  - apply IH. lia.
Qed.
End termination.

Section soundness.
Context (hook : list Z) (end_offset guard_func_idx last_import_idx : Z).

Abbreviation step := (guard_step hook end_offset guard_func_idx last_import_idx).

(** The scan's transitions: the loop condition holds and the body continues. *)
Inductive scans : scan -> scan -> Prop :=
| scans_here s : scans s s
| scans_next s s' s'' :
    pos s < end_offset -> step s = Val (Continue s') -> scans s' s'' -> scans s s''.

(** A loop's guard: after the block type starting at [i] come [i32.const id],
    [i32.const bound] with a positive bound, and a call of the guard function. *)
Definition loop_guarded (i : Z) : Prop :=
  exists i1 i2 i3 bound i4,
    guard_block_type hook i = Val i1 /\
    rd (E := guard_err) hook i1 = Val 0x41 /\ skip_signed_leb hook (i1 + 1) = Val i2 /\
    rd (E := guard_err) hook i2 = Val 0x41 /\ parseLeb128 hook (i2 + 1) = Val (bound, i3) /\
    rd (E := guard_err) hook i3 = Val 0x10 /\
    parseLeb128 hook (i3 + 1) = Val (u64 guard_func_idx, i4) /\ u32 bound <> 0.

(** What the checker promises of an instruction at offset [i].  Without imports [last_import_idx]
    is -1, which is compared as the largest unsigned number, and nothing is said of calls. *)
Definition instr_safe (i : Z) : Prop :=
  exists op, rd (E := guard_err) hook i = Val op /\
    op <> 0x11 /\ op <> 0x40 /\
    (op = 0x10 -> exists callee j,
       parseLeb128 hook (i + 1) = Val (callee, j) /\ (0 <= last_import_idx -> callee <= last_import_idx)) /\
    (op = 0x03 -> loop_guarded (i + 1)).

Lemma ADVANCE_Val i x j : ADVANCE i x = Val j -> j = i + x.
Proof. unfold ADVANCE. case_match; congruence. Qed.

Lemma guard_block_loop s n :
  guard_block hook guard_func_idx 0x03 s = Val n -> loop_guarded (pos s).
Proof.
  unfold guard_block, guard_prologue, GUARD_ERROR. cbn -[guard_block_type]. intros H.
  res_open.
  repeat match goal with H : ADVANCE _ _ = Val _ |- _ => apply ADVANCE_Val in H; subst end.
  bool_prop; subst. unfold loop_guarded. repeat eexists; eassumption.
Qed.

Lemma guard_step_safe s n : step s = Val n -> instr_safe (pos s).
Proof.
  unfold guard_step. intros H. res_inv. apply ADVANCE_Val in Hb1 as ->. rename a0 into op.
  exists op. split; [done|]. cbn -[guard_block guard_call guard_immediates] in Hk.
  destruct (Z.eqb_spec op 0x11) as [->|]; [done|].
  destruct (Z.eqb_spec op 0x40) as [->|].
  { cbn -[REQUIRE] in Hk. by res_inv. }
  repeat split; try done; intros ->.
  - cbn -[guard_call] in Hk. unfold guard_call in Hk. cbn [pos] in Hk.
    pose proof (Z.mod_le last_import_idx (2 ^ 64)). res_open; bool_prop; (do 2 eexists; split; [eassumption|]); unfold u64, uwrap in *; lia.
  - apply guard_block_loop in Hk. done.
Qed.

Lemma guard_loop_safe fuel s root :
  guard_loop fuel hook end_offset guard_func_idx last_import_idx s = Val root ->
  forall s', scans s s' -> pos s' < end_offset -> instr_safe (pos s').
Proof.
  revert s. induction fuel as [|fuel IH]; intros s H s' Hs' Hp; cbn [guard_loop] in H.
  - case_if H. bool_prop. destruct Hs'; lia.
  - case_if H.
    + res_inv. destruct Hs' as [s|s s1 s' _ Hst Hsc]; [by eapply guard_step_safe|].
      rewrite Hst in Hb. injection Hb as <-. eauto.
    + bool_prop. destruct Hs'; lia.
Qed.
End soundness.

Lemma check_guard_fuel hook start_offset end_offset guard_func_idx last_import_idx :
  bytes_ok hook -> vsize hook < 2 ^ 31 - 16 ->
  check_guard hook start_offset end_offset guard_func_idx last_import_idx <> Err NoFuel.
Proof.
  intros Hok Hsz. unfold check_guard, guard_verdict.
  pose proof (guard_loop_fuel hook Hok Hsz (if end_offset <=? 0 then i32 (vsize hook) else end_offset)
    guard_func_idx last_import_idx (length hook) (scan_start start_offset)
    ltac:(unfold vsize; cbn; lia)).
  destruct (guard_loop _ _ _ _ _ _) as [root|err|]; cbn; [|congruence|done].
  destruct (compute_wce root None 0) as [[w lim]|err|] eqn:Hw; cbn; [by repeat case_match| |done].
  intros [= ->]. by apply compute_wce_no_err in Hw.
Qed.

(** C40: the scan of a function body terminates on every hook: the loop runs at
    most once per byte, whatever the offsets and indices it is given; so the
    scan is accepted, rejected, ends with an exception or is undefined. *)
Theorem check_guard_terminates hook start_offset end_offset guard_func_idx last_import_idx :
  bytes_ok hook -> vsize hook < 2 ^ 31 - 16 ->
  (exists wce, check_guard hook start_offset end_offset guard_func_idx last_import_idx = Val wce) \/
  (exists c, check_guard hook start_offset end_offset guard_func_idx last_import_idx = Err (Rejected c)) \/
  (exists x, check_guard hook start_offset end_offset guard_func_idx last_import_idx = Err (Thrown x)) \/
  check_guard hook start_offset end_offset guard_func_idx last_import_idx = Undef.
Proof.
  intros Hok Hsz.
  pose proof (check_guard_fuel hook start_offset end_offset guard_func_idx last_import_idx Hok Hsz).
  destruct (check_guard _ _ _ _ _) as [?|[]|]; eauto. done.
Qed.

(** C2: in an accepted function body every instruction the scan stops at is
    safe: it is neither [call_indirect] nor [memory.grow]; a call goes to an
    imported function, provided that the hook has imports ([last_import_idx] is not
    negative; [guard_call_no_imports] is a call that passes otherwise); and a loop starts
    with a call of the guard function with a positive iteration bound.  The worst case,
    which is the result, is below 65535 instructions. *)
Theorem check_guard_sound hook start_offset end_offset guard_func_idx last_import_idx wce :
  check_guard hook start_offset end_offset guard_func_idx last_import_idx = Val wce ->
  let stop := if end_offset <=? 0 then i32 (vsize hook) else end_offset in
  wce < 65535 /\
  (exists root, guard_loop (S (length hook)) hook stop guard_func_idx last_import_idx
      (scan_start start_offset) = Val root /\ compute_wce root None 0 = Val (wce, false)) /\
  forall s, scans hook stop guard_func_idx last_import_idx (scan_start start_offset) s ->
    pos s < stop -> instr_safe hook guard_func_idx last_import_idx (pos s).
Proof.
  intros H stop. unfold check_guard, guard_verdict in H. fold stop in H. res_open. bool_prop.
  split; [lia|]. split; [eauto|]. intros s Hs Hp. eapply guard_loop_safe; eassumption.
Qed.

(** A loop guarded with bound 10, containing [nop], then the end of the body. *)
Definition sample_body : list Z := [0x03; 0x40; 0x41; 0x05; 0x41; 0x0A; 0x10; 0x00; 0x01; 0x0B; 0x0B].

Lemma sample_body_ok : bytes_ok sample_body.
Proof. repeat constructor; unfold byte_range; lia. Qed.

Lemma check_guard_terminates_witness :
  (exists wce, check_guard sample_body 0 0 0 0 = Val wce) \/
  (exists c, check_guard sample_body 0 0 0 0 = Err (Rejected c)) \/
  (exists x, check_guard sample_body 0 0 0 0 = Err (Thrown x)) \/
  check_guard sample_body 0 0 0 0 = Undef.
Proof. apply (check_guard_terminates sample_body 0 0 0 0); [apply sample_body_ok|reflexivity]. Defined.

Lemma check_guard_sound_witness :
  check_guard sample_body 0 0 0 0 = Val 22 /\ instr_safe sample_body 0 0 0.
Proof.
  split; [vm_compute; reflexivity|].
  destruct (check_guard_sound sample_body 0 0 0 0 22) as (_ & _ & H); [vm_compute; reflexivity|].
  apply (H (scan_start 0)); [constructor|reflexivity].
Defined.

(** The limit of guard calls is tested before the counter is incremented, with
    a strict comparison: 1025 calls of [_g] are accepted. *)
Lemma guard_calls_1025 :
  check_guard (concat (replicate 1025 [0x10; 0x00]) ++ [0x0B]) 0 0 0 0 = Val 1026.
Proof. vm_compute. reflexivity. Qed.

(** A worst case of exactly 65535 is rejected. *)
Lemma guard_verdict_65535 :
  guard_verdict (newBlk 1 65535 0) = Err (Rejected INSTRUCTION_EXCESS).
Proof. vm_compute. reflexivity. Qed.

(** Without an import section [last_import_idx] is -1, which converts to the
    largest unsigned number: a call of a function of the hook itself passes. *)
Lemma guard_call_no_imports : check_guard [0x10; 0x05; 0x0B] 0 0 (-1) (-1) = Val 2.
Proof. vm_compute. reflexivity. Qed.

(** The bound [i32.const -1] (one byte, 0x7F) is taken as 127. *)
Lemma guard_bound_negative :
  check_guard [0x03; 0x40; 0x41; 0x05; 0x41; 0x7F; 0x10; 0x00; 0x01; 0x0B; 0x0B] 0 0 0 0 = Val 256.
Proof. vm_compute. reflexivity. Qed.
