(* ===== verification/GuardValidate.v ===== *)
(** * GuardValidate: validation of a hook binary ([app/hook/Guard.h])

    [validateGuards] decides whether a byte string may be installed as a hook.
    The first pass over the sections collects the imports, the exports and the
    types of the functions; the second checks the function types against the
    signatures of the hook API and runs [check_guard] on every function body.
    A [fuel] bounds the iterations of each loop: section and name lengths are
    signed in the source, so the passes can move backwards and need not
    terminate; [validateGuards_terminates] gives a condition under which the
    length of the binary is enough fuel. *)

From Stdlib Require Import String ZArith Lia.
From stdpp Require Import base numbers list option gmap.
From S2P Require Import Prelude Enum Leb128 GuardTree GuardCheck.

Local Open Scope Z_scope.

(** [int x = parseLeb128(hook, i, &i); CHECK_SHORT_HOOK();] *)
Definition LEB_INT (hook : list Z) (i : Z) : gres (Z * Z) :=
  '(v, i) ← parseLeb128 hook i;
  _ ← CHECK_SHORT_HOOK hook i;
  Val (i32 v, i).

(** [i += x; CHECK_SHORT_HOOK();] *)
Definition SKIP (hook : list Z) (i x : Z) : gres Z :=
  i ← ADVANCE i x;
  _ ← CHECK_SHORT_HOOK hook i;
  Val i.

Definition reject {A} (c : hook_log_code) : gres A := Err (Rejected c).

(** ** What the first pass collects *)

(** A [std::map<int, std::string>]: sorted by key; [emplace] keeps an entry
    that is already there. *)
Fixpoint emplace (k : Z) (v : list Z) (m : list (Z * list Z)) : list (Z * list Z) :=
  match m with
  | [] => [(k, v)]
  | (k', v') :: m' =>
      if k <? k' then (k, v) :: m
      else if k =? k' then m
      else (k', v') :: emplace k v m'
  end.

Record wasm_info := mkInfo {
  hook_func_idx : option Z;
  cbak_func_idx : option Z;
  func_type_map : gmap Z Z;
  import_type_map : gmap Z (list (Z * list Z));
  guard_import_number : Z;
  last_import_number : Z;
  import_count : Z
}.

Definition info0 : wasm_info := mkInfo None None ∅ ∅ (-1) (-1) 0.

Definition set_hook_func (x : Z) (w : wasm_info) : wasm_info :=
  mkInfo (Some x) (cbak_func_idx w) (func_type_map w) (import_type_map w)
    (guard_import_number w) (last_import_number w) (import_count w).
Definition set_cbak_func (x : Z) (w : wasm_info) : wasm_info :=
  mkInfo (hook_func_idx w) (Some x) (func_type_map w) (import_type_map w)
    (guard_import_number w) (last_import_number w) (import_count w).
Definition set_func_type (j t : Z) (w : wasm_info) : wasm_info :=
  mkInfo (hook_func_idx w) (cbak_func_idx w) (<[j := t]> (func_type_map w)) (import_type_map w)
    (guard_import_number w) (last_import_number w) (import_count w).
Definition set_import_count (n : Z) (w : wasm_info) : wasm_info :=
  mkInfo (hook_func_idx w) (cbak_func_idx w) (func_type_map w) (import_type_map w)
    (guard_import_number w) (last_import_number w) n.
Definition set_last_import (n : Z) (w : wasm_info) : wasm_info :=
  mkInfo (hook_func_idx w) (cbak_func_idx w) (func_type_map w) (import_type_map w)
    (guard_import_number w) n (import_count w).
Definition set_guard_import (n : Z) (w : wasm_info) : wasm_info :=
  mkInfo (hook_func_idx w) (cbak_func_idx w) (func_type_map w) (import_type_map w)
    n (last_import_number w) (import_count w).

(** "add to import map" *)
Definition add_import (type_idx func_upto : Z) (name : list Z) (w : wasm_info) : wasm_info :=
  mkInfo (hook_func_idx w) (cbak_func_idx w) (func_type_map w)
    (match import_type_map w !! type_idx with
     | None => <[type_idx := [(func_upto, name)]]> (import_type_map w)
     | Some m => <[type_idx := emplace func_upto name m]> (import_type_map w)
     end)
    (guard_import_number w) (last_import_number w) (import_count w).

(** ** The first pass *)

(** A length-prefixed string of at least one byte that lies in the hook. *)
Definition wasm_name (bad : hook_log_code) (hook : list Z) (i : Z) : gres (list Z * Z) :=
  '(len, i) ← LEB_INT hook i;
  if (len <? 1) || (u64 (vsize hook - i) <? len) then reject bad
  else Val (sub_bytes hook i len, i).

(** One iteration of the import loop. *)
Definition import_entry (hook : list Z) (func_upto i : Z) (w : wasm_info) : gres (Z * wasm_info) :=
  '(module, i) ← wasm_name IMPORT_MODULE_BAD hook i;
  if negb (bool_decide (module = string_bytes "env")) then reject IMPORT_MODULE_ENV else
  i ← SKIP hook i (vsize module);
  '(import_name, i) ← wasm_name IMPORT_NAME_BAD hook i;
  i ← SKIP hook i (vsize import_name);
  kind ← rd hook i;
  if 0x00 <? kind then reject IMPORT_ILLEGAL else
  i ← SKIP hook i 1;
  '(type_idx, i) ← LEB_INT hook i;
  w ← (if bool_decide (import_name = string_bytes "_g") then Val (set_guard_import func_upto w)
       else match whitelist_find import_name with
            | None => reject IMPORT_ILLEGAL
            | Some _ => Val w
            end);
  Val (i, add_import type_idx func_upto import_name w).

(** [func_upto] equals the loop counter: every import is a function. *)
Definition import_section (fuel : nat) (hook : list Z) (i : Z) (w : wasm_info) : gres wasm_info :=
  '(count, i) ← LEB_INT hook i;
  let w := set_import_count count w in
  if count <=? 0 then reject IMPORTS_MISSING else
  '(_, w) ← for_loop fuel (fun j '(i, w) => import_entry hook j i w) 0 count (i, w);
  if guard_import_number w =? -1 then reject GUARD_IMPORT else
  Val (set_last_import (count - 1) w).

(** [hook[i] == c0 && hook[i+1] == c1 && ...]: reads stop at a mismatch. *)
Fixpoint bytes_at (hook : list Z) (i : Z) (cs : list Z) : gres bool :=
  match cs with
  | [] => Val true
  | c :: cs' => b ← rd hook i; if b =? c then bytes_at hook (i + 1) cs' else Val false
  end.

(** The rest of an export whose name is [hook] or [cbak]. *)
Definition export_func (bad : hook_log_code) (hook : list Z) (i : Z) : gres (Z * Z) :=
  i ← SKIP hook i 4;
  kind ← rd hook i;
  if negb (kind =? 0) then reject bad else
  i ← SKIP hook i 1;
  LEB_INT hook i.

Definition export_entry (hook : list Z) (i : Z) (w : wasm_info) : gres (Z * wasm_info) :=
  '(name_len, i) ← LEB_INT hook i;
  is_hook ← (if name_len =? 4 then bytes_at hook i (string_bytes "hook") else Val false);
  if (is_hook : bool) then
    '(x, i) ← export_func EXPORT_HOOK_FUNC hook i; Val (i, set_hook_func x w)
  else
    is_cbak ← (if name_len =? 4 then bytes_at hook i (string_bytes "cbak") else Val false);
    if (is_cbak : bool) then
      '(x, i) ← export_func EXPORT_CBAK_FUNC hook i; Val (i, set_cbak_func x w)
    else
      n ← ADVANCE name_len 1;
      i ← ADVANCE i n;
      '(_, i) ← LEB_INT hook i;
      Val (i, w).

Definition export_section (fuel : nat) (hook : list Z) (i : Z) (w : wasm_info) : gres wasm_info :=
  '(count, i) ← LEB_INT hook i;
  if count <=? 0 then reject EXPORTS_MISSING else
  '(_, w) ← for_loop fuel (fun _ '(i, w) => export_entry hook i w) 0 count (i, w);
  match hook_func_idx w with None => reject EXPORT_MISSING | Some _ => Val w end.

Definition function_entry (hook : list Z) (j i : Z) (w : wasm_info) : gres (Z * wasm_info) :=
  '(type_idx, i) ← LEB_INT hook i;
  Val (i, set_func_type j type_idx w).

Definition function_section (fuel : nat) (hook : list Z) (i : Z) (w : wasm_info) : gres wasm_info :=
  '(count, i) ← LEB_INT hook i;
  if count <=? 0 then reject FUNCS_MISSING else
  '(_, w) ← for_loop fuel (fun j '(i, w) => function_entry hook j i w) 0 count (i, w);
  Val w.

(** [last_section_type] is initialised to 0 and never assigned. *)
Definition last_section_type : Z := 0.

(** The outer loop of the first pass; [j] is the previous value of [i]. *)
Fixpoint first_pass (fuel inner : nat) (hook : list Z) (i j : Z) (w : wasm_info) : gres wasm_info :=
  if u64 i <? vsize hook then
    match fuel with
    | O => Err NoFuel
    | S fuel =>
        if j =? i then reject WASM_PARSE_LOOP else
        let j := i in
        section_type ← rd hook i;
        i ← ADVANCE i 1;
        if section_type =? 0 then reject CUSTOM_SECTION_DISALLOWED else
        if section_type <=? last_section_type then reject SECTIONS_OUT_OF_SEQUENCE else
        '(section_length, i) ← LEB_INT hook i;
        next_section ← ADVANCE i section_length;
        w ← (if section_type =? 2 then import_section inner hook i w
             else if section_type =? 7 then export_section inner hook i w
             else if section_type =? 3 then function_section inner hook i w
             else Val w);
        first_pass fuel inner hook next_section j w
    end
  else Val w.

(** ** Between the passes *)

Record func_info := mkFunc {
  hook_idx : Z;
  cbak_idx : option Z;
  hook_type_idx : Z
}.

(** The export indices relative to the functions of the binary, and the type of
    [hook], which [cbak] must share.  Dereferencing [hook_func_idx] when no
    export section was seen is undefined. *)
Definition check_func_types (w : wasm_info) : gres func_info :=
  match hook_func_idx w with
  | None => Undef
  | Some h =>
      h ← ADVANCE h (- import_count w);
      c ← match cbak_func_idx w with
          | None => Val None
          | Some c => c ← ADVANCE c (- import_count w); Val (Some c)
          end;
      match func_type_map w !! h, c with
      | None, _ => reject FUNC_TYPELESS
      | Some t, None => Val (mkFunc h None t)
      | Some t, Some c =>
          match func_type_map w !! c with
          | None => reject FUNC_TYPELESS
          | Some t' => if t' =? t then Val (mkFunc h (Some c) t) else reject HOOK_CBAK_DIFF_TYPES
          end
      end
  end.

(** ** The second pass: the type section *)

(** The signatures of all API functions imported with this type must agree; the
    result is the first one.  [find(api_name)->second] on a missing name is
    undefined. *)
Fixpoint common_signature (first : option (list Z)) (usage : list (Z * list Z))
    : gres (option (list Z)) :=
  match usage with
  | [] => Val first
  | (_, api_name) :: usage' =>
      match whitelist_find api_name with
      | None => Undef
      | Some api_signature =>
          match first with
          | None => common_signature (Some api_signature) usage'
          | Some s =>
              if bool_decide (api_signature = s) then common_signature first usage'
              else reject FUNC_TYPE_INVALID
          end
      end
  end.

Definition is_valtype (t : Z) : bool := (t =? 0x7F) || (t =? 0x7E) || (t =? 0x7D) || (t =? 0x7C).

(** Element [k] of [*first_signature]. *)
Definition sig_at (sig : option (list Z)) (k : Z) : gres Z :=
  match sig with None => Undef | Some s => rd s k end.

Definition param_entry (hook : list Z) (is_hook_type : bool) (sig : option (list Z)) (k i : Z)
    : gres Z :=
  '(param_type, i) ← LEB_INT hook i;
  if negb (is_valtype param_type) then reject FUNC_PARAM_INVALID else
  if is_hook_type then
    if negb (param_type =? 0x7F) then reject PARAM_HOOK_CBAK else Val i
  else
    t ← sig_at sig (k + 1);
    if negb (t =? param_type) then reject FUNC_PARAM_INVALID else Val i.

Definition result_entry (hook : list Z) (is_hook_type : bool) (sig : option (list Z))
    (result_count i : Z) : gres Z :=
  '(result_type, i) ← LEB_INT hook i;
  if negb (is_valtype result_type) then reject FUNC_RETURN_INVALID else
  if is_hook_type then
    if negb (result_count =? 1) || negb (result_type =? 0x7E) then reject RETURN_HOOK_CBAK else Val i
  else
    t ← sig_at sig 0;
    if negb (t =? result_type) then reject FUNC_RETURN_INVALID else Val i.

(** The signature a type must have: that of the imports that use it; only the
    type of [hook] may be without imports. *)
Definition type_signature (f : func_info) (imports : gmap Z (list (Z * list Z))) (j : Z)
    : gres (option (list Z)) :=
  match imports !! j with
  | Some usage => common_signature None usage
  | None => if j =? hook_type_idx f then Val None else reject FUNC_TYPE_INVALID
  end.

Definition type_entry (fuel : nat) (hook : list Z) (f : func_info)
    (imports : gmap Z (list (Z * list Z))) (j i : Z) : gres Z :=
  b ← rd hook i;
  i ← ADVANCE i 1;
  if negb (b =? 0x60) then reject FUNC_TYPE_INVALID else
  _ ← CHECK_SHORT_HOOK hook i;
  sig ← type_signature f imports j;
  '(param_count, i) ← LEB_INT hook i;
  let is_hook_type := j =? hook_type_idx f in
  _ ← (if is_hook_type then
         if negb (param_count =? 1) then reject PARAM_HOOK_CBAK else Val tt
       else match sig with
            | None => Undef
            | Some s =>
                if negb (u64 param_count =? u64 (vsize s - 1)) then reject FUNC_TYPE_INVALID else Val tt
            end);
  i ← for_loop fuel (param_entry hook is_hook_type sig) 0 param_count i;
  '(result_count, i) ← LEB_INT hook i;
  if negb (result_count =? 1) then reject FUNC_RETURN_COUNT else
  for_loop fuel (fun _ => result_entry hook is_hook_type sig result_count) 0 result_count i.

Definition type_section (fuel : nat) (hook : list Z) (f : func_info)
    (imports : gmap Z (list (Z * list Z))) (i : Z) : gres unit :=
  '(count, i) ← LEB_INT hook i;
  _ ← for_loop fuel (type_entry fuel hook f imports) 0 count i;
  Val tt.

(** ** The second pass: the code section *)

Definition local_entry (hook : list Z) (i : Z) : gres Z :=
  '(_, i) ← LEB_INT hook i;
  t ← rd hook i;
  if negb ((0x7C <=? t) && (t <=? 0x7F)) then reject TYPE_INVALID else
  SKIP hook i 1.

Record instr_counts := mkCounts { maxInstrCountHook : Z; maxInstrCountCbak : Z }.

Definition record_count (f : func_info) (j wce : Z) (c : instr_counts) : instr_counts :=
  if hook_idx f =? j then mkCounts (i64 wce) (maxInstrCountCbak c)
  else if bool_decide (cbak_idx f = Some j) then mkCounts (maxInstrCountHook c) (i64 wce)
  else c.

(** The size and the locals of a function body: where its instructions start
    and where it ends. *)
Definition code_header (fuel : nat) (hook : list Z) (i : Z) : gres (Z * Z) :=
  '(code_size, i) ← LEB_INT hook i;
  code_end ← ADVANCE i code_size;
  '(local_count, i) ← LEB_INT hook i;
  i ← for_loop fuel (fun _ => local_entry hook) 0 local_count i;
  Val (i, code_end).

Definition code_entry (fuel : nat) (hook : list Z) (w : wasm_info) (f : func_info) (j i : Z)
    (c : instr_counts) : gres (Z * instr_counts) :=
  '(i, code_end) ← code_header fuel hook i;
  if i =? code_end then Val (i, c)
  else
    wce ← check_guard hook i code_end (guard_import_number w) (last_import_number w);
    Val (code_end, record_count f j wce c).

Definition code_section (fuel : nat) (hook : list Z) (w : wasm_info) (f : func_info) (i : Z)
    (c : instr_counts) : gres instr_counts :=
  '(count, i) ← LEB_INT hook i;
  '(_, c) ← for_loop fuel (fun j '(i, c) => code_entry fuel hook w f j i c) 0 count (i, c);
  Val c.

(** The type, the first payload byte and the successor of a section. *)
Definition section_header (hook : list Z) (i : Z) : gres (Z * Z * Z) :=
  section_type ← rd hook i;
  i ← ADVANCE i 1;
  '(section_length, i) ← LEB_INT hook i;
  next_section ← ADVANCE i section_length;
  Val (section_type, i, next_section).

Definition second_section (fuel : nat) (hook : list Z) (w : wasm_info) (f : func_info)
    (section_type i : Z) (c : instr_counts) : gres instr_counts :=
  if section_type =? 1 then _ ← type_section fuel hook f (import_type_map w) i; Val c
  else if section_type =? 10 then code_section fuel hook w f i c
  else Val c.

Fixpoint second_pass (fuel inner : nat) (hook : list Z) (w : wasm_info) (f : func_info) (i : Z)
    (c : instr_counts) : gres instr_counts :=
  if u64 i <? vsize hook then
    match fuel with
    | O => Err NoFuel
    | S fuel =>
        '(section_type, i, next_section) ← section_header hook i;
        c ← second_section inner hook w f section_type i c;
        second_pass fuel inner hook w f next_section c
    end
  else Val c.

(** ** The validator *)

Definition wasm_header : list Z := [0x00; 0x61; 0x73; 0x6D; 0x01; 0x00; 0x00; 0x00].

Definition validateGuards (fuel : nat) (hook : list Z) : gres (Z * Z) :=
  if vsize hook <? 10 then reject WASM_TOO_SMALL else
  if negb (bool_decide (take 8 hook = wasm_header)) then reject WASM_BAD_MAGIC else
  w ← first_pass fuel fuel hook 8 0 info0;
  f ← check_func_types w;
  c ← second_pass fuel fuel hook w f 8 (mkCounts 0 0);
  Val (u64 (maxInstrCountHook c), u64 (maxInstrCountCbak c)).

(** ** Termination *)

(** No LEB128 number anywhere in the binary exceeds an [int]: then no length is
    negative and neither pass moves backwards. *)
Definition small_lebs (hook : list Z) : bool :=
  forallb (fun i => match parseLeb128 hook i with Val (v, _) => v <? 2 ^ 31 | _ => true end)
    (seqZ 0 (vsize hook)).

Definition fueled {A} (c : gres A) : Prop := c <> Err NoFuel.

Lemma fueled_bind {A B} (c : gres A) (k : A -> gres B) :
  fueled c -> (forall a, c = Val a -> fueled (k a)) -> fueled (c ≫= k).
Proof. unfold fueled. destruct c; cbn; [auto|congruence|done]. Qed.

Lemma fueled_rd l i : fueled (rd l i).
Proof. unfold fueled. apply rd_not_Err. Qed.
Lemma fueled_ADVANCE i x : fueled (ADVANCE i x).
Proof. unfold fueled, ADVANCE. by case_match. Qed.
Lemma fueled_CHECK hook i : fueled (CHECK_SHORT_HOOK hook i).
Proof. unfold fueled, CHECK_SHORT_HOOK, assert_or. by case_match. Qed.
Lemma fueled_LEB_INT hook i : fueled (LEB_INT hook i).
Proof.
  unfold LEB_INT. apply fueled_bind; [apply parseLeb128_fuel|]. intros [v e] _.
  apply fueled_bind; [apply fueled_CHECK|done].
Qed.
Lemma fueled_SKIP hook i x : fueled (SKIP hook i x).
Proof.
  unfold SKIP. apply fueled_bind; [apply fueled_ADVANCE|]. intros e _.
  apply fueled_bind; [apply fueled_CHECK|done].
Qed.
Lemma fueled_bytes_at hook i cs : fueled (bytes_at hook i cs).
Proof.
  revert i. induction cs as [|c cs IH]; intros i; cbn [bytes_at]; [done|].
  apply fueled_bind; [apply fueled_rd|]. intros b _. by case_match.
Qed.

Create HintDb fueled.
#[export] Hint Resolve fueled_rd fueled_ADVANCE fueled_CHECK fueled_LEB_INT fueled_SKIP
  fueled_bytes_at : fueled.

(** [fueled_auto] follows the code; offsets stay in the context. *)
Ltac fueled_auto :=
  repeat first
    [ solve [auto with fueled nocore]
    | progress intros
    | match goal with
      | |- fueled (Val _) => discriminate
      | |- fueled Undef => discriminate
      | |- fueled (Err (Rejected _)) => discriminate
      | |- fueled (reject _) => discriminate
      | x : (_ * _)%type |- _ => destruct x; cbn beta iota in *
      | |- fueled (if ?b then _ else _) => destruct b eqn:?
      | |- fueled (match ?o with Some _ => _ | None => _ end) => destruct o eqn:?
      end
    | apply fueled_bind ].

Create HintDb forward.

Section termination.
Context (hook : list Z) (Hok : bytes_ok hook) (Hsz : vsize hook < 2 ^ 31 - 16)
  (Hsmall : small_lebs hook = true).

Lemma LEB_INT_Val i n e :
  0 <= i < 2 ^ 31 -> LEB_INT hook i = Val (n, e) -> i < e < vsize hook /\ 0 <= n.
Proof using Hok Hsz Hsmall.
  unfold LEB_INT, CHECK_SHORT_HOOK. intros Hi H. res_open. bool_prop.
  pose proof Hb as Hp. apply parseLeb128_progress in Hp as [Hv He]; [|done|lia|lia].
  rewrite u64_small in Hb0 by lia. assert (i < vsize hook) by lia. split; [lia|].
  unfold small_lebs in Hsmall. rewrite forallb_forall in Hsmall.
  specialize (Hsmall i). rewrite Hb in Hsmall. unfold u64_range in Hv.
  rewrite i32_small; [lia|]. split; [lia|]. apply Z.ltb_lt, Hsmall.
  apply list_elem_of_In, elem_of_seqZ. lia.
Qed.

Lemma ADVANCE_fits i x e : ADVANCE i x = Val e -> e = i + x /\ i + x < 2 ^ 31.
Proof using Type. unfold ADVANCE, i32_fits. intros H. case_if H. bool_prop. by injection H as <-. Qed.

Lemma SKIP_Val i x e :
  0 <= i -> 0 <= x -> SKIP hook i x = Val e -> e = i + x /\ i <= e < vsize hook.
Proof using Type.
  unfold SKIP, CHECK_SHORT_HOOK. intros Hi Hx H. res_open. apply ADVANCE_fits in Hb as [-> Hf].
  bool_prop. rewrite u64_small in Hb0; lia.
Qed.

Definition in_hook (i : Z) : Prop := 0 <= i < vsize hook.

(** The body of each loop stays in the binary and moves forward. *)
Definition forward {A} (off : A -> Z) (body : Z -> A -> gres A) : Prop :=
  (forall j s, in_hook (off s) -> fueled (body j s)) /\
  (forall j s s', in_hook (off s) -> body j s = Val s' -> off s < off s' < vsize hook).

Lemma for_loop_forward {A} (off : A -> Z) body count s :
  forward off body -> in_hook (off s) ->
  fueled (for_loop (S (length hook)) body 0 count s) /\
  (forall s', for_loop (S (length hook)) body 0 count s = Val s' -> off s <= off s' < vsize hook).
Proof using Type.
  unfold in_hook. intros [Hf Hv] Hs. split.
  - apply (for_loop_fuel _ (fun s => in_hook (off s)) off (vsize hook)); unfold in_hook in *; try lia.
    + apply Hf.
    + intros j t t' Ht Hb. specialize (Hv _ _ _ Ht Hb). lia.
    + unfold vsize in *. lia.
  - intros s' H. apply (for_loop_inv _ (fun _ t => off s <= off t < vsize hook)) in H; [done| |lia].
    intros j t t' _ Ht Hb. specialize (Hv j t t' ltac:(unfold in_hook; lia) Hb). lia.
Qed.

Lemma for_loop_offsets {A} (off : A -> Z) body count s s' :
  forward off body -> in_hook (off s) ->
  for_loop (S (length hook)) body 0 count s = Val s' -> off s <= off s' < vsize hook.
Proof using Type. intros Hf Hs. by apply for_loop_forward. Qed.

(** [offsets] derives the bounds of all offsets from the successful steps. *)
Ltac offsets :=
  unfold in_hook in *;
  repeat match goal with
  | H : LEB_INT hook _ = Val _ |- _ => apply LEB_INT_Val in H; [|lia]; destruct H
  | H : SKIP hook _ _ = Val _ |- _ =>
      apply SKIP_Val in H; [|lia|first [lia|apply vsize_nonneg]]; destruct H
  | H : ADVANCE _ _ = Val _ |- _ => apply ADVANCE_fits in H; destruct H; subst
  | H : for_loop _ _ _ _ _ = Val _ |- _ =>
      apply (for_loop_offsets (fun i => i)) in H; [|solve [auto with forward]|unfold in_hook; lia]
  end; subst.

Lemma wasm_name_Val bad i s e :
  in_hook i -> wasm_name bad hook i = Val (s, e) -> i < e < vsize hook.
Proof using Hok Hsz Hsmall. unfold wasm_name, reject. intros Hi H. res_open. offsets. lia. Qed.

Lemma import_forward : forward fst (fun j '(i, w) => import_entry hook j i w).
Proof using Hok Hsz Hsmall.
  split.
  - intros j [i w] Hi. unfold import_entry, wasm_name. fueled_auto.
  - intros j [i w] [i' w'] Hi H. cbn in *. unfold import_entry, reject in H.
    res_open; (apply wasm_name_Val in Hb; [|done]); offsets;
      (apply wasm_name_Val in Hb1; [|unfold in_hook; lia]); offsets; lia.
Qed.

Lemma export_forward : forward fst (fun _ '(i, w) => export_entry hook i w).
Proof using Hok Hsz Hsmall.
  split.
  - intros j [i w] Hi. unfold export_entry, export_func. fueled_auto.
  - intros j [i w] [i' w'] Hi H. cbn in *. unfold export_entry, export_func, reject in H.
    res_open; offsets; lia.
Qed.

Lemma function_forward : forward fst (fun j '(i, w) => function_entry hook j i w).
Proof using Hok Hsz Hsmall.
  split.
  - intros j [i w] Hi. unfold function_entry. fueled_auto.
  - intros j [i w] [i' w'] Hi H. cbn in *. unfold function_entry in H. res_open. offsets. lia.
Qed.

Lemma param_forward b sig : forward (fun i => i) (param_entry hook b sig).
Proof using Hok Hsz Hsmall.
  split.
  - intros j i Hi. unfold param_entry, sig_at. fueled_auto.
  - intros j i i' Hi H. unfold param_entry, reject in H. res_open; offsets; lia.
Qed.
#[local] Hint Resolve param_forward : forward.

Lemma result_forward b sig n : forward (fun i => i) (fun _ => result_entry hook b sig n).
Proof using Hok Hsz Hsmall.
  split.
  - intros j i Hi. unfold result_entry, sig_at. fueled_auto.
  - intros j i i' Hi H. unfold result_entry, reject in H. res_open; offsets; lia.
Qed.
#[local] Hint Resolve result_forward : forward.

Lemma local_forward : forward (fun i => i) (fun _ => local_entry hook).
Proof using Hok Hsz Hsmall.
  split.
  - intros j i Hi. unfold local_entry. fueled_auto.
  - intros j i i' Hi H. unfold local_entry, reject in H. res_open; offsets; lia.
Qed.
#[local] Hint Resolve local_forward : forward.

Lemma fueled_common first usage : fueled (common_signature first usage).
Proof using Type.
  revert first. induction usage as [|[k n] usage IH]; intros first; cbn [common_signature]; [done|].
  repeat case_match; try done; apply IH.
Qed.

Abbreviation enough := (S (length hook)).

Lemma type_forward f imports : forward (fun i => i) (type_entry enough hook f imports).
Proof using Hok Hsz Hsmall.
  split.
  - intros j i Hi. unfold type_entry, type_signature. pose proof (fueled_common None) as Hc.
    fueled_auto; auto; offsets;
      apply (for_loop_forward (fun i => i)); auto with forward; unfold in_hook; lia.
  - intros j i i' Hi H. unfold type_entry, reject in H. res_open; offsets; lia.
Qed.
#[local] Hint Resolve type_forward : forward.

Lemma code_header_Val i s e :
  0 <= i < 2 ^ 31 -> code_header enough hook i = Val (s, e) ->
  i < s < vsize hook /\ i < e < 2 ^ 31.
Proof using Hok Hsz Hsmall. unfold code_header. intros Hi H. res_open. offsets. lia. Qed.

Lemma fueled_code_header i : 0 <= i < 2 ^ 31 -> fueled (code_header enough hook i).
Proof using Hok Hsz Hsmall.
  intros Hi. unfold code_header. fueled_auto; offsets.
  apply (for_loop_forward (fun i => i)); [auto with forward|unfold in_hook; lia].
Qed.

Lemma fueled_code_loop w f count i c :
  0 <= i < vsize hook ->
  fueled (for_loop enough (fun j '(i, c) => code_entry enough hook w f j i c) 0 count (i, c)).
Proof using Hok Hsz Hsmall.
  intros Hi. apply (for_loop_fuel _ (fun s => 0 <= fst s < 2 ^ 31)
    (fun s => Z.min (fst s) (vsize hook)) (vsize hook)); try lia.
  - intros j [k d] Hk. cbn in Hk. unfold code_entry. apply fueled_bind; [by apply fueled_code_header|].
    intros [a e] _. case_match; [done|].
    apply fueled_bind; [by apply check_guard_fuel|]. done.
  - intros j [k d] [k' d'] Hk H. cbn in *. unfold code_entry in H. res_open; bool_prop; subst;
      apply code_header_Val in Hb; lia.
  - cbn. lia.
  - cbn. unfold vsize. lia.
Qed.

Lemma fueled_first_pass fuel i j w :
  0 <= i < 2 ^ 31 -> vsize hook - i <= Z.of_nat fuel ->
  fueled (first_pass fuel enough hook i j w).
Proof using Hok Hsz Hsmall.
  revert i j w. induction fuel as [|fuel IH]; intros i j w Hi Hf; cbn [first_pass];
    rewrite u64_small by lia; destruct (Z.ltb_spec i (vsize hook)); try done; [lia|].
  unfold import_section, export_section, function_section.
  fueled_auto; offsets; try (by apply IH; lia).
  all: first [ apply (for_loop_forward fst _ _ _ import_forward)
             | apply (for_loop_forward fst _ _ _ export_forward)
             | apply (for_loop_forward fst _ _ _ function_forward) ]; unfold in_hook; cbn; lia.
Qed.

Lemma fueled_second_pass fuel w f i c :
  0 <= i < 2 ^ 31 -> vsize hook - i <= Z.of_nat fuel ->
  fueled (second_pass fuel enough hook w f i c).
Proof using Hok Hsz Hsmall.
  revert i c. induction fuel as [|fuel IH]; intros i c Hi Hf; cbn [second_pass];
    rewrite u64_small by lia; destruct (Z.ltb_spec i (vsize hook)); try done; [lia|].
  apply fueled_bind; [unfold section_header; fueled_auto|].
  intros [[t p] n] Hs. unfold section_header in Hs. res_open. offsets.
  apply fueled_bind; [|intros; apply IH; lia].
  unfold second_section, type_section, code_section. fueled_auto; offsets.
  - apply (for_loop_forward (fun i => i)); [auto with forward|unfold in_hook; lia].
  - apply fueled_code_loop; lia.
Qed.

Lemma fueled_check_func_types w : fueled (check_func_types w).
Proof using Type. unfold check_func_types. fueled_auto. Qed.
End termination.

(** Validation terminates on every binary whose LEB128 numbers all fit an
    [int]: the number of its bytes bounds the iterations of every loop, so the
    result is a verdict (or an exception, or undefined behaviour), never an
    endless scan. *)
Theorem validateGuards_terminates hook :
  bytes_ok hook -> vsize hook < 2 ^ 31 - 16 -> small_lebs hook = true ->
  validateGuards (S (length hook)) hook <> Err NoFuel.
Proof.
  intros Hok Hsz Hsm. assert (vsize hook - 8 <= Z.of_nat (S (length hook))) by (unfold vsize; lia).
  unfold validateGuards. do 2 (case_match; [done|]).
  apply fueled_bind; [apply fueled_first_pass; try done; lia|]. intros w _.
  apply fueled_bind; [apply fueled_check_func_types|]. intros f _.
  apply fueled_bind; [apply fueled_second_pass; try done; lia|]. done.
Qed.

(** ** The imports collected are those of the API *)

Definition imports_ok (w : wasm_info) : Prop :=
  map_Forall (fun _ m => m <> [] /\ Forall (fun e => is_Some (whitelist_find e.2)) m) (import_type_map w).

Lemma emplace_ok (P : Z * list Z -> Prop) k v m :
  P (k, v) -> Forall P m -> emplace k v m <> [] /\ Forall P (emplace k v m).
Proof.
  intros Hkv Hm. induction Hm as [|[k' v'] m Hx Hm IH]; cbn; [by split; [|constructor]|].
  case_match; [split; [done|by repeat constructor]|].
  case_match; [split; [done|by constructor]|].
  split; [done|]. constructor; [done|apply IH].
Qed.

Lemma add_import_ok t k name w :
  is_Some (whitelist_find name) -> imports_ok w -> imports_ok (add_import t k name w).
Proof.
  unfold imports_ok, add_import. cbn. intros Hn Hw.
  destruct (import_type_map w !! t) as [m|] eqn:Hm; apply map_Forall_insert_2; try done.
  - apply emplace_ok; [done|]. by apply Hw in Hm as [_ ?].
  - split; [done|]. by constructor.
Qed.

Lemma import_entry_ok hook j i w i' w' :
  imports_ok w -> import_entry hook j i w = Val (i', w') -> imports_ok w'.
Proof.
  unfold import_entry, reject. intros Hw H. res_open.
  - bool_prop. subst. apply add_import_ok; [by vm_compute; eexists|done].
  - apply add_import_ok; [by eexists|done].
Qed.

Lemma import_section_ok fuel hook i w w' :
  imports_ok w -> import_section fuel hook i w = Val w' -> imports_ok w'.
Proof.
  unfold import_section, reject. intros Hw H. res_open.
  eapply (for_loop_inv _ (fun _ s => imports_ok s.2)) in Hb0; [exact Hb0| |exact Hw].
  intros j [k v] [k' v'] _ Hv. by apply import_entry_ok.
Qed.

(** The other sections leave the imports alone. *)
Lemma export_section_imports fuel hook i w w' :
  export_section fuel hook i w = Val w' -> import_type_map w' = import_type_map w.
Proof.
  unfold export_section, reject. intros H. res_open.
  eapply (for_loop_inv _ (fun _ s => import_type_map s.2 = import_type_map w)) in Hb0; [|clear|done].
  - done.
  - intros j [k v] [k' v'] _ Hv He. cbn in *. rewrite <- Hv. unfold export_entry in He. by res_open.
Qed.

Lemma function_section_imports fuel hook i w w' :
  function_section fuel hook i w = Val w' -> import_type_map w' = import_type_map w.
Proof.
  unfold function_section, reject. intros H. res_open.
  eapply (for_loop_inv _ (fun _ s => import_type_map s.2 = import_type_map w)) in Hb0; [done|clear|done].
  intros j [k v] [k' v'] _ Hv He. cbn in *. rewrite <- Hv. unfold function_entry in He. by res_open.
Qed.

Lemma first_pass_imports fuel inner hook i j w w' :
  imports_ok w -> first_pass fuel inner hook i j w = Val w' -> imports_ok w'.
Proof.
  revert i j w. induction fuel as [|fuel IH]; intros i j w Hw H; cbn [first_pass] in H; unfold reject in H;
    res_open; try done; (eapply IH; [|eassumption]); try done.
  - by eapply import_section_ok.
  - unfold imports_ok. by erewrite export_section_imports.
  - unfold imports_ok. by erewrite function_section_imports.
Qed.

Lemma common_signature_defined usage : forall first,
  Forall (fun e => is_Some (whitelist_find e.2)) usage ->
  common_signature first usage <> Undef /\
  (usage <> [] \/ first <> None -> common_signature first usage <> Val None).
Proof.
  induction usage as [|[k n] usage IH]; intros first Hu; cbn [common_signature].
  { split; [done|]. intros [?|?]; [done|]. congruence. }
  inversion Hu as [|? ? [s Hs] Hu']; subst. cbn in Hs. rewrite Hs.
  destruct first as [s'|]; [case_match; [|done]|];
    (split; [by apply IH|]; intros _; apply IH; [done|by right]).
Qed.

(** The second pass never looks up the signature of a function that is not
    part of the hook API, and a type without such a signature is the type of
    the [hook] function: dereferencing [first_signature] is always defined. *)
Theorem type_signature_defined fuel inner hook w f j :
  first_pass fuel inner hook 8 0 info0 = Val w -> check_func_types w = Val f ->
  type_signature f (import_type_map w) j <> Undef /\
  (type_signature f (import_type_map w) j = Val None -> j = hook_type_idx f).
Proof.
  intros Hw Hf. apply first_pass_imports in Hw; [|apply map_Forall_empty].
  unfold type_signature. destruct (import_type_map w !! j) as [usage|] eqn:Hu.
  - apply Hw in Hu as [Hne Hall]. destruct (common_signature_defined usage None Hall) as [H1 H2].
    split; [done|]. intros H. exfalso. apply H2; auto.
  - case_match; [|done]. split; [done|]. intros _. by apply Z.eqb_eq.
Qed.

(** ** What an accepted binary guarantees *)

(** [sections hook i k]: walking the sections from offset [i] comes to [k]. *)
Inductive sections (hook : list Z) : Z -> Z -> Prop :=
| sections_here i : sections hook i i
| sections_next i t p n k :
    u64 i < vsize hook -> section_header hook i = Val (t, p, n) -> sections hook n k ->
    sections hook i k.

(** [body_at fuel hook i0 j i]: function body number [j] of a code section whose
    first body is at [i0] starts at [i]. *)
Inductive body_at (fuel : nat) (hook : list Z) (i0 : Z) : Z -> Z -> Prop :=
| body_first : body_at fuel hook i0 0 i0
| body_next j i s e :
    body_at fuel hook i0 j i -> code_header fuel hook i = Val (s, e) ->
    body_at fuel hook i0 (j + 1) e.

(** [checked_bodies]: every function body of the code section at payload [p] is
    empty or accepted by [check_guard]. *)
Definition checked_bodies (fuel : nat) (hook : list Z) (w : wasm_info) (p : Z) : Prop :=
  forall count i0, LEB_INT hook p = Val (count, i0) ->
  forall j i s e, body_at fuel hook i0 j i -> j < count -> code_header fuel hook i = Val (s, e) ->
  s = e \/ exists wce, wce < 65535 /\
    check_guard hook s e (guard_import_number w) (last_import_number w) = Val wce.

Definition counts_ok (c : instr_counts) : Prop :=
  0 <= maxInstrCountHook c < 65535 /\ 0 <= maxInstrCountCbak c < 65535.

Lemma check_guard_range hook s e g l wce : check_guard hook s e g l = Val wce -> 0 <= wce < 65535.
Proof.
  unfold check_guard, guard_verdict. intros H. res_open. bool_prop. split; [|lia].
  by apply compute_wce_nonneg in Hb0.
Qed.

Lemma body_at_nonneg fuel hook i0 j i : body_at fuel hook i0 j i -> 0 <= j.
Proof. induction 1; lia. Qed.

Lemma body_at_functional fuel hook i0 j i i' :
  body_at fuel hook i0 j i -> body_at fuel hook i0 j i' -> i = i'.
Proof.
  intros H. revert i'. induction H as [|j i s e Hb IH Hc]; intros i' H'; inversion H' as [|? k s' e' Hb' Hc']; subst; try done.
  - apply body_at_nonneg in Hb'. lia.
  - apply body_at_nonneg in Hb. lia.
  - assert (j0 = j) as -> by lia. rewrite (IH _ Hb'), Hc' in Hc. congruence.
Qed.

Lemma record_count_ok f j wce c : 0 <= wce < 65535 -> counts_ok c -> counts_ok (record_count f j wce c).
Proof.
  unfold counts_ok, record_count. intros Hw Hc. repeat case_match; cbn; try done;
    rewrite i64_small by lia; lia.
Qed.

(** One function body: the next one starts at its end, and it is checked. *)
Lemma code_entry_Val fuel hook w f j i c i' c' :
  code_entry fuel hook w f j i c = Val (i', c') ->
  exists s, code_header fuel hook i = Val (s, i') /\
    (s = i' \/ exists wce, wce < 65535 /\
       check_guard hook s i' (guard_import_number w) (last_import_number w) = Val wce) /\
    (counts_ok c -> counts_ok c').
Proof.
  unfold code_entry. intros H. res_open.
  - bool_prop. subst. eauto.
  - exists z. split; [done|]. pose proof (check_guard_range _ _ _ _ _ _ Hb0). split.
    + right. exists a. split; [lia|done].
    + by apply record_count_ok.
Qed.

Lemma code_section_checked fuel hook w f p c c' :
  code_section fuel hook w f p c = Val c' ->
  checked_bodies fuel hook w p /\ (counts_ok c -> counts_ok c').
Proof.
  unfold code_section. intros H. res_open. rename z into count, z0 into i0.
  eapply (for_loop_inv _ (fun j st => 0 <= j /\ body_at fuel hook i0 j st.1 /\
    (forall j' i s e, j' < j -> body_at fuel hook i0 j' i -> code_header fuel hook i = Val (s, e) ->
       s = e \/ exists wce, wce < 65535 /\
         check_guard hook s e (guard_import_number w) (last_import_number w) = Val wce) /\
    (counts_ok c -> counts_ok st.2))) in Hb0.
  - cbn in Hb0. destruct Hb0 as (_ & _ & Hall & Hc). split; [|done].
    intros count' i0' E. rewrite Hb in E. injection E as <- <-. intros j i s e Hj Hlt Hh.
    eapply Hall; [|done..]. lia.
  - intros j [i d] [i' d'] Hlt (Hj & Hbj & Hall & Hc) He. cbn in *.
    apply code_entry_Val in He as (s & Hh & Hchk & Hcd). split; [lia|].
    split; [by econstructor|]. split; [|auto].
    intros j' k s' e' Hj' Hk Hh'. destruct (Z.eq_dec j' j) as [->|].
    + rewrite (body_at_functional _ _ _ _ _ _ Hk Hbj), Hh in Hh'. injection Hh' as <- <-. done.
    + eapply Hall; [|done..]. lia.
  - split; [lia|]. split; [constructor|]. split; [|done].
    intros j' i s e Hj' Hb'. apply body_at_nonneg in Hb'. lia.
Qed.

Lemma second_section_checked fuel hook w f t p c c' :
  second_section fuel hook w f t p c = Val c' ->
  (counts_ok c -> counts_ok c') /\ (t = 10 -> checked_bodies fuel hook w p).
Proof.
  unfold second_section. intros H. destruct (Z.eqb_spec t 1) as [->|]; [res_inv; by split|].
  destruct (Z.eqb_spec t 10) as [->|]; [|by injection H as <-].
  apply code_section_checked in H as [??]. by split.
Qed.

Lemma second_pass_checked fuel inner hook w f i c c' :
  second_pass fuel inner hook w f i c = Val c' ->
  (counts_ok c -> counts_ok c') /\
  forall k p n, sections hook i k -> u64 k < vsize hook -> section_header hook k = Val (10, p, n) ->
    checked_bodies inner hook w p.
Proof.
  revert i c. induction fuel as [|fuel IH]; intros i c H; cbn [second_pass] in H; case_if H; bool_prop.
  - injection H as <-. split; [done|]. intros k p n Hs. destruct Hs; lia.
  - res_inv. destruct a as [[t p] n]. res_inv.
    apply IH in Hk0 as [Hc Hall]. apply second_section_checked in Hb0 as [Hc0 Hck].
    split; [auto|]. intros k p' n' Hs Hk Hh. destruct Hs as [|i t' q m k Hi Hh' Hs].
    + rewrite Hh in Hb. injection Hb as <- <- <-. auto.
    + rewrite Hh' in Hb. injection Hb as -> -> ->. eauto.
  - injection H as <-. split; [done|]. intros k p n Hs. destruct Hs; lia.
Qed.

(** *** Imports *)

Definition imported (w : wasm_info) : Prop := 0 <= last_import_number w /\ 0 <= guard_import_number w.

Lemma import_section_imported fuel hook i w w' : -1 <= guard_import_number w -> import_section fuel hook i w = Val w' -> imported w'.
Proof.
  unfold import_section, reject, imported. intros Hw H. res_open. bool_prop.
  eapply (for_loop_inv _ (fun j s => 0 <= j /\ -1 <= guard_import_number s.2)) in Hb0; [cbn in *; lia| |by cbn].
  intros j [k v] [k' v'] _ [Hj Hv] He. cbn in *. split; [lia|]. unfold import_entry, reject in He. res_open; cbn; lia.
Qed.

Lemma export_section_numbers fuel hook i w w' : export_section fuel hook i w = Val w' ->
  last_import_number w' = last_import_number w /\ guard_import_number w' = guard_import_number w.
Proof.
  unfold export_section, reject. intros H. res_open.
  eapply (for_loop_inv _ (fun _ s => last_import_number s.2 = last_import_number w /\ guard_import_number s.2 = guard_import_number w)) in Hb0; [done|clear|done].
  intros j [k v] [k' v'] _ Hv He. cbn in *. unfold export_entry in He. by res_open.
Qed.

Lemma function_section_numbers fuel hook i w w' : function_section fuel hook i w = Val w' ->
  last_import_number w' = last_import_number w /\ guard_import_number w' = guard_import_number w.
Proof.
  unfold function_section, reject. intros H. res_open.
  eapply (for_loop_inv _ (fun _ s => last_import_number s.2 = last_import_number w /\ guard_import_number s.2 = guard_import_number w)) in Hb0; [done|clear|done].
  intros j [k v] [k' v'] _ Hv He. cbn in *. unfold function_entry in He. by res_open.
Qed.

(** One section of the first pass: its header, and what it does to the import numbers. *)
Lemma first_pass_section fuel inner hook i j w w' : first_pass (S fuel) inner hook i j w = Val w' -> u64 i < vsize hook -> -1 <= guard_import_number w ->
  exists t p n w1, section_header hook i = Val (t, p, n) /\ first_pass fuel inner hook n i w1 = Val w' /\ -1 <= guard_import_number w1 /\
    (t = 2 -> imported w1) /\ (imported w -> imported w1).
Proof.
  intros H Hi Hg. cbn [first_pass] in H. rewrite (proj2 (Z.ltb_lt _ _) Hi) in H. unfold reject in H. unfold section_header, imported in *.
  case_if H. res_inv. case_if Hk0. case_if Hk0. res_inv. destruct a1 as [len p]. res_inv.
  rewrite Hb. cbn. rewrite Hb0. cbn. rewrite Hb1. cbn. rewrite Hb2. cbn. exists a, p, a1, a2. split; [done|]. split; [done|].
  destruct (Z.eqb_spec a 2); [pose proof (import_section_imported _ _ _ _ _ Hg Hb3) as []; split; [lia|done]|].
  destruct (Z.eqb_spec a 7); [apply export_section_numbers in Hb3 as [-> ->]; (split; [done|]; by split)|].
  destruct (Z.eqb_spec a 3); [apply function_section_numbers in Hb3 as [-> ->]; (split; [done|]; by split)|]. injection Hb3 as <-. (split; [done|]; by split).
Qed.

Lemma first_pass_imported fuel inner hook i j w w' : first_pass fuel inner hook i j w = Val w' -> -1 <= guard_import_number w ->
  (imported w -> imported w') /\
  forall k p n, sections hook i k -> u64 k < vsize hook -> section_header hook k = Val (2, p, n) -> imported w'.
Proof.
  revert i j w. induction fuel as [|fuel IH]; intros i j w H Hg.
  - cbn in H. case_if H. bool_prop. injection H as <-. split; [done|]. intros k p n Hs. destruct Hs; lia.
  - destruct (decide (u64 i < vsize hook)) as [Hi|Hi].
    + destruct (first_pass_section _ _ _ _ _ _ _ H Hi Hg) as (t & p & n & w1 & Hh & H1 & Hg1 & H2 & Hw).
      destruct (IH _ _ _ H1 Hg1) as [Hk Hall]. split; [auto|]. intros k p' n' Hs Hlt Hh'. destruct Hs as [|i t' q m k _ Hh'' Hs].
      * rewrite Hh' in Hh. injection Hh as <- <- <-. auto.
      * rewrite Hh'' in Hh. injection Hh as -> -> ->. eauto.
    + cbn [first_pass] in H. rewrite (proj2 (Z.ltb_ge _ _)) in H by lia. injection H as <-. split; [done|]. intros k p n Hs. destruct Hs; lia.
Qed.

(** *** Instruction counts *)

(** The body number [j] of the code section at payload [p] is not empty and its worst case is [wce]. *)
Definition body_wce (fuel : nat) (hook : list Z) (w : wasm_info) (p j wce : Z) : Prop :=
  exists count i0 i s e, LEB_INT hook p = Val (count, i0) /\ body_at fuel hook i0 j i /\ j < count /\
    code_header fuel hook i = Val (s, e) /\ s <> e /\ check_guard hook s e (guard_import_number w) (last_import_number w) = Val wce.

Definition code_at (hook : list Z) (i k p n : Z) : Prop :=
  sections hook i k /\ u64 k < vsize hook /\ section_header hook k = Val (10, p, n).

(** Of the sections from offset [i] on, [n] is the worst case of the last body number [j] that is not empty, or
    [d] if there is none. *)
Definition last_wce (fuel : nat) (hook : list Z) (w : wasm_info) (i j d n : Z) : Prop :=
  (n = d /\ forall k p m wce, code_at hook i k p m -> ~ body_wce fuel hook w p j wce) \/
  exists k p m, code_at hook i k p m /\ body_wce fuel hook w p j n /\
    forall k' p' m' wce, code_at hook m k' p' m' -> ~ body_wce fuel hook w p' j wce.

Definition watched (f : func_info) (j : Z) : Prop := hook_idx f = j \/ cbak_idx f = Some j.
Definition count_of (f : func_info) (j : Z) (c : instr_counts) : Z :=
  if hook_idx f =? j then maxInstrCountHook c else maxInstrCountCbak c.

Lemma count_of_record f j j' wce c : watched f j -> 0 <= wce < 65535 ->
  count_of f j (record_count f j' wce c) = if j' =? j then wce else count_of f j c.
Proof.
  unfold watched, count_of, record_count. intros Hw Hr. rewrite i64_small by lia.
  destruct (Z.eqb_spec j' j) as [->|], (Z.eqb_spec (hook_idx f) j) as [<-|]; repeat case_match; bool_prop; cbn; try done; try lia; try (destruct Hw; congruence).
Qed.

Lemma code_section_count fuel hook w f p c c' j : watched f j -> code_section fuel hook w f p c = Val c' ->
  (count_of f j c' = count_of f j c /\ forall wce, ~ body_wce fuel hook w p j wce) \/ body_wce fuel hook w p j (count_of f j c').
Proof.
  intros Hw. unfold code_section. intros H. res_open. rename z into count, z0 into i0.
  eapply (for_loop_inv _ (fun m st => 0 <= m /\ body_at fuel hook i0 m st.1 /\
    ((count_of f j st.2 = count_of f j c /\ forall i s e wce, j < m -> body_at fuel hook i0 j i -> code_header fuel hook i = Val (s, e) -> s <> e ->
        check_guard hook s e (guard_import_number w) (last_import_number w) <> Val wce) \/
     j < m /\ j < count /\ exists i s e, body_at fuel hook i0 j i /\ code_header fuel hook i = Val (s, e) /\ s <> e /\
        check_guard hook s e (guard_import_number w) (last_import_number w) = Val (count_of f j st.2)))) in Hb0.
  - cbn [fst snd] in Hb0. destruct Hb0 as (_ & _ & [[Hc Hn]|(Hm & Hlt & i & s & e & ? & ? & ? & ?)]); [left; split; [done|]|right; by exists count, i0, i, s, e].
    intros wce (count' & i0' & i & s & e & E & ? & ? & ? & ? & ?). rewrite Hb in E. injection E as <- <-. eapply Hn; try eassumption. lia.
  - intros m [i d] [i' d'] Hlt (Hm & Hbm & Hc) He. cbn [fst snd] in *. unfold code_entry in He. res_open.
    + bool_prop. subst. split; [lia|]. split; [by econstructor|]. destruct Hc as [[Hc Hn]|(? & ? & ?)]; [left; split; [done|]|right; split; [lia|done]].
      intros k s e wce Hj Hk Hh Hne. destruct (decide (j < m)); [eauto|]. assert (j = m) as -> by lia. rewrite (body_at_functional _ _ _ _ _ _ Hk Hbm), Hb1 in Hh. congruence.
    + bool_prop. split; [lia|]. split; [by econstructor|]. rewrite count_of_record by (done || by eapply check_guard_range).
      destruct (Z.eqb_spec m j) as [->|]; [right; split; [lia|]; split; [lia|]; by repeat eexists; eassumption|].
      destruct Hc as [[Hc Hn]|(? & ? & ?)]; [left; split; [done|]|right; split; [lia|done]]. intros k s e wce Hj. apply Hn. lia.
  - split; [lia|]. split; [constructor|]. left. split; [done|]. intros i s e wce Hj Hk. apply body_at_nonneg in Hk. lia.
Qed.

Lemma second_pass_count fuel inner hook w f i c c' j : watched f j -> second_pass fuel inner hook w f i c = Val c' ->
  last_wce inner hook w i j (count_of f j c) (count_of f j c').
Proof.
  intros Hw. revert i c. induction fuel as [|fuel IH]; intros i c H; cbn [second_pass] in H; case_if H; bool_prop.
  - injection H as <-. left. split; [done|]. intros k p m wce (Hs & ? & _). destruct Hs; lia.
  - res_inv. destruct a as [[t p] n]. res_inv. apply IH in Hk0.
    destruct Hk0 as [[Hc Hn]|(k & q & m & (Hs & ? & ?) & Hrest)]; [|right; exists k, q, m; split; [split; [by econstructor|done]|done]].
    assert (Hstep : forall k q m wce, code_at hook i k q m -> body_wce inner hook w q j wce -> t = 10 /\ q = p).
    { intros k q m wce (Hs & Hk & Hh) Hb'. destruct Hs as [|i t' q' m' k Hi Hh' Hs]; [rewrite Hh in Hb; injection Hb as <- <- <-; done|].
      rewrite Hh' in Hb. injection Hb as -> -> ->. exfalso. by eapply Hn; [split|]. }
    unfold second_section in Hb0. destruct (Z.eqb_spec t 1) as [->|]; [res_inv; left; split; [done|]; by intros k q m wce Hk [??]%(Hstep _ _ _ _ Hk)|].
    destruct (Z.eqb_spec t 10) as [->|]; [|injection Hb0 as <-; left; split; [done|]; by intros k q m wce Hk [??]%(Hstep _ _ _ _ Hk)].
    rewrite Hc. apply (code_section_count _ _ _ _ _ _ _ _ Hw) in Hb0 as [[-> Hno]|Hyes].
    + left. split; [done|]. intros k q m wce Hk Hb'. destruct (Hstep _ _ _ _ Hk Hb') as [_ ->]. by eapply Hno.
    + right. exists i, p, n. split; [split; [constructor|done]|done].
  - injection H as <-. left. split; [done|]. intros k p m wce (Hs & ? & _). destruct Hs; lia.
Qed.

(** No body counts for a [cbak] that is absent or the same function as [hook]. *)
Lemma second_pass_no_cbak fuel inner hook w f i c c' : (forall j, cbak_idx f = Some j -> j = hook_idx f) ->
  second_pass fuel inner hook w f i c = Val c' -> maxInstrCountCbak c' = maxInstrCountCbak c.
Proof.
  intros Hf. revert i c. induction fuel as [|fuel IH]; intros i c H; cbn [second_pass] in H; case_if H; bool_prop; try by injection H as <-.
  res_inv. destruct a as [[t p] n]. res_inv. rewrite (IH _ _ Hk0). clear Hk0. unfold second_section, code_section in Hb0.
  destruct (t =? 1); [by res_inv|]. destruct (t =? 10); [|by injection Hb0 as <-]. res_open.
  eapply (for_loop_inv _ (fun _ st => maxInstrCountCbak st.2 = maxInstrCountCbak c)) in Hb0; [done| |done].
  intros j [k d] [k' d'] _ Hd He. cbn in *. unfold code_entry in He. res_open; [done|]. rewrite <- Hd. unfold record_count.
  repeat case_match; bool_prop; try done. exfalso. naive_solver.
Qed.

(** C1: what an accepted binary guarantees.  It starts with the WebAssembly
    header.  If it has an import section, then the first pass has found the guard among the
    imports and the number of the last import.  Every function body of every code section is empty or
    accepted by [check_guard] with what the first pass found.  The two reported counts are below
    65535 and are the worst cases of the functions exported as [hook] and as [cbak]: each is the
    result of [check_guard] on the last body of that number that is not empty, or 0 if there is none;
    the count of [cbak] is 0 if it is not exported or is the same function as [hook]. *)
Theorem validateGuards_sound fuel hook hc cc :
  validateGuards fuel hook = Val (hc, cc) ->
  take 8 hook = wasm_header /\ 0 <= hc < 65535 /\ 0 <= cc < 65535 /\
  exists w f, first_pass fuel fuel hook 8 0 info0 = Val w /\ check_func_types w = Val f /\
    (forall k p n, sections hook 8 k -> u64 k < vsize hook -> section_header hook k = Val (2, p, n) -> imported w) /\
    (forall k p n, code_at hook 8 k p n -> checked_bodies fuel hook w p) /\
    last_wce fuel hook w 8 (hook_idx f) 0 hc /\
    ((exists j, cbak_idx f = Some j /\ j <> hook_idx f /\ last_wce fuel hook w 8 j 0 cc) \/
     ((cbak_idx f = None \/ cbak_idx f = Some (hook_idx f)) /\ cc = 0)).
Proof.
  unfold validateGuards, reject. intros H. res_open. bool_prop. rename a into w, a0 into f, a1 into c.
  pose proof (fun j Hw => second_pass_count _ _ _ _ _ _ _ _ j Hw Hb1) as Hcount. pose proof (fun Hf => second_pass_no_cbak _ _ _ _ _ _ _ _ Hf Hb1) as Hno.
  apply second_pass_checked in Hb1 as [Hc Hall].
  destruct Hc as [Hh Hk]; [unfold counts_ok; cbn; lia|]. rewrite !u64_small by lia.
  split; [done|]. split; [done|]. split; [done|]. exists w, f. split; [done|]. split; [done|].
  split; [apply (first_pass_imported _ _ _ _ _ _ _ Hb); cbn; lia|]. split; [intros k p n (? & ? & ?); eauto|].
  pose proof (Hcount (hook_idx f) (or_introl eq_refl)) as Hhc. unfold count_of in Hhc. rewrite Z.eqb_refl in Hhc. split; [done|].
  destruct (cbak_idx f) as [j|] eqn:E; [|right; split; [by left|by apply Hno]].
  destruct (decide (j = hook_idx f)) as [->|Hne]; [right; split; [by right|]; apply Hno; congruence|].
  left. exists j. split; [done|]. split; [done|]. pose proof (Hcount j (or_intror E)) as Hcc. unfold count_of in Hcc.
  by rewrite (proj2 (Z.eqb_neq _ _)) in Hcc by done.
Qed.

(** ** Examples *)

(** A hook that imports [_g] and runs a guarded loop. *)
Definition sample_hook : list Z :=
  wasm_header ++
  [0x01; 0x0C; 0x02; 0x60; 0x02; 0x7F; 0x7F; 0x01; 0x7F; 0x60; 0x01; 0x7F; 0x01; 0x7E] ++
  [0x02; 0x0A; 0x01; 0x03] ++ string_bytes "env" ++ [0x02] ++ string_bytes "_g" ++ [0x00; 0x00] ++
  [0x03; 0x02; 0x01; 0x01] ++
  [0x07; 0x08; 0x01; 0x04] ++ string_bytes "hook" ++ [0x00; 0x01] ++
  [0x0A; 0x10; 0x01; 0x0E; 0x00;
   0x03; 0x40; 0x41; 0x05; 0x41; 0x0A; 0x10; 0x00; 0x01; 0x0B; 0x42; 0x00; 0x0B].

Lemma bytes_ok_forallb l : forallb (fun b => (0 <=? b) && (b <? 256)) l = true -> bytes_ok l.
Proof.
  intros H. apply Forall_forall. intros b Hb. rewrite forallb_forall in H.
  apply list_elem_of_In in Hb. apply H in Hb. bool_prop. unfold byte_range. lia.
Qed.

Lemma validateGuards_terminates_witness :
  validateGuards (S (length sample_hook)) sample_hook <> Err NoFuel.
Proof.
  apply (validateGuards_terminates sample_hook);
    [by apply bytes_ok_forallb|reflexivity|vm_compute; reflexivity].
Defined.

Lemma sample_first_pass : is_val (first_pass 100 100 sample_hook 8 0 info0 ≫= check_func_types) = true.
Proof. vm_compute. reflexivity. Qed.

Definition sample_info : wasm_info := from_res info0 (first_pass 100 100 sample_hook 8 0 info0).
Definition sample_func : func_info := from_res (mkFunc 0 None 0) (check_func_types sample_info).

Lemma type_signature_defined_witness :
  type_signature sample_func (import_type_map sample_info) 0 <> Undef /\
  (type_signature sample_func (import_type_map sample_info) 0 = Val None ->
   0 = hook_type_idx sample_func).
Proof. apply (type_signature_defined 100 100 sample_hook); vm_compute; reflexivity. Defined.

Lemma validateGuards_sound_witness :
  validateGuards 100 sample_hook = Val (23, 0) /\ 0 <= 23 < 65535 /\
  exists w f, checked_bodies 100 sample_hook w 50 /\ last_wce 100 sample_hook w 8 (hook_idx f) 0 23.
Proof.
  split; [vm_compute; reflexivity|].
  destruct (validateGuards_sound 100 sample_hook 23 0) as (_ & Hc & _ & w & f & _ & _ & _ & H & Hl & _);
    [vm_compute; reflexivity|].
  split; [exact Hc|]. exists w, f. split; [|exact Hl]. apply (H 48 50 66). split; [|split; vm_compute; reflexivity].
  do 4 (eapply sections_next; [vm_compute; reflexivity..|]). apply sections_here.
Defined.

(** A binary with a section whose length is -8: the first pass jumps between the
    offsets 8 and 10 for ever; the test for an unchanged offset does not see it. *)
Definition backward_hook : list Z :=
  wasm_header ++ [0x01; 0x00; 0x01; 0xF8; 0xFF; 0xFF; 0xFF; 0x0F; 0x00].

Lemma first_pass_other n inner hook i j w t p next :
  u64 i < vsize hook -> j <> i -> section_header hook i = Val (t, p, next) ->
  0 < t -> t <> 2 -> t <> 3 -> t <> 7 ->
  first_pass (S n) inner hook i j w = first_pass n inner hook next i w.
Proof.
  intros Hi Hj Hs H0 H2 H3 H7. unfold section_header in Hs. res_open.
  cbn [first_pass]. rewrite (proj2 (Z.ltb_lt _ _) Hi), (proj2 (Z.eqb_neq j i) Hj), Hb. cbn.
  rewrite Hb0. cbn. unfold last_section_type.
  rewrite (proj2 (Z.eqb_neq t 0)), (proj2 (Z.leb_gt t 0)), Hb1 by lia. cbn. rewrite Hb2. cbn.
  by rewrite (proj2 (Z.eqb_neq t 2)), (proj2 (Z.eqb_neq t 7)), (proj2 (Z.eqb_neq t 3)) by done.
Qed.

Lemma validateGuards_backward_loops fuel : validateGuards fuel backward_hook = Err NoFuel.
Proof.
  enough (forall n j, j <> 8 -> first_pass n fuel backward_hook 8 j info0 = Err NoFuel) as H.
  { unfold validateGuards. cbn -[first_pass backward_hook]. by rewrite H. }
  intros n. induction (lt_wf n) as [n _ IH]. intros j Hj.
  destruct n as [|[|n]]; [reflexivity| |].
  - by rewrite (first_pass_other 0 fuel backward_hook 8 j info0 1 10 10).
  - rewrite (first_pass_other _ fuel backward_hook 8 j info0 1 10 10) by done.
    rewrite (first_pass_other _ fuel backward_hook 10 8 info0 1 16 8) by done.
    apply IH; [lia|done].
Qed.

(** Without imports any function may be called, the hook itself included: this
    binary's [hook] calls itself unconditionally, without a guard. *)
Definition recursive_hook : list Z :=
  wasm_header ++ [0x01; 0x06; 0x01; 0x60; 0x01; 0x7F; 0x01; 0x7E] ++ [0x03; 0x02; 0x01; 0x00] ++
  [0x07; 0x08; 0x01; 0x04] ++ string_bytes "hook" ++ [0x00; 0x00] ++
  [0x0A; 0x08; 0x01; 0x06; 0x00; 0x20; 0x00; 0x10; 0x00; 0x0B].

Lemma validateGuards_accepts_recursion : validateGuards 100 recursive_hook = Val (3, 0).
Proof. vm_compute. reflexivity. Qed.

(** Sections may be repeated and out of order: the test against
    [last_section_type] only fails for type 0, which is rejected before. *)
Lemma section_order_unchecked t : 0 < t -> (t <=? last_section_type) = false.
Proof. unfold last_section_type. lia. Qed.
