(* ===== verification/Xfl.v ===== *)
(** * Xfl: the decimal floating-point format of the hook API

    [namespace hook_float] of [app/hook/impl/applyHook.cpp].  An XFL is an
    [int64_t]: zero, a negative error code, or a positive number whose bit 62 is
    set for positive values, bits 54 to 61 hold the exponent plus 97 and bits 0
    to 53 the mantissa; a mantissa has sixteen digits and an exponent lies
    between -96 and 80.  The accessors are modelled with the bit operations of
    the source; [make_float_fields] and [make_float_parts] show that they are
    the two directions of that layout, [normalize_xfl_valid] that normalising
    yields a valid number, zero or an overflow, and [normalize_xfl_exact] that
    the value is the argument's truncated to sixteen digits.

    [normalize_xfl] calls [log10] of the C library; the class [Log10] states what
    is relied on, and [log10_rounded] is an executable instance of it. *)

From stdpp Require Import base numbers list option.
From Stdlib Require Import ZArith Lia.
From S2P Require Import Prelude Enum Leb128.

Local Open Scope Z_scope.

Abbreviation fres := (res cxx_exception).

(** ** Constants *)

Definition power_of_ten : list Z := (fun n => 10 ^ n) <$> seqZ 0 19.

(** [power_of_ten[i]]: reading outside the table is undefined. *)
Definition pow10 (i : Z) : fres Z := rd power_of_ten i.

Definition minMantissa : Z := 1000000000000000.
Definition maxMantissa : Z := 9999999999999999.
Definition minExponent : Z := -96.
Definition maxExponent : Z := 80.

(** [int32_t] arithmetic: overflow is undefined. *)
Definition add32 (a b : Z) : fres Z := if i32_fits (a + b) then Val (a + b) else Undef.
Definition sub32 (a b : Z) : fres Z := if i32_fits (a - b) then Val (a - b) else Undef.
Definition mul64 (a b : Z) : fres Z := if i64_fits (a * b) then Val (a * b) else Undef.

(** ** Accessors *)

Definition get_exponent (float1 : Z) : Z :=
  if float1 <? 0 then i32 INVALID_FLOAT
  else if float1 =? 0 then 0
  else Z.land (Z.shiftr (u64 float1) 54) 0xFF - 97.

Definition get_mantissa (float1 : Z) : Z :=
  if float1 <? 0 then INVALID_FLOAT
  else if float1 =? 0 then 0
  else i64 (u64 float1 - Z.shiftl (Z.shiftr (u64 float1) 54) 54).

Definition is_negative (float1 : Z) : bool := Z.land (Z.shiftr float1 62) 1 =? 0.

Definition invert_sign (float1 : Z) : Z := i64 (Z.lxor (u64 float1) (Z.shiftl 1 62)).

Definition set_sign (float1 : Z) (set_negative : bool) : Z :=
  let neg := is_negative float1 in
  if (neg && set_negative) || (negb neg && negb set_negative) then float1 else invert_sign float1.

Definition set_mantissa (float1 mantissa : Z) : Z :=
  if maxMantissa <? mantissa then MANTISSA_OVERSIZED
  else if mantissa <? minMantissa then MANTISSA_UNDERSIZED
  else i64 (u64 (float1 - get_mantissa float1 + mantissa)).

Definition set_exponent (float1 exponent : Z) : Z :=
  if maxExponent <? exponent then EXPONENT_OVERSIZED
  else if exponent <? minExponent then EXPONENT_UNDERSIZED
  else
    let exp := u64 (Z.shiftl (u64 (exponent + 97)) 54) in
    i64 (Z.land float1 (Z.lnot (Z.shiftl 0xFF 54)) + i64 exp).

Definition make_float (mantissa exponent : Z) (neg : bool) : Z :=
  if mantissa =? 0 then 0
  else if maxMantissa <? mantissa then MANTISSA_OVERSIZED
  else if mantissa <? minMantissa then MANTISSA_UNDERSIZED
  else if maxExponent <? exponent then EXPONENT_OVERSIZED
  else if exponent <? minExponent then EXPONENT_UNDERSIZED
  else set_sign (set_exponent (set_mantissa 0 mantissa) exponent) neg.

(** [RETURN_IF_INVALID_FLOAT]: the condition under which the macro returns. *)
Definition invalid_float (float1 : Z) : bool :=
  (float1 <? 0) ||
  (negb (float1 =? 0) &&
   ((u64 (get_mantissa float1) <? minMantissa) || (maxMantissa <? u64 (get_mantissa float1)) ||
    (maxExponent <? get_exponent float1) || (get_exponent float1 <? minExponent))).

(** ** The C library's [log10], truncated to an integer

    [lg10 m] is [(int32_t) log10((double) m)] for a positive [m].  Relied on:
    the result is the decimal order of [m], or one more when [m] is within a
    relative distance of [2^-45] below a power of ten, where the logarithm may
    round up to the integer. *)
Class Log10 := {
  lg10 : Z -> Z;
  lg10_near m k :
    0 <= k -> 10 ^ k <= m < 10 ^ (k + 1) -> m < 2 ^ 64 -> lg10 m = k \/ lg10 m = k + 1;
  lg10_floor m k :
    0 <= k -> 10 ^ k <= m -> m + 10 ^ (k + 1) / 2 ^ 45 <= 10 ^ (k + 1) -> m < 10 ^ (k + 1) ->
    m < 2 ^ 64 -> lg10 m = k
}.

(** ** Normalisation *)

(** The correction by one place after the adjustment. *)
Definition fix_mantissa (man exp : Z) : fres (Z * Z) :=
  '(man, exp) ←
    (if man <? minMantissa then
       if man =? minMantissa - 1 then Val (man + 1, exp)
       else exp ← sub32 exp 1; Val (man * 10, exp)
     else Val (man, exp));
  if maxMantissa <? man then
    if man =? maxMantissa + 1 then Val (man - 1, exp)
    else exp ← add32 exp 1; Val (man / 10, exp)
  else Val (man, exp).

(** [man *= power_of_ten[adjust]] or [man /= power_of_ten[-adjust]]; [sman]
    tells whether the mantissa is an [int64_t] or a [uint64_t].  The logarithm of
    zero is infinite and has no integer value. *)
Definition adjust_mantissa {L : Log10} (sman : bool) (man exp : Z) : fres (Z * Z) :=
  if man <=? 0 then Undef
  else
    let adjust := 15 - lg10 man in
    if 0 <? adjust then
      p ← pow10 adjust;
      man ← (if sman then mul64 man p else Val (u64 (man * p)));
      exp ← sub32 exp adjust;
      Val (man, exp)
    else if adjust <? 0 then
      p ← pow10 (- adjust); exp ← sub32 exp adjust; Val (man / p, exp)
    else Val (man, exp).

(** After the sign was taken off: the XFL and the mutated mantissa and
    exponent. *)
Definition normalize_abs {L : Log10} (sman : bool) (man exp : Z) (neg : bool) : fres (Z * Z * Z) :=
  '(man, exp) ← adjust_mantissa sman man exp;
  if man =? 0 then Val (0, man, 0) else
  '(man, exp) ← fix_mantissa man exp;
  if exp <? minExponent then Val (0, 0, 0) else
  if man =? 0 then Val (0, man, 0) else
  if maxExponent <? exp then Val (rc XFL_OVERFLOW, man, exp) else
  Val (make_float man exp neg, if sman && neg then - man else man, exp).

(** [normalize_xfl<uint64_t>] and [normalize_xfl<int64_t>]; negating the smallest
    [int64_t] overflows. *)
Definition normalize_xfl {L : Log10} (sman : bool) (man exp : Z) (neg : bool) : fres (Z * Z * Z) :=
  if sman && (man <? 0) then man ← mul64 man (-1); normalize_abs sman man exp true
  else normalize_abs sman man exp neg.

(** ** Specification *)

(** The number of decimal digits, less one. *)
Fixpoint flog10_fuel (fuel : nat) (m : Z) : Z :=
  match fuel with
  | O => 0
  | S fuel => if m <? 10 then 0 else 1 + flog10_fuel fuel (m / 10)
  end.
Definition flog10 (m : Z) : Z := flog10_fuel 20 m.

(** The largest distance below [10^n] from which a correctly rounded logarithm
    is [n]: half a unit in the last place below [n], times [10^n] and [ln 10]. *)
Definition log10_gap (n : Z) : Z :=
  if n <=? 14 then 0
  else if n =? 15 then 2
  else if n =? 16 then 20
  else if n =? 17 then 409
  else if n =? 18 then 4090
  else 40901.

Definition log10_rounded_fun (m : Z) : Z :=
  let n := flog10 m + 1 in
  if 10 ^ n - m <=? log10_gap n then n else n - 1.

(** A valid XFL and the number it stands for, in units of [10^-96]. *)
Definition xfl_valid (f : Z) : bool := negb (invalid_float f).

Definition xfl_num (f : Z) : Z :=
  if f =? 0 then 0
  else (if is_negative f then -1 else 1) * get_mantissa f * 10 ^ (get_exponent f + 96).

(** The layout. *)
Definition xfl_pack (m e : Z) (neg : bool) : Z :=
  (if neg then 0 else 2 ^ 62) + (e + 97) * 2 ^ 54 + m.

(** ** The layout *)

Definition in_range (m e : Z) : Prop :=
  minMantissa <= m <= maxMantissa /\ minExponent <= e <= maxExponent.

Ltac unfold_range := unfold in_range, minMantissa, maxMantissa, minExponent, maxExponent in *.

Lemma land_high_zero m : 0 <= m < 2 ^ 54 -> Z.land m (Z.lnot (Z.shiftl 0xFF 54)) = m.
Proof.
  intros Hm. apply Z.bits_inj'. intros i Hi. rewrite Z.land_spec, Z.lnot_spec, Z.shiftl_spec by lia.
  destruct (Z.lt_ge_cases i 54).
  - rewrite (Z.testbit_neg_r _ (i - 54)) by lia. by rewrite andb_true_r.
  - by rewrite (testbit_small m 54) by lia.
Qed.

Lemma lxor_bit_62 f : 0 <= f < 2 ^ 62 -> Z.lxor f (2 ^ 62) = f + 2 ^ 62.
Proof.
  intros Hf. symmetry. apply Z.add_nocarry_lxor. apply Z.bits_inj'. intros i Hi.
  rewrite Z.land_spec, Z.bits_0, Z.pow2_bits_eqb by lia. destruct (Z.eqb_spec 62 i) as [<-|]; [|by rewrite andb_false_r].
  by rewrite (testbit_small f 62) by lia.
Qed.

Lemma xfl_pack_bounds m e neg : in_range m e -> 0 < xfl_pack m e neg < 2 ^ 63.
Proof. unfold xfl_pack. unfold_range. destruct neg; lia. Qed.

Lemma is_negative_pack m e neg : in_range m e -> is_negative (xfl_pack m e neg) = neg.
Proof.
  intros H. unfold is_negative, xfl_pack. unfold_range. rewrite Z.shiftr_div_pow2 by lia.
  change 1 with (Z.ones 1). rewrite Z.land_ones by lia.
  assert (((if neg then 0 else 2 ^ 62) + (e + 97) * 2 ^ 54 + m) / 2 ^ 62 = if neg then 0 else 1) as ->.
  { symmetry. apply (Z.div_unique_pos _ _ _ ((e + 97) * 2 ^ 54 + m)); destruct neg; lia. }
  by destruct neg.
Qed.

Lemma get_exponent_pack m e neg : in_range m e -> get_exponent (xfl_pack m e neg) = e.
Proof.
  intros H. pose proof (xfl_pack_bounds m e neg H). unfold get_exponent.
  rewrite (proj2 (Z.ltb_ge _ 0)), (proj2 (Z.eqb_neq _ 0)), u64_small by lia.
  unfold xfl_pack. unfold_range. rewrite Z.shiftr_div_pow2 by lia.
  change 0xFF with (Z.ones 8). rewrite Z.land_ones by lia.
  assert (((if neg then 0 else 2 ^ 62) + (e + 97) * 2 ^ 54 + m) / 2 ^ 54
    = (if neg then 0 else 1) * 2 ^ 8 + (e + 97)) as ->.
  { symmetry. apply (Z.div_unique_pos _ _ _ m); destruct neg; lia. }
  rewrite Z.add_comm, Z.mod_add, Z.mod_small by lia. lia.
Qed.

Lemma get_mantissa_pack m e neg : in_range m e -> get_mantissa (xfl_pack m e neg) = m.
Proof.
  intros H. pose proof (xfl_pack_bounds m e neg H). unfold get_mantissa.
  rewrite (proj2 (Z.ltb_ge _ 0)), (proj2 (Z.eqb_neq _ 0)), u64_small by lia.
  unfold xfl_pack. unfold_range. rewrite Z.shiftr_div_pow2, Z.shiftl_mul_pow2 by lia.
  assert (((if neg then 0 else 2 ^ 62) + (e + 97) * 2 ^ 54 + m) / 2 ^ 54
    = (if neg then 0 else 1) * 2 ^ 8 + (e + 97)) as ->.
  { symmetry. apply (Z.div_unique_pos _ _ _ m); destruct neg; lia. }
  destruct neg; rewrite i64_small by lia; lia.
Qed.

Lemma make_float_pack m e neg : in_range m e -> make_float m e neg = xfl_pack m e neg.
Proof.
  intros H. pose proof (is_negative_pack m e true H) as Hneg. unfold make_float, set_mantissa, set_exponent.
  unfold_range. rewrite (proj2 (Z.eqb_neq m 0)), !(proj2 (Z.ltb_ge _ m)), !(proj2 (Z.ltb_ge m _)),
    !(proj2 (Z.ltb_ge _ e)), !(proj2 (Z.ltb_ge e _)) by lia.
  change (0 - get_mantissa 0 + m) with m.
  rewrite (u64_small m), (i64_small m), land_high_zero by lia.
  rewrite (u64_small (e + 97)), Z.shiftl_mul_pow2, u64_small, (i64_small (_ * _)), i64_small by lia.
  replace (m + (e + 97) * 2 ^ 54) with (xfl_pack m e true) by (unfold xfl_pack; lia).
  unfold set_sign. rewrite Hneg. destruct neg; [done|]. cbn [andb orb negb].
  unfold invert_sign, xfl_pack. change (Z.shiftl 1 62) with (2 ^ 62).
  rewrite u64_small, lxor_bit_62, i64_small by lia. lia.
Qed.

(** A number built from its parts has these parts and is valid. *)
Lemma make_float_spec m e neg :
  in_range m e ->
  let f := make_float m e neg in
  0 < f < 2 ^ 63 /\ xfl_valid f = true /\
  get_mantissa f = m /\ get_exponent f = e /\ is_negative f = neg.
Proof.
  intros H f. subst f. rewrite make_float_pack by done. pose proof (xfl_pack_bounds m e neg H).
  split; [done|]. rewrite get_mantissa_pack, get_exponent_pack, is_negative_pack by done.
  repeat split. unfold xfl_valid, invalid_float.
  rewrite get_mantissa_pack, get_exponent_pack, (u64_small m) by (try done; unfold_range; lia).
  unfold_range. rewrite !(proj2 (Z.ltb_ge _ _)), (proj2 (Z.eqb_neq _ 0)) by lia. done.
Qed.

(** The parts of a valid number other than zero. *)
Lemma xfl_valid_parts f :
  xfl_valid f = true -> f <> 0 -> f < 2 ^ 63 ->
  0 < f /\ in_range (get_mantissa f) (get_exponent f) /\
  f = xfl_pack (get_mantissa f) (get_exponent f) (is_negative f).
Proof.
  unfold xfl_valid, invalid_float. intros Hv H0 H63. apply negb_true_iff, orb_false_iff in Hv as [Hpos Hv].
  rewrite (proj2 (Z.eqb_neq f 0)) in Hv by done. cbn [negb andb] in Hv. bool_prop.
  assert (0 < f) by lia. split; [lia|].
  assert (get_mantissa f = f mod 2 ^ 54) as Em.
  { unfold get_mantissa. rewrite (proj2 (Z.ltb_ge f 0)), (proj2 (Z.eqb_neq f 0)), u64_small by lia.
    rewrite Z.shiftr_div_pow2, Z.shiftl_mul_pow2, Z.mod_eq by lia.
    pose proof (Z.mod_pos_bound f (2 ^ 54) ltac:(lia)) as Hm. rewrite Z.mod_eq in Hm by lia.
    rewrite i64_small; lia. }
  assert (get_exponent f = (f / 2 ^ 54) mod 2 ^ 8 - 97) as Ee.
  { unfold get_exponent. rewrite (proj2 (Z.ltb_ge f 0)), (proj2 (Z.eqb_neq f 0)), u64_small by lia.
    rewrite Z.shiftr_div_pow2 by lia. change 0xFF with (Z.ones 8). by rewrite Z.land_ones by lia. }
  pose proof (Z.mod_pos_bound f (2 ^ 54) ltac:(lia)).
  rewrite (u64_small (get_mantissa f)) in * by lia.
  split; [unfold_range; lia|].
  assert (f = (f / 2 ^ 62) * 2 ^ 62 + ((f / 2 ^ 54) mod 2 ^ 8) * 2 ^ 54 + f mod 2 ^ 54) as Hf.
  { replace (f / 2 ^ 62) with (f / 2 ^ 54 / 2 ^ 8) by (rewrite Z.div_div by lia; done).
    pose proof (Z.div_mod (f / 2 ^ 54) (2 ^ 8) ltac:(lia)). pose proof (Z.div_mod f (2 ^ 54) ltac:(lia)). lia. }
  assert (f / 2 ^ 62 = if is_negative f then 0 else 1) as Es.
  { unfold is_negative. rewrite Z.shiftr_div_pow2 by lia. change 1 with (Z.ones 1) at 1.
    rewrite Z.land_ones by lia. assert (0 <= f / 2 ^ 62 < 2).
    { split; [apply Z.div_pos; lia|apply Z.div_lt_upper_bound; lia]. }
    rewrite Z.mod_small by lia. destruct (Z.eqb_spec (f / 2 ^ 62) 0); lia. }
  unfold xfl_pack. rewrite Em, Ee. rewrite Hf at 1. rewrite Es. destruct (is_negative f); lia.
Qed.

(** The accessors read what [make_float] wrote: for a sixteen-digit mantissa
    and an exponent in range the result is a valid positive 64-bit number with
    exactly this mantissa, exponent and sign, and it is the only one. *)
Theorem make_float_fields m e neg f :
  minMantissa <= m <= maxMantissa -> minExponent <= e <= maxExponent -> f < 2 ^ 63 ->
  make_float m e neg = f <->
  xfl_valid f = true /\ get_mantissa f = m /\ get_exponent f = e /\ is_negative f = neg /\ f <> 0.
Proof.
  intros Hm He Hf. assert (in_range m e) as Hr by done.
  pose proof (make_float_spec m e neg Hr) as (Hb & Hv & Gm & Ge & Gn). split.
  - intros <-. repeat split; try done. lia.
  - intros (Hv' & <- & <- & <- & H0). rewrite make_float_pack by done.
    symmetry. by apply xfl_valid_parts.
Qed.

(** ** Normalisation *)

Lemma pow10_Val i : 0 <= i < 19 -> pow10 i = Val (10 ^ i).
Proof.
  intros Hi. unfold pow10, power_of_ten. apply rd_Val. split; [lia|].
  rewrite list_lookup_fmap, lookup_seqZ_lt by lia. cbn. do 2 f_equal. lia.
Qed.

Section normalize.
Context {L : Log10}.

(** The room the exponent arithmetic needs. *)
Definition exp_room (exp : Z) : Prop := - 2 ^ 30 <= exp <= 2 ^ 30.

Lemma sub32_room a b : - 2 ^ 31 + 200 <= a <= 2 ^ 31 - 200 -> -100 <= b <= 100 -> sub32 a b = Val (a - b).
Proof using Type.
  unfold sub32, i32_fits. intros Ha Hb.
  rewrite (proj2 (Z.leb_le _ _)), (proj2 (Z.ltb_lt _ _)) by lia. done.
Qed.

(** The adjusted mantissa when the logarithm is [l]. *)
Definition scaled (m l : Z) : Z := if l <=? 15 then m * 10 ^ (15 - l) else m / 10 ^ (l - 15).

Lemma scaled_bounds m k l :
  0 <= k <= 19 -> 10 ^ k <= m < 10 ^ (k + 1) -> l = k \/ l = k + 1 ->
  10 ^ (15 + k - l) <= scaled m l < 10 ^ (16 + k - l).
Proof using Type.
  intros Hk Hm Hl. unfold scaled. destruct (Z.leb_spec l 15).
  - replace (15 + k - l) with (k + (15 - l)) by lia. replace (16 + k - l) with (k + 1 + (15 - l)) by lia.
    rewrite !Z.pow_add_r by lia. assert (0 < 10 ^ (15 - l)) by lia. rewrite !Z.pow_add_r in Hm by lia. nia.
  - assert (0 < 10 ^ (l - 15)) by lia.
    assert (10 ^ k = 10 ^ (l - 15) * 10 ^ (15 + k - l)) as E1 by (rewrite <- Z.pow_add_r by lia; f_equal; lia).
    assert (10 ^ (k + 1) = 10 ^ (l - 15) * 10 ^ (16 + k - l)) as E2 by (rewrite <- Z.pow_add_r by lia; f_equal; lia).
    split; [apply Z.div_le_lower_bound; lia|apply Z.div_lt_upper_bound; lia].
Qed.

Lemma adjust_mantissa_spec sman m exp k :
  0 <= k <= 19 -> 10 ^ k <= m < 10 ^ (k + 1) -> m < 2 ^ 64 -> exp_room exp ->
  lg10 m = k \/ lg10 m = k + 1 ->
  adjust_mantissa sman m exp = Val (scaled m (lg10 m), exp + lg10 m - 15).
Proof using Type.
  intros Hk Hm H64 He Hl. pose proof (scaled_bounds m k _ Hk Hm Hl) as Hs.
  assert (k <= 18 \/ k = 19) as Hk19 by lia.
  unfold adjust_mantissa. set (l := lg10 m) in *. assert (0 < 10 ^ k) by lia.
  rewrite (proj2 (Z.leb_gt m 0)) by lia. unfold scaled in *.
  destruct (Z.ltb_spec 0 (15 - l)), (Z.leb_spec l 15); try lia.
  - rewrite pow10_Val by lia. cbn.
    assert (m * 10 ^ (15 - l) < 10 ^ 16).
    { apply (Z.lt_le_trans _ _ _ (proj2 Hs)). apply Z.pow_le_mono_r; lia. }
    assert (0 <= m * 10 ^ (15 - l)) by nia.
    unfold mul64, i64_fits. rewrite u64_small, (proj2 (Z.leb_le _ _)), (proj2 (Z.ltb_lt _ _)) by lia.
    rewrite sub32_room by (unfold exp_room in *; lia).
    destruct sman; cbn; do 2 f_equal; lia.
  - replace (15 - l) with 0 by lia. cbn. rewrite Z.mul_1_r. do 2 f_equal. lia.
  - rewrite (proj2 (Z.ltb_lt _ 0)) by lia. replace (- (15 - l)) with (l - 15) by lia.
    rewrite pow10_Val by lia. cbn. rewrite sub32_room by (unfold exp_room in *; lia).
    cbn. do 2 f_equal. lia.
Qed.

Lemma fix_mantissa_in_range man exp :
  minMantissa <= man <= maxMantissa -> fix_mantissa man exp = Val (man, exp).
Proof using Type.
  unfold fix_mantissa. unfold_range. intros H.
  rewrite (proj2 (Z.ltb_ge man _)) by lia. cbn. by rewrite (proj2 (Z.ltb_ge _ man)) by lia.
Qed.

Lemma fix_mantissa_short man exp :
  10 ^ 14 <= man < minMantissa -> - 2 ^ 31 + 200 <= exp <= 2 ^ 31 - 200 ->
  exists man' exp', fix_mantissa man exp = Val (man', exp') /\
    minMantissa <= man' <= maxMantissa /\ exp - 1 <= exp' <= exp.
Proof using Type.
  unfold fix_mantissa. unfold_range. intros H He.
  rewrite (proj2 (Z.ltb_lt man _)) by lia. destruct (Z.eqb_spec man (1000000000000000 - 1)); cbn.
  - rewrite (proj2 (Z.ltb_ge _ _)) by lia. do 2 eexists. split; [done|lia].
  - rewrite sub32_room by lia. cbn.
    rewrite (proj2 (Z.ltb_ge _ _)) by lia. do 2 eexists. split; [done|lia].
Qed.

(** The decimal order of a positive 64-bit number. *)
Lemma decimal_order m : 0 < m < 2 ^ 64 -> exists k, 0 <= k <= 19 /\ 10 ^ k <= m < 10 ^ (k + 1).
Proof using Type.
  intros Hm.
  assert (forall n : nat, m < 10 ^ Z.of_nat n ->
    exists k, 0 <= k < Z.of_nat n /\ 10 ^ k <= m < 10 ^ (k + 1)) as H.
  { induction n as [|n IH]; intros Hn; [change (10 ^ Z.of_nat 0) with 1 in Hn; lia|].
    destruct (Z.lt_ge_cases m (10 ^ Z.of_nat n)) as [Hlt|Hge].
    - destruct (IH Hlt) as (k & ? & ?). exists k. split; [lia|done].
    - exists (Z.of_nat n). split; [lia|]. split; [done|].
      by replace (Z.of_nat n + 1) with (Z.of_nat (S n)) by lia. }
  destruct (H 20%nat) as (k & Hk & Hb); [cbn; lia|]. exists k. split; [lia|done].
Qed.

(** What a normalisation may return. *)
Definition norm_result (r : Z) : Prop :=
  r = 0 \/ r = XFL_OVERFLOW \/ (xfl_valid r = true /\ 0 < r < 2 ^ 63).

Lemma normalize_tail (sman neg : bool) man exp :
  minMantissa <= man <= maxMantissa ->
  exists r man' exp',
    (if exp <? minExponent then Val (0, 0, 0) else
     if man =? 0 then Val (0, man, 0) else
     if maxExponent <? exp then Val (rc XFL_OVERFLOW, man, exp) else
     Val (make_float man exp neg, if sman && neg then - man else man, exp))
    = @Val cxx_exception _ (r, man', exp') /\ norm_result r.
Proof using Type.
  intros Hm. unfold norm_result. destruct (Z.ltb_spec exp minExponent); [eauto 10|].
  rewrite (proj2 (Z.eqb_neq man 0)) by (unfold_range; lia).
  destruct (Z.ltb_spec maxExponent exp); [eauto 10|].
  destruct (make_float_spec man exp neg) as (Hb & Hv & _); [unfold_range; lia|].
  do 3 eexists. split; [done|]. auto.
Qed.

Lemma normalize_abs_total sman m exp neg :
  0 < m < 2 ^ 64 -> exp_room exp ->
  exists r man' exp', normalize_abs sman m exp neg = Val (r, man', exp') /\ norm_result r.
Proof using Type.
  intros Hm He. destruct (decimal_order m Hm) as (k & Hk & Hkm).
  pose proof (lg10_near m k ltac:(lia) Hkm ltac:(lia)) as Hl.
  unfold normalize_abs. rewrite (adjust_mantissa_spec sman m exp k) by (done || lia). cbn -[fix_mantissa].
  pose proof (scaled_bounds m k _ Hk Hkm Hl) as Hs. set (M := scaled m (lg10 m)) in *.
  set (E := exp + lg10 m - 15).
  destruct (Z.lt_ge_cases M minMantissa) as [Hshort|Hge].
  - assert (10 ^ 14 <= M) by (destruct Hl as [El|El]; rewrite El in Hs;
      [replace (15 + k - k) with 15 in Hs by lia|replace (15 + k - (k + 1)) with 14 in Hs by lia]; lia).
    rewrite (proj2 (Z.eqb_neq M 0)) by lia.
    destruct (fix_mantissa_short M E) as (man' & exp' & -> & Hr & _); [done|unfold exp_room, E in *; lia|].
    cbn. by apply normalize_tail.
  - assert (M <= maxMantissa) by (destruct Hl as [El|El]; rewrite El in Hs;
      [replace (16 + k - k) with 16 in Hs by lia|replace (16 + k - (k + 1)) with 15 in Hs by lia];
      unfold_range; lia).
    rewrite (proj2 (Z.eqb_neq M 0)), fix_mantissa_in_range by (unfold_range; lia).
    cbn. by apply normalize_tail.
Qed.

(** Normalising terminates with a result for every nonzero 64-bit mantissa
    and every exponent that leaves room for the adjustment, and the result is
    zero (underflow), [XFL_OVERFLOW] or a valid XFL. *)
Theorem normalize_xfl_valid (sman : bool) (man exp : Z) (neg : bool) :
  man <> 0 -> (if sman then - 2 ^ 63 < man < 2 ^ 63 else 0 < man < 2 ^ 64) -> exp_room exp ->
  exists r man' exp', normalize_xfl sman man exp neg = Val (r, man', exp') /\
    (r = 0 \/ r = XFL_OVERFLOW \/ (xfl_valid r = true /\ 0 < r < 2 ^ 63)).
Proof using Type.
  intros H0 Hm He. unfold normalize_xfl. destruct sman; cbn [andb]; [|by apply normalize_abs_total].
  destruct (Z.ltb_spec man 0); [|apply normalize_abs_total; [lia|done]].
  unfold mul64, i64_fits. rewrite (proj2 (Z.leb_le _ _)), (proj2 (Z.ltb_lt _ _)) by lia. cbn.
  apply normalize_abs_total; [lia|done].
Qed.

Lemma normalize_xfl_trunc (sman : bool) (m exp : Z) (neg : bool) (k : Z) :
  0 <= k <= 19 -> 10 ^ k <= m < 10 ^ (k + 1) -> m + 10 ^ (k + 1) / 2 ^ 45 <= 10 ^ (k + 1) ->
  m < 2 ^ 63 -> exp_room exp ->
  let M := if k <=? 15 then m * 10 ^ (15 - k) else m / 10 ^ (k - 15) in
  let E := exp + k - 15 in
  normalize_xfl sman m exp neg =
    Val (if E <? minExponent then (0, 0, 0)
         else if maxExponent <? E then (rc XFL_OVERFLOW, M, E)
         else (make_float M E neg, if sman && neg then - M else M, E)) /\
  minMantissa <= M <= maxMantissa.
Proof using Type.
  intros Hk Hm Hc H63 He M E.
  assert (lg10 m = k) as Hl by (apply lg10_floor; lia).
  pose proof (scaled_bounds m k k Hk Hm ltac:(auto)) as Hs. fold (scaled m k) in M.
  replace (15 + k - k) with 15 in Hs by lia. replace (16 + k - k) with 16 in Hs by lia.
  assert (minMantissa <= M <= maxMantissa) as HM by (subst M; unfold_range; lia). split; [|done].
  assert (0 < 10 ^ k) by lia.
  unfold normalize_xfl. rewrite (proj2 (Z.ltb_ge m 0)), andb_false_r by lia.
  unfold normalize_abs. rewrite (adjust_mantissa_spec sman m exp k) by (auto || lia).
  cbn -[fix_mantissa]. rewrite Hl. fold M E.
  rewrite !(proj2 (Z.eqb_neq M 0)), fix_mantissa_in_range by (unfold_range; lia). cbn.
  rewrite !(proj2 (Z.eqb_neq M 0)) by (unfold_range; lia).
  repeat case_match; done.
Qed.

(** Away from the next power of ten, where the logarithm may round up, the
    normalised number is the argument truncated to sixteen significant digits:
    mantissa [m * 10^(15-k)] or [m / 10^(k-15)], exponent [exp + k - 15], for an
    [m] of [k+1] digits; below the smallest exponent the result is zero, above
    the largest it is [XFL_OVERFLOW]. *)
Theorem normalize_xfl_exact (sman : bool) (m exp : Z) (neg : bool) (k : Z) :
  0 <= k <= 19 -> 10 ^ k <= m < 10 ^ (k + 1) -> m + 10 ^ (k + 1) / 2 ^ 45 <= 10 ^ (k + 1) ->
  m < 2 ^ 63 -> exp_room exp ->
  let M := if k <=? 15 then m * 10 ^ (15 - k) else m / 10 ^ (k - 15) in
  let E := exp + k - 15 in
  normalize_xfl sman m exp neg =
    Val (if E <? minExponent then (0, 0, 0)
         else if maxExponent <? E then (rc XFL_OVERFLOW, M, E)
         else (make_float M E neg, if sman && neg then - M else M, E)) /\
  minMantissa <= M <= maxMantissa.
Proof using Type. apply normalize_xfl_trunc. Qed.
End normalize.

(** ** An executable logarithm *)

Lemma flog10_spec m k : 0 <= k <= 19 -> 10 ^ k <= m < 10 ^ (k + 1) -> flog10 m = k.
Proof.
  unfold flog10. assert (forall (n : nat) m k, 0 <= k < Z.of_nat n -> 10 ^ k <= m < 10 ^ (k + 1) ->
    flog10_fuel n m = k) as H; [|intros ??; apply H; lia].
  clear. induction n as [|n IH]; intros m k Hk Hm; [lia|]. cbn [flog10_fuel].
  destruct (Z.ltb_spec m 10) as [Hs|Hb].
  - destruct (Z.eq_dec k 0); [lia|]. assert (10 ^ 1 <= 10 ^ k) by (apply Z.pow_le_mono_r; lia). lia.
  - destruct (Z.eq_dec k 0) as [->|]; [cbn in Hm; lia|].
    rewrite (IH (m / 10) (k - 1)); [lia|lia|].
    replace k with (1 + (k - 1)) in Hm at 1 by lia. rewrite Z.pow_add_r in Hm by lia.
    replace (10 ^ (k + 1)) with (10 * 10 ^ (k - 1 + 1)) in Hm
      by (rewrite <- (Z.pow_succ_r 10) by lia; f_equal; lia).
    split; [apply Z.div_le_lower_bound; lia|apply Z.div_lt_upper_bound; lia].
Qed.

Lemma order_bound m k : 10 ^ k <= m -> m < 2 ^ 64 -> k <= 19.
Proof.
  intros Hm H. destruct (Z.le_gt_cases k 19); [done|].
  assert (10 ^ 20 <= 10 ^ k) by (apply Z.pow_le_mono_r; lia). lia.
Qed.

Lemma log10_gap_small n : 15 <= n <= 20 -> log10_gap n < 10 ^ n / 2 ^ 45.
Proof.
  intros Hn. assert (n = 15 \/ n = 16 \/ n = 17 \/ n = 18 \/ n = 19 \/ n = 20) as H by lia.
  destruct H as [->|[->|[->|[->|[->| ->]]]]]; reflexivity.
Qed.

#[export] Instance log10_rounded : Log10.
Proof.
  refine {| lg10 := log10_rounded_fun |}.
  - intros m k Hk Hm H. pose proof (order_bound m k ltac:(lia) H). unfold log10_rounded_fun.
    rewrite (flog10_spec m k) by lia. case_match; lia.
  - intros m k Hk Hm Hc Hlt H. pose proof (order_bound m k Hm H). unfold log10_rounded_fun.
    rewrite (flog10_spec m k) by lia. destruct (Z.leb_spec (10 ^ (k + 1) - m) (log10_gap (k + 1))); [|lia].
    destruct (Z.le_gt_cases (k + 1) 14) as [Hsm|].
    + unfold log10_gap in *. rewrite (proj2 (Z.leb_le _ 14)) in * by lia. lia.
    + pose proof (log10_gap_small (k + 1) ltac:(lia)). lia.
Defined.

(** ** Examples *)

Lemma make_float_fields_witness :
  make_float 1234567890123456 (-5) true = 1658559230762465984 <->
  xfl_valid 1658559230762465984 = true /\ get_mantissa 1658559230762465984 = 1234567890123456 /\
  get_exponent 1658559230762465984 = -5 /\ is_negative 1658559230762465984 = true /\
  1658559230762465984 <> 0.
Proof.
  apply (make_float_fields 1234567890123456 (-5) true 1658559230762465984);
    [split; discriminate|split; discriminate|reflexivity].
Defined.

Lemma normalize_xfl_valid_witness :
  exists r man' exp', normalize_xfl true (-25) 3 false = Val (r, man', exp') /\
    (r = 0 \/ r = XFL_OVERFLOW \/ (xfl_valid r = true /\ 0 < r < 2 ^ 63)).
Proof.
  apply (normalize_xfl_valid true (-25) 3 false);
    [discriminate|split; reflexivity|split; discriminate].
Defined.

Lemma normalize_xfl_exact_witness :
  normalize_xfl false 25 3 false =
    Val (make_float 2500000000000000 (-11) false, 2500000000000000, -11) /\
  minMantissa <= 2500000000000000 <= maxMantissa.
Proof.
  apply (normalize_xfl_exact false 25 3 false 1); first [reflexivity|split; (discriminate || reflexivity)|discriminate].
Defined.

(** Close to the next power of ten the logarithm rounds up and the last digit is
    lost or the number becomes the power of ten. *)
Lemma normalize_near_power :
  normalize_xfl false 9999999999999985 0 false = Val (make_float 9999999999999980 0 false, 9999999999999980, 0) /\
  normalize_xfl false 9999999999999999 0 false = Val (make_float 1000000000000000 1 false, 1000000000000000, 1).
Proof. split; vm_compute; reflexivity. Qed.
