(* ===== verification/IouAmount.v ===== *)
(** * IouAmount: issued-currency amounts ([basics/IOUAmount.h], [basics/impl/IOUAmount.cpp])

    The decimal floating-point numbers of the ledger, on which the float API of
    the hooks computes sums, comparisons and ratios.  An amount is a mantissa of
    sixteen digits and an exponent between -96 and 80, or zero; [normalize]
    establishes this form, underflowing to zero and throwing on overflow.  The
    theorems show that every operation yields amounts of that form, that the
    order on amounts is the order of the numbers they stand for, and the laws of
    addition. *)

From stdpp Require Import base numbers list option.
From Stdlib Require Import ZArith Lia.
From S2P Require Import Prelude Enum Leb128 Xfl.

Local Open Scope Z_scope.

Record IOUAmount := mkIOU { mantissa : Z; exponent : Z }.

#[export] Instance IOUAmount_eq_dec : EqDecision IOUAmount.
Proof. solve_decision. Defined.

(** [beast::zero] *)
Definition iou_zero : IOUAmount := mkIOU 0 (-100).

(** ** Normalisation

    The two loops; the first one multiplies at most fifteen times, the second
    divides at most three times, so twenty iterations are enough. *)
Fixpoint grow (fuel : nat) (m e : Z) : Z * Z :=
  match fuel with
  | O => (m, e)
  | S fuel => if (m <? minMantissa) && (minExponent <? e) then grow fuel (m * 10) (e - 1) else (m, e)
  end.

Fixpoint shrink (fuel : nat) (m e : Z) : fres (Z * Z) :=
  match fuel with
  | O => Val (m, e)
  | S fuel =>
      if maxMantissa <? m then
        if maxExponent <=? e then Err overflow_error else shrink fuel (m / 10) (e + 1)
      else Val (m, e)
  end.

Definition normalize (a : IOUAmount) : fres IOUAmount :=
  if mantissa a =? 0 then Val iou_zero
  else
    let negative := mantissa a <? 0 in
    m ← (if negative then mul64 (mantissa a) (-1) else Val (mantissa a));
    let '(m, e) := grow 20 m (exponent a) in
    '(m, e) ← shrink 20 m e;
    if (e <? minExponent) || (m <? minMantissa) then Val iou_zero
    else if maxExponent <? e then Err overflow_error
    else Val (mkIOU (if negative then - m else m) e).

(** The constructor [IOUAmount(mantissa, exponent)]. *)
Definition makeIOU (m e : Z) : fres IOUAmount := normalize (mkIOU m e).

(** ** Operators *)

Definition iou_eqb (a b : IOUAmount) : bool :=
  (exponent a =? exponent b) && (mantissa a =? mantissa b).

Definition iou_neg (a : IOUAmount) : fres IOUAmount :=
  m ← mul64 (mantissa a) (-1); makeIOU m (exponent a).

(** [while (exponent < e) { mantissa /= 10; ++exponent; }] runs [e - exponent]
    times. *)
Definition align (m e target : Z) : Z := Nat.iter (Z.to_nat (target - e)) (fun m => Z.quot m 10) m.

Definition iou_add (a other : IOUAmount) : fres IOUAmount :=
  if iou_eqb other iou_zero then Val a
  else if iou_eqb a iou_zero then Val other
  else
    let e := Z.max (exponent a) (exponent other) in
    let m := align (mantissa a) (exponent a) e + align (mantissa other) (exponent other) e in
    if negb (i64_fits m) then Undef
    else if (-10 <=? m) && (m <=? 10) then Val iou_zero
    else normalize (mkIOU m e).

Definition iou_sub (a other : IOUAmount) : fres IOUAmount :=
  n ← iou_neg other; iou_add a n.

Definition iou_ltb (a other : IOUAmount) : bool :=
  let lneg := mantissa a <? 0 in
  let rneg := mantissa other <? 0 in
  if negb (Bool.eqb lneg rneg) then lneg
  else if mantissa a =? 0 then 0 <? mantissa other
  else if mantissa other =? 0 then false
  else if exponent other <? exponent a then lneg
  else if exponent a <? exponent other then negb lneg
  else mantissa a <? mantissa other.

Definition signum (a : IOUAmount) : Z :=
  if mantissa a <? 0 then -1 else if mantissa a =? 0 then 0 else 1.

Definition minPositiveAmount : fres IOUAmount := makeIOU minMantissa minExponent.

(** ** Ratios *)

Definition u128 (z : Z) : Z := uwrap 128 z.

Definition powerTable : list Z := (fun n => 10 ^ n) <$> seqZ 0 30.

(** [std::lower_bound] on the table: the index of the first entry not below. *)
Fixpoint lower_bound (t : list Z) (v : Z) : Z :=
  match t with
  | [] => 0
  | p :: t' => if p <? v then 1 + lower_bound t' v else 0
  end.

Definition log10Ceil (v : Z) : Z := lower_bound powerTable v.

Definition log10Floor (v : Z) : fres Z :=
  let index := lower_bound powerTable v in
  l ← rd powerTable index;
  Val (if l =? v then index else index - 1).

Definition fl64 : fres Z := log10Floor (2 ^ 63 - 1).

(** [low + rem / den] with as many digits as fit sixty-three bits: the scaled
    quotient, whether a remainder is left, and the exponent. *)
Definition ratio_grow (fl low rem den e : Z) : fres (Z * Z * Z) :=
  if rem =? 0 then Val (low, rem, e)
  else
    let roomToGrow := fl - log10Ceil low in
    '(low, rem, e) ←
      (if 0 <? roomToGrow then
         p ← rd powerTable roomToGrow; Val (u128 (low * p), u128 (rem * p), e - roomToGrow)
       else Val (low, rem, e));
    let addRem := rem / den in
    Val (u128 (low + addRem), u128 (rem - addRem * den), e).

Definition ratio_shrink (fl low e : Z) (hasRem : bool) : fres (Z * bool * Z) :=
  let mustShrink := log10Ceil low - fl in
  if 0 <? mustShrink then
    p ← rd powerTable mustShrink;
    let low' := low / p in
    Val (low', hasRem || negb (u128 (low - low' * p) =? 0), e + mustShrink)
  else Val (low, hasRem, e).

(** Rounding after the truncated result. *)
Definition ratio_round (result : IOUAmount) (hasRem roundUp neg : bool) : fres IOUAmount :=
  if hasRem then
    if roundUp && negb neg then
      if mantissa result =? 0 then minPositiveAmount
      else makeIOU (mantissa result + 1) (exponent result)
    else if negb roundUp && neg then
      if mantissa result =? 0 then makeIOU (- minMantissa) minExponent
      else makeIOU (mantissa result - 1) (exponent result)
    else Val result
  else Val result.

Definition mulRatio (amt : IOUAmount) (num den : Z) (roundUp : bool) : fres IOUAmount :=
  if den =? 0 then Err runtime_error
  else
    fl ← fl64;
    let neg := mantissa amt <? 0 in
    let mul := u128 ((if neg then - mantissa amt else mantissa amt) * num) in
    let low := mul / den in
    let rem := u128 (mul - low * den) in
    '(low, rem, e) ← ratio_grow fl low rem den (exponent amt);
    '(low, hasRem, e) ← ratio_shrink fl low e (negb (rem =? 0));
    let m := i64 low in
    result ← makeIOU (if neg then - m else m) e;
    ratio_round result hasRem roundUp neg.

(** ** Specification *)

(** The form every amount has. *)
Definition iou_valid (a : IOUAmount) : bool :=
  bool_decide (a = iou_zero) ||
  ((minMantissa <=? Z.abs (mantissa a)) && (Z.abs (mantissa a) <=? maxMantissa) &&
   (minExponent <=? exponent a) && (exponent a <=? maxExponent)).

(** The number an amount stands for, in units of [10^-96]. *)
Definition iou_num (a : IOUAmount) : Z :=
  if mantissa a =? 0 then 0 else mantissa a * 10 ^ (exponent a + 96).

(** ** Normal form *)

Lemma iou_valid_cases a :
  iou_valid a = true <->
  a = iou_zero \/ (minMantissa <= Z.abs (mantissa a) <= maxMantissa /\
                   minExponent <= exponent a <= maxExponent).
Proof.
  unfold iou_valid. rewrite orb_true_iff, !andb_true_iff, !Z.leb_le, bool_decide_eq_true. tauto.
Qed.

Lemma iou_zero_mantissa a : iou_valid a = true -> mantissa a = 0 -> a = iou_zero.
Proof. intros [->|H]%iou_valid_cases H0; [done|]. unfold_range. lia. Qed.

Lemma iou_eqb_eq a b : iou_eqb a b = true <-> a = b.
Proof.
  unfold iou_eqb. rewrite andb_true_iff, !Z.eqb_eq. destruct a, b; cbn.
  split; [intros [-> ->]; done|by intros [= -> ->]].
Qed.

Lemma grow_spec n m e :
  0 < m -> exists j, 0 <= j <= Z.of_nat n /\ grow n m e = (m * 10 ^ j, e - j) /\
    (j = 0 \/ (m * 10 ^ j < 10 * minMantissa /\ minExponent <= e - j)) /\
    (minMantissa <= m * 10 ^ j \/ e - j <= minExponent \/ j = Z.of_nat n).
Proof.
  revert m e. induction n as [|n IH]; intros m e Hm.
  - exists 0. cbn [grow]. rewrite Z.sub_0_r, Z.mul_1_r. auto 10 with lia.
  - cbn [grow]. destruct ((m <? minMantissa) && (minExponent <? e)) eqn:Hc.
    + bool_prop. destruct (IH (m * 10) (e - 1) ltac:(lia)) as (j & Hj & -> & Hs & Ht).
      assert (m * 10 * 10 ^ j = m * 10 ^ (j + 1)) as Ej by (rewrite Z.pow_add_r by lia; lia).
      exists (j + 1). rewrite <- Ej. split; [lia|]. split; [f_equal; lia|]. split; [|lia].
      right. destruct Hs as [->|Hs]; [cbn|]; lia.
    + exists 0. rewrite Z.sub_0_r, Z.mul_1_r. apply andb_false_iff in Hc. split; [lia|].
      split; [done|]. split; [auto|]. destruct Hc as [Hc|Hc]; bool_prop; auto.
Qed.

(** Twenty iterations bring every mantissa up as far as the exponent allows. *)
Lemma grow_20 m e :
  0 < m -> exists j, 0 <= j /\ grow 20 m e = (m * 10 ^ j, e - j) /\
    (j = 0 \/ (m * 10 ^ j <= maxMantissa /\ minExponent <= e - j)) /\
    (minMantissa <= m * 10 ^ j \/ e - j <= minExponent).
Proof.
  intros Hm. destruct (grow_spec 20 m e Hm) as (j & Hj & E & Hs & Ht). exists j.
  split; [lia|]. split; [done|]. split; [unfold_range; lia|].
  destruct Ht as [?|[?| ->]]; [auto..|]. left. unfold_range.
  change (10 ^ Z.of_nat 20) with 100000000000000000000. lia.
Qed.

Lemma shrink_spec n m e :
  0 <= m < 10 ^ (16 + Z.of_nat n) ->
  (exists j, 0 <= j <= Z.of_nat n /\ shrink n m e = Val (m / 10 ^ j, e + j) /\
     m / 10 ^ j <= maxMantissa /\ (j = 0 \/ (minMantissa <= m / 10 ^ j /\ e + j <= maxExponent))) \/
  (shrink n m e = Err overflow_error /\ maxMantissa < m).
Proof.
  revert m e. induction n as [|n IH]; intros m e Hm.
  - left. exists 0. cbn [shrink]. rewrite Z.div_1_r, Z.add_0_r. unfold_range.
    change (10 ^ (16 + Z.of_nat 0)) with 10000000000000000 in Hm. auto 10 with lia.
  - cbn [shrink]. destruct (Z.ltb_spec maxMantissa m) as [Hbig|].
    + destruct (Z.leb_spec maxExponent e); [by right|].
      replace (16 + Z.of_nat (S n)) with (1 + (16 + Z.of_nat n)) in Hm by lia.
      rewrite Z.pow_add_r in Hm by lia.
      destruct (IH (m / 10) (e + 1)) as [(j & Hj & -> & Hb & Hs)|[-> Hb]].
      * split; [apply Z.div_pos; lia|apply Z.div_lt_upper_bound; lia].
      * left. exists (j + 1). assert (m / 10 / 10 ^ j = m / 10 ^ (j + 1)) as <-.
        { rewrite Z.div_div, Z.pow_add_r by lia. f_equal. lia. }
        split; [lia|]. split; [do 2 f_equal; lia|]. split; [done|]. right. split; [|lia].
        destruct Hs as [->|[? _]]; [|done]. rewrite Z.div_1_r. unfold_range.
        apply Z.div_le_lower_bound; lia.
      * right. split; [done|]. lia.
    + left. exists 0. rewrite Z.div_1_r, Z.add_0_r. auto 10 with lia.
Qed.

(** ** What normalisation does *)

Lemma mul64_neg m : - 2 ^ 63 < m < 2 ^ 63 -> mul64 m (-1) = Val (- m).
Proof.
  intros Hm. unfold mul64, i64_fits.
  rewrite (proj2 (Z.leb_le _ _)), (proj2 (Z.ltb_lt _ _)) by lia. cbn. f_equal. lia.
Qed.

(** The result is overflow, zero by underflow, or [m * 10^e] with digits added
    or dropped at the end. *)
Lemma normalize_spec m e :
  m <> 0 -> - 2 ^ 63 < m < 2 ^ 63 ->
  (normalize (mkIOU m e) = Err overflow_error /\
     (maxMantissa < Z.abs m \/ maxExponent < e)) \/
  (normalize (mkIOU m e) = Val iou_zero /\
     (e < minExponent \/ (Z.abs m < minMantissa /\ Z.abs m * 10 ^ (e + 96) < minMantissa))) \/
  (exists M j, 0 <= j /\ minMantissa <= M <= maxMantissa /\
     ((M = Z.abs m * 10 ^ j /\ minExponent <= e - j <= maxExponent /\
         normalize (mkIOU m e) = Val (mkIOU (Z.sgn m * M) (e - j))) \/
      (M = Z.abs m / 10 ^ j /\ maxMantissa < Z.abs m /\ minExponent <= e + j <= maxExponent /\
         normalize (mkIOU m e) = Val (mkIOU (Z.sgn m * M) (e + j))))).
Proof.
  intros H0 Hm. unfold normalize. cbn [mantissa exponent].
  rewrite (proj2 (Z.eqb_neq m 0)) by done.
  assert ((if m <? 0 then mul64 m (-1) else Val m) = Val (Z.abs m)) as ->.
  { destruct (Z.ltb_spec m 0); [rewrite mul64_neg by lia|]; f_equal; lia. }
  cbn -[grow shrink]. destruct (grow_20 (Z.abs m) e ltac:(lia)) as (j & Hj & -> & Hs & Ht).
  assert (0 < 10 ^ j) by lia.
  assert ((if m <? 0 then - Z.abs m else Z.abs m) = Z.sgn m * Z.abs m) as Esgn by (case_match; bool_prop; lia).
  destruct (Z.le_gt_cases (Z.abs m) maxMantissa) as [Hsm|Hbig].
  - assert (Z.abs m * 10 ^ j <= maxMantissa) by (destruct Hs as [->|?]; [rewrite Z.mul_1_r|]; lia).
    assert (shrink 20 (Z.abs m * 10 ^ j) (e - j) = Val (Z.abs m * 10 ^ j, e - j)) as ->
      by (cbn [shrink]; by rewrite (proj2 (Z.ltb_ge _ _)) by lia).
    cbn. destruct (Z.ltb_spec (e - j) minExponent) as [He|He]; cbn [orb].
    { right; left. split; [done|]. lia. }
    destruct (Z.ltb_spec (Z.abs m * 10 ^ j) minMantissa) as [HM|HM].
    { right; left. split; [done|]. right. assert (e + 96 = j) as -> by (unfold_range; lia). nia. }
    destruct (Z.ltb_spec maxExponent (e - j)); [left; split; [done|lia]|].
    right; right. exists (Z.abs m * 10 ^ j), j. split; [lia|]. split; [lia|]. left.
    split; [done|]. split; [lia|]. do 2 f_equal. case_match; bool_prop; nia.
  - assert (j = 0) as -> by (destruct Hs as [?|?]; [done|nia]).
    rewrite Z.mul_1_r, Z.sub_0_r.
    destruct (shrink_spec 20 (Z.abs m) e) as [(i & Hi & -> & Hb & Hs')|[-> Hb]].
    + split; [lia|]. change (10 ^ (16 + Z.of_nat 20)) with (10 ^ 36). lia.
    + cbn. assert (i <> 0) by (intros ->; rewrite Z.div_1_r in Hb; lia).
      destruct Hs' as [?|[Hmin Hmax]]; [done|].
      destruct (Z.ltb_spec (e + i) minExponent); cbn [orb]; [right; left; split; [done|lia]|].
      rewrite (proj2 (Z.ltb_ge _ minMantissa)), (proj2 (Z.ltb_ge maxExponent _)) by lia.
      right; right. exists (Z.abs m / 10 ^ i), i. split; [lia|]. split; [lia|]. right.
      repeat (split; [done || lia|]). do 2 f_equal. case_match; bool_prop; lia.
    + left. split; [done|]. lia.
Qed.

Lemma normalize_id m e :
  minMantissa <= Z.abs m <= maxMantissa -> minExponent <= e <= maxExponent ->
  normalize (mkIOU m e) = Val (mkIOU m e).
Proof.
  intros Hm He.
  destruct (normalize_spec m e) as [[_ ?]|[[_ ?]|(M & j & Hj & HM & H)]]; [unfold_range; lia..|].
  destruct H as [(-> & He' & ->)|(_ & ? & _)]; [|lia].
  assert (j = 0) as ->.
  { destruct (Z.eq_dec j 0); [done|]. assert (10 ^ 1 <= 10 ^ j) by (apply Z.pow_le_mono_r; lia).
    unfold_range. nia. }
  rewrite Z.mul_1_r, Z.sub_0_r, Z.mul_comm, Z.abs_sgn. done.
Qed.

(** The result of normalising is an amount in normal form. *)
Lemma normalize_form m e c :
  - 2 ^ 63 < m < 2 ^ 63 -> normalize (mkIOU m e) = Val c -> iou_valid c = true.
Proof.
  intros Hm H. apply iou_valid_cases. destruct (Z.eq_dec m 0) as [->|H0].
  { injection H as <-. by left. }
  destruct (normalize_spec m e H0 Hm) as [[E _]|[[E _]|(M & j & Hj & HM & Hc)]];
    [congruence|left; congruence|right].
  destruct Hc as [(_ & He & E)|(_ & _ & He & E)]; rewrite E in H; injection H as <-; cbn;
    split; try done; unfold_range; lia.
Qed.

Lemma normalize_total m e :
  - 2 ^ 63 < m < 2 ^ 63 ->
  normalize (mkIOU m e) = Err overflow_error \/ exists c, normalize (mkIOU m e) = Val c.
Proof.
  intros Hm. destruct (Z.eq_dec m 0) as [->|H0]; [right; by eexists|].
  destruct (normalize_spec m e H0 Hm) as [[E _]|[[E _]|(M & j & Hj & HM & Hc)]]; [auto|eauto|].
  destruct Hc as [(_ & _ & E)|(_ & _ & _ & E)]; eauto.
Qed.

(** ** The order *)

Lemma iou_num_scaled a :
  iou_valid a = true -> mantissa a <> 0 ->
  minMantissa * 10 ^ (exponent a + 96) <= Z.abs (iou_num a) < 10 * minMantissa * 10 ^ (exponent a + 96) /\
  Z.sgn (iou_num a) = Z.sgn (mantissa a) /\ 0 < 10 ^ (exponent a + 96).
Proof.
  intros [->|[Hm He]]%iou_valid_cases H0; [done|]. unfold iou_num.
  rewrite (proj2 (Z.eqb_neq _ 0)) by done.
  assert (0 < 10 ^ (exponent a + 96)) by (unfold_range; lia).
  rewrite Z.abs_mul, (Z.abs_eq (10 ^ _)), Z.sgn_mul, (Z.sgn_pos (10 ^ _)) by lia.
  unfold_range. repeat split; nia.
Qed.

(** A larger exponent is a larger magnitude. *)
Lemma exponent_dominates a b :
  iou_valid a = true -> iou_valid b = true -> mantissa a <> 0 -> mantissa b <> 0 ->
  exponent a < exponent b -> Z.abs (iou_num a) < Z.abs (iou_num b).
Proof.
  intros Ha Hb Ha0 Hb0 He.
  pose proof (iou_num_scaled a Ha Ha0) as ([_ Hua] & _ & _).
  pose proof (iou_num_scaled b Hb Hb0) as ([Hlb _] & _ & _).
  apply iou_valid_cases in Ha as [->|[_ Hea]]; [done|].
  assert (10 * 10 ^ (exponent a + 96) <= 10 ^ (exponent b + 96)).
  { rewrite <- Z.pow_succ_r by (unfold_range; lia). apply Z.pow_le_mono_r; lia. }
  unfold_range. lia.
Qed.

Lemma iou_ltb_spec a b :
  iou_valid a = true -> iou_valid b = true -> iou_ltb a b = true <-> iou_num a < iou_num b.
Proof.
  intros Ha Hb. unfold iou_ltb.
  destruct (Z.eq_dec (mantissa a) 0) as [Ha0|Ha0], (Z.eq_dec (mantissa b) 0) as [Hb0|Hb0].
  - unfold iou_num. rewrite Ha0, Hb0. done.
  - pose proof (iou_num_scaled b Hb Hb0) as (_ & Hs & _). unfold iou_num at 1. rewrite Ha0. cbn.
    destruct (Z.ltb_spec (mantissa b) 0); cbn; [split; [done|lia]|]. rewrite Z.ltb_lt. lia.
  - pose proof (iou_num_scaled a Ha Ha0) as (_ & Hs & _). unfold iou_num at 2. rewrite Hb0. cbn.
    destruct (Z.ltb_spec (mantissa a) 0); cbn; [split; [lia|done]|].
    rewrite (proj2 (Z.eqb_neq _ 0)) by done. split; [done|lia].
  - pose proof (iou_num_scaled a Ha Ha0) as (_ & Hsa & Hpa).
    pose proof (iou_num_scaled b Hb Hb0) as (_ & Hsb & _).
    rewrite !(proj2 (Z.eqb_neq _ 0)) by done.
    pose proof (exponent_dominates a b Ha Hb Ha0 Hb0) as Hab.
    pose proof (exponent_dominates b a Hb Ha Hb0 Ha0) as Hba.
    destruct (Z.ltb_spec (mantissa a) 0), (Z.ltb_spec (mantissa b) 0); cbn [Bool.eqb negb];
      try (split; [done|lia]); try (split; [lia|done]);
      (destruct (Z.ltb_spec (exponent b) (exponent a)); [(split; [done|lia]) || (split; [lia|done])|]);
      (destruct (Z.ltb_spec (exponent a) (exponent b)); [(split; [done|lia]) || (split; [lia|done])|]);
      rewrite Z.ltb_lt; unfold iou_num; rewrite !(proj2 (Z.eqb_neq _ 0)) by done;
      replace (exponent b) with (exponent a) by lia; nia.
Qed.

Lemma iou_ltb_iff a b :
  iou_valid a = true -> iou_valid b = true -> iou_ltb a b = (iou_num a <? iou_num b).
Proof. intros Ha Hb. apply eq_bool_prop_intro. rewrite !Is_true_true, Z.ltb_lt. by apply iou_ltb_spec. Qed.

(** Two amounts that stand for the same number are equal. *)
Lemma iou_eqb_num a b :
  iou_valid a = true -> iou_valid b = true -> iou_eqb a b = (iou_num a =? iou_num b).
Proof.
  intros Ha Hb. destruct (Z.eqb_spec (iou_num a) (iou_num b)) as [E|E].
  - apply iou_eqb_eq. destruct (Z.eq_dec (mantissa a) 0) as [Ha0|Ha0], (Z.eq_dec (mantissa b) 0) as [Hb0|Hb0].
    + by rewrite (iou_zero_mantissa a), (iou_zero_mantissa b).
    + pose proof (iou_num_scaled b Hb Hb0) as (? & _ & ?). unfold iou_num in E at 1. rewrite Ha0 in E. cbn in E. unfold_range. nia.
    + pose proof (iou_num_scaled a Ha Ha0) as (? & _ & ?). unfold iou_num in E at 2. rewrite Hb0 in E. cbn in E. unfold_range. nia.
    + assert (exponent a = exponent b) as Ee.
      { destruct (Z.lt_trichotomy (exponent a) (exponent b)) as [H|[H|H]]; [|done|];
          [pose proof (exponent_dominates a b)|pose proof (exponent_dominates b a)]; intuition lia. }
      pose proof (iou_num_scaled a Ha Ha0) as (_ & _ & ?). unfold iou_num in E.
      rewrite !(proj2 (Z.eqb_neq _ 0)), <- Ee in E by done. destruct a, b; cbn in *. f_equal; [nia|done].
  - destruct (iou_eqb a b) eqn:H; [|done]. apply iou_eqb_eq in H. by subst.
Qed.

(** The comparison of amounts is the order of the numbers they stand for. *)
Theorem iou_ltb_num a b :
  iou_valid a = true -> iou_valid b = true -> iou_ltb a b = true <-> iou_num a < iou_num b.
Proof. apply iou_ltb_spec. Qed.

(** ** Addition *)

Lemma align_quot m e t : e <= t -> align m e t = Z.quot m (10 ^ (t - e)).
Proof.
  intros He. unfold align. rewrite <- (Z2Nat.id (t - e)) at 2 by lia.
  induction (Z.to_nat (t - e)) as [|n IH].
  - cbn. by rewrite Z.quot_1_r.
  - rewrite Nat.iter_succ, IH, Z.quot_quot by lia. f_equal.
    rewrite Nat2Z.inj_succ, Z.pow_succ_r by lia. lia.
Qed.

Lemma align_abs m e t : Z.abs (align m e t) <= Z.abs m.
Proof.
  unfold align. induction (Z.to_nat (t - e)) as [|n IH]; [done|]. rewrite Nat.iter_succ.
  set (x := Nat.iter n _ m) in *. pose proof (Z.quot_abs x 10 ltac:(lia)) as E.
  pose proof (Z.quot_le_upper_bound (Z.abs x) (Z.abs 10) (Z.abs x)). cbn in *. lia.
Qed.

(** Aligning truncates less than one unit of the target exponent. *)
Lemma align_error m e t :
  -96 <= e <= t -> Z.abs (align m e t * 10 ^ (t + 96) - m * 10 ^ (e + 96)) < 10 ^ (t + 96).
Proof.
  intros He. rewrite align_quot by lia.
  assert (10 ^ (t + 96) = 10 ^ (t - e) * 10 ^ (e + 96)) as E by (rewrite <- Z.pow_add_r by lia; f_equal; lia).
  assert (0 < 10 ^ (t - e)) by lia. assert (0 < 10 ^ (e + 96)) by lia.
  pose proof (Z.quot_rem m (10 ^ (t - e)) ltac:(lia)) as Hq.
  pose proof (Z.rem_bound_abs m (10 ^ (t - e)) ltac:(lia)) as Hr.
  rewrite (Z.abs_eq (10 ^ (t - e))) in Hr by lia. rewrite E.
  set (P := 10 ^ (t - e)) in *. set (U := 10 ^ (e + 96)) in *.
  generalize dependent (Z.quot m P). generalize dependent (Z.rem m P). intros r Hr q ->.
  replace (q * (P * U) - (P * q + r) * U) with (- (r * U)) by ring.
  rewrite Z.abs_opp, Z.abs_mul, (Z.abs_eq U) by lia. nia.
Qed.

(** The shape of a sum of two amounts other than zero. *)
Lemma iou_add_unfold a b :
  iou_valid a = true -> iou_valid b = true -> a <> iou_zero -> b <> iou_zero ->
  let e := Z.max (exponent a) (exponent b) in
  let m := align (mantissa a) (exponent a) e + align (mantissa b) (exponent b) e in
  iou_add a b = (if (-10 <=? m) && (m <=? 10) then Val iou_zero else normalize (mkIOU m e)) /\
  Z.abs m <= 2 * maxMantissa /\ minExponent <= e <= maxExponent /\
  Z.abs (m * 10 ^ (e + 96) - (iou_num a + iou_num b)) < 10 ^ (e + 96).
Proof.
  intros Ha Hb Ha0 Hb0 e m. unfold iou_add.
  destruct (iou_eqb b iou_zero) eqn:Eb; [by apply iou_eqb_eq in Eb|].
  destruct (iou_eqb a iou_zero) eqn:Ea; [by apply iou_eqb_eq in Ea|]. fold e m.
  apply iou_valid_cases in Ha as [?|[Hma Hea]]; [done|].
  apply iou_valid_cases in Hb as [?|[Hmb Heb]]; [done|].
  pose proof (align_abs (mantissa a) (exponent a) e). pose proof (align_abs (mantissa b) (exponent b) e).
  assert (Z.abs m <= 2 * maxMantissa) as Hm by (unfold_range; lia).
  unfold i64_fits. rewrite (proj2 (Z.leb_le _ m)), (proj2 (Z.ltb_lt m _)) by (unfold_range; lia).
  repeat split; try done; try lia.
  unfold iou_num. rewrite !(proj2 (Z.eqb_neq _ 0)) by (unfold_range; lia).
  pose proof (align_error (mantissa a) (exponent a) e ltac:(unfold_range; lia)).
  pose proof (align_error (mantissa b) (exponent b) e ltac:(unfold_range; lia)).
  destruct (Z.max_spec (exponent a) (exponent b)) as [[_ E]|[_ E]].
  - assert (align (mantissa b) (exponent b) e = mantissa b) as Eb'
      by (unfold e, align; rewrite E, Z.sub_diag; done).
    subst m. rewrite Eb' in *. replace (exponent b) with e by done. lia.
  - assert (align (mantissa a) (exponent a) e = mantissa a) as Ea'
      by (unfold e, align; rewrite E, Z.sub_diag; done).
    subst m. rewrite Ea' in *. replace (exponent a) with e by done. lia.
Qed.

(** Normalising a mantissa of at most seventeen digits drops at most one digit. *)
Lemma normalize_num m e c :
  m <> 0 -> Z.abs m <= 2 * maxMantissa -> -96 <= e -> normalize (mkIOU m e) = Val c ->
  Z.abs (iou_num c - m * 10 ^ (e + 96)) <= 9 * 10 ^ (e + 96) \/
  (c = iou_zero /\ Z.abs m * 10 ^ (e + 96) < minMantissa).
Proof.
  intros H0 Hm He H. assert (0 < 10 ^ (e + 96)) as HU by lia.
  destruct (normalize_spec m e H0 ltac:(unfold_range; lia)) as [[E _]|[[E Hz]|(M & j & Hj & HM & Hc)]].
  - congruence.
  - rewrite E in H. injection H as <-. right. split; [done|]. unfold_range. lia.
  - left. unfold iou_num. destruct Hc as [(-> & Hej & E)|(EM & Hbig & Hej & E)];
      rewrite E in H; injection H as <-; cbn [mantissa exponent];
      rewrite (proj2 (Z.eqb_neq _ 0)) by (unfold_range; lia).
    + assert (10 ^ j * 10 ^ (e - j + 96) = 10 ^ (e + 96)) as Ep
        by (rewrite <- Z.pow_add_r by (unfold_range; lia); f_equal; lia).
      replace (Z.sgn m * (Z.abs m * 10 ^ j) * 10 ^ (e - j + 96)) with (m * 10 ^ (e + 96)); [lia|].
      rewrite <- Ep, <- (Z.abs_sgn m) at 1. ring.
    + assert (j = 1) as ->.
      { destruct (Z.eq_dec j 0) as [->|]; [rewrite Z.div_1_r in EM; lia|].
        destruct (Z.le_gt_cases j 1); [lia|]. exfalso.
        assert (10 ^ 2 <= 10 ^ j) by (apply Z.pow_le_mono_r; lia).
        assert (M * 10 ^ j <= Z.abs m) by (rewrite EM, Z.mul_comm; apply Z.mul_div_le; lia).
        unfold_range. nia. }
      rewrite Z.pow_1_r in EM. pose proof (Z.div_mod (Z.abs m) 10 ltac:(lia)).
      pose proof (Z.mod_pos_bound (Z.abs m) 10 ltac:(lia)).
      replace (e + 1 + 96) with (1 + (e + 96)) by lia. rewrite Z.pow_add_r, Z.pow_1_r by lia.
      set (U := 10 ^ (e + 96)) in *.
      replace (Z.sgn m * M * (10 * U) - m * U) with ((Z.sgn m * M * 10 - m) * U) by ring.
      rewrite Z.abs_mul, (Z.abs_eq U) by lia. apply Z.mul_le_mono_nonneg_r; lia.
Qed.

Lemma iou_add_result a b :
  iou_valid a = true -> iou_valid b = true ->
  iou_add a b = Err overflow_error \/ exists c, iou_add a b = Val c /\ iou_valid c = true.
Proof.
  intros Ha Hb. destruct (decide (b = iou_zero)) as [->|Hb0]; [right; by exists a|].
  destruct (decide (a = iou_zero)) as [->|Ha0].
  { right. exists b. unfold iou_add. by destruct (iou_eqb b iou_zero) eqn:E; [apply iou_eqb_eq in E|]. }
  destruct (iou_add_unfold a b Ha Hb Ha0 Hb0) as (-> & Hm & _).
  case_match; [right; by exists iou_zero|].
  set (m := align _ _ _ + _) in *. set (e := Z.max _ _).
  destruct (normalize_total m e) as [?|[c Hc]]; [unfold_range; lia|by left|].
  right. exists c. split; [done|]. eapply normalize_form; [|done]. unfold_range. lia.
Qed.

(** The sum of two amounts is an amount in normal form, or the addition
    throws [overflow_error]; it has no undefined behaviour. *)
Theorem iou_add_valid a b :
  iou_valid a = true -> iou_valid b = true ->
  iou_add a b = Err overflow_error \/ exists c, iou_add a b = Val c /\ iou_valid c = true.
Proof. apply iou_add_result. Qed.

(** Addition commutes. *)
Theorem iou_add_comm a b : iou_add a b = iou_add b a.
Proof.
  unfold iou_add. destruct (iou_eqb b iou_zero) eqn:Eb, (iou_eqb a iou_zero) eqn:Ea; try done.
  - apply iou_eqb_eq in Ea as ->, Eb as ->. done.
  - by rewrite (Z.max_comm (exponent b)), (Z.add_comm (align (mantissa b) _ _)).
Qed.

(** The error of an addition: the sum is overflow, or it differs from the
    exact sum by at most eleven units of the larger exponent, or it underflowed
    to zero from a sum smaller than the smallest positive amount plus one unit. *)
Theorem iou_add_accuracy a b c :
  iou_valid a = true -> iou_valid b = true -> iou_add a b = Val c ->
  Z.abs (iou_num c - (iou_num a + iou_num b)) <=
    11 * 10 ^ (Z.max (exponent a) (exponent b) + 96) \/
  (c = iou_zero /\ Z.abs (iou_num a + iou_num b) <
     minMantissa + 10 ^ (Z.max (exponent a) (exponent b) + 96)).
Proof.
  intros Ha Hb H. destruct (decide (b = iou_zero)) as [->|Hb0].
  { injection H as <-. left. change (iou_num iou_zero) with 0. 
    assert (0 <= 10 ^ (Z.max (exponent a) (exponent iou_zero) + 96)) by (apply Z.pow_nonneg; lia). lia. }
  destruct (decide (a = iou_zero)) as [->|Ha0].
  { unfold iou_add in H. destruct (iou_eqb b iou_zero) eqn:E; [by apply iou_eqb_eq in E|].
    injection H as <-. left. change (iou_num iou_zero) with 0.
    assert (0 <= 10 ^ (Z.max (exponent iou_zero) (exponent b) + 96)) by (apply Z.pow_nonneg; lia). lia. }
  destruct (iou_add_unfold a b Ha Hb Ha0 Hb0) as (E & Hm & He & Herr). rewrite E in H. clear E.
  set (e := Z.max (exponent a) (exponent b)) in *.
  set (m := align (mantissa a) (exponent a) e + align (mantissa b) (exponent b) e) in *.
  set (X := iou_num a + iou_num b) in *.
  assert (0 < 10 ^ (e + 96)) as HU by (unfold_range; lia).
  destruct ((-10 <=? m) && (m <=? 10)) eqn:Hsmall.
  { injection H as <-. left. bool_prop. change (iou_num iou_zero) with 0. nia. }
  assert (m <> 0) as Hm0 by (intros E; rewrite E in Hsmall; done).
  destruct (normalize_num m e c Hm0 Hm ltac:(unfold_range; lia) H) as [?|[-> ?]]; [left; nia|].
  right. split; [done|]. nia.
Qed.

(** ** Ratios *)

Lemma lower_bound_spec n a v :
  0 <= a -> 0 < v <= 10 ^ (a + Z.of_nat n - 1) -> (0 < n)%nat ->
  let c := lower_bound ((fun i => 10 ^ i) <$> seqZ a (Z.of_nat n)) v in
  0 <= c < Z.of_nat n /\ v <= 10 ^ (a + c) /\ (c = 0 \/ 10 ^ (a + c - 1) < v).
Proof.
  revert a. induction n as [|n IH]; intros a Ha Hv Hn c; [lia|]. subst c.
  rewrite seqZ_cons by lia. cbn [fmap list_fmap lower_bound].
  replace (Z.pred (Z.of_nat (S n))) with (Z.of_nat n) by lia. rewrite <- Z.add_1_r.
  destruct (Z.ltb_spec (10 ^ a) v) as [Hlt|Hge].
  - destruct n as [|n].
    { replace (a + Z.of_nat 1 - 1) with a in Hv by lia. lia. }
    destruct (IH (a + 1)) as (H1 & H2 & H3); [lia| |lia|].
    { replace (a + 1 + Z.of_nat (S n) - 1) with (a + Z.of_nat (S (S n)) - 1) by lia. done. }
    set (c := lower_bound _ _) in *. split; [lia|].
    replace (a + (1 + c)) with (a + 1 + c) by lia. split; [done|]. right.
    destruct H3 as [->|H3]; [|done]. by replace (a + 1 + 0 - 1) with a by lia.
  - split; [lia|]. rewrite Z.add_0_r. auto.
Qed.

Lemma log10Ceil_spec v :
  0 < v <= 10 ^ 29 ->
  0 <= log10Ceil v < 30 /\ v <= 10 ^ log10Ceil v /\ (log10Ceil v = 0 \/ 10 ^ (log10Ceil v - 1) < v).
Proof.
  intros Hv. pose proof (lower_bound_spec 30 0 v ltac:(lia)) as H. cbv zeta in H.
  rewrite !Z.add_0_l in H. apply H; [done|lia].
Qed.

Lemma powerTable_Val {E} i : 0 <= i < 30 -> rd (E := E) powerTable i = Val (10 ^ i).
Proof.
  intros Hi. unfold powerTable. apply rd_Val. split; [lia|].
  rewrite list_lookup_fmap, lookup_seqZ_lt by lia. cbn. do 2 f_equal. lia.
Qed.

Lemma u128_small z : 0 <= z < 2 ^ 128 -> u128 z = z.
Proof. apply uwrap_small. Qed.

(** Growing keeps [low * den + rem] equal to the scaled product. *)
Lemma ratio_grow_spec X den e :
  0 < den < 2 ^ 32 -> den <= X < 2 ^ 90 ->
  exists low rem r, ratio_grow 18 (X / den) (X mod den) den e = Val (low, rem, e - r) /\
    0 <= r <= 18 /\ low * den + rem = X * 10 ^ r /\ 0 <= rem < den /\ 0 < low < 10 ^ 28 /\
    (rem = 0 /\ r = 0 \/ minMantissa <= low).
Proof.
  intros Hd HX. unfold ratio_grow.
  pose proof (Z.div_mod X den ltac:(lia)) as Hdm. pose proof (Z.mod_pos_bound X den ltac:(lia)) as Hmod.
  assert (1 <= X / den) as Hlow by (apply Z.div_le_lower_bound; lia).
  assert (X / den < 2 ^ 90) as Hlow2 by (apply Z.div_lt_upper_bound; nia).
  set (low := X / den) in *. set (rem := X mod den) in *.
  destruct (Z.eqb_spec rem 0) as [E0|Hrem].
  { exists low, rem, 0. rewrite Z.sub_0_r, Z.pow_0_r. repeat split; try lia. }
  destruct (log10Ceil_spec low ltac:(lia)) as (Hc & Hup & Hlo). set (c := log10Ceil low) in *.
  destruct (Z.ltb_spec 0 (18 - c)) as [Hroom|Hroom].
  - rewrite powerTable_Val by lia. cbn.
    assert (low * 10 ^ (18 - c) <= 10 ^ 18).
    { replace 18 with (c + (18 - c)) at 2 by lia. rewrite Z.pow_add_r by lia. nia. }
    assert (0 < 10 ^ (18 - c) <= 10 ^ 18) by (split; [lia|apply Z.pow_le_mono_r; lia]).
    assert (rem * 10 ^ (18 - c) < 2 ^ 32 * 10 ^ 18) by nia.
    rewrite (u128_small (low * _)), (u128_small (rem * _)) by nia.
    set (R := rem * 10 ^ (18 - c)) in *. assert (0 <= R) by (subst R; nia).
    pose proof (Z.div_mod R den ltac:(lia)). pose proof (Z.mod_pos_bound R den ltac:(lia)).
    assert (0 <= R / den < 10 ^ 18) by (split; [apply Z.div_pos; lia|apply Z.div_lt_upper_bound; nia]).
    rewrite (u128_small (low * _ + _)), (u128_small (R - _)) by lia.
    exists (low * 10 ^ (18 - c) + R / den), (R - R / den * den), (18 - c).
    split; [done|]. split; [lia|]. split; [subst R; nia|]. split; [lia|].
    assert (10 ^ 17 <= low * 10 ^ (18 - c)).
    { destruct Hlo as [E|Hlo]; [rewrite E in *; change (10 ^ (18 - 0)) with (10 ^ 18); lia|].
      replace 17 with (c - 1 + (18 - c)) by lia. destruct (Z.eq_dec c 0) as [->|]; [cbn; lia|].
      rewrite Z.pow_add_r by lia. nia. }
    split; [lia|]. right. unfold_range. lia.
  - cbn. assert (rem / den = 0) as -> by (apply Z.div_small; lia).
    rewrite Z.add_0_r, Z.mul_0_l, Z.sub_0_r, !u128_small by lia.
    exists low, rem, 0. rewrite Z.sub_0_r, Z.pow_0_r. repeat split; try lia. right.
    destruct Hlo as [E|Hlo]; [lia|].
    assert (10 ^ 17 <= 10 ^ (c - 1)) by (apply Z.pow_le_mono_r; lia). unfold_range. lia.
Qed.

Lemma ratio_shrink_spec low e hasRem :
  0 < low < 10 ^ 28 ->
  exists s h, ratio_shrink 18 low e hasRem = Val (low / 10 ^ s, h, e + s) /\ 0 <= s <= 28 /\
    0 < low / 10 ^ s <= 10 ^ 18 /\ (s = 0 \/ minMantissa <= low / 10 ^ s).
Proof.
  intros Hl. unfold ratio_shrink. destruct (log10Ceil_spec low ltac:(lia)) as (Hc & Hup & Hlo).
  set (c := log10Ceil low) in *. destruct (Z.ltb_spec 0 (c - 18)) as [Hs|Hs].
  - rewrite powerTable_Val by lia. cbn. do 2 eexists. split; [done|]. split; [lia|].
    destruct Hlo as [?|Hlo]; [lia|]. assert (0 < 10 ^ (c - 18)) by lia.
    assert (10 ^ 17 <= low / 10 ^ (c - 18)).
    { apply Z.div_le_lower_bound; [lia|]. rewrite <- Z.pow_add_r by lia.
      replace (c - 18 + 17) with (c - 1) by lia. lia. }
    assert (low / 10 ^ (c - 18) <= 10 ^ 18).
    { apply Z.div_le_upper_bound; [lia|]. rewrite <- Z.pow_add_r by lia.
      by replace (c - 18 + 18) with c by lia. }
    split; [lia|]. right. unfold_range. lia.
  - exists 0, hasRem. rewrite Z.div_1_r, Z.add_0_r. assert (10 ^ c <= 10 ^ 18) by (apply Z.pow_le_mono_r; lia).
    repeat split; try lia.
Qed.

(** Powers of ten cancel. *)
Lemma scale_le a b x y k : 0 <= k -> 0 <= x -> 0 <= y ->
  a * 10 ^ (x + k) <= b * 10 ^ (y + k) -> a * 10 ^ x <= b * 10 ^ y.
Proof.
  intros Hk Hx Hy H. rewrite !Z.pow_add_r, !Z.mul_assoc in H by lia.
  apply Z.mul_le_mono_pos_r in H; [done|lia].
Qed.

Lemma scale_lt a b x y k : 0 <= k -> 0 <= x -> 0 <= y ->
  a * 10 ^ (x + k) < b * 10 ^ (y + k) -> a * 10 ^ x < b * 10 ^ y.
Proof.
  intros Hk Hx Hy H. rewrite !Z.pow_add_r, !Z.mul_assoc in H by lia.
  apply Z.mul_lt_mono_pos_r in H; [done|lia].
Qed.

(** The truncated quotient [q = X * 10^r / (den * 10^s)] at exponent [s - r]. *)
Lemma quotient_bounds X den r s low rem :
  0 < den -> 0 <= r -> 0 <= s -> low * den + rem = X * 10 ^ r -> 0 <= rem < den -> 0 <= low ->
  let q := low / 10 ^ s in
  q * den * 10 ^ s <= X * 10 ^ r < (q + 1) * den * 10 ^ s.
Proof.
  intros Hd Hr Hs E Hrem Hlow q. assert (0 < 10 ^ s) by lia.
  pose proof (Z.div_mod low (10 ^ s) ltac:(lia)) as Hdm. fold q in Hdm.
  pose proof (Z.mod_pos_bound low (10 ^ s) ltac:(lia)). nia.
Qed.


(** The result of a truncating ratio, by the quotient it was normalised from. *)
Lemma mulRatio_quotient a num den c :
  iou_valid a = true -> 0 < mantissa a -> 0 < num < 2 ^ 32 -> 0 < den < 2 ^ 32 ->
  mulRatio a num den false = Val c ->
  exists low rem r s, 0 <= r /\ 0 <= s /\ low * den + rem = mantissa a * num * 10 ^ r /\
    0 <= rem < den /\ 0 < low /\ 0 < low / 10 ^ s <= 10 ^ 18 /\
    (low / 10 ^ s < minMantissa -> s = 0 /\ r = 0 /\ rem = 0) /\
    normalize (mkIOU (low / 10 ^ s) (exponent a - r + s)) = Val c.
Proof.
  intros Ha Hm Hn Hd H. apply iou_valid_cases in Ha as [->|[Hma He]]; [done|].
  set (X := mantissa a * num). assert (den <= X < 2 ^ 90) as HX by (unfold X; unfold_range; nia).
  unfold mulRatio in H. rewrite (proj2 (Z.eqb_neq den 0)), (proj2 (Z.ltb_ge _ 0)) in H by lia.
  change fl64 with (@Val cxx_exception Z 18) in H. cbn [mbind res_bind] in H. fold X in H.
  rewrite (u128_small X) in H by lia.
  pose proof (Z.div_mod X den ltac:(lia)). pose proof (Z.mod_pos_bound X den ltac:(lia)).
  rewrite (u128_small (X - _)) in H by lia.
  replace (X - X / den * den) with (X mod den) in H by lia.
  destruct (ratio_grow_spec X den (exponent a) Hd HX) as (low & rem & r & E & Hr & Hx & Hrem & Hlow & Hfull).
  rewrite E in H. cbn [mbind res_bind] in H.
  destruct (ratio_shrink_spec low (exponent a - r) (negb (rem =? 0)) Hlow) as (s & h & E' & Hs & Hq & Hfull').
  rewrite E' in H. cbn [mbind res_bind] in H. rewrite i64_small in H by lia.
  exists low, rem, r, s. repeat (split; [lia || done|]). split.
  - intros Hlt. destruct Hfull' as [->|?]; [|lia]. rewrite Z.div_1_r in Hlt. lia.
  - unfold makeIOU in H. res_inv. unfold ratio_round in Hk. destruct h; cbn in Hk; congruence.
Qed.

(** From the bounds of the quotient to the bounds of the amount. *)
Lemma floor_at M X den r t e :
  0 <= r -> 0 <= t -> 0 <= e + 96 -> 0 <= e - r + t + 96 ->
  M * den * 10 ^ t <= X * 10 ^ r < (M + 1) * den * 10 ^ t ->
  let U := 10 ^ (e - r + t + 96) in
  M * U * den <= X * 10 ^ (e + 96) < (M * U + U) * den.
Proof.
  intros Hr Ht He Hec [Hlo Hhi] U.
  replace (M * U * den) with (M * den * U) by ring.
  replace ((M * U + U) * den) with ((M + 1) * den * U) by ring.
  assert (forall y, y * den * 10 ^ (e - r + t + 96 + r) = y * den * 10 ^ t * 10 ^ (e + 96)) as Ey.
  { intros y. rewrite <- (Z.mul_assoc (y * den) (10 ^ _) (10 ^ _)), <- Z.pow_add_r by lia. do 2 f_equal. lia. }
  assert (0 < 10 ^ (e + 96)) by lia.
  split; [apply (scale_le _ _ _ _ r)|apply (scale_lt _ _ _ _ r)]; try lia;
    rewrite Ey, (Z.pow_add_r _ _ r) by lia; nia.
Qed.

(** A ratio that is not rounded up is the largest amount of its exponent
    that does not exceed the exact product: [c * den <= a * num], and adding one
    unit in the last place exceeds it, unless the result underflowed to zero. *)
Theorem mulRatio_floor a num den c :
  iou_valid a = true -> 0 < mantissa a -> 0 < num < 2 ^ 32 -> 0 < den < 2 ^ 32 ->
  mulRatio a num den false = Val c ->
  iou_num c * den <= iou_num a * num /\
  (c = iou_zero \/ iou_num a * num < (iou_num c + 10 ^ (exponent c + 96)) * den).
Proof.
  intros Ha Hm Hn Hd H.
  destruct (mulRatio_quotient a num den c Ha Hm Hn Hd H)
    as (low & rem & r & s & Hr & Hs & Hx & Hrem & Hlow & Hq & Hfull & Hc).
  apply iou_valid_cases in Ha as [->|[Hma He]]; [done|].
  set (X := mantissa a * num) in *. set (e := exponent a) in *.
  assert (iou_num a * num = X * 10 ^ (e + 96)) as ->
    by (unfold iou_num; rewrite (proj2 (Z.eqb_neq _ 0)) by lia; unfold X, e; ring).
  assert (0 <= X * 10 ^ (e + 96)) by (assert (0 < 10 ^ (e + 96)) by (unfold_range; lia); unfold X; nia).
  destruct (normalize_spec (low / 10 ^ s) (e - r + s) ltac:(lia) ltac:(lia))
    as [[E _]|[[E _]|(M & j & Hj & HM & Hc')]]; rewrite ?E in Hc; [done| |].
  { injection Hc as <-. auto. }
  assert (0 < 10 ^ r /\ 0 < 10 ^ (e + 96)) as [Hp1 Hp2] by (unfold_range; lia).
  rewrite Z.sgn_pos, Z.abs_eq in Hc' by lia.
  destruct Hc' as [(EM & Hej & E)|(EM & Hbig & Hej & E)]; rewrite E in Hc; injection Hc as <-;
    unfold iou_num; cbn [mantissa exponent]; rewrite (proj2 (Z.eqb_neq _ 0)) by (unfold_range; lia);
    rewrite !Z.mul_1_l.
  - pose proof (quotient_bounds X den r s low rem ltac:(lia) Hr Hs Hx Hrem ltac:(lia)) as Hb.
    set (q := low / 10 ^ s) in *.
    assert (M * 10 ^ (e - r + s - j + 96) = q * 10 ^ (e - r + s + 96)) as ->.
    { rewrite EM, <- Z.mul_assoc, <- Z.pow_add_r by (unfold_range; lia). do 2 f_equal. lia. }
    apply (floor_at q X den r s e) in Hb as [Hlo Hhi]; [|unfold_range; lia..].
    split; [done|]. right. destruct (Z.eq_dec j 0) as [->|Hj0]; [by rewrite Z.sub_0_r|].
    assert (10 ^ 1 <= 10 ^ j) by (apply Z.pow_le_mono_r; lia).
    destruct Hfull as (-> & -> & ->); [unfold_range; nia|].
    subst q. rewrite Z.pow_0_r, Z.div_1_r in *. replace (e - 0 + 0) with e in * by lia.
    rewrite Z.mul_1_r in Hx. assert (0 < 10 ^ (e - j + 96)) by (unfold_range; lia). nia.
  - rewrite Z.div_div, <- Z.pow_add_r in EM by lia.
    pose proof (quotient_bounds X den r (s + j) low rem ltac:(lia) Hr ltac:(lia) Hx Hrem ltac:(lia)) as Hb.
    rewrite <- EM in *. apply (floor_at M X den r (s + j) e) in Hb as [Hlo Hhi]; [|unfold_range; lia..].
    replace (e - r + (s + j) + 96) with (e - r + s + j + 96) in * by lia. auto.
Qed.

(** ** Examples *)

Definition sample_amount : IOUAmount := mkIOU 2500000000000000 (-15).
Definition sample_debt : IOUAmount := mkIOU (-1100000000000000) (-17).

Lemma iou_ltb_num_witness :
  iou_ltb sample_debt sample_amount = true <-> iou_num sample_debt < iou_num sample_amount.
Proof. apply (iou_ltb_num sample_debt sample_amount); reflexivity. Defined.

Lemma iou_add_valid_witness :
  iou_add sample_amount sample_debt = Err overflow_error \/
  exists c, iou_add sample_amount sample_debt = Val c /\ iou_valid c = true.
Proof. apply (iou_add_valid sample_amount sample_debt); reflexivity. Defined.

Lemma iou_add_accuracy_witness :
  Z.abs (iou_num (mkIOU 2489000000000000 (-15)) - (iou_num sample_amount + iou_num sample_debt)) <=
    11 * 10 ^ (Z.max (-15) (-17) + 96) \/
  (mkIOU 2489000000000000 (-15) = iou_zero /\ Z.abs (iou_num sample_amount + iou_num sample_debt) <
     minMantissa + 10 ^ (Z.max (-15) (-17) + 96)).
Proof. apply (iou_add_accuracy sample_amount sample_debt); vm_compute; reflexivity. Defined.

Lemma mulRatio_floor_witness :
  let c := mkIOU 8333333333333333 (-16) in
  iou_num c * 3 <= iou_num sample_amount * 1 /\
  (c = iou_zero \/ iou_num sample_amount * 1 < (iou_num c + 10 ^ (exponent c + 96)) * 3).
Proof.
  apply (mulRatio_floor sample_amount 1 3 (mkIOU 8333333333333333 (-16)));
    vm_compute; first [reflexivity|split; reflexivity].
Defined.
