(* ===== verification/StAmount.v ===== *)
(** * StAmount: amounts and their arithmetic ([protocol/STAmount.h], [protocol/impl/STAmount.cpp], [protocol/impl/Rate2.cpp])

    An [STAmount] is a number of drops of XRP or a decimal floating point number of an
    issued currency: a mantissa of sixteen digits, an exponent and a sign.  Sums,
    comparisons, products and quotients are those of transactions; the switch that
    replays old ledgers with the former canonical form is on.

    The theorems: on issued amounts addition and comparison are those of [IOUAmount],
    products and quotients with directed rounding are within one unit of the last place
    of the exact result, and rounding down never exceeds it. *)

From stdpp Require Import base numbers list option.
From Stdlib Require Import ZArith Lia.
From S2P Require Import Prelude Leb128 Double Xfl IouAmount.

Local Open Scope Z_scope.

(** ** The data *)

Record Issue := mkIssue { currency : Z; issuer : Z }.

#[export] Instance Issue_eq_dec : EqDecision Issue.
Proof. solve_decision. Defined.

Definition xrpIssue : Issue := mkIssue 0 0.
Definition noIssue : Issue := mkIssue 1 1.

Record STAmount := mkAmount {
  mValue : Z;
  mOffset : Z;
  mIsNative : bool;
  mIsNegative : bool;
  mIssue : Issue
}.

#[export] Instance STAmount_eq_dec : EqDecision STAmount.
Proof. solve_decision. Defined.

Definition isXRP (a : STAmount) : bool := currency (mIssue a) =? 0.
Definition getIssuer (a : STAmount) : Z := issuer (mIssue a).
Definition getCurrency (a : STAmount) : Z := currency (mIssue a).

(** [signum], and the comparisons with [beast::zero]. *)
Definition st_signum (a : STAmount) : Z := if mValue a =? 0 then 0 else if mIsNegative a then -1 else 1.
Definition is_zero (a : STAmount) : bool := st_signum a =? 0.

(** ** The canonical form *)

Definition cMinValue : Z := 1000000000000000.
Definition cMaxValue : Z := 9999999999999999.
Definition cMaxNativeN : Z := 100000000000000000.
Definition cNotNative : Z := 0x8000000000000000.
Definition cPosNative : Z := 0x4000000000000000.

(** Dropping the digits behind the point of a native amount. *)
Definition native_down (n : nat) (v : Z) : Z := Nat.iter n (fun v => v / 10) v.

Fixpoint native_up (n : nat) (v : Z) : fres Z :=
  match n with
  | O => Val v
  | S n => if cMaxNativeN <? v then Err runtime_error else native_up n (u64 (v * 10))
  end.

Definition canonicalize_native (issue : Issue) (value offset : Z) (negative : bool) : fres STAmount :=
  if (value =? 0) || (offset <=? -20) then Val (mkAmount 0 0 true false issue)
  else if 17 <? offset then Err runtime_error
  else
    value ← (if offset <? 0 then Val (native_down (Z.to_nat (- offset)) value) else native_up (Z.to_nat offset) value);
    if cMaxNativeN <? value then Err runtime_error else Val (mkAmount value 0 true negative issue).

(** The two loops are those of [IOUAmount::normalize]. *)
Definition canonicalize (issue : Issue) (value offset : Z) (negative : bool) : fres STAmount :=
  if currency issue =? 0 then canonicalize_native issue value offset negative
  else if value =? 0 then Val (mkAmount 0 (-100) false false issue)
  else
    let '(value, offset) := grow 20 value offset in
    match shrink 20 value offset with
    | Val (value, offset) =>
      if (offset <? minExponent) || (value <? cMinValue) then Val (mkAmount 0 (-100) false false issue)
      else if maxExponent <? offset then Err runtime_error
      else Val (mkAmount value offset false negative issue)
    | Err _ => Err runtime_error
    | Undef => Undef
    end.

(** [STAmount(issue)]: zero. *)
Definition zeroed (issue : Issue) : STAmount :=
  if currency issue =? 0 then mkAmount 0 0 true false issue else mkAmount 0 (-100) false false issue.

(** [STAmount(mantissa)]: a number of drops. *)
Definition xrp_amount (drops : Z) : STAmount := mkAmount (Z.abs drops) 0 true (drops <? 0) xrpIssue.

(** [STAmount(IOUAmount, issue)] *)
Definition of_iou (a : IOUAmount) (issue : Issue) : fres STAmount :=
  canonicalize issue (Z.abs (mantissa a)) (exponent a) (mantissa a <? 0).

(** [xrp] and [getSNValue]; both throw on an issued amount. *)
Definition xrp (a : STAmount) : fres Z :=
  if mIsNative a then Val (if mIsNegative a then - mValue a else mValue a) else Err runtime_error.

(** ** Sums and comparisons *)

Definition areComparable (a b : STAmount) : bool :=
  Bool.eqb (mIsNative a) (mIsNative b) && (getCurrency a =? getCurrency b).

Definition signed (a : STAmount) : Z := if mIsNegative a then - mValue a else mValue a.

Definition st_add (v1 v2 : STAmount) : fres STAmount :=
  if negb (areComparable v1 v2) then Err runtime_error
  else if is_zero v2 then Val v1
  else if is_zero v1 then canonicalize (mIssue v1) (mValue v2) (mOffset v2) (mIsNegative v2)
  else if mIsNative v1 then
    d1 ← xrp v1; d2 ← xrp v2;
    if i64_fits (d1 + d2) then Val (xrp_amount (d1 + d2)) else Undef
  else
    let ov := Z.max (mOffset v1) (mOffset v2) in
    let fv := align (signed v1) (mOffset v1) ov + align (signed v2) (mOffset v2) ov in
    if negb (i64_fits fv) then Undef
    else if (-10 <=? fv) && (fv <=? 10) then Val (zeroed (mIssue v1))
    else canonicalize (mIssue v1) (Z.abs fv) ov (fv <? 0).

Definition st_neg (a : STAmount) : STAmount :=
  if mValue a =? 0 then a else mkAmount (mValue a) (mOffset a) (mIsNative a) (negb (mIsNegative a)) (mIssue a).

Definition st_sub (v1 v2 : STAmount) : fres STAmount := st_add v1 (st_neg v2).

Definition st_eqb (lhs rhs : STAmount) : bool :=
  areComparable lhs rhs && Bool.eqb (mIsNegative lhs) (mIsNegative rhs) &&
  (mOffset lhs =? mOffset rhs) && (mValue lhs =? mValue rhs).

Definition st_ltb (lhs rhs : STAmount) : fres bool :=
  if negb (areComparable lhs rhs) then Err runtime_error
  else Val (
    if negb (Bool.eqb (mIsNegative lhs) (mIsNegative rhs)) then mIsNegative lhs
    else if mValue lhs =? 0 then if mIsNegative rhs then false else negb (mValue rhs =? 0)
    else if mValue rhs =? 0 then false
    else if mOffset rhs <? mOffset lhs then mIsNegative lhs
    else if mOffset lhs <? mOffset rhs then negb (mIsNegative lhs)
    else if mValue rhs <? mValue lhs then mIsNegative lhs
    else if mValue lhs <? mValue rhs then negb (mIsNegative lhs)
    else false).

(** [lhs > rhs] and [lhs <= rhs]. *)
Definition st_gtb (lhs rhs : STAmount) : fres bool := st_ltb rhs lhs.
Definition st_leb (lhs rhs : STAmount) : fres bool := b ← st_ltb rhs lhs; Val (negb b).

(** ** Products and quotients *)

Definition tenTo14 : Z := 100000000000000.
Definition tenTo17 : Z := 100000000000000000.

(** [muldiv] is [muldiv_round] without rounding; the product has 128 bits. *)
Definition muldiv_round (multiplier multiplicand divisor rounding : Z) : fres Z :=
  let ret := (multiplier * multiplicand + rounding) / divisor in
  if 2 ^ 64 - 1 <? ret then Err overflow_error else Val ret.

(** [while (value < cMinValue) { value *= 10; --offset; }] on a native operand: at most fifteen rounds. *)
Fixpoint scale_native (fuel : nat) (value offset : Z) : fres (Z * Z) :=
  match fuel with
  | O => Undef
  | S fuel => if value <? cMinValue then scale_native fuel (value * 10) (offset - 1) else Val (value, offset)
  end.

Definition operand (a : STAmount) : fres (Z * Z) :=
  if mIsNative a then scale_native 17 (mValue a) (mOffset a) else Val (mValue a, mOffset a).

(** The product of two amounts of XRP in drops. *)
Definition native_product (v1 v2 : STAmount) : fres STAmount :=
  d1 ← xrp v1; d2 ← xrp v2;
  let minV := u64 (Z.min d1 d2) in
  let maxV := u64 (Z.max d1 d2) in
  if 3000000000 <? minV then Err runtime_error
  else if 2095475792 <? u64 (Z.shiftr maxV 32 * minV) then Err runtime_error
  else Val (mkAmount (u64 (minV * maxV)) 0 true false xrpIssue).

Definition st_multiply (v1 v2 : STAmount) (issue : Issue) : fres STAmount :=
  if is_zero v1 || is_zero v2 then Val (zeroed issue)
  else if mIsNative v1 && mIsNative v2 && (currency issue =? 0) then native_product v1 v2
  else
    '(value1, offset1) ← operand v1;
    '(value2, offset2) ← operand v2;
    v ← muldiv_round value1 value2 tenTo14 0;
    canonicalize issue (u64 (v + 7)) (offset1 + offset2 + 14) (xorb (mIsNegative v1) (mIsNegative v2)).

Definition st_divide (num den : STAmount) (issue : Issue) : fres STAmount :=
  if is_zero den then Err runtime_error
  else if is_zero num then Val (zeroed issue)
  else
    '(numVal, numOffset) ← operand num;
    '(denVal, denOffset) ← operand den;
    v ← muldiv_round numVal tenTo17 denVal 0;
    canonicalize issue (u64 (v + 5)) (numOffset - denOffset - 17) (xorb (mIsNegative num) (mIsNegative den)).

(** *** Directed rounding *)

(** [while (value > 10 * cMaxValue) { value /= 10; ++offset; }]: a 64-bit value takes at most four rounds. *)
Fixpoint cut_digits (fuel : nat) (value offset : Z) : Z * Z :=
  match fuel with
  | O => (value, offset)
  | S fuel => if 10 * cMaxValue <? value then cut_digits fuel (value / 10) (offset + 1) else (value, offset)
  end.

(** The value is raised before the last division. *)
Definition canonicalizeRound (native : bool) (value offset : Z) : Z * Z :=
  if native then
    if offset <? 0 then
      let loops := Z.max 0 (-1 - offset) in
      let value := native_down (Z.to_nat loops) value in
      (u64 (value + (if 2 <=? loops then 9 else 10)) / 10, 0)
    else (value, offset)
  else if cMaxValue <? value then
    let '(value, offset) := cut_digits 5 value offset in
    (u64 (value + 9) / 10, offset + 1)
  else (value, offset).

(** The end of [mulRound] and [divRound]. *)
Definition round_result (issue : Issue) (amount offset : Z) (resultNegative roundUp : bool) : fres STAmount :=
  let native := currency issue =? 0 in
  let '(amount, offset) := if xorb resultNegative roundUp then canonicalizeRound native amount offset else (amount, offset) in
  result ← canonicalize issue amount offset resultNegative;
  if roundUp && negb resultNegative && is_zero result then
    if native then canonicalize issue 1 0 resultNegative
    else canonicalize issue cMinValue minExponent resultNegative
  else Val result.

Definition mulRound (v1 v2 : STAmount) (issue : Issue) (roundUp : bool) : fres STAmount :=
  if is_zero v1 || is_zero v2 then Val (zeroed issue)
  else if mIsNative v1 && mIsNative v2 && (currency issue =? 0) then native_product v1 v2
  else
    '(value1, offset1) ← operand v1;
    '(value2, offset2) ← operand v2;
    let resultNegative := xorb (mIsNegative v1) (mIsNegative v2) in
    amount ← muldiv_round value1 value2 tenTo14 (if xorb resultNegative roundUp then tenTo14 - 1 else 0);
    round_result issue amount (offset1 + offset2 + 14) resultNegative roundUp.

Definition divRound (num den : STAmount) (issue : Issue) (roundUp : bool) : fres STAmount :=
  if is_zero den then Err runtime_error
  else if is_zero num then Val (zeroed issue)
  else
    '(numVal, numOffset) ← operand num;
    '(denVal, denOffset) ← operand den;
    let resultNegative := xorb (mIsNegative num) (mIsNegative den) in
    amount ← muldiv_round numVal tenTo17 denVal (if xorb resultNegative roundUp then denVal - 1 else 0);
    round_result issue amount (numOffset - denOffset - 17) resultNegative roundUp.

(** *** Transfer rates: billionths *)

Definition QUALITY_ONE : Z := 1000000000.
Definition as_amount (rate : Z) : fres STAmount := canonicalize noIssue rate (-9) false.

Definition multiplyRound (amount : STAmount) (rate : Z) (issue : Issue) (roundUp : bool) : fres STAmount :=
  if rate =? QUALITY_ONE then Val amount
  else r ← as_amount rate; mulRound amount r issue roundUp.

(** *** Loss of precision *)

Definition st_abs (a : STAmount) : STAmount := if mIsNegative a then st_neg a else a.
Definition setIssue (issue : Issue) (a : STAmount) : STAmount :=
  mkAmount (mValue a) (mOffset a) (currency issue =? 0) (mIsNegative a) issue.

(** XRP as a number of units, to compare it with an issued amount. *)
Definition as_units (a : STAmount) : fres STAmount :=
  a ← (if isXRP a then d ← xrp a; i ← makeIOU d (-6); of_iou i noIssue else Val a);
  Val (setIssue noIssue a).

Definition isAddable (amt1 amt2 : STAmount) : fres bool :=
  if is_zero amt1 || is_zero amt2 then Val true
  else if isXRP amt1 && isXRP amt2 then
    a ← xrp amt1; b ← xrp amt2;
    let a := Z.abs a in
    let b := Z.abs b in
    if i64_fits (a + b) then Val ((a <=? a + b) && (b <=? a + b)) else Undef
  else
    one ← makeIOU 1 0; one ← of_iou one noIssue;
    maxLoss ← makeIOU 1 (-4); maxLoss ← of_iou maxLoss noIssue;
    a ← as_units amt1;
    b ← as_units amt2;
    x ← st_sub a b; x ← st_add x b; x ← st_divide x a noIssue; lhs ← st_sub x one;
    y ← st_sub b a; y ← st_add y a; y ← st_divide y b noIssue; rhs ← st_sub y one;
    s ← st_add (st_abs rhs) (st_abs lhs);
    st_leb s maxLoss.

(** ** Issued amounts *)

Definition issued (a : STAmount) : Prop :=
  mIsNative a = false /\ getCurrency a <> 0 /\
  ((mValue a = 0 /\ mOffset a = -100 /\ mIsNegative a = false) \/
   (cMinValue <= mValue a <= cMaxValue /\ minExponent <= mOffset a <= maxExponent)).

(** The number as an [IOUAmount], and back. *)
Definition st_iou (a : STAmount) : IOUAmount := mkIOU (signed a) (mOffset a).
Definition to_st (issue : Issue) (c : IOUAmount) : STAmount :=
  mkAmount (Z.abs (mantissa c)) (exponent c) false (mantissa c <? 0) issue.

(** The number an issued amount stands for, in units of [10^-96]. *)
Definition st_num (a : STAmount) : Z := iou_num (st_iou a).

(** The result of [IOUAmount] arithmetic as an amount of an issue. *)
Definition st_result (issue : Issue) (r : fres IOUAmount) : fres STAmount :=
  match r with Val c => Val (to_st issue c) | Err _ => Err runtime_error | Undef => Undef end.

Lemma issued_valid a : issued a -> iou_valid (st_iou a) = true.
Proof.
  intros (_ & _ & [(Hv & Ho & Hn)|[Hv Ho]]); apply iou_valid_cases; unfold st_iou, signed; cbn [mantissa exponent].
  - left. rewrite Hv, Ho, Hn. done.
  - right. unfold cMinValue, cMaxValue in Hv. unfold_range. destruct (mIsNegative a); lia.
Qed.

Lemma to_st_iou a : issued a -> to_st (mIssue a) (st_iou a) = a.
Proof.
  destruct a as [v o n g i]. unfold issued, to_st, st_iou, signed, cMinValue, cMaxValue. cbn.
  intros (-> & _ & [(-> & -> & ->)|[Hv Ho]]); [done|]. f_equal; destruct g; lia.
Qed.

Lemma st_iou_to issue c : st_iou (to_st issue c) = c.
Proof. destruct c as [m e]. unfold st_iou, to_st, signed. cbn. f_equal. destruct (Z.ltb_spec m 0); lia. Qed.

Lemma to_st_issued issue c : currency issue <> 0 -> iou_valid c = true -> issued (to_st issue c).
Proof.
  intros Hi [->|[Hm He]]%iou_valid_cases; (split; [done|]; split; [done|]); [by left|right].
  unfold to_st, cMinValue, cMaxValue. cbn. unfold_range. lia.
Qed.

Lemma canonicalize_normalize issue v o neg : currency issue <> 0 -> 0 <= v < 2 ^ 63 ->
  canonicalize issue v o neg = st_result issue (normalize (mkIOU (if neg then - v else v) o)).
Proof.
  intros Hi Hv. unfold canonicalize. rewrite (proj2 (Z.eqb_neq _ _)) by done.
  destruct (Z.eqb_spec v 0) as [->|H0]; [by destruct neg|].
  unfold normalize. cbn [mantissa exponent]. set (m := if neg then - v else v).
  assert ((m =? 0) = false /\ (m <? 0) = neg) as [-> ->] by (unfold m; destruct neg; lia).
  assert ((if neg then mul64 m (-1) else Val m) = Val v) as -> by (unfold m; destruct neg; [rewrite mul64_neg by lia; f_equal; lia|done]).
  cbn [mbind res_bind]. destruct (grow 20 v o) as [v1 o1] eqn:Eg.
  destruct (grow_20 v o ltac:(lia)) as (j & Hj & Eg' & _). rewrite Eg in Eg'. injection Eg' as -> ->.
  destruct (shrink 20 (v * 10 ^ j) (o - j)) as [[v2 o2]| |] eqn:Es; cbn [mbind res_bind st_result]; [|done..].
  change minMantissa with cMinValue. destruct ((o2 <? minExponent) || (v2 <? cMinValue)) eqn:E; [done|].
  destruct (maxExponent <? o2); [done|]. apply orb_false_iff in E as [_ E%Z.ltb_ge]. unfold cMinValue in E.
  cbn [st_result]. unfold to_st. cbn [mantissa exponent].
  rewrite (proj1 (Z.eqb_eq (Z.abs (if neg then - v2 else v2)) v2)) by (destruct neg; lia). do 2 f_equal. destruct neg; lia.
Qed.

Lemma is_zero_iou a : issued a -> is_zero a = iou_eqb (st_iou a) iou_zero.
Proof.
  intros (_ & _ & Ha). unfold is_zero, st_signum, iou_eqb, st_iou, signed, iou_zero. cbn.
  destruct Ha as [(-> & -> & ->)|[Hv Ho]]; [done|]. unfold cMinValue in Hv. unfold_range.
  rewrite (proj2 (Z.eqb_neq (mValue a) 0)) by lia. destruct (mIsNegative a);
    rewrite (proj2 (Z.eqb_neq (mOffset a) _)) by lia; done.
Qed.

Lemma issued_range a : issued a -> 0 <= mValue a < 2 ^ 63.
Proof. intros (_ & _ & [(-> & _)|[Hv _]]); [lia|]. unfold cMinValue, cMaxValue in Hv. lia. Qed.

(** Addition is that of [IOUAmount], in the issue of the first operand. *)
Lemma st_add_iou a b : issued a -> issued b -> getCurrency a = getCurrency b ->
  st_add a b = st_result (mIssue a) (iou_add (st_iou a) (st_iou b)).
Proof.
  intros Ha Hb Hc. pose proof Ha as (Na & Ca & _). pose proof Hb as (Nb & _).
  unfold st_add, areComparable, iou_add. rewrite Na, Nb, Hc, Z.eqb_refl. cbn [Bool.eqb andb negb].
  rewrite !is_zero_iou by done.
  destruct (iou_eqb (st_iou b) iou_zero); [cbn [st_result]; by rewrite to_st_iou|].
  destruct (iou_eqb (st_iou a) iou_zero).
  - rewrite canonicalize_normalize by (done || by apply issued_range).
    change (mkIOU (if mIsNegative b then _ else _) _) with (st_iou b). pose proof (issued_valid b Hb) as Hv.
    apply iou_valid_cases in Hv as [->|[Hm He]]; [done|]. cbn [st_result].
    destruct (st_iou b). by rewrite normalize_id.
  - cbn [st_iou mantissa exponent]. set (o := Z.max _ _). set (f := align _ _ _ + _).
    destruct (i64_fits f) eqn:Hf; cbn [negb]; [|done]. destruct ((-10 <=? f) && (f <=? 10)) eqn:Hz.
    { unfold zeroed. change (currency (mIssue a)) with (getCurrency a). by rewrite (proj2 (Z.eqb_neq _ _)). }
    assert (Z.abs f < 2 ^ 63) as Hr.
    { pose proof (align_abs (signed a) (mOffset a) o). pose proof (align_abs (signed b) (mOffset b) o).
      destruct Ha as (_ & _ & Ha), Hb as (_ & _ & Hb). unfold f, signed, cMinValue, cMaxValue in *. destruct (mIsNegative a), (mIsNegative b); lia. }
    rewrite canonicalize_normalize by (done || lia). do 3 f_equal. destruct (Z.ltb_spec f 0); lia.
Qed.

(** The order is that of the numbers. *)
Lemma st_ltb_iou a b : issued a -> issued b -> getCurrency a = getCurrency b -> st_ltb a b = Val (st_num a <? st_num b).
Proof.
  intros Ha Hb Hc. pose proof Ha as (Na & _). pose proof Hb as (Nb & _).
  unfold st_num. rewrite <- iou_ltb_iff by (by apply issued_valid).
  unfold st_ltb, areComparable. rewrite Na, Nb, Hc, Z.eqb_refl. cbn [Bool.eqb andb negb]. f_equal.
  destruct Ha as (_ & _ & Ha), Hb as (_ & _ & Hb). unfold cMinValue, cMaxValue in *.
  unfold iou_ltb, st_iou, signed. cbn [mantissa exponent].
  assert (((if mIsNegative a then - mValue a else mValue a) <? 0) = mIsNegative a) as -> by (destruct (mIsNegative a), Ha; lia).
  assert (((if mIsNegative b then - mValue b else mValue b) <? 0) = mIsNegative b) as -> by (destruct (mIsNegative b), Hb; lia).
  destruct (mIsNegative a) eqn:Ea, (mIsNegative b) eqn:Eb; cbn [Bool.eqb negb]; try done;
    destruct (Z.eqb_spec (mValue a) 0), (Z.eqb_spec (mValue b) 0); try lia;
    repeat case_match; bool_prop; lia.
Qed.

(** ** Products and quotients with directed rounding *)

(** [C] for [X] in units of [u]: below it by less than a unit, or, rounded away from
    zero, above it by less than a unit or below it by less than a tenth of one. *)
Definition approx (away : bool) (C X u : Z) : Prop :=
  if away then 10 * (X - C) < u /\ C - X < u else 0 <= X - C < u.

Definition smallest (issue : Issue) : STAmount := mkAmount cMinValue minExponent false false issue.

(** [r] is [X / Y] in units of [10^-96], rounded: out of range, below the smallest
    amount, or an amount in the canonical form. *)
Definition rounded (issue : Issue) (neg up : bool) (X Y : Z) (r : fres STAmount) : Prop :=
  (r = Err runtime_error /\ (cMaxValue - 9) * 10 ^ 176 * Y < X) \/
  (r = Val (if up && negb neg then smallest issue else zeroed issue) /\ X < cMinValue * Y) \/
  exists c, r = Val c /\ issued c /\ mIssue c = issue /\ mIsNegative c = neg /\
    approx (xorb neg up) (Z.abs (st_num c) * Y) X (10 ^ (mOffset c + 96) * Y).

Lemma canonicalize_mantissa issue M e neg : currency issue <> 0 -> cMinValue <= M <= cMaxValue ->
  canonicalize issue M e neg =
    if maxExponent <? e then Err runtime_error
    else if e <? minExponent then Val (zeroed issue) else Val (mkAmount M e false neg issue).
Proof.
  intros Hi HM. unfold canonicalize, zeroed. rewrite (proj2 (Z.eqb_neq (currency issue) 0)) by done. unfold cMinValue, cMaxValue in *.
  rewrite (proj2 (Z.eqb_neq M 0)) by lia.
  assert (grow 20 M e = (M, e)) as -> by (cbn [grow]; unfold minMantissa; by rewrite (proj2 (Z.ltb_ge M _)) by lia).
  assert (shrink 20 M e = Val (M, e)) as -> by (cbn [shrink]; unfold maxMantissa; by rewrite (proj2 (Z.ltb_ge _ M)) by lia).
  rewrite (proj2 (Z.ltb_ge M _)), orb_false_r by lia. unfold_range.
  destruct (Z.ltb_spec 80 e), (Z.ltb_spec e (-96)); done || lia.
Qed.

Lemma shrink_step n m e : maxMantissa < m ->
  shrink (S n) m e = if maxExponent <=? e then Err overflow_error else shrink n (m / 10) (e + 1).
Proof. intros Hm. cbn [shrink]. by rewrite (proj2 (Z.ltb_lt _ _)). Qed.

(** A mantissa of seventeen to nineteen digits is cut to sixteen. *)
Lemma canonicalize_cut issue q e neg : currency issue <> 0 -> 10 ^ 16 <= q < 10 ^ 19 ->
  exists M k, 1 <= k <= 3 /\ cMinValue <= M <= cMaxValue /\ M * 10 ^ k <= q < (M + 1) * 10 ^ k /\
    canonicalize issue q e neg = canonicalize issue M (e + k) neg.
Proof.
  intros Hi Hq.
  assert (forall k n M, 1 <= k <= 3 -> M = q / 10 ^ k -> cMinValue <= M <= cMaxValue ->
    (shrink 20 q e = if 80 <? e + k then Err overflow_error else shrink (S n) M (e + k)) ->
    exists M k, 1 <= k <= 3 /\ cMinValue <= M <= cMaxValue /\ M * 10 ^ k <= q < (M + 1) * 10 ^ k /\
      canonicalize issue q e neg = canonicalize issue M (e + k) neg) as Hfin.
  { intros k n M Hk HM Hr Hs. exists M, k. split; [done|]. split; [done|].
    assert (0 < 10 ^ k) by lia. pose proof (Z.div_mod q (10 ^ k) ltac:(lia)). pose proof (Z.mod_pos_bound q (10 ^ k) ltac:(lia)).
    split; [nia|]. rewrite (canonicalize_mantissa issue M) by done. unfold canonicalize, zeroed.
    rewrite (proj2 (Z.eqb_neq (currency issue) 0)), (proj2 (Z.eqb_neq q 0)) by (done || lia).
    assert (grow 20 q e = (q, e)) as -> by (cbn [grow]; unfold minMantissa; by rewrite (proj2 (Z.ltb_ge q _)) by lia).
    rewrite Hs. unfold_range. unfold cMinValue, cMaxValue in *. destruct (Z.ltb_spec 80 (e + k)); [done|].
    cbn [shrink]. unfold maxMantissa. rewrite (proj2 (Z.ltb_ge _ M)), (proj2 (Z.ltb_ge M _)), orb_false_r by lia.
    destruct (Z.ltb_spec (e + k) (-96)); [done|]. by rewrite (proj2 (Z.ltb_ge 80 _)). }
  assert (q / 10 / 10 = q / 10 ^ 2 /\ q / 10 ^ 2 / 10 = q / 10 ^ 3) as [E2 E3] by (split; by rewrite Z.div_div by lia).
  unfold cMinValue, cMaxValue in Hfin. change (10 ^ 2) with 100 in *. change (10 ^ 3) with 1000 in *.
  destruct (Z.le_gt_cases (q / 10) 9999999999999999); [|destruct (Z.le_gt_cases (q / 100) 9999999999999999)].
  - apply (Hfin 1 18%nat (q / 10)); [lia|done|Z.to_euclidean_division_equations; lia|].
    rewrite shrink_step by (unfold_range; lia). unfold_range.
    destruct (Z.leb_spec 80 e), (Z.ltb_spec 80 (e + 1)); done || lia.
  - apply (Hfin 2 17%nat (q / 100)); [lia|done|Z.to_euclidean_division_equations; lia|].
    rewrite !shrink_step, E2 by (unfold_range; lia). unfold_range. replace (e + 1 + 1) with (e + 2) by lia.
    destruct (Z.leb_spec 80 e), (Z.leb_spec 80 (e + 1)), (Z.ltb_spec 80 (e + 2)); done || lia.
  - apply (Hfin 3 16%nat (q / 1000)); [lia|done|Z.to_euclidean_division_equations; lia|].
    rewrite !shrink_step, E2, E3 by (rewrite ?E2; unfold_range; lia). unfold_range. replace (e + 1 + 1) with (e + 2) by lia. replace (e + 2 + 1) with (e + 3) by lia.
    destruct (Z.leb_spec 80 e), (Z.leb_spec 80 (e + 1)), (Z.leb_spec 80 (e + 2)), (Z.ltb_spec 80 (e + 3)); done || lia.
Qed.

(** Rounding away from zero keeps sixteen digits as well. *)
Lemma canonicalizeRound_spec q e : 10 ^ 16 <= q <= 10 ^ 18 ->
  exists M k, 1 <= k <= 3 /\ cMinValue <= M <= cMaxValue /\ 10 * (q - M * 10 ^ k) < 10 ^ k /\ 10 * (M * 10 ^ k - q) <= 9 * 10 ^ k /\
    canonicalizeRound false q e = (M, e + k).
Proof.
  intros Hq. unfold canonicalizeRound, cMinValue, cMaxValue. rewrite (proj2 (Z.ltb_lt _ q)) by lia.
  cbn [cut_digits]. unfold cMaxValue.
  destruct (Z.ltb_spec (10 * 9999999999999999) q) as [H1|H1]; [destruct (Z.ltb_spec (10 * 9999999999999999) (q / 10)) as [H2|H2]|].
  - rewrite (proj2 (Z.ltb_ge _ (q / 10 / 10))) by (Z.to_euclidean_division_equations; lia).
    rewrite u64_small by (Z.to_euclidean_division_equations; lia).
    exists ((q / 10 / 10 + 9) / 10), 3. change (10 ^ 3) with 1000. rewrite <- !Z.add_assoc.
    repeat split; try (Z.to_euclidean_division_equations; lia).
  - rewrite u64_small by (Z.to_euclidean_division_equations; lia).
    exists ((q / 10 + 9) / 10), 2. change (10 ^ 2) with 100. rewrite <- !Z.add_assoc.
    repeat split; try (Z.to_euclidean_division_equations; lia).
  - rewrite u64_small by lia. exists ((q + 9) / 10), 1. change (10 ^ 1) with 10.
    repeat split; try (Z.to_euclidean_division_equations; lia).
Qed.

Lemma round_result_spec issue q e neg up : currency issue <> 0 -> 10 ^ 16 <= q <= 10 ^ 18 ->
  exists M k, 1 <= k <= 3 /\ cMinValue <= M <= cMaxValue /\
    (if xorb neg up then 10 * (q - M * 10 ^ k) < 10 ^ k /\ 10 * (M * 10 ^ k - q) <= 9 * 10 ^ k else M * 10 ^ k <= q < (M + 1) * 10 ^ k) /\
    round_result issue q e neg up =
      if maxExponent <? e + k then Err runtime_error
      else if e + k <? minExponent then Val (if up && negb neg then smallest issue else zeroed issue)
      else Val (mkAmount M (e + k) false neg issue).
Proof.
  intros Hi Hq. unfold round_result. rewrite (proj2 (Z.eqb_neq (currency issue) 0)) by done.
  assert (exists M k, 1 <= k <= 3 /\ cMinValue <= M <= cMaxValue /\
    (if xorb neg up then 10 * (q - M * 10 ^ k) < 10 ^ k /\ 10 * (M * 10 ^ k - q) <= 9 * 10 ^ k else M * 10 ^ k <= q < (M + 1) * 10 ^ k) /\
    (let '(amount, offset) := if xorb neg up then canonicalizeRound false q e else (q, e) in canonicalize issue amount offset neg)
      = canonicalize issue M (e + k) neg) as (M & k & Hk & HM & Hr & E).
  { destruct (xorb neg up).
    - destruct (canonicalizeRound_spec q e Hq) as (M & k & Hk & HM & H1 & H2 & ->). by exists M, k.
    - destruct (canonicalize_cut issue q e neg Hi ltac:(lia)) as (M & k & Hk & HM & H1 & ->). by exists M, k. }
  exists M, k. split; [done|]. split; [done|]. split; [done|].
  destruct (if xorb neg up then _ else _) as [amount offset]. rewrite E, (canonicalize_mantissa issue M) by done.
  destruct (maxExponent <? e + k); [done|]. cbn [mbind res_bind].
  destruct (Z.ltb_spec (e + k) minExponent); cbn [mbind res_bind].
  - unfold is_zero, st_signum, zeroed. rewrite (proj2 (Z.eqb_neq (currency issue) 0)) by done. cbn [mValue Z.eqb andb].
    rewrite andb_true_r. destruct up, neg; try done. cbn [andb negb]. by rewrite canonicalize_mantissa.
  - unfold is_zero, st_signum. cbn [mValue]. rewrite (proj2 (Z.eqb_neq M 0)) by (unfold cMinValue in HM; lia).
    cbn [mIsNegative]. destruct neg; cbn [Z.eqb]; rewrite andb_false_r; done.
Qed.

(** [q] is [p / d] cut or rounded up to an integer; [d * W] is one unit of [q]. *)
Lemma rounded_quotient issue q e neg up p d W Y : currency issue <> 0 -> 10 ^ 16 <= q <= 10 ^ 18 -> 0 < d -> 0 < W -> -194 <= e ->
  (if xorb neg up then p <= q * d < p + d else q * d <= p < (q + 1) * d) -> Y * 10 ^ (e + 200) = d * W * 10 ^ 104 ->
  rounded issue neg up (p * W) Y (round_result issue q e neg up).
Proof.
  intros Hi Hq Hd HW He Hp HY. destruct (round_result_spec issue q e neg up Hi Hq) as (M & k & Hk & HM & Hr & ->).
  assert (0 < 10 ^ k) as HK by lia. set (K := 10 ^ k) in *. set (u := K * d).
  assert (0 < u) as Hu by (unfold u; nia). assert (10 <= K) by (unfold K; change 10 with (10 ^ 1) at 1; apply Z.pow_le_mono_r; lia).
  assert (approx (xorb neg up) (M * u) p u) as Ha.
  { unfold approx, u. destruct (xorb neg up); [destruct Hr; split; nia|nia]. }
  assert (Y * 10 ^ (e + k + 200) = u * W * 10 ^ 104) as HYk.
  { replace (e + k + 200) with (e + 200 + k) by lia. rewrite Z.pow_add_r by lia. fold K. rewrite Z.mul_assoc, HY. unfold u. ring. }
  assert ((M - 1) * u < p < (M + 1) * u) as Hpu by (unfold approx in Ha; destruct (xorb neg up); nia).
  assert (0 < Y) as HY0 by (assert (0 < 10 ^ (e + k + 200)) by lia; nia).
  unfold cMinValue, cMaxValue in HM. unfold rounded, cMaxValue, cMinValue. unfold_range.
  destruct (Z.ltb_spec 80 (e + k)) as [Hbig|Hbig]; [left|right; destruct (Z.ltb_spec (e + k) (-96)) as [Hsm|Hsm]; [left|right]].
  - split; [done|].
    assert (10 ^ 281 <= 10 ^ (e + k + 200)) by (apply Z.pow_le_mono_r; lia).
    assert (Y * 10 ^ 177 <= u * W) by (apply (Z.mul_le_mono_pos_r _ _ (10 ^ 104)); [lia|]; rewrite <- HYk; change (10 ^ 281) with (10 ^ 177 * 10 ^ 104) in *; nia).
    change (10 ^ 177) with (10 * 10 ^ 176) in *. nia.
  - split; [done|].
    assert (10 ^ (e + k + 200) <= 10 ^ 103) by (apply Z.pow_le_mono_r; lia).
    assert (10 * (u * W) <= Y). { apply (Z.mul_le_mono_pos_r _ _ (10 ^ 103)); [lia|]. change (10 ^ 104) with (10 * 10 ^ 103) in HYk. nia. }
    nia.
  - eexists. split; [done|]. split; [|split; [done|split; [done|]]].
    { split; [done|]. split; [done|]. right. cbn. unfold cMinValue, cMaxValue. unfold_range. lia. }
    assert (Y * 10 ^ (e + k + 96) = u * W) as E.
    { apply (Z.mul_reg_r _ _ (10 ^ 104)); [lia|]. rewrite <- HYk, <- Z.mul_assoc, <- Z.pow_add_r by lia. do 2 f_equal. lia. }
    unfold st_num, iou_num, st_iou, signed. cbn [mantissa exponent mValue mOffset mIsNegative].
    rewrite (proj2 (Z.eqb_neq _ 0)) by (destruct neg; lia). rewrite Z.abs_mul, (Z.abs_eq (10 ^ _)) by lia.
    assert (Z.abs (if neg then - M else M) = M) as -> by (destruct neg; lia).
    replace (M * 10 ^ (e + k + 96) * Y) with (M * u * W) by (rewrite <- (Z.mul_assoc M u W), <- E; ring).
    rewrite (Z.mul_comm _ Y), E. unfold approx in *. destruct (xorb neg up); nia.
Qed.

Lemma muldiv_round_spec a b d r : 0 <= a * b + r -> 0 < d -> (a * b + r) / d <= 10 ^ 18 -> muldiv_round a b d r = Val ((a * b + r) / d).
Proof. intros H0 Hd Hq. unfold muldiv_round. by rewrite (proj2 (Z.ltb_ge _ _)) by lia. Qed.

Lemma issued_operand a : issued a -> st_num a <> 0 ->
  is_zero a = false /\ operand a = Val (mValue a, mOffset a) /\ 10 ^ 15 <= mValue a < 10 ^ 16 /\ -96 <= mOffset a <= 80 /\
  Z.abs (st_num a) = mValue a * 10 ^ (mOffset a + 96).
Proof.
  intros (Hn & _ & Ha) H0. unfold is_zero, st_signum, operand. rewrite Hn.
  unfold st_num, iou_num, st_iou, signed in *. cbn [mantissa exponent] in *.
  destruct Ha as [(Hv & _ & Hg)|[Hv Ho]]; [by rewrite Hv, Hg in H0|]. unfold cMinValue, cMaxValue in Hv. unfold_range.
  assert (0 < 10 ^ (mOffset a + 96)) by lia. rewrite (proj2 (Z.eqb_neq (mValue a) 0)) by lia.
  destruct (mIsNegative a); (rewrite ?(proj2 (Z.eqb_neq (- mValue a) 0)), ?(proj2 (Z.eqb_neq (mValue a) 0)) by lia; rewrite Z.abs_mul, (Z.abs_eq (10 ^ _)) by lia; repeat split; try lia; f_equal; lia).
Qed.

(** C25: products and quotients with directed rounding.  On amounts of issued currencies other
    than zero, [mulRound] and [divRound] either fail because the exact result exceeds the largest
    amount, or give zero (or, rounding a positive result up, the smallest amount) because it is below
    the smallest amount, or give an amount in canonical form with the sign of the result: rounded
    towards zero it is below the exact result by less than one unit of its sixteenth digit, rounded
    away from zero it exceeds it by less than one unit and misses it by less than a tenth of one. *)
Theorem st_round_accuracy a b issue up : issued a -> issued b -> st_num a <> 0 -> st_num b <> 0 -> currency issue <> 0 ->
  let neg := xorb (mIsNegative a) (mIsNegative b) in
  rounded issue neg up (Z.abs (st_num a) * Z.abs (st_num b)) (10 ^ 96) (mulRound a b issue up) /\
  rounded issue neg up (Z.abs (st_num a) * 10 ^ 96) (Z.abs (st_num b)) (divRound a b issue up).
Proof.
  intros Ha Hb Ha0 Hb0 Hi neg. pose proof Ha as (Na & _). unfold mulRound, divRound. fold neg.
  destruct (issued_operand a Ha Ha0) as (-> & -> & Va & Oa & ->). destruct (issued_operand b Hb Hb0) as (-> & -> & Vb & Ob & ->).
  rewrite Na. cbn [orb andb mbind res_bind]. set (v := mValue a) in *. set (w := mValue b) in *. set (x := mOffset a) in *. set (y := mOffset b) in *.
  assert (10 ^ 30 <= v * w <= (10 ^ 16 - 1) * (10 ^ 16 - 1)) as Hvw by (change (10 ^ 30) with (10 ^ 15 * 10 ^ 15); nia).
  split.
  - set (r := if xorb neg up then tenTo14 - 1 else 0).
    assert (0 <= r < tenTo14) as Hr by (unfold r, tenTo14; destruct (xorb neg up); lia). unfold tenTo14 in *.
    replace (v * 10 ^ (x + 96) * (w * 10 ^ (y + 96))) with (v * w * 10 ^ (x + y + 192))
      by (replace (x + y + 192) with ((x + 96) + (y + 96)) by lia; rewrite Z.pow_add_r by lia; ring).
    assert (muldiv_round v w 100000000000000 r = Val ((v * w + r) / 100000000000000)) as -> by (apply muldiv_round_spec; [lia..|apply Z.lt_succ_r, Z.div_lt_upper_bound; lia]).
    cbn [mbind res_bind]. generalize dependent (v * w). intros P HP.
    assert (10 ^ 16 <= (P + r) / 100000000000000 <= 10 ^ 18) as Hq.
    { split; [apply Z.div_le_lower_bound; lia|]. apply Z.lt_succ_r, Z.div_lt_upper_bound; lia. }
    apply rounded_quotient with (d := 100000000000000); try lia.
    + pose proof (Z.div_mod (P + r) 100000000000000 ltac:(lia)). pose proof (Z.mod_pos_bound (P + r) 100000000000000 ltac:(lia)).
      unfold r in *. destruct (xorb neg up); lia.
    + replace (x + y + 14 + 200) with ((x + y + 192) + 22) by lia. rewrite Z.pow_add_r by lia.
      change (10 ^ 104) with (10 ^ 96 * 10 ^ 8). change (10 ^ 22) with (100000000000000 * 10 ^ 8). ring.
  - set (r := if xorb neg up then w - 1 else 0).
    assert (0 <= r < w) as Hr by (unfold r; destruct (xorb neg up); lia).
    assert (10 ^ 16 <= (v * tenTo17 + r) / w <= 10 ^ 18) as Hq.
    { unfold tenTo17. split; [apply Z.div_le_lower_bound; lia|]. apply Z.lt_succ_r, Z.div_lt_upper_bound; lia. }
    rewrite muldiv_round_spec by (unfold tenTo17 in *; lia). cbn [mbind res_bind].
    replace (v * 10 ^ (x + 96) * 10 ^ 96) with (v * tenTo17 * 10 ^ (x + 175))
      by (unfold tenTo17; change 100000000000000000 with (10 ^ 17); rewrite <- !Z.mul_assoc, <- !Z.pow_add_r by lia; do 2 f_equal; lia).
    apply rounded_quotient with (d := w); try lia.
    + pose proof (Z.div_mod (v * tenTo17 + r) w ltac:(lia)). pose proof (Z.mod_pos_bound (v * tenTo17 + r) w ltac:(lia)).
      unfold r in *. destruct (xorb neg up); nia.
    + rewrite <- !Z.mul_assoc, <- !Z.pow_add_r by lia. do 2 f_equal. lia.
Qed.

(** ** Samples *)

Module AmountSamples.
Definition usd : Issue := mkIssue 840 77.
Definition usd_amount (v e : Z) : STAmount := mkAmount v e false false usd.

Lemma usd_issued v e : cMinValue <= v <= cMaxValue -> minExponent <= e <= maxExponent -> issued (usd_amount v e).
Proof. intros Hv He. split; [done|]. split; [done|]. by right. Qed.

Lemma st_round_accuracy_witness :
  rounded usd false true (Z.abs (st_num (usd_amount 1500000000000000 (-15))) * Z.abs (st_num (usd_amount 3333333333333333 (-16)))) (10 ^ 96)
    (mulRound (usd_amount 1500000000000000 (-15)) (usd_amount 3333333333333333 (-16)) usd true).
Proof.
  apply (st_round_accuracy (usd_amount 1500000000000000 (-15)) (usd_amount 3333333333333333 (-16)) usd true);
    [apply usd_issued; unfold cMinValue, cMaxValue; unfold_range; lia..|by vm_compute|by vm_compute|done].
Defined.

(** The digits cut before the last one do not count: a product rounded up can be below the exact one. *)
Lemma mulRound_up_below_exact : exists c, mulRound (usd_amount 2000000000000002 (-15)) (usd_amount 5000000000000005 (-15)) usd true = Val c /\
  st_num c * 10 ^ 96 < st_num (usd_amount 2000000000000002 (-15)) * st_num (usd_amount 5000000000000005 (-15)).
Proof. eexists. split; [by vm_compute|]. by vm_compute. Qed.

(** Multiplying one by a rate above parity rounds the product up. *)
Lemma multiplyRound_fee : multiplyRound (usd_amount 1000000000000000 (-13)) 1010000000 usd true = Val (usd_amount 1010000000000000 (-13)).
Proof. by vm_compute. Qed.

(** [isAddable]: thirteen digits apart one amount is lost in the other. *)
Lemma isAddable_values :
  isAddable (usd_amount 1000000000000000 (-13)) (usd_amount 1234567890123456 (-15)) = Val true /\
  isAddable (usd_amount 1000000000000000 0) (usd_amount 1234567890123456 (-14)) = Val false.
Proof. by vm_compute. Qed.
End AmountSamples.
