(* ===== verification/Runtime.v ===== *)
(** * Runtime: how the hook API runs ([app/hook/Macro.h], [app/hook/impl/applyHook.cpp])

    An API function is called by WebAssembly code with integers, reads and writes
    the memory of the WebAssembly instance and the hook context, and returns an
    [int64_t], negative for an error; error returns may come after part of the
    work was done.  [api S A] is the monad of such code over a state [S]:
    [Next] goes on, [Ret] is the [return] statement, [Stuck] undefined behaviour.
    The class [HasMem] is what a state must offer to the memory macros. *)

From stdpp Require Import base numbers list option gmap.
From Stdlib Require Import ZArith Lia.
From S2P Require Import Prelude Enum.

Local Open Scope Z_scope.

(** ** The monad *)

Inductive outcome (S A : Type) :=
| Next (s : S) (a : A)
| Ret (s : S) (code : Z)
| Stuck.
Arguments Next {S A} s a.
Arguments Ret {S A} s code.
Arguments Stuck {S A}.

Definition api (S A : Type) : Type := S -> outcome S A.

#[export] Instance api_ret {S} : MRet (api S) := fun _ a s => Next s a.
#[export] Instance api_bind {S} : MBind (api S) := fun _ _ f c s =>
  match c s with
  | Next s' a => f a s'
  | Ret s' code => Ret s' code
  | Stuck => Stuck
  end.

Definition return_code {S A} (c : Z) : api S A := fun s => Ret s c.
Definition stuck {S A} : api S A := fun _ => Stuck.
Definition get_state {S} : api S S := fun s => Next s s.
Definition put_state {S} (s : S) : api S unit := fun _ => Next s tt.
Definition modify {S} (f : S -> S) : api S unit := fun s => Next (f s) tt.

(** [if (b) return c;] *)
Definition return_if {S} (b : bool) (c : Z) : api S unit := if b then return_code c else mret tt.

(** A pure computation that may be undefined. *)
Definition lift {E S A} (c : res E A) : api S A := fun s =>
  match c with Val a => Next s a | _ => Stuck end.

(** What a finished call leaves: the state and the returned number. *)
Definition finish {S} (o : outcome S Z) : option (S * Z) :=
  match o with
  | Next s a => Some (s, a)
  | Ret s c => Some (s, c)
  | Stuck => None
  end.

(** ** The instance's memory *)

Class HasMem (S : Type) := {
  get_mem : S -> list Z;
  set_mem : list Z -> S -> S;
  get_set_mem m s : get_mem (set_mem m s) = m;
  set_set_mem m m' s : set_mem m (set_mem m' s) = set_mem m s
}.

(** Memory alone. *)
#[export] Instance mem_only : HasMem (list Z).
Proof. by refine {| get_mem m := m; set_mem m _ := m |}. Defined.

Definition NOT_IN_BOUNDS (ptr len memory_length : Z) : bool :=
  (memory_length <? ptr) || (memory_length <? u64 (ptr + len)).

(** Overwriting a stretch of memory. *)
Definition splice (m : list Z) (i : Z) (bs : list Z) : list Z :=
  take (Z.to_nat i) m ++ bs ++ drop (Z.to_nat i + length bs) m.

Section memory.
Context {S : Type} `{HasMem S}.

Definition memory_length : api S Z := fun s => Next s (vsize (get_mem s)).

(** [memory[ptr]] read by the host: no check is made. *)
Definition mem_byte (ptr : Z) : api S Z := fun s =>
  match rd (E := unit) (get_mem s) ptr with Val b => Next s b | _ => Stuck end.

Definition mem_bytes (ptr len : Z) : api S (list Z) := fun s =>
  if (0 <=? ptr) && (0 <=? len) && (ptr + len <=? vsize (get_mem s))
  then Next s (sub_bytes (get_mem s) ptr len) else Stuck.

(** [memory[ptr] = b], and a run of such assignments. *)
Definition mem_poke (ptr : Z) (bs : list Z) : api S unit := fun s =>
  if (0 <=? ptr) && (ptr + vsize bs <=? vsize (get_mem s))
  then Next (set_mem (splice (get_mem s) ptr bs) s) tt else Stuck.

(** [if (NOT_IN_BOUNDS(ptr, len, memory_length)) return OUT_OF_BOUNDS;] *)
Definition check_bounds (ptr len : Z) : api S unit :=
  l ← memory_length; return_if (NOT_IN_BOUNDS ptr len l) OUT_OF_BOUNDS.

(** [WRITE_WASM_MEMORY]: the number of bytes written is the result. *)
Definition WRITE_WASM_MEMORY (guest_dst_ptr guest_dst_len : Z) (src : list Z) : api S Z :=
  let bytes_to_write := Z.min (vsize src) (i64 guest_dst_len) in
  l ← memory_length;
  _ ← return_if (l <? u64 (guest_dst_ptr + bytes_to_write)) OUT_OF_BOUNDS;
  _ ← mem_poke guest_dst_ptr (take (Z.to_nat bytes_to_write) src);
  mret bytes_to_write.

Definition WRITE_WASM_MEMORY_AND_RETURN (guest_dst_ptr guest_dst_len : Z) (src : list Z) : api S Z :=
  n ← WRITE_WASM_MEMORY guest_dst_ptr guest_dst_len src; return_code n.
End memory.

(** ** Helpers of the API functions *)

(** [data_as_int64]: big-endian, at most eight bytes, top bit clear. *)
Fixpoint be_value (bs : list Z) : Z :=
  match bs with
  | [] => 0
  | b :: bs' => u64 (u64 (Z.shiftl b ((vsize bs - 1) * 8)) + be_value bs')
  end.

Definition data_as_int64 (bs : list Z) : Z :=
  if 8 <? vsize bs then TOO_BIG
  else if negb (Z.land (2 ^ 63) (be_value bs) =? 0) then TOO_BIG
  else i64 (be_value bs).

(** Every even byte nonzero, every odd byte zero. *)
Fixpoint utf16_pairs (bs : list Z) : bool :=
  match bs with
  | [] => true
  | [_] => false
  | b0 :: b1 :: bs' => if (b0 =? 0) || negb (b1 =? 0) then false else utf16_pairs bs'
  end.

Definition is_UTF16LE (bs : list Z) : bool :=
  if negb (vsize bs mod 2 =? 0) || (vsize bs =? 0) then false else utf16_pairs bs.

Definition in_list (c : Z) (l : list Z) : bool := existsb (Z.eqb c) l.

(** The characters of a three-letter currency code. *)
Definition validateChar (c : Z) : bool :=
  ((97 <=? c) && (c <=? 122)) || ((65 <=? c) && (c <=? 90)) || ((48 <=? c) && (c <=? 57)) ||
  in_list c [63; 33; 64; 35; 36; 37; 94; 38; 42; 60; 62; 40; 41; 123; 125; 91; 93; 124].

Definition parseCurrency (cu : list Z) : option (list Z) :=
  if vsize cu =? 20 then Some cu
  else if vsize cu =? 3 then
    if forallb validateChar cu then Some (replicate 12 0 ++ cu ++ replicate 5 0) else None
  else None.

(** Keylets as the API exchanges them: the type in two bytes, then the key. *)
Record Keylet := mkKeylet { kl_type : Z; kl_key : list Z }.

Definition keylet_bytes (kl : Keylet) : list Z :=
  [Z.land (Z.shiftr (kl_type kl) 8) 0xFF; Z.land (kl_type kl) 0xFF] ++ kl_key kl.

Definition serialize_keylet {S} `{HasMem S} (kl : Keylet) (write_ptr write_len : Z) : api S Z :=
  _ ← return_if (write_len <? 34) TOO_SMALL;
  _ ← mem_poke write_ptr (keylet_bytes kl);
  return_code 34.

Definition unserialize_keylet (bs : list Z) : option Keylet :=
  if negb (vsize bs =? 34) then None
  else match bs with
       | b0 :: b1 :: key => Some (mkKeylet (u16 (u16 (Z.shiftl b0 8) + b1)) key)
       | _ => None
       end.

(** ** Sizes and fees *)

Definition maxHookStateDataSize : Z := 256.
Definition maxHookWasmSize : Z := 0xFFFF.
Definition maxHookParameterKeySize : Z := 32.
Definition maxHookParameterValueSize : Z := 256.
Definition maxHookChainLength : Z := 4.
Definition computeHookStateOwnerCount (hookStateCount : Z) : Z := hookStateCount.

(** The comparisons are between an [int64_t] and a [uint64_t], hence unsigned. *)
Definition computeExecutionFee (instructionCount : Z) : Z :=
  let fee := i64 instructionCount in
  if u64 fee <? instructionCount then 0x7FFFFFFFFFFFFFFF else fee.

Definition computeCreationFee (byteCount : Z) : Z :=
  let fee := i64 (u64 (u64 (i64 byteCount) * 500)) in
  if u64 fee <? byteCount then 0x7FFFFFFFFFFFFFFF else fee.

(** ** Lemmas *)

Lemma splice_length m i bs :
  0 <= i -> i + vsize bs <= vsize m -> vsize (splice m i bs) = vsize m.
Proof.
  unfold splice, vsize. intros Hi Hl. rewrite !length_app, length_take, length_drop. lia.
Qed.

(** Reading back what was written, and what was not. *)
Lemma splice_same m i bs :
  0 <= i -> i + vsize bs <= vsize m -> sub_bytes (splice m i bs) i (vsize bs) = bs.
Proof.
  unfold splice, sub_bytes, vsize. intros Hi Hl.
  rewrite drop_app_length', take_app_length' by (rewrite ?length_take; lia). done.
Qed.

Lemma splice_lookup_other m i bs k :
  0 <= i -> i + vsize bs <= vsize m -> (k < Z.to_nat i \/ Z.to_nat i + length bs <= k)%nat ->
  splice m i bs !! k = m !! k.
Proof.
  unfold splice, vsize. intros Hi Hl [Hk|Hk].
  - rewrite lookup_app_l by (rewrite length_take; lia). by apply lookup_take_lt.
  - rewrite lookup_app_r by (rewrite length_take; lia).
    rewrite length_take, lookup_app_r by lia. rewrite lookup_drop. f_equal. lia.
Qed.

Lemma NOT_IN_BOUNDS_false ptr len ml :
  0 <= ptr < 2 ^ 32 -> 0 <= len < 2 ^ 32 -> NOT_IN_BOUNDS ptr len ml = false <-> ptr + len <= ml.
Proof.
  intros Hp Hl. unfold NOT_IN_BOUNDS. rewrite u64_small by lia.
  rewrite orb_false_iff, !Z.ltb_ge. lia.
Qed.

Lemma api_bind_Next {S A B} (c : api S A) (k : A -> api S B) s s' b :
  (c ≫= k) s = Next s' b <-> exists s1 a, c s = Next s1 a /\ k a s1 = Next s' b.
Proof.
  unfold mbind, api_bind. split.
  - destruct (c s) as [s1 a|s1 c1|]; [eauto|done..].
  - intros (s1 & a & -> & Hk). done.
Qed.

(** ** Running code: each step of a call that succeeds *)

Lemma run_bind {S A B} (c : api S A) (k : A -> api S B) s s' a :
  c s = Next s' a -> (c ≫= k) s = k a s'.
Proof. intros E. unfold mbind, api_bind. by rewrite E. Qed.

Lemma run_bind_ret {S A B} (c : api S A) (k : A -> api S B) s s' r :
  c s = Ret s' r -> (c ≫= k) s = Ret s' r.
Proof. intros E. unfold mbind, api_bind. by rewrite E. Qed.

Lemma run_return_if {S B} (b : bool) c (k : unit -> api S B) s :
  b = false -> (return_if b c ≫= k) s = k tt s.
Proof. by intros ->. Qed.

Lemma run_return_if_true {S B} (b : bool) c (k : unit -> api S B) s :
  b = true -> (return_if b c ≫= k) s = Ret s c.
Proof. by intros ->. Qed.

Section run.
Context {S : Type} `{HasMem S}.

Lemma run_check_bounds {B} ptr len (k : unit -> api S B) s :
  0 <= ptr < 2 ^ 32 -> 0 <= len < 2 ^ 32 -> ptr + len <= vsize (get_mem s) ->
  (check_bounds ptr len ≫= k) s = k tt s.
Proof.
  intros Hp Hl Hm. apply run_bind. unfold check_bounds. erewrite run_bind by done.
  rewrite (proj2 (NOT_IN_BOUNDS_false ptr len _ Hp Hl)) by done. done.
Qed.

Lemma run_mem_bytes {B} ptr len (k : list Z -> api S B) s :
  0 <= ptr -> 0 <= len -> ptr + len <= vsize (get_mem s) ->
  (mem_bytes ptr len ≫= k) s = k (sub_bytes (get_mem s) ptr len) s.
Proof.
  intros Hp Hl Hm. apply run_bind. unfold mem_bytes.
  by rewrite !(proj2 (Z.leb_le _ _)) by lia.
Qed.

Lemma run_mem_poke {B} ptr bs (k : unit -> api S B) s :
  0 <= ptr -> ptr + vsize bs <= vsize (get_mem s) ->
  (mem_poke ptr bs ≫= k) s = k tt (set_mem (splice (get_mem s) ptr bs) s).
Proof.
  intros Hp Hm. apply run_bind. unfold mem_poke. by rewrite !(proj2 (Z.leb_le _ _)) by lia.
Qed.

Lemma run_WRITE {B} ptr len bs (k : Z -> api S B) s :
  0 <= ptr < 2 ^ 33 -> vsize bs <= len < 2 ^ 33 -> ptr + vsize bs <= vsize (get_mem s) ->
  (WRITE_WASM_MEMORY ptr len bs ≫= k) s = k (vsize bs) (set_mem (splice (get_mem s) ptr bs) s).
Proof.
  intros Hp Hl Hm. apply run_bind. unfold WRITE_WASM_MEMORY. pose proof (vsize_nonneg bs).
  rewrite i64_small, Z.min_l by lia. erewrite run_bind by done.
  rewrite run_return_if by (apply Z.ltb_ge; rewrite u64_small; lia).
  rewrite take_ge by (unfold vsize in *; lia). by rewrite run_mem_poke by lia.
Qed.
End run.

(** ** Steps that only read

    [quiet c]: the code [c] leaves the state as it is; [ends P o]: whichever way a
    call ended, its final state satisfies [P]. *)

Definition quiet {S A} (c : api S A) : Prop :=
  forall s, match c s with Next s' _ | Ret s' _ => s' = s | Stuck => True end.

Definition ends {S A} (P : S -> Prop) (o : outcome S A) : Prop :=
  match o with Next s _ | Ret s _ => P s | Stuck => True end.

Section quiet.
Context {S : Type}.

Lemma quiet_ret {A} (a : A) : quiet (mret a : api S A).
Proof. done. Qed.

Lemma quiet_return_code {A} c : quiet (return_code c : api S A).
Proof. done. Qed.

Lemma quiet_return_if b c : quiet (return_if b c : api S unit).
Proof. by destruct b. Qed.

Lemma quiet_bind {A B} (c : api S A) (k : A -> api S B) :
  quiet c -> (forall a, quiet (k a)) -> quiet (c ≫= k).
Proof.
  intros Hc Hk s. unfold mbind, api_bind. specialize (Hc s). destruct (c s) as [s' a|s' r|]; [|done..].
  subst s'. apply Hk.
Qed.

Lemma quiet_if {A} (b : bool) (c1 c2 : api S A) : quiet c1 -> quiet c2 -> quiet (if b then c1 else c2).
Proof. by destruct b. Qed.

Lemma ends_bind {A B} (P : S -> Prop) (c : api S A) (k : A -> api S B) s :
  quiet c -> P s -> (forall a, c s = Next s a -> ends P (k a s)) -> ends P ((c ≫= k) s).
Proof.
  intros Hc Hs Hk. unfold mbind, api_bind. specialize (Hc s). destruct (c s) as [s' a|s' r|]; [|by subst|done].
  subst s'. by apply Hk.
Qed.

Lemma ends_weaken {A} (P Q : S -> Prop) (o : outcome S A) : (forall s, P s -> Q s) -> ends P o -> ends Q o.
Proof. intros HPQ. destruct o; cbn; auto. Qed.

Context `{HasMem S}.

Lemma quiet_memory_length : quiet memory_length.
Proof. done. Qed.

Lemma quiet_mem_byte p : quiet (mem_byte p).
Proof. intros s. unfold mem_byte. by destruct (rd _ _). Qed.

Lemma quiet_mem_bytes p n : quiet (mem_bytes p n).
Proof. intros s. unfold mem_bytes. by destruct (_ && _). Qed.

Lemma quiet_check_bounds p n : quiet (check_bounds p n).
Proof. apply quiet_bind; [apply quiet_memory_length|]. intros l. apply quiet_return_if. Qed.
End quiet.

Create HintDb quiet.
#[export] Hint Resolve quiet_ret quiet_return_code quiet_return_if quiet_bind quiet_if
  quiet_memory_length quiet_mem_byte quiet_mem_bytes quiet_check_bounds : quiet.
