(* ===== verification/FloatApi.v ===== *)
(** * FloatApi: the float functions of the hook API ([app/hook/impl/applyHook.cpp])

    [float_set] to [float_root] on XFLs (file [Xfl]), computing through
    [IOUAmount] (file [IouAmount]) where the source does.  The theorems show that
    sums and comparisons refine the ledger's own arithmetic, that the integer
    part is the floor, that products and ratios stay valid, and that an amount
    serialised by [float_sto] is read back by [float_sto_set] and by the ledger's
    own deserialiser. *)

From stdpp Require Import base numbers list option.
From Stdlib Require Import ZArith Lia.
From S2P Require Import Prelude Enum Leb128 Double Xfl IouAmount StAmount Runtime.

Local Open Scope Z_scope.

(** [try { c } catch (std::overflow_error&) { return XFL_OVERFLOW; }] *)
Definition catch_overflow (c : fres Z) : fres Z :=
  match c with Err overflow_error => Val (rc XFL_OVERFLOW) | _ => c end.

(** The signed mantissa of an XFL: [get_mantissa(f) * (is_negative(f) ? -1 : 1)]. *)
Definition signed_mantissa (f : Z) : Z := get_mantissa f * (if is_negative f then -1 else 1).

Definition xfl_amount (f : Z) : fres IOUAmount := makeIOU (signed_mantissa f) (get_exponent f).

(** [make_float(IOUAmount&)]: the error codes of the setters are passed on to
    the next setter. *)
Definition make_float_iou (amt : IOUAmount) : fres Z :=
  let neg := mantissa amt <? 0 in
  man_out ← (if neg then mul64 (mantissa amt) (-1) else Val (mantissa amt));
  Val (set_exponent (set_mantissa (set_sign 0 neg) (u64 man_out)) (exponent amt)).

Section api.
Context {L : Log10}.

(** The XFL alone of a normalisation. *)
Definition normalized (sman : bool) (man exp : Z) (neg : bool) : fres Z :=
  '(r, _, _) ← normalize_xfl sman man exp neg; Val r.

Definition float_set (exp mantissa : Z) : fres Z :=
  if mantissa =? 0 then Val 0 else
  n ← normalized true mantissa exp false;
  if (n =? 0) || (n =? XFL_OVERFLOW) then Val (rc INVALID_FLOAT) else Val n.

Definition float_multiply_internal_parts (man1 exp1 : Z) (neg1 : bool) (man2 exp2 : Z) (neg2 : bool)
    : fres Z :=
  p ← pow10 15;
  let man_out := u64 (man1 * man2 / p) in
  exp_out ← add32 (exp1 + exp2) 15;
  let neg_out := (neg1 && negb neg2) || (negb neg1 && neg2) in
  ret ← normalized false man_out exp_out neg_out;
  if ret =? EXPONENT_UNDERSIZED then Val 0
  else if ret =? EXPONENT_OVERSIZED then Val (rc XFL_OVERFLOW)
  else Val ret.

Definition float_multiply (float1 float2 : Z) : fres Z :=
  if invalid_float float1 then Val (rc INVALID_FLOAT) else
  if invalid_float float2 then Val (rc INVALID_FLOAT) else
  if (float1 =? 0) || (float2 =? 0) then Val 0 else
  float_multiply_internal_parts
    (get_mantissa float1) (get_exponent float1) (is_negative float1)
    (get_mantissa float2) (get_exponent float2) (is_negative float2).

(** The shift is computed in unsigned arithmetic and stored in an [int32_t]. *)
Definition float_int (float1 decimal_places absolute : Z) : fres Z :=
  if invalid_float float1 then Val (rc INVALID_FLOAT) else
  if float1 =? 0 then Val 0 else
  if 15 <? decimal_places then Val (rc INVALID_ARGUMENT) else
  if is_negative float1 && (absolute =? 0) then Val (rc CANT_RETURN_NEGATIVE) else
  let shift := i32 (u32 (- u32 (get_exponent float1 + decimal_places))) in
  if 15 <? shift then Val 0 else
  if shift <? 0 then Val (rc TOO_BIG) else
  if 0 <? shift then p ← pow10 shift; Val (i64 (u64 (get_mantissa float1) / p))
  else Val (i64 (get_mantissa float1)).

(** [mulratio_internal]: [None] stands for the negative return on overflow. *)
Definition mulratio_internal (man1 exp1 : Z) (round_up : bool) (numerator denominator : Z)
    : fres (option (Z * Z)) :=
  match (amt ← makeIOU man1 exp1; mulRatio amt numerator denominator round_up) with
  | Val out => Val (Some (mantissa out, exponent out))
  | Err overflow_error => Val None
  | Err e => Err e
  | Undef => Undef
  end.

Definition float_mulratio (float1 round_up numerator denominator : Z) : fres Z :=
  if invalid_float float1 then Val (rc INVALID_FLOAT) else
  if float1 =? 0 then Val 0 else
  if denominator =? 0 then Val (rc DIVISION_BY_ZERO) else
  r ← mulratio_internal (get_mantissa float1) (get_exponent float1) (0 <? round_up) numerator denominator;
  match r with
  | None => Val (rc XFL_OVERFLOW)
  | Some (man1, exp1) =>
      man1 ← (if man1 <? 0 then mul64 man1 (-1) else Val man1);
      Val (make_float (u64 man1) exp1 (is_negative float1))
  end.

Definition float_negate (float1 : Z) : fres Z :=
  if float1 =? 0 then Val 0 else
  if invalid_float float1 then Val (rc INVALID_FLOAT) else
  Val (invert_sign float1).

(** [compare_mode] *)
Definition cmp_EQUAL : Z := 1.
Definition cmp_LESS : Z := 2.
Definition cmp_GREATER : Z := 4.

Definition float_compare (float1 float2 mode : Z) : fres Z :=
  if invalid_float float1 then Val (rc INVALID_FLOAT) else
  if invalid_float float2 then Val (rc INVALID_FLOAT) else
  let equal_flag := negb (Z.land mode cmp_EQUAL =? 0) in
  let less_flag := negb (Z.land mode cmp_LESS =? 0) in
  let greater_flag := negb (Z.land mode cmp_GREATER =? 0) in
  let not_equal := less_flag && greater_flag in
  if (equal_flag && less_flag && greater_flag) || (mode =? 0) then Val (rc INVALID_ARGUMENT) else
  if negb (Z.land mode (u64 (Z.lnot 7)) =? 0) then Val (rc INVALID_ARGUMENT) else
  catch_overflow (
    amt1 ← xfl_amount float1;
    amt2 ← xfl_amount float2;
    Val (if not_equal && negb (iou_eqb amt1 amt2) then 1
         else if equal_flag && iou_eqb amt1 amt2 then 1
         else if greater_flag && iou_ltb amt2 amt1 then 1
         else if less_flag && iou_ltb amt1 amt2 then 1
         else 0)).

Definition float_sum (float1 float2 : Z) : fres Z :=
  if invalid_float float1 then Val (rc INVALID_FLOAT) else
  if invalid_float float2 then Val (rc INVALID_FLOAT) else
  if float1 =? 0 then Val float2 else
  if float2 =? 0 then Val float1 else
  catch_overflow (
    amt1 ← xfl_amount float1;
    amt2 ← xfl_amount float2;
    amt1 ← iou_add amt1 amt2;
    result ← make_float_iou amt1;
    Val (if result =? EXPONENT_UNDERSIZED then 0 else result)).

(** ** Division *)

Definition float_one_internal : Z := make_float 1000000000000000 (-15) false.

(** The three loops of the long division.  Mantissas have sixteen digits, so
    twenty iterations are enough for each. *)
Fixpoint div_shrink (fuel : nat) (man1 man2 exp2 : Z) : Z * Z :=
  match fuel with
  | O => (man2, exp2)
  | S fuel => if man1 <? man2 then div_shrink fuel man1 (man2 / 10) (exp2 + 1) else (man2, exp2)
  end.

Fixpoint div_grow (fuel : nat) (man1 man2 exp2 : Z) : Z * Z :=
  match fuel with
  | O => (man2, exp2)
  | S fuel =>
      if man2 <? man1 then
        if man1 <? u64 (man2 * 10) then (man2, exp2)
        else div_grow fuel man1 (u64 (man2 * 10)) (exp2 - 1)
      else (man2, exp2)
  end.

(** [for (; man1 > man2; man1 -= man2, ++i);] *)
Fixpoint div_digit (fuel : nat) (man1 man2 i : Z) : Z * Z :=
  match fuel with
  | O => (man1, i)
  | S fuel => if man2 <? man1 then div_digit fuel (man1 - man2) man2 (i + 1) else (man1, i)
  end.

Fixpoint div_digits (fuel : nat) (man1 man2 man3 exp3 : Z) : Z * Z :=
  match fuel with
  | O => (man3, exp3)
  | S fuel =>
      if 0 <? man2 then
        let '(man1, i) := div_digit 20 man1 man2 0 in
        let man3 := u64 (u64 (man3 * 10) + i) in
        let man2 := man2 / 10 in
        if man2 =? 0 then (man3, exp3) else div_digits fuel man1 man2 man3 (exp3 - 1)
      else (man3, exp3)
  end.

Definition float_divide_internal (float1 float2 : Z) : fres Z :=
  if invalid_float float1 then Val (rc INVALID_FLOAT) else
  if invalid_float float2 then Val (rc INVALID_FLOAT) else
  if float2 =? 0 then Val (rc DIVISION_BY_ZERO) else
  if float1 =? 0 then Val 0 else
  if float2 =? float_one_internal then Val float1 else
  let neg1 := is_negative float1 in
  let neg2 := is_negative float2 in
  '(tmp1, man1, exp1) ← normalize_xfl false (get_mantissa float1) (get_exponent float1) false;
  '(tmp2, man2, exp2) ← normalize_xfl false (get_mantissa float2) (get_exponent float2) false;
  if (tmp1 <? 0) || (tmp2 <? 0) then Val (rc INVALID_FLOAT) else
  if tmp1 =? 0 then Val 0 else
  let '(man2, exp2) := div_shrink 20 man1 man2 exp2 in
  if man2 =? 0 then Val (rc DIVISION_BY_ZERO) else
  let '(man2, exp2) := div_grow 20 man1 man2 exp2 in
  let '(man3, exp3) := div_digits 20 man1 man2 0 (exp1 - exp2) in
  let neg3 := negb ((neg1 && neg2) || (negb neg1 && negb neg2)) in
  normalized false man3 exp3 neg3.

Definition float_divide (float1 float2 : Z) : fres Z := float_divide_internal float1 float2.

Definition float_one : fres Z := Val float_one_internal.

Definition float_invert (float1 : Z) : fres Z :=
  if float1 =? 0 then Val (rc DIVISION_BY_ZERO) else
  if float1 =? float_one_internal then Val float_one_internal else
  float_divide_internal float_one_internal float1.

Definition float_mantissa (float1 : Z) : fres Z :=
  if invalid_float float1 then Val (rc INVALID_FLOAT) else
  if float1 =? 0 then Val 0 else Val (get_mantissa float1).

Definition float_sign (float1 : Z) : fres Z :=
  if invalid_float float1 then Val (rc INVALID_FLOAT) else
  if float1 =? 0 then Val 0 else Val (if is_negative float1 then 1 else 0).
End api.

(** ** Logarithms and roots

    [log10] and [pow] of the C library are parameters. *)
Section transcendental.
Context (log10 : double -> double) (pow : double -> double -> double).

Definition double_to_xfl (x : double) : fres Z :=
  if dbl_eqb x (dbl 0) then Val 0 else
  let neg := dbl_ltb x (dbl 0) in
  let absresult := if neg then dbl_opp x else x in
  exp_out ← dbl_to_int 32 (log10 absresult);
  let absresult := dbl_mul absresult (pow (dbl 10) (dbl (- exp_out + 15))) in
  result ← dbl_to_int 64 absresult;
  '(result, exp_out) ← fix_mantissa result exp_out;
  exp_out ← sub32 exp_out 15;
  let ret := make_float (u64 result) exp_out neg in
  if ret =? EXPONENT_UNDERSIZED then Val 0 else Val ret.

Definition float_log (float1 : Z) : fres Z :=
  if invalid_float float1 then Val (rc INVALID_FLOAT) else
  if float1 =? 0 then Val (rc INVALID_ARGUMENT) else
  if is_negative float1 then Val (rc COMPLEX_NOT_SUPPORTED) else
  let inp := dbl (get_mantissa float1) in
  double_to_xfl (dbl_add (log10 inp) (dbl (get_exponent float1))).

Definition float_root (float1 n : Z) : fres Z :=
  if invalid_float float1 then Val (rc INVALID_FLOAT) else
  if float1 =? 0 then Val 0 else
  if n <? 2 then Val (rc INVALID_ARGUMENT) else
  if is_negative float1 then Val (rc COMPLEX_NOT_SUPPORTED) else
  let inp := dbl_mul (dbl (get_mantissa float1)) (pow (dbl 10) (dbl (get_exponent float1))) in
  double_to_xfl (pow inp (dbl_div (dbl 1) (dbl n))).
End transcendental.

(** ** XFLs and amounts *)

(** The amount a valid XFL stands for, and back. *)
Definition xfl_iou (f : Z) : IOUAmount :=
  if f =? 0 then iou_zero else mkIOU (signed_mantissa f) (get_exponent f).

Definition iou_xfl (a : IOUAmount) : Z :=
  if mantissa a =? 0 then 0 else make_float (Z.abs (mantissa a)) (exponent a) (mantissa a <? 0).

(** An [int64_t] that is a valid XFL. *)
Definition xfl_ok (f : Z) : Prop := xfl_valid f = true /\ f < 2 ^ 63.

Lemma xfl_ok_invalid f : xfl_ok f -> invalid_float f = false.
Proof. intros [H _]. by apply negb_true_iff in H. Qed.

Lemma xfl_ok_parts f :
  xfl_ok f -> f <> 0 ->
  0 < f /\ in_range (get_mantissa f) (get_exponent f) /\
  f = make_float (get_mantissa f) (get_exponent f) (is_negative f).
Proof.
  intros [Hv H63] H0. destruct (xfl_valid_parts f Hv H0 H63) as (Hp & Hr & E).
  split; [done|]. split; [done|]. by rewrite make_float_pack.
Qed.

Lemma xfl_iou_valid f : xfl_ok f -> iou_valid (xfl_iou f) = true.
Proof.
  intros Hf. apply iou_valid_cases. unfold xfl_iou. destruct (Z.eqb_spec f 0); [by left|right].
  destruct (xfl_ok_parts f Hf n) as (_ & Hr & _). cbn. unfold signed_mantissa. unfold_range.
  destruct (is_negative f); lia.
Qed.

Lemma xfl_iou_num f : xfl_ok f -> iou_num (xfl_iou f) = xfl_num f.
Proof.
  intros Hf. unfold xfl_iou, xfl_num. destruct (Z.eqb_spec f 0); [done|].
  destruct (xfl_ok_parts f Hf n) as (_ & Hr & _). unfold iou_num. cbn. unfold signed_mantissa.
  unfold_range. rewrite (proj2 (Z.eqb_neq _ 0)) by (destruct (is_negative f); lia).
  destruct (is_negative f); ring.
Qed.

Lemma xfl_amount_ok f : xfl_ok f -> xfl_amount f = Val (xfl_iou f).
Proof.
  intros Hf. unfold xfl_amount, makeIOU, xfl_iou. destruct (Z.eqb_spec f 0) as [->|H0]; [done|].
  destruct (xfl_ok_parts f Hf H0) as (_ & Hr & _). apply normalize_id; unfold signed_mantissa;
    unfold_range; [destruct (is_negative f)|]; lia.
Qed.

(** The inverse direction. *)
Lemma iou_xfl_spec a :
  iou_valid a = true -> xfl_ok (iou_xfl a) /\ xfl_iou (iou_xfl a) = a.
Proof.
  intros [->|[Hm He]]%iou_valid_cases; [done|]. unfold iou_xfl.
  rewrite (proj2 (Z.eqb_neq _ 0)) by (unfold_range; lia).
  destruct (make_float_spec (Z.abs (mantissa a)) (exponent a) (mantissa a <? 0)) as (Hb & Hv & Em & Ee & En);
    [done|]. split; [split; [done|lia]|]. unfold xfl_iou, signed_mantissa.
  rewrite (proj2 (Z.eqb_neq _ 0)), Em, Ee, En by lia. destruct a as [m e]. cbn in *.
  f_equal. destruct (Z.ltb_spec m 0); lia.
Qed.

Lemma set_sign_0 neg : set_sign 0 neg = if neg then 0 else 2 ^ 62.
Proof. by destruct neg. Qed.

Lemma make_float_iou_spec a :
  iou_valid a = true ->
  (r ← make_float_iou a; Val (if r =? EXPONENT_UNDERSIZED then 0 else r)) = Val (iou_xfl a).
Proof.
  intros [->|[Hm He]]%iou_valid_cases; [done|]. unfold iou_xfl.
  rewrite (proj2 (Z.eqb_neq (mantissa a) 0)) by (unfold_range; lia).
  pose proof (xfl_pack_bounds (Z.abs (mantissa a)) (exponent a) (mantissa a <? 0) ltac:(done)) as Hb.
  rewrite make_float_pack by done. unfold make_float_iou.
  assert ((if mantissa a <? 0 then mul64 (mantissa a) (-1) else Val (mantissa a)) = Val (Z.abs (mantissa a))) as ->.
  { destruct (Z.ltb_spec (mantissa a) 0); [rewrite mul64_neg by (unfold_range; lia)|]; f_equal; lia. }
  cbn -[set_exponent set_mantissa set_sign].
  rewrite (u64_small (Z.abs _)), set_sign_0 by (unfold_range; lia).
  set (m := Z.abs (mantissa a)) in *. set (neg := mantissa a <? 0) in *. set (e := exponent a) in *.
  assert (set_exponent (set_mantissa (if neg then 0 else 2 ^ 62) m) e = xfl_pack m e neg) as ->.
  { unfold set_mantissa, set_exponent. unfold_range.
    rewrite !(proj2 (Z.ltb_ge _ m)), !(proj2 (Z.ltb_ge m _)), !(proj2 (Z.ltb_ge _ e)), !(proj2 (Z.ltb_ge e _)) by lia.
    replace (get_mantissa (if neg then 0 else 2 ^ 62)) with 0 by (by destruct neg).
    rewrite Z.sub_0_r, (u64_small (_ + m)), (i64_small (_ + m)) by (destruct neg; lia).
    rewrite (u64_small (e + 97)), (Z.shiftl_mul_pow2 (e + 97)), (u64_small (_ * _)), (i64_small (_ * _)) by lia.
    replace (Z.land ((if neg then 0 else 2 ^ 62) + m) (Z.lnot (Z.shiftl 255 54)))
      with ((if neg then 0 else 2 ^ 62) + m); [rewrite i64_small; unfold xfl_pack; destruct neg; lia|].
    destruct neg; [by rewrite Z.add_0_l, land_high_zero by lia|].
    rewrite Z.add_comm, <- lxor_bit_62 by lia. apply Z.bits_inj'. intros i Hi.
    rewrite Z.land_spec, Z.lxor_spec, Z.lnot_spec, Z.shiftl_spec, Z.pow2_bits_eqb by lia.
    destruct (Z.lt_ge_cases i 54) as [Hlt|Hge].
    - rewrite (Z.testbit_neg_r _ (i - 54)) by lia. by rewrite andb_true_r.
    - rewrite (testbit_small m 54) by lia. cbn [xorb]. destruct (Z.eqb_spec 62 i) as [<-|]; done. }
  cbn. rewrite (proj2 (Z.eqb_neq _ _)); [done|]. change (rc EXPONENT_UNDERSIZED) with (-29). lia.
Qed.

Lemma iou_xfl_iou f : xfl_ok f -> iou_xfl (xfl_iou f) = f.
Proof.
  intros Hf. unfold iou_xfl, xfl_iou. destruct (Z.eqb_spec f 0) as [->|H0]; [done|].
  destruct (xfl_ok_parts f Hf H0) as (_ & Hr & E). cbn. unfold signed_mantissa. unfold_range.
  rewrite (proj2 (Z.eqb_neq _ 0)) by (destruct (is_negative f); lia).
  transitivity (make_float (get_mantissa f) (get_exponent f) (is_negative f)); [|done].
  destruct (is_negative f); f_equal; [lia|apply Z.ltb_lt; lia|lia|apply Z.ltb_ge; lia].
Qed.

(** ** Sums and comparisons *)

(** C37: [float_sum] refines the ledger's addition: on valid XFLs it returns the
    XFL of the sum of the two amounts, and [XFL_OVERFLOW] exactly when that
    addition throws. *)
Theorem float_sum_refines f1 f2 :
  xfl_ok f1 -> xfl_ok f2 ->
  float_sum f1 f2 =
  match iou_add (xfl_iou f1) (xfl_iou f2) with
  | Val c => Val (iou_xfl c)
  | _ => Val (rc XFL_OVERFLOW)
  end.
Proof.
  intros H1 H2. unfold float_sum. rewrite !xfl_ok_invalid by done.
  destruct (Z.eqb_spec f1 0) as [->|N1].
  { change (xfl_iou 0) with iou_zero. unfold iou_add. destruct (iou_eqb (xfl_iou f2) iou_zero) eqn:E.
    - apply iou_eqb_eq in E. rewrite <- E. by rewrite iou_xfl_iou.
    - cbn. by rewrite iou_xfl_iou. }
  destruct (Z.eqb_spec f2 0) as [->|N2].
  { change (xfl_iou 0) with iou_zero. unfold iou_add. cbn. by rewrite iou_xfl_iou. }
  rewrite !xfl_amount_ok by done. cbn.
  destruct (iou_add_result (xfl_iou f1) (xfl_iou f2)) as [->|(c & -> & Hc)];
    [by apply xfl_iou_valid..|done|].
  cbn. pose proof (make_float_iou_spec c Hc) as E.
  destruct (make_float_iou c) as [r|?|]; try discriminate E. injection E as <-. done.
Qed.

(** [float_compare] on valid XFLs compares the numbers they stand for: for
    each of the six meaningful modes it returns 1 if one of the selected relations
    holds and 0 otherwise. *)
Theorem float_compare_correct f1 f2 mode :
  xfl_ok f1 -> xfl_ok f2 -> 0 < mode < 7 ->
  float_compare f1 f2 mode =
  Val (if (Z.testbit mode 0 && (xfl_num f1 =? xfl_num f2)) ||
          (Z.testbit mode 1 && (xfl_num f1 <? xfl_num f2)) ||
          (Z.testbit mode 2 && (xfl_num f2 <? xfl_num f1)) then 1 else 0).
Proof.
  intros H1 H2 Hm. unfold float_compare. rewrite !xfl_ok_invalid, !xfl_amount_ok by done.
  pose proof (iou_ltb_iff (xfl_iou f1) (xfl_iou f2) (xfl_iou_valid f1 H1) (xfl_iou_valid f2 H2)) as L12.
  pose proof (iou_ltb_iff (xfl_iou f2) (xfl_iou f1) (xfl_iou_valid f2 H2) (xfl_iou_valid f1 H1)) as L21.
  pose proof (iou_eqb_num (xfl_iou f1) (xfl_iou f2) (xfl_iou_valid f1 H1) (xfl_iou_valid f2 H2)) as LE.
  rewrite !xfl_iou_num in L12, L21, LE by done. cbn [mbind res_bind]. rewrite LE, L12, L21.
  assert (mode = 1 \/ mode = 2 \/ mode = 3 \/ mode = 4 \/ mode = 5 \/ mode = 6) as Hmode by lia.
  destruct (Z.eqb_spec (xfl_num f1) (xfl_num f2)), (Z.ltb_spec (xfl_num f1) (xfl_num f2)),
    (Z.ltb_spec (xfl_num f2) (xfl_num f1)); try lia;
    destruct Hmode as [->|[->|[->|[->|[->| ->]]]]]; reflexivity.
Qed.

(** ** Integers, signs *)

(** [float_int] is the floor of the number scaled by the requested decimal
    places: with [s] the digits to drop, the mantissa divided by [10^s]; it is
    zero when all digits are dropped and [TOO_BIG] when digits would have to be
    added. *)
Theorem float_int_floor f places absolute :
  xfl_ok f -> f <> 0 -> 0 <= places <= 15 -> is_negative f && (absolute =? 0) = false ->
  let s := - (get_exponent f + places) in
  float_int f places absolute = Val (if s <? 0 then rc TOO_BIG else get_mantissa f / 10 ^ s).
Proof.
  intros Hf H0 Hp Hneg s. destruct (xfl_ok_parts f Hf H0) as (Hpos & Hr & _).
  unfold float_int. rewrite xfl_ok_invalid, (proj2 (Z.eqb_neq f 0)), (proj2 (Z.ltb_ge 15 places)), Hneg by (done || lia).
  assert (i32 (u32 (- u32 (get_exponent f + places))) = s) as ->.
  { unfold i32, swrap, u32, uwrap, s. unfold_range.
    set (x := get_exponent f + places). assert (-96 <= x <= 95) by lia.
    rewrite <- Zminus_mod_idemp_l || idtac.
    destruct (Z.lt_ge_cases x 0).
    - rewrite <- (Z.mod_unique x (2 ^ 32) (-1) (x + 2 ^ 32)) by lia.
      rewrite <- (Z.mod_unique (- (x + 2 ^ 32)) (2 ^ 32) (-1) (- x)) by lia.
      rewrite Z.mod_small by lia. lia.
    - rewrite (Z.mod_small x) by lia. destruct (Z.eq_dec x 0) as [->|]; [done|].
      rewrite <- (Z.mod_unique (- x) (2 ^ 32) (-1) (2 ^ 32 - x)) by lia.
      rewrite <- (Z.mod_unique (2 ^ 32 - x + 2 ^ (32 - 1)) (2 ^ 32) 1 (2 ^ 31 - x)) by lia. lia. }
  unfold_range. destruct (Z.ltb_spec 15 s).
  - rewrite (proj2 (Z.ltb_ge s 0)) by lia. f_equal. symmetry. apply Z.div_small. split; [lia|].
    assert (10 ^ 16 <= 10 ^ s) by (apply Z.pow_le_mono_r; lia). lia.
  - destruct (Z.ltb_spec s 0); [done|]. destruct (Z.ltb_spec 0 s).
    + rewrite pow10_Val, u64_small by lia. cbn. f_equal. apply i64_small.
      assert (0 < 10 ^ s) by lia. split; [|apply Z.div_lt_upper_bound; nia].
      assert (0 <= get_mantissa f / 10 ^ s) by (apply Z.div_pos; lia). lia.
    + replace s with 0 by lia. rewrite Z.div_1_r, i64_small by lia. done.
Qed.

(** [float_negate] yields the valid XFL of the opposite number, and negating
    twice gives the XFL back. *)
Theorem float_negate_correct f :
  xfl_ok f -> exists g, float_negate f = Val g /\ xfl_ok g /\ xfl_num g = - xfl_num f /\
    float_negate g = Val f.
Proof.
  intros Hf. unfold float_negate. destruct (Z.eqb_spec f 0) as [->|H0]; [by exists 0|].
  rewrite xfl_ok_invalid by done. destruct (xfl_ok_parts f Hf H0) as (Hpos & Hr & E).
  set (m := get_mantissa f) in *. set (e := get_exponent f) in *.
  assert (forall b, invert_sign (xfl_pack m e b) = xfl_pack m e (negb b)) as Hinv.
  { intros b. unfold invert_sign. pose proof (xfl_pack_bounds m e b Hr). rewrite u64_small by lia.
    change (Z.shiftl 1 62) with (2 ^ 62). assert (0 <= xfl_pack m e true < 2 ^ 62) as Hb62 by (unfold xfl_pack; unfold_range; lia).
    destruct b; cbn [negb].
    - rewrite lxor_bit_62, i64_small by lia. unfold xfl_pack. lia.
    - replace (xfl_pack m e false) with (xfl_pack m e true + 2 ^ 62) by (unfold xfl_pack; lia).
      rewrite <- lxor_bit_62 by lia. rewrite Z.lxor_assoc, Z.lxor_nilpotent, Z.lxor_0_r, i64_small by lia. done. }
  rewrite make_float_pack in E by done. rewrite E, Hinv.
  pose proof (xfl_pack_bounds m e (negb (is_negative f)) Hr) as Hb.
  pose proof (make_float_spec m e (negb (is_negative f)) Hr) as (Hb' & Hv & Em & Ee & En).
  rewrite make_float_pack in Hv, Em, Ee, En by done.
  eexists. split; [done|]. split; [by split; [|lia]|]. split.
  - unfold xfl_num. rewrite Em, Ee, En. rewrite (proj2 (Z.eqb_neq _ 0)) by lia. rewrite <- E.
    rewrite (proj2 (Z.eqb_neq f 0)) by done. fold m e. destruct (is_negative f); cbn [negb]; ring.
  - rewrite (proj2 (Z.eqb_neq _ 0)) by lia. rewrite xfl_ok_invalid by (by split; [|lia]).
    by rewrite Hinv, negb_involutive.
Qed.

(** ** Products *)

Section products.
Context {L : Log10}.

(** The sixteen or seventeen leading digits of a product of mantissas. *)
Lemma product_bounds f1 f2 :
  xfl_ok f1 -> xfl_ok f2 -> f1 <> 0 -> f2 <> 0 ->
  minMantissa <= get_mantissa f1 * get_mantissa f2 / 10 ^ 15 < 10 ^ 17 /\
  -177 <= get_exponent f1 + get_exponent f2 + 15 <= 175.
Proof using Type.
  intros H1 H2 N1 N2. destruct (xfl_ok_parts f1 H1 N1) as (_ & R1 & _), (xfl_ok_parts f2 H2 N2) as (_ & R2 & _).
  unfold_range. split; [|lia].
  split; [apply Z.div_le_lower_bound; nia|apply Z.div_lt_upper_bound; nia].
Qed.

Lemma add32_room a b : - 2 ^ 30 <= a <= 2 ^ 30 -> - 2 ^ 30 < b < 2 ^ 30 -> add32 a b = Val (a + b).
Proof using Type.
  unfold add32, i32_fits. intros Ha Hb.
  rewrite (proj2 (Z.leb_le _ _)), (proj2 (Z.ltb_lt _ _)) by lia. done.
Qed.

Lemma float_multiply_unfold f1 f2 :
  xfl_ok f1 -> xfl_ok f2 -> f1 <> 0 -> f2 <> 0 ->
  float_multiply f1 f2 =
  (ret ← normalized false (get_mantissa f1 * get_mantissa f2 / 10 ^ 15)
           (get_exponent f1 + get_exponent f2 + 15) (xorb (is_negative f1) (is_negative f2));
   if ret =? EXPONENT_UNDERSIZED then Val 0
   else if ret =? EXPONENT_OVERSIZED then Val (rc XFL_OVERFLOW) else Val ret).
Proof using Type.
  intros H1 H2 N1 N2. destruct (product_bounds f1 f2 H1 H2 N1 N2) as [Hp He].
  unfold float_multiply. rewrite !xfl_ok_invalid, !(proj2 (Z.eqb_neq _ 0)) by done. cbn [orb].
  unfold float_multiply_internal_parts. rewrite pow10_Val by lia. cbn [mbind res_bind].
  rewrite u64_small, add32_room by (unfold_range; lia). cbn [mbind res_bind].
  by destruct (is_negative f1), (is_negative f2).
Qed.

(** The product of two valid XFLs does not depend on their order and is a
    valid XFL, zero, or [XFL_OVERFLOW]. *)
Theorem float_multiply_valid f1 f2 :
  xfl_ok f1 -> xfl_ok f2 ->
  float_multiply f1 f2 = float_multiply f2 f1 /\
  exists r, float_multiply f1 f2 = Val r /\ (r = XFL_OVERFLOW \/ xfl_ok r).
Proof using Type.
  intros H1 H2. destruct (Z.eq_dec f1 0) as [->|N1], (Z.eq_dec f2 0) as [->|N2].
  1-3: unfold float_multiply; rewrite !xfl_ok_invalid by done; cbn; rewrite ?orb_true_r;
    (split; [done|exists 0; split; [done|by right]]).
  rewrite !float_multiply_unfold by done. split.
  { by rewrite Z.mul_comm, (Z.add_comm (get_exponent f2)), xorb_comm. }
  destruct (product_bounds f1 f2 H1 H2 N1 N2) as [Hp He].
  destruct (normalize_abs_total false (get_mantissa f1 * get_mantissa f2 / 10 ^ 15)
    (get_exponent f1 + get_exponent f2 + 15) (xorb (is_negative f1) (is_negative f2)))
    as (r & man' & exp' & E & Hr); [unfold_range; lia|unfold exp_room; lia|].
  unfold normalized, normalize_xfl. cbn [andb]. rewrite E. cbn [mbind res_bind].
  exists r. destruct Hr as [->|[->|[Hv Hb]]]; [split; [done|by right]|split; [done|by left]|].
  change (rc EXPONENT_UNDERSIZED) with (-29). change (rc EXPONENT_OVERSIZED) with (-28).
  rewrite !(proj2 (Z.eqb_neq _ _)) by lia. split; [done|]. right. split; [done|lia].
Qed.

(** A product is truncated to sixteen digits: with [p] the product of the
    mantissas less fifteen digits, which has sixteen or seventeen digits and is
    not just below a power of ten, the result has the first sixteen digits of [p],
    the sum of the exponents and the product of the signs. *)
Theorem float_multiply_trunc f1 f2 :
  xfl_ok f1 -> xfl_ok f2 -> f1 <> 0 -> f2 <> 0 ->
  let p := get_mantissa f1 * get_mantissa f2 / 10 ^ 15 in
  p <= 10 ^ 16 - 285 \/ 10 ^ 16 <= p <= 10 ^ 17 - 2843 ->
  let M := if p <? 10 ^ 16 then p else p / 10 in
  let E := get_exponent f1 + get_exponent f2 + (if p <? 10 ^ 16 then 15 else 16) in
  float_multiply f1 f2 =
  Val (if E <? minExponent then 0 else if maxExponent <? E then rc XFL_OVERFLOW
       else make_float M E (xorb (is_negative f1) (is_negative f2))).
Proof using Type.
  intros H1 H2 N1 N2 p Hc M E. destruct (product_bounds f1 f2 H1 H2 N1 N2) as [Hp He].
  rewrite float_multiply_unfold by done. fold p in Hp |- *. unfold normalized.
  set (neg := xorb _ _). set (k := if p <? 10 ^ 16 then 15 else 16).
  assert (10 ^ k <= p < 10 ^ (k + 1) /\ p + 10 ^ (k + 1) / 2 ^ 45 <= 10 ^ (k + 1) /\ 0 <= k <= 19) as (Hk1 & Hk2 & Hk3).
  { subst k. unfold_range. destruct (Z.ltb_spec p (10 ^ 16)).
    - change (15 + 1) with 16. change (10 ^ 16 / 2 ^ 45) with 284. lia.
    - change (16 + 1) with 17. change (10 ^ 17 / 2 ^ 45) with 2842. lia. }
  destruct (normalize_xfl_trunc false p (get_exponent f1 + get_exponent f2 + 15) neg k Hk3 Hk1 Hk2)
    as [-> HM]; [lia|unfold exp_room; lia|].
  assert ((if k <=? 15 then p * 10 ^ (15 - k) else p / 10 ^ (k - 15)) = M) as EM.
  { subst k M. destruct (Z.ltb_spec p (10 ^ 16)); [|done]. cbn. by rewrite Z.mul_1_r. }
  rewrite EM in *. replace (get_exponent f1 + get_exponent f2 + 15 + k - 15) with E
    by (subst k E; destruct (p <? 10 ^ 16); lia).
  cbn [mbind res_bind]. destruct (Z.ltb_spec E minExponent); [done|].
  destruct (Z.ltb_spec maxExponent E); [done|]. cbn -[make_float].
  pose proof (make_float_spec M E neg ltac:(done)) as (Hb & _).
  rewrite !(proj2 (Z.eqb_neq _ _)) by lia. done.
Qed.
End products.

(** ** Division *)

(** One digit: the remainder is positive and at most the divisor. *)
Lemma div_digit_spec fuel r d i :
  0 < d -> 0 < r <= Z.of_nat fuel * d ->
  exists n, div_digit fuel r d i = (r - n * d, i + n) /\ 0 <= n /\ 0 < r - n * d <= d.
Proof.
  revert r i. induction fuel as [|fuel IH]; intros r i Hd Hr; [lia|]. cbn [div_digit].
  destruct (Z.ltb_spec d r).
  - destruct (IH (r - d) (i + 1)) as (n & -> & Hn & Hr'); [lia|nia|].
    exists (n + 1). split; [f_equal; lia|]. split; [lia|nia].
  - exists 0. split; [f_equal; lia|]. lia.
Qed.

(** The digits: [t] is the number they form, [K] the places after the first.
    Dividing the divisor by ten at each place truncates it, which costs at most
    nineteen units per place. *)
Lemma div_digits_spec fuel n r d q e :
  (n <= fuel)%nat -> 0 < d < 10 ^ Z.of_nat n -> 0 < r <= 19 * d ->
  0 <= q -> (q + 3) * 10 ^ Z.of_nat n < 2 ^ 63 ->
  exists K t, div_digits fuel r d q e = (q * 10 ^ (K + 1) + t, e - K) /\
    0 <= K < Z.of_nat n /\ 10 ^ K <= d < 10 ^ (K + 1) /\ 0 <= t /\ 9 * t <= 19 * (10 ^ (K + 1) - 1) /\
    t * d - 19 * (K + 1) * 10 ^ K <= r * 10 ^ K <= t * d + 9 * 10 ^ K.
Proof.
  revert n r d q e. induction fuel as [|fuel IH]; intros n r d q e Hn Hd Hr Hq Hb;
    (destruct n as [|n]; [change (10 ^ Z.of_nat 0) with 1 in Hd; lia|]); [lia|].
  rewrite Nat2Z.inj_succ, Z.pow_succ_r in Hd, Hb by lia.
  assert (0 < 10 ^ Z.of_nat n) by lia. cbn [div_digits]. rewrite (proj2 (Z.ltb_lt 0 d)) by lia.
  destruct (div_digit_spec 20 r d 0) as (i & -> & Hi & Hr'); [lia|lia|]. rewrite Z.add_0_l.
  assert (i <= 18) by nia. rewrite (u64_small (q * 10)), u64_small by nia.
  pose proof (Z.div_mod d 10 ltac:(lia)) as Hdm. pose proof (Z.mod_pos_bound d 10 ltac:(lia)).
  destruct (Z.eqb_spec (d / 10) 0) as [E0|E0].
  - exists 0, i. rewrite Z.sub_0_r. cbn [Z.add]. rewrite Z.pow_0_r, Z.pow_1_r.
    split; [done|]. repeat split; try lia; nia.
  - assert (0 < d / 10) by lia.
    destruct (IH n (r - i * d) (d / 10) (q * 10 + i) (e - 1)) as (K & t & -> & HK & HKd & Ht & Ht9 & Hlo & Hhi);
      [lia|lia|lia|lia|nia|].
    exists (K + 1), (i * 10 ^ (K + 1) + t).
    assert (10 ^ (K + 1 + 1) = 10 * 10 ^ (K + 1)) as E2 by (rewrite Z.add_comm, Z.pow_add_r by lia; lia).
    assert (10 ^ (K + 1) = 10 * 10 ^ K) as E1 by (rewrite Z.add_comm, Z.pow_add_r by lia; lia).
    rewrite E2 in *. rewrite E1 in *. set (P := 10 ^ K) in *. assert (0 < P) by (unfold P; lia).
    split; [f_equal; [ring|lia]|]. repeat split; try lia; nia.
Qed.

(** Aligning the divisor: it is at most the dividend and more than a tenth of it,
    and at most its last digit was dropped. *)
Lemma div_align N D e :
  minMantissa <= N <= maxMantissa -> minMantissa <= D <= maxMantissa ->
  exists d1 x1 D' x, div_shrink 20 N D e = (d1, x1) /\ d1 <> 0 /\ div_grow 20 N d1 x1 = (D', x) /\
    10 ^ 14 <= D' < 10 ^ 16 /\ D' <= N <= 10 * D' + 9 /\
    ((x = e /\ D - 9 <= D' <= D) \/ (x = e + 1 /\ D - 9 <= 10 * D' <= D)).
Proof.
  intros HN HD. unfold_range. cbn [div_shrink]. destruct (Z.ltb_spec N D) as [Hlt|Hge].
  - pose proof (Z.div_mod D 10 ltac:(lia)). pose proof (Z.mod_pos_bound D 10 ltac:(lia)).
    rewrite (proj2 (Z.ltb_ge N (D / 10))) by lia. exists (D / 10), (e + 1).
    cbn [div_grow]. rewrite (proj2 (Z.ltb_lt (D / 10) N)), u64_small by lia.
    destruct (Z.ltb_spec N (D / 10 * 10));
      [exists (D / 10), (e + 1)|exists (D / 10 * 10), e; rewrite Z.add_simpl_r];
      (split; [done|]); (split; [lia|]); [split; [done|lia]|].
    destruct (Z.ltb_spec (D / 10 * 10) N); [|split; [done|lia]].
    rewrite u64_small, (proj2 (Z.ltb_lt N _)) by lia. split; [done|lia].
  - exists D, e, D, e. split; [done|]. split; [lia|]. cbn [div_grow].
    destruct (Z.ltb_spec D N); [rewrite u64_small, (proj2 (Z.ltb_lt N _)) by lia|]; (split; [done|lia]).
Qed.

(** The error of the digits, relative to the divisor before it was aligned. *)
Lemma quotient_error t D D' N P K :
  0 <= K <= 15 -> 0 < P <= D' -> 0 <= t -> 9 * t <= 19 * (10 * P - 1) ->
  t * D' - 19 * (K + 1) * P <= N * P <= t * D' + 9 * P ->
  (D - 9 <= D' <= D -> Z.abs (t * D - N * P) <= 500 * D) /\
  (D - 9 <= 10 * D' <= D -> Z.abs (t * D - N * (10 * P)) <= 500 * D).
Proof.
  intros HK HP Ht Ht9 Hb. assert (0 <= (15 - K) * P) by (apply Z.mul_nonneg_nonneg; lia).
  assert (19 * (K + 1) * P <= 304 * P) by lia. split; intros HD.
  - assert (0 <= t * (D - D') <= t * 9) by (split; [apply Z.mul_nonneg_nonneg|apply Z.mul_le_mono_nonneg_l]; lia).
    replace (t * D) with (t * D' + t * (D - D')) by ring. lia.
  - assert (0 <= t * (D - 10 * D') <= t * 9) by (split; [apply Z.mul_nonneg_nonneg|apply Z.mul_le_mono_nonneg_l]; lia).
    replace (t * D) with (10 * (t * D') + t * (D - 10 * D')) by ring. lia.
Qed.

Section division.
Context {L : Log10}.

Lemma normalize_mantissa f :
  xfl_ok f -> f <> 0 -> get_mantissa f <= 10 ^ 16 - 285 ->
  normalize_xfl false (get_mantissa f) (get_exponent f) false =
  Val (make_float (get_mantissa f) (get_exponent f) false, get_mantissa f, get_exponent f).
Proof using Type.
  intros Hf H0 Hc. destruct (xfl_ok_parts f Hf H0) as (_ & Hr & _). unfold_range.
  destruct (normalize_xfl_trunc false (get_mantissa f) (get_exponent f) false 15) as [-> _];
    try (change (10 ^ (15 + 1) / 2 ^ 45) with 284); unfold exp_room; try lia.
  cbn -[make_float Z.mul]. rewrite Z.mul_1_r, Z.add_simpl_r. unfold_range.
  rewrite !(proj2 (Z.ltb_ge _ _)) by lia. done.
Qed.

(** Long division.  Away from the next power of ten, the quotient that is
    normalised into the result is within 500 units in its last place of the exact
    one: [q] times the second mantissa differs from the first mantissa, shifted by
    [K] places, by at most 500 times the second; the exponent accounts for the
    shift, and the sign is the product of the signs. *)
Theorem float_divide_accuracy f1 f2 :
  xfl_ok f1 -> xfl_ok f2 -> f1 <> 0 -> f2 <> 0 -> f2 <> float_one_internal ->
  get_mantissa f1 <= 10 ^ 16 - 285 -> get_mantissa f2 <= 10 ^ 16 - 285 ->
  exists q K,
    float_divide f1 f2 = normalized false q (get_exponent f1 - get_exponent f2 - K)
                           (xorb (is_negative f1) (is_negative f2)) /\
    10 ^ 13 <= q /\
    Z.abs (q * get_mantissa f2 - get_mantissa f1 * 10 ^ K) <= 500 * get_mantissa f2.
Proof using Type.
  intros H1 H2 N1 N2 Hone C1 C2.
  destruct (xfl_ok_parts f1 H1 N1) as (_ & R1 & _), (xfl_ok_parts f2 H2 N2) as (_ & R2 & _).
  pose proof (make_float_spec _ _ false R1) as (B1 & _). pose proof (make_float_spec _ _ false R2) as (B2 & _).
  unfold float_divide, float_divide_internal.
  rewrite !xfl_ok_invalid, !(proj2 (Z.eqb_neq _ _)) by done.
  rewrite !normalize_mantissa by done. cbn [mbind res_bind].
  rewrite !(proj2 (Z.ltb_ge _ 0)), (proj2 (Z.eqb_neq _ 0)) by lia. cbn [orb].
  destruct R1 as [M1 E1], R2 as [M2 E2].
  destruct (div_align _ _ (get_exponent f2) M1 M2) as (d1 & x1 & D' & x & -> & Hd1 & Hgrow & HD' & HN & Hx).
  rewrite (proj2 (Z.eqb_neq d1 0)), Hgrow by done.
  set (N := get_mantissa f1) in *. set (D := get_mantissa f2) in *.
  destruct (div_digits_spec 20 16 N D' 0 (get_exponent f1 - x)) as (K & t & -> & HK & HKd & Ht & Ht9 & Hlo & Hhi);
    [lia|cbn; lia|lia|lia|cbn; lia|]. rewrite Z.mul_0_l, Z.add_0_l.
  assert (10 ^ (K + 1) = 10 * 10 ^ K) as EK by (rewrite Z.pow_add_r by lia; lia).
  assert (0 < 10 ^ K) by lia. rewrite EK in *.
  assert (K <= 15) by (destruct (Z.le_gt_cases K 15); [done|];
    assert (10 ^ 16 <= 10 ^ K) by (apply Z.pow_le_mono_r; lia); lia).
  assert (14 <= K) by (destruct (Z.le_gt_cases 14 K); [done|];
    assert (10 ^ (K + 1) <= 10 ^ 14) by (apply Z.pow_le_mono_r; lia); lia).
  assert (10 ^ 14 <= 10 ^ K) by (apply Z.pow_le_mono_r; lia).
  exists t, (K + (x - get_exponent f2)). split.
  { replace (get_exponent f1 - get_exponent f2 - (K + (x - get_exponent f2))) with (get_exponent f1 - x - K) by lia.
    by destruct (is_negative f1), (is_negative f2). }
  destruct (quotient_error t D D' N (10 ^ K) K) as [Hsame Hshift]; [lia..|].
  split.
  { apply (Z.mul_le_mono_pos_r _ _ D'); [lia|].
    assert (D' * 10 ^ K <= N * 10 ^ K) by (apply Z.mul_le_mono_nonneg_r; lia).
    assert ((D' - 9) * 10 ^ 14 <= (D' - 9) * 10 ^ K) by (apply Z.mul_le_mono_nonneg_l; lia). lia. }
  destruct Hx as [[-> HDD]|[-> HDD]].
  - rewrite Z.sub_diag, Z.add_0_r. by apply Hsame.
  - replace (K + (get_exponent f2 + 1 - get_exponent f2)) with (K + 1) by lia. rewrite EK. by apply Hshift.
Qed.
End division.

(** ** Serialised amounts *)

(** [out[0]] to [out[7]] of an XRP amount. *)
Definition sto_xrp_bytes (man : Z) (neg : bool) : list Z :=
  [u8 ((if neg then 0 else 0x40) + u8 (Z.land (Z.shiftr man 56) 0x3F));
   u8 (Z.land (Z.shiftr man 48) 0xFF); u8 (Z.land (Z.shiftr man 40) 0xFF);
   u8 (Z.land (Z.shiftr man 32) 0xFF); u8 (Z.land (Z.shiftr man 24) 0xFF);
   u8 (Z.land (Z.shiftr man 16) 0xFF); u8 (Z.land (Z.shiftr man 8) 0xFF); u8 (Z.land man 0xFF)].

(** The same for an issued currency; [exp] already has 97 added. *)
Definition sto_iou_bytes (man exp : Z) (neg : bool) : list Z :=
  [u8 ((if neg then 0x80 else 0xC0) + u8 (Z.shiftr exp 2));
   u8 (u8 (Z.shiftl (u8 (Z.land exp 3)) 6) + Z.land (u8 (Z.shiftr man 48)) 0x3F);
   u8 (Z.land (Z.shiftr man 40) 0xFF); u8 (Z.land (Z.shiftr man 32) 0xFF);
   u8 (Z.land (Z.shiftr man 24) 0xFF); u8 (Z.land (Z.shiftr man 16) 0xFF);
   u8 (Z.land (Z.shiftr man 8) 0xFF); u8 (Z.land man 0xFF)].

Definition sto_zero_bytes : list Z := [0xC0; 0; 0; 0; 0; 0; 0; 0].

(** The field header, by the sizes of the type and field codes. *)
Definition sto_header (field type : Z) : list Z :=
  if (field <? 16) && (type <? 16) then [u8 (Z.shiftl (u8 type) 4 + u8 field)]
  else if (16 <=? field) && (type <? 16) then [u8 (Z.shiftl (u8 type) 4); u8 field]
  else if (field <? 16) && (16 <=? type) then [u8 (Z.shiftl (u8 field) 4); u8 type]
  else [0; u8 type; u8 field].

Definition sto_header_size (field type : Z) : Z :=
  if (field =? 0) && (type =? 0) then 0
  else if (field =? 0xFFFF) && (type =? 0xFFFF) then 0
  else if (field <? 16) && (type <? 16) then 1
  else if (16 <=? field) && (type <? 16) then 2
  else if (field <? 16) && (16 <=? type) then 2 else 3.

Section sto.
Context {S : Type} `{HasMem S} {L : Log10}.

(** The currency and issuer arguments: absent when the length is zero. *)
Definition sto_currency (cread_ptr cread_len : Z) : api S (option (list Z)) :=
  if cread_len =? 0 then
    _ ← return_if (negb (cread_ptr =? 0)) INVALID_ARGUMENT; mret None
  else
    _ ← return_if (negb (cread_len =? 20) && negb (cread_len =? 3)) INVALID_ARGUMENT;
    _ ← check_bounds cread_ptr cread_len;
    bs ← mem_bytes cread_ptr cread_len;
    match parseCurrency bs with
    | None => return_code INVALID_ARGUMENT
    | Some c => mret (Some c)
    end.

Definition sto_issuer (iread_ptr iread_len : Z) : api S (option (list Z)) :=
  if iread_len =? 0 then
    _ ← return_if (negb (iread_ptr =? 0)) INVALID_ARGUMENT; mret None
  else
    _ ← return_if (negb (iread_len =? 20)) INVALID_ARGUMENT;
    _ ← check_bounds iread_ptr iread_len;
    bs ← mem_bytes iread_ptr 20;
    mret (Some bs).

(** The eight bytes of the amount; an XRP amount must be an integer of drops. *)
Definition sto_amount (is_xrp : bool) (float1 : Z) : api S (list Z) :=
  let man := get_mantissa float1 in
  let exp := get_exponent float1 in
  let neg := is_negative float1 in
  if is_xrp then
    let shift := - exp in
    _ ← return_if (15 <? shift) 0;
    _ ← return_if (shift <? 0) XFL_OVERFLOW;
    man ← (if 0 <? shift then p ← lift (pow10 shift); mret (man / p) else mret man);
    mret (sto_xrp_bytes man neg)
  else if man =? 0 then mret sto_zero_bytes
  else mret (sto_iou_bytes man (exp + 97) neg).

Definition float_sto (write_ptr write_len cread_ptr cread_len iread_ptr iread_len float1 field_code : Z)
    : api S Z :=
  _ ← check_bounds write_ptr write_len;
  currency ← sto_currency cread_ptr cread_len;
  issuer ← sto_issuer iread_ptr iread_len;
  _ ← return_if (invalid_float float1) INVALID_FLOAT;
  let field := u16 (Z.land field_code 0xFFFF) in
  let type := u16 (Z.shiftr field_code 16) in
  let is_xrp := field_code =? 0 in
  let is_short := field_code =? 0xFFFFFFFF in
  let bytes_needed := 8 + sto_header_size field type in
  _ ← return_if (bool_decide (is_Some issuer) && negb (bool_decide (is_Some currency))) INVALID_ARGUMENT;
  _ ← return_if (negb (bool_decide (is_Some issuer)) && bool_decide (is_Some currency)) INVALID_ARGUMENT;
  bytes_needed ←
    (if bool_decide (is_Some issuer) then
       _ ← return_if (is_xrp || is_short) INVALID_ARGUMENT; mret (bytes_needed + 40)
     else _ ← return_if (negb is_xrp && negb is_short) INVALID_ARGUMENT; mret bytes_needed);
  _ ← return_if (write_len <? bytes_needed) TOO_SMALL;
  bytes_written ←
    (if is_xrp || is_short then mret 0
     else _ ← mem_poke write_ptr (sto_header field type); mret (vsize (sto_header field type)));
  out ← sto_amount is_xrp float1;
  n ← WRITE_WASM_MEMORY (write_ptr + bytes_written) (write_len - bytes_written) out;
  let bytes_written := bytes_written + n in
  if negb is_xrp && negb is_short then
    n ← WRITE_WASM_MEMORY (write_ptr + bytes_written) (write_len - bytes_written) (default [] currency);
    let bytes_written := bytes_written + n in
    n ← WRITE_WASM_MEMORY (write_ptr + bytes_written) (write_len - bytes_written) (default [] issuer);
    mret (bytes_written + n)
  else mret bytes_written.

(** How many header bytes precede the amount. *)
Definition sto_set_skip (b0 read_len : Z) : api S Z :=
  let hi := Z.shiftr b0 4 in
  let lo := Z.land b0 0xF in
  if (hi =? 0) && (lo =? 0) then _ ← return_if (read_len <? 11) NOT_AN_OBJECT; mret 3
  else if (hi =? 0) || (lo =? 0) then _ ← return_if (read_len <? 10) NOT_AN_OBJECT; mret 2
  else mret 1.

(** The amount in eight bytes: mantissa, exponent and sign, before normalising. *)
Definition sto_parse (b0 b1 b2 b3 b4 b5 b6 b7 : Z) : Z * Z * bool :=
  let is_xrp := Z.land b0 0x80 =? 0 in
  let neg := Z.land b0 0x40 =? 0 in
  let exponent := if is_xrp then 0 else Z.shiftl (Z.land b0 0x3F) 2 + Z.shiftr b1 6 - 97 in
  let mantissa :=
    u64 (Z.shiftl (Z.land b1 0x3F) 48 + Z.shiftl b2 40 + Z.shiftl b3 32 + Z.shiftl b4 24 +
         Z.shiftl b5 16 + Z.shiftl b6 8 + b7) in
  (mantissa, exponent, neg).

Definition float_sto_set (read_ptr read_len : Z) : api S Z :=
  _ ← return_if (read_len <? 8) NOT_AN_OBJECT;
  _ ← check_bounds read_ptr read_len;
  skip ← (if 8 <? read_len then b0 ← mem_byte read_ptr; sto_set_skip b0 read_len else mret 0);
  _ ← return_if (read_len - skip <? 8) NOT_AN_OBJECT;
  bs ← mem_bytes (read_ptr + skip) 8;
  match bs with
  | [b0; b1; b2; b3; b4; b5; b6; b7] =>
      let '(mantissa, exponent, neg) := sto_parse b0 b1 b2 b3 b4 b5 b6 b7 in
      if mantissa =? 0 then mret 0 else lift (normalized false mantissa exponent neg)
  | _ => stuck
  end.
End sto.

(** The ledger's own reader of such an amount, [STAmount::STAmount(SerialIter&)]
    ([protocol/impl/STAmount.cpp]), for an issued currency whose currency and
    issuer it accepts: mantissa, exponent and sign. *)
Definition cMinOffset : Z := -96.
Definition cMaxOffset : Z := 80.

Definition STAmount_iou (value : Z) : fres (Z * Z * bool) :=
  let offset := Z.shiftr value 54 in
  let value := Z.land value (Z.lnot (Z.shiftl 1023 54)) in
  if negb (value =? 0) then
    let isNegative := Z.land offset 256 =? 0 in
    let offset := Z.land offset 255 - 97 in
    if (value <? cMinValue) || (cMaxValue <? value) || (offset <? cMinOffset) || (cMaxOffset <? offset)
    then Err runtime_error
    else Val (value, offset, isNegative)
  else if negb (offset =? 512) then Err runtime_error
  else Val (0, 0, false).

(** The 64-bit big-endian number of eight bytes, [SerialIter::get64]. *)
Definition get64 (bs : list Z) : Z := foldl (fun acc b => 256 * acc + b) 0 bs.

(** ** The serialised form *)

Definition iou_word (m e : Z) (neg : bool) : Z :=
  2 ^ 63 + (if neg then 0 else 2 ^ 62) + (e + 97) * 2 ^ 54 + m.

Lemma land_ff z : Z.land z 0xFF = z mod 2 ^ 8.
Proof. apply (Z.land_ones z 8). lia. Qed.
Lemma land_3f z : Z.land z 0x3F = z mod 2 ^ 6.
Proof. apply (Z.land_ones z 6). lia. Qed.
Lemma land_3 z : Z.land z 3 = z mod 2 ^ 2.
Proof. apply (Z.land_ones z 2). lia. Qed.

(** Splitting a number into a byte and the rest. *)
Lemma byte_split z k : 0 <= k -> z / 2 ^ k = 256 * (z / 2 ^ (k + 8)) + (z / 2 ^ k) mod 2 ^ 8.
Proof.
  intros Hk. rewrite Z.pow_add_r, <- Z.div_div by lia. apply (Z.div_mod (z / 2 ^ k) (2 ^ 8)). lia.
Qed.

(** The bytes written for a sixteen-digit mantissa, as arithmetic. *)
Lemma sto_iou_bytes_eq m e neg :
  in_range m e ->
  sto_iou_bytes m (e + 97) neg =
  [(if neg then 0x80 else 0xC0) + (e + 97) / 4; (e + 97) mod 4 * 64 + m / 2 ^ 48;
   (m / 2 ^ 40) mod 2 ^ 8; (m / 2 ^ 32) mod 2 ^ 8; (m / 2 ^ 24) mod 2 ^ 8; (m / 2 ^ 16) mod 2 ^ 8;
   (m / 2 ^ 8) mod 2 ^ 8; m mod 2 ^ 8].
Proof.
  intros Hr. unfold sto_iou_bytes. unfold_range.
  assert (0 <= m / 2 ^ 48 < 2 ^ 6) by (split; [apply Z.div_pos|apply Z.div_lt_upper_bound]; lia).
  assert (0 <= (e + 97) / 4 < 2 ^ 6) by (split; [apply Z.div_pos|apply Z.div_lt_upper_bound]; lia).
  pose proof (Z.mod_pos_bound (e + 97) 4 ltac:(lia)).
  rewrite !land_ff, land_3, !Z.shiftr_div_pow2, Z.shiftl_mul_pow2 by lia. change (2 ^ 2) with 4.
  rewrite (u8_small ((e + 97) / 4)), (u8_small ((e + 97) mod 4)), (u8_small (m / 2 ^ 48)) by lia.
  rewrite land_3f, (Z.mod_small (m / 2 ^ 48)), (u8_small ((e + 97) mod 4 * 2 ^ 6)) by lia.
  assert (forall z, u8 (z mod 2 ^ 8) = z mod 2 ^ 8) as Hu by (intros z; apply u8_small, Z.mod_pos_bound; lia).
  rewrite !Hu, !u8_small by (destruct neg; lia). done.
Qed.

Lemma get64_sto m e neg : in_range m e -> get64 (sto_iou_bytes m (e + 97) neg) = iou_word m e neg.
Proof.
  intros Hr. rewrite sto_iou_bytes_eq by done. unfold_range. unfold iou_word. cbn [get64 foldl].
  pose proof (byte_split m 0 ltac:(lia)) as H0.
  rewrite Z.pow_0_r, Z.div_1_r in H0. change (0 + 8) with 8 in H0.
  pose proof (byte_split m 8 ltac:(lia)) as H8. pose proof (byte_split m 16 ltac:(lia)) as H16.
  pose proof (byte_split m 24 ltac:(lia)) as H24. pose proof (byte_split m 32 ltac:(lia)) as H32.
  pose proof (byte_split m 40 ltac:(lia)) as H40. pose proof (Z.div_mod (e + 97) 4 ltac:(lia)).
  change (8 + 8) with 16 in *. change (16 + 8) with 24 in *. change (24 + 8) with 32 in *.
  change (32 + 8) with 40 in *. change (40 + 8) with 48 in *.
  destruct neg; lia.
Qed.

Lemma land_40_zero b : byte_range b -> (Z.land b 0x40 =? 0) = (b mod 128 <? 64).
Proof.
  intros Hb.
  assert (forallb (fun n => Bool.eqb (Z.land (Z.of_nat n) 0x40 =? 0) (Z.of_nat n mod 128 <? 64)) (seq 0 256)
          = true) as Hall by reflexivity.
  rewrite forallb_forall in Hall. specialize (Hall (Z.to_nat b)). unfold byte_range in Hb.
  rewrite Z2Nat.id in Hall by lia. apply eqb_prop, Hall, in_seq. lia.
Qed.

(** Reading the eight bytes back. *)
Lemma sto_parse_iou m e neg :
  in_range m e ->
  match sto_iou_bytes m (e + 97) neg with
  | [b0; b1; b2; b3; b4; b5; b6; b7] => sto_parse b0 b1 b2 b3 b4 b5 b6 b7 = (m, e, neg)
  | _ => False
  end.
Proof.
  intros Hr. pose proof (get64_sto m e neg Hr) as Hw. rewrite sto_iou_bytes_eq in * by done. unfold_range.
  unfold iou_word in Hw. cbn [get64 foldl] in Hw.
  assert (0 <= m / 2 ^ 48 < 2 ^ 6) by (split; [apply Z.div_pos|apply Z.div_lt_upper_bound]; lia).
  assert (0 <= (e + 97) / 4 < 2 ^ 6) by (split; [apply Z.div_pos|apply Z.div_lt_upper_bound]; lia).
  pose proof (Z.mod_pos_bound (e + 97) 4 ltac:(lia)). pose proof (Z.div_mod (e + 97) 4 ltac:(lia)).
  unfold sto_parse. set (b0 := (if neg then 0x80 else 0xC0) + (e + 97) / 4).
  assert (byte_range b0) as Hb0 by (unfold byte_range, b0; destruct neg; lia).
  rewrite land_80_zero, land_40_zero, !land_3f, !Z.shiftr_div_pow2, !Z.shiftl_mul_pow2 by (done || lia).
  assert (b0 mod 2 ^ 6 = (e + 97) / 4) as ->.
  { symmetry. apply (Z.mod_unique_pos _ _ (if neg then 2 else 3)); unfold b0; destruct neg; lia. }
  assert (b0 mod 128 = (if neg then 0 else 64) + (e + 97) / 4) as ->.
  { symmetry. apply (Z.mod_unique_pos _ _ 1); unfold b0; destruct neg; lia. }
  rewrite (proj2 (Z.ltb_ge b0 128)) by (unfold b0; destruct neg; lia).
  assert (((e + 97) mod 4 * 64 + m / 2 ^ 48) / 2 ^ 6 = (e + 97) mod 4) as ->.
  { symmetry. apply (Z.div_unique_pos _ _ _ (m / 2 ^ 48)); lia. }
  assert (((e + 97) mod 4 * 64 + m / 2 ^ 48) mod 2 ^ 6 = m / 2 ^ 48) as ->.
  { symmetry. apply (Z.mod_unique_pos _ _ ((e + 97) mod 4)); lia. }
  f_equal; [f_equal|].
  - rewrite u64_small; destruct neg; lia.
  - lia.
  - destruct neg; [apply Z.ltb_lt; lia|apply Z.ltb_ge; lia].
Qed.

Lemma land_256 x : Z.land x 256 = if Z.testbit x 8 then 256 else 0.
Proof.
  change 256 with (2 ^ 8). apply Z.bits_inj'. intros i Hi. rewrite Z.land_spec, Z.pow2_bits_eqb by lia.
  destruct (Z.eqb_spec 8 i) as [<-|Hne].
  - rewrite andb_true_r. destruct (Z.testbit x 8); [by rewrite Z.pow2_bits_true by lia|by rewrite Z.bits_0].
  - rewrite andb_false_r. destruct (Z.testbit x 8); [|by rewrite Z.bits_0].
    rewrite Z.pow2_bits_eqb by lia. symmetry. by apply Z.eqb_neq.
Qed.

(** The ledger's deserialiser reads from the bytes [float_sto] writes for a
    number other than zero exactly its mantissa, exponent and sign. *)
Theorem STAmount_reads_float_sto f :
  xfl_ok f -> f <> 0 ->
  STAmount_iou (get64 (sto_iou_bytes (get_mantissa f) (get_exponent f + 97) (is_negative f))) =
  Val (get_mantissa f, get_exponent f, is_negative f).
Proof.
  intros Hf H0. destruct (xfl_ok_parts f Hf H0) as (_ & Hr & _). rewrite get64_sto by done.
  set (m := get_mantissa f) in *. set (e := get_exponent f) in *. set (neg := is_negative f).
  unfold STAmount_iou, iou_word. unfold_range.
  set (s := if neg then 2 else 3). set (v := 2 ^ 63 + _ + _ + m).
  assert (v = (s * 2 ^ 8 + (e + 97)) * 2 ^ 54 + m) as Ev by (unfold v, s; destruct neg; lia).
  assert (Z.shiftr v 54 = s * 2 ^ 8 + (e + 97)) as Eo.
  { rewrite Z.shiftr_div_pow2 by lia. symmetry. apply (Z.div_unique_pos _ _ _ m); lia. }
  assert (Z.land v (Z.lnot (Z.shiftl 1023 54)) = m) as Em.
  { change (Z.shiftl 1023 54) with (Z.shiftl (Z.ones 10) 54).
    rewrite <- (Z.mod_small m (2 ^ 54)), <- Z.land_ones by lia. apply Z.bits_inj'. intros i Hi.
    rewrite !Z.land_spec, Z.lnot_spec, Z.shiftl_spec, (Z.testbit_ones_nonneg 54) by lia.
    assert (0 <= v < 2 ^ 64) as Hv by (unfold s in Ev; destruct neg; lia).
    destruct (Z.ltb_spec i 54) as [Hlt|Hge].
    - rewrite (Z.testbit_neg_r _ (i - 54)), !andb_true_r by lia.
      rewrite <- (Z.mod_pow2_bits_low v 54), <- (Z.mod_pow2_bits_low m 54) by lia.
      by rewrite Ev, Z.add_comm, Z.mod_add by lia.
    - rewrite andb_false_r. destruct (Z.lt_ge_cases i 64).
      + rewrite Z.testbit_ones_nonneg, (proj2 (Z.ltb_lt _ _)) by lia. by rewrite andb_false_r.
      + by rewrite (testbit_small v 64) by lia. }
  rewrite Eo, Em, (proj2 (Z.eqb_neq m 0)) by lia. cbn [negb].
  change 255 with (Z.ones 8). rewrite Z.land_ones by lia.
  assert ((s * 2 ^ 8 + (e + 97)) mod 2 ^ 8 = e + 97) as ->.
  { symmetry. apply (Z.mod_unique_pos _ _ s); lia. }
  unfold cMinValue, cMaxValue, cMinOffset, cMaxOffset.
  rewrite !(proj2 (Z.ltb_ge _ _)) by lia. cbn [orb]. f_equal. f_equal; [f_equal; lia|].
  rewrite land_256, Z.testbit_odd, Z.shiftr_div_pow2 by lia.
  assert ((s * 2 ^ 8 + (e + 97)) / 2 ^ 8 = s) as -> by (symmetry; apply (Z.div_unique_pos _ _ _ (e + 97)); lia).
  unfold s. by destruct neg.
Qed.

(** The bytes written for zero are not the ledger's canonical zero: reading them
    throws. *)
Lemma STAmount_rejects_float_sto_zero : STAmount_iou (get64 sto_zero_bytes) = Err runtime_error.
Proof. vm_compute. reflexivity. Qed.

(** A number written by [float_sto] in its short form is read back by
    [float_sto_set] from the same place, whatever the memory held: both calls
    succeed, eight bytes change, and the result is the number (away from the next
    power of ten, where normalising may round). *)
Theorem float_sto_roundtrip {L : Log10} (mem : list Z) ptr f :
  xfl_ok f -> get_mantissa f <= 10 ^ 16 - 285 -> 0 <= ptr < 2 ^ 32 -> ptr + 8 <= vsize mem ->
  exists bytes, vsize bytes = 8 /\
    float_sto ptr 8 0 0 0 0 f 0xFFFFFFFF mem = Next (splice mem ptr bytes) 8 /\
    float_sto_set ptr 8 (splice mem ptr bytes) = Next (splice mem ptr bytes) f.
Proof.
  intros Hf Hc Hp Hm. set (m := get_mantissa f) in *. set (e := get_exponent f). set (neg := is_negative f).
  exists (if m =? 0 then sto_zero_bytes else sto_iou_bytes m (e + 97) neg).
  set (bytes := if m =? 0 then _ else _). assert (vsize bytes = 8) as Hlen by (unfold bytes; by case_match).
  split; [done|]. split.
  - unfold float_sto. rewrite run_check_bounds by (cbn; lia).
    erewrite run_bind by done. erewrite run_bind by done.
    rewrite run_return_if by (by apply xfl_ok_invalid).
    change (u16 (Z.land 0xFFFFFFFF 0xFFFF)) with 0xFFFF. change (u16 (Z.shiftr 0xFFFFFFFF 16)) with 0xFFFF.
    rewrite !run_return_if by done. erewrite run_bind by done. rewrite run_return_if by done.
    erewrite run_bind by done.
    assert (sto_amount (0xFFFFFFFF =? 0) f mem = Next mem bytes) as Ea.
    { unfold sto_amount. cbn [Z.eqb]. fold m e neg. unfold bytes. by case_match. }
    erewrite run_bind by exact Ea. rewrite run_WRITE by (cbn -[vsize]; lia).
    cbn -[vsize splice]. by rewrite Z.add_0_r, Hlen.
  - set (mem' := splice mem ptr bytes). assert (vsize mem' = vsize mem) as Hl' by (apply splice_length; lia).
    unfold float_sto_set. rewrite run_return_if by done. rewrite run_check_bounds by (cbn -[vsize]; lia).
    erewrite run_bind by done. rewrite run_return_if by done. rewrite run_mem_bytes by (cbn -[vsize]; lia).
    cbn [get_mem mem_only]. rewrite Z.add_0_r.
    pose proof (splice_same mem ptr bytes ltac:(lia) ltac:(lia)) as Es. rewrite Hlen in Es. fold mem' in Es. rewrite Es.
    destruct (Z.eq_dec f 0) as [->|H0]; [done|].
    destruct (xfl_ok_parts f Hf H0) as (_ & Hr & E). fold m e neg in Hr, E.
    unfold bytes. rewrite (proj2 (Z.eqb_neq m 0)) by (unfold_range; lia).
    pose proof (sto_parse_iou m e neg Hr) as Hparse. unfold sto_iou_bytes in *. rewrite Hparse.
    rewrite (proj2 (Z.eqb_neq m 0)) by (unfold_range; lia).
    unfold normalized.
    destruct (normalize_xfl_trunc false m e neg 15) as [-> _];
      try (change (10 ^ (15 + 1) / 2 ^ 45) with 284); unfold exp_room; unfold_range; try lia.
    rewrite (proj2 (Z.leb_le 15 15)), Z.mul_1_r by lia. replace (e + 15 - 15) with e by lia. unfold_range.
    rewrite !(proj2 (Z.ltb_ge _ _)) by lia. cbn -[make_float]. by rewrite <- E.
Qed.

(** ** Logarithms and roots *)

Lemma make_float_result m e neg :
  0 <= m -> make_float m e neg < 0 \/ xfl_ok (make_float m e neg).
Proof.
  intros Hm. destruct (decide (in_range m e)) as [Hr|Hr].
  - right. destruct (make_float_spec m e neg Hr) as (Hb & Hv & _). split; [done|lia].
  - unfold make_float. destruct (Z.eqb_spec m 0); [right; done|].
    destruct (Z.ltb_spec maxMantissa m); [left; done|]. destruct (Z.ltb_spec m minMantissa); [left; done|].
    destruct (Z.ltb_spec maxExponent e); [left; done|]. destruct (Z.ltb_spec e minExponent); [left; done|].
    exfalso. apply Hr. unfold in_range. lia.
Qed.

Lemma double_to_xfl_result log10 pow x r :
  double_to_xfl log10 pow x = Val r -> r < 0 \/ xfl_ok r.
Proof.
  unfold double_to_xfl. intros H. case_if H; [injection H as <-; right; done|]. res_open.
  - right. done.
  - apply make_float_result. apply u64_bound.
Qed.

(** Whatever the C library's [log10] and [pow] return, [float_log] and
    [float_root] return an error code or a valid XFL when they return. *)
Theorem float_log_root_valid (log10 : double -> double) (pow : double -> double -> double) f n r :
  float_log log10 pow f = Val r \/ float_root log10 pow f n = Val r -> r < 0 \/ xfl_ok r.
Proof.
  intros [H|H]; [unfold float_log in H|unfold float_root in H];
    repeat (case_if H; [injection H as <-; (left; done) || (right; done)|]);
    by eapply double_to_xfl_result.
Qed.

(** ** Examples *)

Definition xfl_6 : Z := make_float 6000000000000000 (-15) false.
Definition xfl_3 : Z := make_float 3000000000000000 (-15) false.
Definition xfl_minus_half : Z := make_float 5000000000000000 (-16) true.

Lemma xfl_6_ok : xfl_ok xfl_6.
Proof. split; reflexivity. Qed.
Lemma xfl_3_ok : xfl_ok xfl_3.
Proof. split; reflexivity. Qed.
Lemma xfl_minus_half_ok : xfl_ok xfl_minus_half.
Proof. split; reflexivity. Qed.

Lemma float_sum_refines_witness :
  float_sum xfl_6 xfl_minus_half = Val (make_float 5500000000000000 (-15) false).
Proof. rewrite (float_sum_refines _ _ xfl_6_ok xfl_minus_half_ok). vm_compute. reflexivity. Defined.

Lemma float_compare_correct_witness : float_compare xfl_6 xfl_minus_half 5 = Val 1.
Proof.
  rewrite (float_compare_correct _ _ 5 xfl_6_ok xfl_minus_half_ok); [vm_compute; reflexivity|lia].
Defined.

Lemma float_int_floor_witness : float_int xfl_minus_half 1 1 = Val 5.
Proof.
  rewrite (float_int_floor _ 1 1 xfl_minus_half_ok); [vm_compute; reflexivity|discriminate|lia|reflexivity].
Defined.

Lemma float_negate_correct_witness :
  exists g, float_negate xfl_6 = Val g /\ xfl_ok g /\ xfl_num g = - xfl_num xfl_6 /\
    float_negate g = Val xfl_6.
Proof. apply (float_negate_correct xfl_6 xfl_6_ok). Defined.

Lemma float_multiply_valid_witness :
  float_multiply xfl_6 xfl_minus_half = float_multiply xfl_minus_half xfl_6 /\
  exists r, float_multiply xfl_6 xfl_minus_half = Val r /\ (r = XFL_OVERFLOW \/ xfl_ok r).
Proof. apply (float_multiply_valid _ _ xfl_6_ok xfl_minus_half_ok). Defined.

Lemma float_multiply_trunc_witness :
  float_multiply xfl_6 xfl_minus_half = Val (make_float 3000000000000000 (-15) true).
Proof.
  rewrite (float_multiply_trunc _ _ xfl_6_ok xfl_minus_half_ok);
    [vm_compute; reflexivity|discriminate|discriminate|].
  right. vm_compute. split; discriminate.
Defined.

Lemma float_divide_accuracy_witness :
  exists q K,
    float_divide xfl_6 xfl_3 = normalized false q (get_exponent xfl_6 - get_exponent xfl_3 - K)
                                 (xorb (is_negative xfl_6) (is_negative xfl_3)) /\
    10 ^ 13 <= q /\
    Z.abs (q * get_mantissa xfl_3 - get_mantissa xfl_6 * 10 ^ K) <= 500 * get_mantissa xfl_3.
Proof.
  apply (float_divide_accuracy _ _ xfl_6_ok xfl_3_ok); vm_compute; discriminate.
Defined.

Lemma STAmount_reads_float_sto_witness :
  STAmount_iou (get64 (sto_iou_bytes (get_mantissa xfl_6) (get_exponent xfl_6 + 97) (is_negative xfl_6))) =
  Val (get_mantissa xfl_6, get_exponent xfl_6, is_negative xfl_6).
Proof. apply (STAmount_reads_float_sto xfl_6 xfl_6_ok). discriminate. Defined.

Lemma float_sto_roundtrip_witness :
  exists bytes, vsize bytes = 8 /\
    float_sto 2 8 0 0 0 0 xfl_6 0xFFFFFFFF (replicate 16 7) = Next (splice (replicate 16 7) 2 bytes) 8 /\
    float_sto_set 2 8 (splice (replicate 16 7) 2 bytes) = Next (splice (replicate 16 7) 2 bytes) xfl_6.
Proof.
  apply (float_sto_roundtrip (replicate 16 7) 2 xfl_6 xfl_6_ok); vm_compute; first [discriminate|split; (discriminate || reflexivity)].
Defined.

Lemma float_log_root_valid_witness :
  let r := from_res 0 (float_log (fun _ => dbl 15) (fun _ _ => dbl (10 ^ 15)) xfl_6) in
  r < 0 \/ xfl_ok r.
Proof.
  apply (float_log_root_valid (fun _ => dbl 15) (fun _ _ => dbl (10 ^ 15)) xfl_6 2). left.
  vm_compute. reflexivity.
Defined.

(** The digit loop stops one subtraction early when the division is exact: six
    divided by three is 1.999999999999999. *)
Lemma float_divide_exact_division :
  float_divide xfl_6 xfl_3 = Val (make_float 1999999999999999 (-15) false).
Proof. vm_compute. reflexivity. Qed.

(** One is not neutral for the product just below a power of ten. *)
Lemma float_multiply_one_not_neutral :
  float_multiply (make_float 9999999999999999 0 false) float_one_internal =
  Val (make_float 1000000000000000 1 false).
Proof. vm_compute. reflexivity. Qed.

(** For a type code of 16 or more and a field code below 16 the header carries the
    field code in the high nibble, where the serialised format has zero. *)
Lemma sto_header_high_type : sto_header 2 17 = [0x20; 17].
Proof. vm_compute. reflexivity. Qed.

(** [float_set] with the smallest mantissa overflows a signed multiplication. *)
Lemma float_set_min_mantissa : float_set 0 (- 2 ^ 63) = Undef.
Proof. vm_compute. reflexivity. Qed.
