(* ===== verification/Sto.v ===== *)
(** * Sto: serialised objects in hook memory ([app/hook/impl/applyHook.cpp])

    [get_stobject_length] measures one serialised field; [sto_subfield],
    [sto_subarray], [sto_validate], [sto_emplace] and [sto_erase] walk an object
    or array with it.  Pointers into the WebAssembly memory are offsets into the
    byte list, [maxptr] and [end] the offset behind the last readable byte.

    The theorems: the measuring never reads outside its region and terminates;
    the editing calls write nothing outside their buffer; and seen as a list of
    fields, an object is edited the way its contract says: [sto_emplace] inserts
    or replaces at the canonical place, the result is again a well-formed object,
    and [sto_subfield] then finds the field. *)

From stdpp Require Import base numbers list option.
From Stdlib Require Import ZArith Lia Sorted.
From S2P Require Import Prelude Enum Runtime.

Local Open Scope Z_scope.

(** ** [get_stobject_length] *)

(** What the function returns and leaves in its out parameters when it succeeds;
    its negative results are the errors of the result type. *)
Record sto_item := mkItem {
  it_length : Z;
  it_type : Z;
  it_field : Z;
  payload_start : Z;
  payload_length : Z
}.

Abbreviation sto_res := (res Z).

(** The out parameters and the result are 32-bit numbers. *)
Definition item (total type field first payload : Z) : sto_item :=
  mkItem (i32 total) type field (i32 first) (i32 payload).

(** [if (upto >= end) return -1;] *)
Definition more (upto stop : Z) : sto_res unit := assert_or (-1) (upto <? stop).

(** The one to three header bytes: type, field and where they end. *)
Definition stobject_header (mem : list Z) (start stop : Z) : sto_res (Z * Z * Z) :=
  b ← rd mem start;
  let high := Z.shiftr b 4 in
  let low := Z.land b 0xF in
  let upto := start + 1 in
  _ ← more upto stop;
  '(type, field, upto) ←
    (if (0 <? high) && (0 <? low) then Val (high, low, upto)
     else if 0 <? high then field ← rd mem upto; Val (high, field, upto + 1)
     else if 0 <? low then type ← rd mem upto; Val (type, low, upto + 1)
     else type ← rd mem upto;
          _ ← more (upto + 1) stop;
          field ← rd mem (upto + 1);
          Val (type, field, upto + 2));
  _ ← more upto stop;
  Val (type, field, upto).

Definition known_type (type : Z) : bool :=
  negb ((type <? 1) || (19 <? type) || ((9 <=? type) && (type <=? 13))).

Definition is_vl (type : Z) : bool := (type =? 8) || (type =? 7) || (type =? 18) || (type =? 19).

(** The one to three bytes of a variable length. *)
Definition vl_length (mem : list Z) (upto stop : Z) : sto_res (Z * Z) :=
  length ← rd mem upto;
  let upto := upto + 1 in
  _ ← more upto stop;
  if length <? 193 then Val (length, upto)
  else if length <? 241 then
    b ← rd mem upto;
    _ ← assert_or (-1) (upto + 1 <=? stop);
    Val ((length - 193) * 256 + (b + 193), upto + 1)
  else
    b2 ← rd mem upto;
    _ ← more (upto + 1) stop;
    b3 ← rd mem (upto + 1);
    _ ← more (upto + 2) stop;
    Val ((length - 241) * 65536 + (12481 + b2 * 256 + b3), upto + 2).

Definition fixed_length (type : Z) : option Z :=
  if type =? 1 then Some 2
  else if type =? 2 then Some 4
  else if type =? 3 then Some 8
  else if type =? 4 then Some 16
  else if type =? 5 then Some 32
  else if type =? 16 then Some 1
  else if type =? 17 then Some 20
  else None.

(** The loop over the members of an object or array; [sub] measures one. *)
Fixpoint sto_members (sub : Z -> sto_res sto_item) (mem : list Z) (start stop type first : Z)
    (rounds : nat) (upto : Z) : sto_res (Z * Z) :=
  match rounds with
  | O => Err (-5)
  | S rounds =>
    match sub upto with
    | Err _ => Err (-1)
    | Undef => Undef
    | Val it =>
      _ ← assert_or (-1) (0 <=? it_length it);
      let upto := upto + it_length it in
      _ ← more upto stop;
      b ← rd mem upto;
      if ((b =? 0xE1) && (type =? 0xE)) || ((b =? 0xF1) && (type =? 0xF))
      then Val (upto + 1 - start, upto - start - first)
      else sto_members sub mem start stop type first rounds upto
    end
  end.

(** The part behind the header, by the kind of the type. *)
Definition measure_payload (sub : Z -> sto_res sto_item) (mem : list Z)
    (start maxptr type field upto : Z) : sto_res sto_item :=
  if is_vl type then
    '(length, upto) ← vl_length mem upto maxptr;
    Val (item (length + (upto - start)) type field (upto - start) length)
  else match fixed_length type with
  | Some length => Val (item (length + (upto - start)) type field (upto - start) length)
  | None =>
    if type =? 6 then
      b ← rd mem upto;
      let length := if Z.shiftr b 6 =? 1 then 8 else 48 in
      _ ← more upto maxptr;
      Val (item (length + (upto - start)) type field (upto - start) length)
    else if (type =? 15) || (type =? 14) then
      '(total, payload) ← sto_members sub mem start maxptr type (upto - start) 1024 upto;
      Val (item total type field (upto - start) payload)
    else Err (-3)
  end.

(** [levels] is what [recursion_depth] has left: 11 at the outermost call. *)
Fixpoint get_stobject_length (levels : nat) (mem : list Z) (start maxptr : Z) : sto_res sto_item :=
  match levels with
  | O => Err (-4)
  | S levels =>
    '(type, field, upto) ← stobject_header mem start maxptr;
    _ ← assert_or (-2) (known_type type);
    measure_payload (fun p => get_stobject_length levels mem p maxptr) mem start maxptr type field upto
  end.

Definition top_levels : nat := 11.

(** The identifier callers compare with: [(type << 16) + field]. *)
Definition item_id (it : sto_item) : Z := u32 (Z.shiftl (it_type it) 16 + it_field it).

(** ** Walking an object *)

(** The four callers share the loop: at most 1024 rounds, each measuring the
    field at [upto]; [stop_at] looks at it and may end the walk. *)
Fixpoint walk {A} (mem : list Z) (stop : Z) (stop_at : nat -> Z -> sto_item -> option A)
    (round rounds : nat) (upto : Z) : sto_res (Z + A) :=
  match rounds with
  | O => Val (inl upto)
  | S rounds =>
    if upto <? stop then
      it ← get_stobject_length top_levels mem upto stop;
      _ ← assert_or (it_length it) (0 <=? it_length it);
      match stop_at round upto it with
      | Some a => Val (inr a)
      | None => walk mem stop stop_at (S round) rounds (upto + it_length it)
      end
    else Val (inl upto)
  end.

Definition pair64 (offset length : Z) : Z := i64 (Z.shiftl offset 32 + u32 length).

Section sto.
Context {S : Type} `{HasMem S}.

(** Runs a walk over the instance's memory: what it returns on a field that does
    not parse is the caller's choice. *)
Definition run_walk {A} (bad : Z) (stop : Z) (stop_at : nat -> Z -> sto_item -> option A) (upto : Z)
    : api S (Z + A) := fun s =>
  match walk (get_mem s) stop stop_at 0 1024 upto with
  | Val a => Next s a
  | Err _ => Ret s bad
  | Undef => Stuck
  end.

Definition sto_subfield (read_ptr read_len field_id : Z) : api S Z :=
  _ ← check_bounds read_ptr read_len;
  _ ← return_if (read_len <? 2) TOO_SMALL;
  let start := read_ptr in
  let stop := start + read_len in
  r ← run_walk PARSE_ERROR stop (fun _ upto it =>
    if item_id it =? field_id then
      Some (if it_type it =? 0xF then pair64 (upto - start) (it_length it)
            else pair64 (upto - start + payload_start it) (payload_length it))
    else None) start;
  match r with
  | inr found => return_code found
  | inl upto => if negb (upto =? stop) then return_code PARSE_ERROR else return_code DOESNT_EXIST
  end.

Definition sto_subarray (read_ptr read_len index_id : Z) : api S Z :=
  _ ← check_bounds read_ptr read_len;
  _ ← return_if (read_len <? 2) TOO_SMALL;
  let start := read_ptr in
  b ← mem_byte start;
  let wrapped := Z.land b 0xF0 =? 0xF0 in
  let upto := if wrapped then start + 1 else start in
  let stop := if wrapped then start + read_len - 1 else start + read_len in
  _ ← return_if (stop <=? upto) PARSE_ERROR;
  r ← run_walk PARSE_ERROR stop (fun i upto it =>
    if Z.of_nat i =? index_id then Some (i64 (Z.shiftl (upto - start) 32 + it_length it))
    else None) upto;
  match r with
  | inr found => return_code found
  | inl upto => if negb (upto =? stop) then return_code PARSE_ERROR else return_code DOESNT_EXIST
  end.

Definition sto_validate (read_ptr read_len : Z) : api S Z :=
  _ ← check_bounds read_ptr read_len;
  _ ← return_if (read_len <? 2) TOO_SMALL;
  let stop := read_ptr + read_len in
  r ← run_walk (A := Empty_set) 0 stop (fun _ _ _ => None) read_ptr;
  match r with
  | inl upto => return_code (if upto =? stop then 1 else 0)
  | inr e => match (e : Empty_set) with end
  end.

(** Two regions collide; the first two numbers of a region list are one region. *)
Definition collide (r1 r2 : Z * Z) : bool := negb ((r2.2 <=? r1.1) || (r1.2 <=? r2.1)).

Definition overlapping_memory (regions : list (Z * Z)) : bool :=
  existsb (fun i => existsb (fun j =>
    negb (Nat.eqb j i) &&
    match regions !! i, regions !! j with
    | Some r1, Some r2 => collide r1 r2
    | _, _ => false
    end) (seq 0 (length regions))) (seq 0 (length regions)).

(** [WRITE_WASM_MEMORY] from a pointer into the memory itself. *)
Definition copy_within (dst room src n : Z) : api S Z :=
  bs ← mem_bytes src n; WRITE_WASM_MEMORY dst room bs.

(** Where the field goes: the stretch of the source it replaces. *)
Definition inject_at (field_id : Z) (_ : nat) (upto : Z) (it : sto_item) : option (Z * Z) :=
  if item_id it =? field_id then Some (upto, upto + it_length it)
  else if field_id <? item_id it then Some (upto, upto)
  else None.

Definition sto_emplace (write_ptr write_len sread_ptr sread_len fread_ptr fread_len field_id : Z)
    : api S Z :=
  _ ← check_bounds write_ptr write_len;
  _ ← check_bounds sread_ptr sread_len;
  _ ← check_bounds fread_ptr fread_len;
  _ ← return_if (write_len <? u32 (sread_len + fread_len)) TOO_SMALL;
  _ ← return_if (1024 * 16 <? sread_len) TOO_BIG;
  _ ← return_if (sread_len <? 2) TOO_SMALL;
  let region p n := (p, u32 (p + n)) in
  _ ← (if (fread_len =? 0) && (fread_ptr =? 0) then
         return_if (overlapping_memory [region write_ptr write_len; region sread_ptr sread_len])
           MEM_OVERLAP
       else
         _ ← return_if (4096 <? fread_len) TOO_BIG;
         _ ← return_if (fread_len <? 2) TOO_SMALL;
         return_if (overlapping_memory [region write_ptr write_len; region sread_ptr sread_len;
                                        region fread_ptr fread_len]) MEM_OVERLAP);
  let start := sread_ptr in
  let stop := start + sread_len in
  r ← run_walk PARSE_ERROR stop (inject_at field_id) start;
  '(inject_start, inject_end) ←
    match r with
    | inr inject => mret inject
    | inl upto => _ ← return_if (stop <? upto) PARSE_ERROR; mret (stop, stop)
    end;
  n1 ← (if 0 <? inject_start - start
        then copy_within write_ptr write_len start (inject_start - start) else mret 0);
  n2 ← (if 0 <? fread_len
        then copy_within (write_ptr + n1) (write_len - n1) fread_ptr fread_len else mret 0);
  n3 ← (if 0 <? stop - inject_end
        then copy_within (write_ptr + (n1 + n2)) (write_len - (n1 + n2)) inject_end (stop - inject_end)
        else mret 0);
  mret (n1 + n2 + n3).

Definition sto_erase (write_ptr write_len read_ptr read_len field_id : Z) : api S Z := fun s =>
  match sto_emplace write_ptr write_len read_ptr read_len 0 0 field_id s with
  | Next s ret | Ret s ret =>
    Next s (if (0 <? ret) && (ret =? read_len) then rc DOESNT_EXIST else ret)
  | Stuck => Stuck
  end.
End sto.

(** ** Measuring is safe *)

Section safe_steps.
Context {A : Type}.

Lemma rd_safe mem i (k : Z -> sto_res A) :
  0 <= i < vsize mem -> (forall b, rd (E := Z) mem i = Val b -> k b <> Undef) -> rd mem i ≫= k <> Undef.
Proof. intros Hi Hk. destruct (rd_total (E := Z) mem i Hi) as [b E]. rewrite E. by apply Hk. Qed.

Lemma assert_safe c b (k : unit -> sto_res A) :
  (b = true -> k tt <> Undef) -> assert_or c b ≫= k <> Undef.
Proof. destruct b; cbn; [by intros Hk; apply Hk|done]. Qed.

Lemma Val_safe (a : A) : (Val a : sto_res A) <> Undef.
Proof. done. Qed.

Lemma Err_safe c : (Err c : sto_res A) <> Undef.
Proof. done. Qed.

Lemma pair_safe {X Y} (c : sto_res (X * Y)) (k : X * Y -> sto_res A) :
  c <> Undef -> (forall x y, c = Val (x, y) -> k (x, y) <> Undef) -> c ≫= k <> Undef.
Proof. intros Hc Hk. apply bind_not_Undef; [done|]. intros [x y]. apply Hk. Qed.
End safe_steps.

Create HintDb sto_safe.
#[export] Hint Resolve Val_safe Err_safe : sto_safe.

(** [safely] discharges the reads and tests of a run one after the other. *)
Ltac safely :=
  repeat first
    [ solve [auto with sto_safe]
    | apply rd_safe; [lia|intros ? ?]
    | try unfold more; apply assert_safe; intros ?; bool_prop
    | match goal with |- (if ?b then _ else _) <> _ => destruct b eqn:? end ].

Lemma stobject_header_safe mem s e :
  0 <= s < e -> e <= vsize mem -> stobject_header mem s e <> Undef.
Proof.
  intros Hs He. unfold stobject_header. safely. apply bind_not_Undef; [safely|].
  intros [[t f] u] _. safely.
Qed.

Lemma vl_length_safe mem u e :
  0 <= u < e -> e <= vsize mem -> vl_length mem u e <> Undef.
Proof. intros Hs He. unfold vl_length. safely. Qed.

Lemma stobject_header_end mem s e t f u :
  stobject_header mem s e = Val (t, f, u) -> s + 1 <= u <= s + 3 /\ u < e.
Proof.
  unfold stobject_header, more. intros E. res_open; bool_prop; lia.
Qed.

Lemma sto_members_safe sub mem s e t first rounds u :
  (forall p, 0 <= p < e -> sub p <> Undef) -> e <= vsize mem -> 0 <= u < e ->
  sto_members sub mem s e t first rounds u <> Undef.
Proof.
  intros Hsub He. revert u. induction rounds as [|r IH]; intros u Hu; cbn [sto_members]; [done|].
  pose proof (Hsub u Hu). destruct (sub u) as [it| |]; [|done..].
  safely. apply IH; lia.
Qed.

(** No byte outside the region is read, at any nesting. *)
Lemma get_stobject_length_safe levels mem s e :
  0 <= s < e -> e <= vsize mem -> get_stobject_length levels mem s e <> Undef.
Proof.
  intros Hs He. revert s Hs. induction levels as [|l IH]; intros s Hs; cbn [get_stobject_length]; [done|].
  apply bind_not_Undef; [by apply stobject_header_safe|]. intros [[t f] u] (Hu & Hue)%stobject_header_end.
  apply assert_safe. intros _. unfold measure_payload. safely.
  - apply pair_safe; [apply vl_length_safe; lia|safely].
  - destruct (fixed_length t); safely.
    apply pair_safe; [|safely]. apply sto_members_safe; [|lia..]. auto.
Qed.

(** ** What is measured *)

(** Regions are below a gigabyte, so the 32-bit results are exact. *)
Definition region (s e : Z) : Prop := 0 <= s < e /\ e - s <= 2 ^ 30.

Definition item_ok (room : Z) (it : sto_item) : Prop :=
  2 <= it_length it <= room + 2 ^ 20 /\ 1 <= payload_start it /\ 0 <= payload_length it /\
  payload_start it + payload_length it <= it_length it.

Lemma item_exact total t f first payload :
  0 <= total < 2 ^ 31 -> 0 <= first < 2 ^ 31 -> 0 <= payload < 2 ^ 31 ->
  item total t f first payload = mkItem total t f first payload.
Proof. intros. unfold item. by rewrite !i32_small by lia. Qed.

Lemma vl_length_spec mem u e len u2 :
  bytes_ok mem -> vl_length mem u e = Val (len, u2) ->
  0 <= len < 2 ^ 20 /\ u + 1 <= u2 <= u + 3 /\ u2 <= e /\ (len < 193 -> u2 < e).
Proof.
  intros Hm E. unfold vl_length, more in E. res_open; bool_prop;
    repeat match goal with H : rd mem _ = Val ?x |- _ => apply (rd_byte _ _ _ Hm) in H end;
    unfold byte_range in *; lia.
Qed.

Lemma sto_members_spec sub mem s e t first rounds u total payload :
  sto_members sub mem s e t first rounds u = Val (total, payload) ->
  u < s + total <= e /\ payload = total - 1 - first.
Proof.
  revert u. induction rounds as [|r IH]; intros u; cbn [sto_members]; [done|].
  destruct (sub u) as [it| |]; [|done..]. unfold more. intros E. res_open; bool_prop; [lia|].
  apply IH in Hk. lia.
Qed.

Lemma fixed_length_range t n : fixed_length t = Some n -> 1 <= n <= 32.
Proof. unfold fixed_length. intros E. repeat case_match; simplify_eq; lia. Qed.

Lemma measure_payload_ok sub mem s e t f u it :
  bytes_ok mem -> region s e -> s < u < e -> measure_payload sub mem s e t f u = Val it ->
  item_ok (e - s) it /\ u - s < it_length it.
Proof.
  intros Hm [Hs He] Hu E. unfold measure_payload, more, item_ok in *. res_open.
  - apply vl_length_spec in Hb; [|done]. rewrite item_exact by lia. cbn; lia.
  - apply fixed_length_range in Hopt. rewrite item_exact by lia. cbn; lia.
  - destruct (_ =? 1); rewrite item_exact by lia; cbn; lia.
  - apply sto_members_spec in Hb. rewrite item_exact by lia. cbn; lia.
Qed.

Lemma get_stobject_length_ok levels mem s e it :
  bytes_ok mem -> region s e -> get_stobject_length levels mem s e = Val it -> item_ok (e - s) it.
Proof.
  intros Hm Hr E. destruct levels as [|l]; [done|]. cbn [get_stobject_length] in E.
  apply bind_Val in E as ([[t f] u] & [Hu Hue]%stobject_header_end & E). res_inv.
  apply measure_payload_ok in Hk; [tauto|done|done|lia].
Qed.

(** ** Measuring is local: only the bytes of the field matter *)

Definition same (mem : list Z) (s : Z) (mem' : list Z) (s' n : Z) : Prop :=
  forall k, 0 <= k < n -> rd (E := Z) mem (s + k) = rd mem' (s' + k).

Lemma same_mono mem s mem' s' n m : same mem s mem' s' n -> m <= n -> same mem s mem' s' m.
Proof. intros H Hm k Hk. apply H. lia. Qed.

Lemma same_sub mem s mem' s' n p m :
  same mem s mem' s' n -> s <= p -> p - s + m <= n -> same mem p mem' (p - s + s') m.
Proof.
  intros H Hp Hm k Hk. specialize (H (p - s + k) ltac:(lia)).
  replace (s + (p - s + k)) with (p + k) in H by lia. rewrite H. f_equal. lia.
Qed.

Lemma same_rd mem s mem' s' n i i' b :
  same mem s mem' s' n -> s <= i < s + n -> i' = i - s + s' ->
  rd (E := Z) mem i = Val b -> rd (E := Z) mem' i' = Val b.
Proof.
  intros H Hi -> <-. specialize (H (i - s) ltac:(lia)).
  replace (s + (i - s)) with i in H by lia. rewrite H. f_equal. lia.
Qed.

(** [replay] rebuilds a run on the other buffer from the opened run. *)
Ltac replay H :=
  repeat first
    [ match goal with
      | R : rd ?m ?i = Val ?b |- context [rd ?m' ?i'] =>
          rewrite (same_rd m _ m' _ _ i i' b H) by first [lia | exact R]; cbn [mbind res_bind]
      end
    | match goal with
      | |- context [assert_or _ ?b] =>
          replace b with true by (symmetry; first [apply Z.ltb_lt | apply Z.leb_le]; lia);
          cbn [assert_or mbind res_bind]
      end
    | match goal with
      | E : ?b = _ |- context [if ?b then _ else _] => rewrite E
      end ].

Lemma stobject_header_local mem s e mem' s' e' t f u :
  same mem s mem' s' (u - s) -> s' + (u - s) < e' ->
  stobject_header mem s e = Val (t, f, u) -> stobject_header mem' s' e' = Val (t, f, u - s + s').
Proof.
  intros H He' E. pose proof (stobject_header_end _ _ _ _ _ _ E) as [Hu _].
  unfold stobject_header, more in *. res_open;
    replay H; cbn [mbind res_bind]; replay H; f_equal; f_equal; lia.
Qed.

Lemma vl_length_local mem u e mem' u' e' len u2 :
  bytes_ok mem -> same mem u mem' u' (u2 - u) -> u' + (u2 - u) < e' ->
  vl_length mem u e = Val (len, u2) -> vl_length mem' u' e' = Val (len, u2 - u + u').
Proof.
  intros Hm H He' E. pose proof (vl_length_spec _ _ _ _ _ Hm E) as (_ & Hu & _).
  unfold vl_length, more in *. res_open; replay H; f_equal; f_equal; lia.
Qed.

(** A member ends before the end marker of its parent, so there is a byte behind
    it on both sides. *)
Lemma sto_members_local sub sub' mem s e mem' s' e' t first rounds u total payload :
  (forall p it, s <= p -> 0 <= it_length it -> p + it_length it < s + total -> sub p = Val it ->
    sub' (p - s + s') = Val it) ->
  same mem s mem' s' total -> s' + total <= e' -> s <= u ->
  sto_members sub mem s e t first rounds u = Val (total, payload) ->
  sto_members sub' mem' s' e' t first rounds (u - s + s') = Val (total, payload).
Proof.
  intros Hsub H He'. revert u. induction rounds as [|r IH]; intros u Hu; cbn [sto_members]; [done|].
  destruct (sub u) as [it| |] eqn:Eit; [|done..]. unfold more. intros E.
  assert (0 <= it_length it /\ u + it_length it < s + total) as [Hl Ht].
  { res_open; bool_prop; [lia|]. apply sto_members_spec in Hk. lia. }
  rewrite (Hsub u it) by done. res_open.
  - replay H. f_equal. f_equal; lia.
  - replay H. replace (u - s + s' + it_length it) with (u + it_length it - s + s') by lia.
    apply IH; [lia|done].
Qed.

Lemma measure_payload_local sub sub' mem s e t f u it mem' s' e' :
  bytes_ok mem -> region s e -> s < u < e ->
  (forall p it', s <= p < e -> 0 <= it_length it' -> p + it_length it' < s + it_length it ->
    sub p = Val it' -> sub' (p - s + s') = Val it') ->
  measure_payload sub mem s e t f u = Val it ->
  s + it_length it <= e -> same mem s mem' s' (it_length it) ->
  s' + it_length it < e' \/ s' + it_length it = e' /\ s + it_length it = e ->
  measure_payload sub' mem' s' e' t f (u - s + s') = Val it.
Proof.
  intros Hm Hr Hu Hsub E Hfit H He'. destruct (measure_payload_ok _ _ _ _ _ _ _ _ Hm Hr Hu E) as [_ Hin].
  destruct Hr as [Hs Hre]. unfold measure_payload, more in *.
  replace (u - s + s' - s') with (u - s) by lia. res_open.
  - destruct (vl_length_spec _ _ _ _ _ Hm Hb) as (Hlen & Hu2 & Hu2e & Hshort).
    rewrite item_exact in * by lia. cbn in *.
    rewrite (vl_length_local mem u e mem' (u - s + s') e' z z0 Hm); [cbn|..|done].
    + rewrite item_exact by lia. f_equal. f_equal; lia.
    + eapply same_sub; [exact H|lia..].
    + lia.
  - done.
  - replay H. done.
  - pose proof (sto_members_spec _ _ _ _ _ _ _ _ _ _ Hb) as Ht.
    rewrite item_exact in * by lia. cbn [it_length] in *.
    rewrite (sto_members_local sub sub' mem s e mem' s' e' t (u - s) 1024 u z z0); try done; try lia.
    { cbn. by rewrite item_exact by lia. }
    intros p it' Hp Hl Hpt. apply Hsub; lia.
Qed.

(** The field may sit anywhere, with anything behind it, as long as it fits; only
    a field at the very end must have been at the very end before. *)
Lemma get_stobject_length_local levels mem s e it mem' s' e' :
  bytes_ok mem -> region s e -> get_stobject_length levels mem s e = Val it ->
  s + it_length it <= e -> same mem s mem' s' (it_length it) ->
  s' + it_length it < e' \/ s' + it_length it = e' /\ s + it_length it = e ->
  get_stobject_length levels mem' s' e' = Val it.
Proof.
  intros Hm. revert s it s' e'. induction levels as [|l IH]; intros s it s' e' Hr E Hfit H He'; [done|].
  cbn [get_stobject_length] in *. apply bind_Val in E as ([[t f] u] & Eh & E). cbn beta iota in E.
  pose proof (stobject_header_end _ _ _ _ _ _ Eh) as [Hu Hue].
  apply bind_Val in E as ([] & Et & E). pose proof Hr as [Hs Hre].
  assert (s < u < e) as Hu' by lia.
  destruct (measure_payload_ok _ _ _ _ _ _ _ _ Hm Hr Hu' E) as [_ Hin].
  rewrite (stobject_header_local mem s e mem' s' e' t f u); [|eapply same_mono; [exact H|lia]|lia|exact Eh].
  cbn [mbind res_bind]. rewrite Et. cbn [mbind res_bind].
  eapply measure_payload_local; try done.
  intros p it' Hp Hl Hpt Ep. apply (IH p); try exact Ep; unfold region; try lia.
  eapply same_sub; [exact H|lia..].
Qed.

(** ** Objects as lists of fields

    The abstract view of a serialised object: its fields in order, each with its
    identifier and its bytes.  [measured] runs the measuring function on the
    bytes alone, with one more byte behind them unless the field is the last. *)

Abbreviation sto_field := (Z * list Z)%type.

Definition measured (last : bool) (bs : list Z) : sto_res sto_item :=
  let buf := bs ++ (if last then [] else [0]) in
  get_stobject_length top_levels buf 0 (vsize buf).

Definition field_ok (last : bool) (x : sto_field) : bool :=
  forallb (fun b => (0 <=? b) && (b <? 256)) x.2 && (vsize x.2 <? 2 ^ 30) &&
  match measured last x.2 with
  | Val it => (it_length it =? vsize x.2) && (item_id it =? x.1)
  | _ => false
  end.

Fixpoint object_ok (o : list sto_field) : bool :=
  match o with
  | [] => true
  | x :: o' => field_ok (match o' with [] => true | _ => false end) x && object_ok o'
  end.

Definition encode (o : list sto_field) : list Z := concat (snd <$> o).

Definition field_item (x : sto_field) : sto_item :=
  from_res (mkItem 0 0 0 0 0) (measured false x.2).

(** [holds mem p bs]: the memory has the bytes [bs] at [p]. *)
Definition holds (mem : list Z) (p : Z) (bs : list Z) : Prop :=
  0 <= p /\ p + vsize bs <= vsize mem /\ sub_bytes mem p (vsize bs) = bs.

Lemma sub_bytes_lookup mem p n k :
  0 <= p -> 0 <= k < n -> sub_bytes mem p n !! Z.to_nat k = mem !! Z.to_nat (p + k).
Proof.
  intros Hp Hk. unfold sub_bytes. rewrite lookup_take_lt, lookup_drop by lia. f_equal. lia.
Qed.

Lemma sub_bytes_length mem p n :
  0 <= p -> 0 <= n -> p + n <= vsize mem -> vsize (sub_bytes mem p n) = n.
Proof. unfold sub_bytes, vsize. intros. rewrite length_take, length_drop. lia. Qed.

Lemma rd_sub_bytes mem p n k :
  0 <= p -> 0 <= k < n -> rd (E := Z) (sub_bytes mem p n) k = rd mem (p + k).
Proof.
  intros Hp Hk. unfold rd. rewrite sub_bytes_lookup by done.
  by rewrite !(proj2 (Z.ltb_ge _ _)) by lia.
Qed.

Lemma rd_app_l bs tail k : 0 <= k < vsize bs -> rd (E := Z) (bs ++ tail) k = rd bs k.
Proof.
  unfold vsize. intros Hk. unfold rd. by rewrite lookup_app_l by lia.
Qed.

Lemma holds_app mem p b1 b2 :
  holds mem p (b1 ++ b2) <-> holds mem p b1 /\ holds mem (p + vsize b1) b2.
Proof.
  unfold holds, sub_bytes. rewrite vsize_app. unfold vsize.
  pose proof (take_drop (Z.to_nat p) mem) as Em. set (m := drop (Z.to_nat p) mem) in *.
  split.
  - intros (Hp & Hl & E). rewrite Z2Nat.inj_add, !Nat2Z.id in E by lia.
    assert (take (length b1) m = b1) as E1.
    { apply (f_equal (take (length b1))) in E. rewrite take_take, take_app_length in E.
      by replace (length b1 `min` (length b1 + length b2))%nat with (length b1) in E by lia. }
    assert (take (length b2) (drop (length b1) m) = b2) as E2.
    { apply (f_equal (drop (length b1))) in E. rewrite drop_app_length, skipn_firstn_comm in E.
      by replace (length b1 + length b2 - length b1)%nat with (length b2) in E by lia. }
    rewrite !Nat2Z.id. repeat split; try lia; [done|]. unfold m in E2. rewrite drop_drop in E2.
    by rewrite Z2Nat.inj_add, Nat2Z.id by lia.
  - intros [(Hp & Hl & E1) (_ & Hl2 & E2)]. rewrite Nat2Z.id in *.
    rewrite Z2Nat.inj_add, Nat2Z.id, <- drop_drop in E2 by lia.
    repeat split; try lia. rewrite Z2Nat.inj_add, !Nat2Z.id by lia.
    rewrite <- (take_drop (length b1) (take _ m)), take_take, skipn_firstn_comm.
    replace (length b1 `min` (length b1 + length b2))%nat with (length b1) by lia.
    replace (length b1 + length b2 - length b1)%nat with (length b2) by lia. f_equal; done.
Qed.

#[local] Opaque get_stobject_length.

Lemma field_ok_spec last x :
  field_ok last x = true <->
  bytes_ok x.2 /\ vsize x.2 < 2 ^ 30 /\
  exists it, measured last x.2 = Val it /\ it_length it = vsize x.2 /\ item_id it = x.1.
Proof.
  unfold field_ok. rewrite !andb_true_iff, forallb_forall, Z.ltb_lt.
  assert ((forall b, In b x.2 -> (0 <=? b) && (b <? 256) = true) <-> bytes_ok x.2) as ->.
  { unfold bytes_ok, byte_range. rewrite List.Forall_forall. setoid_rewrite andb_true_iff.
     setoid_rewrite Z.leb_le. setoid_rewrite Z.ltb_lt. done. }
  split.
  - intros [[Hb Hl] Hm]. split; [done|]. split; [done|].
    destruct (measured last x.2) as [it| |]; [|done..]. bool_prop. eauto.
  - intros (Hb & Hl & it & -> & -> & ->). by rewrite !Z.eqb_refl.
Qed.

Lemma measured_at last bs it mem s e :
  bytes_ok bs -> vsize bs < 2 ^ 30 -> measured last bs = Val it -> it_length it = vsize bs ->
  holds mem s bs -> s + vsize bs < e \/ s + vsize bs = e /\ last = true ->
  get_stobject_length top_levels mem s e = Val it.
Proof.
  intros Hb Hl Em El (Hs & Hsl & Hh) He. unfold measured in Em.
  set (buf := bs ++ (if last then [] else [0])) in *.
  assert (bytes_ok buf) as Hbuf by (apply Forall_app; split; [done|]; destruct last; repeat constructor; lia).
  assert (vsize buf = vsize bs + (if last then 0 else 1)) as Hbl by (unfold buf; rewrite vsize_app; by destruct last).
  assert (0 < vsize buf) as Hpos.
  { destruct last; [|pose proof (vsize_nonneg bs); lia]. destruct bs; [done|].
    rewrite vsize_cons in *. pose proof (vsize_nonneg bs). lia. }
  assert (region 0 (vsize buf)) as Hreg by (unfold region; destruct last; lia).
  eapply get_stobject_length_local; try done.
  - destruct last; lia.
  - intros k Hk. rewrite Z.add_0_l. unfold buf. rewrite rd_app_l by lia.
    rewrite <- Hh at 1. apply rd_sub_bytes; lia.
  - destruct last; lia.
Qed.

Lemma field_ok_item last x :
  field_ok last x = true ->
  measured false x.2 = Val (field_item x) /\ item_ok (2 ^ 31) (field_item x) /\
  it_length (field_item x) = vsize x.2 /\ item_id (field_item x) = x.1 /\
  bytes_ok x.2 /\ vsize x.2 < 2 ^ 30 /\ (last = true -> measured true x.2 = Val (field_item x)).
Proof.
  intros (Hb & Hl & it & Em & El & Ei)%field_ok_spec.
  assert (measured false x.2 = Val it) as Ef.
  { apply (measured_at last x.2); try done.
    - split; [lia|]. rewrite vsize_app. change (vsize [0]) with 1. split; [lia|].
      unfold sub_bytes, vsize. rewrite Nat2Z.id. cbn. apply take_app_length.
    - rewrite vsize_app. change (vsize [0]) with 1. lia. }
  assert (field_item x = it) as -> by (unfold field_item; by rewrite Ef).
  assert (item_ok (2 ^ 31) it) as Hok.
  { assert (bytes_ok (x.2 ++ [0])) as Hb' by (apply Forall_app; split; [exact Hb|repeat constructor; lia]).
    assert (vsize (x.2 ++ [0]) = vsize x.2 + 1) as Hl' by (by rewrite vsize_app).
    assert (region 0 (vsize (x.2 ++ [0]))) as Hr by (pose proof (vsize_nonneg x.2); unfold region; lia).
    destruct (get_stobject_length_ok _ _ _ _ _ Hb' Hr Ef). unfold item_ok. lia. }
  split; [exact Ef|]. split; [exact Hok|]. repeat split; try assumption. intros ->. exact Em.
Qed.

(** A field of an object is measured in place. *)
Lemma field_measured last x mem s e :
  field_ok last x = true -> holds mem s x.2 ->
  s + vsize x.2 < e \/ s + vsize x.2 = e /\ last = true ->
  get_stobject_length top_levels mem s e = Val (field_item x).
Proof.
  intros Hx Hh He. destruct (field_ok_item _ _ Hx) as (Ef & _ & El & _ & Hb & Hl & Et).
  destruct He as [He|[He ->]].
  - exact (measured_at false _ _ _ _ _ Hb Hl Ef El Hh (or_introl He)).
  - exact (measured_at true _ _ _ _ _ Hb Hl (Et eq_refl) El Hh (or_intror (conj He eq_refl))).
Qed.

Lemma field_ok_weaken last x : field_ok last x = true -> field_ok false x = true.
Proof.
  intros Hx. destruct (field_ok_item _ _ Hx) as (Ef & _ & El & Ei & Hb & Hl & _).
  apply field_ok_spec. split; [done|]. split; [done|]. by exists (field_item x).
Qed.

Lemma field_ok_size last x : field_ok last x = true -> 2 <= vsize x.2.
Proof. intros Hx. destruct (field_ok_item _ _ Hx) as (_ & [H _] & <- & _). lia. Qed.

#[local] Opaque field_ok field_item.

(** ** Walking an object is walking its list of fields *)

Fixpoint search {A} (stop_at : nat -> Z -> sto_item -> option A) (round : nat) (upto : Z)
    (o : list sto_field) : Z + A :=
  match o with
  | [] => inl upto
  | x :: o' =>
    match stop_at round upto (field_item x) with
    | Some a => inr a
    | None => search stop_at (S round) (upto + vsize x.2) o'
    end
  end.

Lemma empty_object mem s rounds :
  0 <= s <= vsize mem ->
  exists o, object_ok o = true /\ (length o <= rounds)%nat /\ holds mem s (encode o) /\
    s = s + vsize (encode o).
Proof.
  intros Hs. exists []. change (encode []) with (@nil Z). unfold holds.
  change (vsize []) with 0. repeat split; cbn; lia.
Qed.

Lemma encode_cons x o : encode (x :: o) = x.2 ++ encode o.
Proof. done. Qed.

Lemma encode_app o1 o2 : encode (o1 ++ o2) = encode o1 ++ encode o2.
Proof. unfold encode. by rewrite fmap_app, concat_app. Qed.

Lemma object_ok_cons x o :
  object_ok (x :: o) = true ->
  (exists last, field_ok last x = true /\ (last = true <-> o = [])) /\ object_ok o = true.
Proof.
  cbn. intros [Hx Ho]%andb_true_iff. split; [|done]. eexists. split; [exact Hx|]. by destruct o.
Qed.

Lemma object_size x o : object_ok (x :: o) = true -> 2 <= vsize (encode (x :: o)).
Proof.
  intros [(last & Hx & _) _]%object_ok_cons. apply field_ok_size in Hx.
  rewrite encode_cons, vsize_app. pose proof (vsize_nonneg (encode o)). lia.
Qed.

Lemma walk_object {A} mem (stop_at : nat -> Z -> sto_item -> option A) o round rounds s :
  object_ok o = true -> holds mem s (encode o) -> (length o <= rounds)%nat ->
  walk mem (s + vsize (encode o)) stop_at round rounds s = Val (search stop_at round s o).
Proof.
  revert round rounds s. induction o as [|x o IH]; intros round rounds s Ho Hh Hr.
  - destruct rounds; cbn [walk search]; [done|].
    change (vsize (encode [])) with 0. by rewrite Z.add_0_r, Z.ltb_irrefl.
  - destruct (object_ok_cons _ _ Ho) as [(last & Hx & Hlast) Ho']. pose proof (field_ok_size _ _ Hx).
    rewrite encode_cons in Hh |- *. apply holds_app in Hh as [Hh1 Hh2].
    destruct (field_ok_item _ _ Hx) as (_ & _ & El & _).
    destruct rounds as [|rounds]; [cbn in Hr; lia|]. cbn [walk search]. rewrite vsize_app.
    pose proof (vsize_nonneg (encode o)). rewrite (proj2 (Z.ltb_lt _ _)) by lia.
    rewrite (field_measured last x); [|done|done|].
    + cbn [mbind res_bind]. rewrite El, (proj2 (Z.leb_le _ _)) by lia. cbn [assert_or mbind res_bind].
      destruct (stop_at _ _ _); [done|]. rewrite Z.add_assoc. apply IH; [done..|cbn in Hr; lia].
    + destruct o as [|y o].
      * right. split; [change (vsize (encode [])) with 0; lia|by apply Hlast].
      * left. pose proof (object_size y o Ho'). lia.
Qed.

(** Conversely, a walk that ends exactly at the end has seen an object. *)
Lemma walk_ge {A} mem e (stop_at : nat -> Z -> sto_item -> option A) round rounds s u :
  walk mem e stop_at round rounds s = Val (inl u) -> s <= u.
Proof.
  revert round s. induction rounds as [|r IH]; intros round s; cbn [walk]; [intros [= ->]; lia|].
  destruct (s <? e); [|intros [= ->]; lia]. intros E. res_inv. bool_prop.
  destruct (stop_at _ _ _); [done|]. apply IH in Hk0. lia.
Qed.

Lemma field_of_walk mem s e it :
  bytes_ok mem -> region s e -> e - s < 2 ^ 30 -> e <= vsize mem -> s + it_length it <= e ->
  get_stobject_length top_levels mem s e = Val it ->
  field_ok (s + it_length it =? e) (item_id it, sub_bytes mem s (it_length it)) = true /\
  holds mem s (sub_bytes mem s (it_length it)).
Proof.
  intros Hm Hr He30 He Hfit E. destruct (get_stobject_length_ok _ _ _ _ _ Hm Hr E) as (Hlen & _).
  destruct Hr as [Hs Hre]. set (n := it_length it) in *. set (bs := sub_bytes mem s n).
  assert (vsize bs = n) as Hbs by (apply sub_bytes_length; lia).
  split; [|split; [lia|by rewrite Hbs; split; [lia|]]].
  apply field_ok_spec. cbn [fst snd]. split; [by apply Forall_take, Forall_drop|]. split; [lia|].
  exists it. split; [|by rewrite Hbs]. unfold measured.
  apply (get_stobject_length_local top_levels mem s e it); try done.
  - intros k Hk. rewrite Z.add_0_l, rd_app_l by lia. symmetry. apply rd_sub_bytes; lia.
  - fold n. rewrite vsize_app, Hbs. destruct (Z.eqb_spec (s + n) e); [right|left];
      [change (vsize []) with 0|change (vsize [0]) with 1]; lia.
Qed.

Lemma walk_valid mem e round rounds s :
  bytes_ok mem -> 0 <= s -> e <= vsize mem -> e - s < 2 ^ 30 ->
  walk (A := Empty_set) mem e (fun _ _ _ => None) round rounds s = Val (inl e) ->
  exists o, object_ok o = true /\ (length o <= rounds)%nat /\ holds mem s (encode o) /\
    e = s + vsize (encode o).
Proof.
  intros Hm. revert round s. induction rounds as [|r IH]; intros round s Hs He Hre; cbn [walk].
  - intros [= ->]. apply empty_object. lia.
  - destruct (Z.ltb_spec s e) as [Hlt|]; intros E.
    + res_inv. bool_prop. assert (region s e) as Hr by (unfold region; lia).
      pose proof (walk_ge _ _ _ _ _ _ _ Hk0) as Hfit. rename a into it.
      destruct (get_stobject_length_ok _ _ _ _ _ Hm Hr Hb) as (Hlen & _).
      destruct (field_of_walk mem s e it Hm Hr Hre He ltac:(lia) Hb) as [Hx Hh].
      apply IH in Hk0 as (o & Ho & Hol & Hoh & Hoe); [|lia..].
      assert (vsize (sub_bytes mem s (it_length it)) = it_length it) as Hbs by (apply sub_bytes_length; lia).
      exists ((item_id it, sub_bytes mem s (it_length it)) :: o).
      rewrite encode_cons, vsize_app. cbn [snd]. rewrite holds_app, Hbs.
      split; [|split; [cbn; lia|split; [by split|lia]]]. cbn [object_ok]. rewrite Ho, andb_true_r.
      destruct o as [|y o]; [|exact (field_ok_weaken _ _ Hx)].
      by rewrite (proj2 (Z.eqb_eq (s + it_length it) e)) in Hx by (change (vsize (encode [])) with 0 in Hoe; lia).
    + simplify_eq. apply empty_object. lia.
Qed.

(** ** The read-only calls *)

(** In range, a call gets past its argument checks. *)
Definition readable (mem : list Z) (ptr len : Z) : Prop :=
  0 <= ptr /\ 2 <= len /\ ptr + len <= vsize mem < 2 ^ 32.

Lemma run_readable {A} mem ptr len (c : api (list Z) A) :
  readable mem ptr len ->
  (_ ← check_bounds ptr len; _ ← return_if (len <? 2) TOO_SMALL; c) mem = c mem.
Proof.
  intros (Hp & Hl & Hm). rewrite run_check_bounds by (cbn; lia).
  by rewrite run_return_if by (apply Z.ltb_ge; lia).
Qed.

Lemma walk_region_safe {A} mem e (stop_at : nat -> Z -> sto_item -> option A) round rounds s :
  0 <= s -> e <= vsize mem -> walk mem e stop_at round rounds s <> Undef.
Proof.
  intros Hs He. revert round s Hs. induction rounds as [|r IH]; intros round s Hs; cbn [walk]; [done|].
  destruct (Z.ltb_spec s e); [|done].
  apply bind_not_Undef; [apply get_stobject_length_safe; lia|]. intros it _.
  apply assert_safe. intros Hl. bool_prop. destruct (stop_at _ _ _); [done|]. apply IH. lia.
Qed.

Lemma object_at mem ptr len o :
  readable mem ptr len -> encode o = sub_bytes mem ptr len ->
  vsize (encode o) = len /\ holds mem ptr (encode o).
Proof.
  intros (Hp & Hl & Hm) E. assert (vsize (encode o) = len) as Hol by (rewrite E; apply sub_bytes_length; lia).
  split; [done|]. unfold holds. rewrite Hol, E. repeat split; lia.
Qed.

Lemma run_walk_object {A B} mem ptr len bad (stop_at : nat -> Z -> sto_item -> option A) o
    (k : Z + A -> api (list Z) B) :
  readable mem ptr len -> object_ok o = true -> (length o <= 1024)%nat ->
  encode o = sub_bytes mem ptr len ->
  (run_walk bad (ptr + len) stop_at ptr ≫= k) mem = k (search stop_at 0 ptr o) mem.
Proof.
  intros Hr Ho Hl E. destruct (object_at _ _ _ _ Hr E) as [<- Hh]. apply run_bind. unfold run_walk.
  cbn [get_mem mem_only]. by rewrite walk_object.
Qed.

Lemma search_none {A} (o : list sto_field) round p :
  search (fun _ _ _ => @None A) round p o = inl (p + vsize (encode o)).
Proof.
  revert round p. induction o as [|x o IH]; intros round p; cbn [search].
  - change (vsize (encode [])) with 0. by rewrite Z.add_0_r.
  - rewrite IH, encode_cons, vsize_app. f_equal. lia.
Qed.

(** [sto_validate] accepts exactly the concatenations of at most 1024 fields that measure
    as long as they are; whatever the bytes, it answers 0 or 1 and changes nothing.  Which
    fields these are is the subject of [StoSyntax]. *)
Lemma sto_validate_measured mem ptr len :
  bytes_ok mem -> readable mem ptr len -> len < 2 ^ 30 ->
  (sto_validate ptr len mem = Ret mem 1 <->
   exists o, object_ok o = true /\ (length o <= 1024)%nat /\ encode o = sub_bytes mem ptr len) /\
  (sto_validate ptr len mem = Ret mem 1 \/ sto_validate ptr len mem = Ret mem 0).
Proof.
  intros Hm Hr Hl. unfold sto_validate. rewrite run_readable by done. pose proof Hr as (Hp & Hl2 & Hv).
  split; [split|].
  - unfold run_walk, mbind, api_bind, return_code. cbn [get_mem mem_only].
    destruct (walk _ _ _ _ _ _) as [[u|[]]|c|] eqn:Ew; [|done..].
    destruct (Z.eqb_spec u (ptr + len)) as [->|]; [|done]. intros _.
    apply walk_valid in Ew as (o & Ho & Hol & (_ & _ & Es) & He); [|done|lia..].
    exists o. repeat split; [done..|]. by replace len with (vsize (encode o)) by lia.
  - intros (o & Ho & Hol & Es). rewrite (run_walk_object mem ptr len _ _ o) by done.
    rewrite search_none. destruct (object_at _ _ _ _ Hr Es) as [-> _]. by rewrite Z.eqb_refl.
  - unfold run_walk, mbind, api_bind, return_code. cbn [get_mem mem_only].
    pose proof (walk_region_safe (A := Empty_set) mem (ptr + len) (fun _ _ _ => None) 0 1024 ptr
      ltac:(lia) ltac:(lia)) as Hsafe.
    destruct (walk _ _ _ _ _ _) as [[u|[]]|c|] eqn:Ew; [destruct (u =? ptr + len); auto|auto|done].
Qed.

(** The first field with an identifier, and where it starts. *)
Fixpoint lookup_field (id offset : Z) (o : list sto_field) : option (Z * sto_field) :=
  match o with
  | [] => None
  | x :: o' => if x.1 =? id then Some (offset, x) else lookup_field id (offset + vsize x.2) o'
  end.

(** What [sto_subfield] tells of a field: arrays whole, anything else without its
    header. *)
Definition located (offset : Z) (x : sto_field) : Z :=
  let it := field_item x in
  if it_type it =? 0xF then pair64 offset (it_length it)
  else pair64 (offset + payload_start it) (payload_length it).

Lemma search_lookup_field id start o round p :
  object_ok o = true -> 
  search (fun _ upto it =>
    if item_id it =? id then
      Some (if it_type it =? 0xF then pair64 (upto - start) (it_length it)
            else pair64 (upto - start + payload_start it) (payload_length it))
    else None) round p o =
  match lookup_field id (p - start) o with
  | Some (offset, x) => inr (located offset x)
  | None => inl (p + vsize (encode o))
  end.
Proof.
  revert round p. induction o as [|x o IH]; intros round p Ho; cbn [search lookup_field].
  - change (vsize (encode [])) with 0. by rewrite Z.add_0_r.
  - apply object_ok_cons in Ho as [(last & Hx & _) Ho]. apply field_ok_item in Hx as (_ & _ & _ & -> & _).
    destruct (x.1 =? id); [done|]. rewrite IH by done.
    replace (p + vsize x.2 - start) with (p - start + vsize x.2) by lia.
    destruct (lookup_field _ _ _) as [[]|]; [done|]. rewrite encode_cons, vsize_app. f_equal. lia.
Qed.

Lemma sto_subfield_lookup mem ptr len id o :
  readable mem ptr len -> object_ok o = true -> (length o <= 1024)%nat ->
  encode o = sub_bytes mem ptr len ->
  sto_subfield ptr len id mem =
  Ret mem (match lookup_field id 0 o with
           | Some (offset, x) => located offset x
           | None => rc DOESNT_EXIST
           end).
Proof.
  intros Hr Ho Hl E. unfold sto_subfield. rewrite run_readable by done.
  rewrite (run_walk_object mem ptr len _ _ o) by done. rewrite search_lookup_field by done.
  rewrite Z.sub_diag. destruct (lookup_field _ _ _) as [[]|]; [done|].
  destruct (object_at _ _ _ _ Hr E) as [-> _]. by rewrite Z.eqb_refl.
Qed.

(** ** Editing *)

(** The contract of [sto_emplace]: the new fields (one, or none for a deletion)
    take the place of the field with the same identifier, or go before the first
    field with a larger one, or to the end. *)
Fixpoint put (id : Z) (new o : list sto_field) : list sto_field :=
  match o with
  | [] => new
  | x :: o' =>
    if x.1 =? id then new ++ o'
    else if id <? x.1 then new ++ x :: o'
    else x :: put id new o'
  end.

Lemma object_ok_app o1 o2 :
  object_ok o1 = true -> object_ok o2 = true -> object_ok (o1 ++ o2) = true.
Proof.
  induction o1 as [|x o1 IH]; intros H1 H2; [done|].
  destruct (object_ok_cons _ _ H1) as [(last & Hx & Hl) H1']. cbn [app object_ok].
  rewrite IH, andb_true_r by assumption. destruct o1 as [|y o1]; cbn [app].
  - destruct o2; [by rewrite (proj2 Hl eq_refl) in Hx|exact (field_ok_weaken _ _ Hx)].
  - cbn in H1. apply andb_true_iff in H1 as [H1 _]. exact H1.
Qed.

Lemma put_ok id x o :
  object_ok o = true -> field_ok true x = true -> object_ok (put id [x] o) = true.
Proof.
  intros Ho Hx. assert (object_ok [x] = true) as Hx1 by (cbn; by rewrite Hx).
  induction o as [|y o IH]; [done|]. cbn [put].
  destruct (object_ok_cons _ _ Ho) as [(last & Hy & _) Ho'].
  destruct (y.1 =? id); [by apply (object_ok_app [x])|].
  destruct (id <? y.1); [by apply (object_ok_app [x])|].
  cbn [object_ok]. rewrite IH, andb_true_r by done.
  destruct (put id [x] o) eqn:E; [|exact (field_ok_weaken _ _ Hy)].
  exfalso. revert E. destruct o as [|z o]; cbn [put]; [done|]. by repeat case_match.
Qed.

(** Where the walk of [sto_emplace] stops splits the object. *)
Definition inject_range (e : Z) (r : Z + Z * Z) : Z * Z :=
  match r with inr ab => ab | inl _ => (e, e) end.

Lemma inject_split id new o round p :
  object_ok o = true ->
  exists o1 mid o2,
    o = o1 ++ mid ++ o2 /\ put id new o = o1 ++ new ++ o2 /\
    inject_range (p + vsize (encode o)) (search (inject_at id) round p o) =
      (p + vsize (encode o1), p + vsize (encode o1) + vsize (encode mid)).
Proof.
  revert round p. induction o as [|x o IH]; intros round p Ho.
  - exists [], [], []. split; [done|]. split; [cbn; by rewrite app_nil_r|].
    cbn [search inject_range]. change (vsize (encode [])) with 0. by rewrite !Z.add_0_r.
  - destruct (object_ok_cons _ _ Ho) as [(last & Hx & _) Ho'].
    destruct (field_ok_item _ _ Hx) as (_ & _ & El & Ei & _).
    cbn [search put]. unfold inject_at at 1. rewrite Ei, El.
    destruct (x.1 =? id); [|destruct (id <? x.1)].
    + exists [], [x], o. split; [done|]. split; [done|]. change (vsize (encode [])) with 0.
      change (encode [x]) with (x.2 ++ []). rewrite app_nil_r. cbn [inject_range]. f_equal; lia.
    + exists [], [], (x :: o). split; [done|]. split; [done|]. change (vsize (encode [])) with 0.
      cbn [inject_range]. f_equal; lia.
    + destruct (IH (S round) (p + vsize x.2) Ho') as (o1 & mid & o2 & -> & -> & Er).
      exists (x :: o1), mid, o2. split; [done|]. split; [done|].
      rewrite (encode_cons x (o1 ++ mid ++ o2)), (encode_cons x o1), !vsize_app, !Z.add_assoc. exact Er.
Qed.

Lemma search_inject_inl id o round p u :
  object_ok o = true -> search (inject_at id) round p o = inl u -> u = p + vsize (encode o).
Proof.
  revert round p. induction o as [|x o IH]; intros round p Ho; cbn [search].
  - intros [= ->]. change (vsize (encode [])) with 0. lia.
  - destruct (object_ok_cons _ _ Ho) as [_ Ho']. destruct (inject_at _ _ _ _); [done|].
    intros E%IH; [|done]. rewrite encode_cons, vsize_app. lia.
Qed.

Lemma splice_app m i a b :
  0 <= i -> i + vsize (a ++ b) <= vsize m ->
  splice (splice m i a) (i + vsize a) b = splice m i (a ++ b).
Proof.
  rewrite vsize_app. unfold splice, vsize. intros Hi Hl.
  replace (Z.to_nat (i + Z.of_nat (length a))) with (Z.to_nat i + length a)%nat by lia.
  assert (length (take (Z.to_nat i) m) = Z.to_nat i) as Ht by (rewrite length_take; lia).
  rewrite take_app, take_ge by lia. rewrite Ht.
  replace (Z.to_nat i + length a - Z.to_nat i)%nat with (length a) by lia.
  rewrite take_app_length, drop_app, drop_ge by lia. rewrite Ht. cbn [app].
  replace (Z.to_nat i + length a + length b - Z.to_nat i)%nat with (length a + length b)%nat by lia.
  rewrite drop_app, drop_ge by lia. cbn [app]. rewrite drop_drop, length_app, <- !app_assoc.
  do 3 f_equal. f_equal. lia.
Qed.

Lemma holds_splice_other m i ws p bs :
  0 <= i -> i + vsize ws <= vsize m -> holds m p bs ->
  p + vsize bs <= i \/ i + vsize ws <= p -> holds (splice m i ws) p bs.
Proof.
  intros Hi Hl (Hp & Hpl & E) Hd. unfold holds. rewrite splice_length by done.
  split; [done|]. split; [done|]. rewrite <- E at 2. apply list_eq. intros k.
  destruct (decide (k < Z.to_nat (vsize bs))%nat) as [Hk|Hk].
  - unfold sub_bytes. rewrite !lookup_take_lt, !lookup_drop by done. apply splice_lookup_other; [done..|].
    unfold vsize in *. lia.
  - unfold sub_bytes. by rewrite !lookup_take_ge by lia.
Qed.

Lemma holds_splice_same m i ws :
  0 <= i -> i + vsize ws <= vsize m -> holds (splice m i ws) i ws.
Proof.
  intros Hi Hl. split; [done|]. rewrite splice_length by done. split; [done|]. by apply splice_same.
Qed.

Lemma run_copy {A} mem dst room src n bs (k : Z -> api (list Z) A) :
  n = vsize bs -> holds mem src bs -> 0 <= dst < 2 ^ 33 -> n <= room < 2 ^ 33 -> dst + n <= vsize mem ->
  ((if 0 <? n then copy_within dst room src n else mret 0) ≫= k) mem = k n (splice mem dst bs).
Proof.
  intros -> (Hs & Hl & E) Hd Hr Hm. pose proof (vsize_nonneg bs). destruct (Z.ltb_spec 0 (vsize bs)).
  - apply run_bind. unfold copy_within. rewrite run_mem_bytes by (cbn; lia). cbn [get_mem mem_only]. rewrite E.
    pose proof (run_WRITE (S := list Z) dst room bs mret mem) as Hw. cbn [get_mem set_mem mem_only] in Hw.
    unfold mbind, api_bind, mret, api_ret in Hw.
    destruct (WRITE_WASM_MEMORY dst room bs mem); specialize (Hw ltac:(lia) ltac:(lia) ltac:(lia)); congruence.
  - destruct bs; [|rewrite vsize_cons in *; pose proof (vsize_nonneg bs); lia].
    cbn [vsize length Z.of_nat]. unfold mbind, api_bind, mret, api_ret. f_equal.
    unfold splice. cbn [length app]. by rewrite Nat.add_0_r, take_drop.
Qed.

(** The three copies of [sto_emplace], source and buffer being apart. *)
Lemma run_copies mem wp wl sp pre fp f ip suf :
  holds mem sp pre -> holds mem fp f -> holds mem ip suf ->
  0 <= wp -> wl < 2 ^ 32 -> wp + wl <= vsize mem < 2 ^ 32 -> vsize (pre ++ f ++ suf) <= wl ->
  sp + vsize pre <= wp \/ wp + wl <= sp -> fp + vsize f <= wp \/ wp + wl <= fp ->
  ip + vsize suf <= wp \/ wp + wl <= ip ->
  (n1 ← (if 0 <? vsize pre then copy_within wp wl sp (vsize pre) else mret 0);
   n2 ← (if 0 <? vsize f then copy_within (wp + n1) (wl - n1) fp (vsize f) else mret 0);
   n3 ← (if 0 <? vsize suf then copy_within (wp + (n1 + n2)) (wl - (n1 + n2)) ip (vsize suf) else mret 0);
   mret (n1 + n2 + n3)) mem =
  Next (splice mem wp (pre ++ f ++ suf)) (vsize (pre ++ f ++ suf)).
Proof.
  rewrite !vsize_app. intros Hpre Hf Hsuf Hw Hwl Hm Hfit D1 D2 D3.
  pose proof (vsize_nonneg pre). pose proof (vsize_nonneg f). pose proof (vsize_nonneg suf).
  rewrite (run_copy mem wp wl sp _ pre) by (done || lia).
  assert (vsize (splice mem wp pre) = vsize mem) as L1 by (apply splice_length; lia).
  rewrite (run_copy _ _ _ fp _ f); [|done|apply holds_splice_other; try done; lia|lia..].
  rewrite splice_app by (rewrite ?vsize_app; lia).
  assert (vsize (splice mem wp (pre ++ f)) = vsize mem) as L2 by (apply splice_length; rewrite ?vsize_app; lia).
  rewrite (run_copy _ _ _ ip _ suf);
    [|done|apply holds_splice_other; rewrite ?vsize_app; try done; lia|lia..].
  rewrite <- vsize_app, splice_app by (rewrite ?vsize_app; lia). rewrite app_assoc.
  unfold mret, api_ret. f_equal. rewrite vsize_app. lia.
Qed.

Definition apart (p1 n1 p2 n2 : Z) : Prop := p1 + n1 <= p2 \/ p2 + n2 <= p1.

Lemma collide_apart p1 n1 p2 n2 :
  0 <= p1 + n1 < 2 ^ 32 -> 0 <= p2 + n2 < 2 ^ 32 -> apart p1 n1 p2 n2 ->
  collide (p1, u32 (p1 + n1)) (p2, u32 (p2 + n2)) = false.
Proof.
  intros H1 H2 Ha. unfold collide. cbn [fst snd]. rewrite !u32_small by lia.
  apply negb_false_iff, orb_true_iff. rewrite !Z.leb_le. unfold apart in Ha. lia.
Qed.

Lemma apart_sym p1 n1 p2 n2 : apart p1 n1 p2 n2 -> apart p2 n2 p1 n1.
Proof. unfold apart. tauto. Qed.

(** A list of regions does not overlap when any two of them are apart. *)
Lemma overlapping_memory_false (rs : list (Z * Z)) :
  (forall i j r1 r2, i <> j -> rs !! i = Some r1 -> rs !! j = Some r2 -> collide r1 r2 = false) ->
  overlapping_memory rs = false.
Proof.
  intros Hrs. unfold overlapping_memory. apply not_true_is_false. intros E.
  apply existsb_exists in E as (i & _ & (j & _ & E)%existsb_exists). apply andb_true_iff in E as [Hij E].
  destruct (rs !! i) eqn:E1, (rs !! j) eqn:E2; try done.
  rewrite (Hrs i j) in E; try done. intros ->. by rewrite Nat.eqb_refl in Hij.
Qed.

(** The arguments of [sto_emplace] when it gets to work: an object in [mem] at
    [sp], the new field (or nothing) at [fp], and room at [wp]. *)
Record emplace_args (mem : list Z) (wp wl sp sl fp fl : Z) (o new : list sto_field) : Prop := {
  ea_object : object_ok o = true;
  ea_count : (length o <= 1024)%nat;
  ea_source : readable mem sp sl /\ encode o = sub_bytes mem sp sl /\ sl <= 16384;
  ea_field : holds mem fp (encode new) /\ fl = vsize (encode new);
  ea_kind : (fl = 0 /\ fp = 0) \/ (2 <= fl <= 4096 /\ apart sp sl fp fl);
  ea_room : 0 <= wp /\ sl + fl <= wl /\ wp + wl <= vsize mem;
  ea_apart : apart wp wl sp sl /\ apart wp wl fp fl
}.

Lemma run_overlap_check {A} mem wp wl sp sl fp fl o new (c : api (list Z) A) :
  emplace_args mem wp wl sp sl fp fl o new ->
  (_ ← (if (fl =? 0) && (fp =? 0) then
          return_if (overlapping_memory [(wp, u32 (wp + wl)); (sp, u32 (sp + sl))]) MEM_OVERLAP
        else
          _ ← return_if (4096 <? fl) TOO_BIG;
          _ ← return_if (fl <? 2) TOO_SMALL;
          return_if (overlapping_memory [(wp, u32 (wp + wl)); (sp, u32 (sp + sl)); (fp, u32 (fp + fl))])
            MEM_OVERLAP); c) mem = c mem.
Proof.
  intros [_ _ [(Hs & Hsl & Hm) _] [(Hf & Hfl & _) Efl] Hk Hw [Ha1 Ha2]]. rewrite <- Efl in Hfl.
  pose proof (collide_apart wp wl sp sl ltac:(lia) ltac:(lia) Ha1) as C1.
  pose proof (collide_apart sp sl wp wl ltac:(lia) ltac:(lia) (apart_sym _ _ _ _ Ha1)) as C2.
  pose proof (vsize_nonneg (encode new)).
  pose proof (collide_apart wp wl fp fl ltac:(lia) ltac:(lia) Ha2) as C3.
  pose proof (collide_apart fp fl wp wl ltac:(lia) ltac:(lia) (apart_sym _ _ _ _ Ha2)) as C4.
  destruct Hk as [[-> ->]|[Hk Ha3]].
  - cbn [Z.eqb andb]. rewrite run_return_if; [done|]. apply overlapping_memory_false.
    intros [|[|i]] [|[|j]] r1 r2 Hij E1 E2; cbn in E1, E2; simplify_eq; done.
  - rewrite (proj2 (Z.eqb_neq fl 0)) by lia. cbn [andb].
    pose proof (collide_apart sp sl fp fl ltac:(lia) ltac:(lia) Ha3) as C5.
    pose proof (collide_apart fp fl sp sl ltac:(lia) ltac:(lia) (apart_sym _ _ _ _ Ha3)) as C6.
    apply (run_bind _ (fun _ => c) mem mem tt). rewrite !run_return_if by (apply Z.ltb_ge; lia).
    unfold return_if. rewrite overlapping_memory_false; [done|].
    intros [|[|[|i]]] [|[|[|j]]] r1 r2 Hij E1 E2; cbn in E1, E2; simplify_eq; done.
Qed.

(** [sto_emplace] implements [put]. *)
Lemma sto_emplace_run mem wp wl sp sl fp fl id o new :
  emplace_args mem wp wl sp sl fp fl o new ->
  sto_emplace wp wl sp sl fp fl id mem =
    Next (splice mem wp (encode (put id new o))) (vsize (encode (put id new o))).
Proof.
  intros Hargs. pose proof Hargs as [Ho Hc [Hr [Es Hsl]] [Hf Efl] Hk Hw [Ha1 Ha2]].
  pose proof Hr as (Hs & Hs2 & Hm). pose proof Hf as (Hfp & Hfl & _). pose proof (vsize_nonneg (encode new)).
  unfold sto_emplace. rewrite !run_check_bounds by (cbn [get_mem mem_only]; lia).
  rewrite !run_return_if by (apply Z.ltb_ge; rewrite ?u32_small; lia).
  rewrite (run_overlap_check mem wp wl sp sl fp fl o new) by done.
  rewrite (run_walk_object mem sp sl _ _ o) by done.
  destruct (object_at _ _ _ _ Hr Es) as [El Hh].
  destruct (inject_split id new o 0 sp Ho) as (o1 & mid & o2 & Eo & -> & Er).
  assert (forall k : Z * Z -> api (list Z) Z,
    (match search (inject_at id) 0 sp o with
     | inl upto => _ ← return_if (sp + sl <? upto) PARSE_ERROR; mret (sp + sl, sp + sl)
     | inr inject => mret inject
     end ≫= k) mem = k (inject_range (sp + sl) (search (inject_at id) 0 sp o)) mem) as ->.
  { intros k. destruct (search _ _ _ _) eqn:Esr; [|done].
    apply search_inject_inl in Esr as ->; [|done]. rewrite El, Z.ltb_irrefl. done. }
  rewrite El in Er. rewrite Er. rewrite Eo, !encode_app, !holds_app in Hh. destruct Hh as (H1 & Hmid & H2).
  rewrite Eo, !encode_app, !vsize_app in El. rewrite !encode_app.
  pose proof (vsize_nonneg (encode o1)). pose proof (vsize_nonneg (encode mid)). pose proof (vsize_nonneg (encode o2)).
  replace (sp + vsize (encode o1) - sp) with (vsize (encode o1)) by lia.
  replace (sp + sl - (sp + vsize (encode o1) + vsize (encode mid))) with (vsize (encode o2)) by lia.
  rewrite Efl in *. unfold apart in *. apply run_copies; rewrite ?vsize_app; try done; lia.
Qed.

(** ** Safety of the calls on arbitrary memory *)

(** [changes mem mem' p n]: the two memories differ at most in [n] bytes at [p]. *)
Definition changes (mem mem' : list Z) (p n : Z) : Prop :=
  vsize mem' = vsize mem /\
  forall k, 0 <= k < p \/ p + n <= k -> mem' !! Z.to_nat k = mem !! Z.to_nat k.

Lemma changes_refl mem p n : changes mem mem p n.
Proof. done. Qed.

Lemma changes_trans m1 m2 m3 p n : changes m1 m2 p n -> changes m2 m3 p n -> changes m1 m3 p n.
Proof. intros [L1 E1] [L2 E2]. split; [congruence|]. intros k Hk. rewrite E2, E1; done. Qed.

Lemma changes_splice m i bs p n :
  0 <= p <= i -> i + vsize bs <= p + n -> i + vsize bs <= vsize m -> changes m (splice m i bs) p n.
Proof.
  intros Hi Hn Hl. split; [apply splice_length; lia|]. intros k Hk.
  apply splice_lookup_other; unfold vsize in *; lia.
Qed.

#[export] Hint Resolve changes_refl : sto_safe.

(** The number a call returns, whichever way it ends, after changing at most the
    [n] bytes at [p]. *)
Definition returns (mem : list Z) (p n : Z) (o : outcome (list Z) Z) : Prop :=
  exists mem' c, finish o = Some (mem', c) /\ changes mem mem' p n.

Lemma returns_return_if mem mem' p n (b : bool) c (k : unit -> api (list Z) Z) :
  changes mem mem' p n -> (b = false -> returns mem p n (k tt mem')) ->
  returns mem p n ((return_if b c ≫= k) mem').
Proof. intros Hc Hk. destruct b; [by exists mem', c|by apply Hk]. Qed.

Lemma returns_check_bounds mem p n ptr len (k : unit -> api (list Z) Z) :
  0 <= ptr < 2 ^ 32 -> 0 <= len < 2 ^ 32 ->
  (ptr + len <= vsize mem -> returns mem p n (k tt mem)) ->
  returns mem p n ((check_bounds ptr len ≫= k) mem).
Proof.
  intros Hp Hl Hk. destruct (Z.le_gt_cases (ptr + len) (vsize mem)) as [Hle|Hgt].
  - rewrite run_check_bounds by done. auto.
  - exists mem, OUT_OF_BOUNDS. split; [|apply changes_refl].
    unfold check_bounds, mbind, api_bind, memory_length. cbn [get_mem mem_only].
    destruct (NOT_IN_BOUNDS ptr len (vsize mem)) eqn:E; [done|].
    apply NOT_IN_BOUNDS_false in E; [lia|done..].
Qed.

Lemma returns_walk {A} mem p n bad e (stop_at : nat -> Z -> sto_item -> option A) s k :
  0 <= s -> e <= vsize mem ->
  (forall r, walk mem e stop_at 0 1024 s = Val r -> returns mem p n (k r mem)) ->
  returns mem p n ((run_walk bad e stop_at s ≫= k) mem).
Proof.
  intros Hs He Hk. pose proof (walk_region_safe mem e stop_at 0 1024 s Hs He).
  unfold run_walk, mbind, api_bind. cbn [get_mem mem_only].
  destruct (walk _ _ _ _ _ _) as [r|c|]; [by apply Hk|by exists mem, bad|done].
Qed.

Lemma returns_copy mem0 mem p n dst room src len (k : Z -> api (list Z) Z) :
  changes mem0 mem p n -> vsize mem < 2 ^ 33 -> 0 <= p <= dst -> dst + Z.max 0 len <= p + n ->
  p + n <= vsize mem -> len <= room < 2 ^ 33 -> 0 <= src -> src + len <= vsize mem ->
  (forall mem', changes mem0 mem' p n -> returns mem0 p n (k (Z.max 0 len) mem')) ->
  returns mem0 p n (((if 0 <? len then copy_within dst room src len else mret 0) ≫= k) mem).
Proof.
  intros Hc Hv Hd Hn Hp Hr Hs Hl Hk. destruct (Z.ltb_spec 0 len) as [Hpos|].
  - assert (vsize (sub_bytes mem src len) = len) as Eb by (apply sub_bytes_length; lia).
    pose proof (run_copy mem dst room src len (sub_bytes mem src len) k) as E.
    rewrite (proj2 (Z.ltb_lt 0 len)) in E by done. rewrite E; [|rewrite ?Eb; try lia..].
    + rewrite Z.max_r in * by lia. apply Hk. eapply changes_trans; [exact Hc|]. apply changes_splice; lia.
    + split; [done|]. rewrite Eb. done.
  - rewrite Z.max_l in * by lia. by apply Hk.
Qed.

Lemma walk_inject mem e id round rounds s a b :
  walk mem e (inject_at id) round rounds s = Val (inr (a, b)) -> s <= a <= b /\ a < e.
Proof.
  revert round s. induction rounds as [|r IH]; intros round s; cbn [walk]; [done|].
  destruct (Z.ltb_spec s e); [|done]. intros E. res_inv. bool_prop.
  unfold inject_at in Hk0 at 1. repeat case_match; simplify_eq; try lia. apply IH in Hk0. lia.
Qed.

Definition u32_arg (z : Z) : Prop := 0 <= z < 2 ^ 32.

Lemma sto_emplace_returns mem wp wl sp sl fp fl id :
  vsize mem <= 2 ^ 32 -> Forall u32_arg [wp; wl; sp; sl; fp; fl; id] ->
  returns mem wp wl (sto_emplace wp wl sp sl fp fl id mem).
Proof.
  unfold u32_arg. rewrite !List.Forall_cons_iff. intros Hm (Hwp & Hwl & Hsp & Hsl & Hfp & Hfl & Hid & _).
  unfold sto_emplace.
  apply returns_check_bounds; [lia..|]. intros Hw. apply returns_check_bounds; [lia..|]. intros Hs.
  apply returns_check_bounds; [lia..|]. intros Hf.
  apply returns_return_if; [done|]. intros Hroom. apply returns_return_if; [done|]. intros Hbig.
  apply returns_return_if; [done|]. intros Hsmall. bool_prop.
  assert (forall k : api (list Z) Z, (fl <= 4096 -> returns mem wp wl (k mem)) ->
    forall b r1 r2, returns mem wp wl ((_ ← (if (fl =? 0) && b then return_if r1 MEM_OVERLAP else
      _ ← return_if (4096 <? fl) TOO_BIG; _ ← return_if (fl <? 2) TOO_SMALL; return_if r2 MEM_OVERLAP); k) mem))
    as Hchk.
  { intros k Hk b r1 r2. destruct (Z.eqb_spec fl 0), b, r1, r2, (Z.ltb_spec 4096 fl), (Z.ltb_spec fl 2);
      cbn [andb]; first [by apply Hk; lia | by eexists mem, _]. }
  apply Hchk. clear Hchk. intros Hf4096. rewrite u32_small in Hroom by lia.
  apply returns_walk; [lia..|]. intros r Er.
  assert (forall k : Z * Z -> api (list Z) Z,
    (forall a b, sp <= a <= b -> a <= sp + sl -> returns mem wp wl (k (a, b) mem)) ->
    returns mem wp wl ((match r with
      | inl upto => _ ← return_if (sp + sl <? upto) PARSE_ERROR; mret (sp + sl, sp + sl)
      | inr inject => mret inject end ≫= k) mem)) as Hinj.
  { intros k Hk. destruct r as [u|[a b]].
    - destruct (sp + sl <? u); [by exists mem, (rc PARSE_ERROR)|]. apply Hk; lia.
    - apply walk_inject in Er. apply Hk; lia. }
  apply Hinj. clear Hinj r Er. intros a b Hab Ha.
  apply returns_copy; [done|lia..|]. intros m1 C1.
  apply returns_copy; [done|destruct C1 as [L1 _]; lia..|]. intros m2 C2.
  apply returns_copy; [done|destruct C2 as [L2 _]; lia..|]. intros m3 C3. by eexists m3, _.
Qed.

(** No call on a serialised object can escape its buffers, whatever the
    memory holds and whatever the 32-bit arguments: each returns a number; the
    reading calls leave the memory as it was, the editing calls change nothing
    outside the [write_len] bytes at [write_ptr]. *)
Theorem sto_calls_safe mem p1 n1 p2 n2 p3 n3 id :
  vsize mem <= 2 ^ 32 -> Forall u32_arg [p1; n1; p2; n2; p3; n3; id] ->
  (forall p, returns mem p 0 (sto_validate p1 n1 mem)) /\
  (forall p, returns mem p 0 (sto_subfield p1 n1 id mem)) /\
  (forall p, returns mem p 0 (sto_subarray p1 n1 id mem)) /\
  returns mem p1 n1 (sto_emplace p1 n1 p2 n2 p3 n3 id mem) /\
  returns mem p1 n1 (sto_erase p1 n1 p2 n2 id mem).
Proof.
  intros Hm Hargs. pose proof Hargs as Hargs'. unfold u32_arg in Hargs'. rewrite !List.Forall_cons_iff in Hargs'.
  destruct Hargs' as (H1 & Hn1 & H2 & Hn2 & H3 & Hn3 & Hid & _).
  assert (Forall u32_arg [p1; n1; p2; n2; 0; 0; id]) as Herase by (repeat constructor; unfold u32_arg; lia).
  split; [|split; [|split; [|split]]].
  - intros p. apply returns_check_bounds; [lia..|]. intros Hin. apply returns_return_if; [done|]. intros _.
    apply returns_walk; [lia..|]. intros [u|[]] _. by eexists mem, _.
  - intros p. apply returns_check_bounds; [lia..|]. intros Hin. apply returns_return_if; [done|]. intros _.
    apply returns_walk; [lia..|]. intros [u|c] _; [case_match|]; by eexists mem, _.
  - intros p. apply returns_check_bounds; [lia..|]. intros Hin. apply returns_return_if; [done|]. intros Hl. bool_prop.
    destruct (rd_total (E := unit) mem p1 ltac:(lia)) as [b Eb].
    erewrite run_bind by (unfold mem_byte; cbn [get_mem mem_only]; rewrite Eb; reflexivity).
    apply returns_return_if; [done|]. intros _. destruct (_ =? 0xF0);
      (apply returns_walk; [lia..|]; intros [u|c] _; [case_match|]; by eexists mem, _).
  - by apply sto_emplace_returns.
  - destruct (sto_emplace_returns _ _ _ _ _ _ _ _ Hm Herase) as (mem' & c & Ef & Hc). unfold sto_erase.
    destruct (sto_emplace _ _ _ _ _ _ _ _) as [s a|s a|]; cbn in Ef; simplify_eq; by eexists mem', _.
Qed.

(** ** The contract of the editing calls *)

(** Fields in the canonical order, no identifier twice. *)
Definition canonical (o : list sto_field) : Prop := StronglySorted (fun x y => x.1 < y.1) o.

Lemma canonical_cons x o : canonical (x :: o) <-> canonical o /\ Forall (fun y => x.1 < y.1) o.
Proof.
  split; [apply StronglySorted_inv|]. intros [H1 H2]. by constructor.
Qed.

Lemma put_Forall (P : sto_field -> Prop) id new o :
  Forall P new -> Forall P o -> Forall P (put id new o).
Proof.
  intros Hn. induction o as [|x o IH]; intros Ho; [done|].
  apply List.Forall_cons_iff in Ho as [Hx Ho]. cbn [put].
  repeat case_match; [apply Forall_app..|constructor]; auto.
Qed.

Lemma put_canonical id f o : canonical o -> canonical (put id [(id, f)] o).
Proof.
  induction o as [|x o IH]; intros Ho; [by repeat constructor|].
  apply canonical_cons in Ho as [Ho Hx]. cbn [put].
  destruct (Z.eqb_spec x.1 id) as [<-|Hne]; [by apply canonical_cons|].
  destruct (Z.ltb_spec id x.1); cbn [app]; apply canonical_cons.
  - split; [by apply canonical_cons|]. constructor; [done|].
    eapply List.Forall_impl; [|exact Hx]. cbn. intros. lia.
  - split; [auto|]. apply put_Forall; [|done]. repeat constructor. cbn. lia.
Qed.

Lemma lookup_put_same id f o p :
  exists offset, lookup_field id p (put id [(id, f)] o) = Some (offset, (id, f)).
Proof.
  revert p. induction o as [|x o IH]; intros p; cbn [put].
  - cbn. rewrite Z.eqb_refl. eauto.
  - destruct (x.1 =? id) eqn:E; [|destruct (id <? x.1)]; cbn [app lookup_field fst];
      rewrite ?Z.eqb_refl; eauto. rewrite E. apply IH.
Qed.

Lemma lookup_put_other id new o id' p p' :
  id' <> id -> Forall (fun x => x.1 = id) new ->
  snd <$> lookup_field id' p (put id new o) = snd <$> lookup_field id' p' o.
Proof.
  intros Hid Hnew.
  assert (forall o p p', snd <$> lookup_field id' p o = snd <$> lookup_field id' p' o) as Hoff.
  { clear. induction o as [|x o IH]; intros p p'; cbn [lookup_field]; [done|]. case_match; [done|apply IH]. }
  assert (forall o p, exists q, lookup_field id' p (new ++ o) = lookup_field id' q o) as Hskip.
  { clear - Hid Hnew. induction new as [|x new IH]; intros o p; [by exists p|].
    apply List.Forall_cons_iff in Hnew as [Hx Hnew]. cbn [app lookup_field].
    rewrite (proj2 (Z.eqb_neq x.1 id')) by lia. by apply IH. }
  revert p p'. induction o as [|x o IH]; intros p p'; cbn [put].
  - destruct (Hskip [] p) as [q Eq]. by rewrite app_nil_r in Eq; rewrite Eq.
  - destruct (Z.eqb_spec x.1 id) as [Hx|]; [|destruct (id <? x.1)].
    + destruct (Hskip o p) as [q ->]. cbn [lookup_field]. rewrite (proj2 (Z.eqb_neq x.1 id')) by lia. apply Hoff.
    + destruct (Hskip (x :: o) p) as [q ->]. apply Hoff.
    + cbn [lookup_field]. case_match; [done|apply IH].
Qed.

Lemma lookup_field_bytes id p o offset x :
  lookup_field id p o = Some (offset, x) ->
  exists o1 o2, o = o1 ++ x :: o2 /\ offset = p + vsize (encode o1).
Proof.
  revert p. induction o as [|y o IH]; intros p; cbn [lookup_field]; [done|].
  destruct (y.1 =? id); intros E.
  - simplify_eq. exists [], o. split; [done|]. change (vsize (encode [])) with 0. lia.
  - apply IH in E as (o1 & o2 & -> & ->). exists (y :: o1), o2. split; [done|].
    rewrite encode_cons, vsize_app. lia.
Qed.

Lemma lookup_field_holds mem s id o offset x :
  holds mem s (encode o) -> lookup_field id 0 o = Some (offset, x) ->
  sub_bytes mem (s + offset) (vsize x.2) = x.2.
Proof.
  intros Hh (o1 & o2 & -> & ->)%lookup_field_bytes. rewrite encode_app, encode_cons, !holds_app in Hh.
  destruct Hh as (_ & (_ & _ & E) & _). exact E.
Qed.

Lemma put_length id x o : (length (put id [x] o) <= S (length o))%nat.
Proof. induction o as [|y o IH]; cbn [put]; [done|]. repeat case_match; cbn in *; lia. Qed.

(** The written object fits, and is where it should be. *)
Lemma emplace_written mem wp wl sp sl fp fl id o new :
  emplace_args mem wp wl sp sl fp fl o new ->
  let o' := put id new o in
  vsize (encode o') <= wl /\ holds (splice mem wp (encode o')) wp (encode o') /\
  vsize (splice mem wp (encode o')) = vsize mem.
Proof.
  intros [Ho _ [Hr [Es Hsl]] [_ Efl] _ Hw _] o'.
  assert (vsize (encode o') <= sl + fl) as Hfit.
  { destruct (inject_split id new o 0 0 Ho) as (o1 & mid & o2 & Eo & Ep & _). unfold o'. rewrite Ep, Efl.
    destruct (object_at _ _ _ _ Hr Es) as [<- _]. rewrite Eo, !encode_app, !vsize_app.
    pose proof (vsize_nonneg (encode mid)). lia. }
  split; [lia|]. split; [apply holds_splice_same; lia|apply splice_length; lia].
Qed.

(** On a well-formed object and a well-formed field, [sto_emplace] writes the
    object with the field inserted or replaced; the result is well-formed again,
    and in canonical order if the source was. *)
Theorem sto_emplace_correct mem wp wl sp sl fp fl id o f :
  emplace_args mem wp wl sp sl fp fl o [(id, f)] -> field_ok true (id, f) = true ->
  let o' := put id [(id, f)] o in
  sto_emplace wp wl sp sl fp fl id mem = Next (splice mem wp (encode o')) (vsize (encode o')) /\
  sub_bytes (splice mem wp (encode o')) wp (vsize (encode o')) = encode o' /\
  object_ok o' = true /\ (canonical o -> canonical o').
Proof.
  intros Hargs Hf o'. destruct (emplace_written _ _ _ _ _ _ _ id _ _ Hargs) as (_ & (_ & _ & E) & _).
  split; [by apply sto_emplace_run|]. split; [exact E|].
  split; [apply put_ok; [apply Hargs|done]|apply put_canonical].
Qed.

(** What was emplaced is found: [sto_subfield] on the written object locates
    the new field, whose bytes are there, and every other identifier leads to the
    same field as before. *)
Theorem sto_emplace_subfield mem wp wl sp sl fp fl id o f :
  emplace_args mem wp wl sp sl fp fl o [(id, f)] -> field_ok true (id, f) = true -> (length o < 1024)%nat ->
  exists mem' n offset,
    sto_emplace wp wl sp sl fp fl id mem = Next mem' n /\
    sto_subfield wp n id mem' = Ret mem' (located offset (id, f)) /\
    sub_bytes mem' (wp + offset) (vsize f) = f /\
    forall id', id' <> id -> exists r,
      sto_subfield wp n id' mem' = Ret mem' r /\
      match lookup_field id' 0 o with
      | None => r = rc DOESNT_EXIST
      | Some (_, x) => exists offset', r = located offset' x /\ sub_bytes mem' (wp + offset') (vsize x.2) = x.2
      end.
Proof.
  intros Hargs Hf Hlen. destruct (emplace_written _ _ _ _ _ _ _ id _ _ Hargs) as (Hfit & Hh & Hv).
  set (o' := put id [(id, f)] o) in *. set (mem' := splice mem wp (encode o')) in *.
  assert (object_ok o' = true) as Ho' by (apply put_ok; [apply Hargs|done]).
  destruct (lookup_put_same id f o 0) as [offset Elook]. fold o' in Elook.
  assert (2 <= vsize (encode o')) as H2.
  { destruct o' as [|x o'']; [done|]. by apply object_size. }
  pose proof Hargs as [_ _ [(_ & _ & Hm) _] _ _ Hw _].
  assert (readable mem' wp (vsize (encode o'))) as Hr by (unfold readable; lia).
  assert (length o' <= 1024)%nat as Hlen' by (pose proof (put_length id (id, f) o); unfold o'; lia).
  assert (encode o' = sub_bytes mem' wp (vsize (encode o'))) as Es by (symmetry; apply Hh).
  exists mem', (vsize (encode o')), offset. split; [by apply sto_emplace_run|].
  split; [rewrite (sto_subfield_lookup _ _ _ _ o') by done; by rewrite Elook|].
  split; [exact (lookup_field_holds _ _ _ _ _ _ Hh Elook)|].
  intros id' Hid. eexists. split; [by apply (sto_subfield_lookup _ _ _ _ o')|].
  pose proof (lookup_put_other id [(id, f)] o id' 0 0 Hid ltac:(by repeat constructor)) as E. fold o' in E.
  destruct (lookup_field id' 0 o') as [[q x]|] eqn:E1, (lookup_field id' 0 o) as [[q' x']|]; cbn in E; simplify_eq.
  - exists q. split; [done|]. exact (lookup_field_holds _ _ _ _ _ _ Hh E1).
  - done.
Qed.

Lemma put_nil_absent id o p : lookup_field id p o = None -> put id [] o = o.
Proof.
  revert p. induction o as [|x o IH]; intros p; cbn [lookup_field put]; [done|].
  destruct (x.1 =? id); [done|]. intros E. destruct (id <? x.1); [done|]. f_equal. eauto.
Qed.

Lemma lookup_above id o p : Forall (fun y => id < y.1) o -> lookup_field id p o = None.
Proof.
  revert p. induction o as [|x o IH]; intros p Ho; [done|]. apply List.Forall_cons_iff in Ho as [Hx Ho].
  cbn [lookup_field]. rewrite (proj2 (Z.eqb_neq x.1 id)) by lia. auto.
Qed.

Lemma above_trans id (x : sto_field) o :
  id < x.1 -> Forall (fun y => x.1 < y.1) o -> Forall (fun y => id < y.1) (x :: o).
Proof. intros Hx Ho. constructor; [done|]. eapply List.Forall_impl; [|exact Ho]. cbn. intros. lia. Qed.

Lemma lookup_put_nil id o p : canonical o -> lookup_field id p (put id [] o) = None.
Proof.
  revert p. induction o as [|x o IH]; intros p Ho; [done|]. pose proof Ho as [Ho' Hx]%canonical_cons. cbn [put].
  destruct (Z.eqb_spec x.1 id) as [<-|Hne]; [by apply lookup_above|].
  destruct (Z.ltb_spec id x.1); [by apply lookup_above, above_trans|].
  cbn [lookup_field]. rewrite (proj2 (Z.eqb_neq x.1 id)) by done. by apply IH.
Qed.

Lemma put_nil_shorter id o p offset x :
  canonical o -> lookup_field id p o = Some (offset, x) ->
  vsize (encode o) = vsize (encode (put id [] o)) + vsize x.2.
Proof.
  revert p. induction o as [|y o IH]; intros p Ho; cbn [lookup_field put]; [done|].
  apply canonical_cons in Ho as [Ho Hy]. destruct (Z.eqb_spec y.1 id) as [Hid|Hne].
  - intros [= _ ->]. cbn [app]. rewrite encode_cons, vsize_app. lia.
  - intros E. destruct (Z.ltb_spec id y.1).
    + pose proof (above_trans id y o ltac:(done) Hy) as [_ Ha]%List.Forall_cons_iff.
      by rewrite (lookup_above _ _ _ Ha) in E.
    + rewrite !encode_cons, !vsize_app. apply IH in E; [lia|done].
Qed.

Lemma object_ok_lookup id o p offset x :
  object_ok o = true -> lookup_field id p o = Some (offset, x) -> 2 <= vsize x.2.
Proof.
  revert p. induction o as [|y o IH]; intros p Ho; cbn [lookup_field]; [done|].
  destruct (object_ok_cons _ _ Ho) as [(last & Hy & _) Ho'].
  destruct (y.1 =? id); [intros [= _ ->]; by eapply field_ok_size|by apply IH].
Qed.

(** [sto_erase] on an object in canonical order writes the object without the
    field, which is gone while every other field stays; it answers with the new
    size, or [DOESNT_EXIST] when there was no such field. *)
Theorem sto_erase_correct mem wp wl sp sl id o :
  emplace_args mem wp wl sp sl 0 0 o [] -> canonical o ->
  let o' := put id [] o in
  sto_erase wp wl sp sl id mem =
    Next (splice mem wp (encode o'))
      (match lookup_field id 0 o with Some _ => vsize (encode o') | None => rc DOESNT_EXIST end) /\
  lookup_field id 0 o' = None /\
  forall id', id' <> id -> snd <$> lookup_field id' 0 o' = snd <$> lookup_field id' 0 o.
Proof.
  intros Hargs Hc o'. split; [|split; [by apply lookup_put_nil|intros id' Hid; by apply lookup_put_other]].
  unfold sto_erase. rewrite (sto_emplace_run mem wp wl sp sl 0 0 id o []) by done. fold o'.
  pose proof Hargs as [Ho _ [Hr [Es _]] _ _ _ _]. destruct (object_at _ _ _ _ Hr Es) as [El _].
  destruct Hr as (_ & Hsl & _). f_equal. destruct (lookup_field id 0 o) as [[q x]|] eqn:E.
  - pose proof (object_ok_lookup _ _ _ _ _ Ho E). apply put_nil_shorter in E; [|done]. fold o' in E.
    rewrite (proj2 (Z.eqb_neq (vsize (encode o')) sl)) by lia. by rewrite andb_false_r.
  - apply put_nil_absent in E. fold o' in E. rewrite E, El, Z.eqb_refl.
    by rewrite (proj2 (Z.ltb_lt 0 sl)) by lia.
Qed.

(** ** Samples *)

(** A transaction type and a sequence number at 0, the flags field at 16, room at 32. *)
Definition sample_tx : list sto_field :=
  [(0x10002, [0x12; 0; 0]); (0x20004, [0x24; 0; 0; 0; 1])].
Definition sample_flags : list Z := [0x22; 0; 0; 0; 7].
Definition sample_mem : list Z :=
  encode sample_tx ++ replicate 8 0 ++ sample_flags ++ replicate 43 0.

Lemma sample_args : emplace_args sample_mem 32 16 0 8 16 5 sample_tx [(0x20002, sample_flags)].
Proof.
  constructor; try (vm_compute; reflexivity); try lia; unfold readable, holds, apart; repeat split;
    try (vm_compute; intuition congruence); try (right; vm_compute; intuition congruence).
  - vm_compute. lia.
Qed.

Lemma sample_erase_args : emplace_args sample_mem 32 16 0 8 0 0 sample_tx [].
Proof.
  constructor; try (vm_compute; reflexivity); try lia; unfold readable, holds, apart; repeat split;
    try (vm_compute; intuition congruence); try (left; vm_compute; intuition congruence).
  vm_compute. lia.
Qed.

Lemma sample_canonical : canonical sample_tx.
Proof. repeat constructor. Qed.

Lemma sto_calls_safe_witness :
  returns sample_mem 32 16 (sto_emplace 32 16 0 8 16 5 0x20002 sample_mem).
Proof.
  apply (sto_calls_safe sample_mem 32 16 0 8 16 5 0x20002).
  - vm_compute. congruence.
  - repeat constructor; lia.
Defined.

Lemma sto_emplace_correct_witness :
  let o' := [(0x10002, [0x12; 0; 0]); (0x20002, sample_flags); (0x20004, [0x24; 0; 0; 0; 1])] in
  sto_emplace 32 16 0 8 16 5 0x20002 sample_mem = Next (splice sample_mem 32 (encode o')) 13.
Proof.
  apply (sto_emplace_correct sample_mem 32 16 0 8 16 5 0x20002 sample_tx sample_flags sample_args).
  vm_compute. reflexivity.
Defined.

Lemma sto_emplace_subfield_witness :
  exists mem' n offset,
    sto_emplace 32 16 0 8 16 5 0x20002 sample_mem = Next mem' n /\
    sto_subfield 32 n 0x20002 mem' = Ret mem' (located offset (0x20002, sample_flags)).
Proof.
  destruct (sto_emplace_subfield sample_mem 32 16 0 8 16 5 0x20002 sample_tx sample_flags sample_args)
    as (mem' & n & offset & H1 & H2 & _).
  - vm_compute. reflexivity.
  - cbn. lia.
  - exists mem', n, offset. exact (conj H1 H2).
Defined.

Lemma sto_erase_correct_witness :
  sto_erase 32 16 0 8 0x20004 sample_mem = Next (splice sample_mem 32 [0x12; 0; 0]) 3.
Proof.
  apply (sto_erase_correct sample_mem 32 16 0 8 0x20004 sample_tx sample_erase_args sample_canonical).
Defined.

(** ** What the measuring gets wrong *)

(** An empty blob is refused at the end of an object, and only there. *)
Lemma empty_blob_last :
  sto_validate 0 7 [0x24; 0; 0; 0; 1; 0x73; 0] = Ret [0x24; 0; 0; 0; 1; 0x73; 0] 0 /\
  sto_validate 0 7 [0x73; 0; 0x24; 0; 0; 0; 1] = Ret [0x73; 0; 0x24; 0; 0; 0; 1] 1.
Proof. split; vm_compute; reflexivity. Qed.

(** So is an array without members: its end marker is read as a member. *)
Lemma empty_array_rejected :
  sto_validate 0 7 [0xF9; 0xF1; 0x24; 0; 0; 0; 1] = Ret [0xF9; 0xF1; 0x24; 0; 0; 0; 1] 0.
Proof. vm_compute. reflexivity. Qed.

(** A path set has no length prefix in the ledger's format, but is measured as if
    its first byte, the type of the first path element, were one. *)
Lemma path_set_measured :
  measured true ([0x01; 0x12; 0x01] ++ replicate 20 0xAA ++ [0x00]) =
  Val (mkItem 4 18 1 3 1).
Proof. vm_compute. reflexivity. Qed.

(** A negative native amount is measured as 48 bytes. *)
Lemma negative_native_measured :
  measured true [0x61; 0; 0; 0; 0; 0; 0; 0; 1] = Val (mkItem 49 6 1 1 48).
Proof. vm_compute. reflexivity. Qed.

(** A field cut short by the end of the region is still located by
    [sto_subfield], with a length that reaches behind the region. *)
Lemma subfield_past_end :
  sto_subfield 0 3 0x20004 [0x24; 0; 0] = Ret [0x24; 0; 0] (2 ^ 32 + 4).
Proof. vm_compute. reflexivity. Qed.
