(* ===== verification/Directory.v ===== *)
(** * Directory: the ledger's paged directories ([ledger/impl/ApplyView.cpp])

    A directory is a set of keys spread over numbered pages, page 0 being its
    root.  The pages form a doubly linked ring through [sfIndexNext] and
    [sfIndexPrevious]; the root's previous page is the last one.  [dirAdd] (behind
    [dirInsert] and [dirAppend]) and [dirRemove] are translated with every test of
    the ring, a broken one being a [LogicError].

    A [Dir] is the part of the view that belongs to one directory: its pages by
    number, none when the directory does not exist.  Fields that the code only
    copies ([sfRootIndex] and what [describe] sets) are left out, and an absent
    link reads as 0.

    The theorems: on a well-formed directory no [LogicError] is raised, the ring
    stays well-formed, and the directory behaves as a finite map from keys to
    pages whose last key takes the directory with it. *)

From stdpp Require Import base numbers list option gmap sorting.
From Stdlib Require Import ZArith Lia.
From S2P Require Import Prelude.

Local Open Scope Z_scope.

(** ** Pages *)

Record DirNode := mkNode { sfIndexes : list Z; sfIndexNext : Z; sfIndexPrevious : Z }.

Abbreviation Dir := (gmap Z DirNode).

Inductive logic_error := LogicError.
Abbreviation dres := (res logic_error).

Definition set_indexes (l : list Z) (n : DirNode) : DirNode := mkNode l (sfIndexNext n) (sfIndexPrevious n).
Definition set_next (p : Z) (n : DirNode) : DirNode := mkNode (sfIndexes n) p (sfIndexPrevious n).
Definition set_prev (p : Z) (n : DirNode) : DirNode := mkNode (sfIndexes n) (sfIndexNext n) p.

Definition dirNodeMaxEntries : Z := 32.
Definition dirNodeMaxPages : Z := 262144.
Definition rootPage : Z := 0.

(** [peek] of a page that must be there. *)
Definition peek_page (d : Dir) (page : Z) : dres DirNode :=
  match d !! page with Some n => Val n | None => Err LogicError end.

(** ** Adding *)

(** [std::lower_bound] and [insert] on a sorted page; a key that is there already
    is a double insertion. *)
Fixpoint insert_sorted (key : Z) (l : list Z) : dres (list Z) :=
  match l with
  | [] => Val [key]
  | x :: l' =>
    if x <? key then l'' ← insert_sorted key l'; Val (x :: l'')
    else if x =? key then Err LogicError
    else Val (key :: x :: l')
  end.

Definition page_insert (preserveOrder : bool) (key : Z) (indexes : list Z) : dres (list Z) :=
  if preserveOrder then
    if bool_decide (key ∈ indexes) then Err LogicError else Val (indexes ++ [key])
  else insert_sorted key (merge_sort Z.le indexes).

Definition dirAdd (preserveOrder : bool) (d : Dir) (key : Z) : dres (option Z * Dir) :=
  match d !! rootPage with
  | None => Val (Some 0, <[rootPage := mkNode [key] 0 0]> d)
  | Some root =>
    let page := sfIndexPrevious root in
    node ← (if page =? 0 then Val root else peek_page d page);
    if Z.of_nat (length (sfIndexes node)) <? dirNodeMaxEntries then
      indexes ← page_insert preserveOrder key (sfIndexes node);
      Val (Some page, <[page := set_indexes indexes node]> d)
    else
      let page' := page + 1 in
      if dirNodeMaxPages <=? page' then Val (None, d)
      else
        let d := <[page := set_next page' node]> d in
        let d := alter (set_prev page') rootPage d in
        Val (Some page', <[page' := mkNode [key] 0 (if page' =? 1 then 0 else page' - 1)]> d)
  end.

(** ** Removing *)

Definition is_nil {A} (l : list A) : bool := match l with [] => true | _ => false end.

(** [std::find] and [erase]. *)
Fixpoint erase_first (key : Z) (l : list Z) : list Z :=
  match l with
  | [] => []
  | x :: l' => if x =? key then l' else x :: erase_first key l'
  end.

(** The root page became empty. *)
Definition removeRoot (d : Dir) (node : DirNode) (keepRoot : bool) : dres (bool * Dir) :=
  let page := rootPage in
  let prevPage := sfIndexPrevious node in
  let nextPage := sfIndexNext node in
  _ ← assert_or LogicError (negb ((nextPage =? page) && negb (prevPage =? page)));
  _ ← assert_or LogicError (negb ((prevPage =? page) && negb (nextPage =? page)));
  '(nextPage, prevPage, d) ←
    (if (nextPage =? prevPage) && negb (nextPage =? page) then
       last ← peek_page d nextPage;
       if is_nil (sfIndexes last) then
         Val (page, page, delete nextPage (<[page := mkNode (sfIndexes node) page page]> d))
       else Val (nextPage, prevPage, d)
     else Val (nextPage, prevPage, d));
  if keepRoot then Val (true, d)
  else if (nextPage =? page) && (prevPage =? page) then Val (true, delete page d)
  else Val (true, d).

(** Unlinking a page between [prevPage] and [nextPage]; the next page is returned. *)
Definition unlink_page (d : Dir) (page prevPage nextPage : Z) : dres (DirNode * Dir) :=
  _ ← assert_or LogicError (negb (nextPage =? page));
  _ ← assert_or LogicError (negb (prevPage =? page));
  prev ← peek_page d prevPage;
  let d := <[prevPage := set_next nextPage prev]> d in
  next ← peek_page d nextPage;
  let next := set_prev prevPage next in
  Val (next, delete page (<[nextPage := next]> d)).

(** Another page became empty: it is unlinked and erased. *)
Definition removePage (d : Dir) (page : Z) (node : DirNode) (keepRoot : bool) : dres (bool * Dir) :=
  let prevPage := sfIndexPrevious node in
  let nextPage := sfIndexNext node in
  '(next, d) ← unlink_page d page prevPage nextPage;
  '(nextPage, d) ←
    (if negb (nextPage =? rootPage) && (sfIndexNext next =? rootPage) && is_nil (sfIndexes next) then
       let d := alter (set_next rootPage) prevPage (delete nextPage d) in
       _ ← peek_page d rootPage;
       Val (rootPage, alter (set_prev prevPage) rootPage d)
     else Val (nextPage, d));
  if negb keepRoot && (nextPage =? rootPage) && (prevPage =? rootPage) then
    prev ← peek_page d prevPage;
    Val (true, if is_nil (sfIndexes prev) then delete prevPage d else d)
  else Val (true, d).

Definition dirRemove (d : Dir) (page key : Z) (keepRoot : bool) : dres (bool * Dir) :=
  match d !! page with
  | None => Val (false, d)
  | Some node =>
    if negb (bool_decide (key ∈ sfIndexes node)) then Val (false, d)
    else
      let node := set_indexes (erase_first key (sfIndexes node)) node in
      let d := <[page := node]> d in
      if negb (is_nil (sfIndexes node)) then Val (true, d)
      else if page =? rootPage then removeRoot d node keepRoot
      else removePage d page node keepRoot
  end.

(** Removing a directory that should be empty. *)
Definition emptyDirDelete (d : Dir) : dres (bool * Dir) :=
  match d !! rootPage with
  | None => Val (false, d)
  | Some node =>
    if negb (is_nil (sfIndexes node)) then Val (false, d)
    else
      let prevPage := sfIndexPrevious node in
      let nextPage := sfIndexNext node in
      _ ← assert_or LogicError (negb ((nextPage =? rootPage) && negb (prevPage =? rootPage)));
      _ ← assert_or LogicError (negb ((prevPage =? rootPage) && negb (nextPage =? rootPage)));
      if (nextPage =? prevPage) && negb (nextPage =? rootPage) then
        last ← peek_page d nextPage;
        if negb (is_nil (sfIndexes last)) then Val (false, d)
        else Val (true, delete rootPage (delete nextPage d))
      else if (nextPage =? rootPage) && (prevPage =? rootPage) then Val (true, delete rootPage d)
      else Val (true, d)
  end.

(** ** The ring *)

(** The three fields of a page. *)
Definition idx (d : Dir) (p : Z) : option (list Z) := sfIndexes <$> d !! p.
Definition nxt (d : Dir) (p : Z) : option Z := sfIndexNext <$> d !! p.
Definition prv (d : Dir) (p : Z) : option Z := sfIndexPrevious <$> d !! p.

Definition link (d : Dir) (x y : Z) : Prop := nxt d x = Some y /\ prv d y = Some x.

(** Neighbours in the list are linked both ways. *)
Fixpoint path (d : Dir) (l : list Z) : Prop :=
  match l with
  | x :: (y :: _) as r => link d x y /\ path d r
  | _ => True
  end.

(** [has d p k]: key [k] is on page [p]. *)
Definition has (d : Dir) (p k : Z) : Prop := exists l, idx d p = Some l /\ k ∈ l.

(** A directory with the pages [0 :: rest]: numbered in increasing order, linked
    as a ring, without an empty page except a root that has others behind it, and
    without a key twice. *)
Record dir_wf (d : Dir) (rest : list Z) : Prop := {
  wf_pages p : is_Some (idx d p) <-> p ∈ 0 :: rest;
  wf_order : StronglySorted Z.lt (0 :: rest);
  wf_ring : path d (0 :: rest ++ [0]);
  wf_used p l : idx d p = Some l -> p <> 0 \/ rest = [] -> l <> [];
  wf_nodup p l : idx d p = Some l -> NoDup l;
  wf_unique p q k : has d p k -> has d q k -> p = q
}.

Definition dir_ok (d : Dir) : Prop := d = ∅ \/ exists rest, dir_wf d rest.

Lemma path_app d l x r : path d (l ++ x :: r) <-> path d (l ++ [x]) /\ path d (x :: r).
Proof.
  induction l as [|a l IH]; [cbn; tauto|].
  destruct l as [|b l]; cbn in *; tauto.
Qed.

Lemma path_ext d d' l x :
  (forall z, z ∈ l -> nxt d' z = nxt d z) -> (forall z, z ∈ tail (l ++ [x]) -> prv d' z = prv d z) ->
  path d (l ++ [x]) -> path d' (l ++ [x]).
Proof.
  induction l as [|a l IH]; [done|]. intros Hn Hp.
  destruct (l ++ [x]) as [|b r] eqn:E; [by destruct l|]. cbn [app]. rewrite E. intros [[H1 H2] H3].
  cbn in Hp. rewrite E in Hp. split.
  - unfold link. rewrite Hn, Hp by set_solver. done.
  - apply IH; [set_solver| |done]. intros z Hz. apply Hp. cbn in Hz. set_solver.
Qed.

Lemma path_same d d' l :
  (forall q, nxt d' q = nxt d q) -> (forall q, prv d' q = prv d q) -> path d l -> path d' l.
Proof.
  intros Hn Hp. induction l as [|a l IH]; [done|]. destruct l as [|b l]; [done|].
  intros [[H1 H2] H3]. split; [unfold link; by rewrite Hn, Hp|by apply IH].
Qed.

Lemma StronglySorted_app_lt (l1 l2 : list Z) :
  StronglySorted Z.lt (l1 ++ l2) <->
  StronglySorted Z.lt l1 /\ StronglySorted Z.lt l2 /\ forall x y, x ∈ l1 -> y ∈ l2 -> x < y.
Proof.
  induction l1 as [|a l1 IH]; cbn.
  - split; [intros H; split; [constructor|split; [done|set_solver]]|tauto].
  - split.
    + intros [H1 H2]%StronglySorted_inv. apply IH in H1 as (H11 & H12 & H13).
      rewrite Forall_app in H2. destruct H2 as [H2 H3]. rewrite Forall_forall in H3.
      split; [by constructor|]. split; [done|]. intros x y [->|Hx]%elem_of_cons Hy; auto.
    + intros ([H1 H2]%StronglySorted_inv & H3 & H4). constructor.
      * apply IH. split; [done|]. split; [done|]. intros x y Hx Hy. apply H4; [by right|done].
      * apply Forall_app. split; [done|]. rewrite Forall_forall. intros y Hy. apply H4; [by left|done].
Qed.

Lemma sorted_not_in (l1 l2 : list Z) x :
  StronglySorted Z.lt (l1 ++ x :: l2) -> (x ∉ l1) /\ (x ∉ l2).
Proof.
  intros (H1 & [H2 H3]%StronglySorted_inv & H4)%StronglySorted_app_lt. rewrite Forall_forall in H3.
  split; intros Hx.
  - specialize (H4 x x Hx (list_elem_of_here _ _)). lia.
  - specialize (H3 x Hx). lia.
Qed.

(** ** How the updates act on the three fields *)

Section fields.
Context (d : Dir) (p : Z).

Lemma idx_insert n q : idx (<[p := n]> d) q = if decide (p = q) then Some (sfIndexes n) else idx d q.
Proof. unfold idx. rewrite lookup_insert. by case_decide. Qed.
Lemma nxt_insert n q : nxt (<[p := n]> d) q = if decide (p = q) then Some (sfIndexNext n) else nxt d q.
Proof. unfold nxt. rewrite lookup_insert. by case_decide. Qed.
Lemma prv_insert n q : prv (<[p := n]> d) q = if decide (p = q) then Some (sfIndexPrevious n) else prv d q.
Proof. unfold prv. rewrite lookup_insert. by case_decide. Qed.

Lemma idx_delete q : idx (delete p d) q = if decide (p = q) then None else idx d q.
Proof. unfold idx. rewrite lookup_delete. by case_decide. Qed.
Lemma nxt_delete q : nxt (delete p d) q = if decide (p = q) then None else nxt d q.
Proof. unfold nxt. rewrite lookup_delete. by case_decide. Qed.
Lemma prv_delete q : prv (delete p d) q = if decide (p = q) then None else prv d q.
Proof. unfold prv. rewrite lookup_delete. by case_decide. Qed.

Lemma fields_some n : d !! p = Some n ->
  idx d p = Some (sfIndexes n) /\ nxt d p = Some (sfIndexNext n) /\ prv d p = Some (sfIndexPrevious n).
Proof. unfold idx, nxt, prv. by intros ->. Qed.

Lemma idx_some l : idx d p = Some l -> exists n, d !! p = Some n /\ sfIndexes n = l.
Proof. unfold idx. intros (n & -> & ->)%fmap_Some. eauto. Qed.
End fields.

(** Changing a link of a page that is there. *)
Section relink.
Context (d : Dir) (p x : Z).

Ltac relink := unfold idx, nxt, prv; intros; rewrite lookup_alter; case_decide; subst; [|done];
  by destruct (d !! _).

Lemma idx_set_next q : idx (alter (set_next x) p d) q = idx d q.
Proof. relink. Qed.
Lemma prv_set_next q : prv (alter (set_next x) p d) q = prv d q.
Proof. relink. Qed.
Lemma nxt_set_next q : is_Some (idx d p) ->
  nxt (alter (set_next x) p d) q = if decide (p = q) then Some x else nxt d q.
Proof.
  intros [l (n & En & _)%idx_some]. unfold nxt. rewrite lookup_alter. case_decide; subst; [by rewrite En|done].
Qed.
Lemma idx_set_prev q : idx (alter (set_prev x) p d) q = idx d q.
Proof. relink. Qed.
Lemma nxt_set_prev q : nxt (alter (set_prev x) p d) q = nxt d q.
Proof. relink. Qed.
Lemma prv_set_prev q : is_Some (idx d p) ->
  prv (alter (set_prev x) p d) q = if decide (p = q) then Some x else prv d q.
Proof.
  intros [l (n & En & _)%idx_some]. unfold prv. rewrite lookup_alter. case_decide; subst; [by rewrite En|done].
Qed.
End relink.

Lemma insert_alter_node (d : Dir) p n (f : DirNode -> DirNode) :
  d !! p = Some n -> <[p := f n]> d = alter f p d.
Proof.
  intros E. apply map_eq. intros q. rewrite lookup_alter, lookup_insert. case_decide; subst; [by rewrite E|done].
Qed.

(** The last page, where [dirAdd] looks. *)
Lemma wf_last d rest :
  dir_wf d rest -> exists l last, 0 :: rest = l ++ [last] /\ prv d 0 = Some last /\ nxt d last = Some 0.
Proof.
  intros [_ _ Hring _ _ _]. destruct (exists_last (l := 0 :: rest)) as (l & last & E); [done|].
  exists l, last. split; [done|]. rewrite app_comm_cons, E, <- app_assoc in Hring. cbn [app] in Hring.
  apply path_app in Hring as [_ [[H1 H2] _]]. done.
Qed.

Lemma wf_lookup d rest p : dir_wf d rest -> p ∈ 0 :: rest -> exists n, d !! p = Some n.
Proof. intros Hd [l (n & En & _)%idx_some]%(wf_pages _ _ Hd). eauto. Qed.

(** ** Adding keeps the directory well-formed *)

Lemma insert_sorted_spec key l :
  key ∉ l -> exists l', insert_sorted key l = Val l' /\ l' ≡ₚ key :: l.
Proof.
  induction l as [|x l IH]; intros Hk; cbn; [eauto|].
  destruct (x <? key).
  - destruct IH as (l' & -> & Hp); [set_solver|]. cbn. eexists. split; [done|]. rewrite Hp. constructor.
  - destruct (Z.eqb_spec x key) as [->|]; [set_solver|]. eauto.
Qed.

Lemma page_insert_spec preserveOrder key l :
  key ∉ l -> exists l', page_insert preserveOrder key l = Val l' /\ l' ≡ₚ key :: l.
Proof.
  intros Hk. unfold page_insert. destruct preserveOrder.
  - rewrite bool_decide_eq_false_2 by done. eexists. split; [done|]. by rewrite Permutation_app_comm.
  - destruct (insert_sorted_spec key (merge_sort Z.le l)) as (l' & -> & Hp).
    + rewrite merge_sort_Permutation. done.
    + eexists. split; [done|]. by rewrite Hp, merge_sort_Permutation.
Qed.

(** What adding a key to a page, old or new, does to the keys. *)
Definition added (d d' : Dir) (pg key : Z) : Prop :=
  forall p k, has d' p k <-> has d p k \/ (p = pg /\ k = key).

Lemma added_unique d d' pg key :
  (forall p q k, has d p k -> has d q k -> p = q) -> (forall p, ~ has d p key) -> added d d' pg key ->
  forall p q k, has d' p k -> has d' q k -> p = q.
Proof.
  intros Hun Hnew Hadd p q k H1%Hadd H2%Hadd.
  destruct H1 as [H1|[-> ->]], H2 as [H2|[? ?]]; subst; eauto; exfalso; by eapply Hnew.
Qed.

Lemma wf_add_to_page d rest pg n indexes key :
  dir_wf d rest -> (forall p, ~ has d p key) -> d !! pg = Some n -> indexes ≡ₚ key :: sfIndexes n ->
  let d' := <[pg := set_indexes indexes n]> d in dir_wf d' rest /\ added d d' pg key.
Proof.
  intros Hd Hnew Hn Hperm d'. destruct (fields_some _ _ _ Hn) as (Ei & En & Ep).
  assert (forall q, idx d' q = if decide (pg = q) then Some indexes else idx d q) as Hi by (apply idx_insert).
  assert (forall q, nxt d' q = nxt d q) as Hnx by (intros q; unfold d'; rewrite nxt_insert; case_decide; by subst).
  assert (forall q, prv d' q = prv d q) as Hpx by (intros q; unfold d'; rewrite prv_insert; case_decide; by subst).
  assert (added d d' pg key) as Hadd.
  { intros p k. unfold has at 1. rewrite Hi. case_decide as Hpg; subst.
    - split.
      + intros (l & [= <-] & Hk). rewrite Hperm, elem_of_cons in Hk. destruct Hk as [->|Hk]; [auto|].
        left. by exists (sfIndexes n).
      + intros Hk. exists indexes. split; [done|]. rewrite Hperm, elem_of_cons.
        destruct Hk as [(l & El & Hk)|[_ ->]]; [|auto]. right. congruence.
    - split; [intros Hk; by left|]. intros [Hk|[-> _]]; done. }
  split; [|done]. destruct Hd as [Hp Ho Hr Hu Hnd Hun]. split; [|done|by apply (path_same d)|..].
  - intros p. rewrite <- Hp, Hi. case_decide; subst; [rewrite Ei; split; eauto|done].
  - intros p l. rewrite Hi. case_decide; [|eauto]. intros [= <-] _ ->. by apply Permutation_nil_l in Hperm.
  - intros p l. rewrite Hi. case_decide; [|eauto]. intros [= <-]. rewrite Hperm. constructor; [|eauto].
    intros Hk. apply (Hnew pg). by exists (sfIndexes n).
  - by apply (added_unique d _ pg key).
Qed.

Lemma last_largest l (last : Z) pages :
  StronglySorted Z.lt pages -> pages = l ++ [last] -> forall q, q ∈ pages -> q <= last.
Proof.
  intros Ho -> q. apply StronglySorted_app_lt in Ho as (_ & _ & Ho).
  rewrite elem_of_app, list_elem_of_singleton. intros [Hq| ->]; [|lia].
  specialize (Ho q last Hq (list_elem_of_here _ _)). lia.
Qed.

Lemma list_elem_of_tail {A} (l : list A) x : x ∈ tail l -> x ∈ l.
Proof. destruct l; cbn; [done|]. intros Hx. by right. Qed.

(** A new last page. *)
Lemma wf_add_page d rest l last n key :
  dir_wf d rest -> (forall p, ~ has d p key) -> 0 :: rest = l ++ [last] -> d !! last = Some n ->
  let d1 := <[last := set_next (last + 1) n]> d in
  let d' := <[last + 1 := mkNode [key] 0 (if last + 1 =? 1 then 0 else last + 1 - 1)]>
              (alter (set_prev (last + 1)) 0 d1) in
  dir_wf d' (rest ++ [last + 1]) /\ added d d' (last + 1) key.
Proof.
  intros Hd Hnew El Hn d1 d'. set (page' := last + 1) in *. pose proof Hd as [Hp Ho Hr Hu Hnd Hun].
  pose proof (last_largest _ _ _ Ho El) as Hmax.
  assert (page' ∉ 0 :: rest) as Hfresh by (intros Hq%Hmax; unfold page' in Hq; lia).
  assert (is_Some (idx d 0)) as Hroot by (apply Hp; by left).
  assert (is_Some (idx d last)) as Hlast by (apply Hp; rewrite El; apply elem_of_app; right; by left).
  assert (d1 = alter (set_next page') last d) as Ed1 by (by apply insert_alter_node).
  assert (forall q, idx d' q = if decide (page' = q) then Some [key] else idx d q) as Hi.
  { intros q. unfold d'. by rewrite Ed1, idx_insert, idx_set_prev, idx_set_next. }
  assert (forall q, nxt d' q = if decide (page' = q) then Some 0 else if decide (last = q) then Some page' else nxt d q) as Hnx.
  { intros q. unfold d'. by rewrite Ed1, nxt_insert, nxt_set_prev, nxt_set_next. }
  assert (forall q, prv d' q = if decide (page' = q) then Some last else if decide (0 = q) then Some page' else prv d q) as Hpx.
  { intros q. unfold d'. rewrite Ed1, prv_insert, prv_set_prev, prv_set_next by (by rewrite idx_set_next).
    case_decide; [|done]. cbn. f_equal. unfold page'. destruct (Z.eqb_spec (last + 1) 1); lia. }
  assert (added d d' page' key) as Hadd.
  { intros p k. unfold has at 1. rewrite Hi. case_decide as Hpg; subst.
    - split; [intros (? & [= <-] & ->%list_elem_of_singleton); by right|].
      intros [Hk|[_ ->]]; [|exists [key]; split; [done|by left]].
      destruct Hk as (? & Hk & _). exfalso. apply Hfresh, Hp. eauto.
    - split; [intros Hk; by left|]. intros [Hk|[-> _]]; done. }
  split; [|done]. split.
  - intros p. rewrite Hi. case_decide as Hpg.
    + subst p. split; [|eauto]. intros _. right. apply elem_of_app. right. by left.
    + rewrite Hp, app_comm_cons, elem_of_app, list_elem_of_singleton. split; [by left|]. intros [?| ->]; done.
  - rewrite app_comm_cons. apply StronglySorted_app_lt. split; [done|]. split; [repeat constructor|].
    intros x y Hx%Hmax ->%list_elem_of_singleton. unfold page'. lia.
  - replace (0 :: rest ++ [0]) with (l ++ last :: [0]) in Hr
      by (by rewrite app_comm_cons, El, <- app_assoc).
    replace (0 :: (rest ++ [page']) ++ [0]) with (l ++ last :: [page'; 0])
      by (by rewrite !app_comm_cons, El, <- !app_assoc).
    apply path_app in Hr as [Hr _]. apply path_app. rewrite El in Ho.
    pose proof (sorted_not_in _ _ _ Ho) as [Hnl _].
    split.
    + apply (path_ext d); [| |done].
      * intros z Hz. rewrite Hnx, !decide_False; [done|by intros ->|].
        intros ->. apply Hfresh. rewrite El. apply elem_of_app. by left.
      * intros z Hz. rewrite Hpx, !decide_False; [done|..].
        -- intros <-. rewrite <- El in Hz, Ho. cbn in Hz. apply StronglySorted_inv in Ho as [_ Ho].
           rewrite Forall_forall in Ho. specialize (Ho 0 Hz). lia.
        -- intros ->. apply Hfresh. rewrite El. apply (list_elem_of_tail _ _ Hz).
    + cbn. unfold link. rewrite !Hnx, !Hpx, !(decide_True (P := page' = page')) by done.
      assert (page' <> last) by (unfold page'; lia). assert (page' <> 0) by (intros E; apply Hfresh; rewrite E; by left).
      rewrite !(decide_False (P := page' = last)), !(decide_True (P := last = last)) by done.
      rewrite !(decide_False (P := page' = 0)), !(decide_True (P := 0 = 0)) by done. done.
  - intros p lx. rewrite Hi. case_decide; [by intros [= <-] _|]. intros Hpx' [Hne|Hnil]; [eauto|].
    by destruct rest.
  - intros p lx. rewrite Hi. case_decide; [|eauto]. intros [= <-]. apply NoDup_singleton.
  - by apply (added_unique d _ page' key).
Qed.

Lemma dirAdd_spec preserveOrder d key :
  dir_ok d -> (forall p, ~ has d p key) ->
  exists r d', dirAdd preserveOrder d key = Val (r, d') /\
    match r with
    | Some pg => dir_ok d' /\ added d d' pg key
    | None => d' = d
    end.
Proof.
  intros [->|[rest Hd]] Hnew; unfold dirAdd.
  - rewrite lookup_empty. do 2 eexists. split; [done|]. unfold rootPage. set (d' := <[0 := _]> _).
    assert (forall q, idx d' q = if decide (0 = q) then Some [key] else None) as Hi.
    { intros q. unfold d'. by rewrite idx_insert. }
    assert (added ∅ d' 0 key) as Hadd.
    { intros p k. unfold has. rewrite Hi. case_decide as Hp; subst.
      - split; [intros (? & [= <-] & ->%list_elem_of_singleton); auto|].
        intros [(? & [=] & _)|[_ ->]]. exists [key]. split; [done|by left].
      - split; [by intros (? & [=] & _)|]. intros [(? & [=] & _)|[-> _]]; done. }
    split; [|done]. right. exists []. split.
    + intros p. rewrite Hi, list_elem_of_singleton. case_decide; subst; split; eauto; [by intros [? [=]]|congruence].
    + repeat constructor.
    + cbn. unfold link, nxt, prv, d'. by rewrite lookup_insert_eq.
    + intros p l. rewrite Hi. case_decide; [by intros [= <-]|done].
    + intros p l. rewrite Hi. case_decide; [|done]. intros [= <-]. apply NoDup_singleton.
    + eapply (added_unique ∅); [by intros ??? (? & [=] & _)|exact Hnew|exact Hadd].
  - destruct (wf_last d rest Hd) as (l & last & El & Ep & En).
    destruct (wf_lookup d rest 0 Hd (list_elem_of_here _ _)) as [root Hroot].
    destruct (wf_lookup d rest last Hd) as [n Hn]; [rewrite El; apply elem_of_app; right; by left|].
    change rootPage with 0. rewrite Hroot. destruct (fields_some _ _ _ Hroot) as (_ & _ & Epr).
    assert (sfIndexPrevious root = last) as -> by congruence.
    assert ((if last =? 0 then Val root else peek_page d last) = Val n) as ->.
    { destruct (Z.eqb_spec last 0) as [->|]; [congruence|]. unfold peek_page. by rewrite Hn. }
    cbn [mbind res_bind]. destruct (_ <? _).
    + destruct (page_insert_spec preserveOrder key (sfIndexes n)) as (ix & -> & Hperm).
      { intros Hk. apply (Hnew last). exists (sfIndexes n). split; [by apply fields_some|done]. }
      cbn. do 2 eexists. split; [done|].
      destruct (wf_add_to_page d rest last n ix key Hd Hnew Hn Hperm). split; [right; eauto|done].
    + destruct (_ <=? _); [by do 2 eexists|]. do 2 eexists. split; [done|].
      destruct (wf_add_page d rest l last n key Hd Hnew El Hn). split; [right; eauto|done].
Qed.

(** ** Removing keeps the directory well-formed *)

Definition removed (d d' : Dir) (key : Z) : Prop := forall p k, has d' p k <-> has d p k /\ k <> key.

Lemma erase_first_perm key l : key ∈ l -> l ≡ₚ key :: erase_first key l.
Proof.
  induction l as [|x l IH]; intros Hk; [by apply not_elem_of_nil in Hk|]. cbn.
  destruct (Z.eqb_spec x key) as [->|Hne]; [done|].
  apply elem_of_cons in Hk as [->|Hk]; [done|]. rewrite (IH Hk) at 1. constructor.
Qed.

(** The key taken off its page. *)
Definition taken (d : Dir) (page : Z) (node : DirNode) (key : Z) : Dir :=
  <[page := set_indexes (erase_first key (sfIndexes node)) node]> d.

Section take.
Context (d : Dir) (rest : list Z) (page key : Z) (node : DirNode).
Context (Hd : dir_wf d rest) (Hn : d !! page = Some node) (Hk : key ∈ sfIndexes node).
Let entries : list Z := erase_first key (sfIndexes node).
Let d1 : Dir := taken d page node key.

Lemma taken_idx q : idx d1 q = if decide (page = q) then Some entries else idx d q.
Proof. apply idx_insert. Qed.

Lemma taken_nxt q : nxt d1 q = nxt d q.
Proof using Hn.
  destruct (fields_some _ _ _ Hn) as (_ & E & _). unfold d1, taken. rewrite nxt_insert.
  case_decide; subst; [by rewrite E|done].
Qed.

Lemma taken_prv q : prv d1 q = prv d q.
Proof using Hn.
  destruct (fields_some _ _ _ Hn) as (_ & _ & E). unfold d1, taken. rewrite prv_insert.
  case_decide; subst; [by rewrite E|done].
Qed.

Lemma entries_spec : NoDup entries /\ forall k, k ∈ entries <-> k ∈ sfIndexes node /\ k <> key.
Proof using Hd Hn Hk.
  pose proof (erase_first_perm _ _ Hk) as Hp. pose proof (wf_nodup _ _ Hd page (sfIndexes node)) as Hnd.
  assert (NoDup (key :: entries)) as Hnd'.
  { unfold entries. rewrite <- Hp. apply Hnd. by apply fields_some. }
  apply NoDup_cons in Hnd' as [Hni Hnd']. split; [done|]. intros k. rewrite Hp, elem_of_cons. fold entries.
  split; [|intros [[->|?] ?]; done]. intros Hke. split; [by right|]. by intros ->.
Qed.

Lemma taken_removed : removed d d1 key.
Proof using Hd Hn Hk.
  intros p k. unfold has at 1. rewrite taken_idx. destruct (fields_some _ _ _ Hn) as (Ei & _).
  case_decide as Hp.
  - subst p. split.
    + intros (l & [= <-] & [Hk' Hne]%entries_spec). split; [|done]. by exists (sfIndexes node).
    + intros [(l & El & Hkl) Hne]. exists entries. split; [done|]. apply entries_spec. split; [congruence|done].
  - split; [|tauto]. intros Hh. split; [done|]. intros ->. apply Hp.
    apply (wf_unique _ _ Hd page p key); [by exists (sfIndexes node)|done].
Qed.

Lemma taken_wf : entries <> [] \/ (page = 0 /\ rest <> []) -> dir_wf d1 rest.
Proof using Hd Hn Hk.
  intros He. destruct (fields_some _ _ _ Hn) as (Ei & _). pose proof Hd as [Hp Ho Hr Hu Hnd Hun]. split.
  - intros p. rewrite taken_idx, <- Hp. case_decide; subst; [rewrite Ei; split; eauto|done].
  - done.
  - apply (path_same d); [apply taken_nxt|apply taken_prv|done].
  - intros p l. rewrite taken_idx. case_decide; [|eauto]. subst p. intros [= <-] H0. destruct He as [|[-> Hrest]]; [done|].
    by destruct H0.
  - intros p l. rewrite taken_idx. case_decide; [|eauto]. intros [= <-]. apply entries_spec.
  - intros p q k [H1 _]%taken_removed [H2 _]%taken_removed. eauto.
Qed.
End take.

Lemma idx_empty d : (forall p, idx d p = None) -> d = ∅.
Proof.
  intros H. apply map_eq. intros p. rewrite lookup_empty. specialize (H p). unfold idx in H.
  by apply fmap_None in H.
Qed.

Lemma removed_all d d' key :
  removed d d' key -> d' = ∅ -> forall p k, has d p k -> k = key.
Proof.
  intros Hr -> p k Hh. destruct (decide (k = key)) as [|Hne]; [done|].
  destruct (proj2 (Hr p k) (conj Hh Hne)) as (l & E & _). done.
Qed.

(** An unlinked page: what [removePage] leaves of the three fields. *)
Definition unlinked (d : Dir) (page a b : Z) : Dir :=
  delete page (alter (set_prev a) b (alter (set_next b) a d)).

Section unlink.
Context (d : Dir) (page a b : Z).
Context (Ha : is_Some (idx d a)) (Hb : is_Some (idx d b)).
Let d3 : Dir := unlinked d page a b.

Lemma unlinked_idx q : idx d3 q = if decide (page = q) then None else idx d q.
Proof. unfold d3, unlinked. by rewrite idx_delete, idx_set_prev, idx_set_next. Qed.

Lemma unlinked_nxt q :
  nxt d3 q = if decide (page = q) then None else if decide (a = q) then Some b else nxt d q.
Proof using Ha. unfold d3, unlinked. by rewrite nxt_delete, nxt_set_prev, nxt_set_next. Qed.

Lemma unlinked_prv q :
  prv d3 q = if decide (page = q) then None else if decide (b = q) then Some a else prv d q.
Proof using Hb.
  unfold d3, unlinked. by rewrite prv_delete, prv_set_prev, prv_set_next by (by rewrite idx_set_next).
Qed.
End unlink.

(** The neighbours of a page that is not the root. *)
Lemma wf_neighbours d rest page :
  dir_wf d rest -> page ∈ rest ->
  exists l1 a b l2 t,
    0 :: rest = (l1 ++ [a]) ++ page :: l2 /\ l2 ++ [0] = b :: t /\
    nxt d a = Some page /\ prv d page = Some a /\ nxt d page = Some b /\ prv d b = Some page.
Proof.
  intros Hd (r1 & l2 & Er)%list_elem_of_split.
  destruct (exists_last (l := 0 :: r1)) as (l1 & a & E1); [done|].
  destruct (l2 ++ [0]) as [|b t] eqn:E2; [by destruct l2|].
  exists l1, a, b, l2, t. rewrite <- E1, Er. split; [done|]. split; [done|].
  pose proof (wf_ring _ _ Hd) as Hr. rewrite Er, <- app_assoc, app_comm_cons, E1 in Hr. cbn [app] in Hr.
  rewrite <- app_assoc, E2 in Hr. cbn [app] in Hr. apply path_app in Hr as [_ [[H1 H2] [[H3 H4] _]]]. done.
Qed.

(** Without the page, the others form a ring again. *)
Lemma unlinked_path d d' rest page l1 a b l2 t :
  dir_wf d rest -> 0 :: rest = (l1 ++ [a]) ++ page :: l2 -> l2 ++ [0] = b :: t ->
  (forall q, nxt d' q = nxt d q) -> (forall q, prv d' q = prv d q) ->
  is_Some (idx d' a) -> is_Some (idx d' b) ->
  path (unlinked d' page a b) ((l1 ++ [a]) ++ l2 ++ [0]).
Proof.
  intros Hd El Et Hnx Hpx Ha Hb. pose proof Hd as [_ Ho Hr _ _ _].
  assert (forall z, z ∈ tail (l1 ++ [a]) -> 0 < z) as Hpos.
  { intros z Hz. apply StronglySorted_inv in Ho as [_ Ho]. rewrite Forall_forall in Ho. apply Ho.
    destruct (l1 ++ [a]); [by apply not_elem_of_nil in Hz|]. injection El as _ ->. apply elem_of_app. by left. }
  assert (0 < page) as Hp0.
  { apply StronglySorted_inv in Ho as [_ Ho]. rewrite Forall_forall in Ho. apply Ho.
    destruct l1; injection El as _ ->; [by left|]. apply elem_of_app. right. by left. }
  replace (0 :: rest ++ [0]) with (l1 ++ a :: page :: b :: t) in Hr
    by (rewrite app_comm_cons, El, <- !app_assoc; cbn; by rewrite Et).
  rewrite El in Ho. apply path_app in Hr as [Hr1 [_ [_ Hr2]]].
  pose proof Ho as (Ho1 & [Ho2 Hgt]%StronglySorted_inv & Hlt)%StronglySorted_app_lt. rewrite Forall_forall in Hgt.
  rewrite <- app_assoc in Ho. destruct (sorted_not_in _ _ _ Ho) as [Hal _].
  assert (forall z, z ∈ l1 ++ [a] -> z < page) as Hlt' by (intros z Hz; apply Hlt; [done|by left]).
  assert (a < page) as Hap by (apply Hlt', elem_of_app; right; by left).
  assert (b = 0 \/ page < b) as Hbp.
  { destruct l2; injection Et as <- <-; [auto|]. right. apply Hgt. by left. }
  rewrite <- app_assoc. cbn [app]. rewrite Et. apply path_app. split; [|split].
  - apply (path_ext d); [| |done].
    + intros z Hz. assert (z < page) by (apply Hlt', elem_of_app; by left).
      rewrite unlinked_nxt, !decide_False; [done|by intros ->|lia|done].
    + intros z Hz. pose proof (Hpos z Hz). pose proof (Hlt' z (list_elem_of_tail _ _ Hz)).
      rewrite unlinked_prv, !decide_False; [done|lia..|done].
  - split; [rewrite unlinked_nxt by done|rewrite unlinked_prv by done]; rewrite decide_False, decide_True by lia; done.
  - rewrite <- Et in Hr2 |- *. apply (path_ext d); [| |done].
    + intros z Hz. pose proof (Hgt z Hz). rewrite unlinked_nxt, !decide_False; [done|lia..|done].
    + intros z Hz. rewrite Et in Hz. cbn in Hz.
      assert (z <> b /\ z <> page) as [Hzb Hzp].
      { destruct l2 as [|y l2]; injection Et as <- <-; [by apply not_elem_of_nil in Hz|].
        apply StronglySorted_inv in Ho2 as [_ Ho2]. rewrite Forall_forall in Ho2.
        pose proof (Hgt y (list_elem_of_here _ _)).
        apply elem_of_app in Hz as [Hz|Hz%list_elem_of_singleton]; [|lia].
        specialize (Hgt z (list_elem_of_further _ _ _ Hz)). specialize (Ho2 z Hz). lia. }
      rewrite unlinked_prv, !decide_False; [done|lia..|done].
Qed.

(** The keys after unlinking a page whose last key went. *)
Lemma unlinked_removed d rest page node key a b :
  dir_wf d rest -> d !! page = Some node -> key ∈ sfIndexes node -> erase_first key (sfIndexes node) = [] ->
  removed d (unlinked (taken d page node key) page a b) key.
Proof.
  intros Hd Hn Hk He p k. rewrite <- (taken_removed d rest page key node Hd Hn Hk p k).
  unfold has. rewrite unlinked_idx. case_decide as Hp; [|done]. subst p.
  rewrite taken_idx, decide_True, He by done. split; [by intros (? & [=] & _)|].
  intros (? & [= <-] & H). by apply not_elem_of_nil in H.
Qed.

Lemma unlinked_wf d rest page node key l1 a b l2 t :
  dir_wf d rest -> d !! page = Some node -> key ∈ sfIndexes node -> erase_first key (sfIndexes node) = [] ->
  0 :: rest = (l1 ++ [a]) ++ page :: l2 -> l2 ++ [0] = b :: t ->
  is_Some (idx (taken d page node key) a) -> is_Some (idx (taken d page node key) b) ->
  let rest' := tail ((l1 ++ [a]) ++ l2) in
  (rest' = [] -> idx d 0 <> Some []) ->
  dir_wf (unlinked (taken d page node key) page a b) rest'.
Proof.
  intros Hd Hn Hk He El Et Ha Hb rest' Hroot. pose proof Hd as [Hp Ho Hr Hu Hnd Hun].
  pose proof (unlinked_removed d rest page node key a b Hd Hn Hk He) as Hrem.
  set (d3 := unlinked _ _ _ _) in *.
  assert (0 :: rest' = (l1 ++ [a]) ++ l2) as Er by (unfold rest'; destruct l1; cbn in *; congruence).
  assert (forall q, idx d3 q = if decide (page = q) then None else idx d q) as Hi.
  { intros q. unfold d3. rewrite unlinked_idx, taken_idx. by case_decide. }
  rewrite El in Ho. pose proof (sorted_not_in _ _ _ Ho) as [Hn1 Hn2]. split.
  - intros p. rewrite Hi, Er. case_decide as Hpp.
    + subst p. split; [by intros [? [=]]|]. intros [?|?]%elem_of_app; done.
    + rewrite Hp, El, (elem_of_app (l1 ++ [a]) (page :: l2)), (elem_of_app (l1 ++ [a]) l2), elem_of_cons.
      split; [intros [?|[?|?]]; auto; congruence|]. tauto.
  - rewrite Er. apply StronglySorted_app_lt in Ho as (H1 & [H2 _]%StronglySorted_inv & H3).
    apply StronglySorted_app_lt. split; [done|]. split; [done|]. intros x y Hx Hy. apply H3; [done|by right].
  - rewrite app_comm_cons, Er, <- (app_assoc (l1 ++ [a])). apply (unlinked_path d _ rest _ _ _ _ _ t); try done.
    + intros q. by apply taken_nxt.
    + intros q. by apply taken_prv.
  - intros p l. rewrite Hi. case_decide; [done|]. intros E [Hne|Hnil]; [eauto|].
    destruct (decide (p = 0)) as [->|]; [|eauto]. intros ->. by apply Hroot.
  - intros p l. rewrite Hi. case_decide; [done|]. eauto.
  - intros p q k [H1 _]%Hrem [H2 _]%Hrem. eauto.
Qed.

Lemma removed_delete d d1 p key :
  idx d1 p = Some [] -> removed d d1 key -> removed d (delete p d1) key.
Proof.
  intros E Hr q k. rewrite <- (Hr q k). unfold has. rewrite idx_delete. case_decide; [|done]. subst q. rewrite E.
  split; [by intros (? & [=] & _)|]. intros (? & [= <-] & H). by apply not_elem_of_nil in H.
Qed.

Lemma wf_only_root d : dir_wf d [] -> delete 0 d = ∅.
Proof.
  intros Hd. apply idx_empty. intros p. rewrite idx_delete. case_decide as Hp; [done|].
  destruct (idx d p) eqn:E; [|done]. exfalso. apply Hp. symmetry. apply list_elem_of_singleton.
  apply (wf_pages _ _ Hd). eauto.
Qed.

Lemma delete_insert_node (d : Dir) p n : delete p (<[p := n]> d) = delete p d.
Proof. apply map_eq. intros q. rewrite !lookup_delete, lookup_insert. by repeat case_decide. Qed.

(** The last key of the root page went. *)
Lemma removeRoot_spec d rest key node :
  dir_wf d rest -> d !! 0 = Some node -> key ∈ sfIndexes node -> erase_first key (sfIndexes node) = [] ->
  exists d', removeRoot (taken d 0 node key) (set_indexes [] node) false = Val (true, d') /\
    dir_ok d' /\ removed d d' key.
Proof.
  intros Hd Hn Hk He. pose proof (taken_removed d rest 0 key node Hd Hn Hk) as Hrem.
  destruct (fields_some _ _ _ Hn) as (_ & En & Ep). unfold removeRoot. cbn [set_indexes sfIndexNext sfIndexPrevious].
  destruct rest as [|x r].
  - pose proof (wf_ring _ _ Hd) as [[H1 H2] _]. assert (sfIndexNext node = 0) as -> by congruence.
    assert (sfIndexPrevious node = 0) as -> by congruence. cbn. eexists. split; [done|]. split.
    + left. unfold taken. rewrite delete_insert_node. by apply wf_only_root.
    + apply removed_delete; [|done]. by rewrite taken_idx, decide_True, He.
  - destruct (wf_last _ _ Hd) as (l & last & El & Epl & _). assert (sfIndexPrevious node = last) as -> by congruence.
    pose proof (wf_ring _ _ Hd) as [[H1 _] _]. assert (sfIndexNext node = x) as -> by congruence.
    pose proof (wf_order _ _ Hd) as [_ Ho]%StronglySorted_inv. rewrite Forall_forall in Ho.
    assert (0 < x) by (apply Ho; by left).
    assert (0 < last).
    { apply Ho. destruct l; [by destruct r|]. injection El as _ El. rewrite El. apply elem_of_app. right. by left. }
    assert (dir_wf (taken d 0 node key) (x :: r)) as Hd1.
    { eapply taken_wf; try done. by right. }
    destruct (wf_lookup _ _ x Hd1) as [nx Hnx]; [right; by left|].
    assert (is_nil (sfIndexes nx) = false) as Hnil.
    { destruct (fields_some _ _ _ Hnx) as (Ei & _).
      pose proof (wf_used _ _ Hd1 x _ Ei ltac:(left; lia)). by destruct (sfIndexes nx). }
    unfold rootPage. rewrite (proj2 (Z.eqb_neq x 0)), (proj2 (Z.eqb_neq last 0)) by lia. cbn [andb negb assert_or mbind res_bind].
    exists (taken d 0 node key). split; [|split; [right; eauto|done]].
    rewrite andb_true_r. destruct (x =? last); cbn [mbind res_bind].
    + unfold peek_page. rewrite Hnx. cbn [mbind res_bind]. rewrite Hnil. cbn. by rewrite (proj2 (Z.eqb_neq x 0)) by lia.
    + by rewrite (proj2 (Z.eqb_neq x 0)) by lia.
Qed.

Lemma unlink_run d page a b :
  is_Some (idx d a) -> is_Some (idx d b) -> a <> page -> b <> page ->
  exists nb, alter (set_next b) a d !! b = Some nb /\
    unlink_page d page a b = Val (set_prev a nb, unlinked d page a b).
Proof.
  intros [la (na & Hna & _)%idx_some] [lb Hb] Ha0 Hb0.
  assert (is_Some (idx (alter (set_next b) a d) b)) as [lb' (nb & Hnb & _)%idx_some] by (rewrite idx_set_next; eauto).
  exists nb. split; [done|]. unfold unlink_page, peek_page.
  rewrite (proj2 (Z.eqb_neq b page)), (proj2 (Z.eqb_neq a page)), Hna by done. cbn [negb assert_or mbind res_bind].
  rewrite (insert_alter_node d a na (set_next b) Hna), Hnb. cbn [mbind res_bind].
  by rewrite (insert_alter_node _ b nb (set_prev a) Hnb).
Qed.

(** The root's only neighbour is the only other page. *)
Lemma two_pages d rest l1 page l2 t :
  dir_wf d rest -> 0 :: rest = (l1 ++ [0]) ++ page :: l2 -> l2 ++ [0] = 0 :: t -> l1 = [] /\ l2 = [].
Proof.
  intros Hd El Et. pose proof (wf_order _ _ Hd) as Ho. apply StronglySorted_inv in Ho as [_ Ho].
  rewrite Forall_forall in Ho. split.
  - destruct l1 as [|x l1]; [done|]. injection El as _ ->. exfalso.
    specialize (Ho 0). rewrite <- app_assoc, elem_of_app in Ho. specialize (Ho ltac:(right; by left)). lia.
  - destruct l2 as [|x l2]; [done|]. injection Et as -> _. exfalso.
    destruct l1 as [|y l1]; [injection El as ->|injection El as _ ->]; specialize (Ho 0).
    + specialize (Ho ltac:(right; by left)). lia.
    + rewrite elem_of_app in Ho. specialize (Ho ltac:(right; right; by left)). lia.
Qed.

(** The last key of another page went. *)
Lemma removePage_spec d rest page key node :
  dir_wf d rest -> d !! page = Some node -> page <> 0 -> key ∈ sfIndexes node ->
  erase_first key (sfIndexes node) = [] ->
  exists d', removePage (taken d page node key) page (set_indexes [] node) false = Val (true, d') /\
    dir_ok d' /\ removed d d' key.
Proof.
  intros Hd Hn Hp0 Hk He. destruct (fields_some _ _ _ Hn) as (Ei & En & Ep).
  assert (page ∈ rest) as Hin.
  { assert (page ∈ 0 :: rest) as H by (apply (wf_pages _ _ Hd); eauto). apply elem_of_cons in H. tauto. }
  destruct (wf_neighbours _ _ _ Hd Hin) as (l1 & a & b & l2 & t & El & Et & Ea & Epp & Enp & Eb).
  assert (sfIndexNext node = b) as Enb by congruence. assert (sfIndexPrevious node = a) as Epa by congruence.
  assert (a <> page /\ b <> page) as [Hap Hbp].
  { pose proof (wf_order _ _ Hd) as Ho. rewrite El in Ho. destruct (sorted_not_in _ _ _ Ho) as [H1 H2]. split; intros ->.
    - apply H1, elem_of_app. right. by left.
    - destruct l2; injection Et as ? <-; subst; [done|]. apply H2. by left. }
  set (d1 := taken d page node key).
  assert (forall q, q <> page -> idx d1 q = idx d q) as Hi1.
  { intros q Hq. unfold d1. by rewrite taken_idx, decide_False. }
  assert (is_Some (idx d1 a)) as Ha by (rewrite Hi1 by done; unfold nxt in Ea; unfold idx; by destruct (d !! a)).
  assert (is_Some (idx d1 b)) as Hb by (rewrite Hi1 by done; unfold prv in Eb; unfold idx; by destruct (d !! b)).
  pose proof (unlinked_removed d rest page node key a b Hd Hn Hk He) as Hrem. fold d1 in Hrem.
  pose proof (unlinked_wf d rest page node key l1 a b l2 t Hd Hn Hk He El Et Ha Hb) as Hwf. fold d1 in Hwf.
  destruct (unlink_run d1 page a b Ha Hb Hap Hbp) as (nb & Hnb & Hrun).
  unfold removePage, rootPage. cbn [set_indexes sfIndexNext sfIndexPrevious]. rewrite Enb, Epa, Hrun. clear Enb Epa.
  cbn [mbind res_bind]. set (d3 := unlinked d1 page a b) in *.
  assert (negb (b =? 0) && (sfIndexNext (set_prev a nb) =? 0) && is_nil (sfIndexes (set_prev a nb)) = false) as ->.
  { destruct (Z.eqb_spec b 0); [done|]. cbn. destruct (fields_some _ _ _ Hnb) as (Eib & _).
    rewrite idx_set_next, Hi1 in Eib by done. pose proof (wf_used _ _ Hd b _ Eib ltac:(by left)).
    destruct (sfIndexes nb); [done|]. apply andb_false_r. }
  cbn [mbind res_bind negb andb]. destruct ((b =? 0) && (a =? 0)) eqn:Eab.
  - bool_prop. subst a b. destruct (two_pages d rest l1 page l2 t Hd El Et) as [-> ->].
    assert (forall q, idx d3 q = if decide (page = q) then None else idx d q) as Hi3.
    { intros q. unfold d3. rewrite unlinked_idx. case_decide; [done|]. by apply Hi1. }
    destruct (wf_lookup d rest 0 Hd (list_elem_of_here _ _)) as [root Hroot].
    destruct (fields_some _ _ _ Hroot) as (Eir & _).
    assert (idx d3 0 = Some (sfIndexes root)) as E0 by (rewrite Hi3, decide_False; done).
    apply idx_some in E0 as (r3 & Hr3 & Er3). unfold peek_page. rewrite Hr3. cbn [mbind res_bind]. rewrite Er3.
    eexists. split; [done|]. destruct (sfIndexes root) as [|k0 ks]; cbn [is_nil].
    + split; [left|apply removed_delete; [by rewrite Hi3, decide_False|done]].
      apply idx_empty. intros q. rewrite idx_delete, Hi3. repeat case_decide; try done.
      destruct (idx d q) eqn:E; [|done]. exfalso. assert (q ∈ 0 :: rest) as Hq by (apply (wf_pages _ _ Hd); eauto).
      rewrite El in Hq. cbn in Hq. rewrite !elem_of_cons in Hq. destruct Hq as [?|[?|Hq]]; [congruence..|].
      by apply not_elem_of_nil in Hq.
    + split; [|done]. right. eexists. apply Hwf. congruence.
  - exists d3. split; [done|]. split; [|done]. right. eexists. apply Hwf. intros Hnil.
    exfalso. destruct l1 as [|? l1]; [|by destruct l1]. destruct l2; [|done]. cbn in *. injection El as <- _.
    by injection Et as <- _.
Qed.

Lemma dirRemove_spec d page key :
  dir_ok d -> has d page key ->
  exists d', dirRemove d page key false = Val (true, d') /\ dir_ok d' /\ removed d d' key.
Proof.
  intros [->|[rest Hd]] (l & (node & Hn & <-)%idx_some & Hk); [done|].
  unfold dirRemove. rewrite Hn, bool_decide_eq_true_2 by done. cbn [negb].
  change (sfIndexes (set_indexes _ node)) with (erase_first key (sfIndexes node)). fold (taken d page node key).
  destruct (erase_first key (sfIndexes node)) as [|k ks] eqn:He; cbn [is_nil negb].
  - destruct (Z.eqb_spec page rootPage) as [->|Hp0].
    + by apply removeRoot_spec with rest.
    + by apply removePage_spec with rest.
  - exists (taken d page node key). split; [done|].
    split; [right; exists rest|by apply taken_removed with rest]. apply taken_wf; try done. left. congruence.
Qed.

(** A directory whose keys are all gone is gone. *)
Lemma dir_ok_no_keys d : dir_ok d -> (forall p k, ~ has d p k) -> d = ∅.
Proof.
  intros [->|[rest Hd]] Hno; [done|]. exfalso.
  destruct (exists_last (l := 0 :: rest)) as (l & last & E); [done|].
  destruct (wf_lookup d rest last Hd) as [n Hn]; [rewrite E; apply elem_of_app; right; by left|].
  destruct (fields_some _ _ _ Hn) as (Ei & _).
  assert (sfIndexes n <> []) as Hne.
  { apply (wf_used _ _ Hd last _ Ei). destruct rest as [|x r]; [by right|]. left. intros ->.
    pose proof (wf_order _ _ Hd) as [_ Ho]%StronglySorted_inv. rewrite Forall_forall in Ho.
    destruct l; [by destruct r|]. injection E as _ E. specialize (Ho 0). rewrite E, elem_of_app in Ho.
    specialize (Ho ltac:(right; by left)). lia. }
  destruct (sfIndexes n) as [|k ks] eqn:Ek; [done|]. apply (Hno last k). exists (k :: ks). split; [congruence|by left].
Qed.

(** On a well-formed directory [dirInsert] (and [dirAppend]) raises no
    [LogicError]: it either reports a full directory and changes nothing, or
    returns the page that now holds the key, every other key keeping its page, and
    the directory is well-formed again. *)
Theorem dirAdd_correct preserveOrder d key :
  dir_ok d -> (forall p, ~ has d p key) ->
  exists r d', dirAdd preserveOrder d key = Val (r, d') /\
    match r with
    | Some pg => dir_ok d' /\ forall p k, has d' p k <-> has d p k \/ (p = pg /\ k = key)
    | None => d' = d
    end.
Proof. apply dirAdd_spec. Qed.

(** On a well-formed directory [dirRemove] with the right page raises no
    [LogicError] and takes away the key and nothing else; the directory is
    well-formed again, and it is gone exactly when the key was the last one. *)
Theorem dirRemove_correct d page key :
  dir_ok d -> has d page key ->
  exists d', dirRemove d page key false = Val (true, d') /\ dir_ok d' /\
    (forall p k, has d' p k <-> has d p k /\ k <> key) /\
    (d' = ∅ <-> forall p k, has d p k -> k = key).
Proof.
  intros Hd Hh. destruct (dirRemove_spec d page key Hd Hh) as (d' & E & Hd' & Hr).
  exists d'. split; [done|]. split; [done|]. split; [done|]. split.
  - intros Hnil. by apply (removed_all d d').
  - intros Hall. apply dir_ok_no_keys; [done|]. intros p k [Hk Hne]%Hr. apply Hne, (Hall p k Hk).
Qed.

(** ** Samples *)

(** ** Keeping the root

    With [keepRoot] the root page of a directory that became empty stays. *)

Definition empty_root : Dir := {[ 0 := mkNode [] 0 0 ]}.
Definition dir_live (d : Dir) : Prop := dir_ok d \/ d = empty_root.

Lemma empty_root_no_keys p k : ~ has empty_root p k.
Proof.
  intros (l & E & Hk). unfold idx, empty_root in E. apply fmap_Some in E as (n & E & ->).
  apply lookup_singleton_Some in E as [_ <-]. by apply elem_of_nil in Hk.
Qed.

(** What the root is when only [keepRoot] keeps it. *)
Definition kept (d0 d1 : Dir) : Prop := d1 = d0 \/ (d0 = delete 0 d1 /\ d1 !! 0 = Some (mkNode [] 0 0)).

Lemma removeRoot_keep d node b d0 : d !! 0 = Some node -> sfIndexes node = [] -> removeRoot d node false = Val (b, d0) ->
  exists d1, removeRoot d node true = Val (true, d1) /\ kept d0 d1.
Proof.
  unfold removeRoot, rootPage. intros Hn Hi H. res_inv. rewrite Hb, Hb0. cbn [assert_or mbind res_bind]. destruct node as [l nx pv]. cbn in *. subst l.
  destruct ((nx =? pv) && negb (nx =? 0)) eqn:E.
  - apply bind_Val in Hb1 as (last & Hl & Hm). rewrite Hl. cbn [mbind res_bind]. bool_prop. subst pv.
    destruct (is_nil (sfIndexes last)); injection Hm as <-; cbn in *; eexists; (split; [done|]).
    + injection Hk as <- <-. right. split; [done|]. rewrite lookup_delete_ne, lookup_insert_eq by congruence. done.
    + left. destruct (Z.eqb_spec nx 0); [done|]. cbn in Hk. congruence.
  - injection Hb1 as <-. cbn in *. eexists. split; [done|]. destruct ((nx =? 0) && (pv =? 0)) eqn:E0; injection Hk as <- <-; [|by left].
    right. bool_prop. by subst.
Qed.

Lemma unlink_page_root d page nextPage next d' : unlink_page d page 0 nextPage = Val (next, d') ->
  page <> 0 /\ nextPage <> page /\ exists root, d !! 0 = Some root /\
  d' !! 0 = Some (if nextPage =? 0 then mkNode (sfIndexes root) 0 0 else set_next nextPage root).
Proof.
  unfold unlink_page. intros H. res_inv. bool_prop. unfold peek_page in *. destruct (d !! 0) as [root|] eqn:Er; [|done]. res_inv.
  split; [congruence|]. split; [done|]. exists a1. split; [done|]. rewrite lookup_delete_ne by congruence.
  destruct (Z.eqb_spec nextPage 0) as [->|].
  - rewrite lookup_insert_eq in *. res_inv. done.
  - by rewrite lookup_insert_ne, lookup_insert_eq.
Qed.

Lemma removePage_keep d page node b d0 : removePage d page node false = Val (b, d0) ->
  exists d1, removePage d page node true = Val (true, d1) /\ kept d0 d1.
Proof.
  unfold removePage, rootPage. intros H. apply bind_Val in H as ([next d1] & Hu & H). rewrite Hu. cbn [mbind res_bind].
  apply bind_Val in H as ([nextPage d2] & Hn & H). rewrite Hn. cbn [mbind res_bind andb negb] in *.
  eexists. split; [done|]. destruct ((nextPage =? 0) && (sfIndexPrevious node =? 0)) eqn:E; [|injection H as <- <-; by left].
  bool_prop. subst nextPage. rewrite H1 in *. apply unlink_page_root in Hu as (Hp & Hnp & root & Hr & Hd1).
  apply bind_Val in H as (prev & Hpk & H). injection H as <- <-. destruct (is_nil (sfIndexes prev)) eqn:Ei; [right|by left].
  split; [done|]. unfold peek_page in Hpk. destruct (d2 !! 0) as [pr|] eqn:E2; [|done]. injection Hpk as ->.
  destruct prev as [l nx pv]. destruct l; [|done]. f_equal.
  destruct (negb (sfIndexNext node =? 0) && (sfIndexNext next =? 0) && is_nil (sfIndexes next)) eqn:Ec.
  - apply bind_Val in Hn as (z & _ & [= <-]). bool_prop. rewrite lookup_alter_eq, lookup_alter_eq, lookup_delete_ne, Hd1 in E2 by done.
    rewrite (proj2 (Z.eqb_neq _ 0)) in E2 by done. cbn in E2. injection E2 as _ <- <-. done.
  - injection Hn as H0 ->. rewrite H0 in *. rewrite Hd1 in E2. cbn in E2. injection E2 as _ <- <-. done.
Qed.

Lemma dirRemove_keep d page key : dir_ok d -> has d page key ->
  exists d', dirRemove d page key true = Val (true, d') /\ dir_live d' /\ removed d d' key.
Proof.
  intros Hd Hh. destruct (dirRemove_spec d page key Hd Hh) as (d0 & E & Hok & Hrem).
  assert (exists d1, dirRemove d page key true = Val (true, d1) /\ kept d0 d1) as (d1 & -> & Hk).
  { unfold dirRemove in *. destruct (d !! page) as [node|]; [|done]. destruct (negb (bool_decide _)); [done|].
    destruct (is_nil _) eqn:Ei; cbn [negb] in *; [|injection E as <-; eexists; by split; [|left]].
    set (n := set_indexes _ node) in *. assert (sfIndexes n = []) as Hn by (by destruct (sfIndexes n)).
    destruct (Z.eqb_spec page rootPage) as [->|].
    - eapply removeRoot_keep; [|done|done]. by rewrite lookup_insert_eq.
    - by eapply removePage_keep. }
  exists d1. split; [done|]. destruct Hk as [->|[-> H1]]; [by split; [left|]|].
  assert (delete 0 d1 = ∅) as E0.
  { destruct Hok as [?|[rest Hwf]]; [done|]. destruct (wf_lookup _ _ 0 Hwf ltac:(by left)) as [n Hn]. by rewrite lookup_delete_eq in Hn. }
  assert (d1 = empty_root) as -> by (rewrite <- (insert_delete_id d1 0 _ H1), E0; done).
  split; [by right|]. intros p k. split; [intros Hf; by apply empty_root_no_keys in Hf|]. intros Hf%Hrem.
  rewrite E0 in Hf. destruct Hf as (l & Hf & _). by unfold idx in Hf; rewrite lookup_empty in Hf.
Qed.

Lemma dirAdd_live preserveOrder d key : dir_live d -> (forall p, ~ has d p key) ->
  exists r d', dirAdd preserveOrder d key = Val (r, d') /\ match r with Some pg => dir_ok d' /\ added d d' pg key | None => d' = d end.
Proof.
  intros [Hd| ->] Hn; [by apply dirAdd_spec|].
  destruct (dirAdd_spec preserveOrder ∅ key ltac:(by left)) as (r & d' & E & Hr).
  { intros p (l & Hf & _). by unfold idx in Hf; rewrite lookup_empty in Hf. }
  unfold dirAdd in E. rewrite lookup_empty in E. injection E as <- <-. destruct Hr as [Hok Hadd].
  exists (Some 0), (<[rootPage := mkNode [key] 0 0]> ∅). split.
  - unfold dirAdd, empty_root, rootPage. rewrite lookup_singleton_eq. cbn [sfIndexPrevious Z.eqb mbind res_bind sfIndexes length].
    change (Z.of_nat 0 <? dirNodeMaxEntries) with true. cbn iota.
    assert (page_insert preserveOrder key [] = Val [key]) as -> by (by destruct preserveOrder). cbn [mbind res_bind].
    by rewrite insert_singleton_eq.
  - split; [done|]. intros p k. rewrite (Hadd p k). split; (intros [Hf|?]; [|by right]); exfalso.
    + destruct Hf as (l & Hf & _). by unfold idx in Hf; rewrite lookup_empty in Hf.
    + by apply empty_root_no_keys in Hf.
Qed.

Lemma dir_ok_empty : dir_ok ∅.
Proof. by left. Qed.

Lemma no_keys_empty key p : ~ has ∅ p key.
Proof. intros (l & E & _). done. Qed.

Lemma dirAdd_correct_witness :
  exists r d', dirAdd false ∅ 7 = Val (r, d') /\
    match r with
    | Some pg => dir_ok d' /\ forall p k, has d' p k <-> has ∅ p k \/ (p = pg /\ k = 7)
    | None => d' = ∅
    end.
Proof. exact (dirAdd_correct false ∅ 7 dir_ok_empty (no_keys_empty 7)). Defined.

(** A directory with the one key 7 on its root page. *)
Definition sample_dir : Dir := {[0 := mkNode [7] 0 0]}.

Lemma sample_dir_ok : dir_ok sample_dir.
Proof.
  destruct (dirAdd_spec false ∅ 7 dir_ok_empty (no_keys_empty 7)) as (r & d' & E & H).
  vm_compute in E. injection E as <- <-. exact (proj1 H).
Qed.

Lemma dirRemove_correct_witness :
  exists d', dirRemove sample_dir 0 7 false = Val (true, d') /\ dir_ok d' /\
    (forall p k, has d' p k <-> has sample_dir p k /\ k <> 7) /\
    (d' = ∅ <-> forall p k, has sample_dir p k -> k = 7).
Proof.
  apply (dirRemove_correct sample_dir 0 7 sample_dir_ok). exists [7]. split; [reflexivity|by left].
Defined.
