(* ===== verification/Context.v ===== *)
(** * Context: the state a hook runs in ([app/hook/applyHook.h])

    The ledger objects the hook API looks at, and [HookResult] and [HookContext],
    the mutable state of one hook execution, with the memory of the WebAssembly
    instance.  Account identifiers and hashes are unsigned numbers; at the border
    to the memory they are big-endian byte strings of 20 and 32 bytes. *)

From stdpp Require Import base numbers list option gmap.
From Stdlib Require Import ZArith Lia.
From S2P Require Import Prelude Enum Runtime Directory.

Local Open Scope Z_scope.

(** ** Transaction results

    The codes the engine names ([protocol/TER.h]); the last five stand for the
    codes of each class that only other transactors return. *)
Inductive TER :=
| tesSUCCESS
| tefINTERNAL | tefBAD_LEDGER
| temHOOK_DATA_TOO_LARGE | temMALFORMED | temDISABLED
| terNO_HOOK
| tecINSUFFICIENT_RESERVE | tecDIR_FULL | tecHOOK_REJECTED | tecINTERNAL | tecREQUIRES_FLAG
| tecNO_ENTRY | tecCLAIM | tecOVERSIZE | tecKILLED | tecEXPIRED | tecINVARIANT_FAILED
| tec_other (code : Z) | tef_other (code : Z) | tem_other (code : Z) | tel_other (code : Z) | ter_other (code : Z).

#[export] Instance TER_eq_dec : EqDecision TER.
Proof. solve_decision. Defined.

(** ** Ledger objects *)

Abbreviation AccountID := Z (only parsing).
Abbreviation uint256 := Z (only parsing).
Abbreviation Blob := (list Z) (only parsing).

(** The fields of an [ltACCOUNT_ROOT] the engine uses; an absent counter reads as 0. *)
Record AccountRoot := mkRoot {
  sfBalance : Z;
  sfOwnerCount : Z;
  sfHookStateCount : Z;
  sfHookNamespaces : option (list uint256);
  acc_flags : Z
}.

(** One element of [sfHookGrants]. *)
Record HookGrant := mkGrant { grant_hash : uint256; sfAuthorize : option AccountID }.

(** One element of [sfHookParameters]. *)
Record HookParameter := mkParam { sfHookParameterName : option Blob; sfHookParameterValue : option Blob }.

(** [getFieldVL] reads an absent field as empty. *)
Definition getFieldVL (b : option Blob) : Blob := default [] b.

(** One element of [sfHooks] of an [ltHOOK]; without a hash it is blank. *)
Record HookObj := mkHookObj {
  sfHookHash : option uint256;
  sfHookGrants : option (list HookGrant);
  sfHookNamespace : option uint256;
  sfHookOn : option Z;
  sfHookParameters : option (list HookParameter);
  sfFlags : option Z
}.

(** The hooks of an account and the page of the owner directory they are on. *)
Record HookSLE := mkHookSLE { sfHooks : list HookObj; hook_ownerNode : Z }.

(** An [ltHOOK_DEFINITION]. *)
Record HookDef := mkDef {
  def_hookOn : Z;
  def_namespace : uint256;
  def_parameters : list HookParameter;
  def_apiVersion : Z;
  def_code : Blob;
  def_setTxnID : uint256;
  sfReferenceCount : Z;
  def_fee : Z;
  def_callbackFee : option Z;
  def_flags : Z
}.

(** An [ltHOOK_STATE]. *)
Record StateEntry := mkState { sfHookStateData : Blob; sfHookStateKey : uint256; sfOwnerNode : Z }.

Record Fees := mkFees { fee_reserve : Z; fee_increment : Z }.

(** Amounts of XRP are below 2^57 drops; with 32-bit owner counts and the network's
    increments the product stays inside the 64 bits of the source. *)
Definition accountReserve (f : Fees) (ownerCount : Z) : Z := fee_reserve f + ownerCount * fee_increment f.

(** The part of the ledger the engine reads and writes.  Hook states, their
    directories and hook definitions are found by the keys of their keylets, the
    hooks and the owner directory of an account by the account. *)
Record Ledger := mkLedger {
  accounts : gmap AccountID AccountRoot;
  hooks : gmap AccountID HookSLE;
  definitions : gmap uint256 HookDef;
  states : gmap uint256 StateEntry;
  state_dirs : gmap uint256 Dir;
  owner_dirs : gmap AccountID Dir;
  fees : Fees
}.

Definition set_account (a : AccountID) (r : AccountRoot) (l : Ledger) : Ledger :=
  mkLedger (<[a := r]> (accounts l)) (hooks l) (definitions l) (states l) (state_dirs l) (owner_dirs l) (fees l).
Definition set_hooks (m : gmap AccountID HookSLE) (l : Ledger) : Ledger :=
  mkLedger (accounts l) m (definitions l) (states l) (state_dirs l) (owner_dirs l) (fees l).
Definition set_definitions (m : gmap uint256 HookDef) (l : Ledger) : Ledger :=
  mkLedger (accounts l) (hooks l) m (states l) (state_dirs l) (owner_dirs l) (fees l).
Definition set_states (m : gmap uint256 StateEntry) (l : Ledger) : Ledger :=
  mkLedger (accounts l) (hooks l) (definitions l) m (state_dirs l) (owner_dirs l) (fees l).
Definition set_dirs (m : gmap uint256 Dir) (l : Ledger) : Ledger :=
  mkLedger (accounts l) (hooks l) (definitions l) (states l) m (owner_dirs l) (fees l).
Definition set_owner_dirs (m : gmap AccountID Dir) (l : Ledger) : Ledger :=
  mkLedger (accounts l) (hooks l) (definitions l) (states l) (state_dirs l) m (fees l).

(** ** Transactions *)

(** [sfEmitDetails] of an emitted transaction. *)
Record EmitDetails := mkDetails {
  sfEmitGeneration : option Z;
  sfEmitBurden : option Z;
  sfEmitParentTxnID : option uint256;
  sfEmitNonce : option uint256;
  sfEmitCallback : option AccountID;
  sfEmitHookHash : option uint256
}.

(** The fields of a transaction the engine looks at. *)
Record STTx := mkTx {
  tx_id : uint256;
  tx_type : Z;
  tx_account : option AccountID;
  sfSequence : option Z;
  sfSigningPubKey : option Blob;
  sfSignature : option Blob;
  sfFirstLedgerSequence : option Z;
  sfLastLedgerSequence : option Z;
  sfFee : option Z;
  sfEmitDetails : option EmitDetails;
  tx_parameters : option (list HookParameter);
  sfTransactionHash : uint256
}.

(** ** The execution of a hook *)

(** [HookStateMap]: per account the owner count it can still take, then
    namespace, key, and the value with its modified flag. *)
Abbreviation cache_entry := (bool * Blob)%type (only parsing).
Abbreviation account_cache := (Z * gmap uint256 (gmap uint256 cache_entry))%type (only parsing).

Record HookStateMap := mkStateMap {
  sm_accounts : gmap AccountID account_cache;
  modified_entry_count : Z
}.

Record HookResult := mkResult {
  hookHash : uint256;
  account : AccountID;
  otxnAccount : AccountID;
  hookNamespace : uint256;
  emittedTxn : list STTx;
  stateMap : HookStateMap;
  changedStateCount : Z;
  hookParamOverrides : gmap uint256 (gmap Blob Blob);
  hookParams : gmap Blob Blob;
  hookSkips : gset uint256;
  exitType : ExitType;
  exitReason : Blob;
  exitCode : Z;
  hasCallback : bool;
  isCallback : bool;
  isStrong : bool;
  overrideCount : Z;
  hookChainPosition : Z;
  foreignStateSetDisabled : bool;
  executeAgainAsWeak : bool
}.

Record HookContext := mkContext {
  memory : list Z;
  emit_nonce_counter : Z;
  ledger_nonce_counter : Z;
  expected_etxn_count : Z;
  nonce_used : gset uint256;
  generation : Z;
  burden : Z;
  guard_map : gmap Z Z;
  result : HookResult
}.

(** ** Updates *)

Definition set_memory (m : list Z) (c : HookContext) : HookContext :=
  mkContext m (emit_nonce_counter c) (ledger_nonce_counter c) (expected_etxn_count c) (nonce_used c)
    (generation c) (burden c) (guard_map c) (result c).
Definition set_result (r : HookResult) (c : HookContext) : HookContext :=
  mkContext (memory c) (emit_nonce_counter c) (ledger_nonce_counter c) (expected_etxn_count c)
    (nonce_used c) (generation c) (burden c) (guard_map c) r.
Definition set_guard_map (g : gmap Z Z) (c : HookContext) : HookContext :=
  mkContext (memory c) (emit_nonce_counter c) (ledger_nonce_counter c) (expected_etxn_count c)
    (nonce_used c) (generation c) (burden c) g (result c).
Definition set_emission (nonces ledger_nonces expected : Z) (used : gset uint256) (c : HookContext) : HookContext :=
  mkContext (memory c) nonces ledger_nonces expected used (generation c) (burden c) (guard_map c) (result c).
Definition set_origin (gen bur : Z) (c : HookContext) : HookContext :=
  mkContext (memory c) (emit_nonce_counter c) (ledger_nonce_counter c) (expected_etxn_count c)
    (nonce_used c) gen bur (guard_map c) (result c).

(** The state map and its bookkeeping. *)
Definition set_state (m : HookStateMap) (changed : Z) (disabled : bool) (r : HookResult) : HookResult :=
  mkResult (hookHash r) (account r) (otxnAccount r) (hookNamespace r) (emittedTxn r) m changed (hookParamOverrides r)
    (hookParams r) (hookSkips r) (exitType r) (exitReason r) (exitCode r) (hasCallback r) (isCallback r)
    (isStrong r) (overrideCount r) (hookChainPosition r) disabled (executeAgainAsWeak r).
(** How the hook ended. *)
Definition set_exit (t : ExitType) (reason : Blob) (code : Z) (r : HookResult) : HookResult :=
  mkResult (hookHash r) (account r) (otxnAccount r) (hookNamespace r) (emittedTxn r) (stateMap r) (changedStateCount r)
    (hookParamOverrides r) (hookParams r) (hookSkips r) t reason code (hasCallback r) (isCallback r)
    (isStrong r) (overrideCount r) (hookChainPosition r) (foreignStateSetDisabled r) (executeAgainAsWeak r).
(** What the hook decided for the others of its chain. *)
Definition set_chain (overrides : gmap uint256 (gmap Blob Blob)) (count : Z) (skips : gset uint256)
    (again : bool) (r : HookResult) : HookResult :=
  mkResult (hookHash r) (account r) (otxnAccount r) (hookNamespace r) (emittedTxn r) (stateMap r) (changedStateCount r)
    overrides (hookParams r) skips (exitType r) (exitReason r) (exitCode r) (hasCallback r) (isCallback r)
    (isStrong r) count (hookChainPosition r) (foreignStateSetDisabled r) again.

(** The transactions emitted so far. *)
Definition set_emitted (txs : list STTx) (r : HookResult) : HookResult :=
  mkResult (hookHash r) (account r) (otxnAccount r) (hookNamespace r) txs (stateMap r) (changedStateCount r)
    (hookParamOverrides r) (hookParams r) (hookSkips r) (exitType r) (exitReason r) (exitCode r) (hasCallback r)
    (isCallback r) (isStrong r) (overrideCount r) (hookChainPosition r) (foreignStateSetDisabled r) (executeAgainAsWeak r).

#[export] Instance context_mem : HasMem HookContext.
Proof. by refine {| get_mem := memory; set_mem := set_memory |}. Defined.

(** The context's own monad. *)
Definition get_result : api HookContext HookResult := fun c => Next c (result c).
Definition modify_result (f : HookResult -> HookResult) : api HookContext unit := fun c =>
  Next (set_result (f (result c)) c) tt.
