(* ===== verification/StateLedger.v ===== *)
(** * StateLedger: hook state in the ledger ([app/hook/impl/applyHook.cpp])

    [setHookState] writes, creates or deletes one [ltHOOK_STATE] and keeps the
    account's counters, the namespace's directory and the account's list of
    namespaces in step; [addHookNamespaceEntry], [removeHookNamespaceEntry] and the
    owner count functions of [ledger/impl/View.cpp] are the pieces it uses.

    The refinement theorem relates the ledger to an abstract store, a finite map
    from account, namespace and key to data: on a ledger that represents a store,
    [setHookState] either fails for one of the documented reasons or the new
    ledger represents the updated store; the ledger is never found corrupt. *)

From stdpp Require Import base numbers list option gmap sorting fin_map_dom.
From Stdlib Require Import ZArith Lia.
From S2P Require Import Prelude Enum Runtime Directory Context.

Local Open Scope Z_scope.

(** ** Keylets

    The keys under which hook states and their directories are stored are hashes
    of what they belong to; the engine relies on their being different for
    different arguments. *)
Class Keylets := {
  hookState_key : AccountID -> uint256 -> uint256 -> uint256;
  hookStateDir_key : AccountID -> uint256 -> uint256;
  hookState_inj a k n a' k' n' :
    hookState_key a k n = hookState_key a' k' n' -> a = a' /\ k = k' /\ n = n';
  hookStateDir_inj a n a' n' : hookStateDir_key a n = hookStateDir_key a' n' -> a = a' /\ n = n'
}.

(** ** Account roots *)

Definition confineOwnerCount (current adjustment : Z) : Z :=
  let adjusted := u32 (current + adjustment) in
  if 0 <? adjustment then if adjusted <? current then 2 ^ 32 - 1 else adjusted
  else if current <? adjusted then 0 else adjusted.

Definition adjustOwnerCount (amount : Z) (r : AccountRoot) : AccountRoot :=
  mkRoot (sfBalance r) (confineOwnerCount (sfOwnerCount r) amount) (sfHookStateCount r) (sfHookNamespaces r) (acc_flags r).

Definition set_balance (b : Z) (r : AccountRoot) : AccountRoot :=
  mkRoot b (sfOwnerCount r) (sfHookStateCount r) (sfHookNamespaces r) (acc_flags r).

Definition set_state_count (n : Z) (r : AccountRoot) : AccountRoot :=
  mkRoot (sfBalance r) (sfOwnerCount r) n (sfHookNamespaces r) (acc_flags r).

Definition set_namespaces (ns : option (list uint256)) (r : AccountRoot) : AccountRoot :=
  mkRoot (sfBalance r) (sfOwnerCount r) (sfHookStateCount r) ns (acc_flags r).

(** Returns whether the account root was modified. *)
Definition addHookNamespaceEntry (r : AccountRoot) (ns : uint256) : AccountRoot * bool :=
  let vec := default [] (sfHookNamespaces r) in
  if bool_decide (ns ∈ vec) then (r, false) else (set_namespaces (Some (vec ++ [ns])) r, true).

Definition removeHookNamespaceEntry (r : AccountRoot) (ns : uint256) : AccountRoot * bool :=
  match sfHookNamespaces r with
  | None => (r, false)
  | Some vec =>
    if is_nil vec then (set_namespaces None r, true)
    else
      let spaces := merge_sort Z.le (remove_dups (filter (fun u => u <> ns) vec)) in
      if (length spaces =? length vec)%nat then (r, false)
      else if is_nil spaces then (set_namespaces None r, true)
      else (set_namespaces (Some spaces) r, true)
  end.

(** ** [setHookState] *)

(** The pages of a state directory; none if it does not exist. *)
Definition dir_of (l : Ledger) (dk : uint256) : Dir := default ∅ (state_dirs l !! dk).
Definition set_dir (dk : uint256) (d : Dir) (l : Ledger) : Ledger := set_dirs (<[dk := d]> (state_dirs l)) l.
(** [view.peek] of the directory's keylet. *)
Definition dir_exists (d : Dir) : bool := bool_decide (is_Some (d !! rootPage)).

(** ** The state map in order *)

(** A [std::map] is visited in the order of its keys. *)
Definition key_le {A} (x y : Z * A) : Prop := x.1 <= y.1.
#[export] Instance key_le_dec {A} : RelDecision (@key_le A).
Proof. intros x y. unfold key_le. apply _. Defined.

Definition in_order {A} (m : gmap Z A) : list (Z * A) := merge_sort key_le (map_to_list m).

(** The modified entries, in the order of the three nested loops. *)
Definition modified_entries (m : HookStateMap) : list (AccountID * uint256 * uint256 * Blob) :=
  flat_map (fun '(acc, (_, spaces)) =>
    flat_map (fun '(ns, entries) =>
      flat_map (fun '(key, (is_modified, blob)) =>
        if (is_modified : bool) then [(acc, ns, key, blob)] else [])
      (in_order entries)) (in_order spaces)) (in_order (sm_accounts m)).

Section setHookState.
Context `{Keylets}.

Definition delete_state (l : Ledger) (acc : AccountID) (root : AccountRoot) (ns : uint256)
    (sk dk : uint256) : dres (TER * Ledger) :=
  let stateCount := sfHookStateCount root in
  let oldStateReserve := computeHookStateOwnerCount stateCount in
  match states l !! sk with
  | None => Val (tesSUCCESS, l)
  | Some hookState =>
    let d := dir_of l dk in
    if negb (dir_exists d) then Val (tefBAD_LEDGER, l)
    else
      '(ok, d) ← dirRemove d (sfOwnerNode hookState) sk false;
      let l := set_dir dk d l in
      if negb ok then Val (tefBAD_LEDGER, l)
      else
        let nsDestroyed := negb (dir_exists d) in
        let l := set_states (delete sk (states l)) l in
        let stateCount := if 0 <? stateCount then stateCount - 1 else stateCount in
        let root := if computeHookStateOwnerCount stateCount <? oldStateReserve
                    then adjustOwnerCount (-1) root else root in
        let root := set_state_count stateCount root in
        let root := if nsDestroyed then (removeHookNamespaceEntry root ns).1 else root in
        Val (tesSUCCESS, set_account acc root l)
  end.

Definition create_state (l : Ledger) (acc : AccountID) (root : AccountRoot) (ns key : uint256)
    (sk dk : uint256) (data : Blob) : dres (TER * Ledger) :=
  let stateCount := sfHookStateCount root in
  let oldStateReserve := computeHookStateOwnerCount stateCount in
  let stateCount := u32 (stateCount + 1) in
  let grows := oldStateReserve <? computeHookStateOwnerCount stateCount in
  let newReserve := accountReserve (fees l) (u32 (sfOwnerCount root + 1)) in
  if grows && (sfBalance root <? newReserve) then Val (tecINSUFFICIENT_RESERVE, l)
  else
    let root := if grows then adjustOwnerCount 1 root else root in
    let root := set_state_count stateCount root in
    let l := set_account acc root l in
    let d := dir_of l dk in
    let nsExists := dir_exists d in
    '(page, d) ← dirAdd false d sk;
    match page with
    | None => Val (tecDIR_FULL, l)
    | Some page =>
      let l := set_dir dk d l in
      let l := set_states (<[sk := mkState data key page]> (states l)) l in
      let root := if nsExists then root else (addHookNamespaceEntry root ns).1 in
      Val (tesSUCCESS, set_account acc root l)
    end.

Definition setHookState (l : Ledger) (acc : AccountID) (ns key : uint256) (data : Blob)
    : dres (TER * Ledger) :=
  match accounts l !! acc with
  | None => Val (tefINTERNAL, l)
  | Some root =>
    if maxHookStateDataSize <? vsize data then Val (temHOOK_DATA_TOO_LARGE, l)
    else
      let sk := hookState_key acc key ns in
      let dk := hookStateDir_key acc ns in
      if is_nil data then delete_state l acc root ns sk dk
      else match states l !! sk with
           | None => create_state l acc root ns key sk dk data
           | Some hookState =>
             Val (tesSUCCESS, set_states (<[sk := mkState data key (sfOwnerNode hookState)]> (states l)) l)
           end
  end.

(** ** [finalizeHookState] *)

(** [changeCount] counts in 16 bits. *)
Fixpoint write_entries (l : Ledger) (changeCount : Z)
    (entries : list (AccountID * uint256 * uint256 * Blob)) : dres (TER * Ledger) :=
  match entries with
  | [] => Val (tesSUCCESS, l)
  | (acc, ns, key, blob) :: entries =>
    let changeCount := u16 (changeCount + 1) in
    if 0xFFFF <=? changeCount then Val (tecHOOK_REJECTED, l)
    else
      '(result, l) ← setHookState l acc ns key blob;
      if negb (bool_decide (result = tesSUCCESS)) then Val (result, l)
      else write_entries l changeCount entries
  end.

Definition finalizeHookState (m : HookStateMap) (l : Ledger) : dres (TER * Ledger) :=
  write_entries l 0 (modified_entries m).
End setHookState.

(** ** The abstract store *)

Abbreviation store := (gmap (Z * Z * Z) Blob) (only parsing).

(** The entries of an account. *)
Definition owned (a : AccountID) (σ : store) : store := filter (fun x => x.1.1.1 = a) σ.

Definition spaces_of (r : AccountRoot) : list uint256 := default [] (sfHookNamespaces r).

Section refinement.
Context `{Keylets}.

(** [rep l σ]: the ledger [l] holds exactly the store [σ], with its directories,
    counters and namespace lists. *)
Record rep (l : Ledger) (σ : store) : Prop := {
  rep_states a n k : sfHookStateData <$> states l !! hookState_key a k n = σ !! (a, n, k);
  rep_dir_ok a n : dir_ok (dir_of l (hookStateDir_key a n));
  rep_dir a n pg x :
    has (dir_of l (hookStateDir_key a n)) pg x <->
    exists k st, x = hookState_key a k n /\ states l !! x = Some st /\ sfOwnerNode st = pg;
  rep_count a r : accounts l !! a = Some r -> sfHookStateCount r = Z.of_nat (size (owned a σ));
  rep_owner a r : accounts l !! a = Some r -> sfHookStateCount r <= sfOwnerCount r < 2 ^ 32;
  rep_spaces a r n : accounts l !! a = Some r ->
    n ∈ spaces_of r <-> exists k, is_Some (σ !! (a, n, k));
  rep_nodup a r : accounts l !! a = Some r -> NoDup (spaces_of r);
  rep_accounts a n k : is_Some (σ !! (a, n, k)) -> is_Some (accounts l !! a)
}.

Lemma dir_of_set dk d l dk' : dir_of (set_dir dk d l) dk' = if decide (dk = dk') then d else dir_of l dk'.
Proof. unfold dir_of, set_dir. cbn. rewrite lookup_insert. by case_decide. Qed.

Lemma dir_exists_ok d : dir_ok d -> dir_exists d = true <-> exists p k, has d p k.
Proof.
  intros Hd. unfold dir_exists. rewrite bool_decide_eq_true. split.
  - intros [n Hn]. destruct (decide (d = ∅)) as [->|Hne]; [by rewrite lookup_empty in Hn|].
    destruct Hd as [->|[rest Hd]]; [done|].
    assert (exists p l, idx d p = Some l /\ l <> []) as (p & l & E & Hl).
    { destruct (wf_last _ _ Hd) as (l & last & El & _). 
      assert (last ∈ 0 :: rest) as Hin by (rewrite El; apply elem_of_app; right; by left).
      destruct (proj2 (wf_pages _ _ Hd last) Hin) as [lx Ex]. exists last, lx. split; [done|].
      apply (wf_used _ _ Hd last lx Ex). destruct rest as [|x r]; [by right|]. left. intros ->.
      pose proof (wf_order _ _ Hd) as Ho. rewrite El in Ho. destruct l as [|y l]; [done|].
      injection El as <- _. destruct (sorted_not_in (0 :: l) [] 0 Ho) as [Hn0 _]. apply Hn0. by left. }
    destruct l as [|k l]; [done|]. exists p, k, (k :: l). split; [done|by left].
  - intros (p & k & Hh). destruct Hd as [->|[rest Hd]]; [by apply no_keys_empty in Hh|].
    apply (wf_lookup d rest 0 Hd). by left.
Qed.

(** ** Sizes *)

Lemma owned_insert_new a n k v σ :
  σ !! (a, n, k) = None -> size (owned a (<[(a, n, k) := v]> σ)) = S (size (owned a σ)).
Proof.
  intros E. unfold owned. rewrite map_filter_insert_True by done. rewrite map_size_insert_None; [done|].
  apply map_lookup_filter_None. by left.
Qed.

Lemma owned_insert_old a n k v σ :
  is_Some (σ !! (a, n, k)) -> size (owned a (<[(a, n, k) := v]> σ)) = size (owned a σ).
Proof.
  intros [w E]. unfold owned. rewrite map_filter_insert_True by done. rewrite map_size_insert_Some; [done|].
  exists w. apply map_lookup_filter_Some. done.
Qed.

Lemma owned_delete a n k σ :
  is_Some (σ !! (a, n, k)) -> S (size (owned a (delete (a, n, k) σ))) = size (owned a σ).
Proof.
  intros [w E]. unfold owned. rewrite map_filter_delete, map_size_delete_Some.
  - assert (filter (fun x : Z * Z * Z * list Z => x.1.1.1 = a) σ !! (a, n, k) = Some w) as Ew.
    { apply map_lookup_filter_Some. done. }
    pose proof (map_size_ne_0_lookup_2 _ (a, n, k) (mk_is_Some _ _ Ew)). lia.
  - exists w. apply map_lookup_filter_Some. done.
Qed.

Lemma owned_other a a' n k σ (f : option (list Z)) : a <> a' ->
  owned a' (partial_alter (fun _ => f) (a, n, k) σ) = owned a' σ.
Proof.
  intros Hne. unfold owned. apply map_eq. intros x. apply option_eq. intros v.
  rewrite !map_lookup_filter_Some. destruct (decide (x = (a, n, k))) as [->|Hx].
  - cbn. split; intros [_ ?]; done.
  - by rewrite lookup_partial_alter_ne.
Qed.

(** ** Updating a state that exists *)

Lemma rep_update l σ a n k st data :
  rep l σ -> states l !! hookState_key a k n = Some st ->
  rep (set_states (<[hookState_key a k n := mkState data k (sfOwnerNode st)]> (states l)) l)
      (<[(a, n, k) := data]> σ).
Proof.
  intros [Hs Hok Hd Hc Ho Hsp Hnd Ha] Est.
  assert (is_Some (σ !! (a, n, k))) as Hold by (rewrite <- Hs, Est; cbn; eauto).
  split; cbn [states accounts set_states]; try done.
  - intros a' n' k'. rewrite !lookup_insert. destruct (decide (hookState_key a k n = _)) as [E|Hne].
    + apply hookState_inj in E as (-> & -> & ->). by rewrite decide_True.
    + rewrite decide_False by (intros [= -> -> ->]; done). apply Hs.
  - intros a' n' pg x. change (dir_of (set_states _ l)) with (dir_of l). rewrite Hd.
    split; intros (k' & st' & -> & E & Ep); exists k'.
    + rewrite lookup_insert. case_decide as Ek; [rewrite Ek in Est|]; [|by exists st'].
      exists (mkState data k (sfOwnerNode st)). repeat split; try done. cbn. congruence.
    + rewrite lookup_insert in E. case_decide as Ek; [|by exists st']. injection E as <-. exists st. by rewrite <- Ek.
  - intros a' r Er. rewrite (Hc a' r Er). f_equal. destruct (decide (a = a')) as [<-|Hne].
    + symmetry. by apply owned_insert_old.
    + unfold insert, map_insert. by rewrite owned_other.
  - intros a' r n' Er. rewrite (Hsp a' r n' Er). split; intros [k' Hk']; exists k'.
    + rewrite lookup_insert. case_decide; eauto.
    + rewrite lookup_insert in Hk'. case_decide as Ek; [|done]. by injection Ek as <- <- <-.
  - intros a' n' k' Hk'. rewrite lookup_insert in Hk'. case_decide as Ek; [|eauto]. injection Ek as <- <- <-. eauto.
Qed.

(** ** Namespace lists *)

Lemma addHookNamespaceEntry_spec r ns :
  NoDup (spaces_of r) ->
  let r' := (addHookNamespaceEntry r ns).1 in
  NoDup (spaces_of r') /\ (forall n, n ∈ spaces_of r' <-> n = ns \/ n ∈ spaces_of r) /\
  sfHookStateCount r' = sfHookStateCount r /\ sfOwnerCount r' = sfOwnerCount r /\ sfBalance r' = sfBalance r.
Proof.
  intros Hnd. unfold addHookNamespaceEntry. fold (spaces_of r). case_bool_decide as Hin; cbn.
  - split; [done|]. split; [|done]. intros n. split; [auto|]. by intros [->|?].
  - split; [|split; [|done]].
    + apply NoDup_app. split; [done|]. split; [|apply NoDup_singleton].
      intros x Hx ->%list_elem_of_singleton. done.
    + intros n. rewrite elem_of_app, list_elem_of_singleton. tauto.
Qed.

Lemma removeHookNamespaceEntry_spec r ns :
  NoDup (spaces_of r) -> ns ∈ spaces_of r ->
  let r' := (removeHookNamespaceEntry r ns).1 in
  NoDup (spaces_of r') /\ (forall n, n ∈ spaces_of r' <-> n <> ns /\ n ∈ spaces_of r) /\
  sfHookStateCount r' = sfHookStateCount r /\ sfOwnerCount r' = sfOwnerCount r /\ sfBalance r' = sfBalance r.
Proof.
  unfold removeHookNamespaceEntry, spaces_of. intros Hnd Hin.
  destruct (sfHookNamespaces r) as [vec|] eqn:E; cbn in Hnd, Hin; [|by apply not_elem_of_nil in Hin].
  destruct (is_nil vec) eqn:Enil; [destruct vec; [by apply not_elem_of_nil in Hin|done]|].
  set (spaces := merge_sort Z.le _).
  assert (spaces ≡ₚ filter (fun u => u <> ns) vec) as Hp.
  { unfold spaces. rewrite merge_sort_Permutation. apply NoDup_Permutation.
    - apply NoDup_remove_dups.
    - by apply NoDup_filter.
    - intros x. apply elem_of_remove_dups. }
  assert (forall n, n ∈ spaces <-> n <> ns /\ n ∈ vec) as Hel.
  { intros n. rewrite Hp, list_elem_of_filter. done. }
  assert (NoDup spaces) as Hnd' by (rewrite Hp; by apply NoDup_filter).
  assert ((length spaces =? length vec)%nat = false) as ->.
  { apply Nat.eqb_neq. rewrite Hp.
    assert (length (filter (fun u => u <> ns) vec) < length vec)%nat; [|lia].
    by apply (length_filter_lt _ _ ns); [|intros Hn]. }
  destruct (is_nil spaces) eqn:Es; cbn; split; try done.
  - constructor.
  - split; [|done]. intros n. rewrite <- Hel. by destruct spaces.
Qed.

(** ** Creating and deleting a state

    [moved l l' a n r' m' d']: the ledger [l'] differs from [l] in the root of
    account [a], the states and the directory of namespace [n]. *)
Definition moved (l l' : Ledger) (a : AccountID) (n : uint256) (r' : AccountRoot)
    (m' : gmap uint256 StateEntry) (d' : Dir) : Prop :=
  accounts l' = <[a := r']> (accounts l) /\ states l' = m' /\
  forall dk, dir_of l' dk = if decide (hookStateDir_key a n = dk) then d' else dir_of l dk.

Lemma state_key_ne a n k a' n' k' : (a, n, k) <> (a', n', k') -> hookState_key a k n <> hookState_key a' k' n'.
Proof. intros Hne (-> & -> & ->)%hookState_inj. done. Qed.

(** The other parts of [rep], when one key's state changes to [st']. *)
Lemma rep_moved l l' σ a n k r r' st' d' :
  rep l σ -> accounts l !! a = Some r ->
  moved l l' a n r' (partial_alter (fun _ => st') (hookState_key a k n) (states l)) d' ->
  let σ' := partial_alter (fun _ => sfHookStateData <$> st') (a, n, k) σ in
  dir_ok d' ->
  (forall pg x, has d' pg x <-> exists k' st, x = hookState_key a k' n /\ states l' !! x = Some st /\ sfOwnerNode st = pg) ->
  sfHookStateCount r' = Z.of_nat (size (owned a σ')) ->
  sfHookStateCount r' <= sfOwnerCount r' < 2 ^ 32 ->
  (forall n', n' ∈ spaces_of r' <-> exists k', is_Some (σ' !! (a, n', k'))) -> NoDup (spaces_of r') ->
  rep l' σ'.
Proof.
  intros [Hs Hok Hd Hc Ho Hsp Hnd Ha] Er (Eacc & Est & Edir) σ' Hok' Hd' Hc' Ho' Hsp' Hnd'. split.
  - intros a' n' k'. rewrite Est. unfold σ'. destruct (decide ((a, n, k) = (a', n', k'))) as [E|Hne].
    + injection E as <- <- <-. by rewrite !lookup_partial_alter_eq.
    + rewrite !lookup_partial_alter_ne; [apply Hs|done|by apply state_key_ne].
  - intros a' n'. rewrite Edir. by case_decide.
  - intros a' n' pg x. rewrite Edir. case_decide as E.
    + apply hookStateDir_inj in E as [<- <-]. apply Hd'.
    + rewrite Hd, Est. split; intros (k' & st & -> & Ek & Ep); exists k', st; (split; [done|]); split; try done.
      * rewrite lookup_partial_alter_ne; [done|]. apply state_key_ne. congruence.
      * rewrite lookup_partial_alter_ne in Ek; [done|]. apply state_key_ne. congruence.
  - intros a' r0. rewrite Eacc, lookup_insert. case_decide as E; [intros [= <-]; by subst|].
    intros E0. rewrite (Hc a' r0 E0). unfold σ'. by rewrite owned_other.
  - intros a' r0. rewrite Eacc, lookup_insert. case_decide as E; [by intros [= <-]|apply Ho].
  - intros a' r0 n'. rewrite Eacc, lookup_insert. case_decide as E; [intros [= <-]; subst a'; apply Hsp'|].
    intros E0. rewrite (Hsp a' r0 n' E0). unfold σ'.
    split; intros [k' Hk']; exists k'; [rewrite lookup_partial_alter_ne|rewrite lookup_partial_alter_ne in Hk'];
      try done; congruence.
  - intros a' r0. rewrite Eacc, lookup_insert. case_decide as E; [by intros [= <-]|apply Hnd].
  - intros a' n' k' Hk'. rewrite Eacc, lookup_insert. case_decide; [eauto|].
    unfold σ' in Hk'. rewrite lookup_partial_alter_ne in Hk' by congruence. eauto.
Qed.

(** What a write may do to the accounts: balances stay, and only the owner count of
    [a] may grow, by at most [up]. *)
Definition accounts_step (l l' : Ledger) (a : AccountID) (up : Z) : Prop :=
  fees l' = fees l /\
  forall a' r, accounts l !! a' = Some r ->
    exists r', accounts l' !! a' = Some r' /\ sfBalance r' = sfBalance r /\
      sfOwnerCount r' <= sfOwnerCount r + (if a =? a' then up else 0).

Lemma accounts_step_insert l l' a up r r' :
  fees l' = fees l -> accounts l' = <[a := r']> (accounts l) -> accounts l !! a = Some r ->
  sfBalance r' = sfBalance r -> sfOwnerCount r' <= sfOwnerCount r + up -> accounts_step l l' a up.
Proof.
  intros Hf Ha Er Hb Ho. split; [done|]. intros a' r0 E0. rewrite Ha, lookup_insert.
  destruct (Z.eqb_spec a a') as [<-|Hne].
  - rewrite decide_True by done. exists r'. rewrite Er in E0. injection E0 as <-. done.
  - rewrite decide_False by done. exists r0. split; [done|]. split; [done|]. lia.
Qed.

Lemma accounts_step_refl l l' a up :
  fees l' = fees l -> accounts l' = accounts l -> 0 <= up -> accounts_step l l' a up.
Proof.
  intros Hf Ha Hup. split; [done|]. intros a' r E. rewrite Ha. exists r. split; [done|]. split; [done|].
  destruct (a =? a'); lia.
Qed.

Lemma confine_up n : 0 <= n -> n + 1 < 2 ^ 32 -> confineOwnerCount n 1 = n + 1.
Proof.
  intros H0 Hn. unfold confineOwnerCount. cbn [Z.ltb Z.compare]. rewrite u32_small by lia.
  by rewrite (proj2 (Z.ltb_ge _ _)) by lia.
Qed.

Lemma confine_down n : 0 < n < 2 ^ 32 -> confineOwnerCount n (-1) = n - 1.
Proof.
  intros Hn. unfold confineOwnerCount. cbn [Z.ltb Z.compare]. rewrite u32_small by lia.
  by rewrite (proj2 (Z.ltb_ge _ _)) by lia.
Qed.

Lemma create_state_spec l σ a r n k data :
  rep l σ -> accounts l !! a = Some r -> sfOwnerCount r + 1 < 2 ^ 32 ->
  states l !! hookState_key a k n = None ->
  exists ter l', create_state l a r n k (hookState_key a k n) (hookStateDir_key a n) data = Val (ter, l') /\
    match ter with
    | tesSUCCESS => rep l' (<[(a, n, k) := data]> σ) /\ accounts_step l l' a 1
    | tecINSUFFICIENT_RESERVE => l' = l /\ sfBalance r < accountReserve (fees l) (sfOwnerCount r + 1)
    | tecDIR_FULL => True
    | _ => False
    end.
Proof.
  intros Hrep Er Hown Est. pose proof Hrep as [Hs Hok Hd Hc Ho Hsp Hnd Ha].
  set (sk := hookState_key a k n) in *. set (dk := hookStateDir_key a n).
  pose proof (Hc a r Er) as Ec. pose proof (Ho a r Er) as Eo.
  assert (σ !! (a, n, k) = None) as Eσ by (rewrite <- Hs; fold sk; by rewrite Est).
  unfold create_state, computeHookStateOwnerCount. rewrite !u32_small by lia.
  rewrite (proj2 (Z.ltb_lt _ _)) by lia. cbn [andb].
  destruct (Z.ltb_spec (sfBalance r) (accountReserve (fees l) (sfOwnerCount r + 1))) as [Hbal|Hbal].
  { do 2 eexists. split; [done|]. done. }
  set (r1 := set_state_count _ (adjustOwnerCount 1 r)).
  change (dir_of (set_account a r1 l) dk) with (dir_of l dk).
  destruct (dirAdd_spec false (dir_of l dk) sk) as (pg & d' & -> & Hadd).
  { apply Hok. }
  { intros p (k' & st & E & Est' & _)%Hd. congruence. }
  cbn [mbind res_bind]. destruct pg as [pg|]; [|by do 2 eexists]. destruct Hadd as [Hok' Hadd].
  do 2 eexists. split; [done|]. cbv beta iota zeta.
  set (r2 := if dir_exists _ then r1 else _).
  assert (sfHookStateCount r1 = sfHookStateCount r + 1 /\ sfOwnerCount r1 = sfOwnerCount r + 1 /\
          spaces_of r1 = spaces_of r) as (C1 & O1 & S1).
  { split; [done|]. split; [|done]. cbn. apply confine_up; lia. }
  assert (sfHookStateCount r2 = sfHookStateCount r1 /\ sfOwnerCount r2 = sfOwnerCount r1 /\ NoDup (spaces_of r2) /\
    (forall n', n' ∈ spaces_of r2 <-> n' = n \/ n' ∈ spaces_of r) /\ sfBalance r2 = sfBalance r)
    as (C2 & O2 & N2 & S2 & B2).
  { unfold r2. destruct (dir_exists (dir_of l dk)) eqn:Ed.
    - repeat split; try done; [rewrite S1; eauto|rewrite S1; auto|]. rewrite S1. intros [->|?]; [|done].
      apply dir_exists_ok in Ed as (p & x & (k' & st & -> & E' & _)%Hd); [|apply Hok].
      apply (Hsp a r n Er). exists k'. rewrite <- Hs, E'. cbn. eauto.
    - destruct (addHookNamespaceEntry_spec r1 n) as (H1 & H2 & H3 & H4 & H5); [rewrite S1; eauto|].
      rewrite <- S1. auto. }
  split; [|apply (accounts_step_insert _ _ a 1 r r2); [done|cbn; apply insert_insert_eq|done..|lia]].
  change (<[(a, n, k) := data]> σ) with (partial_alter (fun _ => sfHookStateData <$> Some (mkState data k pg)) (a, n, k) σ).
  eapply (rep_moved l _ σ a n k r r2 _ d'); try done.
  - split; [cbn; apply insert_insert_eq|]. split; [done|]. intros dk'.
    change (dir_of (set_account a r2 (set_states ?m (set_dir dk d' (set_account a r1 l)))) dk')
      with (dir_of (set_dir dk d' l) dk').
    apply dir_of_set.
  - intros pg' x. cbn [states set_account set_states]. rewrite (Hadd pg' x). unfold dk. rewrite Hd. split.
    + intros [(k' & st & -> & E' & Ep)|[-> ->]].
      * exists k', st. split; [done|]. split; [|done]. rewrite lookup_insert_ne; [done|]. congruence.
      * exists k, (mkState data k pg). by rewrite lookup_insert_eq.
    + intros (k' & st & -> & E' & Ep). destruct (decide (sk = hookState_key a k' n)) as [E|Hne].
      * right. rewrite <- E, lookup_insert_eq in E'. injection E' as <-. done.
      * left. rewrite lookup_insert_ne in E' by done. by exists k', st.
  - rewrite C2, C1, Ec. pose proof (owned_insert_new a n k data σ Eσ) as Esz.
    unfold insert, map_insert in Esz. cbn. lia.
  - lia.
  - intros n'. rewrite S2, (Hsp a r n' Er). split.
    + intros [->|[k' Hk']]; [exists k; rewrite lookup_partial_alter_eq; cbn; eauto|]. exists k'.
      destruct (decide ((a, n, k) = (a, n', k'))) as [<-|Hne]; [rewrite lookup_partial_alter_eq; cbn; eauto|].
      by rewrite lookup_partial_alter_ne.
    + intros [k' Hk']. destruct (decide ((a, n, k) = (a, n', k'))) as [[= -> ->]|Hne]; [by left|].
      right. exists k'. by rewrite lookup_partial_alter_ne in Hk'.
Qed.

Lemma delete_state_spec l σ a r n k :
  rep l σ -> accounts l !! a = Some r ->
  exists l', delete_state l a r n (hookState_key a k n) (hookStateDir_key a n) = Val (tesSUCCESS, l') /\
    rep l' (delete (a, n, k) σ) /\ accounts_step l l' a 0.
Proof.
  intros Hrep Er. pose proof Hrep as [Hs Hok Hd Hc Ho Hsp Hnd Ha].
  set (sk := hookState_key a k n) in *. set (dk := hookStateDir_key a n) in *.
  pose proof (Hc a r Er) as Ec. pose proof (Ho a r Er) as Eo. unfold delete_state, computeHookStateOwnerCount.
  destruct (states l !! sk) as [st|] eqn:Est.
  2: { exists l. split; [done|]. split; [|by apply accounts_step_refl].
       rewrite delete_id; [done|]. rewrite <- Hs. fold sk. by rewrite Est. }
  assert (σ !! (a, n, k) = Some (sfHookStateData st)) as Eσ by (rewrite <- Hs; fold sk; by rewrite Est).
  pose proof (owned_delete a n k σ (mk_is_Some _ _ Eσ)) as Esz.
  assert (has (dir_of l dk) (sfOwnerNode st) sk) as Hh by (apply Hd; by exists k, st).
  rewrite (proj2 (dir_exists_ok (dir_of l dk) (Hok a n)) (ex_intro _ _ (ex_intro _ _ Hh))). cbn [negb].
  destruct (dirRemove_spec (dir_of l dk) (sfOwnerNode st) sk (Hok a n) Hh) as (d' & -> & Hok' & Hrem).
  cbn [mbind res_bind negb]. rewrite (proj2 (Z.ltb_lt 0 _)), (proj2 (Z.ltb_lt (_ - 1) _)) by lia.
  set (r1 := set_state_count _ (adjustOwnerCount (-1) r)).
  assert (sfHookStateCount r1 = sfHookStateCount r - 1 /\ sfOwnerCount r1 = sfOwnerCount r - 1 /\
          spaces_of r1 = spaces_of r) as (C1 & O1 & S1).
  { split; [done|]. split; [|done]. cbn. apply confine_down; lia. }
  eexists. split; [done|]. set (r2 := if negb (dir_exists d') then _ else r1).
  set (σ' := delete (a, n, k) σ).
  assert (forall n' k', is_Some (σ' !! (a, n', k')) <-> is_Some (σ !! (a, n', k')) /\ ~ (n' = n /\ k' = k)) as Hσ'.
  { intros n' k'. unfold σ'. rewrite lookup_delete. case_decide as E.
    - injection E as -> ->. split; [by intros [? [=]]|tauto].
    - split; [|tauto]. intros ?. split; [done|]. intros [-> ->]. done. }
  assert (forall k', (exists pg, has d' pg (hookState_key a k' n)) <-> is_Some (σ' !! (a, n, k'))) as Hhas.
  { intros k'. rewrite Hσ', <- Hs. split.
    - intros [pg [(k0 & st' & E & E' & _)%Hd Hne]%Hrem]. rewrite E'. cbn. split; [eauto|].
      intros [_ ->]. done.
    - intros [Hk' Hne]. apply fmap_is_Some in Hk' as [st' E']. exists (sfOwnerNode st'). apply Hrem. split.
      + apply Hd. by exists k', st'.
      + intros (_ & -> & _)%hookState_inj. tauto. }
  assert (n ∈ spaces_of r) as Hn by (apply (Hsp a r n Er); exists k; eauto).
  assert ((forall n', n' ∈ spaces_of r2 <-> exists k', is_Some (σ' !! (a, n', k'))) /\
    sfHookStateCount r2 = sfHookStateCount r1 /\ sfOwnerCount r2 = sfOwnerCount r1 /\ NoDup (spaces_of r2) /\
    sfBalance r2 = sfBalance r) as (S2 & C2 & O2 & N2 & B2).
  { unfold r2. destruct (dir_exists d') eqn:Ed; cbn [negb].
    - split; [|rewrite S1; eauto 6]. intros n'. rewrite S1, (Hsp a r n' Er).
      apply dir_exists_ok in Ed as (p & x & Hx); [|done].
      assert (exists k1, is_Some (σ' !! (a, n, k1))) as Hk1.
      { pose proof Hx as [(k1 & st1 & -> & _ & _)%Hd _]%Hrem. exists k1. apply Hhas. eauto. }
      destruct (decide (n' = n)) as [->|Hne]; [split; [auto|intros _; eauto]|].
      split; intros [k' Hk']; exists k'; [apply Hσ'; split; [done|tauto]|by apply Hσ' in Hk' as [? _]].
    - destruct (removeHookNamespaceEntry_spec r1 n) as (H1 & H2 & H3 & H4 & H5); [rewrite S1; eauto..|].
      split; [|done]. intros n'. rewrite H2, S1, (Hsp a r n' Er). split.
      + intros [Hne [k' Hk']]. exists k'. apply Hσ'. tauto.
      + intros [k' Hk']. split; [|exists k'; by apply Hσ' in Hk' as [? _]]. intros ->.
        apply Hhas in Hk' as [pg Hpg]. assert (dir_exists d' = true) as Ht by (apply dir_exists_ok; eauto). congruence. }
  split; [|by apply (accounts_step_insert _ _ a 0 r r2); try done; lia].
  eapply (rep_moved l _ σ a n k r r2 None d'); try done.
  - split; [done|]. split; [done|]. intros dk'.
    change (dir_of (set_account a r2 (set_states ?m (set_dir dk d' l))) dk') with (dir_of (set_dir dk d' l) dk').
    apply dir_of_set.
  - intros pg' x. cbn [states set_account set_states set_dir set_dirs]. rewrite (Hrem pg' x). unfold dk. rewrite Hd. split.
    + intros [(k' & st' & -> & E' & Ep) Hne]. exists k', st'. split; [done|]. by rewrite lookup_delete_ne by done.
    + intros (k' & st' & -> & E' & Ep). apply lookup_delete_Some in E' as [Hne E']. split; [|done]. by exists k', st'.
  - change (partial_alter _ _ _) with σ'. fold σ' in Esz. lia.
  - lia.
Qed.

(** A ledger without hook states represents the empty store. *)
Lemma rep_empty l :
  states l = ∅ -> state_dirs l = ∅ ->
  (forall a r, accounts l !! a = Some r ->
     sfHookStateCount r = 0 /\ spaces_of r = [] /\ 0 <= sfOwnerCount r < 2 ^ 32) ->
  rep l ∅.
Proof.
  intros Hs Hd Ha.
  assert (forall dk, dir_of l dk = ∅) as Edir by (intros dk; unfold dir_of; by rewrite Hd, lookup_empty).
  split.
  - intros a n k. by rewrite Hs, !lookup_empty.
  - intros a n. rewrite Edir. by left.
  - intros a n pg x. rewrite Edir. split.
    + by intros Hh%no_keys_empty.
    + intros (k & st & _ & E & _). by rewrite Hs, lookup_empty in E.
  - intros a r Er. by destruct (Ha a r Er) as [-> _].
  - intros a r Er. destruct (Ha a r Er) as (-> & _ & ?). lia.
  - intros a r n Er. destruct (Ha a r Er) as (_ & -> & _). split; [by intros ?%not_elem_of_nil|].
    intros [k [v E]]. by rewrite lookup_empty in E.
  - intros a r Er. destruct (Ha a r Er) as (_ & -> & _). constructor.
  - intros a n k [v E]. by rewrite lookup_empty in E.
Qed.

(** The store after a write: empty data deletes. *)
Definition write (e : Z * Z * Z) (data : Blob) (σ : store) : store :=
  if is_nil data then delete e σ else <[e := data]> σ.

(** Whether a write adds an entry. *)
Definition adds (e : Z * Z * Z) (data : Blob) (σ : store) : bool :=
  negb (is_nil data) && bool_decide (σ !! e = None).

(** A write of allowed size, with what it does to the accounts. *)
Lemma setHookState_spec l σ a r n k data :
  rep l σ -> accounts l !! a = Some r -> sfOwnerCount r + 1 < 2 ^ 32 -> vsize data <= maxHookStateDataSize ->
  exists ter l', setHookState l a n k data = Val (ter, l') /\
    match ter with
    | tesSUCCESS => rep l' (write (a, n, k) data σ) /\
        accounts_step l l' a (if adds (a, n, k) data σ then 1 else 0)
    | tecINSUFFICIENT_RESERVE => l' = l /\ adds (a, n, k) data σ = true /\
        sfBalance r < accountReserve (fees l) (sfOwnerCount r + 1)
    | tecDIR_FULL => adds (a, n, k) data σ = true
    | _ => False
    end.
Proof.
  intros Hrep Er Hown Hsize. unfold setHookState, write, adds. rewrite Er, (proj2 (Z.ltb_ge _ _)) by done.
  destruct (is_nil data); cbn [negb andb].
  - destruct (delete_state_spec l σ a r n k Hrep Er) as (l' & -> & Hl'). by do 2 eexists.
  - rewrite <- (rep_states _ _ Hrep). destruct (states l !! hookState_key a k n) as [st|] eqn:Est; cbn.
    + do 2 eexists. split; [done|]. split; [by apply rep_update|by apply accounts_step_refl].
    + destruct (create_state_spec l σ a r n k data Hrep Er Hown Est) as (ter & l' & -> & Hl').
      do 2 eexists. split; [done|]. destruct ter; tauto.
Qed.

(** C14: on a ledger that represents a store, [setHookState] for an existing
    account raises no [LogicError] and never finds the ledger corrupt.  It either
    succeeds and the ledger represents the store with the entry set (or deleted, if
    the data is empty), counters, directory and namespace list included; or it
    fails for too much data, for a reserve the balance does not cover, or for a
    full directory. *)
Theorem setHookState_refines l σ a r n k data :
  rep l σ -> accounts l !! a = Some r -> sfOwnerCount r + 1 < 2 ^ 32 ->
  exists ter l', setHookState l a n k data = Val (ter, l') /\
    match ter with
    | tesSUCCESS => rep l' (write (a, n, k) data σ)
    | temHOOK_DATA_TOO_LARGE => l' = l /\ maxHookStateDataSize < vsize data
    | tecINSUFFICIENT_RESERVE =>
        l' = l /\ adds (a, n, k) data σ = true /\ sfBalance r < accountReserve (fees l) (sfOwnerCount r + 1)
    | tecDIR_FULL => adds (a, n, k) data σ = true
    | _ => False
    end.
Proof.
  intros Hrep Er Hown. destruct (Z.ltb_spec maxHookStateDataSize (vsize data)) as [Hbig|Hsize].
  { unfold setHookState. rewrite Er, (proj2 (Z.ltb_lt _ _)) by done. by do 2 eexists. }
  destruct (setHookState_spec l σ a r n k data Hrep Er Hown Hsize) as (ter & l' & -> & Hl').
  do 2 eexists. split; [done|]. destruct ter; tauto.
Qed.
End refinement.

(** ** A concrete instance *)

Definition sample_keylets : Keylets.
Proof.
  refine {| hookState_key a k n := Z.pos (encode (a, k, n)); hookStateDir_key a n := Z.pos (encode (a, n)) |}.
  - intros a k n a' k' n' E. injection E as E. apply (inj encode) in E. by injection E.
  - intros a n a' n' E. injection E as E. apply (inj encode) in E. by injection E.
Defined.

(** One account that can pay for one state. *)
Definition sample_ledger : Ledger :=
  mkLedger {[ 7 := mkRoot 250 0 0 None 0 ]} ∅ ∅ ∅ ∅ ∅ (mkFees 200 50).

Lemma sample_ledger_rep : @rep sample_keylets sample_ledger ∅.
Proof.
  apply rep_empty; [done..|]. intros a r E. unfold sample_ledger in E. cbn [accounts] in E.
  apply lookup_singleton_Some in E as [<- <-]. done.
Qed.

Lemma setHookState_refines_witness :
  exists l', @setHookState sample_keylets sample_ledger 7 1 2 [42] = Val (tesSUCCESS, l') /\
    @rep sample_keylets l' {[ (7, 1, 2) := [42] ]}.
Proof.
  destruct (@setHookState_refines sample_keylets sample_ledger ∅ 7 (mkRoot 250 0 0 None 0) 1 2 [42]
    sample_ledger_rep eq_refl eq_refl) as (ter & l' & E & Hl').
  assert (ter = tesSUCCESS) as -> by (vm_compute in E; congruence).
  exists l'. split; [exact E|exact Hl'].
Defined.
