(* ===== verification/StateCache.v ===== *)
(** * StateCache: hook state during execution ([app/hook/impl/applyHook.cpp])

    Reads and writes of a hook go through a cache shared by all hooks of the
    transaction ([HookStateMap]); the ledger is only written at the end, by
    [finalizeHookState].  Here are [make_state_key], [lookup_state_cache],
    [set_state_cache] and the API functions [state_set], [state_foreign_set],
    [state] and [state_foreign]; the ledger is only read, so it is a parameter.

    The theorems: a write touches one entry; another account's state is written
    only with a grant or where it was already written in the same transaction; a
    hook reads back what it wrote; and the reserve accounting of the cache makes
    the final write succeed. *)

From stdpp Require Import base numbers list option gmap.
From Stdlib Require Import ZArith Lia.
From S2P Require Import Prelude Enum Runtime Directory Context StateLedger.

Local Open Scope Z_scope.

(** ** Keys and the cache *)

(** Left padding with zeros to 32 bytes. *)
Definition make_state_key (source : list Z) : option uint256 :=
  let source_len := vsize source in
  if (32 <? source_len) || (source_len <? 1) then None
  else Some (of_bytes (replicate (Z.to_nat (32 - source_len)) 0 ++ source)).

Definition lookup_state_cache (m : HookStateMap) (acc : AccountID) (ns key : uint256) : option cache_entry :=
  match sm_accounts m !! acc with
  | None => None
  | Some (_, stateMapAcc) =>
    match stateMapAcc !! ns with
    | None => None
    | Some stateMapNs => stateMapNs !! key
    end
  end.

Section cache.
Context `{Keylets} (view : Ledger).

(** How many more owned objects the account's balance allows. *)
Definition available_reserves (root : AccountRoot) : Z :=
  let availableForReserves := sfBalance root - accountReserve (fees view) (sfOwnerCount root) in
  let increment := fee_increment (fees view) in
  Z.quot availableForReserves (if increment <=? 0 then 1 else increment).

(** Returns 1, or a negative code and the context unchanged. *)
Definition set_state_cache (c : HookResult) (acc : AccountID) (ns key : uint256) (data : Blob)
    (modified : bool) : HookResult * Z :=
  let m := stateMap c in
  let bump (m : HookStateMap) (b : bool) : Z :=
    if b then u32 (modified_entry_count m + 1) else modified_entry_count m in
  let store spaces remaining count changed :=
    (set_state (mkStateMap (<[acc := (remaining, spaces)]> (sm_accounts m)) count) changed
       (foreignStateSetDisabled c) c, 1) in
  if modified && (max_state_modifications <? modified_entry_count m) then (c, rc TOO_MANY_STATE_MODIFICATIONS)
  else match sm_accounts m !! acc with
  | None =>
    match accounts view !! acc with
    | None => (c, rc DOESNT_EXIST)
    | Some accSLE =>
      let availableForReserves := available_reserves accSLE in
      if (availableForReserves <? 1) && modified then (c, rc RESERVE_INSUFFICIENT)
      else store {[ns := {[key := (modified, data)]}]} (availableForReserves - 1) (bump m true)
             (changedStateCount c)
    end
  | Some (availableForReserves, stateMapAcc) =>
    let canReserveNew := 0 <? availableForReserves in
    let remaining := if modified then availableForReserves - 1 else availableForReserves in
    match stateMapAcc !! ns with
    | None =>
      if modified && negb canReserveNew then (c, rc RESERVE_INSUFFICIENT)
      else store (<[ns := {[key := (modified, data)]}]> stateMapAcc) remaining (bump m modified)
             (changedStateCount c)
    | Some stateMapNs =>
      match stateMapNs !! key with
      | None =>
        if modified && negb canReserveNew then (c, rc RESERVE_INSUFFICIENT)
        else store (<[ns := <[key := (modified, data)]> stateMapNs]> stateMapAcc) remaining (bump m modified)
               (u16 (changedStateCount c + 1))
      | Some (was_modified, _) =>
        store (<[ns := <[key := (modified || was_modified, data)]> stateMapNs]> stateMapAcc)
          availableForReserves (bump m modified)
          (if modified && negb was_modified then u16 (changedStateCount c + 1) else changedStateCount c)
      end
    end
  end.

(** A successful write returns [n], a failed one its code. *)
Definition cache_write (acc : AccountID) (ns key : uint256) (data : Blob) (n : Z) : api HookContext Z := fun c =>
  let '(r, ret) := set_state_cache (result c) acc ns key data true in
  if ret <? 0 then Ret (set_result r c) ret else Ret (set_result r c) n.

(** ** Grants *)

(** A grant lets the hook with hash [hash] on account [acct] write. *)
Definition grant_allows (hash : uint256) (acct : AccountID) (g : HookGrant) : bool :=
  (grant_hash g =? hash) && match sfAuthorize g with None => true | Some a => a =? acct end.

(** The hook's own namespace, or its definition's. *)
Definition namespace_matches (ns : uint256) (h : HookObj) (hash : uint256) : bool :=
  match sfHookNamespace h with
  | Some n => n =? ns
  | None => match definitions view !! hash with None => false | Some d => def_namespace d =? ns end
  end.

Definition hook_allows (ns hash : uint256) (acct : AccountID) (h : HookObj) : bool :=
  match sfHookHash h, sfHookGrants h with
  | Some hh, Some grants =>
    if is_nil grants then false
    else namespace_matches ns h hh && existsb (grant_allows hash acct) grants
  | _, _ => false
  end.

(** ** The API *)

Definition read_namespace (nread_ptr nread_len : Z) : api HookContext uint256 :=
  if nread_len =? 0 then r ← get_result; mret (hookNamespace r)
  else bs ← mem_bytes nread_ptr 32; mret (of_bytes bs).

Definition read_key (kread_ptr kread_len : Z) : api HookContext (option uint256) :=
  bs ← mem_bytes kread_ptr kread_len; mret (make_state_key bs).

Definition state_foreign_set (read_ptr read_len kread_ptr kread_len nread_ptr nread_len
    aread_ptr aread_len : Z) : api HookContext Z :=
  _ ← (if (read_ptr =? 0) && (read_len =? 0) then mret tt else check_bounds read_ptr read_len);
  _ ← return_if (32 <? kread_len) TOO_BIG;
  _ ← return_if (kread_len <? 1) TOO_SMALL;
  _ ← return_if (negb (nread_len =? 0) && negb (nread_len =? 32)) INVALID_ARGUMENT;
  _ ← return_if (negb (aread_len =? 0) && negb (aread_len =? 20)) INVALID_ARGUMENT;
  _ ← check_bounds kread_ptr kread_len;
  _ ← return_if ((nread_ptr =? 0) && (nread_len =? 0) && negb ((aread_ptr =? 0) && (aread_len =? 0)))
        INVALID_ARGUMENT;
  ml ← memory_length;
  _ ← return_if ((negb (nread_len =? 0) && NOT_IN_BOUNDS nread_ptr nread_len ml) ||
                 (negb (kread_len =? 0) && NOT_IN_BOUNDS kread_ptr kread_len ml) ||
                 (negb (aread_len =? 0) && NOT_IN_BOUNDS aread_ptr aread_len ml)) OUT_OF_BOUNDS;
  _ ← return_if (maxHookStateDataSize <? read_len) TOO_BIG;
  ns ← read_namespace nread_ptr nread_len;
  r ← get_result;
  acc ← (if aread_len =? 20 then bs ← mem_bytes aread_ptr 20; mret (of_bytes bs) else mret (account r));
  okey ← read_key kread_ptr kread_len;
  data ← mem_bytes read_ptr read_len;
  match okey with
  | None => stuck
  | Some key =>
    if (aread_len =? 0) || (acc =? account r) then cache_write acc ns key data read_len
    else
      _ ← return_if (foreignStateSetDisabled r) PREVIOUS_FAILURE_PREVENTS_RETRY;
      if match lookup_state_cache (stateMap r) acc ns key with Some (was_modified, _) => was_modified | None => false end
      then cache_write acc ns key data read_len
      else match hooks view !! acc with
      | None => return_code INTERNAL_ERROR
      | Some hs =>
        if existsb (hook_allows ns (hookHash r) (account r)) (sfHooks hs) then cache_write acc ns key data read_len
        else _ ← modify_result (fun r => set_state (stateMap r) (changedStateCount r) true r);
             return_code NOT_AUTHORIZED
      end
  end.

Definition state_set (read_ptr read_len kread_ptr kread_len : Z) : api HookContext Z :=
  state_foreign_set read_ptr read_len kread_ptr kread_len 0 0 0 0.

(** Hands a value to the hook: as the result if there is no buffer. *)
Definition give (write_ptr write_len : Z) (b : Blob) : api HookContext Z :=
  if write_ptr =? 0 then return_code (data_as_int64 b)
  else
    _ ← return_if (write_len <? vsize b) TOO_SMALL;
    WRITE_WASM_MEMORY_AND_RETURN write_ptr write_len b.

Definition state_foreign (write_ptr write_len kread_ptr kread_len nread_ptr nread_len
    aread_ptr aread_len : Z) : api HookContext Z :=
  let is_foreign := negb (aread_ptr =? 0) in
  _ ← return_if (negb is_foreign && negb (aread_len =? 0)) INVALID_ARGUMENT;
  _ ← return_if (is_foreign && negb (aread_len =? 20)) INVALID_ARGUMENT;
  _ ← return_if (32 <? kread_len) TOO_BIG;
  _ ← return_if (kread_len <? 1) TOO_SMALL;
  _ ← return_if ((write_len <? 1) && negb (write_ptr =? 0)) TOO_SMALL;
  _ ← return_if (negb (negb is_foreign && (nread_len =? 0)) && negb (nread_len =? 32)) INVALID_ARGUMENT;
  _ ← check_bounds kread_ptr kread_len;
  _ ← check_bounds nread_ptr nread_len;
  _ ← check_bounds aread_ptr aread_len;
  _ ← check_bounds write_ptr write_len;
  ns ← read_namespace nread_ptr nread_len;
  r ← get_result;
  acc ← (if is_foreign then bs ← mem_bytes aread_ptr 20; mret (of_bytes bs) else mret (account r));
  okey ← read_key kread_ptr kread_len;
  match okey with
  | None => return_code INVALID_ARGUMENT
  | Some key =>
    match lookup_state_cache (stateMap r) acc ns key with
    | Some (_, b) => give write_ptr write_len b
    | None =>
      match states view !! hookState_key acc key ns with
      | None => return_code DOESNT_EXIST
      | Some hsSLE =>
        let b := sfHookStateData hsSLE in
        let '(r', ret) := set_state_cache r acc ns key b false in
        _ ← modify_result (fun _ => r');
        _ ← return_if (ret <? 0) INTERNAL_ERROR;
        give write_ptr write_len b
      end
    end
  end.

Definition state (write_ptr write_len kread_ptr kread_len : Z) : api HookContext Z :=
  state_foreign write_ptr write_len kread_ptr kread_len 0 0 0 0.

(** ** One write, one entry *)

Definition same_entry (a n k a' n' k' : Z) : bool := (a =? a') && (n =? n') && (k =? k').

Lemma same_entry_spec a n k a' n' k' : reflect ((a, n, k) = (a', n', k')) (same_entry a n k a' n' k').
Proof.
  unfold same_entry. destruct (Z.eqb_spec a a'), (Z.eqb_spec n n'), (Z.eqb_spec k k'); constructor; congruence.
Qed.

(** The flag an entry had. *)
Definition was_modified (m : HookStateMap) (acc : AccountID) (ns key : uint256) : bool :=
  match lookup_state_cache m acc ns key with Some (b, _) => b | None => false end.

Definition lookup_spaces (spaces : gmap uint256 (gmap uint256 cache_entry)) (n k : uint256) : option cache_entry :=
  match spaces !! n with None => None | Some m => m !! k end.

Lemma lookup_spaces_insert spaces ns key (m : gmap uint256 cache_entry) e n k :
  default ∅ (spaces !! ns) = m ->
  lookup_spaces (<[ns := <[key := e]> m]> spaces) n k =
    if (ns =? n) && (key =? k) then Some e else lookup_spaces spaces n k.
Proof.
  intros <-. unfold lookup_spaces. rewrite lookup_insert. destruct (Z.eqb_spec ns n) as [<-|Hne]; cbn [andb].
  - rewrite decide_True, lookup_insert by done. destruct (Z.eqb_spec key k) as [<-|Hk]; [by rewrite decide_True|].
    rewrite decide_False by done. destruct (spaces !! ns); [done|]. apply lookup_empty.
  - by rewrite decide_False.
Qed.

Lemma lookup_after_store accs acc remaining spaces count count0 a n k :
  lookup_state_cache (mkStateMap (<[acc := (remaining, spaces)]> accs) count) a n k =
  if acc =? a then lookup_spaces spaces n k else lookup_state_cache (mkStateMap accs count0) a n k.
Proof.
  unfold lookup_state_cache, lookup_spaces. cbn [sm_accounts]. rewrite lookup_insert.
  destruct (Z.eqb_spec acc a) as [<-|Hne]; [by rewrite decide_True|by rewrite decide_False].
Qed.

(** The state map after a successful call. *)
Lemma set_state_cache_shape c acc ns key data modified c' ret :
  set_state_cache c acc ns key data modified = (c', ret) ->
  (ret < 0 /\ c' = c) \/
  (ret = 1 /\ exists spaces remaining count changed,
    c' = set_state (mkStateMap (<[acc := (remaining, spaces)]> (sm_accounts (stateMap c))) count) changed
           (foreignStateSetDisabled c) c /\
    spaces = let old := default ∅ (snd <$> sm_accounts (stateMap c) !! acc) in
             <[ns := <[key := (modified || was_modified (stateMap c) acc ns key, data)]> (default ∅ (old !! ns))]> old).
Proof.
  unfold set_state_cache, was_modified, lookup_state_cache. intros E.
  destruct (modified && (_ <? _)); [injection E as <- <-; by left|].
  destruct (sm_accounts (stateMap c) !! acc) as [[av spaces]|]; [destruct (spaces !! ns) as [m|] eqn:En|].
  - destruct (m !! key) as [[was b]|] eqn:Ek.
    + injection E as <- <-. right. split; [done|]. do 4 eexists. split; [done|]. cbn. by rewrite En.
    + destruct (modified && negb _); [injection E as <- <-; by left|]. injection E as <- <-. right.
      split; [done|]. do 4 eexists. split; [done|]. cbn. by rewrite En, orb_false_r.
  - destruct (modified && negb _); [injection E as <- <-; by left|]. injection E as <- <-. right.
    split; [done|]. do 4 eexists. split; [done|]. cbn. by rewrite En, orb_false_r.
  - destruct (accounts view !! acc) as [root|]; [|injection E as <- <-; by left].
    destruct (_ && _); [injection E as <- <-; by left|]. injection E as <- <-. right.
    split; [done|]. do 4 eexists. split; [done|]. cbn. by rewrite orb_false_r.
Qed.

Lemma set_state_cache_spec c acc ns key data modified c' ret :
  set_state_cache c acc ns key data modified = (c', ret) ->
  (ret < 0 /\ c' = c) \/
  (ret = 1 /\ (exists m n, c' = set_state m n (foreignStateSetDisabled c) c) /\
   forall a n k, lookup_state_cache (stateMap c') a n k =
     if same_entry acc ns key a n k then Some (modified || was_modified (stateMap c) acc ns key, data)
     else lookup_state_cache (stateMap c) a n k).
Proof.
  intros [?|(-> & spaces & remaining & count & changed & -> & Es)]%set_state_cache_shape; [by left|]. right.
  split; [done|]. split; [eauto|]. intros a n k. cbn [stateMap set_state].
  rewrite (lookup_after_store _ _ _ _ _ (modified_entry_count (stateMap c))). unfold same_entry.
  destruct (Z.eqb_spec acc a) as [<-|Hne]; cbn [andb]; [|by destruct (stateMap c)].
  rewrite Es. cbv zeta. rewrite lookup_spaces_insert by done.
  destruct ((ns =? n) && (key =? k)); [done|].
  unfold lookup_spaces, lookup_state_cache. by destruct (sm_accounts (stateMap c) !! acc) as [[]|].
Qed.

(** ** Authorization *)

Lemma quiet_get_result : quiet get_result.
Proof. done. Qed.

Lemma quiet_read_namespace p n : quiet (read_namespace p n).
Proof. unfold read_namespace. auto using quiet_get_result with quiet. Qed.

Lemma quiet_read_key p n : quiet (read_key p n).
Proof. unfold read_key. auto with quiet. Qed.

Hint Resolve quiet_get_result quiet_read_namespace quiet_read_key : quiet.

(** The owner of [acc] lets the hook [hash] on account [acct] write in namespace [ns]:
    one of its hooks works in that namespace, as its own or as its definition's, and
    has a grant that names [hash] and no other account. *)
Definition granted (acc : AccountID) (ns hash : uint256) (acct : AccountID) : Prop :=
  exists hs h hh g, hooks view !! acc = Some hs /\ h ∈ sfHooks hs /\ sfHookHash h = Some hh /\
    (sfHookNamespace h = Some ns \/
     sfHookNamespace h = None /\ def_namespace <$> definitions view !! hh = Some ns) /\
    g ∈ default [] (sfHookGrants h) /\ grant_hash g = hash /\ (forall a, sfAuthorize g = Some a -> a = acct).

Lemma hook_allows_granted acc hs ns hash acct :
  hooks view !! acc = Some hs -> existsb (hook_allows ns hash acct) (sfHooks hs) = true -> granted acc ns hash acct.
Proof.
  intros Eh (h & Hin%list_elem_of_In & Ha)%existsb_exists. unfold hook_allows in Ha.
  destruct (sfHookHash h) as [hh|] eqn:Ehh, (sfHookGrants h) as [grants|] eqn:Eg; try done.
  destruct (is_nil grants); [done|]. apply andb_true_iff in Ha as [Hns (g & Hg%list_elem_of_In & Hok)%existsb_exists].
  apply andb_true_iff in Hok as [Hhash%Z.eqb_eq Hau]. exists hs, h, hh, g. rewrite Eg.
  split; [done|]. split; [done|]. split; [done|]. split; [|split; [done|split; [done|]]].
  - unfold namespace_matches in Hns. destruct (sfHookNamespace h) as [n|]; [left; f_equal; by apply Z.eqb_eq|right].
    split; [done|]. destruct (definitions view !! hh) as [d|]; [|done]. cbn. f_equal. by apply Z.eqb_eq.
  - intros a E. rewrite E in Hau. by apply Z.eqb_eq.
Qed.

(** Who may write the entry: its owner's hook, a hook of the same transaction after
    someone wrote it, or a hook the owner granted it to. *)
Definition may_write (r : HookResult) (acc : AccountID) (ns key : uint256) : Prop :=
  acc = account r \/ was_modified (stateMap r) acc ns key = true \/
  granted acc ns (hookHash r) (account r).

(** What a call may have done to the context: memory and everything else stay,
    entries change only where the hook may write. *)
Definition authorized_change (c c' : HookContext) : Prop :=
  (exists m n b, result c' = set_state m n b (result c)) /\ memory c' = memory c /\
  forall a n k, lookup_state_cache (stateMap (result c')) a n k <> lookup_state_cache (stateMap (result c)) a n k ->
    may_write (result c) a n k.

Lemma authorized_refl c : authorized_change c c.
Proof.
  split; [|split; [done|done]]. exists (stateMap (result c)), (changedStateCount (result c)), (foreignStateSetDisabled (result c)).
  by destruct (result c).
Qed.

Lemma mem_bytes_size ptr len (c : HookContext) bs : mem_bytes ptr len c = Next c bs -> vsize bs = len.
Proof.
  unfold mem_bytes. destruct (_ && _) eqn:E; [|done]. intros [= <-]. bool_prop.
  unfold sub_bytes, vsize. cbn [get_mem context_mem] in *. unfold vsize in *. rewrite length_take, length_drop. lia.
Qed.

(** Handing over a value touches only memory. *)
Lemma give_map wp wl b c : ends (fun c' => result c' = result c) (give wp wl b c).
Proof.
  unfold give, WRITE_WASM_MEMORY_AND_RETURN, WRITE_WASM_MEMORY, mem_poke, memory_length, return_if.
  cbv [mbind api_bind mret api_ret return_code]. by repeat case_match; simplify_eq.
Qed.

(** Where a call can end: nothing done, the hook barred from further foreign
    writes, or one write it may do, of allowed size. *)
Lemma state_foreign_set_cases (P : HookContext -> Prop) c read_ptr read_len kread_ptr kread_len
    nread_ptr nread_len aread_ptr aread_len :
  P c ->
  P (set_result (set_state (stateMap (result c)) (changedStateCount (result c)) true (result c)) c) ->
  (forall acc ns key data, may_write (result c) acc ns key -> vsize data <= maxHookStateDataSize ->
     P (set_result (set_state_cache (result c) acc ns key data true).1 c)) ->
  ends P (state_foreign_set read_ptr read_len kread_ptr kread_len nread_ptr nread_len aread_ptr aread_len c).
Proof.
  intros Hrefl Hbar Hwrite. unfold state_foreign_set.
  do 9 (apply ends_bind; [solve [auto with quiet]|done|intros ? _]).
  apply ends_bind; [solve [auto with quiet]|done|intros ? Hsize].
  do 1 (apply ends_bind; [solve [auto with quiet]|done|intros ns _]).
  apply ends_bind; [solve [auto with quiet]|done|intros r [= <-]].
  apply ends_bind; [solve [auto with quiet]|done|intros acc Hacc].
  apply ends_bind; [solve [auto with quiet]|done|intros okey _].
  apply ends_bind; [solve [auto with quiet]|done|intros data Hdata]. destruct okey as [key|]; [|done].
  assert (vsize data <= maxHookStateDataSize) as Hdata'.
  { apply mem_bytes_size in Hdata. destruct (Z.ltb_spec maxHookStateDataSize read_len); [done|lia]. }
  assert (may_write (result c) acc ns key -> ends P (cache_write acc ns key data read_len c)) as Hcw.
  { intros Hmay. specialize (Hwrite acc ns key data Hmay Hdata'). unfold cache_write.
    destruct (set_state_cache _ _ _ _ _ _) as [r' ret]. by destruct (ret <? 0). }
  destruct ((aread_len =? 0) || (acc =? account (result c))) eqn:Elocal.
  { apply Hcw. left. apply orb_true_iff in Elocal as [E|E]; bool_prop; [|done].
    subst aread_len. by injection Hacc as <-. }
  apply ends_bind; [solve [auto with quiet]|done|intros ? _].
  destruct (lookup_state_cache _ _ _ _) as [[[] ?]|] eqn:El.
  1: { apply Hcw. right. left. unfold was_modified. by rewrite El. }
  all: destruct (hooks view !! acc) as [hs|] eqn:Eh; [|done];
    destruct (existsb _ (sfHooks hs)) eqn:Ee; [apply Hcw; right; right; by eapply hook_allows_granted|done].
Qed.

(** The state map after a read: what it was, or with one entry more, as it is in
    the ledger. *)
Lemma state_foreign_cases c write_ptr write_len kread_ptr kread_len nread_ptr nread_len aread_ptr aread_len :
  ends (fun c' => stateMap (result c') = stateMap (result c) \/
    exists acc ns key st, lookup_state_cache (stateMap (result c)) acc ns key = None /\
      states view !! hookState_key acc key ns = Some st /\
      stateMap (result c') = stateMap (set_state_cache (result c) acc ns key (sfHookStateData st) false).1)
    (state_foreign write_ptr write_len kread_ptr kread_len nread_ptr nread_len aread_ptr aread_len c).
Proof.
  unfold state_foreign. do 10 (apply ends_bind; [solve [auto with quiet]|by left|intros ? _]).
  apply ends_bind; [solve [auto with quiet]|by left|intros ns _].
  apply ends_bind; [solve [auto with quiet]|by left|intros r [= <-]].
  apply ends_bind; [solve [auto with quiet]|by left|intros acc _].
  apply ends_bind; [solve [auto with quiet]|by left|intros [key|] _]; [|by left].
  destruct (lookup_state_cache _ _ _ _) as [[b d]|] eqn:El.
  { apply (ends_weaken (fun c' => result c' = result c)); [intros c' ->; by left|apply give_map]. }
  destruct (states view !! _) as [st|] eqn:Est; [|by left].
  destruct (set_state_cache _ _ _ _ _ _) as [r' ret] eqn:Er. cbn.
  assert (exists acc0 ns0 key0 st0, lookup_state_cache (stateMap (result c)) acc0 ns0 key0 = None /\
    states view !! hookState_key acc0 key0 ns0 = Some st0 /\
    stateMap r' = stateMap (set_state_cache (result c) acc0 ns0 key0 (sfHookStateData st0) false).1) as Hm.
  { exists acc, ns, key, st. by rewrite Er. }
  unfold mbind, api_bind, modify_result. destruct (ret <? 0); cbn; [by right|].
  apply (ends_weaken (fun c' => result c' = r')); [intros c' ->; by right|apply give_map].
Qed.

(** C28: whatever its arguments, [state_foreign_set] (and [state_set], which calls
    it) changes only state that the hook may write: its own account's, an entry
    already written in the same transaction, or one covered by a grant of the
    owner's for this hook's hash, account and namespace.  Memory is untouched. *)
Theorem state_foreign_set_authorized c read_ptr read_len kread_ptr kread_len nread_ptr nread_len
    aread_ptr aread_len :
  ends (authorized_change c)
    (state_foreign_set read_ptr read_len kread_ptr kread_len nread_ptr nread_len aread_ptr aread_len c).
Proof.
  apply state_foreign_set_cases; [apply authorized_refl|split; [by do 3 eexists|done]|].
  intros acc ns key data Hmay _. destruct (set_state_cache _ _ _ _ _ _) as [r' ret] eqn:E. cbn.
  apply set_state_cache_spec in E as [[Hret ->]|(-> & (m & cn & E1) & Hl)].
  - replace (set_result (result c) c) with c by (by destruct c). apply authorized_refl.
  - split; [eauto|]. split; [done|]. intros a n' k Hne. cbn in Hne. rewrite Hl in Hne.
    destruct (same_entry_spec acc ns key a n' k) as [E|]; [by injection E as <- <- <-|done].
Qed.

(** ** Reading back *)

(** Valid arguments for a hook that works on its own state. *)
Record local_args (c : HookContext) (ptr len kptr klen : Z) : Prop := {
  la_memory : vsize (memory c) < 2 ^ 32;
  la_data : 0 <= ptr /\ 0 <= len /\ ptr + len <= vsize (memory c);
  la_key : 0 <= kptr /\ 1 <= klen <= 32 /\ kptr + klen <= vsize (memory c)
}.

Definition key_at (c : HookContext) (kptr klen : Z) : uint256 :=
  of_bytes (replicate (Z.to_nat (32 - klen)) 0 ++ sub_bytes (memory c) kptr klen).

Lemma sub_bytes_size m p n : 0 <= p -> 0 <= n -> p + n <= vsize m -> vsize (sub_bytes m p n) = n.
Proof. unfold sub_bytes, vsize. intros. rewrite length_take, length_drop. lia. Qed.

Lemma run_read_key {A} c kptr klen (k : option uint256 -> api HookContext A) :
  0 <= kptr -> 1 <= klen <= 32 -> kptr + klen <= vsize (memory c) ->
  (read_key kptr klen ≫= k) c = k (Some (key_at c kptr klen)) c.
Proof.
  intros Hp Hl Hm. apply run_bind. unfold read_key. rewrite run_mem_bytes by (cbn [get_mem context_mem]; lia).
  unfold make_state_key. cbn [get_mem context_mem]. rewrite sub_bytes_size by lia.
  rewrite !(proj2 (Z.ltb_ge _ _)) by lia. done.
Qed.

Lemma run_state_set c rp rl kp kl :
  local_args c rp rl kp kl -> rl <= maxHookStateDataSize ->
  state_set rp rl kp kl c =
    cache_write (account (result c)) (hookNamespace (result c)) (key_at c kp kl)
      (sub_bytes (memory c) rp rl) rl c.
Proof.
  intros [Hm Hd Hk] Hmax. unfold state_set, state_foreign_set.
  assert (forall B (k : unit -> api HookContext B),
    ((if (rp =? 0) && (rl =? 0) then mret tt else check_bounds rp rl) ≫= k) c = k tt c) as ->.
  { intros B k. destruct (_ && _); [done|]. apply run_check_bounds; cbn [get_mem context_mem]; lia. }
  rewrite !run_return_if by (done || (apply Z.ltb_ge; lia)).
  rewrite run_check_bounds by (cbn [get_mem context_mem]; lia). rewrite run_return_if by done.
  erewrite run_bind by done. cbn [get_mem context_mem].
  rewrite run_return_if.
  2: { cbn [Z.eqb negb andb orb]. rewrite orb_false_r.
       rewrite (proj2 (NOT_IN_BOUNDS_false kp kl _ ltac:(lia) ltac:(lia))) by lia. apply andb_false_r. }
  rewrite run_return_if by (apply Z.ltb_ge; lia). erewrite run_bind by done. erewrite run_bind by done.
  erewrite run_bind by done. rewrite run_read_key by lia.
  rewrite run_mem_bytes by (cbn [get_mem context_mem]; lia). done.
Qed.

Lemma run_state_cached c wp wl kp kl b data :
  local_args c wp wl kp kl -> wp <> 0 -> 1 <= wl -> vsize data <= wl ->
  lookup_state_cache (stateMap (result c)) (account (result c)) (hookNamespace (result c)) (key_at c kp kl)
    = Some (b, data) ->
  state wp wl kp kl c = Ret (set_memory (splice (memory c) wp data) c) (vsize data).
Proof.
  intros [Hm Hd Hk] Hwp Hwl Hfit El. unfold state, state_foreign. cbn [Z.eqb negb].
  rewrite !run_return_if; try done; try (apply Z.ltb_ge; lia).
  2: { by rewrite (proj2 (Z.ltb_ge wl 1)) by lia. }
  rewrite !run_check_bounds by (cbn [get_mem context_mem]; lia).
  do 3 erewrite run_bind by done. rewrite run_read_key by lia. rewrite El. unfold give.
  rewrite (proj2 (Z.eqb_neq wp 0)) by done. rewrite run_return_if by (apply Z.ltb_ge; lia).
  unfold WRITE_WASM_MEMORY_AND_RETURN. rewrite run_WRITE by (cbn [get_mem context_mem]; lia). done.
Qed.

(** A hook reads back what it wrote.  [state_set] with valid arguments either
    fails with a negative code and changes nothing, or returns the size of the
    data; then [state] with the same key and any buffer that is large enough
    writes exactly that data to the buffer and returns its size. *)
Theorem state_set_get c rp rl kp kl wp wl :
  local_args c rp rl kp kl -> local_args c wp wl kp kl -> rl <= maxHookStateDataSize ->
  wp <> 0 -> 1 <= wl -> rl <= wl ->
  (exists code, state_set rp rl kp kl c = Ret c code /\ code < 0) \/
  (exists c', state_set rp rl kp kl c = Ret c' rl /\
     state wp wl kp kl c' = Ret (set_memory (splice (memory c) wp (sub_bytes (memory c) rp rl)) c') rl).
Proof.
  intros Hs Hg Hmax Hwp Hwl Hfit. rewrite run_state_set by done. unfold cache_write.
  destruct (set_state_cache _ _ _ _ _ _) as [r' ret] eqn:E.
  apply set_state_cache_spec in E as [[Hret ->]|(-> & (m & cn & Er) & Hl)].
  - left. exists ret. rewrite (proj2 (Z.ltb_lt ret 0)) by done. by destruct c.
  - right. exists (set_result r' c). split; [done|].
    assert (vsize (sub_bytes (memory c) rp rl) = rl) as El by (destruct Hs; apply sub_bytes_size; lia).
    assert (local_args (set_result r' c) wp wl kp kl) as Hg' by (by destruct Hg).
    rewrite (run_state_cached _ wp wl kp kl true (sub_bytes (memory c) rp rl) Hg' Hwp Hwl ltac:(lia)); [by rewrite El|].
    subst r'. cbn [result set_result account hookNamespace set_state] in *. change (key_at _ kp kl) with (key_at c kp kl).
    rewrite Hl. by destruct (same_entry_spec (account (result c)) (hookNamespace (result c)) (key_at c kp kl)
      (account (result c)) (hookNamespace (result c)) (key_at c kp kl)).
Qed.
End cache.

(** ** A concrete instance *)

Definition sample_result (m : HookStateMap) : HookResult :=
  mkResult 5 7 9 1 [] m 0 ∅ ∅ ∅ UNSET [] 0 false false true 0 0 false false.

Definition sample_context : HookContext :=
  mkContext ([10; 11; 12; 13] ++ replicate 28 0) 0 0 0 ∅ 0 0 ∅ (sample_result (mkStateMap ∅ 0)).

(** Four bytes under a two-byte key, read back at offset 20. *)
Lemma state_set_get_witness :
  exists c', state_set sample_ledger 0 4 4 2 sample_context = Ret c' 4 /\
    @state sample_keylets sample_ledger 20 8 4 2 c' =
      Ret (set_memory (splice (memory sample_context) 20 [10; 11; 12; 13]) c') 4.
Proof.
  destruct (@state_set_get sample_keylets sample_ledger sample_context 0 4 4 2 20 8) as [(code & E & Hc)|(c' & E1 & E2)].
  - split; (done || (change (vsize (memory sample_context)) with 32; lia)).
  - split; (done || (change (vsize (memory sample_context)) with 32; lia)).
  - done.
  - done.
  - done.
  - done.
  - exfalso. apply (f_equal (fun o => match o with Ret _ z => z | _ => 0 end)) in E.
    vm_compute in E. subst code. done.
  - exists c'. split; [exact E1|exact E2].
Defined.

(** A foreign write to an entry that some hook of the transaction has already
    modified needs no grant: the same call is refused on an untouched entry and
    succeeds on a modified one, on an account that grants nothing. *)
Definition foreign_context (m : HookStateMap) : HookContext :=
  mkContext (replicate 19 0 ++ [8] ++ replicate 31 0 ++ [1] ++ [3; 42]) 0 0 0 ∅ 0 0 ∅ (sample_result m).

Definition other_owner : Ledger :=
  mkLedger {[ 8 := mkRoot 1000 0 0 None 0 ]} {[ 8 := mkHookSLE [] 0 ]} ∅ ∅ ∅ ∅ (mkFees 200 50).

Lemma no_grant_after_write :
  let call m := match state_foreign_set other_owner 53 1 52 1 20 32 0 20 (foreign_context m) with
                | Ret _ code => code | _ => 0 end in
  call (mkStateMap ∅ 0) = rc NOT_AUTHORIZED /\
  call (mkStateMap {[ 8 := (5, {[ 1 := {[ 3 := (true, []) ]} ]}) ]} 1) = 1.
Proof. vm_compute. auto. Qed.
