(* ===== verification/StateFinal.v ===== *)
(** * StateFinal: from the cache to the ledger ([app/hook/impl/applyHook.cpp])

    [finalizeHookState] writes the modified entries of the cache to the ledger and
    stops at the first write that fails; a comment says that none should, because
    the checks were done when the entries were put into the cache.  Here that is
    proved: for every cache that calls of the state functions can produce from the
    empty one, the write goes through, except that a directory may be full, and the
    ledger then holds exactly what the hooks saw in the cache. *)

From stdpp Require Import base numbers list option gmap fin_maps sorting.
From Stdlib Require Import ZArith Lia.
From S2P Require Import Prelude Enum Runtime Directory Context StateLedger StateCache.

Local Open Scope Z_scope.

(** ** The cache as one map *)

Definition flat (m : HookStateMap) : gmap (Z * Z * Z) cache_entry :=
  map_uncurry (M1 := gmap (Z * Z)) (M2 := gmap Z) (M12 := gmap (Z * Z * Z))
    (map_uncurry (M1 := gmap Z) (M2 := gmap Z) (M12 := gmap (Z * Z)) (snd <$> sm_accounts m)).

Lemma lookup_flat m a n k : flat m !! (a, n, k) = lookup_state_cache m a n k.
Proof.
  unfold flat, lookup_state_cache. rewrite !lookup_map_uncurry, lookup_fmap.
  destruct (sm_accounts m !! a) as [[av sp]|]; [|done]. cbn. by destruct (sp !! n).
Qed.

(** The entries to be written. *)
Definition dirty (m : HookStateMap) : gmap (Z * Z * Z) cache_entry := filter (fun x => x.2.1 = true) (flat m).

(** Of these, those of account [a] that the store does not have. *)
Definition fresh (σ : store) (a : AccountID) (m : HookStateMap) : gmap (Z * Z * Z) cache_entry :=
  filter (fun x : (Z * Z * Z) * cache_entry => x.1.1.1 = a /\ σ !! x.1 = None) (dirty m).

(** ** The list of entries is the map *)

Lemma elem_of_in_order {A} (m : gmap Z A) k v : (k, v) ∈ in_order m <-> m !! k = Some v.
Proof. unfold in_order. rewrite merge_sort_Permutation. apply elem_of_map_to_list. Qed.

Lemma NoDup_in_order {A} (m : gmap Z A) : NoDup (in_order m).
Proof. unfold in_order. rewrite merge_sort_Permutation. apply NoDup_map_to_list. Qed.

Lemma flat_map_bind {A B} (f : A -> list B) l : flat_map f l = l ≫= f.
Proof. induction l as [|x l IH]; [done|]. cbn. by rewrite IH. Qed.

(** A loop over a map that visits different things for different keys. *)
Lemma NoDup_loop {A B} (m : gmap Z A) (f : Z * A -> list B) (key : B -> Z) :
  (forall k v y, y ∈ f (k, v) -> key y = k) -> (forall k v, m !! k = Some v -> NoDup (f (k, v))) ->
  NoDup (flat_map f (in_order m)).
Proof.
  intros Hkey Hnd. rewrite flat_map_bind. apply NoDup_bind; [| |apply NoDup_in_order].
  - intros [k1 v1] [k2 v2] y Hx1%elem_of_in_order Hx2%elem_of_in_order Hy1%Hkey Hy2%Hkey. congruence.
  - intros [k v] Hx%elem_of_in_order. by apply Hnd.
Qed.

Lemma elem_of_modified m a n k d :
  (a, n, k, d) ∈ modified_entries m <-> lookup_state_cache m a n k = Some (true, d).
Proof.
  unfold modified_entries, lookup_state_cache. rewrite flat_map_bind, list_elem_of_bind. split.
  - intros ([a' [av sp]] & Hin & Ha%elem_of_in_order). rewrite flat_map_bind, list_elem_of_bind in Hin.
    destruct Hin as ([n' es] & Hin & Hn%elem_of_in_order). rewrite flat_map_bind, list_elem_of_bind in Hin.
    destruct Hin as ([k' [b d']] & Hin & Hk%elem_of_in_order). destruct b; [|by apply not_elem_of_nil in Hin].
    apply list_elem_of_singleton in Hin. injection Hin as -> -> -> ->. by rewrite Ha, Hn.
  - destruct (sm_accounts m !! a) as [[av sp]|] eqn:Ha; [|done]. destruct (sp !! n) as [es|] eqn:Hn; [|done].
    intros Hk. exists (a, (av, sp)). rewrite elem_of_in_order. split; [|done].
    rewrite flat_map_bind, list_elem_of_bind. exists (n, es). rewrite elem_of_in_order. split; [|done].
    rewrite flat_map_bind, list_elem_of_bind. exists (k, (true, d)). rewrite elem_of_in_order. split; [by left|done].
Qed.

Lemma NoDup_modified m : NoDup (modified_entries m).
Proof.
  apply (NoDup_loop _ _ (fun x => x.1.1.1)).
  { intros a [av sp] y Hy. rewrite flat_map_bind, list_elem_of_bind in Hy. destruct Hy as ([n es] & Hy & _).
    rewrite flat_map_bind, list_elem_of_bind in Hy. destruct Hy as ([k [[] d]] & Hy & _);
      [by apply list_elem_of_singleton in Hy as ->|by apply not_elem_of_nil in Hy]. }
  intros a [av sp] _. apply (NoDup_loop _ _ (fun x => x.1.1.2)).
  { intros n es y Hy. rewrite flat_map_bind, list_elem_of_bind in Hy. destruct Hy as ([k [[] d]] & Hy & _);
      [by apply list_elem_of_singleton in Hy as ->|by apply not_elem_of_nil in Hy]. }
  intros n es _. apply (NoDup_loop _ _ (fun x => x.1.2)).
  { intros k [[] d] y Hy; [by apply list_elem_of_singleton in Hy as ->|by apply not_elem_of_nil in Hy]. }
  intros k [[] d] _; [apply NoDup_singleton|constructor].
Qed.

(** The list is a permutation of the dirty entries. *)
Lemma modified_entries_perm m : modified_entries m ≡ₚ prod_map id snd <$> map_to_list (dirty m).
Proof.
  apply NoDup_Permutation; [apply NoDup_modified| |].
  - apply NoDup_fmap_2_strong; [|apply NoDup_map_to_list].
    intros [e [b d]] [e' [b' d']] Hx Hy [= -> ->]. apply elem_of_map_to_list in Hx, Hy. congruence.
  - intros [[[a n] k] d]. rewrite elem_of_modified, <- lookup_flat, list_elem_of_fmap. split.
    + intros E. exists ((a, n, k), (true, d)). split; [done|]. apply elem_of_map_to_list.
      by apply map_lookup_filter_Some.
    + intros ([e [b d']] & [= -> ->] & [E Hb]%elem_of_map_to_list%map_lookup_filter_Some). cbn in Hb. by subst b.
Qed.

(** ** Writing a list of entries *)

Abbreviation entry := (Z * Z * Z * list Z)%type (only parsing).

(** How many of the entries are account [a]'s and not in the store. *)
Definition news (σ : store) (a : AccountID) (es : list entry) : Z :=
  Z.of_nat (length (filter (fun e => e.1.1.1 = a /\ σ !! e.1 = None) es)).

(** The store after all writes. *)
Definition write_all (σ : store) (es : list entry) : store := foldl (fun σ e => write e.1 e.2 σ) σ es.

Lemma lookup_write e d σ e' : write e d σ !! e' = if decide (e = e') then (if is_nil d then None else Some d) else σ !! e'.
Proof. unfold write. destruct (is_nil d); [rewrite lookup_delete|rewrite lookup_insert]; done. Qed.

Lemma lookup_write_all_other es σ e : e ∉ es.*1 -> write_all σ es !! e = σ !! e.
Proof.
  unfold write_all. revert σ. induction es as [|[e0 d] es IH]; intros σ Hn; [done|].
  cbn in *. apply not_elem_of_cons in Hn as [Hne Hn]. by rewrite IH, lookup_write, decide_False.
Qed.

Lemma lookup_write_all es σ e d :
  NoDup es.*1 -> (e, d) ∈ es -> write_all σ es !! e = if is_nil d then None else Some d.
Proof.
  unfold write_all. revert σ. induction es as [|[e0 d0] es IH]; intros σ Hnd Hin; [by apply not_elem_of_nil in Hin|].
  cbn in *. apply NoDup_cons in Hnd as [Hn Hnd]. apply elem_of_cons in Hin as [[= -> ->]|Hin].
  - change (foldl _ _ es) with (write_all (write e0 d0 σ) es).
    by rewrite lookup_write_all_other, lookup_write, decide_True.
  - by apply IH.
Qed.

Lemma news_cons σ a e d es :
  news σ a ((e, d) :: es) = (if decide (e.1.1 = a /\ σ !! e = None) then 1 else 0) + news σ a es.
Proof. unfold news. rewrite filter_cons. cbn [fst]. destruct (decide _); cbn [length]; lia. Qed.

Lemma news_write σ a e d es : e ∉ es.*1 -> news (write e d σ) a es = news σ a es.
Proof.
  induction es as [|[e' d'] es IH]; intros Hn; [done|]. cbn in Hn. apply not_elem_of_cons in Hn as [Hne Hn].
  rewrite !news_cons, IH, lookup_write, (decide_False (P := e = e')) by done. done.
Qed.

Lemma news_nonneg σ a es : 0 <= news σ a es.
Proof. unfold news. lia. Qed.

Section final.
Context `{Keylets}.

(** What an account needs for the entries still to be written. *)
Definition affordable (l : Ledger) (σ : store) (es : list entry) (a : AccountID) : Prop :=
  exists r, accounts l !! a = Some r /\ sfOwnerCount r + Z.of_nat (length es) < 2 ^ 32 /\
    (0 < news σ a es -> accountReserve (fees l) (sfOwnerCount r + news σ a es) <= sfBalance r).

Lemma affordable_step l l' σ e d es a :
  accounts_step l l' e.1.1 (if adds e d σ then 1 else 0) -> e ∉ es.*1 -> 0 <= fee_increment (fees l) ->
  affordable l σ ((e, d) :: es) a -> affordable l' (write e d σ) es a.
Proof.
  intros [Hf Hstep] Hn Hinc (r & Er & Hown & Hres). destruct (Hstep a r Er) as (r' & Er' & Hb & Ho).
  rewrite news_cons in Hres. cbn [length] in Hown. pose proof (news_nonneg σ a es).
  exists r'. split; [done|]. rewrite news_write by done.
  assert (sfOwnerCount r' <= sfOwnerCount r + (if decide (e.1.1 = a /\ σ !! e = None) then 1 else 0)) as Ho'.
  { unfold adds in Ho. destruct (Z.eqb_spec e.1.1 a), (negb (is_nil d)); cbn [andb] in Ho;
      try case_bool_decide; case_decide; try lia; naive_solver. }
  split; [case_decide; lia|]. intros Hpos. unfold accountReserve in *. rewrite Hf, Hb.
  specialize (Hres ltac:(case_decide; lia)). etransitivity; [|exact Hres]. nia.
Qed.

Lemma write_entries_spec es l σ cc :
  rep l σ -> NoDup es.*1 -> 0 <= fee_increment (fees l) ->
  (forall e d, (e, d) ∈ es -> vsize d <= maxHookStateDataSize /\ affordable l σ es e.1.1) ->
  0 <= cc -> cc + Z.of_nat (length es) < 0xFFFF ->
  exists ter l', write_entries l cc es = Val (ter, l') /\
    match ter with tesSUCCESS => rep l' (write_all σ es) | tecDIR_FULL => True | _ => False end.
Proof.
  revert l σ cc. induction es as [|[[[a n] k] d] es IH]; intros l σ cc Hrep Hnd Hinc Hes Hcc Hlen.
  { by exists tesSUCCESS, l. }
  cbn in Hnd. apply NoDup_cons in Hnd as [Hn Hnd]. cbn [length] in Hlen.
  destruct (Hes (a, n, k) d) as [Hsize (r & Er & Hown & Hres)]; [by left|]. cbn [fst] in Er, Hown, Hres.
  cbn [write_entries]. rewrite u16_small, (proj2 (Z.leb_gt _ _)) by lia.
  destruct (setHookState_spec l σ a r n k d Hrep Er) as (ter & l1 & -> & Hl1); [cbn [length] in Hown; lia|done|].
  cbn [mbind res_bind]. destruct ter; try done.
  - destruct Hl1 as [Hrep1 Hstep]. rewrite bool_decide_true by done. cbn [negb].
    apply (IH l1 (write (a, n, k) d σ) (cc + 1)); try done; try lia; [by rewrite (proj1 Hstep)|].
    intros e d' Hin. destruct (Hes e d') as [Hs' Haff]; [by right|]. split; [done|].
    eapply affordable_step; done.
  - exfalso. destruct Hl1 as (_ & Hadd & Hbal). rewrite news_cons in Hres. cbn [fst] in Hres.
    unfold adds in Hadd. apply andb_true_iff in Hadd as [_ Hadd%bool_decide_eq_true].
    rewrite decide_True in Hres by done. pose proof (news_nonneg σ a es). unfold accountReserve in *. nia.
  - rewrite bool_decide_false by done. cbn. by do 2 eexists.
Qed.

(** ** The reserve accounting of the cache

    Each account has room left for what it was charged, entries that are only
    cached are the ledger's, and the counter bounds the modified entries. *)
Record cache_inv (view : Ledger) (σ : store) (m : HookStateMap) : Prop := {
  ci_account a av sp : sm_accounts m !! a = Some (av, sp) ->
    exists r, accounts view !! a = Some r /\
      Z.of_nat (size (fresh σ a m)) + av <= available_reserves view r /\
      (0 < Z.of_nat (size (fresh σ a m)) -> 0 <= av);
  ci_clean e d : flat m !! e = Some (false, d) -> is_Some (σ !! e);
  ci_size e d : flat m !! e = Some (true, d) -> vsize d <= maxHookStateDataSize;
  ci_dirty : Z.of_nat (size (dirty m)) <= Z.min (modified_entry_count m) (max_state_modifications + 1);
  ci_count : modified_entry_count m <= max_state_modifications + 1 + Z.of_nat (size (sm_accounts m))
}.

Definition empty_cache : HookStateMap := mkStateMap ∅ 0.

Lemma cache_inv_empty view σ : cache_inv view σ empty_cache.
Proof.
  assert (flat empty_cache = ∅) as E.
  { apply map_eq. intros [[a n] k]. rewrite lookup_flat, lookup_empty. unfold lookup_state_cache. cbn. by rewrite lookup_empty. }
  split.
  - intros a av sp E0. cbn in E0. by rewrite lookup_empty in E0.
  - intros e d. by rewrite E, lookup_empty.
  - intros e d. by rewrite E, lookup_empty.
  - unfold dirty. rewrite E, map_filter_empty. done.
  - done.
Qed.

(** An account in the cache is an account. *)
Lemma cache_accounts view σ m : cache_inv view σ m -> (size (sm_accounts m) <= size (accounts view))%nat.
Proof.
  intros Hci. rewrite <- !(size_dom (D := gset Z)). apply subseteq_size. intros a [[av sp] Ha]%elem_of_dom.
  destruct (ci_account _ _ _ Hci a av sp Ha) as (r & Er & _). apply elem_of_dom. eauto.
Qed.

(** What an insertion does to the counts. *)
Lemma dirty_insert m m' e (b : bool) d :
  flat m' = <[e := (b, d)]> (flat m) -> dirty m' = if b then <[e := (b, d)]> (dirty m) else delete e (dirty m).
Proof.
  intros E. unfold dirty. rewrite E. destruct b.
  - by rewrite map_filter_insert_True.
  - rewrite map_filter_insert_False by done. apply map_filter_delete.
Qed.

Lemma fresh_insert σ a m m' e d :
  flat m' = <[e := (true, d)]> (flat m) ->
  fresh σ a m' = if decide (e.1.1 = a /\ σ !! e = None) then <[e := (true, d)]> (fresh σ a m) else delete e (fresh σ a m).
Proof.
  intros E. unfold fresh. rewrite (dirty_insert m m' e true d E). case_decide.
  - by rewrite map_filter_insert_True.
  - rewrite map_filter_insert_False by done. apply map_filter_delete.
Qed.

(** What a successful call charges. *)
Definition charged (view : Ledger) (m : HookStateMap) (acc : AccountID) (ns key : uint256) (modified : bool)
    (remaining : Z) : Prop :=
  match sm_accounts m !! acc with
  | None => exists r, accounts view !! acc = Some r /\ remaining = available_reserves view r - 1 /\
              (modified = true -> 0 <= remaining)
  | Some (av, _) => if modified && negb (bool_decide (is_Some (lookup_state_cache m acc ns key)))
                    then remaining = av - 1 /\ 0 <= remaining else remaining = av
  end.

Lemma set_state_cache_charge view c acc ns key data modified c' :
  set_state_cache view c acc ns key data modified = (c', 1) ->
  exists spaces remaining, charged view (stateMap c) acc ns key modified remaining /\
    sm_accounts (stateMap c') = <[acc := (remaining, spaces)]> (sm_accounts (stateMap c)) /\
    (modified = true -> modified_entry_count (stateMap c) <= max_state_modifications) /\
    modified_entry_count (stateMap c') =
      if modified || negb (bool_decide (is_Some (sm_accounts (stateMap c) !! acc)))
      then u32 (modified_entry_count (stateMap c) + 1) else modified_entry_count (stateMap c).
Proof.
  unfold set_state_cache, charged, lookup_state_cache. intros E.
  destruct (modified && (max_state_modifications <? _)) eqn:Elim; [done|].
  assert (modified = true -> modified_entry_count (stateMap c) <= max_state_modifications) as Hlim.
  { intros ->. by apply Z.ltb_ge in Elim. }
  destruct (sm_accounts (stateMap c) !! acc) as [[av sp]|] eqn:Ea; [destruct (sp !! ns) as [es|] eqn:En|].
  - destruct (es !! key) as [[was b]|] eqn:Ek; [|destruct (modified && negb (0 <? av)) eqn:Eav; [done|]];
      injection E as <-; do 2 eexists; (split; [|split; [reflexivity|split; [exact Hlim|by destruct modified]]]); destruct modified; cbn in *; try done.
    bool_prop. lia.
  - destruct (modified && negb (0 <? av)) eqn:Eav; [done|].
    injection E as <-; do 2 eexists; (split; [|split; [reflexivity|split; [exact Hlim|by destruct modified]]]); destruct modified; cbn in *; try done.
    bool_prop. lia.
  - destruct (accounts view !! acc) as [r|] eqn:Er; [|done].
    destruct ((available_reserves view r <? 1) && modified) eqn:Eav; [done|]. injection E as <-.
    do 2 eexists. split; [|split; [reflexivity|split; [exact Hlim|by destruct modified]]]. exists r. split; [done|]. split; [done|]. intros ->.
    rewrite andb_true_r in Eav. apply Z.ltb_ge in Eav. lia.
Qed.

Lemma set_state_cache_flat view c acc ns key data modified c' :
  set_state_cache view c acc ns key data modified = (c', 1) ->
  flat (stateMap c') = <[(acc, ns, key) := (modified || was_modified (stateMap c) acc ns key, data)]> (flat (stateMap c)).
Proof.
  intros [[? _]|(_ & _ & Hl)]%set_state_cache_spec; [lia|]. apply map_eq. intros [[a n] k].
  rewrite lookup_flat, Hl, lookup_insert, lookup_flat.
  destruct (same_entry_spec acc ns key a n k) as [E|Hne]; [by rewrite decide_True|by rewrite decide_False].
Qed.

(** Sizes after one insertion of a dirty or a new clean entry. *)
Lemma size_delete_le {A} (e : Z * Z * Z) (m : gmap (Z * Z * Z) A) : (size (delete e m) <= size m)%nat.
Proof. rewrite map_size_delete. destruct (m !! e); unfold id; lia. Qed.

Lemma size_insert_le {A} (e : Z * Z * Z) (x : A) (m : gmap (Z * Z * Z) A) : (size (<[e := x]> m) <= S (size m))%nat.
Proof. rewrite map_size_insert. destruct (m !! e); unfold id; lia. Qed.

Lemma fresh_size view σ a m m' e (b : bool) d :
  cache_inv view σ m -> flat m' = <[e := (b, d)]> (flat m) ->
  (size (fresh σ a m') <= size (fresh σ a m) +
     (if b && (e.1.1 =? a)%Z && negb (bool_decide (is_Some (flat m !! e))) then 1 else 0))%nat.
Proof.
  intros Hci E. destruct b; cbn [andb].
  - rewrite (fresh_insert σ a m m' e d E). case_decide as Hd.
    2: { pose proof (size_delete_le e (fresh σ a m)). lia. }
    destruct Hd as [Ea Hσ]. rewrite (proj2 (Z.eqb_eq _ _) Ea). cbn [andb].
    case_bool_decide as Hin; cbn [negb]; [|pose proof (size_insert_le e (true, d) (fresh σ a m)); lia].
    rewrite map_size_insert_Some; [lia|]. destruct Hin as [[b' d'] Hin].
    destruct b'; [|by apply (ci_clean _ _ _ Hci) in Hin as [? ?]; congruence].
    exists (true, d'). apply map_lookup_filter_Some. split; [|done]. by apply map_lookup_filter_Some.
  - unfold fresh. rewrite (dirty_insert m m' e false d E), map_filter_delete.
    pose proof (size_delete_le e (filter (fun x : Z * Z * Z * cache_entry => x.1.1.1 = a /\ σ !! x.1 = None) (dirty m))). lia.
Qed.

Lemma fresh_absent σ a m : sm_accounts m !! a = None -> fresh σ a m = ∅.
Proof.
  intros Ha. apply map_empty. intros [[a' n] k]. apply map_lookup_filter_None. right.
  intros [b d] [E _]%map_lookup_filter_Some [E' _]. cbn in E'. subst a'. rewrite lookup_flat in E. unfold lookup_state_cache in E. by rewrite Ha in E.
Qed.

Lemma set_state_cache_inv view σ c acc ns key data modified c' ret :
  set_state_cache view c acc ns key data modified = (c', ret) ->
  Z.of_nat (size (accounts view)) < 2 ^ 31 -> cache_inv view σ (stateMap c) ->
  (if modified then vsize data <= maxHookStateDataSize
   else lookup_state_cache (stateMap c) acc ns key = None /\ is_Some (σ !! (acc, ns, key))) ->
  cache_inv view σ (stateMap c').
Proof.
  intros E Hacc Hci Harg. pose proof (cache_accounts view σ _ Hci) as Hsz.
  destruct (set_state_cache_spec _ _ _ _ _ _ _ _ _ E) as [[_ ->]|(-> & _ & _)]; [done|].
  pose proof (set_state_cache_flat _ _ _ _ _ _ _ _ E) as Hflat.
  destruct (set_state_cache_charge _ _ _ _ _ _ _ _ E) as (sp & rem & Hch & Ha' & Hlim & Hcnt).
  set (m := stateMap c) in *. set (m' := stateMap c') in *. set (e := (acc, ns, key)) in *.
  assert (modified || was_modified m acc ns key = modified) as Ew.
  { destruct modified; [done|]. unfold was_modified. by rewrite (proj1 Harg). }
  rewrite Ew in Hflat. pose proof (ci_dirty _ _ _ Hci) as Hd. pose proof (ci_count _ _ _ Hci) as Hcount.
  fold m in Hd, Hcount, Hsz. unfold max_state_modifications in *.
  assert (modified_entry_count m' = if modified || negb (bool_decide (is_Some (sm_accounts m !! acc)))
            then modified_entry_count m + 1 else modified_entry_count m) as Hcnt'.
  { rewrite Hcnt. rewrite u32_small by lia. done. }
  split; unfold max_state_modifications in *.
  - intros a av0 sp0 Ea0. pose proof (fresh_size view σ a m m' e modified data Hci Hflat) as Hf.
    rewrite Ha', lookup_insert in Ea0. case_decide as Eacc.
    + injection Ea0 as <- <-. subst a. unfold charged in Hch. cbn [fst e] in Hf. rewrite Z.eqb_refl, andb_true_r in Hf.
      unfold e in Hf. rewrite lookup_flat in Hf. destruct (sm_accounts m !! acc) as [[av sp1]|] eqn:Eac.
      * destruct (ci_account _ _ _ Hci acc av sp1 Eac) as (r & Er & Hsum & Hpos). exists r. split; [done|]. fold m in Hsum, Hpos.
        destruct (modified && _) in Hch, Hf; lia.
      * destruct Hch as (r & Er & -> & Hpos). exists r. split; [done|]. rewrite (fresh_absent σ acc m Eac), map_size_empty in Hf.
        destruct modified; cbn [andb] in Hf; [|lia]. specialize (Hpos eq_refl). destruct (negb _) in Hf; lia.
    + destruct (ci_account _ _ _ Hci a av0 sp0 Ea0) as (r & Er & Hsum & Hpos). exists r. split; [done|]. fold m in Hsum, Hpos.
      cbn [fst e] in Hf. rewrite (proj2 (Z.eqb_neq _ _) Eacc), andb_false_r in Hf. cbn [andb] in Hf. lia.
  - intros e' d'. rewrite Hflat, lookup_insert. case_decide as Ee; [|apply (ci_clean _ _ _ Hci)].
    intros [= -> ->]. subst e'. apply Harg.
  - intros e' d'. rewrite Hflat, lookup_insert. case_decide as Ee; [|apply (ci_size _ _ _ Hci)].
    intros [= -> ->]. done.
  - rewrite Hcnt', (dirty_insert m m' e modified data Hflat). destruct modified; cbn [orb].
    + pose proof (size_insert_le e (true, data) (dirty m)). specialize (Hlim eq_refl). lia.
    + pose proof (size_delete_le e (dirty m)). destruct (negb _); lia.
  - rewrite Hcnt', Ha', map_size_insert. destruct (sm_accounts m !! acc) eqn:Eac; cbn.
    + destruct modified; cbn; [specialize (Hlim eq_refl)|]; lia.
    + destruct modified; cbn; [specialize (Hlim eq_refl)|]; lia.
Qed.

(** ** The caches a transaction can reach *)

(** One call of a state function by some hook: each hook has its own context, and
    all share the cache. *)
Inductive cache_step (view : Ledger) : HookStateMap -> HookStateMap -> Prop :=
| step_set c c' code rp rl kp kl np nl ap al :
    state_foreign_set view rp rl kp kl np nl ap al c = Ret c' code ->
    cache_step view (stateMap (result c)) (stateMap (result c'))
| step_get c c' code wp wl kp kl np nl ap al :
    state_foreign view wp wl kp kl np nl ap al c = Ret c' code ->
    cache_step view (stateMap (result c)) (stateMap (result c')).

Lemma cache_step_inv view σ m m' :
  rep view σ -> Z.of_nat (size (accounts view)) < 2 ^ 31 -> cache_step view m m' ->
  cache_inv view σ m -> cache_inv view σ m'.
Proof.
  intros Hrep Hacc [c c' code rp rl kp kl np nl ap al E|c c' code wp wl kp kl np nl ap al E] Hci.
  - pose proof (state_foreign_set_cases view (fun c' => cache_inv view σ (stateMap (result c'))) c
      rp rl kp kl np nl ap al) as Hends. rewrite E in Hends. apply Hends; [done|done|].
    intros acc ns key data _ Hsize. destruct (set_state_cache _ _ _ _ _ _ _) as [r' ret] eqn:Er.
    by eapply set_state_cache_inv.
  - pose proof (state_foreign_cases view c wp wl kp kl np nl ap al) as Hends. rewrite E in Hends. cbn [ends] in Hends.
    destruct Hends as [->|(acc & ns & key & st & El & Est & Em)]; [done|].
    destruct (set_state_cache view (result c) acc ns key (sfHookStateData st) false) as [r' ret] eqn:Er. cbn [fst] in Em. rewrite Em.
    apply (set_state_cache_inv _ _ _ _ _ _ _ _ _ _ Er Hacc Hci).
    split; [done|]. rewrite <- (rep_states _ _ Hrep), Est. cbn. eauto.
Qed.

Lemma reachable_inv view σ m :
  rep view σ -> Z.of_nat (size (accounts view)) < 2 ^ 31 -> rtc (cache_step view) empty_cache m ->
  cache_inv view σ m.
Proof.
  intros Hrep Hacc Hr. remember empty_cache as m0 eqn:E0.
  assert (cache_inv view σ m0) as H0 by (subst; apply cache_inv_empty). clear E0.
  induction Hr as [m|m m1 m2 Hs _ IH]; [done|]. apply IH. by eapply cache_step_inv.
Qed.

(** The reserve the cache has room for is the reserve the ledger asks for. *)
Lemma available_enough view r c :
  0 <= fee_increment (fees view) -> 0 < c -> c <= available_reserves view r ->
  accountReserve (fees view) (sfOwnerCount r + c) <= sfBalance r.
Proof.
  intros Hinc Hc. unfold available_reserves, accountReserve.
  set (f := fee_increment (fees view)) in *. set (x := sfBalance r - _).
  set (i := if f <=? 0 then 1 else f). assert (f <= i /\ 0 < i) as [Hfi Hi] by (unfold i; case_match; lia).
  intros Hle. assert (0 <= x) as Hx.
  { destruct (Z.le_gt_cases 0 x); [done|]. exfalso. assert (Z.quot x i <= 0); [|lia].
    rewrite <- (Z.opp_involutive x), Z.quot_opp_l by lia. pose proof (Z.quot_pos (- x) i). lia. }
  rewrite Z.quot_div_nonneg in Hle by lia. pose proof (Z.mul_div_le x i Hi). unfold x in *. nia.
Qed.

Lemma news_fresh σ a m : news σ a (modified_entries m) = Z.of_nat (size (fresh σ a m)).
Proof.
  unfold news. f_equal. rewrite modified_entries_perm, length_filter_fmap.
  unfold fresh. rewrite map_filter_alt, <- length_map_to_list, map_to_list_to_map; [done|].
  apply NoDup_fmap_2_strong; [|apply NoDup_filter, NoDup_map_to_list].
  intros [e x] [e' x'] [_ Hx%elem_of_map_to_list]%list_elem_of_filter [_ Hy%elem_of_map_to_list]%list_elem_of_filter Ee.
  cbn in Ee. congruence.
Qed.

(** What the hooks saw is what the ledger holds afterwards. *)
Definition flushed (σ : store) (m : HookStateMap) (σ' : store) : Prop :=
  forall a n k, σ' !! (a, n, k) =
    match lookup_state_cache m a n k with
    | Some (true, d) => if is_nil d then None else Some d
    | _ => σ !! (a, n, k)
    end.

Lemma write_all_flushed σ m : NoDup (modified_entries m).*1 -> flushed σ m (write_all σ (modified_entries m)).
Proof.
  intros Hnd a n k. destruct (lookup_state_cache m a n k) as [[[] d]|] eqn:El.
  - apply lookup_write_all; [done|]. by apply elem_of_modified.
  - apply lookup_write_all_other. intros ([[[a' n'] k'] d'] & [= <- <- <-] & Hin%elem_of_modified)%list_elem_of_fmap. congruence.
  - apply lookup_write_all_other. intros ([[[a' n'] k'] d'] & [= <- <- <-] & Hin%elem_of_modified)%list_elem_of_fmap. congruence.
Qed.

Lemma NoDup_modified_keys m : NoDup (modified_entries m).*1.
Proof.
  apply NoDup_fmap_2_strong; [|apply NoDup_modified].
  intros [[[a n] k] d] [[[a' n'] k'] d'] Hx%elem_of_modified Hy%elem_of_modified [= -> -> ->]. congruence.
Qed.

Lemma finalizeHookState_spec view σ m :
  rep view σ -> Z.of_nat (size (accounts view)) < 2 ^ 31 -> 0 <= fee_increment (fees view) ->
  (forall a r, accounts view !! a = Some r -> sfOwnerCount r < 2 ^ 31) ->
  rtc (cache_step view) empty_cache m ->
  exists ter l', finalizeHookState m view = Val (ter, l') /\
    match ter with
    | tesSUCCESS => exists σ', rep l' σ' /\ flushed σ m σ'
    | tecDIR_FULL => True
    | _ => False
    end.
Proof.
  intros Hrep Hacc Hinc Howner Hr. pose proof (reachable_inv view σ m Hrep Hacc Hr) as Hci.
  pose proof (ci_dirty _ _ _ Hci) as Hd. unfold max_state_modifications in Hd.
  assert (length (modified_entries m) = size (dirty m)) as Elen.
  { rewrite modified_entries_perm, length_fmap. apply length_map_to_list. }
  destruct (write_entries_spec (modified_entries m) view σ 0 Hrep (NoDup_modified_keys m) Hinc) as (ter & l' & E & Hl').
  - intros [[a n] k] d Hin%elem_of_modified. cbn [fst]. split.
    { apply (ci_size _ _ _ Hci (a, n, k)). by rewrite lookup_flat. }
    unfold lookup_state_cache in Hin. destruct (sm_accounts m !! a) as [[av sp]|] eqn:Ea; [|done].
    destruct (ci_account _ _ _ Hci a av sp Ea) as (r & Er & Hsum & Hpos). exists r. split; [done|].
    specialize (Howner a r Er). split; [lia|]. rewrite news_fresh. intros Hnews.
    apply available_enough; [done..|]. specialize (Hpos Hnews). lia.
  - done.
  - lia.
  - exists ter, l'. split; [exact E|]. destruct ter; try done. eexists. split; [done|].
    apply write_all_flushed, NoDup_modified_keys.
Qed.

(** C11: the writes at the end of a transaction do not fail.  Take a ledger that
    represents a store, and any cache the hooks of a transaction can produce from
    the empty one by calls of [state], [state_set], [state_foreign] and
    [state_foreign_set] with any arguments.  Then [finalizeHookState] returns
    [tesSUCCESS] and the new ledger represents the store updated with every entry
    the hooks wrote, or it returns [tecDIR_FULL]; no reserve, size or count check
    fails. *)
Theorem finalizeHookState_succeeds view σ m :
  rep view σ -> Z.of_nat (size (accounts view)) < 2 ^ 31 -> 0 <= fee_increment (fees view) ->
  (forall a r, accounts view !! a = Some r -> sfOwnerCount r < 2 ^ 31) ->
  rtc (cache_step view) empty_cache m ->
  exists ter l', finalizeHookState m view = Val (ter, l') /\
    match ter with
    | tesSUCCESS => exists σ', rep l' σ' /\ flushed σ m σ'
    | tecDIR_FULL => True
    | _ => False
    end.
Proof. apply finalizeHookState_spec. Qed.
End final.

(** One hook writes four bytes of new state. *)
Definition sample_after : HookContext :=
  match state_set sample_ledger 0 4 4 2 sample_context with Ret c' _ => c' | _ => sample_context end.

Lemma finalizeHookState_succeeds_witness :
  exists l' σ', @finalizeHookState sample_keylets (stateMap (result sample_after)) sample_ledger = Val (tesSUCCESS, l') /\
    @rep sample_keylets l' σ' /\ σ' !! (7, 1, 0) = Some [10; 11; 12; 13].
Proof.
  destruct (@finalizeHookState_succeeds sample_keylets sample_ledger ∅ (stateMap (result sample_after)))
    as (ter & l' & E & Hl').
  - exact sample_ledger_rep.
  - done.
  - done.
  - intros a r Er. cbn [accounts sample_ledger] in Er. apply lookup_singleton_Some in Er as [<- <-]. done.
  - apply rtc_once. apply (@step_set sample_keylets sample_ledger sample_context sample_after 4 0 4 4 2 0 0 0 0).
    vm_compute. reflexivity.
  - assert (ter = tesSUCCESS) as ->.
    { apply (f_equal (fun o => match o with Val (t, _) => Some t | _ => None end)) in E. vm_compute in E. by injection E. }
    destruct Hl' as (σ' & Hrep & Hfl). exists l', σ'. split; [exact E|]. split; [exact Hrep|].
    rewrite Hfl. vm_compute. reflexivity.
Defined.
