(* ===== verification/HookParams.v ===== *)
(** * HookParams: the parameters of a hook

    A hook definition has default parameters and each installation of the hook may
    override them.  [updateHookParameters] ([app/tx/impl/SetHook.cpp]) stores only
    what differs from the defaults; [gatherHookParameters]
    ([app/hook/impl/applyHook.cpp]) puts both together when the hook runs, and an
    empty value then counts as no parameter ([hook_param]).

    The theorem: after an update each parameter has the value that was asked for,
    the default if it was reset, and its old value if it was not mentioned. *)

From stdpp Require Import base numbers list option gmap sorting.
From Stdlib Require Import ZArith Lia.
From S2P Require Import Prelude Enum Runtime Directory Context StateLedger.

Local Open Scope Z_scope.

(** A [std::map] of parameters; without a value the parameter is to be removed. *)
Abbreviation param_map := (gmap Blob (option Blob)) (only parsing).

(** The order in which a [std::map] visits byte strings. *)
Fixpoint blob_leb (x y : Blob) : bool :=
  match x, y with
  | [], _ => true
  | _ :: _, [] => false
  | a :: x', b :: y' => if a =? b then blob_leb x' y' else a <? b
  end.

Definition name_le {A} (x y : Blob * A) : Prop := blob_leb x.1 y.1 = true.
#[export] Instance name_le_dec {A} : RelDecision (@name_le A).
Proof. intros x y. unfold name_le. apply _. Defined.

(** ** [updateHookParameters] *)

Definition pname (p : HookParameter) : Blob := getFieldVL (sfHookParameterName p).

(** [parameters[name] = value] for each parameter of an array. *)
Definition pull_params (ps : list HookParameter) (m : param_map) : param_map :=
  foldl (fun m p => <[pname p := sfHookParameterValue p]> m) m ps.

(** Comparison with one default: the same value or none means the default; an empty
    value is a deliberate blank. *)
Definition against_default (s : param_map * gset Blob) (p : HookParameter) : param_map * gset Blob :=
  let '(parameters, explicitBlanks) := s in
  let n := pname p in
  let v := getFieldVL (sfHookParameterValue p) in
  match parameters !! n with
  | None => s
  | Some pv =>
    if bool_decide (pv = None) || bool_decide (pv = Some v) then (delete n parameters, explicitBlanks)
    else if bool_decide (pv = Some []) then (parameters, {[n]} ∪ explicitBlanks)
    else s
  end.

(** What is left to erase: absent values, and blanks of nothing. *)
Definition to_erase (explicitBlanks : gset Blob) (x : Blob * option Blob) : Prop :=
  x.2 = None \/ (x.2 = Some [] /\ x.1 ∉ explicitBlanks).
#[export] Instance to_erase_dec explicitBlanks x : Decision (to_erase explicitBlanks x).
Proof. unfold to_erase. apply _. Defined.

Definition merge_params (setParams defParams oldParams : list HookParameter) : param_map :=
  let parameters := pull_params setParams (pull_params oldParams ∅) in
  let '(parameters, explicitBlanks) := foldl against_default (parameters, ∅) defParams in
  filter (fun x => ~ to_erase explicitBlanks x) parameters.

Definition too_large (x : Blob * option Blob) : bool :=
  (maxHookParameterKeySize <? vsize x.1) || (maxHookParameterValueSize <? vsize (getFieldVL x.2)).

(** The result: an error, or the parameters of the new hook object. *)
Definition updateHookParameters (setParams defParams oldParams : list HookParameter)
    : TER + option (list HookParameter) :=
  let parameters := merge_params setParams defParams oldParams in
  if 16 <? Z.of_nat (size parameters) then inl tecINTERNAL
  else
    let entries := merge_sort name_le (map_to_list parameters) in
    let entries := filter (fun x => x.2 <> None) entries in
    if existsb too_large entries then inl tecINTERNAL
    else
      let newParameters := (fun x => mkParam (Some x.1) (Some (getFieldVL x.2))) <$> entries in
      inr (if is_nil newParameters then None else Some newParameters).

(** ** [gatherHookParameters] *)

Definition gather_from (ps : list HookParameter) (m : gmap Blob Blob) : gmap Blob Blob :=
  foldl (fun m p => <[pname p := getFieldVL (sfHookParameterValue p)]> m) m ps.

(** A definition always has the field, so there is no error. *)
Definition gatherHookParameters (hookDef : HookDef) (hookObj : HookObj) : gmap Blob Blob :=
  gather_from (default [] (sfHookParameters hookObj)) (gather_from (def_parameters hookDef) ∅).

(** ** The specification *)

(** A parameter with an empty value is none. *)
Definition present (v : option Blob) : option Blob :=
  match v with Some [] | None => None | Some v => Some v end.

(** The last entry of an array for a name, if any. *)
Definition mentioned (n : Blob) (ps : list HookParameter) : option (option Blob) := pull_params ps ∅ !! n.

(** The value a hook sees. *)
Definition effective (defParams own : list HookParameter) (n : Blob) : option Blob :=
  present (gather_from own (gather_from defParams ∅) !! n).

Definition default_value (defParams : list HookParameter) (n : Blob) : option Blob := effective defParams [] n.

(** The value asked for. *)
Definition requested (setParams defParams oldParams : list HookParameter) (n : Blob) : option Blob :=
  match mentioned n setParams with
  | Some (Some v) => present (Some v)
  | Some None => default_value defParams n
  | None => match mentioned n oldParams with
            | Some (Some v) => present (Some v)
            | _ => default_value defParams n
            end
  end.

(** ** Lemmas *)

Lemma lookup_pull ps m n :
  pull_params ps m !! n = match mentioned n ps with Some v => Some v | None => m !! n end.
Proof.
  unfold mentioned, pull_params. revert m. induction ps as [|p ps IH] using rev_ind; intros m.
  - cbn. by rewrite lookup_empty.
  - rewrite !foldl_app. cbn. rewrite !lookup_insert. case_decide; [done|]. apply IH.
Qed.

Lemma lookup_gather ps m n :
  gather_from ps m !! n = match mentioned n ps with Some v => Some (getFieldVL v) | None => m !! n end.
Proof.
  unfold mentioned, pull_params, gather_from. induction ps as [|p ps IH] using rev_ind.
  - cbn. by rewrite lookup_empty.
  - rewrite !foldl_app. cbn. rewrite !lookup_insert. case_decide; [done|]. apply IH.
Qed.

Lemma mentioned_cons n p ps :
  mentioned n (p :: ps) = match mentioned n ps with Some v => Some v | None =>
    if decide (pname p = n) then Some (sfHookParameterValue p) else None end.
Proof.
  unfold mentioned at 1. change (pull_params (p :: ps) ∅) with (pull_params ps (<[pname p := sfHookParameterValue p]> ∅)).
  rewrite lookup_pull. destruct (mentioned n ps); [done|].
  rewrite lookup_insert. case_decide; [done|]. apply lookup_empty.
Qed.

Lemma mentioned_None n ps : n ∉ (pname <$> ps) -> mentioned n ps = None.
Proof.
  induction ps as [|p ps IH]; intros Hn; [done|]. cbn in Hn. apply not_elem_of_cons in Hn as [Hne Hn].
  by rewrite mentioned_cons, IH, decide_False.
Qed.

Lemma mentioned_Some p ps : NoDup (pname <$> ps) -> p ∈ ps -> mentioned (pname p) ps = Some (sfHookParameterValue p).
Proof.
  induction ps as [|q ps IH]; intros Hnd Hin; [by apply not_elem_of_nil in Hin|].
  cbn in Hnd. apply NoDup_cons in Hnd as [Hn Hnd]. rewrite mentioned_cons.
  apply elem_of_cons in Hin as [->|Hin]; [by rewrite mentioned_None, decide_True|]. by rewrite IH.
Qed.

(** What the comparison with all defaults does to one name. *)
Definition settled (d : option (option Blob)) (pv : option (option Blob)) : option (option Blob) :=
  match pv, d with
  | Some v, Some dv => if bool_decide (v = None \/ v = Some (getFieldVL dv)) then None else pv
  | _, _ => pv
  end.

Definition blanked (d : option (option Blob)) (pv : option (option Blob)) : Prop :=
  exists dv, d = Some dv /\ pv = Some (Some []) /\ getFieldVL dv <> [].

Lemma against_default_spec s p n :
  let s' := against_default s p in
  s'.1 !! n = (if decide (pname p = n) then settled (Some (sfHookParameterValue p)) (s.1 !! n) else s.1 !! n) /\
  (n ∈ s'.2 <-> n ∈ s.2 \/ (pname p = n /\ blanked (Some (sfHookParameterValue p)) (s.1 !! n))).
Proof.
  destruct s as [m B]. unfold against_default. set (v := getFieldVL (sfHookParameterValue p)).
  destruct (decide (pname p = n)) as [<-|Hne].
  - cbn [fst snd]. destruct (m !! pname p) as [pv|] eqn:E.
    2: { cbn. rewrite E. split; [done|]. split; [auto|]. by intros [?|(_ & dv & _ & ? & _)]. }
    destruct (bool_decide (pv = None) || bool_decide (pv = Some v)) eqn:Eb.
    + apply orb_true_iff in Eb as [Hpv%bool_decide_eq_true|Hpv%bool_decide_eq_true]; subst pv; cbn [fst snd]; rewrite lookup_delete_eq;
        (split; [unfold settled; by rewrite bool_decide_true by auto|]); (split; [auto|]);
        intros [?|(_ & dv & [= <-] & [= Hv] & Hne)]; done.
    + apply orb_false_iff in Eb as [Hn%bool_decide_eq_false Hv%bool_decide_eq_false].
      assert (settled (Some (sfHookParameterValue p)) (Some pv) = Some pv) as Es.
      { unfold settled. rewrite bool_decide_false; [done|]. by intros [?|?]. }
      case_bool_decide as Hbl; cbn [fst snd]; rewrite E, Es; (split; [done|]).
      * subst pv. rewrite elem_of_union, elem_of_singleton. split; [|tauto]. intros [_|?]; [|auto]. right.
        split; [done|]. exists (sfHookParameterValue p). split; [done|]. split; [done|]. intros Hv'. apply Hv. by rewrite <- Hv'.
      * split; [auto|]. by intros [?|(_ & dv & _ & [= ->] & _)].
  - cbn [fst snd]. destruct (m !! pname p) as [pv|]; [|cbn; split; [done|]; tauto].
    destruct (_ || _); cbn; [rewrite lookup_delete_ne by done; split; [done|]; tauto|].
    case_bool_decide; cbn; [|split; [done|]; tauto]. rewrite elem_of_union, elem_of_singleton. split; [done|].
    split; [intros [->|?]; [done|auto]|tauto].
Qed.

Lemma against_defaults defs s n :
  NoDup (pname <$> defs) ->
  let s' := foldl against_default s defs in
  s'.1 !! n = settled (mentioned n defs) (s.1 !! n) /\
  (n ∈ s'.2 <-> n ∈ s.2 \/ blanked (mentioned n defs) (s.1 !! n)).
Proof.
  revert s. induction defs as [|p defs IH]; intros s Hnd.
  { cbn. unfold settled, blanked. split; [by destruct (s.1 !! n)|]. split; [auto|]. intros [?|(dv & ? & _)]; done. }
  cbn in Hnd. apply NoDup_cons in Hnd as [Hn Hnd]. cbn [foldl].
  destruct (IH (against_default s p) Hnd) as [IH1 IH2]. destruct (against_default_spec s p n) as [S1 S2].
  cbv zeta. rewrite IH1, IH2, S1, S2, mentioned_cons. destruct (decide (pname p = n)) as [<-|En].
  - rewrite mentioned_None by done. split; [by destruct (settled (Some _) _)|].
    unfold blanked at 2. split; [|tauto]. intros [[?|[_ ?]]|(dv & ? & _)]; auto. done.
  - destruct (mentioned n defs); (split; [done|]); tauto.
Qed.

(** The merged map, name by name. *)
Lemma lookup_merge setParams defParams oldParams n :
  NoDup (pname <$> defParams) ->
  merge_params setParams defParams oldParams !! n =
    let pv := match mentioned n setParams with Some v => Some v | None => mentioned n oldParams end in
    match settled (mentioned n defParams) pv with
    | Some None | None => None
    | Some (Some v) => if bool_decide (v = [] /\ mentioned n defParams = None) then None else Some (Some v)
    end.
Proof.
  intros Hnd. unfold merge_params. set (m0 := pull_params setParams (pull_params oldParams ∅)).
  destruct (against_defaults defParams (m0, ∅) n Hnd) as [H1 H2].
  assert (m0 !! n = match mentioned n setParams with Some v => Some v | None => mentioned n oldParams end) as E0.
  { unfold m0. rewrite !lookup_pull, lookup_empty. by destruct (mentioned n setParams), (mentioned n oldParams). }
  destruct (foldl against_default (m0, ∅) defParams) as [P B]. cbn [fst snd] in H1, H2. rewrite E0 in H1, H2.
  cbv zeta. set (pv := match mentioned n setParams with Some v => Some v | None => mentioned n oldParams end) in *. rewrite map_lookup_filter, H1.
  unfold to_erase. destruct (settled (mentioned n defParams) pv) as [[v|]|] eqn:Es; cbn; [| |done].
  - case_bool_decide as Hv.
    + destruct Hv as [-> Hm]. rewrite option_guard_False; [done|]. intros Hf. apply Hf. right. split; [done|].
      intros [?%not_elem_of_empty|(dv & E & _)]%H2; [done|congruence].
    + rewrite option_guard_True; [done|]. intros [?|[[= ->] HnB]]; [done|]. apply HnB, H2. right.
      destruct (mentioned n defParams) as [dv|] eqn:Ed; [|by exfalso; apply Hv]. exists dv. split; [done|].
      unfold settled in Es. destruct pv as [pv|]; [|done]. case_bool_decide as Hb; [done|].
      injection Es as ->. split; [done|]. intros Hdv. apply Hb. right. by rewrite Hdv.
  - rewrite option_guard_False; [done|]. intros Hf. apply Hf. by left.
Qed.

(** ** Reading the result back *)

Lemma mentioned_of_map (m : param_map) (es : list (Blob * option Blob)) n :
  es ≡ₚ map_to_list m ->
  mentioned n ((fun x => mkParam (Some x.1) (Some (getFieldVL x.2))) <$> es) = (fun v => Some (getFieldVL v)) <$> m !! n.
Proof.
  intros Hp. set (f := fun x : Blob * option Blob => mkParam (Some x.1) (Some (getFieldVL x.2))).
  assert (pname <$> (f <$> es) = es.*1) as En by (rewrite <- list_fmap_compose; done).
  assert (NoDup es.*1) as Hnd by (rewrite Hp; apply NoDup_fst_map_to_list).
  destruct (m !! n) as [v|] eqn:E; cbn.
  - change n with (pname (f (n, v))) at 1. rewrite mentioned_Some; [done|by rewrite En|].
    apply list_elem_of_fmap_2. rewrite Hp. by apply elem_of_map_to_list.
  - apply mentioned_None. rewrite En. intros ([n' v] & -> & Hin)%list_elem_of_fmap.
    rewrite Hp in Hin. apply elem_of_map_to_list in Hin. cbn in E. congruence.
Qed.


