(* ===== verification/DirWalk.v ===== *)
(** * DirWalk: visiting the entries of a directory ([ledger/impl/View.cpp])

    [cdirFirst] and [cdirNext] move a cursor (a page and an index) through a
    directory; [dirIsEmpty] looks at the root only.  The recursion of
    [internalDirNext] goes from page to page and has no bound of its own: [fuel]
    is the number of pages it may visit, [Undef] stands for a chain without end.
    On a well-formed directory a walk ends and lists each key once. *)

From stdpp Require Import base numbers list option gmap sorting.
From Stdlib Require Import ZArith Lia.
From S2P Require Import Prelude Directory.

Local Open Scope Z_scope.

Abbreviation cursor := (DirNode * nat)%type (only parsing).

(** The next entry and the cursor behind it; [None] at the end. *)
Fixpoint internalDirNext (fuel : nat) (d : Dir) (page : DirNode) (index : nat) : dres (option (Z * cursor)) :=
  match fuel with
  | O => Undef
  | S fuel =>
    match sfIndexes page !! index with
    | Some entry => Val (Some (entry, (page, S index)))
    | None =>
      let next := sfIndexNext page in
      if next =? 0 then Val None
      else match d !! next with
           | None => Val None
           | Some page => internalDirNext fuel d page 0
           end
    end
  end.

Definition internalDirFirst (fuel : nat) (d : Dir) : dres (option (Z * cursor)) :=
  match d !! rootPage with
  | None => Val None
  | Some page => internalDirNext fuel d page 0
  end.

Definition dirIsEmpty (d : Dir) : bool :=
  match d !! rootPage with
  | None => true
  | Some sleNode => if negb (is_nil (sfIndexes sleNode)) then false else sfIndexNext sleNode =? 0
  end.

(** [do { use(entry); } while (cdirNext(...))]: the entries in the order of the
    walk; [rounds] bounds the loop. *)
Fixpoint walk_on (rounds fuel : nat) (d : Dir) (entry : Z) (c : cursor) : dres (list Z) :=
  match rounds with
  | O => Undef
  | S rounds =>
    next ← internalDirNext fuel d c.1 c.2;
    match next with
    | None => Val [entry]
    | Some (entry', c') => l ← walk_on rounds fuel d entry' c'; Val (entry :: l)
    end
  end.

(** All entries of the directory: as many rounds as there are keys, as many pages as
    there are. *)
Definition entries_of (d : Dir) : nat := length (map_to_list d ≫= fun x => sfIndexes x.2).

Definition dir_walk (d : Dir) : dres (list Z) :=
  first ← internalDirFirst (S (size d)) d;
  match first with
  | None => Val []
  | Some (entry, c) => walk_on (entries_of d) (S (size d)) d entry c
  end.

(** ** The walk of a well-formed directory *)

Definition keys (d : Dir) (pages : list Z) : list Z := pages ≫= fun p => default [] (idx d p).

(** A cursor on page [x] with the pages [r] still to come. *)
Record cursor_at (d : Dir) (x : Z) (r : list Z) (c : cursor) : Prop := {
  ca_page : d !! x = Some c.1;
  ca_path : path d (x :: r ++ [0]);
  ca_rest y : y ∈ r -> y <> 0 /\ is_Some (d !! y)
}.

Definition to_come (d : Dir) (r : list Z) (c : cursor) : list Z := drop c.2 (sfIndexes c.1) ++ keys d r.

Lemma next_spec fuel d x r c :
  cursor_at d x r c -> (length r < fuel)%nat ->
  match to_come d r c with
  | [] => internalDirNext fuel d c.1 c.2 = Val None
  | e :: l => exists x' r' c', internalDirNext fuel d c.1 c.2 = Val (Some (e, c')) /\
      cursor_at d x' r' c' /\ (length r' <= length r)%nat /\ to_come d r' c' = l
  end.
Proof.
  revert fuel x c. induction r as [|y r IH]; intros fuel x [node i] [Hpage Hpath Hrest] Hfuel;
    (destruct fuel as [|fuel]; [cbn in Hfuel; lia|]); unfold to_come; cbn [internalDirNext fst snd] in *;
    destruct (sfIndexes node !! i) as [e|] eqn:Ei.
  1,3: rewrite (drop_S _ _ _ Ei); cbn [app]; eexists x, _, (node, S i); (split; [done|]); (split; [done|]);
    (split; [apply le_n|]); done.
  - rewrite drop_ge by (by apply lookup_ge_None). cbn. destruct Hpath as [[Hn _] _].
    unfold nxt in Hn. rewrite Hpage in Hn. injection Hn as ->. done.
  - rewrite drop_ge by (by apply lookup_ge_None). cbn [app]. destruct Hpath as [[Hn _] Hpath].
    unfold nxt in Hn. rewrite Hpage in Hn. injection Hn as ->.
    destruct (Hrest y) as [Hy0 [ny Hy]]; [by left|]. rewrite (proj2 (Z.eqb_neq y 0) Hy0), Hy.
    assert (cursor_at d y r (ny, 0%nat)) as Hc.
    { split; [done|done|]. intros z Hz. apply Hrest. by right. }
    specialize (IH fuel y (ny, 0%nat) Hc ltac:(cbn in Hfuel; lia)). cbn [fst snd] in IH.
    assert (keys d (y :: r) = to_come d r (ny, 0%nat)) as ->.
    { unfold keys, to_come, idx. cbn. rewrite Hy. cbn. by rewrite drop_0. }
    destruct (to_come d r (ny, 0%nat)) as [|e l]; [done|].
    destruct IH as (x' & r' & c' & E & Hc' & Hlen & Ht). exists x', r', c'. cbn [length].
    split; [done|]. split; [done|]. split; [lia|done].
Qed.

Lemma walk_on_spec rounds fuel d x r c entry :
  cursor_at d x r c -> (length r < fuel)%nat -> (length (to_come d r c) < rounds)%nat ->
  walk_on rounds fuel d entry c = Val (entry :: to_come d r c).
Proof.
  revert x r c entry. induction rounds as [|rounds IH]; intros x r c entry Hc Hfuel Hr; [lia|].
  pose proof (next_spec fuel d x r c Hc Hfuel) as Hn. cbn [walk_on].
  destruct (to_come d r c) as [|e l] eqn:Et; [by rewrite Hn|].
  destruct Hn as (x' & r' & c' & -> & Hc' & Hlen & <-). cbn [mbind res_bind].
  rewrite (IH x' r' c' e Hc'); [done|lia|cbn in Hr; lia].
Qed.

Lemma wf_pages_perm d rest :
  dir_wf d rest -> map_to_list d ≡ₚ (fun p => (p, default (mkNode [] 0 0) (d !! p))) <$> (0 :: rest).
Proof.
  intros Hd. assert (NoDup (0 :: rest)) as Hnd.
  { pose proof (wf_order _ _ Hd) as Ho. clear Hd. induction Ho as [|x l Hs IH Hx]; constructor; [|done].
    intros Hin. rewrite Forall_forall in Hx. specialize (Hx x Hin). lia. }
  apply NoDup_Permutation; [apply NoDup_map_to_list| |].
  { apply NoDup_fmap_2_strong; [|done]. intros p q _ _ [= -> _]. done. }
  intros [p n]. rewrite elem_of_map_to_list, list_elem_of_fmap. split.
  - intros E. exists p. rewrite E. split; [done|]. apply (wf_pages _ _ Hd). unfold idx. rewrite E. cbn. eauto.
  - intros (q & [= -> ->] & Hq). destruct (wf_lookup d rest q Hd Hq) as [nq ->]. done.
Qed.

Lemma wf_entries d rest : dir_wf d rest -> entries_of d = length (keys d (0 :: rest)).
Proof.
  intros Hd. unfold entries_of. rewrite (wf_pages_perm d rest Hd). unfold keys.
  generalize (0 :: rest). intros l. induction l as [|p l IH]; [done|]. cbn. rewrite !length_app. f_equal; [|apply IH].
  unfold idx. by destruct (d !! p).
Qed.

Lemma wf_size d rest : dir_wf d rest -> size d = length (0 :: rest).
Proof. intros Hd. rewrite <- length_map_to_list, (wf_pages_perm d rest Hd), length_fmap. done. Qed.

(** The keys in the order of the pages. *)
Lemma keys_elem d rest k : dir_wf d rest -> k ∈ keys d (0 :: rest) <-> exists p, has d p k.
Proof.
  intros Hd. unfold keys. rewrite list_elem_of_bind. unfold has. split.
  - intros (p & Hk & Hp). exists p. destruct (proj2 (wf_pages _ _ Hd p) Hp) as [l E]. rewrite E in Hk. eauto.
  - intros (p & l & E & Hk). exists p. rewrite E. split; [done|]. apply (wf_pages _ _ Hd). eauto.
Qed.

Lemma keys_NoDup d rest : dir_wf d rest -> NoDup (keys d (0 :: rest)).
Proof.
  intros Hd. assert (NoDup (0 :: rest)) as Hnd.
  { rewrite <- (list_fmap_id (0 :: rest)). pose proof (NoDup_fst_map_to_list d) as H.
    rewrite (wf_pages_perm d rest Hd), <- list_fmap_compose in H. exact H. }
  unfold keys. generalize (0 :: rest) Hnd. clear Hnd. intros l. induction l as [|p l IH]; intros Hnd; [constructor|].
  apply NoDup_cons in Hnd as [Hp Hnd]. cbn. apply NoDup_app. split; [|split; [|by apply IH]].
  - destruct (idx d p) as [lp|] eqn:E; [by apply (wf_nodup _ _ Hd p)|constructor].
  - intros k Hk (q & Hkq & Hq)%list_elem_of_bind.
    destruct (idx d p) as [lp|] eqn:Ep, (idx d q) as [lq|] eqn:Eq; try by apply not_elem_of_nil in Hk || apply not_elem_of_nil in Hkq.
    assert (p = q) as -> by (apply (wf_unique _ _ Hd p q k); [exists lp|exists lq]; done). done.
Qed.

Lemma dir_walk_spec d :
  dir_ok d -> exists l, dir_walk d = Val l /\ NoDup l /\ forall k, k ∈ l <-> exists p, has d p k.
Proof.
  intros [->|[rest Hd]].
  { exists []. split; [done|]. split; [constructor|]. intros k. split; [by intros ?%not_elem_of_nil|].
    intros [p Hp%no_keys_empty]. done. }
  exists (keys d (0 :: rest)). split; [|split; [by apply keys_NoDup|intros k; by apply keys_elem]].
  unfold dir_walk, internalDirFirst, rootPage. destruct (wf_lookup d rest 0 Hd) as [n0 E0]; [by left|]. rewrite E0.
  assert (cursor_at d 0 rest (n0, 0%nat)) as Hc.
  { split; [done|apply (wf_ring _ _ Hd)|]. intros y Hy. split.
    - intros ->. destruct (sorted_not_in [] rest 0 (wf_order _ _ Hd)) as [_ Hn]. done.
    - destruct (wf_lookup d rest y Hd) as [ny E]; [by right|]. eauto. }
  assert (to_come d rest (n0, 0%nat) = keys d (0 :: rest)) as Ek.
  { unfold to_come, keys, idx. cbn. rewrite E0. cbn. by rewrite drop_0. }
  rewrite (wf_entries d rest Hd), (wf_size d rest Hd), <- Ek.
  pose proof (next_spec (S (length (0 :: rest))) d 0 rest (n0, 0%nat) Hc ltac:(cbn; lia)) as Hn. cbn [fst snd] in Hn.
  destruct (to_come d rest (n0, 0%nat)) as [|e l]; [by rewrite Hn|].
  destruct Hn as (x' & r' & c' & -> & Hc' & Hlen & <-). cbn [mbind res_bind].
  apply (walk_on_spec _ _ _ x'); [done|cbn; lia|cbn; lia].
Qed.

(** Walking a well-formed directory ends, within as many steps as there are
    pages and keys, and visits every key of the directory exactly once. *)
Theorem dir_walk_complete d :
  dir_ok d -> exists l, dir_walk d = Val l /\ NoDup l /\ forall k, k ∈ l <-> exists p, has d p k.
Proof. apply dir_walk_spec. Qed.

Lemma dir_walk_complete_witness :
  exists l, dir_walk sample_dir = Val l /\ NoDup l /\ forall k, k ∈ l <-> exists p, has sample_dir p k.
Proof. apply dir_walk_complete. exact sample_dir_ok. Defined.
