(* ===== verification/Namespace.v ===== *)
(** * Namespace: deleting all hook state of a namespace ([app/tx/impl/SetHook.cpp])

    [destroyNamespace] collects the entries of the namespace's directory, removes
    each from the directory and from the ledger, and updates the account's state
    count and list of namespaces.  On a ledger that represents a store it succeeds
    and the new ledger represents the store without the namespace. *)

From stdpp Require Import base numbers list option gmap sorting.
From Stdlib Require Import ZArith Lia.
From S2P Require Import Prelude Runtime Directory DirWalk Context StateLedger.

Local Open Scope Z_scope.

Section destroyNamespace.
Context `{Keylets}.

(** The [do]-[while] loop that collects the keys; [None] for an entry that is not a
    hook state of the ledger. *)
Fixpoint collect (rounds fuel : nat) (l : Ledger) (d : Dir) (entry : Z) (c : cursor) : dres (option (list Z)) :=
  match rounds with
  | O => Undef
  | S rounds =>
    match states l !! entry with
    | None => Val None
    | Some _ =>
      next ← internalDirNext fuel d c.1 c.2;
      match next with
      | None => Val (Some [entry])
      | Some (entry', c') => rest ← collect rounds fuel l d entry' c'; Val (option_map (cons entry) rest)
      end
    end
  end.

(** The deletions; the count wraps like the [uint32_t] it is. *)
Fixpoint delete_items (l : Ledger) (dk : uint256) (toDelete : list Z) (stateCount : Z) : dres (TER * Ledger * Z) :=
  match toDelete with
  | [] => Val (tesSUCCESS, l, stateCount)
  | itemKey :: rest =>
    match states l !! itemKey with
    | None => delete_items l dk rest stateCount
    | Some sleItem =>
      '(ok, d) ← dirRemove (dir_of l dk) (sfOwnerNode sleItem) itemKey false;
      let l := set_dir dk d l in
      if negb ok then Val (tefBAD_LEDGER, l, stateCount)
      else delete_items (set_states (delete itemKey (states l)) l) dk rest (u32 (stateCount - 1))
    end
  end.

(** The account object is changed in place before the first return. *)
Definition destroyNamespace (l : Ledger) (acc : AccountID) (ns : uint256) : dres (TER * Ledger) :=
  match accounts l !! acc with
  | None => Val (tefBAD_LEDGER, l)
  | Some root =>
    let root := match sfHookNamespaces root with
                | None => root
                | Some _ => (removeHookNamespaceEntry root ns).1
                end in
    let l := set_account acc root l in
    let dk := hookStateDir_key acc ns in
    let d := dir_of l dk in
    if negb (dir_exists d) then Val (tesSUCCESS, l)
    else if dirIsEmpty d then Val (tesSUCCESS, set_dir dk (delete rootPage d) l)
    else
      first ← internalDirFirst (S (size d)) d;
      match first with
      | None => Val (tefINTERNAL, l)
      | Some (entry, c) =>
        let oldStateCount := sfHookStateCount root in
        toDelete ← collect (entries_of d) (S (size d)) l d entry c;
        match toDelete with
        | None => Val (tefBAD_LEDGER, l)
        | Some toDelete =>
          '(ter, l, stateCount) ← delete_items l dk toDelete oldStateCount;
          if negb (bool_decide (ter = tesSUCCESS)) then Val (ter, l)
          else if oldStateCount <? stateCount then Val (tefBAD_LEDGER, l)
          else Val (tesSUCCESS, set_account acc (set_state_count stateCount root) l)
        end
      end
  end.

(** ** The loops *)

Lemma collect_walk rounds fuel l d entry c ks :
  walk_on rounds fuel d entry c = Val ks -> (forall k, k ∈ ks -> is_Some (states l !! k)) ->
  collect rounds fuel l d entry c = Val (Some ks).
Proof.
  revert entry c ks. induction rounds as [|rounds IH]; intros entry c ks E Hst; [done|]. cbn [walk_on collect] in *.
  destruct (internalDirNext fuel d c.1 c.2) as [[[entry' c']|]| |]; cbn [mbind res_bind] in *; [|injection E as <-|done..].
  - destruct (walk_on rounds fuel d entry' c') as [rest| |] eqn:Ew; cbn in E; [injection E as <-|done..].
    destruct (Hst entry) as [st ->]; [by left|]. rewrite (IH entry' c' rest Ew); [done|].
    intros k Hk. apply Hst. by right.
  - destruct (Hst entry) as [st ->]; [by left|]. done.
Qed.

(** What the deletions leave. *)
Definition pruned (l l' : Ledger) (dk : uint256) (ks : list Z) : Prop :=
  accounts l' = accounts l /\
  (forall x, states l' !! x = if bool_decide (x ∈ ks) then None else states l !! x) /\
  (forall dk', dk' <> dk -> dir_of l' dk' = dir_of l dk') /\
  dir_ok (dir_of l' dk) /\
  (forall p x, has (dir_of l' dk) p x <-> has (dir_of l dk) p x /\ x ∉ ks).

Lemma delete_items_spec ks l dk n :
  NoDup ks -> dir_ok (dir_of l dk) ->
  (forall k, k ∈ ks -> exists st, states l !! k = Some st /\ has (dir_of l dk) (sfOwnerNode st) k) ->
  Z.of_nat (length ks) <= n < 2 ^ 32 ->
  exists l', delete_items l dk ks n = Val (tesSUCCESS, l', n - Z.of_nat (length ks)) /\ pruned l l' dk ks.
Proof.
  revert l n. induction ks as [|k ks IH]; intros l n Hnd Hok Hks Hn.
  { exists l. cbn. rewrite Z.sub_0_r. split; [done|]. split; [done|]. split; [intros x; by rewrite bool_decide_false by apply not_elem_of_nil|].
    split; [done|]. split; [done|]. intros p x. pose proof (not_elem_of_nil x). tauto. }
  apply NoDup_cons in Hnd as [Hk Hnd]. destruct (Hks k) as (st & Est & Hh); [by left|]. cbn [delete_items]. rewrite Est.
  destruct (dirRemove_spec _ _ _ Hok Hh) as (d' & -> & Hok' & Hrem). cbn [mbind res_bind negb]. cbn [length] in Hn.
  set (l1 := set_states (delete k (states l)) (set_dir dk d' l)).
  assert (forall dk', dir_of l1 dk' = if decide (dk = dk') then d' else dir_of l dk') as Ed.
  { intros dk'. change (dir_of l1 dk') with (dir_of (set_dir dk d' l) dk'). apply dir_of_set. }
  assert (dir_of l1 dk = d') as Ed1 by (by rewrite Ed, decide_True).
  rewrite u32_small by lia. change (set_states _ _) with l1.
  destruct (IH l1 (n - 1)) as (l' & E & Ha & Hs & Hd & Hok2 & Hh2); [done|by rewrite Ed1| |lia|].
  { intros k' Hk'. destruct (Hks k') as (st' & Est' & Hh'); [by right|]. exists st'. rewrite Ed1. split.
    - cbn. rewrite lookup_delete_ne; [done|]. intros ->. done.
    - apply Hrem. split; [done|]. intros ->. done. }
  exists l'. split; [rewrite E; cbn [length]; do 2 f_equal; lia|]. split; [done|]. split; [|split; [|split; [done|]]].
  - intros x. rewrite Hs. cbn [states set_states l1]. rewrite lookup_delete.
    destruct (decide (k = x)) as [->|Hne].
    { rewrite (bool_decide_true (x ∈ x :: ks)) by (by left). by case_bool_decide. }
    assert (x ∈ k :: ks <-> x ∈ ks) as Hx by (rewrite elem_of_cons; naive_solver). by rewrite (bool_decide_ext _ _ Hx).
  - intros dk' Hne. rewrite Hd, Ed by done. by rewrite decide_False.
  - intros p x. rewrite Hh2, Ed1, (Hrem p x), not_elem_of_cons. tauto.
Qed.

(** ** Counting *)

(** The store without a namespace. *)
Definition without (a : AccountID) (n : uint256) (σ : store) : store :=
  filter (fun x => ~ (x.1.1.1 = a /\ x.1.1.2 = n)) σ.

Lemma lookup_without a n σ a' n' k :
  without a n σ !! (a', n', k) = if decide (a' = a /\ n' = n) then None else σ !! (a', n', k).
Proof.
  unfold without. rewrite map_lookup_filter. destruct (σ !! (a', n', k)) as [v|]; cbn; [|by case_decide].
  case_decide as E; [by rewrite option_guard_False by tauto|by rewrite option_guard_True].
Qed.

Lemma owned_without_other a n σ a' : a' <> a -> owned a' (without a n σ) = owned a' σ.
Proof.
  intros Hne. apply map_eq. intros [[a0 n0] k0]. unfold owned. rewrite !map_lookup_filter, lookup_without.
  case_decide as E; [|done]. destruct E as [-> ->]. cbn. destruct (σ !! (a, n, k0)); cbn; [|done].
  by rewrite option_guard_False.
Qed.

(** The keys of the namespace's states are as many as the entries that go. *)
Lemma owned_without a n σ (ks : list Z) :
  NoDup ks -> (forall x, x ∈ ks <-> exists k, x = hookState_key a k n /\ is_Some (σ !! (a, n, k))) ->
  (size (owned a (without a n σ)) + length ks = size (owned a σ))%nat.
Proof.
  intros Hnd Hks. set (gone := filter (fun x : Z * Z * Z * Blob => x.1.1.1 = a /\ x.1.1.2 = n) σ).
  assert (length ks = size gone) as ->.
  { rewrite <- length_map_to_list, <- (length_fmap (fun x : Z * Z * Z * Blob => hookState_key a x.1.2 n) (map_to_list gone)).
    apply Permutation_length, NoDup_Permutation; [done| |].
    - apply NoDup_fmap_2_strong; [|apply NoDup_map_to_list].
      intros [[[a1 n1] k1] v1] [[[a2 n2] k2] v2] Hx%elem_of_map_to_list Hy%elem_of_map_to_list (_ & Ek & _)%hookState_inj.
      apply map_lookup_filter_Some in Hx as [Hx [E1 E2]], Hy as [Hy [E3 E4]]. cbn in *. subst. congruence.
    - intros x. rewrite Hks, list_elem_of_fmap. split.
      + intros (k & -> & [v E]). exists (a, n, k, v). split; [done|]. apply elem_of_map_to_list. by apply map_lookup_filter_Some.
      + intros ([[[a1 n1] k1] v1] & -> & [E [E1 E2]]%elem_of_map_to_list%map_lookup_filter_Some). cbn in *. subst. eauto. }
  rewrite <- map_size_disj_union.
  - f_equal. apply map_eq. intros [[a0 n0] k0]. apply option_eq. intros v. rewrite lookup_union_Some_raw.
    unfold owned, gone. rewrite !map_lookup_filter_Some, !map_lookup_filter_None, lookup_without. cbn.
    destruct (decide (a0 = a /\ n0 = n)) as [[-> ->]|Hne]; [|naive_solver].
    split; [naive_solver|]. intros [E _]. right. split; [by left|]. done.
  - apply map_disjoint_spec. intros [[a0 n0] k0] v w [E1 _]%map_lookup_filter_Some [_ E2]%map_lookup_filter_Some.
    rewrite lookup_without, decide_True in E1 by done. done.
Qed.

(** The list of namespaces afterwards, whether the namespace was in it or not. *)
Lemma drop_namespace_spec r ns :
  NoDup (spaces_of r) ->
  let r' := match sfHookNamespaces r with None => r | Some _ => (removeHookNamespaceEntry r ns).1 end in
  NoDup (spaces_of r') /\ (forall n, n ∈ spaces_of r' <-> n <> ns /\ n ∈ spaces_of r) /\
  sfHookStateCount r' = sfHookStateCount r /\ sfOwnerCount r' = sfOwnerCount r /\ sfBalance r' = sfBalance r.
Proof.
  intros Hnd. destruct (decide (ns ∈ spaces_of r)) as [Hin|Hn].
  { destruct (sfHookNamespaces r) as [vec|] eqn:E.
    - apply removeHookNamespaceEntry_spec; done.
    - unfold spaces_of in Hin. rewrite E in Hin. by apply not_elem_of_nil in Hin. }
  assert (forall n, n ∈ spaces_of r <-> n <> ns /\ n ∈ spaces_of r) as Hsame by (intros n; split; [intros ?; split; [congruence|done]|tauto]).
  destruct (sfHookNamespaces r) as [vec|] eqn:E; [|cbn; auto]. unfold removeHookNamespaceEntry. rewrite E.
  destruct (is_nil vec) eqn:Enil.
  { destruct vec; [|done]. cbn. unfold spaces_of in *. rewrite E in *. auto. }
  assert (filter (fun u => u <> ns) vec = vec) as Ef.
  { apply filter_all. intros x Hx ->. apply Hn. unfold spaces_of. by rewrite E. }
  assert (NoDup vec) as Hndv by (unfold spaces_of in Hnd; by rewrite E in Hnd).
  assert ((length (merge_sort Z.le (remove_dups vec)) =? length vec)%nat = true) as Elen.
  { apply Nat.eqb_eq. rewrite merge_sort_Permutation. apply Permutation_length, NoDup_Permutation;
      [apply NoDup_remove_dups|done|intros x; apply elem_of_remove_dups]. }
  rewrite Ef, Elen. cbn. auto.
Qed.

(** ** The refinement *)

Lemma rep_pruned l l' σ a n r r' ks :
  rep l σ -> accounts l !! a = Some r -> pruned (set_account a r' l) l' (hookStateDir_key a n) ks ->
  (forall x, x ∈ ks <-> exists k, x = hookState_key a k n /\ is_Some (σ !! (a, n, k))) -> NoDup ks ->
  sfHookStateCount r' = sfHookStateCount r - Z.of_nat (length ks) -> sfOwnerCount r' = sfOwnerCount r ->
  NoDup (spaces_of r') -> (forall x, x ∈ spaces_of r' <-> x <> n /\ x ∈ spaces_of r) ->
  rep l' (without a n σ).
Proof.
  intros Hrep Er (Ha & Hst & Hdir & Hok & Hhas) Hks Hnd Hcount Hown Hnds Hspaces.
  pose proof Hrep as [Rs Rok Rd Rc Ro Rsp Rnd Ra].
  assert (forall a' n' k, hookState_key a' k n' ∈ ks <-> a' = a /\ n' = n /\ is_Some (σ !! (a, n, k))) as Hin.
  { intros a' n' k. rewrite Hks. split; [|intros (-> & -> & ?); eauto].
    intros (k' & (-> & -> & ->)%hookState_inj & ?). done. }
  assert (forall dk, dir_of (set_account a r' l) dk = dir_of l dk) as Ed by done.
  cbn [accounts states set_account] in Ha, Hst. setoid_rewrite Ed in Hdir. rewrite Ed in Hhas.
  split.
  - intros a' n' k. rewrite Hst, lookup_without. case_bool_decide as Hx.
    + apply Hin in Hx as (-> & -> & _). by rewrite decide_True.
    + rewrite Rs. case_decide as E; [|done]. destruct E as [-> ->]. rewrite Hin in Hx.
      destruct (σ !! (a, n, k)) eqn:Eσ; [|done]. exfalso. apply Hx. eauto.
  - intros a' n'. destruct (decide (hookStateDir_key a' n' = hookStateDir_key a n)) as [->|Hne]; [done|]. by rewrite Hdir.
  - intros a' n' pg x. destruct (decide (hookStateDir_key a' n' = hookStateDir_key a n)) as [E|Hne].
    + rewrite E, Hhas. apply hookStateDir_inj in E as [-> ->]. rewrite Rd. split.
      * intros [(k & st & -> & E & Ep) Hx]. exists k, st. rewrite Hst, bool_decide_false by done. done.
      * intros (k & st & -> & E & Ep). rewrite Hst in E. case_bool_decide; [done|]. split; [by exists k, st|done].
    + rewrite Hdir, Rd by done. split; intros (k & st & -> & E & Ep); exists k, st; (split; [done|]); (split; [|done]).
      * rewrite Hst, bool_decide_false; [done|]. intros (-> & -> & _)%Hin. done.
      * rewrite Hst in E. by case_bool_decide.
  - intros a' r0. rewrite Ha, lookup_insert. case_decide as E.
    + intros [= <-]. subst a'. rewrite Hcount, (Rc a r Er), <- (owned_without a n σ ks Hnd Hks). lia.
    + intros E0. rewrite (Rc a' r0 E0), owned_without_other by done. done.
  - intros a' r0. rewrite Ha, lookup_insert. case_decide as E; [|apply Ro].
    intros [= <-]. pose proof (Ro a r Er). pose proof (Rc a r Er). lia.
  - intros a' r0 n'. rewrite Ha, lookup_insert. case_decide as E.
    + intros [= <-]. subst a'. rewrite Hspaces, (Rsp a r n' Er). setoid_rewrite lookup_without. split.
      * intros [Hne [k Hk]]. exists k. by rewrite decide_False by tauto.
      * intros [k Hk]. case_decide as E'; [by destruct Hk|]. split; [|eauto]. intros ->. tauto.
    + intros E0. rewrite (Rsp a' r0 n' E0). setoid_rewrite lookup_without.
      split; intros [k Hk]; exists k; case_decide as E'; try done; destruct E'; congruence.
  - intros a' r0. rewrite Ha, lookup_insert. case_decide as E; [by intros [= <-]|apply Rnd].
  - intros a' n' k Hk. rewrite lookup_without in Hk. case_decide; [by destruct Hk|].
    rewrite Ha, lookup_insert. case_decide; eauto.
Qed.

Lemma destroyNamespace_spec l σ a r n :
  rep l σ -> accounts l !! a = Some r ->
  exists l', destroyNamespace l a n = Val (tesSUCCESS, l') /\ rep l' (without a n σ) /\
    sfOwnerCount <$> accounts l' !! a = Some (sfOwnerCount r) /\
    (forall a', a' <> a -> accounts l' !! a' = accounts l !! a').
Proof.
  intros Hrep Er. pose proof Hrep as [Rs Rok Rd Rc Ro Rsp Rnd Ra]. unfold destroyNamespace. rewrite Er.
  pose proof (drop_namespace_spec r n (Rnd a r Er)) as (N1 & S1 & C1 & O1 & B1). cbv zeta in *.
  set (r1 := match sfHookNamespaces r with Some _ => _ | None => r end) in *.
  set (dk := hookStateDir_key a n). set (l1 := set_account a r1 l). change (dir_of l1 dk) with (dir_of l dk).
  destruct (dir_walk_spec (dir_of l dk) (Rok a n)) as (ks & Ew & Hnd & Hks).
  assert (forall x, x ∈ ks <-> exists k, x = hookState_key a k n /\ is_Some (σ !! (a, n, k))) as Hkeys.
  { intros x. rewrite Hks. split.
    - intros [p (k & st & -> & E & _)%Rd].
      exists k. split; [done|]. rewrite <- Rs, E. cbn. eauto.
    - intros (k & -> & Hk). rewrite <- Rs in Hk. apply fmap_is_Some in Hk as [st E]. exists (sfOwnerNode st). apply Rd. eauto. }
  destruct (dir_exists (dir_of l dk)) eqn:Ex; cbn [negb].
  2: { exists l1. split; [done|]. split; [|split; [cbn; rewrite lookup_insert_eq; cbn; by rewrite O1|intros a' Hne; cbn; by rewrite lookup_insert_ne]].
       assert (ks = []) as ->.
       { destruct ks as [|k ks]; [done|]. exfalso. destruct (proj1 (Hks k)) as [p Hp]; [by left|].
         assert (dir_exists (dir_of l dk) = true); [|congruence]. apply dir_exists_ok; [apply Rok|eauto]. }
       apply (rep_pruned l _ σ a n r r1 []); try done; [|cbn; lia].
       split; [done|]. split; [intros x; by rewrite bool_decide_false by apply not_elem_of_nil|]. split; [done|].
       split; [apply Rok|]. intros p x. pose proof (not_elem_of_nil x). tauto. }
  apply dir_exists_ok in Ex as (p0 & k0 & Hp0); [|apply Rok].
  assert (ks <> []) as Hne by (intros ->; apply (not_elem_of_nil k0), Hks; eauto).
  unfold dir_walk in Ew. destruct (internalDirFirst _ (dir_of l dk)) as [[[entry c]|]| |] eqn:Ef; cbn in Ew; [|congruence|done..].
  assert (dirIsEmpty (dir_of l dk) = false) as ->.
  { unfold dirIsEmpty, internalDirFirst in *. destruct (dir_of l dk !! rootPage) as [root|] eqn:E0; [|done].
    destruct (sfIndexes root) eqn:Ei; cbn; [|done]. cbn in Ef. rewrite Ei in Ef. cbn in Ef. by destruct (sfIndexNext root =? 0). }
  cbn [mbind res_bind]. rewrite (collect_walk _ _ l1 _ entry c ks Ew).
  2: { intros x (k & -> & Hk)%Hkeys. cbn. rewrite <- Rs in Hk. by apply fmap_is_Some in Hk. }
  cbn [mbind res_bind].
  pose proof (owned_without a n σ ks Hnd Hkeys) as Hsz. pose proof (Rc a r Er) as Ec. pose proof (Ro a r Er) as Eo.
  destruct (delete_items_spec ks l1 dk (sfHookStateCount r1)) as (l' & -> & Hp); [done|apply Rok| |lia|].
  { intros x (k & -> & Hk)%Hkeys. rewrite <- Rs in Hk. apply fmap_is_Some in Hk as [st E]. exists st. split; [done|]. apply Rd. eauto. }
  cbn [mbind res_bind]. rewrite bool_decide_true by done. cbn [negb]. rewrite (proj2 (Z.ltb_ge _ _)) by lia.
  eexists. split; [done|]. destruct Hp as (Ha' & Hst' & Hp). split.
  - eapply (rep_pruned l _ σ a n r (set_state_count (sfHookStateCount r1 - Z.of_nat (length ks)) r1) ks); try done; [|cbn; lia].
    split; [cbn; rewrite Ha'; cbn; by rewrite insert_insert_eq|]. split; [exact Hst'|exact Hp].
  - split; [cbn; rewrite lookup_insert_eq; cbn; by rewrite O1|].
    intros a' Hne'. cbn. rewrite lookup_insert_ne, Ha' by done. cbn. by rewrite lookup_insert_ne.
Qed.

(** What [destroyNamespace] leaves alone, whatever it returns. *)
Lemma delete_items_frame l dk ks n ter l' n' :
  delete_items l dk ks n = Val (ter, l', n') ->
  accounts l' = accounts l /\ hooks l' = hooks l /\ definitions l' = definitions l /\ owner_dirs l' = owner_dirs l /\ fees l' = fees l.
Proof.
  revert l n. induction ks as [|k ks IH]; intros l n; cbn [delete_items]; [by intros [= _ <- _]|].
  destruct (states l !! k) as [st|]; [|apply IH]. destruct (dirRemove _ _ _ _) as [[ok d]| |]; [|done..]. cbn [mbind res_bind].
  destruct ok; cbn [negb]; [intros E; exact (IH _ _ E)|by intros [= _ <- _]].
Qed.

Definition same_owner (a : AccountID) (m m' : gmap AccountID AccountRoot) : Prop :=
  forall b, match m !! b with
    | Some r => exists r', m' !! b = Some r' /\ sfOwnerCount r' = sfOwnerCount r /\ sfBalance r' = sfBalance r /\ (b <> a -> r' = r)
    | None => m' !! b = None
    end.

Lemma same_owner_refl a m : same_owner a m m.
Proof. intros b. destruct (m !! b) as [r|]; [by exists r|done]. Qed.

Lemma same_owner_trans a m m1 m2 : same_owner a m m1 -> same_owner a m1 m2 -> same_owner a m m2.
Proof.
  intros H1 H2 b. specialize (H1 b). specialize (H2 b). destruct (m !! b) as [r|]; [|by rewrite H1 in H2].
  destruct H1 as (r1 & E1 & O1 & B1 & S1). rewrite E1 in H2. destruct H2 as (r2 & E2 & O2 & B2 & S2).
  exists r2. split; [done|]. split; [congruence|]. split; [congruence|]. intros Hne. rewrite S2, S1; done.
Qed.

Lemma same_owner_insert a r r' m :
  m !! a = Some r -> sfOwnerCount r' = sfOwnerCount r -> sfBalance r' = sfBalance r -> same_owner a m (<[a := r']> m).
Proof.
  intros E Ho Hb b. destruct (decide (a = b)) as [->|Hne].
  - rewrite E, lookup_insert_eq. by exists r'.
  - rewrite lookup_insert_ne by done. destruct (m !! b) as [rb|]; [by exists rb|done].
Qed.

Lemma removeHookNamespaceEntry_owner r ns :
  sfOwnerCount (removeHookNamespaceEntry r ns).1 = sfOwnerCount r /\ sfBalance (removeHookNamespaceEntry r ns).1 = sfBalance r.
Proof. unfold removeHookNamespaceEntry. by repeat case_match. Qed.

Lemma destroyNamespace_frame l a n ter l' :
  destroyNamespace l a n = Val (ter, l') ->
  hooks l' = hooks l /\ definitions l' = definitions l /\ owner_dirs l' = owner_dirs l /\ fees l' = fees l /\
  same_owner a (accounts l) (accounts l').
Proof.
  unfold destroyNamespace. destruct (accounts l !! a) as [r|] eqn:Er; [|intros [= _ <-]; by auto using same_owner_refl].
  set (r1 := match sfHookNamespaces r with Some _ => _ | None => _ end).
  assert (sfOwnerCount r1 = sfOwnerCount r /\ sfBalance r1 = sfBalance r) as [Ho Hb].
  { unfold r1. destruct (sfHookNamespaces r); [apply removeHookNamespaceEntry_owner|done]. }
  assert (same_owner a (accounts l) (<[a := r1]> (accounts l))) as Hs by (by eapply same_owner_insert).
  destruct (negb _); [by intros [= _ <-]|]. destruct (dirIsEmpty _); [by intros [= _ <-]|].
  destruct (internalDirFirst _ _) as [[[entry c]|]| |]; cbn [mbind res_bind]; [|by intros [= _ <-]|done..].
  destruct (collect _ _ _ _ _ _) as [[ks|]| |]; cbn [mbind res_bind]; [|by intros [= _ <-]|done..].
  destruct (delete_items _ _ _ _) as [[[t l1] n1]| |] eqn:E; cbn [mbind res_bind]; [|done..].
  apply delete_items_frame in E as (Ea & E1 & E2 & E3 & E4). cbn [accounts hooks definitions owner_dirs fees set_account] in *.
  rewrite <- E1, <- E2, <- E3, <- E4. rewrite <- Ea in Hs.
  destruct (negb _); [by intros [= _ <-]|]. destruct (_ <? _); [by intros [= _ <-]|]. intros [= _ <-].
  split; [done|]. split; [done|]. split; [done|]. split; [done|]. eapply same_owner_trans; [exact Hs|].
  apply (same_owner_insert a r1); [|done..]. rewrite Ea. apply lookup_insert_eq.
Qed.

(** C29: deleting a namespace deletes exactly its state.  On a ledger that represents
    a store, [destroyNamespace] for an existing account raises no [LogicError],
    returns [tesSUCCESS], and the new ledger represents the store without the
    entries of that account and namespace: the directory is gone, the state count
    and the list of namespaces are adjusted, the owner count stays as it was.  Other
    accounts are untouched. *)
Theorem destroyNamespace_refines l σ a r n :
  rep l σ -> accounts l !! a = Some r ->
  exists l', destroyNamespace l a n = Val (tesSUCCESS, l') /\ rep l' (without a n σ) /\
    sfOwnerCount <$> accounts l' !! a = Some (sfOwnerCount r) /\
    (forall a', a' <> a -> accounts l' !! a' = accounts l !! a').
Proof. apply destroyNamespace_spec. Qed.
End destroyNamespace.

(** A ledger with one hook state. *)
Definition sample_one : Ledger :=
  match @setHookState sample_keylets sample_ledger 7 1 2 [42] with Val (_, l) => l | _ => sample_ledger end.

Lemma sample_one_rep : @rep sample_keylets sample_one {[ (7, 1, 2) := [42] ]}.
Proof.
  destruct (@setHookState_spec sample_keylets sample_ledger ∅ 7 (mkRoot 250 0 0 None 0) 1 2 [42]
    sample_ledger_rep eq_refl eq_refl) as (ter & l' & E & Hl'); [by vm_compute|].
  unfold sample_one. rewrite E. destruct ter; try (vm_compute in E; discriminate). apply Hl'.
Qed.

Lemma destroyNamespace_refines_witness :
  exists l', @destroyNamespace sample_keylets sample_one 7 1 = Val (tesSUCCESS, l') /\
    @rep sample_keylets l' ∅ /\ sfOwnerCount <$> accounts l' !! 7 = Some 1.
Proof.
  destruct (@destroyNamespace_refines sample_keylets sample_one _ 7 (mkRoot 250 1 1 (Some [1]) 0) 1
    sample_one_rep ltac:(by vm_compute)) as (l' & E & Hrep & Hown & _).
  exists l'. split; [exact E|]. split; [|exact Hown].
  replace (without 7 1 {[(7, 1, 2) := [42]]}) with (∅ : store) in Hrep; [exact Hrep|]. by vm_compute.
Defined.

(** The entry is gone, the owner count that paid for it stays. *)
Lemma destroyNamespace_keeps_owner_count :
  match @destroyNamespace sample_keylets sample_one 7 1 with
  | Val (ter, l) => ter = tesSUCCESS /\ states l = ∅ /\
      accounts l !! 7 = Some (mkRoot 250 1 0 None 0)
  | _ => False
  end.
Proof. vm_compute. auto. Qed.
