(* ===== verification/SetHook.v ===== *)
(** * SetHook: the SetHook transaction ([app/tx/impl/SetHook.cpp])

    A SetHook transaction carries up to four entries, one per position of the
    account's hook chain.  This file has the checks before the transaction is
    applied ([preflight] with [validateHookSetEntry], [preclaim],
    [calculateBaseFee]) and [setHook], which applies it: the loop over the
    positions, the reserve, and the writes.

    Objects of the view are shared: a definition that is peeked twice is one object,
    and a reference count changed by one position is seen by the next.  [SetState]
    keeps those objects apart from what will be inserted, updated or removed at the
    end, so that a change that is never written would be lost in the model as it
    would be in the ledger.

    WebAssembly instantiation ([HookExecutor::validateWasm], third-party) and the
    hash are parameters; the results of the generic [preflight1] and [preflight2]
    are arguments. *)

From stdpp Require Import base numbers list option gmap sorting.
From Stdlib Require Import ZArith Lia.
From S2P Require Import Prelude Enum Leb128 GuardValidate Runtime Directory Context StateLedger HookParams.
From S2P Require Import DirWalk Namespace.

Local Open Scope Z_scope.

(** ** The entries *)

(** An [sfHook] of the transaction.  The template of the inner object admits no
    other fields ([protocol/impl/InnerObjectFormats.cpp]). *)
Record HookSetObj := mkSet {
  set_code : option Blob;
  set_hash : option uint256;
  set_grants : option (list HookGrant);
  set_namespace : option uint256;
  set_parameters : option (list HookParameter);
  set_hookOn : option Z;
  set_apiVersion : option Z;
  set_flags : option Z
}.

Definition absent {A} (o : option A) : bool := match o with None => true | Some _ => false end.

(** [flags & f] as a condition. *)
Definition flag (flags f : Z) : bool := negb (Z.land flags f =? 0).

(** [STObject::getCount] counts the fields of the template, present or not. *)
Definition getCount (o : HookSetObj) : Z := 8.

Definition inferOperation (o : HookSetObj) : HookSetOperation :=
  let wasmByteCount := vsize (getFieldVL (set_code o)) in
  let hasHash := negb (absent (set_hash o)) in
  let hasCode := negb (absent (set_code o)) in
  if hasHash && hasCode then hsoINVALID
  else if hasHash then hsoINSTALL
  else if hasCode then if 0 <? wasmByteCount then hsoCREATE else hsoDELETE
  else if absent (set_grants o) && absent (set_namespace o) && absent (set_parameters o) && absent (set_hookOn o)
          && absent (set_apiVersion o) && absent (set_flags o) then hsoNOOP
  else if negb (absent (set_namespace o)) && flag (default 0 (set_flags o)) hsfNSDELETE then hsoNSDELETE
  else hsoUPDATE.

(** ** Validation *)

Fixpoint grants_valid (hookAcc : AccountID) (already : gset (uint256 * option AccountID)) (gs : list HookGrant) : bool :=
  match gs with
  | [] => true
  | g :: gs =>
    if bool_decide (sfAuthorize g = Some hookAcc) then false
    else
      let entry := (grant_hash g, sfAuthorize g) in
      if bool_decide (entry ∈ already) then false else grants_valid hookAcc ({[entry]} ∪ already) gs
  end.

Definition validateHookGrants (hookAcc : AccountID) (hookGrants : list HookGrant) : bool :=
  if 8 <? Z.of_nat (length hookGrants) then false else grants_valid hookAcc ∅ hookGrants.

Fixpoint params_valid (alreadySet : gset Blob) (ps : list HookParameter) : bool :=
  match ps with
  | [] => true
  | p :: ps =>
    match sfHookParameterName p with
    | None => false
    | Some paramName =>
      if (maxHookParameterKeySize <? vsize paramName) ||
         (maxHookParameterValueSize <? vsize (getFieldVL (sfHookParameterValue p))) then false
      else if bool_decide (paramName ∈ alreadySet) then false
      else params_valid ({[paramName]} ∪ alreadySet) ps
    end
  end.

Definition validateHookParams (hookParams : list HookParameter) : bool :=
  if 16 <? Z.of_nat (length hookParams) then false else params_valid ∅ hookParams.

(** What the engine takes from elsewhere: the hash that names a definition, and
    whether the virtual machine can instantiate the code. *)
Class CodeHost := { sha512Half_s : Blob -> uint256; validateWasm : Blob -> bool }.

(** [HookSetValidation]: a verdict, or the instruction counts of [hook] and [cbak]. *)
Abbreviation HookSetValidation := (bool + Z * Z)%type (only parsing).

Section SetHook.
Context `{Keylets} `{CodeHost}.

(** Grants and parameters, where present, are well-formed. *)
Definition arrays_valid (acct : AccountID) (o : HookSetObj) : bool :=
  match set_parameters o with Some ps => validateHookParams ps | None => true end &&
  match set_grants o with Some gs => validateHookGrants acct gs | None => true end.

(** The code of a new hook; an exception leaves the function. *)
Definition validate_code (hook : Blob) : gres HookSetValidation :=
  match validateGuards (S (length hook)) hook with
  | Val counts => Val (if validateWasm hook then inr counts else inl false)
  | Err (Rejected _) => Val (inl false)
  | Err e => Err e
  | Undef => Undef
  end.

Definition validateHookSetEntry (acct : AccountID) (o : HookSetObj) : gres HookSetValidation :=
  let flags := default 0 (set_flags o) in
  match inferOperation o with
  | hsoNOOP => Val (inl true)
  | hsoNSDELETE =>
    Val (inl (absent (set_grants o) && absent (set_parameters o) && absent (set_hookOn o) &&
              absent (set_apiVersion o) && negb (absent (set_flags o)) && negb (absent (set_namespace o)) &&
              (flags =? hsfNSDELETE)))
  | hsoDELETE =>
    Val (inl (absent (set_grants o) && absent (set_parameters o) && absent (set_hookOn o) &&
              absent (set_apiVersion o) && absent (set_namespace o) && negb (absent (set_flags o)) &&
              flag flags hsfOVERRIDE &&
              negb (flag flags (Z.lnot (Z.lor hsfOVERRIDE (Z.lor hsfNSDELETE hsfCOLLECT))))))
  | hsoINSTALL => Val (inl (arrays_valid acct o && absent (set_apiVersion o)))
  | hsoUPDATE =>
    Val (inl (negb (flag flags hsfOVERRIDE || (flag flags hsfNSDELETE && absent (set_namespace o))) &&
              arrays_valid acct o && absent (set_apiVersion o)))
  | hsoCREATE =>
    if arrays_valid acct o && negb (absent (set_namespace o)) &&
       match set_apiVersion o with Some version => version =? 0 | None => false end && negb (absent (set_hookOn o))
    then match set_code o with
         | None => Val (inl false)
         | Some hook => validate_code hook
         end
    else Val (inl false)
  | hsoINVALID => Val (inl false)
  end.

(** ** Before the transaction is applied *)

(** The loop of [preflight]; exceptions of the validation are caught. *)
Fixpoint preflight_entries (acct : AccountID) (allBlank : bool) (hookSets : list HookSetObj) : res unit TER :=
  match hookSets with
  | [] => Val (if allBlank then temMALFORMED else tesSUCCESS)
  | o :: rest =>
    if maxHookWasmSize <? vsize (getFieldVL (set_code o)) then Val temMALFORMED
    else if getCount o =? 0 then preflight_entries acct allBlank rest
    else match validateHookSetEntry acct o with
         | Val (inl false) => Val temMALFORMED
         | Val _ => preflight_entries acct false rest
         | Err NoFuel => Undef
         | Err _ => Val temMALFORMED
         | Undef => Undef
         end
  end.

Definition preflight (enabled : bool) (preflight1 preflight2 : TER) (acct : AccountID)
    (hookSets : option (list HookSetObj)) : res unit TER :=
  if negb enabled then Val temDISABLED
  else if negb (bool_decide (preflight1 = tesSUCCESS)) then Val preflight1
  else match hookSets with
       | None => Val temMALFORMED
       | Some hookSets =>
         if Z.of_nat (length hookSets) <? 1 then Val temMALFORMED
         else if maxHookChainLength <? Z.of_nat (length hookSets) then Val temMALFORMED
         else
           ret ← preflight_entries acct true hookSets;
           Val (if bool_decide (ret = tesSUCCESS) then preflight2 else ret)
       end.

Definition preclaim (l : Ledger) (hookSets : list HookSetObj) : TER :=
  if forallb (fun o => match set_hash o with
                       | None => true
                       | Some hash => bool_decide (is_Some (definitions l !! hash))
                       end) hookSets
  then tesSUCCESS else terNO_HOOK.

(** Fees are 64-bit numbers; [base] is what [Transactor::calculateBaseFee] returns. *)
Definition param_bytes (ps : list HookParameter) : Z :=
  foldl (fun n p => u64 (n + (vsize (getFieldVL (sfHookParameterName p)) + vsize (getFieldVL (sfHookParameterValue p))))) 0 ps.

Definition entry_fee (o : HookSetObj) : Z :=
  match set_code o with
  | None => 0
  | Some code =>
    u64 (u64 (computeCreationFee (vsize code)) +
         match set_parameters o with None => 0 | Some ps => param_bytes ps end)
  end.

Definition calculateBaseFee (base : Z) (hookSets : list HookSetObj) : Z :=
  u64 (base + foldl (fun n o => u64 (n + entry_fee o)) 0 hookSets).

(** ** Applying the transaction *)

Definition set_refs (n : Z) (d : HookDef) : HookDef :=
  mkDef (def_hookOn d) (def_namespace d) (def_parameters d) (def_apiVersion d) (def_code d) (def_setTxnID d) n
    (def_fee d) (def_callbackFee d) (def_flags d).

(** Returns whether nothing refers to the definition any more. *)
Definition reduceReferenceCount (d : HookDef) : HookDef * bool :=
  let refCount := sfReferenceCount d in
  let refCount := if 0 <? refCount then refCount - 1 else refCount in
  (set_refs refCount d, refCount <=? 0).

Definition incrementReferenceCount (d : HookDef) : HookDef := set_refs (u64 (sfReferenceCount d + 1)) d.

Record SetState := mkSetState {
  peeked : gmap uint256 HookDef;
  slesToInsert : gmap uint256 HookDef;
  slesToUpdate : gset uint256;
  keyletsToDestroy : gset uint256;
  namespacesToDestroy : gset uint256;
  newHooks : list HookObj
}.

Definition blank : HookObj := mkHookObj None None None None None None.

Definition push (h : HookObj) (s : SetState) : SetState :=
  mkSetState (peeked s) (slesToInsert s) (slesToUpdate s) (keyletsToDestroy s) (namespacesToDestroy s) (newHooks s ++ [h]).
Definition mark_namespace (ns : uint256) (s : SetState) : SetState :=
  mkSetState (peeked s) (slesToInsert s) (slesToUpdate s) (keyletsToDestroy s) ({[ns]} ∪ namespacesToDestroy s) (newHooks s).

(** The definition of the old hook loses a reference. *)
Definition release (oldHash : option uint256) (s : SetState) : SetState :=
  match oldHash with
  | None => s
  | Some h =>
    match peeked s !! h with
    | None => s
    | Some oldDefSLE =>
      let '(d, gone) := reduceReferenceCount oldDefSLE in
      mkSetState (<[h := d]> (peeked s)) (slesToInsert s)
        (if gone then slesToUpdate s else {[h]} ∪ slesToUpdate s)
        (if gone then {[h]} ∪ keyletsToDestroy s else keyletsToDestroy s) (namespacesToDestroy s) (newHooks s)
    end
  end.

(** The definition [h], peeked or about to be inserted. *)
Definition find_def (h : uint256) (s : SetState) : option HookDef :=
  match peeked s !! h with Some d => Some d | None => slesToInsert s !! h end.

(** It gains a reference and is to be written. *)
Definition acquire (h : uint256) (s : SetState) : SetState :=
  mkSetState (alter incrementReferenceCount h (peeked s))
    (if bool_decide (is_Some (peeked s !! h)) then slesToInsert s else alter incrementReferenceCount h (slesToInsert s))
    ({[h]} ∪ slesToUpdate s) (keyletsToDestroy s) (namespacesToDestroy s) (newHooks s).

(** The flags that reach the ledger object: an [int] without two of its bits. *)
Definition ledger_flags (flags : Z) : Z :=
  let n := i32 flags in
  let n := if flag n hsfOVERRIDE then n - hsfOVERRIDE else n in
  let n := if flag n hsfNSDELETE then n - hsfNSDELETE else n in
  u32 n.

(** An array that is given and not empty. *)
Definition given {A} (o : option (list A)) : option (list A) :=
  match o with Some [] | None => None | Some l => Some l end.

(** A field is kept only where it differs from the definition's. *)
Definition unless_default (new : option Z) (def : Z) (old : option Z) : option Z :=
  match new with None => old | Some x => if def =? x then None else Some x end.

Definition slot_update (o : HookSetObj) (oldHook : option HookObj) (oldDefSLE : option HookDef) (s : SetState)
    : TER + SetState :=
  match oldDefSLE, oldHook with
  | Some def, Some old =>
    let namespace := unless_default (set_namespace o) (def_namespace def) (sfHookNamespace old) in
    let hookOn := unless_default (set_hookOn o) (def_hookOn def) (sfHookOn old) in
    let params := match set_parameters o with
                  | Some [] => inr None
                  | ps => updateHookParameters (default [] ps) (def_parameters def) (default [] (sfHookParameters old))
                  end in
    match params with
    | inl ter => inl ter
    | inr params =>
      let grants := match set_grants o with None => sfHookGrants old | gs => given gs end in
      inr (push (mkHookObj (sfHookHash old) grants namespace hookOn params (set_flags o)) s)
    end
  | _, _ => inl tecNO_ENTRY
  end.

(** [newHash] is the hash of the definition to use. *)
Definition slot_install (o : HookSetObj) (oldHash : option uint256) (newHash : uint256)
    (newDefSLE : option HookDef) (s : SetState) : TER + SetState :=
  if negb (absent oldHash) && negb (flag (default 0 (set_flags o)) hsfOVERRIDE) then inl tecREQUIRES_FLAG
  else match newDefSLE with
  | None => inl tecNO_ENTRY
  | Some def =>
    let s := acquire newHash (release oldHash s) in
    match updateHookParameters (default [] (set_parameters o)) (def_parameters def) [] with
    | inl ter => inl ter
    | inr params =>
      inr (push (mkHookObj (Some newHash) (given (set_grants o)) (unless_default (set_namespace o) (def_namespace def) None)
                   (unless_default (set_hookOn o) (def_hookOn def) None) params (ledger_flags <$> set_flags o)) s)
    end
  end.

Definition new_definition (o : HookSetObj) (txid : uint256) (wasmBytes : Blob) (hookOn : Z) (ns : uint256)
    (counts : Z * Z) : HookDef :=
  mkDef hookOn ns (default [] (set_parameters o)) (default 0 (set_apiVersion o)) wasmBytes txid 1
    (computeExecutionFee counts.1) (if 0 <? counts.2 then Some (computeExecutionFee counts.2) else None)
    (match set_flags o with Some flags => ledger_flags flags | None => 0 end).

Definition slot_create (acct : AccountID) (txid : uint256) (o : HookSetObj) (oldHash : option uint256) (s : SetState)
    : dres (TER + SetState) :=
  if negb (absent oldHash) && negb (flag (default 0 (set_flags o)) hsfOVERRIDE) then Val (inl tecREQUIRES_FLAG)
  else
    let wasmBytes := getFieldVL (set_code o) in
    if maxHookWasmSize <? vsize wasmBytes then Val (inl tecINTERNAL)
    else
      let createHookHash := sha512Half_s wasmBytes in
      match find_def createHookHash s with
      | Some def => Val (slot_install o oldHash createHookHash (Some def) s)
      | None =>
        match validateHookSetEntry acct o with
        | Val (inr counts) =>
          match set_hookOn o, set_namespace o with
          | Some newHookOn, Some newNamespace =>
            let s := release oldHash s in
            let def := new_definition o txid wasmBytes newHookOn newNamespace counts in
            Val (inr (push (mkHookObj (Some createHookHash) (given (set_grants o)) None None None None)
                   (mkSetState (peeked s) (<[createHookHash := def]> (slesToInsert s)) (slesToUpdate s)
                      (keyletsToDestroy s) (namespacesToDestroy s) (newHooks s))))
          | _, _ => Undef
          end
        | Val (inl false) => Val (inl tecINTERNAL)
        | Val (inl true) => Undef
        | Err NoFuel => Undef
        | Err _ => Val (inl tecINTERNAL)
        | Undef => Undef
        end
      end.

(** The namespace of the old hook, its own or the definition's; one of them has to
    be there. *)
Definition old_namespace (s : SetState) (oldHook : option HookObj) : dres (option uint256) :=
  match oldHook with
  | None => Val None
  | Some old =>
    match sfHookHash old with
    | None => Val None
    | Some h =>
      match sfHookNamespace old, peeked s !! h with
      | Some ns, _ => Val (Some ns)
      | None, Some def => Val (Some (def_namespace def))
      | None, None => Undef
      end
    end
  end.

Definition mark_namespaces (op : HookSetOperation) (o : HookSetObj) (oldNamespace : option uint256) (s : SetState)
    : SetState :=
  if flag (default 0 (set_flags o)) hsfNSDELETE then
    match op with
    | hsoNOOP | hsoINVALID => s
    | _ =>
      match (if bool_decide (op = hsoNSDELETE) then set_namespace o else None), oldNamespace with
      | Some newNamespace, _ => mark_namespace newNamespace s
      | None, Some ns => mark_namespace ns s
      | None, None => s
      end
    end
  else s.

(** One position of the chain. *)
Definition slot (acct : AccountID) (txid : uint256) (s : SetState)
    (oldHook : option HookObj) (hookSetObj : option HookSetObj) : dres (TER + SetState) :=
  oldNamespace ← old_namespace s oldHook;
  match hookSetObj with
  | None => Val (inr (push (default blank oldHook) s))
  | Some o =>
    let op := inferOperation o in
    let oldHash := oldHook ≫= sfHookHash in
    let oldDefSLE := oldHash ≫= fun h => peeked s !! h in
    let s := mark_namespaces op o oldNamespace s in
    match op with
    | hsoNSDELETE | hsoNOOP => Val (inr (push (default blank oldHook) s))
    | hsoDELETE =>
      if negb (flag (default 0 (set_flags o)) hsfOVERRIDE) then Val (inl tecREQUIRES_FLAG)
      else Val (inr (release oldHash (push blank s)))
    | hsoUPDATE => Val (slot_update o oldHook oldDefSLE s)
    | hsoCREATE => slot_create acct txid o oldHash s
    | hsoINSTALL =>
      match set_hash o with
      | Some hash => Val (slot_install o oldHash hash (peeked s !! hash) s)
      | None => Undef
      end
    | hsoINVALID => Val (inl tecCLAIM)
    end
  end.

(** The positions, as long as there is an old hook or an entry. *)
Fixpoint slots (oldHooks : list HookObj) (hookSets : list HookSetObj) : list (option HookObj * option HookSetObj) :=
  match oldHooks, hookSets with
  | [], _ => (fun o => (None, Some o)) <$> hookSets
  | old :: oldHooks, [] => (Some old, None) :: slots oldHooks []
  | old :: oldHooks, o :: hookSets => (Some old, Some o) :: slots oldHooks hookSets
  end.

Fixpoint run_slots (acct : AccountID) (txid : uint256) (s : SetState) (ps : list (option HookObj * option HookSetObj))
    : dres (TER + SetState) :=
  match ps with
  | [] => Val (inr s)
  | (oldHook, hookSetObj) :: ps =>
    r ← slot acct txid s oldHook hookSetObj;
    match r with
    | inl ter => Val (inl ter)
    | inr s => run_slots acct txid s ps
    end
  end.

(** ** The reserve *)

Definition computeHookReserve (h : HookObj) : Z :=
  match sfHookHash h with
  | None => 0
  | Some _ => 1 + Z.of_nat (length (default [] (sfHookParameters h))) + Z.of_nat (length (default [] (sfHookGrants h)))
  end.

(** The first four positions count. *)
Definition chain_reserve (hs : list HookObj) : Z := foldr (fun h n => computeHookReserve h + n) 0 (take 4 hs).

(** ** The writes *)

(** The definitions after the pending insertions and updates. *)
Definition written (s : SetState) (defs : gmap uint256 HookDef) : gmap uint256 HookDef :=
  slesToInsert s ∪ (filter (fun x => x.1 ∈ slesToUpdate s) (peeked s) ∪ defs).

(** Marked for removal, and without references when its turn comes. *)
Definition unreferenced (s : SetState) (h : uint256) : bool :=
  bool_decide (h ∈ keyletsToDestroy s) &&
  match (match slesToInsert s !! h with Some d => Some d | None => peeked s !! h end) with
  | Some d => sfReferenceCount d <=? 0
  | None => false
  end.

Definition write_definitions (s : SetState) (l : Ledger) : Ledger := set_definitions (written s (definitions l)) l.
Definition erase_definitions (s : SetState) (l : Ledger) : Ledger :=
  set_definitions (filter (fun x => unreferenced s x.1 = false) (definitions l)) l.

(** The result of each [destroyNamespace] is dropped. *)
Fixpoint destroy_namespaces (l : Ledger) (acct : AccountID) (nss : list uint256) : dres Ledger :=
  match nss with
  | [] => Val l
  | ns :: nss => '(_, l) ← destroyNamespace l acct ns; destroy_namespaces l acct nss
  end.

Definition owner_dir (l : Ledger) (acct : AccountID) : Dir := default ∅ (owner_dirs l !! acct).
Definition set_owner_dir (acct : AccountID) (d : Dir) (l : Ledger) : Ledger :=
  set_owner_dirs (<[acct := d]> (owner_dirs l)) l.

(** The account's [ltHOOK] is deleted, updated, created, or was and stays absent. *)
Definition enact_hooks (hook_key : AccountID -> uint256) (acct : AccountID) (hs : list HookObj) (l : Ledger)
    : dres (TER * Ledger) :=
  let newHooksEmpty := forallb (fun h => absent (sfHookHash h)) hs in
  match hooks l !! acct with
  | Some oldHookSLE =>
    if newHooksEmpty then
      '(ok, d) ← dirRemove (owner_dir l acct) (hook_ownerNode oldHookSLE) (hook_key acct) false;
      if negb ok then Val (tefBAD_LEDGER, l)
      else Val (tesSUCCESS, set_hooks (delete acct (hooks l)) (set_owner_dir acct d l))
    else Val (tesSUCCESS, set_hooks (<[acct := mkHookSLE hs 0]> (hooks l)) l)
  | None =>
    if newHooksEmpty then Val (tesSUCCESS, l)
    else
      '(page, d) ← dirAdd false (owner_dir l acct) (hook_key acct);
      match page with
      | None => Val (tecDIR_FULL, l)
      | Some page => Val (tesSUCCESS, set_hooks (<[acct := mkHookSLE hs page]> (hooks l)) (set_owner_dir acct d l))
      end
  end.

(** ** [setHook] *)

Definition setHook (hook_key : AccountID -> uint256) (l : Ledger) (acct : AccountID) (mSourceBalance : Z)
    (txid : uint256) (hookSets : list HookSetObj) : dres (TER * Ledger) :=
  let oldHooks := match hooks l !! acct with Some sle => sfHooks sle | None => [] end in
  r ← run_slots acct txid (mkSetState (definitions l) ∅ ∅ ∅ ∅ []) (slots oldHooks hookSets);
  match r with
  | inl ter => Val (ter, l)
  | inr s =>
    match accounts l !! acct with
    | None => Undef
    | Some root =>
      let reserveDelta := chain_reserve (newHooks s) - chain_reserve oldHooks in
      let newOwnerCount := sfOwnerCount root + reserveDelta in
      if (newOwnerCount <? 0) || (0xFFFFFFFF <? newOwnerCount) then Val (tefINTERNAL, l)
      else if mSourceBalance <? accountReserve (fees l) newOwnerCount then Val (tecINSUFFICIENT_RESERVE, l)
      else
        let l := write_definitions s l in
        l ← destroy_namespaces l acct (merge_sort Z.le (elements (namespacesToDestroy s)));
        let l := erase_definitions s l in
        '(ter, l) ← enact_hooks hook_key acct (newHooks s) l;
        if negb (bool_decide (ter = tesSUCCESS)) then Val (ter, l)
        else if reserveDelta =? 0 then Val (tesSUCCESS, l)
        else match accounts l !! acct with
             | None => Undef
             | Some root => Val (tesSUCCESS, set_account acct (adjustOwnerCount reserveDelta root) l)
             end
    end
  end.
End SetHook.
