(* ===== verification/SetHookRefs.v ===== *)
(** * SetHookRefs: what [setHook] maintains

    A hook definition is shared by every chain that uses it and counts its users.
    The invariant [hooks_ok] of the ledger: the count of each definition is the
    number of hooks that refer to it, no definition is without a user and none is
    missing; no chain is longer than four; and every definition is named by the hash
    of code that passed the guard checker, with the fee for its instruction count.
    [setHook] keeps it, and changes hooks, reserve and owner count as the entries
    say. *)

From stdpp Require Import base numbers list option gmap sorting.
From Stdlib Require Import ZArith Lia.
From S2P Require Import Prelude Enum Leb128 GuardValidate Runtime Directory Context StateLedger HookParams.
From S2P Require Import DirWalk Namespace SetHook.

Local Open Scope Z_scope.

(** ** Counting references *)

Definition one (o : option uint256) (h : uint256) : Z := if bool_decide (o = Some h) then 1 else 0.

Definition count_uses (h : uint256) (os : list HookObj) : Z := foldr (fun o n => one (sfHookHash o) h + n) 0 os.

Definition chain (m : gmap AccountID HookSLE) (a : AccountID) : list HookObj :=
  match m !! a with Some sle => sfHooks sle | None => [] end.

(** The hooks of all accounts that refer to [h]. *)
Definition references (m : gmap AccountID HookSLE) (h : uint256) : Z :=
  map_fold (fun _ sle n => count_uses h (sfHooks sle) + n) 0 m.

Lemma one_range o h : 0 <= one o h <= 1.
Proof. unfold one. case_bool_decide; lia. Qed.

Lemma one_some h x : one (Some h) x = if decide (h = x) then 1 else 0.
Proof. unfold one. case_decide; [subst; by rewrite bool_decide_true|by rewrite bool_decide_false by congruence]. Qed.

Lemma one_none x : one None x = 0.
Proof. done. Qed.

Lemma count_uses_cons h o os : count_uses h (o :: os) = one (sfHookHash o) h + count_uses h os.
Proof. done. Qed.

Lemma count_uses_app h os os' : count_uses h (os ++ os') = count_uses h os + count_uses h os'.
Proof. induction os as [|o os IH]; [done|]. cbn [app]. rewrite !count_uses_cons, IH. lia. Qed.

Lemma count_uses_range h os : 0 <= count_uses h os <= Z.of_nat (length os).
Proof.
  induction os as [|o os IH]; [done|]. rewrite count_uses_cons. pose proof (one_range (sfHookHash o) h). cbn [length]. lia.
Qed.

Lemma count_uses_in h os o : o ∈ os -> sfHookHash o = Some h -> 0 < count_uses h os.
Proof.
  intros Hin E. apply list_elem_of_split in Hin as (l1 & l2 & ->). rewrite count_uses_app, count_uses_cons.
  pose proof (count_uses_range h l1). pose proof (count_uses_range h l2). unfold one. rewrite bool_decide_true by done. lia.
Qed.

Lemma references_delete m a h : references (delete a m) h = references m h - count_uses h (chain m a).
Proof.
  unfold references, chain. destruct (m !! a) as [sle|] eqn:E; [|rewrite delete_id by done; cbn; lia].
  rewrite (map_fold_delete_L _ _ a sle m); [cbn; lia| |done]. intros; lia.
Qed.

Lemma references_insert m a sle h :
  references (<[a := sle]> m) h = references m h - count_uses h (chain m a) + count_uses h (sfHooks sle).
Proof.
  rewrite <- insert_delete_eq. unfold references at 1. rewrite map_fold_insert_L; [|intros; lia|apply lookup_delete_eq].
  fold (references (delete a m) h). rewrite references_delete. lia.
Qed.

Lemma references_chain m a h : 0 <= count_uses h (chain m a) <= references m h.
Proof.
  pose proof (count_uses_range h (chain m a)). split; [lia|].
  assert (0 <= references (delete a m) h) as Hn.
  { unfold references. apply (map_fold_weak_ind (fun n _ => 0 <= n)); [done|].
    intros i x m' r _ Hr. pose proof (count_uses_range h (sfHooks x)). lia. }
  rewrite references_delete in Hn. lia.
Qed.

(** ** The invariant *)

Section invariant.
Context `{Keylets} `{CodeHost}.

(** A definition is named by its code, which passed validation; its fees are those
    of the instruction counts; its parameters have distinct names. *)
Definition def_ok (h : uint256) (d : HookDef) : Prop :=
  sha512Half_s (def_code d) = h /\ vsize (def_code d) <= maxHookWasmSize /\ validateWasm (def_code d) = true /\
  (exists hc cc, validateGuards (S (length (def_code d))) (def_code d) = Val (hc, cc) /\
    def_fee d = computeExecutionFee hc /\ (def_callbackFee d = if 0 <? cc then Some (computeExecutionFee cc) else None)) /\
  NoDup (pname <$> def_parameters d).

Record hooks_ok (l : Ledger) : Prop := {
  ho_refs h : match definitions l !! h with
              | Some d => sfReferenceCount d = references (hooks l) h /\ 0 < references (hooks l) h
              | None => references (hooks l) h = 0
              end;
  ho_chain a : (length (chain (hooks l) a) <= 4)%nat;
  ho_defs h d : definitions l !! h = Some d -> def_ok h d
}.

(** ** The loop *)

Context (D0 : gmap uint256 HookDef).

(** In the course of the loop the definitions, peeked or new, count [cur]; a change
    to a peeked one is going to be written or removed. *)
Record counts (cur : uint256 -> Z) (s : SetState) : Prop := {
  co_dom h : is_Some (peeked s !! h) <-> is_Some (D0 !! h);
  co_fresh h : is_Some (slesToInsert s !! h) -> D0 !! h = None;
  co_peeked h d : peeked s !! h = Some d -> sfReferenceCount d = cur h /\ 0 <= cur h;
  co_insert h d : slesToInsert s !! h = Some d -> sfReferenceCount d = cur h /\ 0 < cur h;
  co_none h : peeked s !! h = None -> slesToInsert s !! h = None -> cur h = 0;
  co_dirty h : h ∉ slesToUpdate s -> peeked s !! h = D0 !! h \/ unreferenced s h = true;
  co_zero h d : peeked s !! h = Some d -> sfReferenceCount d = 0 -> h ∈ keyletsToDestroy s;
  co_defs h d : find_def h s = Some d -> def_ok h d
}.

Lemma counts_push cur h s : counts cur s -> counts cur (push h s).
Proof. intros [A1 A2 A3 A4 A5 A6 A7 A8]. split; assumption. Qed.

Lemma counts_mark cur ns s : counts cur s -> counts cur (mark_namespace ns s).
Proof. intros [A1 A2 A3 A4 A5 A6 A7 A8]. split; assumption. Qed.

Lemma counts_ext cur cur' s : (forall h, cur h = cur' h) -> counts cur s -> counts cur' s.
Proof.
  intros E [A1 A2 A3 A4 A5 A6 A7 A8]. split; try assumption; intros h; rewrite <- E; auto.
Qed.

Lemma def_ok_refs h d n : def_ok h d -> def_ok h (set_refs n d).
Proof. by intros ?. Qed.

Lemma counts_release cur o s :
  counts cur s -> (forall h, o = Some h -> is_Some (D0 !! h) /\ 0 < cur h) ->
  counts (fun x => cur x - one o x) (release o s).
Proof.
  intros Hc Ho. destruct o as [h|]; [|apply (counts_ext cur); [intros x; unfold one; rewrite bool_decide_false by done; lia|done]].
  destruct (Ho h eq_refl) as [HD Hpos]. pose proof Hc as [A1 A2 A3 A4 A5 A6 A7 A8].
  destruct (proj2 (A1 h) HD) as [d Ed]. unfold release. rewrite Ed. unfold reduceReferenceCount.
  destruct (A3 h d Ed) as [Erc _]. rewrite Erc, (proj2 (Z.ltb_lt _ _)) by done.
  assert (slesToInsert s !! h = None) as Ei.
  { destruct (slesToInsert s !! h) eqn:E; [|done]. specialize (A2 h ltac:(eauto)). rewrite A2 in HD. by destruct HD. }
  split; cbn [peeked slesToInsert slesToUpdate keyletsToDestroy].
  - intros x. rewrite lookup_insert. case_decide; [subst; split; [done|eauto]|apply A1].
  - exact A2.
  - intros x d'. rewrite lookup_insert, one_some. case_decide; [intros [= <-]; subst; cbn; lia|].
    intros E. rewrite Z.sub_0_r. by apply A3.
  - intros x d' E. rewrite one_some. case_decide; [congruence|]. rewrite Z.sub_0_r. by apply A4.
  - intros x. rewrite lookup_insert, one_some. case_decide; [done|]. rewrite Z.sub_0_r. apply A5.
  - intros x Hx. rewrite lookup_insert. case_decide as E.
    + subst x. right. destruct (Z.leb_spec (cur h - 1) 0) as [Hz|Hz]; [|set_solver].
      unfold unreferenced. cbn. rewrite Ei, lookup_insert_eq. cbn. rewrite bool_decide_true by set_solver.
      by apply Z.leb_le.
    + assert (x ∉ slesToUpdate s) as Hx' by (destruct (cur h - 1 <=? 0); set_solver).
      destruct (A6 x Hx') as [E1|E1]; [by left|]. right. unfold unreferenced in *. cbn.
      rewrite lookup_insert_ne by done. apply andb_true_iff in E1 as [E1 E2]. apply andb_true_iff. split; [|done].
      apply bool_decide_eq_true in E1. apply bool_decide_eq_true. destruct (cur h - 1 <=? 0); set_solver.
  - intros x d'. rewrite lookup_insert. case_decide as E.
    + intros [= <-]. cbn. intros Ez. subst x. rewrite (proj2 (Z.leb_le (cur h - 1) 0)) by lia. set_solver.
    + intros E1 E2. specialize (A7 x d' E1 E2). destruct (cur h - 1 <=? 0); set_solver.
  - intros x d'. unfold find_def in *. cbn. rewrite lookup_insert. case_decide as E.
    + intros [= <-]. subst x. apply def_ok_refs, A8. by rewrite Ed.
    + apply A8.
Qed.

Lemma unreferenced_zero cur s h :
  counts cur s -> unreferenced s h = true -> h ∈ keyletsToDestroy s /\ is_Some (peeked s !! h) /\ cur h = 0.
Proof.
  intros [A1 A2 A3 A4 A5 A6 A7 A8] [Hd%bool_decide_eq_true E]%andb_true_iff. split; [done|].
  destruct (slesToInsert s !! h) as [d|] eqn:Ei; [apply Z.leb_le in E; destruct (A4 h d Ei); lia|].
  destruct (peeked s !! h) as [d|] eqn:Ep; [|done]. apply Z.leb_le in E. destruct (A3 h d Ep). split; [eauto|lia].
Qed.

Lemma counts_acquire cur h s d :
  counts cur s -> find_def h s = Some d -> cur h + 1 < 2 ^ 64 ->
  counts (fun x => cur x + one (Some h) x) (acquire h s).
Proof.
  intros Hc Hf Hb. pose proof Hc as [A1 A2 A3 A4 A5 A6 A7 A8].
  assert (forall d0, sfReferenceCount d0 = cur h -> 0 <= cur h -> sfReferenceCount (incrementReferenceCount d0) = cur h + 1) as Hinc.
  { intros d0 E Hn. cbn. rewrite E. apply u64_small. lia. }
  assert (forall x, peeked (acquire h s) !! x =
    if decide (h = x) then incrementReferenceCount <$> peeked s !! h else peeked s !! x) as Ep.
  { intros x. cbn. case_decide; [subst; apply lookup_alter_eq|by apply lookup_alter_ne]. }
  assert (forall x, slesToInsert (acquire h s) !! x =
    if decide (h = x /\ peeked s !! h = None) then incrementReferenceCount <$> slesToInsert s !! h else slesToInsert s !! x) as Ei.
  { intros x. cbn. case_bool_decide as Hp.
    - rewrite decide_False; [done|]. intros [_ E]. rewrite E in Hp. by destruct Hp.
    - rewrite <- eq_None_not_Some in Hp. case_decide as E; [destruct E; subst; apply lookup_alter_eq|].
      apply lookup_alter_ne. tauto. }
  split.
  - intros x. rewrite Ep, <- A1. case_decide; [subst; by rewrite fmap_is_Some|done].
  - intros x. rewrite Ei. case_decide as E; [destruct E as [-> E]|apply A2]. rewrite fmap_is_Some. apply A2.
  - intros x dx. rewrite Ep, one_some. case_decide; [|rewrite Z.add_0_r; apply A3].
    intros (d0 & E & ->)%fmap_Some. subst x. destruct (A3 h d0 E). rewrite Hinc by done. lia.
  - intros x dx. rewrite Ei, one_some. case_decide as E.
    + destruct E as [-> E]. rewrite decide_True by done. intros (d0 & E' & ->)%fmap_Some. destruct (A4 x d0 E').
      rewrite Hinc by lia. lia.
    + intros E'. pose proof (A4 x dx E'). destruct (decide (h = x)) as [->|]; [|by rewrite Z.add_0_r].
      exfalso. apply E. split; [done|]. destruct (peeked s !! x) eqn:Ex; [|done].
      specialize (A2 x ltac:(eauto)). destruct (proj1 (A1 x) ltac:(eauto)). congruence.
  - intros x. rewrite Ep, Ei, one_some. destruct (decide (h = x)) as [->|].
    + intros E1%fmap_None. rewrite decide_True by done. intros E2%fmap_None. unfold find_def in Hf. by rewrite E1, E2 in Hf.
    + rewrite decide_False by tauto. rewrite Z.add_0_r. apply A5.
  - intros x Hx. assert (x <> h /\ x ∉ slesToUpdate s) as [Hne Hx'] by (cbn in Hx; set_solver).
    destruct (A6 x Hx') as [E|E]; [left; by rewrite Ep, decide_False|]. right. unfold unreferenced in *.
    rewrite Ei, Ep, !decide_False by (intros ?; intuition congruence). exact E.
  - intros x dx. rewrite Ep. case_decide; [|apply A7]. intros (d0 & E & ->)%fmap_Some. destruct (A3 h d0 E).
    rewrite Hinc by done. lia.
  - intros x dx. unfold find_def in *. rewrite Ep, Ei. destruct (decide (h = x)) as [<-|].
    + intros E. destruct (peeked s !! h) as [d0|] eqn:E0; cbn [fmap option_fmap option_map] in E.
      * injection E as <-. apply def_ok_refs, A8. by rewrite E0.
      * rewrite decide_True in E by done. apply fmap_Some in E as (d1 & E1 & ->). apply def_ok_refs, A8. by rewrite E0.
    + rewrite decide_False by tauto. apply A8.
Qed.

(** The state with a new definition. *)
Definition add_definition (h : uint256) (def : HookDef) (s : SetState) : SetState :=
  mkSetState (peeked s) (<[h := def]> (slesToInsert s)) (slesToUpdate s) (keyletsToDestroy s)
    (namespacesToDestroy s) (newHooks s).

Lemma counts_add cur h def s :
  counts cur s -> find_def h s = None -> sfReferenceCount def = 1 -> def_ok h def ->
  counts (fun x => cur x + one (Some h) x) (add_definition h def s).
Proof.
  intros Hc Hf Hd Hok. pose proof Hc as [A1 A2 A3 A4 A5 A6 A7 A8]. unfold find_def in Hf.
  destruct (peeked s !! h) eqn:Ep; [done|]. pose proof (A5 h Ep Hf) as Hz.
  assert (D0 !! h = None) as HD by (apply eq_None_not_Some; rewrite <- A1, Ep; by intros [? ?]).
  split; cbn [peeked slesToInsert slesToUpdate keyletsToDestroy add_definition].
  - exact A1.
  - intros x. rewrite lookup_insert. case_decide; [by subst|apply A2].
  - intros x d E. rewrite one_some. case_decide; [congruence|]. rewrite Z.add_0_r. by apply A3.
  - intros x d. rewrite lookup_insert, one_some. case_decide; [intros [= <-]; subst; lia|]. rewrite Z.add_0_r. apply A4.
  - intros x E. rewrite lookup_insert, one_some. case_decide; [done|]. rewrite Z.add_0_r. by apply A5.
  - intros x Hx. destruct (A6 x Hx) as [E|E]; [by left|]. right. destruct (unreferenced_zero cur s x Hc E) as (_ & Hp & _).
    unfold unreferenced in *. cbn. rewrite lookup_insert_ne; [done|]. intros ->. rewrite Ep in Hp. by destruct Hp.
  - exact A7.
  - intros x d. unfold find_def in *. cbn. rewrite lookup_insert. destruct (decide (h = x)) as [<-|].
    + rewrite Ep. by intros [= <-].
    + apply A8.
Qed.

Lemma params_valid_names already ps :
  params_valid already ps = true -> NoDup (pname <$> ps) /\ forall p, p ∈ ps -> pname p ∉ already.
Proof.
  revert already. induction ps as [|p ps IH]; intros already; cbn [params_valid].
  { intros _. split; [constructor|]. by intros p ?%not_elem_of_nil. }
  destruct (sfHookParameterName p) as [n|] eqn:En; [|done].
  destruct (_ || _); [done|]. case_bool_decide as Hn; [done|]. intros [Hnd Hps]%IH.
  assert (pname p = n) as Ep by (unfold pname; by rewrite En). cbn [fmap list_fmap]. split.
  - constructor; [|done]. intros (q & E & Hq)%list_elem_of_fmap. specialize (Hps q Hq). set_solver.
  - intros q [->|Hq]%elem_of_cons; [by rewrite Ep|]. specialize (Hps q Hq). set_solver.
Qed.

Lemma validate_create acct o hc cc :
  validateHookSetEntry acct o = Val (inr (hc, cc)) ->
  inferOperation o = hsoCREATE /\ arrays_valid acct o = true /\
  (exists hookOn, set_hookOn o = Some hookOn) /\ (exists ns, set_namespace o = Some ns) /\
  exists code, set_code o = Some code /\ validateGuards (S (length code)) code = Val (hc, cc) /\ validateWasm code = true.
Proof.
  unfold validateHookSetEntry. destruct (inferOperation o); try done.
  destruct (arrays_valid acct o); [|done]. destruct (set_namespace o) as [ns|]; [|done].
  destruct (set_apiVersion o) as [v|]; [|done]. destruct (v =? 0); [|done].
  destruct (set_hookOn o) as [hookOn|]; [|done]. cbn [andb negb absent]. destruct (set_code o) as [code|]; [|done].
  unfold validate_code. destruct (validateGuards _ _) as [cs|[]|] eqn:Eg; [|done..].
  destruct (validateWasm code) eqn:Ew; [|done]. intros [= ->].
  split; [done|]. split; [done|]. split; [by eexists|]. split; [by eexists|]. by exists code.
Qed.

Lemma new_definition_ok acct o txid hookOn ns hc cc :
  validateHookSetEntry acct o = Val (inr (hc, cc)) -> vsize (getFieldVL (set_code o)) <= maxHookWasmSize ->
  def_ok (sha512Half_s (getFieldVL (set_code o))) (new_definition o txid (getFieldVL (set_code o)) hookOn ns (hc, cc)).
Proof.
  intros (_ & Ha & _ & _ & code & Ec & Eg & Ew)%validate_create Hsz. rewrite Ec in *. cbn [getFieldVL default] in *.
  split; [done|]. split; [done|]. split; [done|]. split; [by exists hc, cc|]. cbn.
  unfold arrays_valid in Ha. apply andb_true_iff in Ha as [Ha _]. destruct (set_parameters o) as [ps|]; [|constructor].
  unfold validateHookParams in Ha. destruct (16 <? _); [done|]. by apply params_valid_names in Ha as [? _].
Qed.

Lemma release_hooks o s : newHooks (release o s) = newHooks s.
Proof. destruct o as [h|]; [|done]. cbn. by destruct (peeked s !! h). Qed.

Lemma find_def_release h o s : is_Some (find_def h s) -> is_Some (find_def h (release o s)).
Proof.
  unfold find_def, release. destruct o as [k|]; [|done]. destruct (peeked s !! k) as [d|] eqn:E; [|done].
  cbn. rewrite lookup_insert. case_decide; [|done]. subst. by rewrite E.
Qed.

Lemma find_def_release_none h o s : find_def h s = None -> find_def h (release o s) = None.
Proof.
  unfold find_def, release. destruct o as [k|]; [|done]. destruct (peeked s !! k) as [d|] eqn:E; [|done].
  cbn. rewrite lookup_insert. case_decide; [|done]. subst. by rewrite E.
Qed.

(** ** One position *)

(** The outcome of a position: one hook is appended and the counts follow it. *)
Definition stepped (cur : uint256 -> Z) (oldHash : option uint256) (s s' : SetState) : Prop :=
  exists new, newHooks s' = newHooks s ++ [new] /\ counts (fun x => cur x - one oldHash x + one (sfHookHash new) x) s'.

Section position.
Context (cur : uint256 -> Z) (oldHash : option uint256).
Hypothesis Hold : forall h, oldHash = Some h -> is_Some (D0 !! h) /\ 0 < cur h.
Hypothesis Hbound : forall h, cur h + 1 < 2 ^ 64.

Lemma install_stepped o h d s s' :
  counts cur s -> find_def h s = Some d -> slot_install o oldHash h (Some d) s = inr s' -> stepped cur oldHash s s'.
Proof.
  intros Hc Hf. unfold slot_install. destruct (_ && _); [done|]. destruct (updateHookParameters _ _ _) as [|ps]; [done|].
  intros [= <-]. eexists. split; [cbn; by rewrite release_hooks|]. apply counts_push. cbn [sfHookHash].
  destruct (find_def_release h oldHash s) as [d' Hf']; [by rewrite Hf|].
  apply (counts_acquire _ h _ d'); [by apply counts_release|done|]. pose proof (one_range oldHash h). pose proof (Hbound h). lia.
Qed.

Lemma create_stepped acct txid o s s' :
  counts cur s -> slot_create acct txid o oldHash s = Val (inr s') -> stepped cur oldHash s s'.
Proof.
  intros Hc. unfold slot_create. destruct (_ && _); [done|]. destruct (Z.ltb_spec maxHookWasmSize (vsize (getFieldVL (set_code o)))) as [|Hsz]; [done|].
  destruct (find_def _ s) as [d|] eqn:Hf; [intros [= E]; by eapply install_stepped|].
  destruct (validateHookSetEntry acct o) as [[[]|[hc cc]]|[]|] eqn:Ev; try done.
  destruct (set_hookOn o) as [hookOn|]; [|done]. destruct (set_namespace o) as [ns|]; [|done]. intros [= <-].
  eexists. split; [cbn; by rewrite release_hooks|]. apply counts_push. cbn [sfHookHash].
  apply (counts_add _ (sha512Half_s (getFieldVL (set_code o)))); [by apply counts_release|by apply find_def_release_none|done|].
  by apply (new_definition_ok acct).
Qed.

Lemma mark_namespaces_frame op o ons s :
  newHooks (mark_namespaces op o ons s) = newHooks s /\ peeked (mark_namespaces op o ons s) = peeked s /\
  (counts cur s -> counts cur (mark_namespaces op o ons s)).
Proof.
  unfold mark_namespaces. destruct (flag _ _); [|done].
  destruct op; try done; (destruct (if bool_decide _ then _ else _); [|destruct ons]);
    (split; [done|split; [done|try done; apply counts_mark]]).
Qed.

Lemma slot_stepped acct txid s old o s' :
  oldHash = (old ≫= sfHookHash) -> counts cur s -> slot acct txid s old o = Val (inr s') -> stepped cur oldHash s s'.
Proof.
  intros Eo Hc. unfold slot. destruct (old_namespace s old) as [ons| |]; [|done..]. cbn [mbind res_bind].
  assert (forall s1, newHooks s1 = newHooks s -> counts cur s1 -> stepped cur oldHash s (push (default blank old) s1)) as Hkeep.
  { intros s1 E1 Hc1. eexists. split; [cbn; by rewrite E1|]. apply counts_push. apply (counts_ext cur); [|done].
    intros x. replace (sfHookHash (default blank old)) with oldHash; [lia|]. rewrite Eo. by destruct old. }
  destruct o as [o|]; [|intros [= <-]; by apply Hkeep].
  destruct (mark_namespaces_frame (inferOperation o) o ons s) as (En & Epk & Hc1). specialize (Hc1 Hc).
  set (s1 := mark_namespaces _ _ _ _) in *. rewrite <- Eo. unfold stepped. rewrite <- En. fold (stepped cur oldHash s1 s').
  destruct (inferOperation o); [done|intros [= <-]; unfold stepped; rewrite En; by apply Hkeep|by apply create_stepped| | | |].
  - destruct (set_hash o) as [h|]; [|done]. destruct (peeked s1 !! h) as [d|] eqn:E.
    + intros [= E']. eapply install_stepped; [done| |exact E']. unfold find_def. by rewrite E.
    + intros [= E']. unfold slot_install in E'. by destruct (_ && _).
  - destruct (negb _); [done|]. intros [= <-]. exists blank. split; [by rewrite release_hooks|].
    apply (counts_ext (fun x => cur x - one oldHash x)); [intros x; cbn [sfHookHash blank]; rewrite one_none; lia|].
    apply counts_release; [by apply counts_push|done].
  - intros [= <-]. unfold stepped. rewrite En. by apply Hkeep.
  - intros [= E]. unfold slot_update in E. destruct (oldHash ≫= _) as [def|]; [|done]. destruct old as [old|]; [|done].
    destruct (match set_parameters o with Some [] => _ | _ => _ end) as [|ps]; [done|]. injection E as <-.
    eexists. split; [done|]. apply counts_push. apply (counts_ext cur); [|done]. intros x. cbn [sfHookHash].
    subst oldHash. cbn. lia.
Qed.
End position.

(** ** The whole loop *)

Lemma slots_old olds sets : omap fst (slots olds sets) = olds.
Proof.
  revert sets. induction olds as [|o olds IH]; intros [|x sets]; cbn; [done| |by rewrite IH..].
  induction sets; cbn in *; done.
Qed.

Lemma slots_length olds sets : length (slots olds sets) = Nat.max (length olds) (length sets).
Proof.
  revert sets. induction olds as [|o olds IH]; intros [|x sets]; cbn; rewrite ?length_fmap, ?IH; cbn; lia.
Qed.

Section loop.
Context (R0 : uint256 -> Z).
Hypothesis HR : forall h, 0 < R0 h -> is_Some (D0 !! h).

(** The references when the hooks of [olds] have been replaced by those of [news]. *)
Definition replaced (olds news : list HookObj) (h : uint256) : Z := R0 h - count_uses h olds + count_uses h news.

Lemma slot_replaced acct txid olds s old o s1 :
  counts (replaced olds (newHooks s)) s ->
  (forall h, count_uses h (olds ++ option_list old) <= R0 h) ->
  (forall h, R0 h + Z.of_nat (S (length (newHooks s))) < 2 ^ 64) ->
  slot acct txid s old o = Val (inr s1) ->
  counts (replaced (olds ++ option_list old) (newHooks s1)) s1 /\ length (newHooks s1) = S (length (newHooks s)).
Proof.
  intros Hc Hle Hb E.
  assert (forall h, count_uses h (olds ++ option_list old) = count_uses h olds + one (old ≫= sfHookHash) h) as Eone.
  { intros h. rewrite count_uses_app. destruct old; cbn; [lia|by rewrite one_none]. }
  destruct (slot_stepped (replaced olds (newHooks s)) (old ≫= sfHookHash)) with (acct := acct) (txid := txid) (s := s)
    (old := old) (o := o) (s' := s1) as (new & En & Hc1); [| |done..|].
  - intros h Eh. pose proof (Hle h) as Hh. rewrite Eone, Eh, one_some, decide_True in Hh by done.
    pose proof (count_uses_range h olds). pose proof (count_uses_range h (newHooks s)). split; [apply HR; lia|unfold replaced; lia].
  - intros h. unfold replaced. pose proof (count_uses_range h olds). pose proof (count_uses_range h (newHooks s)).
    pose proof (Hb h) as Hh. lia.
  - split; [|rewrite En, length_app; cbn; lia]. eapply counts_ext; [|exact Hc1]. intros h. unfold replaced.
    rewrite En, Eone, count_uses_app, count_uses_cons. cbn. lia.
Qed.

Lemma omap_fst_cons (old : option HookObj) (o : option HookSetObj) ps :
  omap fst ((old, o) :: ps) = option_list old ++ omap fst ps.
Proof. by destruct old. Qed.

Lemma run_slots_counts acct txid ps olds s s' :
  counts (replaced olds (newHooks s)) s ->
  (forall h, count_uses h (olds ++ omap fst ps) <= R0 h) ->
  (forall h, R0 h + Z.of_nat (length (newHooks s) + length ps) < 2 ^ 64) ->
  run_slots acct txid s ps = Val (inr s') ->
  counts (replaced (olds ++ omap fst ps) (newHooks s')) s' /\
  length (newHooks s') = (length (newHooks s) + length ps)%nat.
Proof.
  revert olds s. induction ps as [|[old o] ps IH]; intros olds s Hc Hle Hb; cbn [run_slots].
  { intros [= <-]. cbn. by rewrite app_nil_r, Nat.add_0_r. }
  destruct (slot acct txid s old o) as [[|s1]| |] eqn:E; [done| |done..]. cbn [mbind res_bind].
  setoid_rewrite omap_fst_cons in Hle. rewrite omap_fst_cons. setoid_rewrite (assoc (++)) in Hle. rewrite (assoc (++)).
  cbn [length] in Hb. destruct (slot_replaced acct txid olds s old o s1) as [Hc1 Hl1]; [done| | |done|].
  - intros h. pose proof (Hle h) as Hh. rewrite count_uses_app in Hh. pose proof (count_uses_range h (omap fst ps)). lia.
  - intros h. pose proof (Hb h). lia.
  - intros Hrun. destruct (IH (olds ++ option_list old) s1) as [Hc2 Hl2]; [done|done| |done|].
    + intros h. rewrite Hl1. pose proof (Hb h). lia.
    + split; [done|]. cbn [length]. lia.
Qed.
End loop.

(** ** The writes *)

Lemma written_counts cur s h :
  counts cur s ->
  match filter (fun x => unreferenced s x.1 = false) (written s D0) !! h with
  | Some d => sfReferenceCount d = cur h /\ 0 < cur h /\ def_ok h d
  | None => cur h = 0
  end.
Proof.
  intros Hc. pose proof Hc as [A1 A2 A3 A4 A5 A6 A7 A8]. rewrite map_lookup_filter.
  assert (forall d, find_def h s = Some d -> unreferenced s h = false -> sfReferenceCount d = cur h /\ 0 < cur h /\ def_ok h d) as Hd.
  { intros d E Hu. pose proof (A8 h d E) as Hok. unfold find_def in E. destruct (peeked s !! h) as [d'|] eqn:Ep.
    - injection E as ->. destruct (A3 h d Ep) as [Ec Hn]. split; [done|]. split; [|done].
      destruct (decide (cur h = 0)) as [Hz|]; [|lia]. exfalso. rewrite Hz in Ec. pose proof (A7 h d Ep Ec) as Hk.
      unfold unreferenced in Hu. rewrite bool_decide_true in Hu by done. rewrite Ep in Hu.
      destruct (slesToInsert s !! h) eqn:Ei.
      + specialize (A2 h ltac:(eauto)). destruct (proj1 (A1 h) ltac:(eauto)). congruence.
      + rewrite Ec in Hu. done.
    - destruct (A4 h d E). done. }
  assert (is_Some (slesToInsert s !! h) -> peeked s !! h = None) as Hex.
  { intros Hi%A2. apply eq_None_not_Some. rewrite A1, Hi. by intros [? ?]. }
  assert (unreferenced s h = false -> written s D0 !! h = find_def h s) as Hw.
  { intros Hu. unfold written, find_def. rewrite !lookup_union, map_lookup_filter. cbn.
    destruct (slesToInsert s !! h) as [d|] eqn:Ei; [rewrite Hex by eauto; cbn; by destruct (D0 !! h)|].
    rewrite (left_id_L None (∪)). destruct (decide (h ∈ slesToUpdate s)) as [Hin|Hn].
    - destruct (peeked s !! h) as [d|] eqn:Ep; cbn.
      + rewrite option_guard_True by done. cbn. by destruct (D0 !! h).
      + rewrite (left_id_L None (∪)). apply eq_None_not_Some. rewrite <- A1, Ep. by intros [? ?].
    - destruct (A6 h Hn) as [<-|]; [|congruence]. destruct (peeked s !! h); cbn; [|done].
      by rewrite option_guard_False. }
  destruct (unreferenced s h) eqn:Hu.
  - destruct (unreferenced_zero cur s h Hc Hu) as (_ & _ & Hz). destruct (written s D0 !! h); cbn; [|done].
    rewrite option_guard_False by (cbn; congruence). done.
  - rewrite Hw by done. destruct (find_def h s) as [d|] eqn:E; cbn.
    + rewrite option_guard_True by done. cbn. by apply Hd.
    + unfold find_def in E. destruct (peeked s !! h) eqn:Ep; [done|]. by apply A5.
Qed.
End invariant.

(** ** [setHook] *)

Section setHook.
Context `{Keylets} `{CodeHost}.

Lemma destroy_namespaces_frame l a nss l' :
  destroy_namespaces l a nss = Val l' ->
  hooks l' = hooks l /\ definitions l' = definitions l /\ owner_dirs l' = owner_dirs l /\ fees l' = fees l /\
  same_owner a (accounts l) (accounts l').
Proof.
  revert l. induction nss as [|n nss IH]; intros l; cbn [destroy_namespaces].
  { intros [= <-]. auto using same_owner_refl. }
  destruct (destroyNamespace l a n) as [[ter l1]| |] eqn:E; [|done..]. cbn [mbind res_bind]. intros Hr.
  apply destroyNamespace_frame in E as (E1 & E2 & E3 & E4 & Hs). apply IH in Hr as (F1 & F2 & F3 & F4 & Hs').
  rewrite F1, F2, F3, F4. eauto 10 using same_owner_trans.
Qed.

Lemma updateHookParameters_error ps qs rs ter : updateHookParameters ps qs rs = inl ter -> ter = tecINTERNAL.
Proof. unfold updateHookParameters. destruct (16 <? _); [by intros [= <-]|]. destruct (existsb _ _); [by intros [= <-]|done]. Qed.

(** The errors of a position. *)
Definition slot_errors : list TER := [tecREQUIRES_FLAG; tecNO_ENTRY; tecINTERNAL; tecCLAIM].

Lemma install_error o oh h d s ter : slot_install o oh h d s = inl ter -> ter ∈ slot_errors.
Proof.
  unfold slot_install. destruct (_ && _); [intros [= <-]; set_solver|]. destruct d as [d|]; [|intros [= <-]; set_solver].
  destruct (updateHookParameters _ _ _) eqn:E; [|done]. apply updateHookParameters_error in E as ->. intros [= <-]. set_solver.
Qed.

Lemma slot_error acct txid s old o ter : slot acct txid s old o = Val (inl ter) -> ter ∈ slot_errors.
Proof.
  unfold slot. destruct (old_namespace s old); cbn [mbind res_bind]; [|done..]. destruct o as [o|]; [|done].
  destruct (inferOperation o).
  - intros [= <-]. set_solver.
  - done.
  - unfold slot_create. destruct (_ && _); [intros [= <-]; set_solver|]. destruct (maxHookWasmSize <? _); [intros [= <-]; set_solver|].
    destruct (find_def _ _); [intros [= E]; by eapply install_error|].
    destruct (validateHookSetEntry acct o) as [[[]|cs]|[]|]; try done; try (intros [= <-]; set_solver).
    by destruct (set_hookOn o), (set_namespace o).
  - destruct (set_hash o); [|done]. intros [= E]. by eapply install_error.
  - destruct (negb _); [intros [= <-]; set_solver|done].
  - done.
  - intros [= E]. unfold slot_update in E. destruct (_ ≫= _); [|injection E as <-; set_solver].
    destruct old; [|injection E as <-; set_solver].
    destruct (match set_parameters o with Some [] => _ | _ => _ end) eqn:Ep; [|done]. injection E as <-.
    assert (t = tecINTERNAL) as ->; [|set_solver].
    destruct (set_parameters o) as [[|]|]; [done|by eapply updateHookParameters_error..].
Qed.

Lemma run_slots_error acct txid s ps ter : run_slots acct txid s ps = Val (inl ter) -> ter ∈ slot_errors.
Proof.
  revert s. induction ps as [|[old o] ps IH]; intros s; cbn [run_slots]; [done|].
  destruct (slot acct txid s old o) as [[t|s1]| |] eqn:E; cbn [mbind res_bind]; [|apply IH|done..].
  intros [= <-]. by eapply slot_error.
Qed.

(** The chain of the account afterwards; nothing is stored for blanks only. *)
Definition stored (a : AccountID) (hs : list HookObj) (m m' : gmap AccountID HookSLE) : Prop :=
  (forallb (fun h => absent (sfHookHash h)) hs = true /\ m' = delete a m) \/
  (forallb (fun h => absent (sfHookHash h)) hs = false /\ exists p, m' = <[a := mkHookSLE hs p]> m).

Context (hook_key : AccountID -> uint256).

Lemma enact_hooks_success a hs l l' :
  enact_hooks hook_key a hs l = Val (tesSUCCESS, l') ->
  stored a hs (hooks l) (hooks l') /\ definitions l' = definitions l /\ accounts l' = accounts l /\ fees l' = fees l.
Proof.
  unfold enact_hooks, stored. destruct (hooks l !! a) as [sle|] eqn:Eh; destruct (forallb _ hs).
  - destruct (dirRemove _ _ _ _) as [[[] d]| |]; cbn; [|done..]. intros [= <-]. cbn. auto.
  - intros [= <-]. cbn. eauto 10.
  - intros [= <-]. rewrite delete_id by done. auto.
  - destruct (dirAdd _ _ _) as [[[p|] d]| |]; cbn; [|done..]. intros [= <-]. cbn. eauto 10.
Qed.

(** What a successful [setHook] has done. *)
Record applied (l : Ledger) (a : AccountID) (balance : Z) (txid : uint256) (sets : list HookSetObj) (l' : Ledger)
    (s : SetState) (root : AccountRoot) : Prop := {
  ap_run : run_slots a txid (mkSetState (definitions l) ∅ ∅ ∅ ∅ []) (slots (chain (hooks l) a) sets) = Val (inr s);
  ap_root : accounts l !! a = Some root;
  ap_owner : 0 <= sfOwnerCount root + (chain_reserve (newHooks s) - chain_reserve (chain (hooks l) a)) <= 0xFFFFFFFF;
  ap_reserve : accountReserve (fees l) (sfOwnerCount root + (chain_reserve (newHooks s) - chain_reserve (chain (hooks l) a))) <= balance;
  ap_defs : definitions l' = filter (fun x => unreferenced s x.1 = false) (written s (definitions l));
  ap_hooks : stored a (newHooks s) (hooks l) (hooks l');
  ap_accounts : exists m, same_owner a (accounts l) m /\
    (accounts l' = m /\ chain_reserve (newHooks s) = chain_reserve (chain (hooks l) a) \/
     exists r, m !! a = Some r /\ accounts l' = <[a := adjustOwnerCount (chain_reserve (newHooks s) - chain_reserve (chain (hooks l) a)) r]> m)
}.

Lemma setHook_applied l a balance txid sets l' :
  setHook hook_key l a balance txid sets = Val (tesSUCCESS, l') -> exists s root, applied l a balance txid sets l' s root.
Proof.
  unfold setHook. fold (chain (hooks l) a).
  destruct (run_slots _ _ _ _) as [[ter|s]| |] eqn:Er; cbn [mbind res_bind]; [| |done..].
  { intros [= -> _]. apply run_slots_error in Er. exfalso. set_solver. }
  destruct (accounts l !! a) as [root|] eqn:Ea; [|done].
  destruct (_ || _) eqn:Eo; [done|]. apply orb_false_iff in Eo as [Eo1%Z.ltb_ge Eo2%Z.ltb_ge].
  destruct (Z.ltb_spec balance (accountReserve (fees l) (sfOwnerCount root +
    (chain_reserve (newHooks s) - chain_reserve (chain (hooks l) a))))) as [|Hbal]; [done|].
  destruct (destroy_namespaces _ _ _) as [l1| |] eqn:Ed; cbn [mbind res_bind]; [|done..].
  apply destroy_namespaces_frame in Ed as (D1 & D2 & _ & D4 & Hs). cbn in D1, D2, D4, Hs.
  destruct (enact_hooks _ _ _ _) as [[ter l2]| |] eqn:Ee; cbn [mbind res_bind]; [|done..].
  case_bool_decide as Et; cbn [negb]; [subst ter|by intros [= -> _]].
  apply enact_hooks_success in Ee as (H1 & H2 & H3 & H4). cbn in H1, H2, H3, H4. rewrite D1 in H1. rewrite D2 in H2.
  assert (forall l', accounts l' = accounts l1 -> same_owner a (accounts l) (accounts l')) as Hso by (intros ? ->; done).
  destruct (Z.eqb_spec (chain_reserve (newHooks s) - chain_reserve (chain (hooks l) a)) 0) as [Hz|Hz].
  - intros [= <-]. exists s, root. split; try done. exists (accounts l2). split; [by apply Hso|]. left. split; [done|lia].
  - destruct (accounts l2 !! a) as [r|] eqn:E2; [|done]. intros [= <-]. exists s, root. split; try done.
    exists (accounts l2). split; [by apply Hso|]. right. by exists r.
Qed.

(** ** The theorems *)

Lemma counts_start l :
  hooks_ok l -> counts (definitions l) (references (hooks l)) (mkSetState (definitions l) ∅ ∅ ∅ ∅ []).
Proof.
  intros [R C D]. split; cbn.
  - done.
  - intros h [? E]. by rewrite lookup_empty in E.
  - intros h d E. specialize (R h). rewrite E in R. lia.
  - intros h d E. by rewrite lookup_empty in E.
  - intros h E _. specialize (R h). by rewrite E in R.
  - auto.
  - intros h d E Ez. specialize (R h). rewrite E in R. lia.
  - intros h d. unfold find_def. cbn. intros E. destruct (definitions l !! h) as [d'|] eqn:E'; [|by rewrite lookup_empty in E].
    injection E as ->. by apply D.
Qed.

Lemma blanks_unused h hs : forallb (fun h => absent (sfHookHash h)) hs = true -> count_uses h hs = 0.
Proof.
  induction hs as [|x hs IH]; [done|]. cbn [forallb]. intros [Hx Hhs]%andb_true_iff. rewrite count_uses_cons, IH by done.
  by destruct (sfHookHash x).
Qed.

Lemma stored_references a hs m m' h :
  stored a hs m m' -> references m' h = references m h - count_uses h (chain m a) + count_uses h hs.
Proof.
  intros [[Hb ->]|[_ [p ->]]]; [|apply references_insert]. rewrite references_delete, (blanks_unused h hs) by done. lia.
Qed.

Lemma stored_chain a hs m m' b :
  stored a hs m m' -> (length hs <= 4)%nat -> (length (chain m b) <= 4)%nat -> (length (chain m' b) <= 4)%nat.
Proof.
  unfold chain. intros [[_ ->]|[_ [p ->]]] Hl Hb; [rewrite lookup_delete|rewrite lookup_insert]; case_decide; cbn; try done; lia.
Qed.

(** C4: [setHook] keeps the hooks of the ledger consistent.  If every definition's
    reference count is the number of hooks of all accounts that use it, no definition
    is unused or missing, no chain has more than four hooks, and every definition is
    named by the hash of code that passed the guard checker and carries the fee for
    its instruction count, then all this is so after any successful transaction of
    up to four entries. *)
Theorem setHook_hooks_ok l a balance txid sets l' :
  hooks_ok l -> (length sets <= 4)%nat -> (forall h, references (hooks l) h + 4 < 2 ^ 64) ->
  setHook hook_key l a balance txid sets = Val (tesSUCCESS, l') -> hooks_ok l'.
Proof.
  intros Hok Hsets Hb (s & root & [Hrun Hroot Ho Hr Hdefs Hhooks Hacc])%setHook_applied.
  pose proof Hok as [R C D]. pose proof (C a) as Hca.
  destruct (run_slots_counts (definitions l) (references (hooks l))) with (olds := @nil HookObj) (acct := a) (txid := txid)
    (ps := slots (chain (hooks l) a) sets) (s := mkSetState (definitions l) ∅ ∅ ∅ ∅ []) (s' := s) as [Hc Hlen];
    [| | | |done|].
  - intros h Hpos. specialize (R h). destruct (definitions l !! h); [eauto|lia].
  - apply (counts_ext _ (references (hooks l))); [intros h; unfold replaced; cbn; lia|by apply counts_start].
  - intros h. rewrite slots_old. apply references_chain.
  - intros h. cbn [newHooks length]. rewrite slots_length. pose proof (Hb h). lia.
  - cbn [newHooks length] in Hlen. rewrite slots_length in Hlen. rewrite slots_old in Hc. cbn [app] in Hc.
    assert (forall h, references (hooks l') h = replaced (references (hooks l)) (chain (hooks l) a) (newHooks s) h) as Href
      by (intros h; by apply stored_references).
    split.
    + intros h. rewrite Hdefs, Href. pose proof (written_counts _ _ _ h Hc) as Hw.
      destruct (filter _ _ !! h); [by destruct Hw as (? & ? & _)|done].
    + intros b. apply (stored_chain a (newHooks s) (hooks l)); [done|lia|done].
    + intros h d. rewrite Hdefs. pose proof (written_counts _ _ _ h Hc) as Hw. intros E. rewrite E in Hw. apply Hw.
Qed.

(** ** The reserve *)

Lemma blanks_free hs : forallb (fun h => absent (sfHookHash h)) hs = true -> chain_reserve hs = 0.
Proof.
  intros Hb. unfold chain_reserve. assert (Forall (fun h => computeHookReserve h = 0) (take 4 hs)) as Hf.
  { apply Forall_take, Forall_forall. intros x Hx. apply forallb_forall with (x := x) in Hb; [|by apply list_elem_of_In].
    unfold computeHookReserve. by destruct (sfHookHash x). }
  induction Hf as [|x l Hx _ IH]; [done|]. cbn. by rewrite Hx, IH.
Qed.

Lemma stored_reserve a hs m m' : stored a hs m m' -> chain_reserve (chain m' a) = chain_reserve hs.
Proof.
  unfold chain. intros [[Hb ->]|[_ [p ->]]]; [rewrite lookup_delete_eq|by rewrite lookup_insert_eq].
  by rewrite (blanks_free hs).
Qed.

Lemma confineOwnerCount_exact n d : 0 <= n < 2 ^ 32 -> 0 <= n + d < 2 ^ 32 -> confineOwnerCount n d = n + d.
Proof.
  intros Hn Hd. unfold confineOwnerCount. rewrite u32_small by lia.
  destruct (Z.ltb_spec 0 d); [by rewrite (proj2 (Z.ltb_ge (n + d) n)) by lia|by rewrite (proj2 (Z.ltb_ge n (n + d))) by lia].
Qed.

(** A hook chain is paid for.  A successful [setHook] changes the owner count of
    the account by exactly the difference between the reserves of its new and its old
    chain (one unit per hook, per parameter and per grant), the balance covers the
    reserve for the new count, and no other account root changes. *)
Theorem setHook_reserve l a balance txid sets l' root :
  accounts l !! a = Some root -> 0 <= sfOwnerCount root < 2 ^ 32 ->
  setHook hook_key l a balance txid sets = Val (tesSUCCESS, l') ->
  exists root', accounts l' !! a = Some root' /\
    sfOwnerCount root' = sfOwnerCount root + (chain_reserve (chain (hooks l') a) - chain_reserve (chain (hooks l) a)) /\
    accountReserve (fees l) (sfOwnerCount root') <= balance /\
    (forall b, b <> a -> accounts l' !! b = accounts l !! b).
Proof.
  intros Hroot Hn (s & root0 & [Hrun Hr0 Ho Hr Hdefs Hhooks (m & Hs & Hm)])%setHook_applied.
  rewrite Hroot in Hr0. injection Hr0 as <-. rewrite (stored_reserve a (newHooks s) (hooks l) (hooks l') Hhooks).
  set (delta := chain_reserve (newHooks s) - chain_reserve (chain (hooks l) a)) in *.
  assert (forall b, b <> a -> m !! b = accounts l !! b) as Hother.
  { intros b Hne. specialize (Hs b). destruct (accounts l !! b) as [r|]; [|done]. destruct Hs as (r' & -> & _ & _ & E).
    by rewrite E. }
  specialize (Hs a). rewrite Hroot in Hs. destruct Hs as (r & Er & Hro & _ & _).
  destruct Hm as [[-> Hz]|(r1 & Er1 & ->)].
  - exists r. replace (sfOwnerCount r) with (sfOwnerCount root + delta) by (unfold delta; lia). auto.
  - rewrite Er in Er1. injection Er1 as <-. exists (adjustOwnerCount delta r). rewrite lookup_insert_eq. split; [done|].
    cbn [sfOwnerCount adjustOwnerCount]. rewrite Hro, confineOwnerCount_exact by lia. split; [done|]. split; [done|].
    intros b Hne. rewrite lookup_insert_ne by done. auto.
Qed.

(** ** Positions *)

(** What an entry may do to the hook at its position. *)
Definition position_ok (p : option HookObj * option HookSetObj) (new : HookObj) : Prop :=
  match p.2 with
  | None => new = default blank p.1
  | Some o =>
    match inferOperation o with
    | hsoNOOP | hsoNSDELETE => new = default blank p.1
    | hsoUPDATE => sfHookHash new = p.1 ≫= sfHookHash /\ sfHookHash new <> None
    | hsoDELETE => new = blank /\ flag (default 0 (set_flags o)) hsfOVERRIDE = true
    | hsoCREATE => sfHookHash new = Some (sha512Half_s (getFieldVL (set_code o))) /\
        ((p.1 ≫= sfHookHash) <> None -> flag (default 0 (set_flags o)) hsfOVERRIDE = true)
    | hsoINSTALL => sfHookHash new = set_hash o /\
        ((p.1 ≫= sfHookHash) <> None -> flag (default 0 (set_flags o)) hsfOVERRIDE = true)
    | hsoINVALID => False
    end
  end.

Lemma install_position o oh h d s s' :
  slot_install o oh h d s = inr s' ->
  exists new, newHooks s' = newHooks s ++ [new] /\ sfHookHash new = Some h /\
    (oh <> None -> flag (default 0 (set_flags o)) hsfOVERRIDE = true).
Proof.
  unfold slot_install. destruct (_ && _) eqn:Ef; [done|]. destruct d as [d|]; [|done].
  destruct (updateHookParameters _ _ _); [done|]. intros [= <-]. eexists. split; [cbn; by rewrite release_hooks|].
  split; [done|]. intros Hoh. destruct oh; [|done]. by destruct (flag _ _).
Qed.

Lemma slot_position acct txid s old o s' :
  slot acct txid s old o = Val (inr s') -> exists new, newHooks s' = newHooks s ++ [new] /\ position_ok (old, o) new.
Proof.
  unfold slot, position_ok. cbn [fst snd]. destruct (old_namespace s old) as [ons| |]; cbn [mbind res_bind]; [|done..].
  destruct o as [o|]; [|intros [= <-]; by eexists].
  destruct (mark_namespaces_frame ∅ (fun _ => 0) (inferOperation o) o ons s) as (En & _ & _).
  set (s1 := mark_namespaces _ _ _ _) in *. rewrite <- En. destruct (inferOperation o).
  - done.
  - intros [= <-]. by eexists.
  - unfold slot_create. destruct (_ && _) eqn:Ef; [done|]. destruct (maxHookWasmSize <? _); [done|].
    destruct (find_def _ _); [intros [= E]; by eapply install_position|].
    destruct (validateHookSetEntry acct o) as [[[]|cs]|[]|]; try done.
    destruct (set_hookOn o), (set_namespace o); try done. intros [= <-]. eexists. split; [cbn; by rewrite release_hooks|].
    split; [done|]. intros Hoh. destruct (old ≫= sfHookHash); [|done]. by destruct (flag _ _).
  - destruct (set_hash o) as [h|]; [|done]. intros [= E]. by eapply install_position.
  - destruct (flag _ _) eqn:Ef; cbn [negb]; [|done]. intros [= <-]. exists blank. split; [by rewrite release_hooks|done].
  - intros [= <-]. by eexists.
  - intros [= E]. unfold slot_update in E. destruct ((old ≫= sfHookHash) ≫= _) eqn:Ed; [|done]. destruct old as [old|]; [|done].
    destruct (match set_parameters o with Some [] => _ | _ => _ end); [done|]. injection E as <-.
    eexists. split; [done|]. cbn in *. split; [done|]. by destruct (sfHookHash old).
Qed.

Lemma run_slots_positions acct txid ps s s' :
  run_slots acct txid s ps = Val (inr s') ->
  exists news, newHooks s' = newHooks s ++ news /\ Forall2 position_ok ps news.
Proof.
  revert s. induction ps as [|[old o] ps IH]; intros s; cbn [run_slots].
  { intros [= <-]. exists []. by rewrite app_nil_r. }
  destruct (slot acct txid s old o) as [[t|s1]| |] eqn:E; cbn [mbind res_bind]; [done| |done..].
  apply slot_position in E as (new & E1 & Hp). intros (news & E2 & Hf)%IH.
  exists (new :: news). split; [by rewrite E2, E1, <- (assoc (++))|by constructor].
Qed.

Lemma lookup_slots olds sets (i : nat) :
  slots olds sets !! i = match olds !! i, sets !! i with None, None => None | x, y => Some (x, y) end.
Proof.
  revert sets i. induction olds as [|o olds IH]; intros sets i.
  - cbn. rewrite list_lookup_fmap. by destruct (sets !! i).
  - destruct sets as [|x sets], i as [|i]; try done; cbn; rewrite IH; by destruct (olds !! i).
Qed.

Lemma stored_lookup a hs m m' (i : nat) :
  stored a hs m m' -> sfHookHash (default blank (chain m' a !! i)) = sfHookHash (default blank (hs !! i)) /\
    (sfHookHash (default blank (hs !! i)) <> None -> default blank (chain m' a !! i) = default blank (hs !! i)).
Proof.
  unfold chain. intros [[Hb ->]|[_ [p ->]]]; [rewrite lookup_delete_eq|by rewrite lookup_insert_eq]. cbn.
  destruct (hs !! i) as [x|] eqn:E; cbn; [|done]. apply list_elem_of_lookup_2, list_elem_of_In in E.
  rewrite forallb_forall in Hb. specialize (Hb x E). by destruct (sfHookHash x).
Qed.

(** C27: installed hooks are protected.  After a successful [SetHook], a position with an installed hook is as before if
    the transaction has no entry for it or one that asks for nothing of it; an update leaves the definition of the hook
    the same; and a hook is deleted, or a definition created or installed in its place, even the same one
    again, only by an entry with [hsfOVERRIDE], and the definition is then the one the entry names. *)
Theorem setHook_override l a balance txid sets l' (i : nat) old :
  setHook hook_key l a balance txid sets = Val (tesSUCCESS, l') ->
  chain (hooks l) a !! i = Some old -> sfHookHash old <> None ->
  let new := default blank (chain (hooks l') a !! i) in
  match sets !! i with
  | None => new = old
  | Some o =>
    match inferOperation o with
    | hsoNOOP | hsoNSDELETE => new = old
    | hsoUPDATE => sfHookHash new = sfHookHash old
    | hsoDELETE => sfHookHash new = None /\ flag (default 0 (set_flags o)) hsfOVERRIDE = true
    | hsoCREATE => sfHookHash new = Some (sha512Half_s (getFieldVL (set_code o))) /\ flag (default 0 (set_flags o)) hsfOVERRIDE = true
    | hsoINSTALL => sfHookHash new = set_hash o /\ flag (default 0 (set_flags o)) hsfOVERRIDE = true
    | hsoINVALID => False
    end
  end.
Proof.
  intros (s & root & [Hrun Hr0 Ho Hr Hdefs Hhooks Hacc])%setHook_applied Eold Hold new.
  apply run_slots_positions in Hrun as (news & En & Hf). cbn in En. subst news.
  destruct (stored_lookup a _ _ _ i Hhooks) as [Eh Es]. fold new in Eh, Es.
  assert (slots (chain (hooks l) a) sets !! i = Some (Some old, sets !! i)) as Ei by (by rewrite lookup_slots, Eold).
  destruct (Forall2_lookup_l _ _ _ _ _ Hf Ei) as (n & E & Hp). rewrite E in Eh, Es. cbn [default] in Eh, Es.
  unfold position_ok in Hp. cbn [fst snd] in Hp.
  destruct (sets !! i) as [o|]; [|cbn in Hp; subst n; by apply Es]. change (Some old ≫= sfHookHash) with (sfHookHash old) in Hp.
  destruct (inferOperation o); [done| | | | | |].
  - cbn in Hp. subst n. by apply Es.
  - rewrite Eh. destruct Hp as [Hn Hov]. split; [exact Hn|]. by apply Hov.
  - rewrite Eh. destruct Hp as [Hn Hov]. split; [exact Hn|]. by apply Hov.
  - rewrite Eh. by destruct Hp as [-> Hov].
  - cbn in Hp. subst n. by apply Es.
  - rewrite Eh. exact (proj1 Hp).
Qed.
End setHook.
