(* ===== verification/SetHookTotal.v ===== *)
(** * SetHookTotal: [setHook] always comes to a result

    On a consistent ledger a transaction that passed [preflight] is applied without a
    [LogicError], without dereferencing an absent value and without an invalid
    operation; the errors it can end in are listed.  The file also has concrete
    ledgers on which [setHook] runs, and shows where the owner directory page of the
    hook object is lost. *)

From stdpp Require Import base numbers list option gmap sorting.
From Stdlib Require Import ZArith Lia.
From S2P Require Import Prelude Enum Leb128 GuardValidate Runtime Directory Context StateLedger HookParams.
From S2P Require Import DirWalk Namespace SetHook SetHookRefs.

Local Open Scope Z_scope.

Section total.
Context `{Keylets} `{CodeHost} (hook_key : AccountID -> uint256).

(** ** Accepted entries *)

(** An entry as [preflight] lets it through. *)
Definition accepted (acct : AccountID) (o : HookSetObj) : Prop :=
  exists v, validateHookSetEntry acct o = Val v /\ v <> inl false.

Lemma preflight_accepted acct b sets :
  preflight_entries acct b sets = Val tesSUCCESS -> Forall (accepted acct) sets.
Proof.
  revert b. induction sets as [|o sets IH]; intros b; cbn [preflight_entries]; [constructor|].
  destruct (maxHookWasmSize <? _); [done|]. change (getCount o =? 0) with false. cbn match.
  destruct (validateHookSetEntry acct o) as [v|[]|] eqn:E; try done.
  intros Hp. constructor; [|by destruct v as [[]|]; try done; apply IH in Hp].
  exists v. split; [done|]. intros ->. done.
Qed.

Lemma accepted_create acct o v :
  validateHookSetEntry acct o = Val v -> inferOperation o = hsoCREATE -> v <> inl false ->
  exists hc cc, v = inr (hc, cc).
Proof.
  unfold validateHookSetEntry. intros E Eop. rewrite Eop in E. destruct (_ && _); [|by injection E as <-].
  destruct (set_code o); [|by injection E as <-]. unfold validate_code in E.
  destruct (validateGuards _ _) as [[hc cc]|[]|]; [|by injection E as <-|done..].
  destruct (validateWasm _); injection E as <-; [eauto|done].
Qed.

(** ** The loop *)

Lemma install_no_claim o oh h d s : slot_install o oh h d s <> inl tecCLAIM.
Proof.
  unfold slot_install. destruct (_ && _); [done|]. destruct d; [|done].
  destruct (updateHookParameters _ _ _) eqn:E; [|done]. by apply updateHookParameters_error in E as ->.
Qed.

Lemma update_no_claim o old d s : slot_update o old d s <> inl tecCLAIM.
Proof.
  unfold slot_update. destruct d; [|done]. destruct old; [|done].
  destruct (match set_parameters o with Some [] => _ | _ => _ end) eqn:E; [|done]. intros [= ->].
  destruct (set_parameters o) as [[|]|]; [done|by apply updateHookParameters_error in E..].
Qed.

Section loop.
Context (D0 : gmap uint256 HookDef) (R0 : uint256 -> Z).
Hypothesis HR : forall h, 0 < R0 h -> is_Some (D0 !! h).

Lemma slot_total cur acct txid s old o :
  counts D0 cur s -> (forall h, (old ≫= sfHookHash) = Some h -> is_Some (D0 !! h)) ->
  (forall x, o = Some x -> accepted acct x) ->
  exists r, slot acct txid s old o = Val r /\ r <> inl tecCLAIM.
Proof.
  intros Hc Hold Hacc. unfold slot.
  assert (exists ons, old_namespace s old = Val ons) as [ons ->].
  { unfold old_namespace. destruct old as [old|]; [|eauto]. cbn in Hold. destruct (sfHookHash old) as [h|]; [|eauto].
    destruct (sfHookNamespace old); [eauto|]. destruct (proj2 (co_dom D0 _ _ Hc h) (Hold h eq_refl)) as [d ->]. eauto. }
  cbn [mbind res_bind]. destruct o as [o|]; [|by eexists]. destruct (Hacc o eq_refl) as (v & Ev & Hv).
  set (s1 := mark_namespaces _ _ _ _). destruct (inferOperation o) eqn:Eop.
  - unfold validateHookSetEntry in Ev. rewrite Eop in Ev. by injection Ev as <-.
  - by eexists.
  - destruct (accepted_create acct o v Ev Eop Hv) as (hc & cc & ->). unfold slot_create. rewrite Ev.
    destruct (validate_create acct o hc cc Ev) as (_ & _ & [hookOn ->] & [ns ->] & _).
    destruct (_ && _); [by eexists|]. destruct (maxHookWasmSize <? _); [by eexists|].
    destruct (find_def _ _); [|by eexists]. eexists. split; [done|]. apply install_no_claim.
  - unfold inferOperation in Eop. destruct (set_hash o) as [h|]; cbn [absent negb andb] in Eop.
    + eexists. split; [done|]. apply install_no_claim.
    + by repeat case_match.
  - destruct (negb _); by eexists.
  - by eexists.
  - eexists. split; [done|]. apply update_no_claim.
Qed.

Lemma run_slots_total acct txid ps olds s :
  counts D0 (replaced R0 olds (newHooks s)) s ->
  (forall h, count_uses h (olds ++ omap fst ps) <= R0 h) ->
  (forall h, R0 h + Z.of_nat (length (newHooks s) + length ps) < 2 ^ 64) ->
  Forall (fun p => forall x, p.2 = Some x -> accepted acct x) ps ->
  exists r, run_slots acct txid s ps = Val r /\ r <> inl tecCLAIM.
Proof.
  revert olds s. induction ps as [|[old o] ps IH]; intros olds s Hc Hle Hb Hacc; cbn [run_slots]; [by eexists|].
  apply Forall_cons in Hacc as [Ho Hacc]. setoid_rewrite omap_fst_cons in Hle. setoid_rewrite (assoc (++)) in Hle.
  assert (forall h, count_uses h (olds ++ option_list old) <= R0 h) as Hle1.
  { intros h. pose proof (Hle h) as Hh. rewrite count_uses_app in Hh. pose proof (count_uses_range h (omap fst ps)). lia. }
  destruct (slot_total (replaced R0 olds (newHooks s)) acct txid s old o) as (r & E & Hr); [done| |done|].
  { intros h Eh. apply HR. specialize (Hle1 h). rewrite count_uses_app in Hle1. pose proof (count_uses_range h olds).
    destruct old as [old|]; [|done]. cbn in *. rewrite Eh, one_some, decide_True in Hle1 by done. lia. }
  rewrite E. cbn [mbind res_bind]. destruct r as [ter|s1]; [by eexists|]. cbn [length] in Hb.
  destruct (slot_replaced D0 R0 HR acct txid olds s old o s1) as [Hc1 Hl1]; [done|done| |done|].
  - intros h. pose proof (Hb h). lia.
  - apply (IH (olds ++ option_list old)); [done|done| |done]. intros h. rewrite Hl1. pose proof (Hb h). lia.
Qed.
End loop.

(** ** The writes *)

Lemma rep_set_definitions m l σ : rep l σ -> rep (set_definitions m l) σ.
Proof. intros [A1 A2 A3 A4 A5 A6 A7 A8]. split; assumption. Qed.

Lemma destroy_namespaces_total l σ a r nss :
  rep l σ -> accounts l !! a = Some r -> exists l', destroy_namespaces l a nss = Val l'.
Proof.
  revert l σ r. induction nss as [|n nss IH]; intros l σ r Hrep Er; cbn [destroy_namespaces]; [eauto|].
  destruct (destroyNamespace_spec l σ a r n Hrep Er) as (l1 & -> & Hrep1 & Ho & _). cbn [mbind res_bind].
  apply fmap_Some in Ho as (r1 & Er1 & _). by apply (IH l1 (without a n σ) r1).
Qed.

Lemma dirRemove_total d page key : dir_ok d -> exists ok d', dirRemove d page key false = Val (ok, d').
Proof.
  intros Hd. destruct (d !! page) as [node|] eqn:E; [|unfold dirRemove; rewrite E; eauto].
  destruct (decide (key ∈ sfIndexes node)) as [Hk|Hk]; [|unfold dirRemove; rewrite E, bool_decide_false by done; eauto].
  destruct (dirRemove_spec d page key Hd) as (d' & -> & _); [|eauto]. exists (sfIndexes node). split; [|done].
  unfold idx. by rewrite E.
Qed.

Definition enact_errors : list TER := [tesSUCCESS; tefBAD_LEDGER; tecDIR_FULL].

Lemma enact_hooks_total a hs l :
  dir_ok (owner_dir l a) -> (hooks l !! a = None -> forall p, ~ has (owner_dir l a) p (hook_key a)) ->
  exists ter l', enact_hooks hook_key a hs l = Val (ter, l') /\ ter ∈ enact_errors /\ accounts l' = accounts l.
Proof.
  intros Hd Hn. unfold enact_hooks. destruct (hooks l !! a) as [sle|]; destruct (forallb _ hs).
  - destruct (dirRemove_total (owner_dir l a) (hook_ownerNode sle) (hook_key a) Hd) as ([] & d' & ->); cbn;
      do 2 eexists; (split; [done|split; [set_solver|done]]).
  - do 2 eexists. split; [done|]. split; [set_solver|done].
  - do 2 eexists. split; [done|]. split; [set_solver|done].
  - destruct (dirAdd_spec false (owner_dir l a) (hook_key a) Hd (Hn eq_refl)) as ([p|] & d' & -> & _); cbn;
      do 2 eexists; (split; [done|split; [set_solver|done]]).
Qed.

(** ** [setHook] *)

(** The account's hook object is listed in its owner directory if it exists. *)
Definition owner_ok (l : Ledger) (a : AccountID) : Prop :=
  dir_ok (owner_dir l a) /\ (hooks l !! a = None -> forall p, ~ has (owner_dir l a) p (hook_key a)).

Definition setHook_results : list TER :=
  [tesSUCCESS; tecREQUIRES_FLAG; tecNO_ENTRY; tecINTERNAL; tefINTERNAL; tecINSUFFICIENT_RESERVE; tefBAD_LEDGER; tecDIR_FULL].

(** C26: a transaction that passed [preflight], applied to a consistent ledger, always
    comes to a result: [setHook] raises no [LogicError], never dereferences an absent
    definition, namespace or field, never meets an invalid operation, and returns
    success or one of seven errors. *)
Theorem setHook_total l σ a root balance txid sets :
  hooks_ok l -> rep l σ -> accounts l !! a = Some root -> owner_ok l a ->
  preflight true tesSUCCESS tesSUCCESS a (Some sets) = Val tesSUCCESS ->
  (forall h, references (hooks l) h + 4 < 2 ^ 64) ->
  exists ter l', setHook hook_key l a balance txid sets = Val (ter, l') /\ ter ∈ setHook_results.
Proof.
  intros Hok Hrep Hroot [Hod Hon] Hpre Hb. pose proof Hok as [R C D]. pose proof (C a) as Hca.
  unfold preflight in Hpre. cbn [negb] in Hpre. rewrite bool_decide_true in Hpre by done. cbn [negb] in Hpre.
  destruct (Z.of_nat (length sets) <? 1); [done|].
  destruct (Z.ltb_spec maxHookChainLength (Z.of_nat (length sets))) as [|Hlen]; [done|]. unfold maxHookChainLength in Hlen.
  destruct (preflight_entries a true sets) as [ret| |] eqn:Ep; cbn in Hpre; [|done..].
  case_bool_decide; [subst ret|congruence]. apply preflight_accepted in Ep.
  unfold setHook. fold (chain (hooks l) a).
  destruct (run_slots_total (definitions l) (references (hooks l))) with (acct := a) (txid := txid) (olds := @nil HookObj)
    (ps := slots (chain (hooks l) a) sets) (s := mkSetState (definitions l) ∅ ∅ ∅ ∅ []) as (r & E & Hr).
  - intros h Hpos. specialize (R h). destruct (definitions l !! h); [eauto|lia].
  - apply (counts_ext _ (references (hooks l))); [intros h; unfold replaced; cbn; lia|by apply counts_start].
  - intros h. rewrite slots_old. apply references_chain.
  - intros h. cbn [newHooks length]. rewrite slots_length. pose proof (Hb h). lia.
  - apply Forall_lookup. intros i p Ei x Ex. rewrite lookup_slots in Ei. rewrite Forall_lookup in Ep.
    apply (Ep i). destruct (chain (hooks l) a !! i), (sets !! i); try done; by injection Ei as <-.
  - rewrite E. cbn [mbind res_bind]. destruct r as [ter|s].
    { do 2 eexists. split; [done|]. apply run_slots_error in E. unfold slot_errors in E.
      assert (ter <> tecCLAIM) by congruence. unfold setHook_results. set_solver. }
    rewrite Hroot. destruct (_ || _); [do 2 eexists; split; [done|set_solver]|].
    destruct (balance <? _); [do 2 eexists; split; [done|set_solver]|].
    destruct (destroy_namespaces_total (write_definitions s l) σ a root (merge_sort Z.le (elements (namespacesToDestroy s))))
      as [l1 E1]; [by apply rep_set_definitions|done|]. rewrite E1. cbn [mbind res_bind].
    apply destroy_namespaces_frame in E1 as (F1 & F2 & F3 & F4 & Fs).
    destruct (enact_hooks_total a (newHooks s) (erase_definitions s l1)) as (ter & l2 & E2 & Ht & Ea).
    { unfold owner_dir. cbn. rewrite F3. exact Hod. }
    { unfold owner_dir. cbn. rewrite F1, F3. exact Hon. }
    rewrite E2. cbn [mbind res_bind]. unfold enact_errors in Ht.
    case_bool_decide; cbn [negb]; [|do 2 eexists; split; [done|set_solver]].
    destruct (_ =? 0); [do 2 eexists; split; [done|set_solver]|]. rewrite Ea. cbn.
    specialize (Fs a). cbn in Fs. rewrite Hroot in Fs. destruct Fs as (r1 & -> & _). do 2 eexists. split; [done|set_solver].
Qed.
End total.

(** ** Examples *)

Definition sample_host : CodeHost := {| sha512Half_s := of_bytes; validateWasm := fun _ => true |}.
Definition sample_hook_key (a : AccountID) : uint256 := a + 1000.

Definition create_entry : HookSetObj := mkSet (Some sample_hook) None None (Some 1) None (Some 0) (Some 0) None.
Definition delete_entry : HookSetObj := mkSet (Some []) None None None None None None (Some hsfOVERRIDE).
Definition update_entry : HookSetObj := mkSet None None None None None (Some 5) None None.
Definition blank_entry : HookSetObj := mkSet None None None None None None None None.

Definition run (l : Ledger) (sets : list HookSetObj) : dres (TER * Ledger) :=
  @setHook sample_keylets sample_host sample_hook_key l 7 250 99 sets.
Definition ledger_of (r : dres (TER * Ledger)) : Ledger := match r with Val (_, l) => l | _ => sample_ledger end.
Definition code_of (r : dres (TER * Ledger)) : option TER := match r with Val (ter, _) => Some ter | _ => None end.

(** One hook created on an empty ledger. *)
Definition sample_set : Ledger := ledger_of (run sample_ledger [create_entry]).

Lemma sample_set_run : run sample_ledger [create_entry] = Val (tesSUCCESS, sample_set).
Proof. vm_compute. reflexivity. Qed.

Lemma sample_hooks_ok : @hooks_ok sample_host sample_ledger.
Proof.
  split.
  - intros h. cbn. by rewrite lookup_empty.
  - intros a. unfold chain. cbn. rewrite lookup_empty. cbn. lia.
  - intros h d E. cbn in E. by rewrite lookup_empty in E.
Qed.

Lemma setHook_hooks_ok_witness : @hooks_ok sample_host sample_set /\ size (definitions sample_set) = 1%nat.
Proof.
  split; [|vm_compute; reflexivity].
  apply (@setHook_hooks_ok sample_keylets sample_host sample_hook_key sample_ledger 7 250 99 [create_entry]).
  - exact sample_hooks_ok.
  - cbn. lia.
  - intros h. vm_compute. reflexivity.
  - exact sample_set_run.
Defined.

Lemma setHook_reserve_witness : exists root', accounts sample_set !! 7 = Some root' /\ sfOwnerCount root' = 1.
Proof.
  destruct (@setHook_reserve sample_keylets sample_host sample_hook_key sample_ledger 7 250 99 [create_entry] sample_set
    (mkRoot 250 0 0 None 0)) as (root' & E & Ho & _); [reflexivity|cbn; lia|exact sample_set_run|].
  exists root'. split; [exact E|]. rewrite Ho. vm_compute. reflexivity.
Defined.

(** The hook of [sample_set]. *)
Definition sample_obj : HookObj := default blank (chain (hooks sample_set) 7 !! 0%nat).

Lemma setHook_override_witness :
  sfHookHash (default blank (chain (hooks (ledger_of (run sample_set [update_entry]))) 7 !! 0%nat)) = sfHookHash sample_obj.
Proof.
  exact (@setHook_override sample_keylets sample_host sample_hook_key sample_set 7 250 99 [update_entry]
    (ledger_of (run sample_set [update_entry])) 0 sample_obj ltac:(vm_compute; reflexivity)
    ltac:(vm_compute; reflexivity) ltac:(vm_compute; discriminate)).
Defined.

Lemma setHook_total_witness : exists ter l', run sample_ledger [create_entry] = Val (ter, l') /\ ter ∈ setHook_results.
Proof.
  apply (@setHook_total sample_keylets sample_host sample_hook_key sample_ledger ∅ 7 (mkRoot 250 0 0 None 0)).
  - exact sample_hooks_ok.
  - exact sample_ledger_rep.
  - reflexivity.
  - split; [exact dir_ok_empty|]. intros _ p (l & E & _). discriminate E.
  - vm_compute. reflexivity.
  - intros h. vm_compute. reflexivity.
Defined.

(** ** Where the code does not do what it says *)

(** A chain whose object is on a later page of the owner directory cannot be deleted
    once it has been updated: the new object does not take over [sfOwnerNode]. *)
Definition full_page_ledger : Ledger :=
  set_owner_dirs {[ 7 := {[ 0 := mkNode (seqZ 1 32) 0 0 ]} ]} sample_ledger.

Lemma updated_hooks_undeletable :
  let created := run full_page_ledger [create_entry] in
  let updated := run (ledger_of created) [update_entry] in
  code_of created = Some tesSUCCESS /\ code_of updated = Some tesSUCCESS /\
  code_of (run (ledger_of created) [delete_entry]) = Some tesSUCCESS /\
  code_of (run (ledger_of updated) [delete_entry]) = Some tefBAD_LEDGER.
Proof. vm_compute. auto. Qed.

(** An update without flags loses the flags the hook had. *)
Lemma update_drops_flags :
  let old := mkHookObj (Some 1) None None None None (Some hsfCOLLECT) in
  let def := mkDef 0 1 [] 0 [] 0 1 0 None 0 in
  exists s, slot_update update_entry (Some old) (Some def) (mkSetState ∅ ∅ ∅ ∅ ∅ []) = inr s /\
    sfFlags <$> newHooks s = [None].
Proof. eexists. split; vm_compute; reflexivity. Qed.

(** A transaction whose entries are all blank passes [preflight]: [getCount] counts the
    fields of the template. *)
Lemma all_blank_accepted :
  @preflight sample_host true tesSUCCESS tesSUCCESS 7 (Some [blank_entry; blank_entry]) = Val tesSUCCESS.
Proof. vm_compute. reflexivity. Qed.

(** A parameter byte costs one drop, a code byte 500. *)
Lemma parameter_bytes_cheaper :
  entry_fee (mkSet (Some [1]) None None None None None None None) = 500 /\
  entry_fee (mkSet (Some [1]) None None None (Some [mkParam (Some [1]) None]) None None None) = 501.
Proof. vm_compute. auto. Qed.
