(* ===== verification/HookApi.v ===== *)
(** * HookApi: the calls a hook makes besides state, floats and objects
      ([app/hook/impl/applyHook.cpp])

    Ending a hook ([accept], [rollback]), the guard [_g], parameters
    ([hook_param], [hook_param_set], [otxn_param]), the chain ([hook_skip],
    [hook_again], [hook_pos], [hook_hash], [hook_account]), the originating
    transaction ([otxn_id], [otxn_type], [otxn_burden], [otxn_generation]), nonces,
    and the preparation of emitted transactions ([etxn_reserve], [etxn_burden],
    [etxn_generation], [etxn_details]).

    Arguments are the unsigned 32-bit numbers the virtual machine passes, unless
    stated otherwise.  Hashes of nonces are parameters. *)

From stdpp Require Import base numbers list option gmap.
From Stdlib Require Import ZArith Lia.
From S2P Require Import Prelude Enum Runtime Directory Context.

Local Open Scope Z_scope.

(** ** Calls inside the host *)

(** A call of one API function by another: its result is a number like any other. *)
Definition call {S} (f : api S Z) : api S Z := fun s =>
  match f s with
  | Next s' a | Ret s' a => Next s' a
  | Stuck => Stuck
  end.

(** Hashes that name nonces: [sha512Half] of a prefix and the listed values.  The
    engine relies on different values having different hashes. *)
Class NonceHash := {
  emitTxnNonce : uint256 -> Z -> AccountID -> uint256 -> Z -> uint256;
  hookNonce : uint256 -> Z -> AccountID -> uint256;
  emitTxnNonce_inj x n a h f x' n' a' h' f' :
    emitTxnNonce x n a h f = emitTxnNonce x' n' a' h' f' -> x = x' /\ n = n' /\ a = a' /\ h = h' /\ f = f'
}.

Section HookApi.
Context `{NonceHash}.
(** [applyCtx.tx], [hookCtx.emitFailure] and [applyCtx.view()]. *)
Context (tx : STTx) (emitFailure : option STTx) (view : Ledger).

(** ** The end of a hook *)

(** Every second byte of what looks like UTF-16. *)
Fixpoint even_bytes (bs : list Z) : list Z :=
  match bs with
  | b0 :: _ :: bs' => b0 :: even_bytes bs'
  | _ => []
  end.

Definition HOOK_EXIT (read_ptr read_len error_code : Z) (exit_type : ExitType) : api HookContext Z :=
  let read_len := if 256 <? read_len then 256 else read_len in
  r ← get_result;
  reason ← (if read_ptr =? 0 then mret (exitReason r)
            else
              ml ← memory_length;
              _ ← return_if (NOT_IN_BOUNDS read_ptr read_len ml) OUT_OF_BOUNDS;
              bs ← mem_bytes read_ptr read_len;
              mret (if is_UTF16LE bs then even_bytes bs else bs));
  _ ← modify_result (set_exit exit_type reason error_code);
  return_code (match exit_type with ACCEPT => RC_ACCEPT | _ => RC_ROLLBACK end).

Definition accept (read_ptr read_len error_code : Z) : api HookContext Z := HOOK_EXIT read_ptr read_len error_code ACCEPT.
Definition rollback (read_ptr read_len error_code : Z) : api HookContext Z := HOOK_EXIT read_ptr read_len error_code ROLLBACK.

(** ** The guard *)

(** The counters are 32-bit numbers. *)
Definition _g (id maxitr : Z) : api HookContext Z := fun c =>
  let n := match guard_map c !! id with None => 1 | Some n => u32 (n + 1) end in
  let c := set_guard_map (<[id := n]> (guard_map c)) c in
  if maxitr <? n
  then Ret (set_result (set_exit ROLLBACK (exitReason (result c)) GUARD_VIOLATION (result c)) c) RC_ROLLBACK
  else Ret c 1.

(** ** The originating transaction *)

Definition otxn_id (write_ptr write_len flags : Z) : api HookContext Z :=
  let txID := match emitFailure with
              | Some _ => if flags =? 0 then sfTransactionHash tx else tx_id tx
              | None => tx_id tx
              end in
  _ ← return_if (write_len <? 32) TOO_SMALL;
  ml ← memory_length;
  _ ← return_if (NOT_IN_BOUNDS write_ptr 32 ml || NOT_IN_BOUNDS write_ptr write_len ml) OUT_OF_BOUNDS;
  WRITE_WASM_MEMORY_AND_RETURN write_ptr 32 (to_bytes 32 txID).

Definition otxn_type : api HookContext Z :=
  return_code (match emitFailure with Some t => tx_type t | None => tx_type tx end).

Definition otxn_burden : api HookContext Z := fun c =>
  if negb (burden c =? 0) then Ret c (i64 (burden c))
  else match sfEmitDetails tx with
  | None => Ret c 1
  | Some pd =>
    match sfEmitBurden pd with
    | None => Ret c 1
    | Some b => let b := Z.land b (2 ^ 63 - 1) in Ret (set_origin (generation c) b c) (i64 b)
    end
  end.

Definition otxn_generation : api HookContext Z := fun c =>
  if negb (generation c =? 0) then Ret c (generation c)
  else match sfEmitDetails tx with
  | None => Ret c 0
  | Some pd =>
    match sfEmitGeneration pd with
    | None => Ret c 0
    | Some g => Ret (set_origin g (burden c) c) g
    end
  end.

(** The value of the first parameter with the name; an absent or empty one is none. *)
Fixpoint find_param (name : Blob) (ps : list HookParameter) : option Blob :=
  match ps with
  | [] => None
  | p :: ps => if bool_decide (sfHookParameterName p = Some name) then Some (getFieldVL (sfHookParameterValue p))
               else find_param name ps
  end.

Definition otxn_param (write_ptr write_len read_ptr read_len : Z) : api HookContext Z :=
  _ ← check_bounds read_ptr read_len;
  _ ← check_bounds write_ptr write_len;
  _ ← return_if (read_len <? 1) TOO_SMALL;
  _ ← return_if (32 <? read_len) TOO_BIG;
  match tx_parameters tx with
  | None => return_code DOESNT_EXIST
  | Some params =>
    paramName ← mem_bytes read_ptr read_len;
    match find_param paramName params with
    | None | Some [] => return_code DOESNT_EXIST
    | Some val =>
      _ ← return_if (write_len <? vsize val) TOO_SMALL;
      WRITE_WASM_MEMORY_AND_RETURN write_ptr write_len val
    end
  end.

(** ** The hook and its chain *)

(** [hook_no] is a signed number, compared as an unsigned one. *)
Definition hook_hash (write_ptr write_len hook_no : Z) : api HookContext Z :=
  _ ← return_if (write_len <? 32) TOO_SMALL;
  _ ← check_bounds write_ptr write_len;
  r ← get_result;
  if hook_no =? -1 then WRITE_WASM_MEMORY_AND_RETURN write_ptr write_len (to_bytes 32 (hookHash r))
  else match hooks view !! account r with
  | None => return_code INTERNAL_ERROR
  | Some sle =>
    if Z.of_nat (length (sfHooks sle)) <=? u64 hook_no then return_code DOESNT_EXIST
    else match sfHooks sle !! Z.to_nat hook_no with
    | None => stuck
    | Some hook =>
      match sfHookHash hook with
      | None => return_code DOESNT_EXIST
      | Some hash => WRITE_WASM_MEMORY_AND_RETURN write_ptr write_len (to_bytes 32 hash)
      end
    end
  end.

Definition hook_account (write_ptr ptr_len : Z) : api HookContext Z :=
  _ ← check_bounds write_ptr ptr_len;
  _ ← return_if (ptr_len <? 20) TOO_SMALL;
  r ← get_result;
  WRITE_WASM_MEMORY_AND_RETURN write_ptr 20 (to_bytes 20 (account r)).

(** What a hook gets for a parameter: an override of an earlier hook comes first, and
    an empty one deletes the parameter. *)
Definition param_value (r : HookResult) (paramName : Blob) : option Blob :=
  match hookParamOverrides r !! hookHash r ≫= fun params => params !! paramName with
  | Some param => Some param
  | None => hookParams r !! paramName
  end.

Definition hook_param (write_ptr write_len read_ptr read_len : Z) : api HookContext Z :=
  _ ← check_bounds read_ptr read_len;
  _ ← check_bounds write_ptr write_len;
  _ ← return_if (read_len <? 1) TOO_SMALL;
  _ ← return_if (32 <? read_len) TOO_BIG;
  paramName ← mem_bytes read_ptr read_len;
  r ← get_result;
  match param_value r paramName with
  | None | Some [] => return_code DOESNT_EXIST
  | Some param => WRITE_WASM_MEMORY_AND_RETURN write_ptr write_len param
  end.

Definition hook_param_set (read_ptr read_len kread_ptr kread_len hread_ptr hread_len : Z) : api HookContext Z :=
  ml ← memory_length;
  _ ← return_if (NOT_IN_BOUNDS read_ptr read_len ml || NOT_IN_BOUNDS kread_ptr kread_len ml ||
                 NOT_IN_BOUNDS hread_ptr hread_len ml) OUT_OF_BOUNDS;
  _ ← return_if (kread_len <? 1) TOO_SMALL;
  _ ← return_if (maxHookParameterKeySize <? kread_len) TOO_BIG;
  _ ← return_if (negb (hread_len =? 32)) INVALID_ARGUMENT;
  _ ← return_if (maxHookParameterValueSize <? read_len) TOO_BIG;
  paramName ← mem_bytes kread_ptr kread_len;
  paramValue ← mem_bytes read_ptr read_len;
  hash ← mem_bytes hread_ptr 32;
  r ← get_result;
  _ ← return_if (max_params <=? overrideCount r) TOO_MANY_PARAMS;
  let overrides := hookParamOverrides r in
  let params := default ∅ (overrides !! of_bytes hash) in
  _ ← modify_result (fun r => set_chain (<[of_bytes hash := <[paramName := paramValue]> params]> overrides)
        (u32 (overrideCount r + 1)) (hookSkips r) (executeAgainAsWeak r) r);
  return_code read_len.

Definition hook_skip (read_ptr read_len flags : Z) : api HookContext Z :=
  _ ← check_bounds read_ptr read_len;
  _ ← return_if (negb (read_len =? 32)) INVALID_ARGUMENT;
  _ ← return_if (negb (flags =? 0) && negb (flags =? 1)) INVALID_ARGUMENT;
  bs ← mem_bytes read_ptr 32;
  r ← get_result;
  let hash := of_bytes bs in
  let set skips := modify_result (fun r => set_chain (hookParamOverrides r) (overrideCount r) skips (executeAgainAsWeak r) r) in
  if flags =? 1 then
    _ ← return_if (negb (bool_decide (hash ∈ hookSkips r))) DOESNT_EXIST;
    _ ← set (hookSkips r ∖ {[hash]});
    return_code 1
  else if bool_decide (hash ∈ hookSkips r) then return_code 1
  else match hooks view !! account r with
  | None => return_code INTERNAL_ERROR
  | Some sle =>
    if existsb (fun hook => bool_decide (sfHookHash hook = Some hash)) (sfHooks sle) then
      _ ← set ({[hash]} ∪ hookSkips r);
      return_code 1
    else return_code DOESNT_EXIST
  end.

Definition hook_pos : api HookContext Z := r ← get_result; return_code (hookChainPosition r).

Definition hook_again : api HookContext Z :=
  r ← get_result;
  _ ← return_if (executeAgainAsWeak r) ALREADY_SET;
  if isStrong r then
    _ ← modify_result (fun r => set_chain (hookParamOverrides r) (overrideCount r) (hookSkips r) true r);
    return_code 1
  else return_code PREREQUISITE_NOT_MET.

(** ** Preparing emitted transactions *)

Definition etxn_generation : api HookContext Z := n ← call otxn_generation; return_code (n + 1).

Definition etxn_reserve (count : Z) : api HookContext Z :=
  c ← get_state;
  _ ← return_if (-1 <? expected_etxn_count c) ALREADY_SET;
  _ ← return_if (count <? 1) TOO_SMALL;
  _ ← return_if (max_emit <? count) TOO_BIG;
  _ ← modify (fun c => set_emission (emit_nonce_counter c) (ledger_nonce_counter c) count (nonce_used c) c);
  return_code count.

Definition etxn_burden : api HookContext Z :=
  c ← get_state;
  _ ← return_if (expected_etxn_count c <=? -1) PREREQUISITE_NOT_MET;
  n ← call otxn_burden;
  let last_burden := u64 n in
  let burden := u64 (last_burden * u64 (expected_etxn_count c)) in
  _ ← return_if (burden <? last_burden) FEE_TOO_LARGE;
  return_code (i64 burden).

(** Which of the executions of the hook on this transaction is running. *)
Definition nonce_flags (r : HookResult) : Z :=
  Z.lor (Z.lor (if isStrong r then 2 else 0) (if isCallback r then 1 else 0)) (u32 (Z.shiftl (hookChainPosition r) 2)).

Definition etxn_nonce (write_ptr write_len : Z) : api HookContext Z :=
  _ ← check_bounds write_ptr write_len;
  c ← get_state;
  _ ← return_if (max_nonce <? emit_nonce_counter c) TOO_MANY_NONCES;
  _ ← return_if (write_len <? 32) TOO_SMALL;
  let r := result c in
  let hash := emitTxnNonce (tx_id tx) (emit_nonce_counter c) (account r) (hookHash r) (nonce_flags r) in
  _ ← modify (fun c => set_emission (u16 (emit_nonce_counter c + 1)) (ledger_nonce_counter c) (expected_etxn_count c)
                         ({[hash]} ∪ nonce_used c) c);
  WRITE_WASM_MEMORY_AND_RETURN write_ptr 32 (to_bytes 32 hash).

Definition ledger_nonce (write_ptr write_len : Z) : api HookContext Z :=
  _ ← return_if (write_len <? 32) TOO_SMALL;
  _ ← check_bounds write_ptr write_len;
  c ← get_state;
  _ ← return_if (max_nonce <? ledger_nonce_counter c) TOO_MANY_NONCES;
  let hash := hookNonce (tx_id tx) (ledger_nonce_counter c) (account (result c)) in
  _ ← modify (fun c => set_emission (emit_nonce_counter c) (u16 (ledger_nonce_counter c + 1)) (expected_etxn_count c)
                         (nonce_used c) c);
  WRITE_WASM_MEMORY_AND_RETURN write_ptr 32 (to_bytes 32 hash).

(** The pointers passed on are 32-bit numbers. *)
Definition etxn_details (write_ptr write_len : Z) : api HookContext Z :=
  _ ← check_bounds write_ptr write_len;
  c ← get_state;
  let cb := hasCallback (result c) in
  _ ← return_if (write_len <? (if cb then 138 else 116)) TOO_SMALL;
  _ ← return_if (expected_etxn_count c <=? -1) PREREQUISITE_NOT_MET;
  g ← call etxn_generation;
  burden ← call etxn_burden;
  _ ← return_if (burden <? 1) FEE_TOO_LARGE;
  _ ← mem_poke write_ptr ([0xED; 0x20; 0x2E] ++ to_bytes 4 (u32 g) ++ [0x3D] ++ to_bytes 8 burden ++ [0x5B]);
  n ← call (otxn_id (u32 (write_ptr + 17)) 32 1);
  _ ← return_if (negb (n =? 32)) INTERNAL_ERROR;
  _ ← mem_poke (write_ptr + 49) [0x5C];
  n ← call (etxn_nonce (u32 (write_ptr + 50)) 32);
  _ ← return_if (negb (n =? 32)) INTERNAL_ERROR;
  _ ← mem_poke (write_ptr + 82) ([0x5D] ++ to_bytes 32 (hookHash (result c)));
  if cb then
    _ ← mem_poke (write_ptr + 115) [0x8A; 0x14];
    n ← call (hook_account (u32 (write_ptr + 117)) 20);
    _ ← return_if (negb (n =? 20)) INTERNAL_ERROR;
    _ ← mem_poke (write_ptr + 137) [0xE1];
    return_code 138
  else
    _ ← mem_poke (write_ptr + 115) [0xE1];
    return_code 116.
End HookApi.

(** ** The guard bounds every loop *)

(** A stretch of a hook's execution, seen from the guard: the calls of [_g] that let
    the hook go on, and anything else that leaves the counters alone. *)
Inductive guard_trace : HookContext -> list (Z * Z) -> HookContext -> Prop :=
| gt_nil c : guard_trace c [] c
| gt_other c c1 t c' : guard_map c1 = guard_map c -> guard_trace c1 t c' -> guard_trace c t c'
| gt_guard c id m c1 t c' : 0 <= m < 2 ^ 32 - 1 -> _g id m c = Ret c1 1 -> guard_trace c1 t c' -> guard_trace c ((id, m) :: t) c'.

Definition guard_count (c : HookContext) (id : Z) : Z := default 0 (guard_map c !! id).

(** How often [_g] was called with [id]. *)
Definition calls_of (id : Z) (t : list (Z * Z)) : Z := Z.of_nat (length (filter (fun x => x.1 = id) t)).

Lemma calls_of_cons id x t : calls_of id (x :: t) = (if decide (x.1 = id) then 1 else 0) + calls_of id t.
Proof. unfold calls_of. rewrite filter_cons. case_decide; cbn [length]; lia. Qed.

Lemma calls_of_app id t t' : calls_of id (t ++ t') = calls_of id t + calls_of id t'.
Proof. unfold calls_of. rewrite filter_app, length_app. lia. Qed.

Lemma guard_call_step id m c :
  0 <= guard_count c id < 2 ^ 32 - 1 ->
  exists c', guard_map c' = <[id := guard_count c id + 1]> (guard_map c) /\
    ((guard_count c id + 1 <= m /\ _g id m c = Ret c' 1) \/
     (m < guard_count c id + 1 /\ _g id m c = Ret c' RC_ROLLBACK /\ exitType (result c') = ROLLBACK /\
      exitCode (result c') = GUARD_VIOLATION)).
Proof.
  intros Hn. unfold _g. set (n := match guard_map c !! id with None => 1 | Some n => u32 (n + 1) end).
  assert (n = guard_count c id + 1) as ->.
  { unfold n, guard_count in *. destruct (guard_map c !! id) as [k|]; cbn in *; [apply u32_small|]; lia. }
  destruct (Z.ltb_spec m (guard_count c id + 1)); eexists; (split; [|(by right) || (by left)]); done.
Qed.

Lemma guard_count_step c c' id k id' :
  guard_map c' = <[id := guard_count c id + k]> (guard_map c) ->
  guard_count c' id' = guard_count c id' + (if decide (id = id') then k else 0).
Proof.
  intros E. unfold guard_count at 1. rewrite E, lookup_insert. case_decide; [by subst|]. unfold guard_count. lia.
Qed.

Lemma guard_trace_counts c t c' :
  guard_trace c t c' -> (forall id, 0 <= guard_count c id < 2 ^ 32 - 1) ->
  (forall id, 0 <= guard_count c' id < 2 ^ 32 - 1) /\ (forall id, guard_count c' id = guard_count c id + calls_of id t) /\
  forall pre id m post, t = pre ++ (id, m) :: post -> guard_count c id + calls_of id pre < m.
Proof.
  induction 1 as [c|c c1 t c' E _ IH|c id m c1 t c' Hm Hg _ IH]; intros Hn.
  - split; [done|]. split; [intros id; unfold calls_of; cbn; lia|]. intros pre id m post E. by destruct pre.
  - assert (forall id, guard_count c1 id = guard_count c id) as Ec by (intros id; unfold guard_count; by rewrite E).
    destruct IH as (A & B & C); [intros id; by rewrite Ec|]. setoid_rewrite Ec in B. setoid_rewrite Ec in C. auto.
  - destruct (guard_call_step id m c (Hn id)) as (c2 & E2 & [[Hle E]|(_ & E & _)]); rewrite Hg in E; [|discriminate E].
    injection E as <-. pose proof (fun i => guard_count_step c c1 id 1 i E2) as Ec.
    destruct IH as (A & B & C).
    { intros i. rewrite Ec. pose proof (Hn i). case_decide; [subst|]; lia. }
    split; [done|]. split.
    + intros i. rewrite B, Ec, calls_of_cons. cbn [fst]. lia.
    + intros [|x pre] i mi post Et; cbn [app] in Et.
      * injection Et as <- <- _. unfold calls_of. cbn. lia.
      * injection Et as <- Et. specialize (C pre i mi post Et). rewrite Ec in C. rewrite calls_of_cons. cbn [fst]. lia.
Qed.

(** C20: the guard bounds every loop.  Start with no counters and let a hook run in
    any way.  Each time [_g(id, m)] lets it go on, [_g] has been called with that
    [id] at most [m] times, this call included; and once it has been called [m] times
    the next call ends the hook with a rollback for a guard violation. *)
Theorem guard_bounds_loops c t c' :
  guard_map c = ∅ -> guard_trace c t c' ->
  (forall pre id m post, t = pre ++ (id, m) :: post -> calls_of id pre + 1 <= m) /\
  (forall id m, m <= calls_of id t -> exists c'', _g id m c' = Ret c'' RC_ROLLBACK /\
    exitType (result c'') = ROLLBACK /\ exitCode (result c'') = GUARD_VIOLATION).
Proof.
  intros Hc Ht. assert (forall id, guard_count c id = 0) as Hz by (intros id; unfold guard_count; by rewrite Hc, lookup_empty).
  destruct (guard_trace_counts c t c' Ht) as (A & B & C); [intros id; rewrite Hz; lia|].
  setoid_rewrite Hz in B. setoid_rewrite Hz in C. split.
  - intros pre id m post E. specialize (C pre id m post E). lia.
  - intros id m Hm. destruct (guard_call_step id m c' (A id)) as (c2 & _ & [[Hle _]|(_ & E)]); [rewrite B in Hle; lia|].
    by exists c2.
Qed.

(** ** Nonces do not repeat *)

Section nonces.
Context `{NonceHash} (tx : STTx).

(** The nonce the next call of [etxn_nonce] gives. *)
Definition nonce_of (c : HookContext) : uint256 :=
  emitTxnNonce (tx_id tx) (emit_nonce_counter c) (account (result c)) (hookHash (result c)) (nonce_flags (result c)).

(** What tells two executions of hooks on one transaction apart. *)
Definition execution (c : HookContext) : AccountID * uint256 * bool * bool * Z :=
  (account (result c), hookHash (result c), isStrong (result c), isCallback (result c), hookChainPosition (result c)).

Lemma nonce_flags_inj r r' :
  0 <= hookChainPosition r < 256 -> 0 <= hookChainPosition r' < 256 -> nonce_flags r = nonce_flags r' ->
  isStrong r = isStrong r' /\ isCallback r = isCallback r' /\ hookChainPosition r = hookChainPosition r'.
Proof.
  intros Hr Hr' E. unfold nonce_flags in E. rewrite !Z.shiftl_mul_pow2, !u32_small in E by lia.
  pose proof (f_equal (fun z => Z.testbit z 0) E) as E0. pose proof (f_equal (fun z => Z.testbit z 1) E) as E1.
  pose proof (f_equal (fun z => Z.shiftr z 2) E) as E2. cbn beta in *. rewrite !Z.lor_spec, !Z.mul_pow2_bits_low in E0, E1 by lia.
  rewrite !Z.shiftr_lor, <- !Z.shiftl_mul_pow2, !Z.shiftr_shiftl_l, !Z.shiftl_0_r in E2 by lia.
  destruct (isStrong r), (isStrong r'), (isCallback r), (isCallback r'); cbn in *; try discriminate; try done.
Qed.

Lemma etxn_nonce_inv write_ptr write_len c c' :
  etxn_nonce tx write_ptr write_len c = Ret c' 32 ->
  emit_nonce_counter c <= max_nonce /\
  exists m, c' = set_memory m (set_emission (u16 (emit_nonce_counter c + 1)) (ledger_nonce_counter c) (expected_etxn_count c)
      ({[nonce_of c]} ∪ nonce_used c) c).
Proof.
  unfold etxn_nonce. intros E.
  assert (exists a, check_bounds write_ptr write_len c = Next c a) as [a Ea].
  { pose proof (quiet_check_bounds write_ptr write_len c) as Hq. unfold mbind at 1, api_bind at 1 in E.
    destruct (check_bounds write_ptr write_len c) as [s' a|s' r|] eqn:Ec; [subst; eauto| |done].
    injection E as -> ->. unfold check_bounds, memory_length, mbind, api_bind, return_if in Ec. by case_match. }
  rewrite (run_bind _ _ c c a Ea) in E. erewrite run_bind in E by done.
  destruct (Z.ltb_spec max_nonce (emit_nonce_counter c)) as [|Hn]; [discriminate E|]. rewrite run_return_if in E by done.
  destruct (write_len <? 32); [discriminate E|]. rewrite run_return_if in E by done. erewrite run_bind in E by done.
  split; [done|]. set (c1 := set_emission _ _ _ _ _) in E. change (emitTxnNonce _ _ _ _ _) with (nonce_of c) in c1.
  unfold WRITE_WASM_MEMORY_AND_RETURN, WRITE_WASM_MEMORY, mbind, api_bind, memory_length, return_if in E.
  destruct (_ <? _); [discriminate E|]. cbn in E. unfold mem_poke in E. destruct (_ && _); [|discriminate E].
  injection E as <-. by eexists.
Qed.

(** A stretch of one execution: the nonces it obtained, and anything else that leaves
    the counter and the identity of the execution alone. *)
Inductive nonce_trace : HookContext -> list uint256 -> HookContext -> Prop :=
| nt_nil c : nonce_trace c [] c
| nt_other c c1 ns c' :
    emit_nonce_counter c1 = emit_nonce_counter c -> execution c1 = execution c -> nonce_trace c1 ns c' -> nonce_trace c ns c'
| nt_nonce c wp wl c1 ns c' :
    etxn_nonce tx wp wl c = Ret c1 32 -> nonce_trace c1 ns c' -> nonce_trace c (nonce_of c :: ns) c'.

Lemma execution_nonce c c' :
  execution c = execution c' -> emit_nonce_counter c = emit_nonce_counter c' -> nonce_of c = nonce_of c'.
Proof. intros [= E1 E2 E3 E4 E5] E. unfold nonce_of, nonce_flags. by rewrite E1, E2, E3, E4, E5, E. Qed.

(** The nonces of a trace are those of its execution for ascending counters. *)
Lemma nonce_trace_spec c ns c' :
  nonce_trace c ns c' -> 0 <= emit_nonce_counter c ->
  Z.of_nat (length ns) <= Z.max 0 (256 - emit_nonce_counter c) /\ NoDup ns /\
  forall x, x ∈ ns -> exists d, execution d = execution c /\ emit_nonce_counter c <= emit_nonce_counter d /\ x = nonce_of d.
Proof.
  induction 1 as [c|c c1 ns c' En Ee _ IH|c wp wl c1 ns c' E _ IH]; intros Hc.
  - split; [cbn; lia|]. split; [constructor|]. by intros x ?%not_elem_of_nil.
  - rewrite <- En, <- Ee. apply IH. lia.
  - apply etxn_nonce_inv in E as (Hle & m & ->). unfold max_nonce in Hle. cbn [emit_nonce_counter set_memory set_emission] in IH.
    rewrite u16_small in IH by lia. destruct IH as (Hlen & Hnd & Hin); [lia|]. cbn [length]. split; [lia|]. split.
    + constructor; [|done]. intros (d & _ & Hd & E)%Hin. apply emitTxnNonce_inj in E as (_ & E & _). lia.
    + intros x [->|Hx]%elem_of_cons; [by exists c; split; [|split; [lia|]]|].
      destruct (Hin x Hx) as (d & E1 & E2 & E3). exists d. split; [done|]. split; [lia|done].
Qed.

(** Nonces for emitted transactions do not repeat.  One execution of a hook
    obtains at most 256 nonces from [etxn_nonce], all different; and two executions on
    the same transaction that differ in account, hook, strength, callback or position
    share none. *)
Theorem etxn_nonces_distinct c ns c' :
  emit_nonce_counter c = 0 -> 0 <= hookChainPosition (result c) < 256 -> nonce_trace c ns c' ->
  NoDup ns /\ (length ns <= 256)%nat /\
  forall d ms d', nonce_trace d ms d' -> emit_nonce_counter d = 0 -> 0 <= hookChainPosition (result d) < 256 ->
    execution d <> execution c -> forall x, x ∈ ns -> x ∉ ms.
Proof.
  intros Hc Hp Ht. destruct (nonce_trace_spec c ns c' Ht) as (Hl & Hnd & Hin); [lia|].
  split; [done|]. split; [lia|]. intros d ms d' Ht' Hd Hp' Hne x Hx Hx'. apply Hne.
  destruct (nonce_trace_spec d ms d' Ht') as (_ & _ & Hin'); [lia|].
  destruct (Hin x Hx) as (e & Ee & _ & ->). destruct (Hin' _ Hx') as (e' & Ee' & _ & E).
  apply emitTxnNonce_inj in E as (_ & _ & E1 & E2 & E3). rewrite <- Ee, <- Ee'.
  apply nonce_flags_inj in E3 as (E3 & E4 & E5); [unfold execution; congruence|..];
    [replace (hookChainPosition (result e)) with (hookChainPosition (result c)) by (unfold execution in Ee; congruence)|
     replace (hookChainPosition (result e')) with (hookChainPosition (result d)) by (unfold execution in Ee'; congruence)]; done.
Qed.
End nonces.

(** ** Parameters for later hooks *)

Section parameters.

(** A region of the memory, small enough for the machine. *)
Definition region_ok (c : HookContext) (ptr len : Z) : Prop :=
  0 <= ptr /\ 0 <= len /\ ptr + len <= vsize (memory c) /\ vsize (memory c) < 2 ^ 32.

Lemma region_bounds c ptr len : region_ok c ptr len -> NOT_IN_BOUNDS ptr len (vsize (memory c)) = false.
Proof. intros (H1 & H2 & H3 & H4). apply NOT_IN_BOUNDS_false; lia. Qed.

Lemma run_hook_param_set c rp rl kp kl hp :
  region_ok c rp rl -> region_ok c kp kl -> region_ok c hp 32 -> 1 <= kl <= 32 -> rl <= 256 ->
  hook_param_set rp rl kp kl hp 32 c =
    if max_params <=? overrideCount (result c) then Ret c TOO_MANY_PARAMS
    else
      let r := result c in
      let hash := of_bytes (sub_bytes (memory c) hp 32) in
      let params := <[sub_bytes (memory c) kp kl := sub_bytes (memory c) rp rl]> (default ∅ (hookParamOverrides r !! hash)) in
      Ret (set_result (set_chain (<[hash := params]> (hookParamOverrides r)) (u32 (overrideCount r + 1)) (hookSkips r)
             (executeAgainAsWeak r) r) c) rl.
Proof.
  intros Hr Hk Hh Hkl Hrl. pose proof Hr as (R1 & R2 & R3 & R4). pose proof Hk as (K1 & K2 & K3 & K4).
  pose proof Hh as (H1 & H2 & H3 & H4). unfold hook_param_set. erewrite run_bind by done. cbn [get_mem context_mem].
  rewrite (region_bounds c rp rl Hr), (region_bounds c kp kl Hk), (region_bounds c hp 32 Hh).
  rewrite !run_return_if; try done; try (apply Z.ltb_ge; unfold maxHookParameterKeySize, maxHookParameterValueSize; lia).
  rewrite !run_mem_bytes by (cbn [get_mem context_mem]; lia). cbn [get_mem context_mem]. erewrite run_bind by done.
  destruct (max_params <=? overrideCount (result c)); [done|]. rewrite run_return_if by done. done.
Qed.

Lemma run_hook_param d wp wl np nl :
  region_ok d np nl -> region_ok d wp wl -> 1 <= nl <= 32 ->
  hook_param wp wl np nl d =
    match param_value (result d) (sub_bytes (memory d) np nl) with
    | None | Some [] => Ret d DOESNT_EXIST
    | Some param => WRITE_WASM_MEMORY_AND_RETURN wp wl param d
    end.
Proof.
  intros Hn Hw Hnl. pose proof Hn as (N1 & N2 & N3 & N4). pose proof Hw as (W1 & W2 & W3 & W4).
  unfold hook_param. rewrite !run_check_bounds by (cbn [get_mem context_mem]; lia).
  rewrite !run_return_if by (apply Z.ltb_ge; lia). rewrite run_mem_bytes by (cbn [get_mem context_mem]; lia).
  erewrite run_bind by done. cbn [get_mem context_mem]. by destruct (param_value _ _) as [[|]|].
Qed.

(** An override reaches the hook it is meant for.  [hook_param_set] with regions
    inside the memory succeeds as long as fewer than sixteen overrides were set; a
    hook with the given hash that runs with those overrides then gets exactly that
    value from [hook_param] under that name in any buffer that is large enough, or
    none if the value is empty; other hooks and other names are not affected. *)
Theorem hook_param_set_get c rp rl kp kl hp :
  region_ok c rp rl -> region_ok c kp kl -> region_ok c hp 32 -> 1 <= kl <= 32 -> rl <= 256 ->
  0 <= overrideCount (result c) < max_params ->
  exists c', hook_param_set rp rl kp kl hp 32 c = Ret c' rl /\ overrideCount (result c') = overrideCount (result c) + 1 /\
    (forall d wp wl np,
      hookParamOverrides (result d) = hookParamOverrides (result c') ->
      hookHash (result d) = of_bytes (sub_bytes (memory c) hp 32) ->
      region_ok d np kl -> region_ok d wp wl -> rl <= wl -> sub_bytes (memory d) np kl = sub_bytes (memory c) kp kl ->
      hook_param wp wl np kl d =
        if rl =? 0 then Ret d DOESNT_EXIST
        else Ret (set_memory (splice (memory d) wp (sub_bytes (memory c) rp rl)) d) rl) /\
    (forall h name, h <> of_bytes (sub_bytes (memory c) hp 32) \/ name <> sub_bytes (memory c) kp kl ->
      (hookParamOverrides (result c') !! h ≫= fun ps => ps !! name) = (hookParamOverrides (result c) !! h ≫= fun ps => ps !! name)).
Proof.
  intros Hr Hk Hh Hkl Hrl Hcount. rewrite run_hook_param_set by done. unfold max_params in *.
  rewrite (proj2 (Z.leb_gt _ _)) by lia. cbv zeta. eexists. split; [done|]. cbn [result set_result hookParamOverrides overrideCount set_chain].
  split; [apply u32_small; lia|]. pose proof Hr as (R1 & R2 & R3 & R4).
  assert (vsize (sub_bytes (memory c) rp rl) = rl) as Elen.
  { unfold sub_bytes, vsize in *. rewrite length_take, length_drop. lia. }
  split.
  - intros d wp wl np Eo Eh Hnp Hwp Hle En. rewrite run_hook_param by done. unfold param_value.
    rewrite Eo, Eh, lookup_insert_eq. cbn [mbind option_bind]. rewrite En, lookup_insert_eq.
    destruct (sub_bytes (memory c) rp rl) as [|b bs] eqn:Eb.
    + rewrite <- Elen. done.
    + rewrite (proj2 (Z.eqb_neq rl 0)) by (rewrite <- Elen; unfold vsize; cbn; lia). pose proof Hwp as (W1 & W2 & W3 & W4).
      unfold WRITE_WASM_MEMORY_AND_RETURN. rewrite run_WRITE by (cbn [get_mem context_mem]; lia).
      rewrite Elen. done.
  - intros h name Hne. rewrite lookup_insert. case_decide as E; [|done]. subst h. cbn [mbind option_bind].
    rewrite lookup_insert_ne by (intros ?; subst; by destruct Hne).
    destruct (hookParamOverrides (result c) !! _); cbn; [done|by rewrite lookup_empty].
Qed.
End parameters.

(** ** Examples *)

Definition example_result : HookResult :=
  mkResult 5 7 9 1 [] (mkStateMap ∅ 0) 0 ∅ ∅ ∅ UNSET [] 0 false false true 0 0 false false.
(** Memory with a 32-byte hash, a name and a value. *)
Definition example_context : HookContext :=
  mkContext (replicate 31 0 ++ [5] ++ [1; 2] ++ [42; 43; 44] ++ replicate 27 0) 0 0 (-1) ∅ 0 0 ∅ example_result.
Definition example_tx : STTx :=
  mkTx 77 0 (Some 9) (Some 1) None None None None None None None 0.

Definition example_nonces : NonceHash.
Proof.
  refine {| emitTxnNonce x n a h f := Z.pos (encode (x, n, a, h, f)); hookNonce x n a := Z.pos (encode (x, n, a)) |}.
  intros x n a h f x' n' a' h' f' E. injection E as E. apply (inj encode) in E. by injection E.
Defined.

(** The context a call leaves. *)
Definition after (o : outcome HookContext Z) (c : HookContext) : HookContext :=
  match o with Next c' _ | Ret c' _ => c' | Stuck => c end.

Lemma guard_bounds_loops_witness :
  let c1 := after (_g 5 2 example_context) example_context in
  let c2 := after (_g 5 2 c1) c1 in
  exists c3, _g 5 2 c2 = Ret c3 RC_ROLLBACK /\ exitCode (result c3) = GUARD_VIOLATION.
Proof.
  intros c1 c2. destruct (guard_bounds_loops example_context [(5, 2); (5, 2)] c2) as [_ Hend].
  - reflexivity.
  - apply (gt_guard _ 5 2 c1); [lia|reflexivity|]. apply (gt_guard _ 5 2 c2); [lia|reflexivity|]. apply gt_nil.
  - destruct (Hend 5 2) as (c3 & E & _ & Ec); [vm_compute; discriminate|]. exists c3. split; [exact E|exact Ec].
Defined.

Lemma etxn_nonces_distinct_witness :
  let c1 := after (@etxn_nonce example_nonces example_tx 0 32 example_context) example_context in
  NoDup [@nonce_of example_nonces example_tx example_context; @nonce_of example_nonces example_tx c1].
Proof.
  intros c1. set (c2 := after (@etxn_nonce example_nonces example_tx 0 32 c1) c1).
  apply (@etxn_nonces_distinct example_nonces example_tx example_context _ c2).
  - reflexivity.
  - cbn. lia.
  - apply (nt_nonce _ _ 0 32 c1); [vm_compute; reflexivity|]. apply (nt_nonce _ _ 0 32 c2); [vm_compute; reflexivity|]. apply nt_nil.
Defined.

(** Closed facts about numbers and lists. *)
Ltac concrete := repeat split; vm_compute; (reflexivity || discriminate).

Lemma hook_param_set_get_witness :
  exists c', hook_param_set 34 3 32 2 0 32 example_context = Ret c' 3 /\
    hook_param 40 10 32 2 c' = Ret (set_memory (splice (memory c') 40 [42; 43; 44]) c') 3.
Proof.
  destruct (hook_param_set_get example_context 34 3 32 2 0) as (c' & E & _ & Hget & _); [concrete..|].
  exists c'. split; [exact E|]. assert (memory c' = memory example_context /\ hookHash (result c') = 5) as [Em Eh].
  { change c' with (after (Ret c' 3) example_context). rewrite <- E. split; vm_compute; reflexivity. }
  rewrite (Hget c' 40 10 32); [reflexivity|reflexivity|rewrite Eh; reflexivity|..];
    unfold region_ok; rewrite ?Em; concrete.
Defined.

(** The counter is compared with [>], so there are 256 nonces, one more than the limit. *)
Lemma nonce_256 :
  let c := set_emission 255 0 0 ∅ example_context in
  match @etxn_nonce example_nonces example_tx 0 32 c with Ret _ code => code | _ => 0 end = 32.
Proof. vm_compute. reflexivity. Qed.

(** The test for overflow of the burden misses one: five times 2^62 is 2^62. *)
Lemma etxn_burden_wraps :
  let c := set_origin 0 (2 ^ 62) (set_emission 0 0 5 ∅ example_context) in
  match etxn_burden example_tx c with Ret _ code => code | _ => 0 end = 2 ^ 62.
Proof. vm_compute. reflexivity. Qed.

(** Unlike [otxn_param], [hook_param] cuts a value to the buffer without an error. *)
Lemma hook_param_truncates :
  let c := after (hook_param_set 34 3 32 2 0 32 example_context) example_context in
  match hook_param 40 2 32 2 c with Ret d code => (sub_bytes (memory d) 40 3, code) | _ => ([], 0) end = ([42; 43; 0], 2).
Proof. vm_compute. reflexivity. Qed.
