(* ===== verification/Emit.v ===== *)
(** * Emit: emitted transactions ([app/hook/impl/applyHook.cpp])

    A hook may emit transactions: [emit] checks one against the rules for emitted
    transactions and queues it.  The deserialiser of transactions, the base fee, the
    generic [preflight] and the index of the last validated ledger are parameters
    ([TxHost]).

    The theorems: only transactions that follow the rules are queued, never more than
    were reserved; and because the generation of an emitted transaction is one more
    than that of the transaction that caused it and less than ten, chains of emitted
    transactions end. *)

From stdpp Require Import base numbers list option gmap relations.
From Stdlib Require Import ZArith Lia.
From S2P Require Import Prelude Enum Runtime Directory Context HookApi.

Local Open Scope Z_scope.

Class TxHost := {
  parse_tx : Blob -> option STTx;
  base_fee : STTx -> Z;
  status_new : STTx -> bool;
  preflight_emit : STTx -> bool;
  valid_ledger_index : Z
}.

(** ** The code *)

Definition isPseudoTx (t : STTx) : bool := (tx_type t =? 100) || (tx_type t =? 101) || (tx_type t =? 102) || (tx_type t =? 103).

Section emit.
Context `{TxHost} (tx : STTx).

Definition etxn_fee_base (read_ptr read_len : Z) : api HookContext Z :=
  _ ← check_bounds read_ptr read_len;
  c ← get_state;
  _ ← return_if (expected_etxn_count c <=? -1) PREREQUISITE_NOT_MET;
  blob ← mem_bytes read_ptr read_len;
  match parse_tx blob with
  | None => return_code INVALID_TXN
  | Some t => return_code (i64 (base_fee t))
  end.

(** Rules 0, 1 and 2: account, sequence, signing key. *)
Definition sender_ok (acct : AccountID) (t : STTx) : bool :=
  bool_decide (tx_account t = Some acct) && bool_decide (sfSequence t = Some 0) &&
  match sfSigningPubKey t with
  | None => false
  | Some pk => ((vsize pk =? 33) || (vsize pk =? 0)) && forallb (Z.eqb 0) pk
  end.

(** Rules 5 and 6: the window of ledgers, in 32-bit arithmetic. *)
Definition window_ok (t : STTx) : bool :=
  let ledgerSeq := u32 (valid_ledger_index + 1) in
  match sfLastLedgerSequence t with
  | None => false
  | Some tx_lls =>
    negb (tx_lls <? u32 (ledgerSeq + 1)) && negb (u32 (ledgerSeq + 5) <? tx_lls) &&
    match sfFirstLedgerSequence t with None => false | Some first => first <=? tx_lls end
  end.

Definition emit (write_ptr write_len read_ptr read_len : Z) : api HookContext Z :=
  _ ← check_bounds read_ptr read_len;
  _ ← check_bounds write_ptr write_len;
  _ ← return_if (write_len <? 32) TOO_SMALL;
  c ← get_state;
  let r := result c in
  _ ← return_if (expected_etxn_count c <? 0) PREREQUISITE_NOT_MET;
  _ ← return_if (expected_etxn_count c <=? Z.of_nat (length (emittedTxn r))) TOO_MANY_EMITTED_TXN;
  blob ← mem_bytes read_ptr read_len;
  match parse_tx blob with
  | None => return_code EMISSION_FAILURE
  | Some t =>
    _ ← return_if (isPseudoTx t) EMISSION_FAILURE;
    _ ← return_if (negb (sender_ok (account r) t)) EMISSION_FAILURE;
    match sfEmitDetails t with
    | None => return_code EMISSION_FAILURE
    | Some d =>
      match sfEmitGeneration d, sfEmitBurden d, sfEmitParentTxnID d, sfEmitNonce d, sfEmitHookHash d with
      | Some gen, Some bur, Some pTxnID, Some nonce, Some hash =>
        _ ← return_if (10 <=? gen) EMISSION_FAILURE;
        gen_proper ← call (etxn_generation tx);
        _ ← return_if (negb (gen =? u32 gen_proper)) EMISSION_FAILURE;
        bur_proper ← call (etxn_burden tx);
        _ ← return_if (negb (bur =? u64 bur_proper)) EMISSION_FAILURE;
        _ ← return_if (negb (pTxnID =? tx_id tx)) EMISSION_FAILURE;
        _ ← return_if (negb (bool_decide (nonce ∈ nonce_used c))) EMISSION_FAILURE;
        _ ← return_if (match sfEmitCallback d with Some a => negb (a =? account r) | None => false end) EMISSION_FAILURE;
        _ ← return_if (negb (hash =? hookHash r)) EMISSION_FAILURE;
        _ ← return_if (match sfSignature t with Some _ => true | None => false end) EMISSION_FAILURE;
        _ ← return_if (negb (window_ok t)) EMISSION_FAILURE;
        minfee ← call (etxn_fee_base read_ptr read_len);
        _ ← return_if (minfee <? 0) EMISSION_FAILURE;
        match sfFee t with
        | None => return_code EMISSION_FAILURE
        | Some fee =>
          _ ← return_if (fee <? minfee) EMISSION_FAILURE;
          _ ← return_if (negb (status_new t)) EMISSION_FAILURE;
          _ ← return_if (negb (preflight_emit t)) EMISSION_FAILURE;
          _ ← modify_result (fun r => set_emitted (emittedTxn r ++ [t]) r);
          ml ← memory_length;
          _ ← return_if (NOT_IN_BOUNDS write_ptr 32 ml) OUT_OF_BOUNDS;
          WRITE_WASM_MEMORY_AND_RETURN write_ptr 32 (to_bytes 32 (tx_id t))
        end
      | _, _, _, _, _ => return_code EMISSION_FAILURE
      end
    end
  end.

(** ** What the originating transaction passes on *)

Definition generation_of (t : STTx) : Z :=
  match sfEmitDetails t with Some d => default 0 (sfEmitGeneration d) | None => 0 end.

Definition burden_of (t : STTx) : Z :=
  match sfEmitDetails t with
  | Some d => match sfEmitBurden d with Some b => Z.land b (2 ^ 63 - 1) | None => 1 end
  | None => 1
  end.

(** The caches of the context are empty or right. *)
Definition origin_ok (c : HookContext) : Prop :=
  (generation c = 0 \/ generation c = generation_of tx) /\ (burden c = 0 \/ burden c = burden_of tx).

(** Two contexts that differ in those caches only. *)
Definition same_but_origin (c c' : HookContext) : Prop := exists g b, c' = set_origin g b c.

Lemma same_refl c : same_but_origin c c.
Proof. exists (generation c), (burden c). by destruct c. Qed.

Lemma same_trans c c1 c2 : same_but_origin c c1 -> same_but_origin c1 c2 -> same_but_origin c c2.
Proof. intros (g & b & ->) (g' & b' & ->). by exists g', b'. Qed.

Lemma burden_of_range : 0 <= burden_of tx < 2 ^ 63.
Proof.
  unfold burden_of. destruct (sfEmitDetails tx) as [d|]; [|lia]. destruct (sfEmitBurden d) as [b|]; [|lia].
  change (2 ^ 63 - 1) with (Z.ones 63). rewrite Z.land_ones by lia. apply Z.mod_pos_bound. lia.
Qed.

Lemma run_generation c :
  origin_ok c -> exists c', call (etxn_generation tx) c = Next c' (generation_of tx + 1) /\ origin_ok c' /\ same_but_origin c c'.
Proof.
  intros Hok. pose proof Hok as [Hg Hb]. pose proof (same_refl c) as Hrefl.
  assert (exists c', otxn_generation tx c = Ret c' (generation_of tx) /\ origin_ok c' /\ same_but_origin c c') as (c' & E & Ho & Hs).
  { unfold otxn_generation. destruct (Z.eqb_spec (generation c) 0) as [Ez|Ez]; cbn [negb].
    - unfold generation_of at 1. destruct (sfEmitDetails tx) as [d|] eqn:Ed; [|by exists c].
      destruct (sfEmitGeneration d) as [g|] eqn:Eg; [|by exists c].
      eexists. split; [done|]. split; [|by eexists _, _]. split; [|done]. right. unfold generation_of. by rewrite Ed, Eg.
    - destruct Hg as [|Hg]; [done|]. exists c. by rewrite <- Hg. }
  exists c'. split; [|done]. unfold etxn_generation, call, mbind, api_bind. by rewrite E.
Qed.

Lemma run_burden c :
  origin_ok c -> 1 <= expected_etxn_count c <= max_emit ->
  exists c' n, call (etxn_burden tx) c = Next c' n /\ origin_ok c' /\ same_but_origin c c' /\
    (burden_of tx * expected_etxn_count c < 2 ^ 64 -> u64 n = burden_of tx * expected_etxn_count c) /\
    (burden_of tx * expected_etxn_count c < 2 ^ 63 -> n = burden_of tx * expected_etxn_count c).
Proof.
  intros Hok He. pose proof Hok as [Hg Hb]. pose proof (same_refl c) as Hrefl. pose proof burden_of_range as Hr.
  assert (exists c', otxn_burden tx c = Ret c' (burden_of tx) /\ origin_ok c' /\ same_but_origin c c') as (c' & E & Ho & Hs).
  { unfold otxn_burden. destruct (Z.eqb_spec (burden c) 0) as [Ez|Ez]; cbn [negb].
    - unfold burden_of in Hr |- * at 1. destruct (sfEmitDetails tx) as [d|] eqn:Ed; [|by exists c].
      destruct (sfEmitBurden d) as [b|] eqn:Eb; [|by exists c].
      eexists. split; [by rewrite i64_small by lia|]. split; [|by eexists _, _]. split; [done|]. right. unfold burden_of. by rewrite Ed, Eb.
    - destruct Hb as [|Hb]; [done|]. exists c. by rewrite Hb, i64_small by lia. }
  unfold max_emit in He. unfold etxn_burden, call. erewrite run_bind by done. rewrite run_return_if by (apply Z.leb_gt; lia).
  unfold mbind at 1, api_bind at 1. rewrite E. rewrite (u64_small (burden_of tx)), (u64_small (expected_etxn_count c)) by lia.
  destruct (Z.ltb_spec (u64 (burden_of tx * expected_etxn_count c)) (burden_of tx)) as [Hlt|Hge].
  - exists c', FEE_TOO_LARGE. split; [done|]. split; [done|]. split; [done|]. assert (2 ^ 64 <= burden_of tx * expected_etxn_count c); [|lia].
    destruct (decide (burden_of tx * expected_etxn_count c < 2 ^ 64)); [|lia]. rewrite u64_small in Hlt by nia. nia.
  - rewrite run_return_if by done. eexists c', _. split; [done|]. split; [done|]. split; [done|]. split; intros Hs'.
    + rewrite u64_i64, (u64_small (u64 _)) by apply u64_bound. apply u64_small. nia.
    + rewrite u64_small by nia. apply i64_small. nia.
Qed.

(** ** What is emitted *)

(** What the code demands of an emitted transaction, for a hook running in context [c].  It differs from the
    list of rules in the comment before the checks: there the last ledger is before the current one plus five, the
    first ledger is after the current one, and the transaction has no signature; the code lets the last ledger be
    the current one plus five, asks of the first ledger only not to be after the last, and looks for [sfSignature], a
    field of payment channel claims, instead of [sfTxnSignature]. *)
Record emit_rules (c : HookContext) (t : STTx) : Prop := {
  er_account : tx_account t = Some (account (result c));
  er_sequence : sfSequence t = Some 0;
  er_key : exists pk, sfSigningPubKey t = Some pk /\ (vsize pk = 33 \/ vsize pk = 0) /\ Forall (eq 0) pk;
  er_signature : sfSignature t = None;
  er_details : exists d, sfEmitDetails t = Some d /\
    sfEmitGeneration d = Some (u32 (generation_of tx + 1)) /\ u32 (generation_of tx + 1) < 10 /\
    (burden_of tx * expected_etxn_count c < 2 ^ 64 -> sfEmitBurden d = Some (burden_of tx * expected_etxn_count c)) /\
    sfEmitParentTxnID d = Some (tx_id tx) /\ (exists n, sfEmitNonce d = Some n /\ n ∈ nonce_used c) /\
    sfEmitHookHash d = Some (hookHash (result c)) /\
    (forall a, sfEmitCallback d = Some a -> a = account (result c));
  er_window : exists first last, sfFirstLedgerSequence t = Some first /\ sfLastLedgerSequence t = Some last /\ first <= last /\
    u32 (u32 (valid_ledger_index + 1) + 1) <= last <= u32 (u32 (valid_ledger_index + 1) + 5);
  er_fee : exists fee, sfFee t = Some fee /\ 0 <= i64 (base_fee t) <= fee;
  er_type : ~ (100 <= tx_type t <= 103);
  er_status : status_new t = true;
  er_preflight : preflight_emit t = true
}.

Lemma sender_ok_spec acct t :
  sender_ok acct t = true ->
  tx_account t = Some acct /\ sfSequence t = Some 0 /\ exists pk, sfSigningPubKey t = Some pk /\ (vsize pk = 33 \/ vsize pk = 0) /\ Forall (eq 0) pk.
Proof.
  unfold sender_ok. intros [[->%bool_decide_eq_true ->%bool_decide_eq_true]%andb_true_iff Hk]%andb_true_iff.
  split; [done|]. split; [done|]. destruct (sfSigningPubKey t) as [pk|]; [|done]. exists pk. split; [done|].
  apply andb_true_iff in Hk as [Hz Hk]. split; [apply orb_true_iff in Hz; lia|]. apply Forall_forall. intros x Hx. rewrite forallb_forall in Hk.
  apply list_elem_of_In in Hx. apply Hk in Hx. lia.
Qed.

(** The outcome of a call made in context [c]: nothing is queued, or one transaction
    that follows the rules. *)
Definition emits (c : HookContext) (wp : Z) (o : outcome HookContext Z) : Prop :=
  exists c' code, o = Ret c' code /\
    ((emittedTxn (result c') = emittedTxn (result c) /\ code < 0) \/
     (exists t, emittedTxn (result c') = emittedTxn (result c) ++ [t] /\ emit_rules c t /\
        Z.of_nat (length (emittedTxn (result c'))) <= expected_etxn_count c /\
        code = 32 /\ memory c' = splice (memory c) wp (to_bytes 32 (tx_id t)))).

Lemma emits_fail c wp c' (code : hook_return_code) : same_but_origin c c' -> rc code < 0 -> emits c wp (Ret c' code).
Proof. intros (g & b & ->) Hc. do 2 eexists. split; [done|]. left. split; [done|lia]. Qed.

Lemma emits_return_if c wp c' b (code : hook_return_code) k :
  same_but_origin c c' -> rc code < 0 -> (b = false -> emits c wp (k tt c')) -> emits c wp ((return_if b code ≫= k) c').
Proof. intros Hs Hc Hk. destruct b; [by apply emits_fail|]. by apply Hk. Qed.

Lemma emits_check_bounds c wp p n k :
  0 <= p < 2 ^ 32 -> 0 <= n < 2 ^ 32 -> (p + n <= vsize (memory c) -> emits c wp (k tt c)) ->
  emits c wp ((check_bounds p n ≫= k) c).
Proof.
  intros Hp Hn Hk. destruct (decide (p + n <= vsize (memory c))) as [Hle|Hgt].
  - rewrite run_check_bounds by done. by apply Hk.
  - assert (check_bounds p n c = Ret c OUT_OF_BOUNDS) as E.
    { unfold check_bounds. erewrite run_bind by done. cbn [get_mem context_mem].
      destruct (NOT_IN_BOUNDS p n (vsize (memory c))) eqn:E; [done|]. apply NOT_IN_BOUNDS_false in E; [lia|done..]. }
    rewrite (run_bind_ret _ _ _ _ _ E). apply emits_fail; [apply same_refl|done].
Qed.

Ltac emits_next := apply emits_return_if; [assumption|done|intros ?].

Lemma run_fee_base c c' rp rl t :
  same_but_origin c c' -> 0 <= expected_etxn_count c -> 0 <= rp < 2 ^ 32 -> 0 <= rl < 2 ^ 32 -> rp + rl <= vsize (memory c) ->
  parse_tx (sub_bytes (memory c) rp rl) = Some t -> call (etxn_fee_base rp rl) c' = Next c' (i64 (base_fee t)).
Proof.
  intros (g & b & ->) He Hp Hl Hm Et. unfold etxn_fee_base, call. rewrite run_check_bounds by done.
  erewrite run_bind by done. rewrite run_return_if by (apply Z.leb_gt; cbn; lia).
  rewrite run_mem_bytes by (cbn [get_mem context_mem]; cbn; lia). cbn [get_mem context_mem memory set_origin]. by rewrite Et.
Qed.

(** The part of [emit] behind the checks of the details. *)
Lemma emits_queue c wp wl t c' fee minfee :
  same_but_origin c c' -> vsize (memory c) < 2 ^ 32 -> 0 <= wp -> 32 <= wl -> wp + wl <= vsize (memory c) ->
  Z.of_nat (length (emittedTxn (result c))) < expected_etxn_count c ->
  ((fee <? minfee) = false -> status_new t = true -> preflight_emit t = true -> emit_rules c t) ->
  emits c wp ((_ ← return_if (fee <? minfee) EMISSION_FAILURE;
    _ ← return_if (negb (status_new t)) EMISSION_FAILURE;
    _ ← return_if (negb (preflight_emit t)) EMISSION_FAILURE;
    _ ← modify_result (fun r => set_emitted (emittedTxn r ++ [t]) r);
    ml ← memory_length;
    _ ← return_if (NOT_IN_BOUNDS wp 32 ml) OUT_OF_BOUNDS;
    WRITE_WASM_MEMORY_AND_RETURN wp 32 (to_bytes 32 (tx_id t))) c').
Proof.
  intros Hs Hm Hwp Hwl Hw Hn Hr. emits_next. emits_next. emits_next. destruct Hs as (g & b & ->).
  erewrite run_bind by done. erewrite run_bind by done. cbn [get_mem context_mem memory set_result set_origin].
  assert (vsize (to_bytes 32 (tx_id t)) = 32) as E32 by (unfold vsize; by rewrite to_bytes_length).
  rewrite run_return_if by (apply NOT_IN_BOUNDS_false; lia). unfold WRITE_WASM_MEMORY_AND_RETURN.
  rewrite run_WRITE by (rewrite ?E32; cbn [get_mem context_mem memory set_result set_origin]; lia).
  rewrite E32. do 2 eexists. split; [done|]. right. exists t. rewrite !negb_false_iff in *.
  split; [done|]. split; [by apply Hr|]. cbn [result set_mem context_mem set_memory set_result emittedTxn set_emitted set_origin].
  rewrite length_app. cbn [length]. split; [lia|done].
Qed.

Lemma window_ok_spec t :
  window_ok t = true ->
  exists first last, sfFirstLedgerSequence t = Some first /\ sfLastLedgerSequence t = Some last /\ first <= last /\
    u32 (u32 (valid_ledger_index + 1) + 1) <= last <= u32 (u32 (valid_ledger_index + 1) + 5).
Proof.
  unfold window_ok. destruct (sfLastLedgerSequence t) as [last|]; [|done].
  destruct (sfFirstLedgerSequence t) as [first|]; [|by rewrite andb_false_r].
  intros E. bool_prop. exists first, last. repeat split; lia.
Qed.

Lemma isPseudoTx_spec t : isPseudoTx t = false -> ~ (100 <= tx_type t <= 103).
Proof. unfold isPseudoTx. intros E. bool_prop. lia. Qed.

Lemma emit_spec c wp wl rp rl :
  origin_ok c -> expected_etxn_count c <= max_emit -> vsize (memory c) < 2 ^ 32 ->
  0 <= wp < 2 ^ 32 -> 0 <= wl < 2 ^ 32 -> 0 <= rp < 2 ^ 32 -> 0 <= rl < 2 ^ 32 ->
  emits c wp (emit wp wl rp rl c).
Proof.
  intros Ho He Hm Hwp Hwl Hrp Hrl. pose proof (same_refl c) as Hrefl. unfold emit.
  apply emits_check_bounds; [done..|intros Hr]. apply emits_check_bounds; [done..|intros Hw].
  emits_next. erewrite run_bind by done. emits_next. emits_next. bool_prop.
  rewrite run_mem_bytes by (cbn [get_mem context_mem]; lia). cbn [get_mem context_mem].
  destruct (parse_tx _) as [t|] eqn:Et; [|by apply emits_fail].
  emits_next. emits_next. destruct (sfEmitDetails t) as [d|] eqn:Ed; [|by apply emits_fail].
  destruct (sfEmitGeneration d) as [gen|] eqn:Eg; [|by apply emits_fail].
  destruct (sfEmitBurden d) as [bur|] eqn:Eb; [|by apply emits_fail].
  destruct (sfEmitParentTxnID d) as [parent|] eqn:Ep; [|by apply emits_fail].
  destruct (sfEmitNonce d) as [nonce|] eqn:En; [|by apply emits_fail].
  destruct (sfEmitHookHash d) as [hash|] eqn:Eh; [|by apply emits_fail].
  emits_next. destruct (run_generation c Ho) as (c1 & E1 & Ho1 & Hs1). erewrite run_bind by done. emits_next.
  assert (expected_etxn_count c1 = expected_etxn_count c) as Ee by (by destruct Hs1 as (? & ? & ->)).
  destruct (run_burden c1 Ho1) as (c2 & n & E2 & Ho2 & Hs2 & Hn & _); [rewrite Ee; lia|]. rewrite Ee in Hn.
  pose proof (same_trans c c1 c2 Hs1 Hs2) as Hs. erewrite run_bind by done.
  emits_next. emits_next. emits_next. emits_next. emits_next. emits_next. emits_next.
  erewrite run_bind by (eapply (run_fee_base c); [done|lia|lia|lia|done|exact Et]). emits_next.
  destruct (sfFee t) as [fee|] eqn:Ef; [|by apply emits_fail].
  apply (emits_queue _ _ wl); [done|lia|lia|lia|lia|lia|]. intros Hfee Hst Hpre.
  bool_prop. destruct (sender_ok_spec (account (result c)) t) as (A1 & A2 & A3); [by destruct (sender_ok _ _)|].
  pose proof (window_ok_spec t) as Hwin. pose proof (isPseudoTx_spec t) as Hty. split; try (done || by auto).
  - by destruct (sfSignature t).
  - exists d. split; [done|]. subst gen parent hash. split; [done|]. split; [lia|].
    split; [intros Hb; rewrite Eb; f_equal; rewrite <- Hn by done; done|]. split; [done|].
    split; [exists nonce; done|]. split; [done|].
    intros a Ea. rewrite Ea in *. bool_prop. done.
  - exists fee. split; [done|lia].
Qed.

End emit.

(** ** Chains of emitted transactions *)

Section chains.
Context `{TxHost}.

(** [caused tx t]: a hook that runs on [tx] emits [t]. *)
Definition caused (tx t : STTx) : Prop :=
  exists c wp wl rp rl c' code,
    origin_ok tx c /\ expected_etxn_count c <= max_emit /\ vsize (memory c) < 2 ^ 32 /\
    0 <= wp < 2 ^ 32 /\ 0 <= wl < 2 ^ 32 /\ 0 <= rp < 2 ^ 32 /\ 0 <= rl < 2 ^ 32 /\
    emit tx wp wl rp rl c = Ret c' code /\ emittedTxn (result c') = emittedTxn (result c) ++ [t].

Lemma caused_generation tx t : caused tx t -> generation_of t = u32 (generation_of tx + 1) /\ generation_of t < 10.
Proof.
  intros (c & wp & wl & rp & rl & c' & code & Ho & He & Hm & Hwp & Hwl & Hrp & Hrl & E & Eq).
  destruct (emit_spec tx c wp wl rp rl Ho He Hm Hwp Hwl Hrp Hrl) as (c1 & code1 & E1 & Hr).
  rewrite E in E1. injection E1 as <- <-. rewrite Eq in Hr. destruct Hr as [[Hn _]|(t' & Et & Hr & _)].
  - apply (f_equal length) in Hn. rewrite length_app in Hn. cbn in Hn. lia.
  - apply app_inj_2 in Et as [_ [= ->]]; [|done]. destruct (er_details tx c t' Hr) as (d & Ed & Eg & Hlt & _).
    unfold generation_of at 1 3. rewrite Ed, Eg. done.
Qed.

(** C19: emission ends.  Starting from a transaction that was not itself emitted,
    every chain in which each transaction was emitted by a hook running on the one
    before has at most nine emitted transactions. *)
Theorem emission_ends t0 t n : sfEmitDetails t0 = None -> nsteps caused n t0 t -> (n <= 9)%nat.
Proof.
  intros H0 Hn. assert (generation_of t0 = 0) as Hg by (unfold generation_of; by rewrite H0).
  assert (generation_of t = Z.of_nat n /\ (n <= 9)%nat) as [_ ?]; [|done].
  revert t Hn. induction n as [|n IH]; intros t Hn.
  - inversion Hn; subst. split; [by rewrite Hg|lia].
  - apply nsteps_inv_r in Hn as (t1 & Hn & Hc). destruct (IH t1 Hn) as [E1 Hle].
    apply caused_generation in Hc as [E Hlt]. rewrite E1, u32_small in E by lia. lia.
Qed.
End chains.

(** ** Examples *)

Definition example_details : EmitDetails := mkDetails (Some 1) (Some 2) (Some 77) (Some 123) None (Some 5).
Definition example_emitted : STTx :=
  mkTx 88 0 (Some 7) (Some 0) (Some []) None (Some 11) (Some 12) (Some 10) (Some example_details) None 0.
Definition example_host : TxHost :=
  {| parse_tx := fun bs => match bs with [] => None | _ => Some example_emitted end; base_fee := fun _ => 10;
     status_new := fun _ => true; preflight_emit := fun _ => true; valid_ledger_index := 9 |}.
Definition emit_context : HookContext := set_emission 1 0 2 {[ 123 ]} example_context.


Lemma example_caused : @caused example_host example_tx example_emitted.
Proof.
  exists emit_context, 0, 32, 0, 10, (after (@emit example_host example_tx 0 32 0 10 emit_context) emit_context), 32.
  split; [split; by left|]. repeat split; try (vm_compute; (reflexivity || discriminate)); lia.
Qed.

Lemma emission_ends_witness : @caused example_host example_tx example_emitted /\ (1 <= 9)%nat.
Proof.
  split; [exact example_caused|]. apply (@emission_ends example_host example_tx example_emitted 1); [reflexivity|].
  eapply nsteps_l; [exact example_caused|apply nsteps_O].
Defined.

(** The same nonce can be used twice: it is not taken out of the set. *)
Lemma emit_nonce_reused :
  let c1 := after (@emit example_host example_tx 0 32 0 10 emit_context) emit_context in
  match @emit example_host example_tx 0 32 0 10 c1 with
  | Ret c2 code => (code, (fun t => sfEmitDetails t ≫= sfEmitNonce) <$> emittedTxn (result c2))
  | _ => (0, [])
  end = (32, [Some 123; Some 123]).
Proof. vm_compute. reflexivity. Qed.
