(* ===== verification/EmitDetails.v ===== *)
(** * EmitDetails: the object [etxn_details] writes

    [etxn_details] fills a buffer with the serialised [sfEmitDetails] of a transaction
    to be emitted.  The theorem connects it with the parser of serialised objects
    ([Sto]) and with the rules of [emit]: the bytes are one well-formed object whose
    fields are well-formed too, and these are the generation, burden, parent, nonce and
    hook that [emit] asks for. *)

From stdpp Require Import base numbers list option gmap.
From Stdlib Require Import ZArith Lia.
From S2P Require Import Prelude Enum Runtime Sto Directory Context HookApi Emit.

Local Open Scope Z_scope.

(** ** Consecutive writes *)

Lemma splice_adjacent m p a b :
  0 <= p -> p + vsize a + vsize b <= vsize m ->
  splice (splice m p a) (p + vsize a) b = splice m p (a ++ b).
Proof.
  intros Hp Hm. unfold splice, vsize in *. rewrite (assoc (++) (take _ m) a (drop _ m)).
  rewrite (take_app_length' (take _ m ++ a)) by (rewrite length_app, length_take; lia).
  rewrite drop_app, drop_ge by (rewrite length_app, length_take; lia). cbn [app].
  rewrite drop_drop, length_app, length_take, length_app, <- !(assoc (++)). do 3 f_equal. f_equal. lia.
Qed.

Lemma splice_nil m p : 0 <= p <= vsize m -> splice m p [] = m.
Proof. intros Hp. unfold splice, vsize in *. cbn. rewrite Nat.add_0_r. apply take_drop. Qed.

Lemma splice_next m p q a b :
  q = p + vsize a -> 0 <= p -> p + vsize a + vsize b <= vsize m -> splice (splice m p a) q b = splice m p (a ++ b).
Proof. intros ->. apply splice_adjacent. Qed.

Section details.
Context `{NonceHash} (tx : STTx) (emitFailure : option STTx).

(** ** The calls that write into the buffer *)

Lemma run_otxn_id c p :
  region_ok c p 32 ->
  call (otxn_id tx emitFailure p 32 1) c = Next (set_memory (splice (memory c) p (to_bytes 32 (tx_id tx))) c) 32.
Proof.
  intros Hr. pose proof Hr as (R1 & R2 & R3 & R4). unfold call, otxn_id. rewrite run_return_if by done.
  erewrite run_bind by done. cbn [get_mem context_mem]. rewrite (region_bounds c p 32 Hr). rewrite run_return_if by done.
  assert (vsize (to_bytes 32 (tx_id tx)) = 32) as E32 by (unfold vsize; by rewrite to_bytes_length).
  unfold WRITE_WASM_MEMORY_AND_RETURN. destruct emitFailure; cbn [Z.eqb];
    (rewrite run_WRITE by (rewrite ?E32; cbn [get_mem context_mem]; lia)); by rewrite E32.
Qed.

(** The context after a nonce was taken, apart from the memory. *)
Definition took_nonce (c : HookContext) : HookContext :=
  set_emission (emit_nonce_counter c + 1) (ledger_nonce_counter c) (expected_etxn_count c) ({[nonce_of tx c]} ∪ nonce_used c) c.

Lemma run_etxn_nonce c p :
  region_ok c p 32 -> 0 <= emit_nonce_counter c <= max_nonce ->
  call (etxn_nonce tx p 32) c = Next (set_memory (splice (memory c) p (to_bytes 32 (nonce_of tx c))) (took_nonce c)) 32.
Proof.
  intros (R1 & R2 & R3 & R4) Hn. unfold max_nonce in Hn. unfold call, etxn_nonce.
  rewrite run_check_bounds by (cbn [get_mem context_mem]; lia). erewrite run_bind by done.
  rewrite run_return_if by (apply Z.ltb_ge; unfold max_nonce; lia). rewrite run_return_if by done. erewrite run_bind by done.
  change (emitTxnNonce _ _ _ _ _) with (nonce_of tx c).
  assert (vsize (to_bytes 32 (nonce_of tx c)) = 32) as E32 by (unfold vsize; by rewrite to_bytes_length).
  unfold WRITE_WASM_MEMORY_AND_RETURN. rewrite run_WRITE by (rewrite ?E32; cbn [get_mem context_mem memory set_emission]; lia).
  rewrite E32. unfold took_nonce. rewrite u16_small by lia. done.
Qed.

Lemma run_hook_account c p :
  region_ok c p 20 ->
  call (hook_account p 20) c = Next (set_memory (splice (memory c) p (to_bytes 20 (account (result c)))) c) 20.
Proof.
  intros (R1 & R2 & R3 & R4). unfold call, hook_account. rewrite run_check_bounds by (cbn [get_mem context_mem]; lia).
  rewrite run_return_if by done. erewrite run_bind by done.
  assert (vsize (to_bytes 20 (account (result c))) = 20) as E20 by (unfold vsize; by rewrite to_bytes_length).
  unfold WRITE_WASM_MEMORY_AND_RETURN. rewrite run_WRITE by (rewrite ?E20; cbn [get_mem context_mem]; lia). by rewrite E20.
Qed.

(** ** The object *)

(** The fields, with the identifiers of [sfEmitGeneration] and its companions. *)
Definition details_fields (gen burden parent nonce hash : Z) (callback : option Z) : list sto_field :=
  [(0x2002E, [0x20; 0x2E] ++ to_bytes 4 gen); (0x3000D, [0x3D] ++ to_bytes 8 burden);
   (0x5000B, [0x5B] ++ to_bytes 32 parent); (0x5000C, [0x5C] ++ to_bytes 32 nonce); (0x5000D, [0x5D] ++ to_bytes 32 hash)] ++
  match callback with Some a => [(0x8000A, [0x8A; 0x14] ++ to_bytes 20 a)] | None => [] end.

Definition details_bytes (o : list sto_field) : list Z := [0xED] ++ encode o ++ [0xE1].

Lemma bytes_forallb bs : bytes_ok bs -> forallb (fun b => (0 <=? b) && (b <? 256)) bs = true.
Proof.
  intros Hb. apply forallb_forall. intros b Hin%list_elem_of_In. unfold bytes_ok in Hb. rewrite Forall_forall in Hb.
  specialize (Hb b Hin). unfold byte_range in Hb. apply andb_true_iff. rewrite Z.leb_le, Z.ltb_lt. lia.
Qed.

(** A list of known length, spelt out. *)
Ltac spell l := repeat (destruct l as [|? l]; [try discriminate|try discriminate]).

(** The verdict on a field whose payload does not matter. *)
Lemma field_ok_measured last id bs it :
  bytes_ok bs -> vsize bs < 2 ^ 30 -> measured last bs = Val it -> it_length it = vsize bs -> item_id it = id ->
  field_ok last (id, bs) = true.
Proof.
  intros Hb Hs Hm Hl Hi. unfold field_ok. cbn [fst snd]. rewrite bytes_forallb, (proj2 (Z.ltb_lt _ _)), Hm by done.
  by rewrite Hl, Hi, !Z.eqb_refl.
Qed.

Lemma measured_4 last b : length b = 4%nat -> measured last ([0x20; 0x2E] ++ b) = Val (mkItem 6 2 46 2 4).
Proof. intros E. spell b. destruct last; vm_compute; reflexivity. Qed.
Lemma measured_8 last b : length b = 8%nat -> measured last ([0x3D] ++ b) = Val (mkItem 9 3 13 1 8).
Proof. intros E. spell b. destruct last; vm_compute; reflexivity. Qed.
Lemma measured_32 last k b :
  k = 0x5B \/ k = 0x5C \/ k = 0x5D -> length b = 32%nat -> measured last ([k] ++ b) = Val (mkItem 33 5 (k - 0x50) 1 32).
Proof. intros Hk E. spell b. destruct Hk as [->|[->| ->]]; destruct last; vm_compute; reflexivity. Qed.
Lemma measured_20 last b : length b = 20%nat -> measured last ([0x8A; 0x14] ++ b) = Val (mkItem 22 8 10 2 20).
Proof. intros E. spell b. destruct last; vm_compute; reflexivity. Qed.

Lemma measured_details a b c d e (f : option (list Z)) :
  length a = 4%nat -> length b = 8%nat -> length c = 32%nat -> length d = 32%nat -> length e = 32%nat ->
  match f with Some f => length f = 20%nat | None => True end ->
  let n := match f with Some _ => 138 | None => 116 end in
  measured true ([0xED; 0x20; 0x2E] ++ a ++ [0x3D] ++ b ++ [0x5B] ++ c ++ [0x5C] ++ d ++ [0x5D] ++ e ++
    match f with Some f => [0x8A; 0x14] ++ f | None => [] end ++ [0xE1]) = Val (mkItem n 14 13 1 (n - 2)).
Proof.
  intros Ea Eb Ec Ed Ee Ef. spell a. spell b. spell c. spell d. spell e.
  destruct f as [f|]; [spell f|]; vm_compute; reflexivity.
Qed.

Lemma details_bytes_eq gen burden parent nonce hash callback :
  details_bytes (details_fields gen burden parent nonce hash callback) =
  [0xED; 0x20; 0x2E] ++ to_bytes 4 gen ++ [0x3D] ++ to_bytes 8 burden ++ [0x5B] ++ to_bytes 32 parent ++
  [0x5C] ++ to_bytes 32 nonce ++ [0x5D] ++ to_bytes 32 hash ++
  match callback with Some a => [0x8A; 0x14] ++ to_bytes 20 a | None => [] end ++ [0xE1].
Proof.
  unfold details_bytes, details_fields, encode. cbn [app fmap list_fmap snd concat].
  destruct callback; cbn [app fmap list_fmap snd concat]; repeat (rewrite <- (assoc (++)); cbn [app]); done.
Qed.

Lemma vsize_details gen burden parent nonce hash callback :
  vsize (details_bytes (details_fields gen burden parent nonce hash callback)) =
  match callback with Some _ => 138 | None => 116 end.
Proof. rewrite details_bytes_eq. destruct callback; unfold vsize; rewrite !length_app, !to_bytes_length; done. Qed.

Lemma bytes_ok_details gen burden parent nonce hash callback :
  bytes_ok (details_bytes (details_fields gen burden parent nonce hash callback)).
Proof.
  assert (forall b, 0 <= b < 256 -> bytes_ok [b]) as H1 by (intros b Hb; constructor; [exact Hb|constructor]).
  rewrite details_bytes_eq. unfold bytes_ok in *. destruct callback; rewrite !Forall_app;
    repeat split; try apply to_bytes_ok; try (apply H1; lia); repeat constructor; lia.
Qed.

(** The object and each of its fields are well-formed. *)
Lemma details_ok gen burden parent nonce hash callback :
  let o := details_fields gen burden parent nonce hash callback in
  object_ok o = true /\ field_ok true (0xE000D, details_bytes o) = true.
Proof.
  intros o. assert (forall n z, length (to_bytes n z) = n) as Hl by apply to_bytes_length.
  assert (forall n z b, 0 <= b < 256 -> bytes_ok (b :: to_bytes n z)) as H1 by (intros; constructor; [done|apply to_bytes_ok]).
  assert (forall n z b b', 0 <= b < 256 -> 0 <= b' < 256 -> bytes_ok (b :: b' :: to_bytes n z)) as H2 by (intros; constructor; [done|by apply H1]).
  split.
  - unfold o, details_fields. cbn [app object_ok]. rewrite !andb_true_iff. repeat split.
    + eapply field_ok_measured; [apply H2; lia|done|by apply measured_4|done|done].
    + eapply field_ok_measured; [apply H1; lia|done|by apply measured_8|done|done].
    + eapply field_ok_measured; [apply H1; lia|done|apply measured_32; [by left|done]|done|done].
    + eapply field_ok_measured; [apply H1; lia|done|apply measured_32; [right; by left|done]|done|done].
    + eapply field_ok_measured; [apply H1; lia|done|apply measured_32; [right; by right|done]|done|done].
    + destruct callback as [a|]; [|done]. cbn [object_ok]. rewrite andb_true_r.
      eapply field_ok_measured; [apply H2; lia|done|by apply measured_20|done|done].
  - pose proof (measured_details (to_bytes 4 gen) (to_bytes 8 burden) (to_bytes 32 parent)
      (to_bytes 32 nonce) (to_bytes 32 hash) (to_bytes 20 <$> callback)) as Hm. cbv zeta in Hm.
    apply (field_ok_measured true _ _ (mkItem (match callback with Some _ => 138 | None => 116 end) 14 13 1
      (match callback with Some _ => 138 | None => 116 end - 2))); unfold o.
    + apply bytes_ok_details.
    + rewrite vsize_details. by destruct callback.
    + rewrite details_bytes_eq. destruct callback; cbn [fmap option_fmap option_map] in *; apply Hm; done.
    + by rewrite vsize_details.
    + by destruct callback.
Qed.

(** ** Filling the buffer

    The state while [X] has been written at [wp], and the steps that append to it. *)
Definition filled (wp : Z) (X : list Z) (d : HookContext) : HookContext := set_memory (splice (memory d) wp X) d.

Definition room (wp : Z) (d : HookContext) (n : Z) : Prop := 0 <= wp /\ wp + n <= vsize (memory d) /\ vsize (memory d) < 2 ^ 32.

Lemma filled_region wp X d n : room wp d (vsize X + n) -> 0 <= n -> region_ok (filled wp X d) (u32 (wp + vsize X)) n.
Proof.
  intros (H1 & H2 & H3) Hn. pose proof (vsize_nonneg X). unfold region_ok, filled. cbn [memory set_memory].
  rewrite splice_length, u32_small by lia. lia.
Qed.

Lemma filled_next wp X d n bs :
  room wp d (vsize X + n) -> vsize bs = n -> splice (memory (filled wp X d)) (wp + vsize X) bs = splice (memory d) wp (X ++ bs).
Proof. intros (H1 & H2 & H3) Hn. apply splice_adjacent; lia. Qed.

Section steps.
Context {B : Type} (wp : Z) (X : list Z) (d : HookContext).

Lemma poke_step q bs (k : unit -> api HookContext B) :
  q = wp + vsize X -> room wp d (vsize X + vsize bs) ->
  (mem_poke q bs ≫= k) (filled wp X d) = k tt (filled wp (X ++ bs) d).
Proof.
  intros -> Hr. pose proof Hr as (H1 & H2 & H3). pose proof (vsize_nonneg X). pose proof (vsize_nonneg bs).
  rewrite run_mem_poke by (cbn [get_mem context_mem filled memory set_memory]; rewrite ?splice_length by lia; lia).
  cbn [get_mem set_mem context_mem]. by rewrite (filled_next _ _ _ (vsize bs)).
Qed.

Lemma otxn_id_step q (k : Z -> api HookContext B) :
  q = wp + vsize X -> room wp d (vsize X + 32) ->
  (call (otxn_id tx emitFailure (u32 q) 32 1) ≫= k) (filled wp X d) = k 32 (filled wp (X ++ to_bytes 32 (tx_id tx)) d).
Proof.
  intros -> Hr. pose proof Hr as (H1 & H2 & H3). pose proof (vsize_nonneg X).
  erewrite run_bind by (apply run_otxn_id, filled_region; [done|lia]).
  rewrite u32_small, (filled_next _ _ _ 32) by (done || lia). done.
Qed.

Lemma nonce_step q (k : Z -> api HookContext B) :
  q = wp + vsize X -> room wp d (vsize X + 32) -> 0 <= emit_nonce_counter d <= max_nonce ->
  (call (etxn_nonce tx (u32 q) 32) ≫= k) (filled wp X d) = k 32 (filled wp (X ++ to_bytes 32 (nonce_of tx d)) (took_nonce d)).
Proof.
  intros -> Hr Hn. pose proof Hr as (H1 & H2 & H3). pose proof (vsize_nonneg X).
  erewrite run_bind by (apply run_etxn_nonce; [apply filled_region; [done|lia]|done]).
  rewrite u32_small, (filled_next _ _ _ 32) by (done || lia). done.
Qed.

Lemma account_step q (k : Z -> api HookContext B) :
  q = wp + vsize X -> room wp d (vsize X + 20) ->
  (call (hook_account (u32 q) 20) ≫= k) (filled wp X d) = k 20 (filled wp (X ++ to_bytes 20 (account (result d))) d).
Proof.
  intros -> Hr. pose proof Hr as (H1 & H2 & H3). pose proof (vsize_nonneg X).
  erewrite run_bind by (apply run_hook_account, filled_region; [done|lia]).
  rewrite u32_small, (filled_next _ _ _ 20) by (done || lia). done.
Qed.
End steps.

(** The size of what has been written. *)
Ltac sizes := unfold vsize; rewrite ?length_app, ?to_bytes_length; cbn [length]; lia.

(** [etxn_details] writes what [emit] asks for.  In a hook that has reserved
    transactions and nonces left, with a buffer that is large enough, the call
    succeeds and changes nothing but those 138 bytes (116 without a callback), which
    are one well-formed serialised object.  Its fields are well-formed and are the
    generation and burden for the next transaction, the originating transaction, a
    nonce that now counts as obtained, the hook, and its account if it has a callback. *)
Theorem etxn_details_object c wp wl :
  origin_ok tx c -> region_ok c wp wl -> 1 <= expected_etxn_count c <= max_emit -> 0 <= emit_nonce_counter c <= max_nonce ->
  0 < burden_of tx -> burden_of tx * expected_etxn_count c < 2 ^ 63 ->
  let cb := hasCallback (result c) in
  let n := if cb then 138 else 116 in
  let o := details_fields (u32 (generation_of tx + 1)) (burden_of tx * expected_etxn_count c) (tx_id tx) (nonce_of tx c)
             (hookHash (result c)) (if cb then Some (account (result c)) else None) in
  n <= wl ->
  exists c', etxn_details tx emitFailure wp wl c = Ret c' n /\
    memory c' = splice (memory c) wp (details_bytes o) /\ vsize (details_bytes o) = n /\
    object_ok o = true /\ field_ok true (0xE000D, details_bytes o) = true /\ nonce_of tx c ∈ nonce_used c'.
Proof.
  intros Ho Hr He Hn Hb Hbe cb n o Hwl. pose proof Hr as (R1 & R2 & R3 & R4). unfold etxn_details.
  rewrite run_check_bounds by (cbn [get_mem context_mem]; lia). erewrite run_bind by done. fold cb. fold n.
  rewrite run_return_if by (apply Z.ltb_ge; lia). rewrite run_return_if by (apply Z.leb_gt; lia).
  destruct (run_generation tx c Ho) as (c1 & E1 & Ho1 & Hs1). erewrite run_bind by done.
  destruct (run_burden tx c1 Ho1) as (c2 & b & E2 & Ho2 & Hs2 & _ & Eb).
  { destruct Hs1 as (? & ? & ->). exact He. }
  erewrite run_bind by done. destruct (same_trans c c1 c2 Hs1 Hs2) as (g' & b' & ->).
  assert (b = burden_of tx * expected_etxn_count c) as -> by (destruct Hs1 as (? & ? & ->); by apply Eb). clear E1 E2 Eb Hs1 Hs2 Ho1 Ho2 c1.
  rewrite run_return_if by (apply Z.ltb_ge; nia). set (d := set_origin g' b' c).
  assert (room wp d n) as Hroom by (repeat split; cbn; lia).
  assert (forall k, k <= n -> room wp d k /\ room wp (took_nonce d) k) as Hk
    by (intros k Hk; destruct Hroom as (? & ? & ?); repeat split; cbn in *; lia).
  assert (d = filled wp [] d) as -> by (unfold filled; rewrite splice_nil by (cbn; lia); by destruct c).
  assert (116 <= n) by (unfold n; destruct cb; lia).
  rewrite poke_step; [|sizes|apply Hk; sizes].
  rewrite otxn_id_step; [|sizes|apply Hk; sizes].
  rewrite run_return_if by done.
  rewrite poke_step; [|sizes|apply Hk; sizes].
  rewrite nonce_step; [|sizes|apply Hk; sizes|exact Hn].
  rewrite run_return_if by done.
  rewrite poke_step; [|sizes|apply Hk; sizes].
  destruct (details_ok (u32 (generation_of tx + 1)) (burden_of tx * expected_etxn_count c) (tx_id tx) (nonce_of tx c)
    (hookHash (result c)) (if cb then Some (account (result c)) else None)) as [Hobj Hfield]. fold o in Hobj, Hfield.
  assert (vsize (details_bytes o) = n) as Hsz by (unfold o; rewrite vsize_details; by destruct cb).
  assert (nonce_of tx c ∈ {[nonce_of tx c]} ∪ nonce_used c) as Hnonce by (apply elem_of_union_l; by apply elem_of_singleton_2).
  destruct cb.
  - rewrite poke_step; [|sizes|apply Hk; sizes].
    rewrite account_step; [|sizes|apply Hk; sizes].
    rewrite run_return_if by done.
    rewrite poke_step; [|sizes|apply Hk; sizes].
    eexists. split; [reflexivity|]. split; [|split; [exact Hsz|split; [exact Hobj|split; [exact Hfield|exact Hnonce]]]].
    unfold o. rewrite details_bytes_eq. cbn [filled memory set_memory took_nonce set_emission d set_origin]. reflexivity.
  - rewrite poke_step; [|sizes|apply Hk; sizes].
    eexists. split; [reflexivity|]. split; [|split; [exact Hsz|split; [exact Hobj|split; [exact Hfield|exact Hnonce]]]].
    unfold o. rewrite details_bytes_eq. cbn [filled memory set_memory took_nonce set_emission d set_origin]. reflexivity.
Qed.
End details.

(** A context with more memory. *)
Definition wide_context : HookContext := set_memory (replicate 128 0) example_context.

Lemma etxn_details_object_witness :
  exists c', @etxn_details example_nonces example_tx None 1 120 (set_emission 0 0 2 ∅ wide_context) = Ret c' 116.
Proof.
  destruct (@etxn_details_object example_nonces example_tx None (set_emission 0 0 2 ∅ wide_context) 1 120) as (c' & E & _).
  - split; by left.
  - concrete.
  - concrete.
  - concrete.
  - reflexivity.
  - reflexivity.
  - vm_compute. discriminate.
  - exists c'. exact E.
Defined.
