(* ===== verification/Tsh.v ===== *)
(** * Tsh: the stakeholders of a transaction ([app/hook/impl/applyHook.cpp])

    [getTransactionalStakeHolders] names the accounts, other than the sender, whose
    hooks run with a transaction, and which of them may roll it back.  The code
    nominates accounts case by case into an ordered map with a counter and copies the
    map into a vector at the end; the theorem relates the vector to the plain list of
    nominations. *)

From stdpp Require Import base numbers list option gmap sorting fin_map_dom.
From Stdlib Require Import ZArith Lia.
From S2P Require Import Prelude Enum Runtime Directory Context StateLedger StateCache StateFinal.

Local Open Scope Z_scope.

(** ** Transactions and ledger objects *)

Definition ttPAYMENT : Z := 0.
Definition ttESCROW_CREATE : Z := 1.
Definition ttESCROW_FINISH : Z := 2.
Definition ttACCOUNT_SET : Z := 3.
Definition ttESCROW_CANCEL : Z := 4.
Definition ttREGULAR_KEY_SET : Z := 5.
Definition ttOFFER_CREATE : Z := 7.
Definition ttOFFER_CANCEL : Z := 8.
Definition ttTICKET_CREATE : Z := 10.
Definition ttSIGNER_LIST_SET : Z := 12.
Definition ttPAYCHAN_CREATE : Z := 13.
Definition ttPAYCHAN_FUND : Z := 14.
Definition ttPAYCHAN_CLAIM : Z := 15.
Definition ttCHECK_CREATE : Z := 16.
Definition ttCHECK_CASH : Z := 17.
Definition ttCHECK_CANCEL : Z := 18.
Definition ttDEPOSIT_PREAUTH : Z := 19.
Definition ttTRUST_SET : Z := 20.
Definition ttACCOUNT_DELETE : Z := 21.
Definition ttHOOK_SET : Z := 22.
Definition ttNFTOKEN_MINT : Z := 25.
Definition ttNFTOKEN_BURN : Z := 26.
Definition ttNFTOKEN_CREATE_OFFER : Z := 27.
Definition ttNFTOKEN_CANCEL_OFFER : Z := 28.
Definition ttNFTOKEN_ACCEPT_OFFER : Z := 29.
Definition ttINVOKE : Z := 99.
Definition ttEMIT_FAILURE : Z := 103.

Definition TSHAllowances : gmap Z Z := list_to_map
  [(ttPAYMENT, tshROLLBACK); (ttESCROW_CREATE, tshROLLBACK); (ttESCROW_FINISH, tshROLLBACK);
   (ttACCOUNT_SET, tshNONE); (ttESCROW_CANCEL, tshCOLLECT); (ttREGULAR_KEY_SET, tshROLLBACK);
   (ttOFFER_CREATE, tshCOLLECT); (ttOFFER_CANCEL, tshNONE); (ttTICKET_CREATE, tshNONE);
   (ttSIGNER_LIST_SET, tshROLLBACK); (ttPAYCHAN_CREATE, tshROLLBACK); (ttPAYCHAN_FUND, tshCOLLECT);
   (ttPAYCHAN_CLAIM, tshCOLLECT); (ttCHECK_CREATE, tshROLLBACK); (ttCHECK_CASH, tshROLLBACK);
   (ttCHECK_CANCEL, tshCOLLECT); (ttDEPOSIT_PREAUTH, tshROLLBACK); (ttTRUST_SET, tshCOLLECT);
   (ttACCOUNT_DELETE, tshROLLBACK); (ttHOOK_SET, tshNONE); (ttNFTOKEN_MINT, tshROLLBACK);
   (ttNFTOKEN_BURN, tshCOLLECT); (ttNFTOKEN_CREATE_OFFER, tshROLLBACK); (ttNFTOKEN_CANCEL_OFFER, tshCOLLECT);
   (ttNFTOKEN_ACCEPT_OFFER, tshROLLBACK); (ttINVOKE, tshROLLBACK)].

(** The fields of a transaction that name other parties.  [sfLimitAmount] is given by
    its issuer; a signer entry may lack its account. *)
Record TxParties := mkParties {
  sfDestination : option AccountID;
  sfIssuer : option AccountID;
  sfNFTokenID : option uint256;
  sfOwner : option AccountID;
  sfNFTokenBuyOffer : option uint256;
  sfNFTokenSellOffer : option uint256;
  sfNFTokenOffers : option (list uint256);
  sfRegularKey : option AccountID;
  tx_authorize : option AccountID;
  sfLimitAmount : option AccountID;
  sfOfferSequence : option Z;
  sfChannel : option uint256;
  sfCheckID : option uint256;
  sfSignerEntries : list (option AccountID)
}.

Record NFTOffer := mkOffer { offer_owner : AccountID; offer_destination : option AccountID; offer_token : uint256 }.

(** An escrow, a payment channel or a check: its two parties. *)
Record TwoParty := mkTwo { party_account : AccountID; party_destination : AccountID }.

(** The other ledger objects that are looked up. *)
Record Objects := mkObjects {
  nft_pages : gmap uint256 (list uint256);
  nft_offers : gmap uint256 NFTOffer;
  escrows : gmap (AccountID * Z) TwoParty;
  paychans : gmap uint256 TwoParty;
  checks : gmap uint256 TwoParty
}.

(** ** Tokens ([app/tx/impl/details/NFTokenUtils.cpp]) *)

Definition pageMask : Z := 2 ^ 96 - 1.
Definition nftpage_min (owner : AccountID) : uint256 := Z.shiftl owner 96.
Definition nftpage_max (owner : AccountID) : uint256 := Z.lor (Z.shiftl owner 96) pageMask.
Definition nftpage (k token : uint256) : uint256 := Z.ldiff k pageMask + Z.land token pageMask.

(** The least key of the map between two others. *)
Definition succ_key {A} (m : gmap Z A) (key last : Z) : option Z :=
  head (filter (fun k => key < k /\ k < last) (fst <$> in_order m)).

Definition locatePage (v : Objects) (owner : AccountID) (id : uint256) : option (list uint256) :=
  let first := nftpage (nftpage_min owner) id in
  let last := nftpage_max owner in
  nft_pages v !! default last (succ_key (nft_pages v) first (last + 1)).

Definition findToken (v : Objects) (owner : AccountID) (id : uint256) : bool :=
  match locatePage v owner id with None => false | Some tokens => existsb (Z.eqb id) tokens end.

(** Flags are the two leading bytes of a token's identifier, the issuer follows two bytes later. *)
Definition token_flags (id : uint256) : Z := Z.shiftr id 240.
Definition token_issuer (id : uint256) : AccountID := Z.shiftr id 64 mod 2 ^ 160.
Definition tfStrongTSH : Z := 0x8000.

(** ** Who is nominated *)

Abbreviation nomination := (AccountID * bool)%type (only parsing).

Definition offer_parties (rb : bool) (o : NFTOffer) : list nomination :=
  (offer_owner o, rb) :: match offer_destination o with Some d => [(d, rb)] | None => [] end.

Definition nominations (tt : Z) (acct : AccountID) (canRollback : bool) (tx : TxParties) (v : Objects) : list nomination :=
  let issuerCanRollback nid := negb (Z.land (token_flags nid) tfStrongTSH =? 0) in
  let one x := match x with Some a => [(a, canRollback)] | None => [] end in
  let two x := match x with
               | Some p => [(party_account p, true); (party_destination p, canRollback)]
               | None => []
               end in
  if tt =? ttNFTOKEN_MINT then one (sfIssuer tx)
  else if (tt =? ttNFTOKEN_BURN) || (tt =? ttNFTOKEN_CREATE_OFFER) then
    match sfNFTokenID tx with
    | None => []
    | Some nid =>
      let owner := default acct (sfOwner tx) in
      if negb (findToken v owner nid) then []
      else (token_issuer nid, issuerCanRollback nid) :: one (sfOwner tx)
    end
  else if tt =? ttNFTOKEN_ACCEPT_OFFER then
    let bo := sfNFTokenBuyOffer tx ≫= (nft_offers v !!.) in
    let so := sfNFTokenSellOffer tx ≫= (nft_offers v !!.) in
    let parties o := match o with Some o => offer_parties canRollback o | None => [] end in
    match (match bo with Some o => Some o | None => so end) with
    | None => []
    | Some o => (token_issuer (offer_token o), issuerCanRollback (offer_token o)) :: parties bo ++ parties so
    end
  else if tt =? ttNFTOKEN_CANCEL_OFFER then
    flat_map (fun id =>
      match nft_offers v !! id with
      | None => []
      | Some o => offer_parties canRollback o ++ [(token_issuer (offer_token o), false)]
      end) (default [] (sfNFTokenOffers tx))
  else if tt =? ttREGULAR_KEY_SET then one (sfRegularKey tx)
  else if tt =? ttDEPOSIT_PREAUTH then one (tx_authorize tx)
  else if (tt =? ttPAYMENT) || (tt =? ttESCROW_CREATE) || (tt =? ttCHECK_CREATE) || (tt =? ttACCOUNT_DELETE)
          || (tt =? ttPAYCHAN_CREATE) || (tt =? ttINVOKE) then one (sfDestination tx)
  else if tt =? ttTRUST_SET then one (sfLimitAmount tx)
  else if (tt =? ttESCROW_CANCEL) || (tt =? ttESCROW_FINISH) then
    match sfOwner tx, sfOfferSequence tx with
    | Some owner, Some seq => two (escrows v !! (owner, seq))
    | _, _ => []
    end
  else if (tt =? ttPAYCHAN_FUND) || (tt =? ttPAYCHAN_CLAIM) then two (sfChannel tx ≫= (paychans v !!.))
  else if (tt =? ttCHECK_CASH) || (tt =? ttCHECK_CANCEL) then two (sfCheckID tx ≫= (checks v !!.))
  else if tt =? ttSIGNER_LIST_SET then flat_map one (sfSignerEntries tx)
  else [].

(** ** The map and the vector *)

(** [ADD_TSH], on the map and [upto]. *)
Definition ADD_TSH (otxnAcc : AccountID) (s : gmap AccountID (nat * bool) * nat) (n : nomination) :
    gmap AccountID (nat * bool) * nat :=
  let '(tshEntries, upto) := s in
  let '(acc, rb) := n in
  if acc =? otxnAcc then s
  else match tshEntries !! acc with
       | Some (i, b) => (if negb b && rb then <[acc := (i, true)]> tshEntries else tshEntries, upto)
       | None => (<[acc := (upto, rb)]> tshEntries, S upto)
       end.

(** The vector of [size] default pairs, each entry assigned at its index. *)
Definition to_vector (tshEntries : gmap AccountID (nat * bool)) : list nomination :=
  foldl (fun ret x => <[x.2.1 := (x.1, x.2.2)]> ret) (replicate (size tshEntries) (0, false)) (in_order tshEntries).

Definition getTransactionalStakeHolders (hooksEnabled : bool) (tx : STTx) (parties : TxParties) (rv : Objects)
    : list nomination :=
  if negb hooksEnabled then []
  else match tx_account tx with
       | None => []
       | Some otxnAcc =>
         match TSHAllowances !! tx_type tx with
         | None => []
         | Some tsh =>
           let canRollback := negb (Z.land tsh tshROLLBACK =? 0) in
           to_vector (foldl (ADD_TSH otxnAcc) (∅, 0%nat) (nominations (tx_type tx) otxnAcc canRollback parties rv)).1
         end
       end.

(** ** What the vector holds *)

(** The elements of a list in the order of their first occurrence. *)
Definition first_seen (l : list AccountID) : list AccountID := reverse (remove_dups (reverse l)).

Lemma first_seen_snoc l a : first_seen (l ++ [a]) = if decide (a ∈ l) then first_seen l else first_seen l ++ [a].
Proof.
  unfold first_seen. rewrite reverse_snoc. cbn [remove_dups]. unfold decide_rel.
  destruct (decide (a ∈ l)), (list_elem_of_dec a (reverse l)) as [Hr|Hr]; rewrite ?reverse_cons; try done;
    rewrite elem_of_reverse in Hr; done.
Qed.

Lemma elem_of_first_seen l a : a ∈ first_seen l <-> a ∈ l.
Proof. unfold first_seen. by rewrite elem_of_reverse, elem_of_remove_dups, elem_of_reverse. Qed.

Lemma NoDup_first_seen l : NoDup (first_seen l).
Proof. unfold first_seen. rewrite reverse_Permutation. apply NoDup_remove_dups. Qed.

(** The other parties, as they are first named. *)
Definition others (otxnAcc : AccountID) (noms : list nomination) : list AccountID :=
  first_seen (filter (fun a => a <> otxnAcc) noms.*1).

Definition may_rollback (noms : list nomination) (a : AccountID) : bool := bool_decide ((a, true) ∈ noms).

(** The map and the counter hold the nominations so far. *)
Record collected (otxnAcc : AccountID) (noms : list nomination) (s : gmap AccountID (nat * bool) * nat) : Prop := {
  col_size : size s.1 = length (others otxnAcc noms);
  col_upto : s.2 = length (others otxnAcc noms);
  col_lookup a i b : s.1 !! a = Some (i, b) <-> others otxnAcc noms !! i = Some a /\ b = may_rollback noms a
}.

Lemma others_snoc o noms a rb :
  others o (noms ++ [(a, rb)]) =
  if decide (a = o \/ a ∈ others o noms) then others o noms else others o noms ++ [a].
Proof.
  unfold others. rewrite fmap_app, filter_app. change ([(a, rb)].*1) with [a]. destruct (decide (a = o)) as [->|Ha].
  - rewrite filter_cons_False by naive_solver. rewrite filter_nil, app_nil_r, decide_True by tauto. done.
  - rewrite filter_cons_True, filter_nil, first_seen_snoc by done.
    repeat case_decide; rewrite elem_of_first_seen in *; naive_solver.
Qed.

Lemma may_rollback_snoc noms n a : may_rollback (noms ++ [n]) a = may_rollback noms a || bool_decide ((a, true) = n).
Proof.
  unfold may_rollback. rewrite (bool_decide_ext _ ((a, true) ∈ noms \/ (a, true) = n)), bool_decide_or; [done|].
  by rewrite elem_of_app, list_elem_of_singleton.
Qed.

Lemma elem_of_others o noms a : a ∈ others o noms <-> a <> o /\ a ∈ noms.*1.
Proof. unfold others. by rewrite elem_of_first_seen, list_elem_of_filter. Qed.

Lemma may_rollback_others o noms a : a <> o -> a ∉ others o noms -> may_rollback noms a = false.
Proof.
  intros Ha Hn. apply bool_decide_eq_false. intros Hin. apply Hn, elem_of_others. split; [done|].
  apply list_elem_of_fmap. by exists (a, true).
Qed.

Lemma decide_right (a : AccountID) (rb : bool) : bool_decide ((a, true) = (a, rb)) = rb.
Proof. destruct rb; case_bool_decide; congruence. Qed.

(** A nomination of the sender itself. *)
Lemma ADD_self o noms rb s : collected o noms s -> collected o (noms ++ [(o, rb)]) s.
Proof.
  intros [Hsize Hupto Hl]. pose proof (others_snoc o noms o rb) as Eo. rewrite decide_True in Eo by tauto.
  split; rewrite Eo; try done. intros x i b. rewrite Hl, may_rollback_snoc.
  split; intros [Hx ->]; split; try done; rewrite bool_decide_false, orb_false_r; try done; intros [= ? _]; subst;
    apply list_elem_of_lookup_2, elem_of_others in Hx; naive_solver.
Qed.

(** A second nomination can only add the right to roll back. *)
Lemma ADD_again o noms m upto a rb i b :
  collected o noms (m, upto) -> m !! a = Some (i, b) ->
  collected o (noms ++ [(a, rb)]) (if negb b && rb then <[a := (i, true)]> m else m, upto).
Proof.
  intros [Hsize Hupto Hl] Em. cbn in *. pose proof (proj1 (Hl a i b) Em) as [Hi Eb].
  pose proof (others_snoc o noms a rb) as Eo. rewrite decide_True in Eo by (right; by eapply list_elem_of_lookup_2).
  split; rewrite Eo; cbn [fst snd]; [destruct (negb b && rb); [by rewrite map_size_insert_Some|done]|done|].
  intros x j c. rewrite may_rollback_snoc. destruct (decide (x = a)) as [->|Hx].
  - transitivity (j = i /\ c = b || rb); [destruct b, rb; cbn; rewrite ?lookup_insert_eq, ?Em; naive_solver|].
    rewrite <- Eb, decide_right. split; [naive_solver|]. intros [Hj ->]. split; [|done].
    eapply NoDup_lookup; [apply NoDup_first_seen|exact Hj|exact Hi].
  - rewrite (bool_decide_false ((x, true) = _)), orb_false_r by congruence.
    destruct (negb b && rb); [rewrite lookup_insert_ne by done|]; apply Hl.
Qed.

(** A first nomination takes the next place. *)
Lemma ADD_first o noms m upto a rb :
  collected o noms (m, upto) -> a <> o -> m !! a = None ->
  collected o (noms ++ [(a, rb)]) (<[a := (upto, rb)]> m, S upto).
Proof.
  intros [Hsize Hupto Hl] Ha Em. cbn in *. assert (a ∉ others o noms) as Hn.
  { intros [i Hi]%list_elem_of_lookup. specialize (Hl a i (may_rollback noms a)). rewrite Em in Hl. naive_solver. }
  pose proof (others_snoc o noms a rb) as Eo. rewrite decide_False in Eo by tauto.
  split; rewrite Eo; cbn [fst snd]; [rewrite map_size_insert_None, length_app by done; cbn; lia|rewrite length_app; cbn; lia|].
  intros x j c. rewrite may_rollback_snoc, lookup_snoc_Some. destruct (decide (x = a)) as [->|Hx].
  - rewrite lookup_insert_eq, Hupto, (may_rollback_others o) by done. rewrite decide_right.
    split; [intros [= <- <-]; split; [right|]; done|].
    intros [[[_ Hj]|[-> _]] ->]; [|done]. by apply list_elem_of_lookup_2 in Hj.
  - rewrite lookup_insert_ne, Hl, (bool_decide_false ((x, true) = _)), orb_false_r by congruence.
    split; [intros [Hj ->]; split; [left; split; [by eapply lookup_lt_Some|done]|done]|].
    intros [[[_ Hj]|[_ ->]] ->]; done.
Qed.

Lemma ADD_TSH_collected o noms s n : collected o noms s -> collected o (noms ++ [n]) (ADD_TSH o s n).
Proof.
  destruct s as [m upto], n as [a rb]. intros Hc. unfold ADD_TSH. destruct (Z.eqb_spec a o) as [->|Ha]; [by apply ADD_self|].
  destruct (m !! a) as [[i b]|] eqn:Em; [by apply ADD_again|by apply ADD_first].
Qed.

Lemma ADD_all_collected o noms : collected o noms (foldl (ADD_TSH o) (∅, 0%nat) noms).
Proof.
  induction noms as [|n noms IH] using rev_ind; [|rewrite foldl_app; by apply ADD_TSH_collected].
  split; cbn; [by rewrite map_size_empty|done|]. intros a i b. rewrite lookup_empty. naive_solver.
Qed.

(** Assignments at different indices in range. *)
Lemma lookup_assign (es : list (AccountID * (nat * bool))) ret i :
  NoDup ((fun x => x.2.1) <$> es) -> Forall (fun x => (x.2.1 < length ret)%nat) es ->
  foldl (fun ret x => <[x.2.1 := (x.1, x.2.2)]> ret) ret es !! i =
  match find (fun x => Nat.eqb x.2.1 i) es with Some x => Some (x.1, x.2.2) | None => ret !! i end.
Proof.
  revert ret. induction es as [|[a [j b]] es IH]; intros ret Hnd Hlt; [done|]. cbn in *.
  apply NoDup_cons in Hnd as [Hn Hnd]. apply Forall_cons in Hlt as [Hj Hlt]. cbn in *.
  rewrite IH by (try done; by rewrite length_insert). destruct (Nat.eqb_spec j i) as [->|Hne].
  - destruct (find _ es) as [x|] eqn:Ef; [|by rewrite list_lookup_insert_eq].
    apply find_some in Ef as [Hin Hx%Nat.eqb_eq]. exfalso. apply Hn. rewrite <- Hx.
    apply list_elem_of_fmap. exists x. split; [done|]. by apply list_elem_of_In.
  - by rewrite list_lookup_insert_ne.
Qed.

Lemma to_vector_spec o noms m upto :
  collected o noms (m, upto) -> to_vector m = (fun a => (a, may_rollback noms a)) <$> others o noms.
Proof.
  intros [Hsize _ Hl]. cbn in *. apply list_eq. intros i. unfold to_vector. rewrite lookup_assign.
  - rewrite list_lookup_fmap. destruct (find _ _) as [[a [j b]]|] eqn:Ef.
    + apply find_some in Ef as [Hin%list_elem_of_In%elem_of_in_order Hj%Nat.eqb_eq]. cbn in Hj. subst j.
      apply Hl in Hin as [-> ->]. done.
    + rewrite Hsize. destruct (others o noms !! i) as [a|] eqn:Ea; cbn.
      * exfalso. assert (m !! a = Some (i, may_rollback noms a)) as Em by (by apply Hl).
        apply elem_of_in_order, list_elem_of_In in Em. eapply find_none in Ef; [|exact Em]. cbn in Ef.
        by rewrite Nat.eqb_refl in Ef.
      * apply lookup_replicate_None. by apply lookup_ge_None.
  - apply NoDup_fmap_2_strong; [|apply NoDup_in_order]. intros [a [j b]] [a' [j' b']] Hx%elem_of_in_order Hy%elem_of_in_order E.
    cbn in E. subst j'. apply Hl in Hx as [Hx ->], Hy as [Hy ->]. congruence.
  - apply Forall_forall. intros [a [j b]] Hin%elem_of_in_order. cbn. rewrite length_replicate, Hsize.
    apply Hl in Hin as [Hj _]. by eapply lookup_lt_Some.
Qed.

Lemma NoDup_others o noms : NoDup (others o noms).
Proof. apply NoDup_first_seen. Qed.

Lemma collect_others o noms :
  to_vector (foldl (ADD_TSH o) (∅, 0%nat) noms).1 = (fun a => (a, may_rollback noms a)) <$> others o noms.
Proof.
  pose proof (ADD_all_collected o noms) as Hc. destruct (foldl _ _ _) as [m upto]. by apply to_vector_spec with upto.
Qed.

(** With hooks enabled the vector is the list of the other parties. *)
Lemma stakeholders_others tx parties rv o :
  tx_account tx = Some o ->
  exists noms, getTransactionalStakeHolders true tx parties rv = (fun a => (a, may_rollback noms a)) <$> others o noms.
Proof.
  intros Eo. unfold getTransactionalStakeHolders. cbn [negb]. rewrite Eo.
  destruct (TSHAllowances !! tx_type tx) as [tsh|]; [|by exists []].
  eexists. apply collect_others.
Qed.

(** C33: the stakeholders of a transaction are its nominated accounts.  They come in
    the order in which the rules of the transaction's type first name them, each one
    once and never the sender; and an account may roll the transaction back exactly if
    one of its nominations says so. *)
Theorem stakeholders_correct tx parties rv otxnAcc tsh :
  tx_account tx = Some otxnAcc -> TSHAllowances !! tx_type tx = Some tsh ->
  let noms := nominations (tx_type tx) otxnAcc (negb (Z.land tsh tshROLLBACK =? 0)) parties rv in
  let accounts := getTransactionalStakeHolders true tx parties rv in
  accounts.*1 = first_seen (filter (fun a => a <> otxnAcc) noms.*1) /\
  NoDup accounts.*1 /\ (otxnAcc ∉ accounts.*1) /\
  forall a b, (a, b) ∈ accounts -> (b = true <-> (a, true) ∈ noms).
Proof.
  intros Eo Et noms accounts. assert (accounts = (fun a => (a, may_rollback noms a)) <$> others otxnAcc noms) as ->.
  { unfold accounts, getTransactionalStakeHolders. cbn [negb]. rewrite Eo, Et. apply collect_others. }
  assert (((fun a => (a, may_rollback noms a)) <$> others otxnAcc noms).*1 = others otxnAcc noms) as ->.
  { rewrite <- list_fmap_compose. apply list_fmap_id. }
  split; [done|]. split; [apply NoDup_others|]. split; [rewrite elem_of_others; tauto|].
  intros a b (x & [= -> ->] & _)%list_elem_of_fmap. unfold may_rollback. by rewrite bool_decide_eq_true.
Qed.

(** A payment channel claim by its destination, and a signer list with repetitions. *)
Definition claim_tx : STTx := mkTx 1 ttPAYCHAN_CLAIM (Some 7) None None None None None None None None 0.
Definition signers_tx : STTx := mkTx 1 ttSIGNER_LIST_SET (Some 7) None None None None None None None None 0.
Definition no_parties : TxParties :=
  mkParties None None None None None None None None None None None None None [].
Definition signers : TxParties :=
  mkParties None None None None None None None None None None None None None [Some 9; Some 7; None; Some 8; Some 9].
Definition no_objects : Objects := mkObjects ∅ ∅ ∅ ∅ ∅.

Lemma stakeholders_correct_witness :
  getTransactionalStakeHolders true signers_tx signers no_objects = [(9, true); (8, true)] /\
  NoDup (getTransactionalStakeHolders true signers_tx signers no_objects).*1.
Proof.
  split; [vm_compute; reflexivity|].
  apply (stakeholders_correct signers_tx signers no_objects 7 tshROLLBACK); [reflexivity|vm_compute; reflexivity].
Defined.
