(* ===== verification/EmitQueue.v ===== *)
(** * EmitQueue: the directory of emitted transactions ([app/hook/impl/applyHook.cpp])

    [finalizeHookResult] moves the transactions a hook emitted into the ledger, where
    they wait in a directory of their own, and records the execution in the metadata;
    [removeEmissionEntry] takes a transaction out again when it is applied.  The
    queue is a finite map from the identifiers to the transactions; the theorems say
    what the two functions do to it. *)

From stdpp Require Import base numbers list option gmap.
From Stdlib Require Import ZArith Lia.
From S2P Require Import Prelude Enum Runtime Directory Context.

Local Open Scope Z_scope.

(** The key of an emitted transaction is a hash of its identifier. *)
Class EmitKeylets := {
  emittedTxn_key : uint256 -> uint256;
  emittedTxn_inj i j : emittedTxn_key i = emittedTxn_key j -> i = j
}.

(** [sfHookExecution], without the instruction count. *)
Record HookExecution := mkExecution {
  sfHookResult : ExitType;
  sfHookAccount : AccountID;
  sfHookReturnCode : Z;
  sfHookReturnString : Blob;
  sfHookEmitCount : Z;
  sfHookExecutionIndex : Z;
  sfHookStateChangeCount : Z;
  execution_hash : uint256
}.

(** An [ltEMITTED_TXN]. *)
Record EmittedEntry := mkEmitted { sfEmittedTxn : STTx; emitted_ownerNode : Z }.

(** The view a transaction is applied to, with the metadata collected so far and the
    identifiers the hash router knows as emitted. *)
Record TxView := mkView {
  ledger : Ledger;
  emitted : gmap uint256 EmittedEntry;
  emittedDir : Dir;
  hookExecution_ : list HookExecution;
  SF_EMITTED : gset uint256;
  is_open : bool
}.

Definition set_ledger (l : Ledger) (v : TxView) : TxView :=
  mkView l (emitted v) (emittedDir v) (hookExecution_ v) (SF_EMITTED v) (is_open v).
Definition set_queue (e : gmap uint256 EmittedEntry) (d : Dir) (v : TxView) : TxView :=
  mkView (ledger v) e d (hookExecution_ v) (SF_EMITTED v) (is_open v).
Definition flag_emitted (id : uint256) (v : TxView) : TxView :=
  mkView (ledger v) (emitted v) (emittedDir v) (hookExecution_ v) ({[id]} ∪ SF_EMITTED v) (is_open v).
Definition addHookMetaData (m : HookExecution) (v : TxView) : TxView :=
  mkView (ledger v) (emitted v) (emittedDir v) (hookExecution_ v ++ [m]) (SF_EMITTED v) (is_open v).
Definition nextHookExecutionIndex (v : TxView) : Z := Z.of_nat (length (hookExecution_ v)).

(** ** The code *)

Section code.
Context `{EmitKeylets}.

(** The loop over the queue of the result; [false] on a full directory. *)
Fixpoint emit_all (v : TxView) (emission_count : Z) (txs : list STTx) : dres (bool * TxView * Z) :=
  match txs with
  | [] => Val (true, v, emission_count)
  | t :: txs =>
    let v := flag_emitted (tx_id t) v in
    let emittedId := emittedTxn_key (tx_id t) in
    match emitted v !! emittedId with
    | Some _ => emit_all v emission_count txs
    | None =>
      '(page, d) ← dirAdd false (emittedDir v) emittedId;
      match page with
      | None => Val (false, v, emission_count)
      | Some page => emit_all (set_queue (<[emittedId := mkEmitted t page]> (emitted v)) d v) (u16 (emission_count + 1)) txs
      end
    end
  end.

(** The sign in the most significant bit; negating the least 64-bit integer is undefined. *)
Definition unsigned_exit_code (exit_code : Z) : dres Z :=
  if 0 <=? exit_code then Val exit_code
  else if exit_code =? - 2 ^ 63 then Undef
  else Val (u64 (0x8000000000000000 + - exit_code)).

Definition finalizeHookResult (hookResult : HookResult) (v : TxView) (doEmit : bool) : dres (TER * TxView) :=
  if is_open v then Val (tesSUCCESS, v)
  else
    let exec_index := u16 (nextHookExecutionIndex v) in
    '(ok, v, emission_count) ← (if doEmit then emit_all v 0 (emittedTxn hookResult) else Val (true, v, 0));
    if negb ok then Val (tecDIR_FULL, v)
    else
      code ← unsigned_exit_code (exitCode hookResult);
      Val (tesSUCCESS, addHookMetaData
        (mkExecution (exitType hookResult) (account hookResult) code (exitReason hookResult) emission_count exec_index
           (changedStateCount hookResult) (hookHash hookResult)) v).

Definition removeEmissionEntry (tx : STTx) (v : TxView) : dres (TER * TxView) :=
  match sfEmitDetails tx with
  | None => Val (tesSUCCESS, v)
  | Some _ =>
    let key := emittedTxn_key (tx_id tx) in
    match emitted v !! key with
    | None => Val (tesSUCCESS, v)
    | Some sle =>
      '(ok, d) ← dirRemove (emittedDir v) (emitted_ownerNode sle) key false;
      if negb ok then Val (tefBAD_LEDGER, set_queue (emitted v) d v)
      else Val (tesSUCCESS, set_queue (delete key (emitted v)) d v)
    end
  end.

(** ** The queue *)

Definition queued (v : TxView) (id : uint256) : option STTx := sfEmittedTxn <$> emitted v !! emittedTxn_key id.

(** The directory lists exactly the entries, each on the page it names, and each entry
    is found under its own identifier. *)
Record queue_ok (v : TxView) : Prop := {
  q_dir : dir_ok (emittedDir v);
  q_listed pg x : has (emittedDir v) pg x <-> exists e, emitted v !! x = Some e /\ emitted_ownerNode e = pg;
  q_own x e : emitted v !! x = Some e -> x = emittedTxn_key (tx_id (sfEmittedTxn e))
}.

(** The transactions that join: the first of each identifier that is not there yet. *)
Definition joined (q : uint256 -> option STTx) (txs : list STTx) (id : uint256) : option STTx :=
  match q id with Some t => Some t | None => find (fun t => tx_id t =? id) txs end.

(** What finalizing a result leaves alone. *)
Definition same_view (v v' : TxView) : Prop :=
  ledger v' = ledger v /\ is_open v' = is_open v /\ SF_EMITTED v ⊆ SF_EMITTED v'.

Lemma same_view_refl v : same_view v v.
Proof. by split. Qed.

Lemma same_view_trans v v1 v2 : same_view v v1 -> same_view v1 v2 -> same_view v v2.
Proof. intros (? & ? & ?) (? & ? & ?). split; [congruence|]. split; [congruence|]. by etransitivity. Qed.

Lemma queued_add v t page d id :
  queued (set_queue (<[emittedTxn_key (tx_id t) := mkEmitted t page]> (emitted v)) d v) id =
  if tx_id t =? id then Some t else queued v id.
Proof.
  unfold queued. cbn. destruct (Z.eqb_spec (tx_id t) id) as [<-|Hne]; [by rewrite lookup_insert_eq|].
  rewrite lookup_insert_ne; [done|]. by intros E%emittedTxn_inj.
Qed.

Lemma queue_ok_flag v id : queue_ok v -> queue_ok (flag_emitted id v).
Proof. intros [Hd Hl Ho]. by split. Qed.

(** A new entry keeps the queue well-formed. *)
Lemma queue_ok_add v t page d :
  queue_ok v -> dir_ok d -> added (emittedDir v) d page (emittedTxn_key (tx_id t)) ->
  emitted v !! emittedTxn_key (tx_id t) = None ->
  queue_ok (set_queue (<[emittedTxn_key (tx_id t) := mkEmitted t page]> (emitted v)) d v).
Proof.
  intros [_ Hl Ho] Hd Ha En. split; cbn; [done| |].
  - intros pg x. rewrite (Ha pg x), Hl. destruct (decide (emittedTxn_key (tx_id t) = x)) as [<-|Hne].
    + rewrite lookup_insert_eq, En. naive_solver.
    + rewrite lookup_insert_ne by done. naive_solver.
  - intros x e [[<- <-]|[_ He]]%lookup_insert_Some; [done|]. by apply Ho.
Qed.

Lemma emit_all_spec txs v count :
  queue_ok v ->
  exists ok v' count', emit_all v count txs = Val (ok, v', count') /\ queue_ok v' /\ same_view v v' /\
    hookExecution_ v' = hookExecution_ v /\
    if ok : bool then (forall id, queued v' id = joined (queued v) txs id) /\
      (forall t, t ∈ txs -> tx_id t ∈ SF_EMITTED v')
    else True.
Proof.
  revert v count. induction txs as [|t txs IH]; intros v count Hq.
  { exists true, v, count. do 3 (split; [done|]). split; [done|]. split; [|by intros t ?%not_elem_of_nil].
    intros id. unfold joined. cbn. by destruct (queued v id). }
  cbn [emit_all]. set (v1 := flag_emitted (tx_id t) v). assert (queue_ok v1) as Hq1 by by apply queue_ok_flag.
  assert (same_view v v1) as Hs1 by (split; [done|]; split; [done|]; apply union_subseteq_r).
  assert (tx_id t ∈ SF_EMITTED v1) as Hin1 by (apply elem_of_union_l, elem_of_singleton; done).
  destruct (emitted v1 !! emittedTxn_key (tx_id t)) as [e|] eqn:Ee.
  - destruct (IH v1 count Hq1) as (ok & v' & c' & -> & Hq' & Hs & Hm & Hok). exists ok, v', c'.
    do 2 (split; [done|]). split; [by eapply same_view_trans|]. split; [done|]. destruct ok; [|done].
    destruct Hok as [Hok Hfl]. split.
    + intros id. rewrite Hok. unfold joined. change (queued v1 id) with (queued v id).
      destruct (queued v id) eqn:Ej; [done|]. cbn. destruct (Z.eqb_spec (tx_id t) id) as [<-|]; [|done].
      unfold queued in Ej. change (emitted v) with (emitted v1) in Ej. by rewrite Ee in Ej.
    + intros t' [->|Hin]%elem_of_cons; [|by apply Hfl]. by apply (proj2 (proj2 Hs)).
  - destruct (dirAdd_spec false (emittedDir v1) (emittedTxn_key (tx_id t))) as (page & d & -> & Hd).
    { apply Hq1. } { intros p (e & He & _)%(q_listed _ Hq1). congruence. }
    cbn [mbind res_bind]. destruct page as [page|].
    + destruct Hd as [Hd Ha]. set (v2 := set_queue _ d v1).
      assert (queue_ok v2) as Hq2 by by apply queue_ok_add.
      destruct (IH v2 (u16 (count + 1)) Hq2) as (ok & v' & c' & -> & Hq' & Hs & Hm & Hok). exists ok, v', c'.
      do 2 (split; [done|]). split; [by apply (same_view_trans v v2 v')|]. split; [done|]. destruct ok; [|done].
      destruct Hok as [Hok Hfl]. split.
      * intros id. rewrite Hok. unfold joined, v2. rewrite queued_add. cbn [find].
        destruct (Z.eqb_spec (tx_id t) id) as [<-|]; [|done].
        unfold queued. change (emitted v) with (emitted v1). by rewrite Ee.
      * intros t' [->|Hin]%elem_of_cons; [|by apply Hfl]. by apply (proj2 (proj2 Hs)).
    + exists false, v1, count. by repeat (split; [done|]).
Qed.

(** The metadata entry of an execution; the return code has its sign in the top bit. *)
Definition execution_of (v : TxView) (r : HookResult) (m : HookExecution) : Prop :=
  sfHookResult m = exitType r /\ sfHookAccount m = account r /\ execution_hash m = hookHash r /\
  sfHookReturnString m = exitReason r /\ sfHookStateChangeCount m = changedStateCount r /\
  sfHookExecutionIndex m = u16 (nextHookExecutionIndex v) /\
  exitCode r = if sfHookReturnCode m <? 2 ^ 63 then sfHookReturnCode m else 2 ^ 63 - sfHookReturnCode m.

Lemma unsigned_exit_code_spec c :
  - 2 ^ 63 < c < 2 ^ 63 -> exists u, unsigned_exit_code c = Val u /\ c = if u <? 2 ^ 63 then u else 2 ^ 63 - u.
Proof.
  intros Hc. unfold unsigned_exit_code. destruct (Z.leb_spec 0 c) as [H0|H0].
  - exists c. by rewrite (proj2 (Z.ltb_lt _ _)) by lia.
  - rewrite (proj2 (Z.eqb_neq _ _)) by lia. eexists. split; [done|].
    change 0x8000000000000000 with (2 ^ 63). rewrite u64_small by lia.
    rewrite (proj2 (Z.ltb_ge _ _)) by lia. lia.
Qed.

(** What a finalized result leaves: the queue with the emitted transactions and the record of the execution. *)
Definition finalized (r : HookResult) (v : TxView) (doEmit : bool) (ter : TER) (v' : TxView) : Prop :=
  queue_ok v' /\ ledger v' = ledger v /\ is_open v' = false /\
  match ter with
  | tesSUCCESS =>
    (forall id, queued v' id = if doEmit then joined (queued v) (emittedTxn r) id else queued v id) /\
    exists m, hookExecution_ v' = hookExecution_ v ++ [m] /\ execution_of v r m
  | tecDIR_FULL => doEmit = true /\ hookExecution_ v' = hookExecution_ v
  | _ => False
  end.

Lemma finalizeHookResult_spec r v doEmit : queue_ok v -> - 2 ^ 63 <= exitCode r < 2 ^ 63 ->
  if is_open v then finalizeHookResult r v doEmit = Val (tesSUCCESS, v)
  else (exitCode r = - 2 ^ 63 /\ finalizeHookResult r v doEmit = Undef) \/
    exists ter v', finalizeHookResult r v doEmit = Val (ter, v') /\ finalized r v doEmit ter v'.
Proof.
  intros Hq He. unfold finalizeHookResult. destruct (is_open v) eqn:Ho; [done|].
  assert ((exitCode r = - 2 ^ 63 /\ unsigned_exit_code (exitCode r) = Undef) \/
    exists u, unsigned_exit_code (exitCode r) = Val u /\ exitCode r = if u <? 2 ^ 63 then u else 2 ^ 63 - u) as Hu.
  { destruct (Z.eq_dec (exitCode r) (- 2 ^ 63)) as [->|]; [by left|right]. apply unsigned_exit_code_spec. lia. }
  assert (exists ok v1 c, (if doEmit then emit_all v 0 (emittedTxn r) else Val (true, v, 0)) = Val (ok, v1, c) /\ queue_ok v1 /\
    ledger v1 = ledger v /\ is_open v1 = is_open v /\ hookExecution_ v1 = hookExecution_ v /\
    if ok : bool then forall id, queued v1 id = if doEmit then joined (queued v) (emittedTxn r) id else queued v id else doEmit = true)
    as (ok & v1 & c & -> & Hq1 & Hl & Hopen & Hm & Hok).
  { destruct doEmit; [|by exists true, v, 0].
    destruct (emit_all_spec (emittedTxn r) v 0 Hq) as (ok & v1 & c & -> & ? & (? & ? & _) & ? & Hok). exists ok, v1, c.
    repeat (split; [done|]). by destruct ok; [apply Hok|]. }
  cbn [mbind res_bind]. destruct ok; cbn [negb].
  - destruct Hu as [[? ->]|(u & -> & Hu)]; [by left|right]. cbn [mbind res_bind]. do 2 eexists. split; [done|].
    split; [by destruct Hq1; split|]. split; [done|]. split; [by rewrite <- Ho|]. split; [done|]. eexists. cbn. rewrite Hm. split; [done|]. by repeat split.
  - right. exists tecDIR_FULL, v1. split; [done|]. split; [done|]. split; [done|]. split; [congruence|done].
Qed.

(** C32: finalizing a hook's result queues what the hook emitted.  On an open view nothing happens.
    On a closed one, if emitting is allowed, every emitted transaction that is not queued already is in
    the queue afterwards, and nothing else changed there; if it is not allowed the
    queue is as before.  In both cases the execution is recorded, with its exit code,
    at the end of the metadata, the rest of the ledger is untouched and the directory
    of emitted transactions stays well-formed.  There are two failures: a full directory, when nothing
    is recorded, and the exit code -2^63, whose negation the code computes and which is undefined. *)
Theorem finalizeHookResult_queues r v doEmit : queue_ok v -> - 2 ^ 63 <= exitCode r < 2 ^ 63 ->
  if is_open v then finalizeHookResult r v doEmit = Val (tesSUCCESS, v)
  else (exitCode r = - 2 ^ 63 /\ finalizeHookResult r v doEmit = Undef) \/
    exists ter v', finalizeHookResult r v doEmit = Val (ter, v') /\ queue_ok v' /\ ledger v' = ledger v /\ is_open v' = false /\
      match ter with
      | tesSUCCESS =>
        (forall id, queued v' id = if doEmit then joined (queued v) (emittedTxn r) id else queued v id) /\
        exists m, hookExecution_ v' = hookExecution_ v ++ [m] /\ execution_of v r m
      | tecDIR_FULL => doEmit = true /\ hookExecution_ v' = hookExecution_ v
      | _ => False
      end.
Proof. apply finalizeHookResult_spec. Qed.

(** Applying an emitted transaction takes it out of the queue.  On a well-formed
    queue [removeEmissionEntry] never finds the ledger corrupt: it removes the
    transaction's own entry, if the transaction is an emitted one, and nothing else. *)
Theorem removeEmissionEntry_removes tx v :
  queue_ok v ->
  exists v', removeEmissionEntry tx v = Val (tesSUCCESS, v') /\ queue_ok v' /\ ledger v' = ledger v /\
    forall id, queued v' id =
      if bool_decide (is_Some (sfEmitDetails tx)) && (id =? tx_id tx) then None else queued v id.
Proof.
  intros Hq. unfold removeEmissionEntry. destruct (sfEmitDetails tx) as [d|]; cbn [andb bool_decide].
  2: { exists v. split; [done|]. split; [done|]. split; [done|]. intros id. by rewrite bool_decide_false by (intros [? ?]; done). }
  rewrite bool_decide_true by eauto. cbn [andb]. destruct (emitted v !! emittedTxn_key (tx_id tx)) as [e|] eqn:Ee.
  2: { exists v. do 3 (split; [done|]). intros id. destruct (Z.eqb_spec id (tx_id tx)) as [->|]; [|done].
       unfold queued. by rewrite Ee. }
  destruct (dirRemove_spec (emittedDir v) (emitted_ownerNode e) (emittedTxn_key (tx_id tx))) as (d' & -> & Hd' & Hr).
  { apply Hq. } { apply (q_listed _ Hq). by exists e. }
  cbn [mbind res_bind negb]. eexists. split; [done|]. split; [|split; [done|]].
  - split; cbn; [done| |].
    + intros pg x. rewrite (Hr pg x), (q_listed _ Hq). setoid_rewrite lookup_delete_Some. naive_solver.
    + intros x e' [_ He']%lookup_delete_Some. by apply (q_own _ Hq).
  - intros id. unfold queued. cbn. destruct (Z.eqb_spec id (tx_id tx)) as [->|Hne]; [by rewrite lookup_delete_eq|].
    rewrite lookup_delete_ne; [done|]. intros E%emittedTxn_inj. congruence.
Qed.
End code.

(** ** Samples *)

#[export] Instance sample_emit_keylets : EmitKeylets.
Proof. refine {| emittedTxn_key := fun i => i |}. done. Defined.

Definition empty_ledger : Ledger := mkLedger ∅ ∅ ∅ ∅ ∅ ∅ (mkFees 0 0).
Definition empty_view : TxView := mkView empty_ledger ∅ ∅ [] ∅ false.
Definition emitted_tx (id : uint256) : STTx :=
  mkTx id 0 (Some 7) None None None None None None (Some (mkDetails None None None None None None)) None 0.
(** A result with the given exit code, of a hook that emitted two transactions. *)
Definition emitting (code : Z) : HookResult :=
  mkResult 5 7 7 1 [emitted_tx 11; emitted_tx 12] (mkStateMap ∅ 0) 0 ∅ ∅ ∅ ACCEPT [] code false false true 0 0 false false.

Lemma empty_queue_ok : queue_ok empty_view.
Proof.
  split; cbn; [by left| |done]. intros pg x. split; [by intros ?%no_keys_empty|]. by intros (e & ? & _).
Qed.

Lemma finalizeHookResult_queues_witness :
  exists ter v', finalizeHookResult (emitting (-3)) empty_view true = Val (ter, v') /\ ter = tesSUCCESS /\
    queued v' 12 = Some (emitted_tx 12) /\ queue_ok v'.
Proof.
  destruct (finalizeHookResult_queues (emitting (-3)) empty_view true empty_queue_ok ltac:(by vm_compute)) as [[E _]|(ter & v' & E & Hq & _)]; [done|].
  exists ter, v'. split; [exact E|]. revert E. vm_compute. intros [= <- <-]. split; [done|]. split; [done|]. exact Hq.
Defined.

Lemma removeEmissionEntry_removes_witness :
  exists v', removeEmissionEntry (emitted_tx 12) empty_view = Val (tesSUCCESS, v') /\ queued v' 12 = None.
Proof.
  destruct (removeEmissionEntry_removes (emitted_tx 12) empty_view empty_queue_ok) as (v' & E & _ & _ & Hr).
  exists v'. split; [exact E|]. rewrite (Hr 12). reflexivity.
Defined.

(** The least exit code has no defined encoding. *)
Lemma least_exit_code : finalizeHookResult (emitting (- 2 ^ 63)) empty_view true = Undef.
Proof. vm_compute. reflexivity. Qed.
