(* ===== verification/HookTx.v ===== *)
(** * HookTx: hooks around a transaction ([app/tx/impl/Transactor.cpp])

    Before a transaction is applied the hooks of its sender and of the stakeholders
    who may roll it back run ("strong"); after it the callback of an emitted
    transaction, the hooks of the other stakeholders and those that asked for it run
    once more ("weak").  One chain runs its hooks in order, all chains of a phase share
    one state map, and the results are finalized at the end of the phase.

    The WebAssembly engine is a parameter ([Engine]): it takes the context
    [hook::apply] builds to the one the hook leaves.  [Run] is the mutable state of the
    transactor while a phase runs. *)

From stdpp Require Import base numbers list option gmap sorting relations.
From Stdlib Require Import ZArith Lia.
From S2P Require Import StAmount.
From S2P Require Import Prelude Enum Runtime Directory Context StateLedger StateCache StateFinal HookParams.
From S2P Require Import Tsh EmitQueue.

Local Open Scope Z_scope.

(** [executeWasm] on the given code, [cbak] or [hook], with its argument. *)
Class Engine := {
  execute : Ledger -> STTx -> Blob -> bool -> Z -> HookContext -> HookContext
}.

Record Run := mkRun {
  run_view : TxView;
  run_map : HookStateMap;
  run_results : list HookResult;
  executedHookCount_ : Z;
  destroyedXRP : Z
}.

Definition run_ledger (s : Run) : Ledger := ledger (run_view s).
Definition set_run_view (v : TxView) (s : Run) : Run :=
  mkRun v (run_map s) (run_results s) (executedHookCount_ s) (destroyedXRP s).
(** [results.push_back]; the map is the one the hook has written to. *)
Definition push_result (r : HookResult) (s : Run) : Run :=
  mkRun (run_view s) (stateMap r) (run_results s ++ [r]) (executedHookCount_ s + 1) (destroyedXRP s).

(** ** When a hook fires *)

(** A shift by the width of the integer or more is undefined. *)
Definition canHook (txType hookOn : Z) : dres bool :=
  if (txType <? 0) || (64 <=? txType) then Undef
  else
    let hookOn := Z.lxor hookOn (Z.shiftl 1 ttHOOK_SET) in
    let hookOn := Z.lxor hookOn 0xFFFFFFFFFFFFFFFF in
    Val (negb (Z.land (Z.shiftr hookOn txType) 1 =? 0)).

Definition hook_on (obj : HookObj) (def : HookDef) : Z := default (def_hookOn def) (sfHookOn obj).
Definition hook_flags (obj : HookObj) (def : HookDef) : Z := default (def_flags def) (sfFlags obj).
Definition hook_namespace (obj : HookObj) (def : HookDef) : uint256 := default (def_namespace def) (sfHookNamespace obj).
Definition has_collect (obj : HookObj) (def : HookDef) : bool := negb (Z.land (hook_flags obj def) hsfCOLLECT =? 0).
Definition has_callback (def : HookDef) : bool := match def_callbackFee def with Some _ => true | None => false end.

(** ** Fees *)

(** [Fees::toDrops] with the reference fee [base] in drops and [units]; a division by
    zero is undefined. *)
Definition mulDivU (value mul div max : Z) : dres (bool * Z) :=
  if (value <? 0) || (mul <? 0) || (div <? 0) then Val (false, 0)
  else if value =? div then Val (true, mul)
  else if mul =? div then if max <? value then Val (false, max) else Val (true, value)
  else if div =? 0 then Undef
  else
    let quotient := value * mul / div in
    if max <? quotient then Val (false, max) else Val (true, quotient).

Definition toDrops (base units fee : Z) : dres Z :=
  '(ok, drops) ← mulDivU fee base units (2 ^ 63 - 1);
  Val (if (ok : bool) then drops else cMaxNativeN).

Definition sum_fee (l : Ledger) (tx : STTx) (collectCallsOnly : bool) (fee : Z) (obj : HookObj) : dres Z :=
  match sfHookHash obj with
  | None => Val fee
  | Some hash =>
    match definitions l !! hash with
    | None => Val fee
    | Some def =>
      fires ← canHook (tx_type tx) (hook_on obj def);
      Val (if (fires : bool) && (negb collectCallsOnly || has_collect obj def) then u64 (fee + u32 (def_fee def)) else fee)
    end
  end.

(** A loop over a list that may be undefined. *)
Fixpoint fold_res {A B} (f : B -> A -> dres B) (b : B) (l : list A) : dres B :=
  match l with [] => Val b | x :: l => b ← f b x; fold_res f b l end.

Definition calculateHookChainFee (l : Ledger) (tx : STTx) (acct : AccountID) (collectCallsOnly : bool) : dres Z :=
  match hooks l !! acct with
  | None => Val 0
  | Some sle => fold_res (sum_fee l tx collectCallsOnly) 0 (sfHooks sle)
  end.

(** [Transactor::calculateBaseFee] *)
Definition calculateBaseFee (hooksEnabled : bool) (l : Ledger) (tx : STTx) (parties : TxParties) (objects : Objects)
    (baseFee signerCount : Z) : dres Z :=
  if negb hooksEnabled then Val (u64 (baseFee + signerCount * baseFee))
  else if tx_type tx =? ttEMIT_FAILURE then Val 0
  else
    '(execution, burden) ←
      match sfEmitDetails tx with
      | Some d =>
        let callback := definitions l !! default 0 (sfEmitHookHash d) ≫= def_callbackFee in
        Val (u32 (default 0 callback), default 0 (sfEmitBurden d))
      | None =>
        fee ← calculateHookChainFee l tx (default 0 (tx_account tx)) false;
        Val (fee, 1)
      end;
    execution ← fold_res (fun fee '(acc, canRollback) =>
      if canRollback : bool then chain ← calculateHookChainFee l tx acc false; Val (u64 (fee + chain)) else Val fee)
      execution (getTransactionalStakeHolders hooksEnabled tx parties objects);
    Val (u64 (baseFee * burden + signerCount * baseFee + execution)).

(** ** [hook::apply] *)

Section run.
Context `{Keylets, EmitKeylets, Engine} (tx : STTx).

Definition sender : AccountID := default 0 (tx_account tx).

Definition initial_context (hash ns : uint256) (params : gmap Blob Blob) (overrides : gmap uint256 (gmap Blob Blob))
    (m : HookStateMap) (acct : AccountID) (hasCb isCb strong : bool) (position : Z) : HookContext :=
  mkContext [] 0 0 (-1) ∅ 0 0 ∅
    (mkResult hash acct sender ns [] m 0 overrides params ∅ ROLLBACK [] (-1) hasCb isCb strong 0 position false false).

(** The arguments that come from the hook object and its definition are taken from them. *)
Definition apply (l : Ledger) (hash : uint256) (obj : HookObj) (def : HookDef) (overrides : gmap uint256 (gmap Blob Blob))
    (m : HookStateMap) (acct : AccountID) (hasCb isCb strong : bool) (wasmParam position : Z) : HookResult :=
  result (execute l tx (def_code def) isCb wasmParam
    (initial_context hash (hook_namespace obj def) (gatherHookParameters def obj) overrides m acct hasCb isCb strong position)).

(** ** Chains *)

(** Values given by a later hook replace those of an earlier one. *)
Definition gather_overrides (overrides new : gmap uint256 (gmap Blob Blob)) : gmap uint256 (gmap Blob Blob) :=
  union_with (fun params old => Some (params ∪ old)) new overrides.

Fixpoint chain_from (acct : AccountID) (strong : bool) (hook_no : Z) (hookSkips : gset uint256)
    (overrides : gmap uint256 (gmap Blob Blob)) (s : Run) (objs : list HookObj) : dres (TER * Run) :=
  match objs with
  | [] => Val (tesSUCCESS, s)
  | obj :: objs =>
    let hook_no := u8 (hook_no + 1) in
    let continue := chain_from acct strong hook_no hookSkips overrides s objs in
    match sfHookHash obj with
    | None => continue
    | Some hash =>
      if bool_decide (hash ∈ hookSkips) then continue
      else match definitions (run_ledger s) !! hash with
      | None => continue
      | Some def =>
        fires ← canHook (tx_type tx) (hook_on obj def);
        if negb fires then continue
        else if negb strong && negb (has_collect obj def) then continue
        else
          let r := apply (run_ledger s) hash obj def overrides (run_map s) acct (has_callback def) false strong
                     (if strong then 0 else 1) (u8 (hook_no - 1)) in
          let s := push_result r s in
          if negb (bool_decide (exitType r = ACCEPT)) then
            Val (if bool_decide (exitType r = WASM_ERROR) then temMALFORMED else tecHOOK_REJECTED, s)
          else chain_from acct strong hook_no (hookSkips ∪ Context.hookSkips r)
                 (gather_overrides overrides (hookParamOverrides r)) s objs
      end
    end
  end.

Definition executeHookChain (sle : HookSLE) (acct : AccountID) (strong : bool) (s : Run) : dres (TER * Run) :=
  chain_from acct strong 0 ∅ ∅ s (sfHooks sle).

(** ** Stakeholders *)

Definition lsfTshCollect : Z := 0x02000000.

(** The fee is taken from the account and destroyed. *)
Definition charge (acct : AccountID) (root : AccountRoot) (drops : Z) (s : Run) : Run :=
  mkRun (set_ledger (set_account acct (set_balance (sfBalance root - drops) root) (run_ledger s)) (run_view s))
    (run_map s) (run_results s) (executedHookCount_ s) (destroyedXRP s + drops).

(** The checks before a stakeholder's chain, with its fee; [None] skips the stakeholder. *)
Definition enter_tsh (base units : Z) (acct : AccountID) (canRollback : bool) (s : Run) : dres (option Run) :=
  let l := run_ledger s in
  match accounts l !! acct with
  | None => Val None
  | Some tshAcc =>
    tshFee ← calculateHookChainFee l tx acct (negb canRollback);
    if tshFee =? 0 then Val None
    else
      tshFeeDrops ← toDrops base units tshFee;
      let priorBalance := sfBalance tshAcc in
      if canRollback then Val (Some s)
      else if Z.land (acc_flags tshAcc) lsfTshCollect =? 0 then Val None
      else if priorBalance <? tshFeeDrops + accountReserve (fees l) (sfOwnerCount tshAcc) then Val None
      else if 0 <? tshFeeDrops then Val (Some (charge acct tshAcc tshFeeDrops s))
      else Val (Some s)
  end.

Fixpoint tsh_from (base units : Z) (strong : bool) (alreadyProcessed : gset AccountID) (s : Run)
    (tsh : list (AccountID * bool)) : dres (TER * Run) :=
  match tsh with
  | [] => Val (tesSUCCESS, s)
  | (acct, canRollback) :: tsh =>
    if acct =? sender then tsh_from base units strong alreadyProcessed s tsh
    else if bool_decide (acct ∈ alreadyProcessed) then tsh_from base units strong alreadyProcessed s tsh
    else
      let alreadyProcessed := {[acct]} ∪ alreadyProcessed in
      if (negb canRollback && strong) || (canRollback && negb strong) then tsh_from base units strong alreadyProcessed s tsh
      else match hooks (run_ledger s) !! acct with
      | None => tsh_from base units strong alreadyProcessed s tsh
      | Some tshHook =>
        entered ← enter_tsh base units acct canRollback s;
        match entered with
        | None => tsh_from base units strong alreadyProcessed s tsh
        | Some s =>
          '(tshResult, s) ← executeHookChain tshHook acct strong s;
          if canRollback && negb (bool_decide (tshResult = tesSUCCESS)) then Val (tshResult, s)
          else tsh_from base units strong alreadyProcessed s tsh
        end
      end
  end.

Definition additional (weakTsh : gset AccountID) : list (AccountID * bool) :=
  (fun a => (a, false)) <$> merge_sort Z.le (elements weakTsh).

Definition doTSH (base units : Z) (strong : bool) (parties : TxParties) (objects : Objects)
    (additionalWeakTSH_ : gset AccountID) (s : Run) : dres (TER * Run) :=
  let tsh := getTransactionalStakeHolders true tx parties objects in
  tsh_from base units strong ∅ s (tsh ++ if strong then [] else additional additionalWeakTSH_).

(** ** Again as weak *)

Fixpoint again_from (acct : AccountID) (hashes : gset uint256) (hook_no : Z) (s : Run) (objs : list HookObj) : Run :=
  match objs with
  | [] => s
  | obj :: objs =>
    let hook_no := u8 (hook_no + 1) in
    match sfHookHash obj with
    | None => again_from acct hashes hook_no s objs
    | Some hash =>
      if negb (bool_decide (hash ∈ hashes)) then again_from acct hashes hook_no s objs
      else match definitions (run_ledger s) !! hash with
      | None => again_from acct hashes hook_no s objs
      | Some def =>
        let r := apply (run_ledger s) hash obj def ∅ (run_map s) acct (has_callback def) false false 2 (u8 (hook_no - 1)) in
        again_from acct hashes hook_no (push_result r s) objs
      end
    end
  end.

Definition doAgainAsWeak (acct : AccountID) (hashes : gset uint256) (s : Run) : Run :=
  match hooks (run_ledger s) !! acct with
  | None => s
  | Some sle => again_from acct hashes 0 s (sfHooks sle)
  end.

(** ** Callbacks *)

Fixpoint callback_from (acct : AccountID) (hash : uint256) (def : HookDef) (hook_no : Z) (s : Run)
    (objs : list HookObj) : dres Run :=
  match objs with
  | [] => Val s
  | obj :: objs =>
    let hook_no := u8 (hook_no + 1) in
    if negb (bool_decide (sfHookHash obj = Some hash)) then callback_from acct hash def hook_no s objs
    else
      let wasmParam := if tx_type tx =? ttEMIT_FAILURE then 1 else 0 in
      let r := apply (run_ledger s) hash obj def ∅ empty_cache acct true true false wasmParam (u8 (hook_no - 1)) in
      let success := bool_decide (exitType r = ACCEPT) in
      v ← (if success then '(_, l) ← finalizeHookState (stateMap r) (run_ledger s); Val (set_ledger l (run_view s))
           else Val (run_view s));
      '(_, v) ← finalizeHookResult r v success;
      callback_from acct hash def hook_no
        (mkRun v (run_map s) (run_results s) (executedHookCount_ s + 1) (destroyedXRP s)) objs
  end.

(** The [emitFailure] of a callback with argument 1 is the entry of the failed
    transaction, which must exist. *)
Definition doHookCallback (s : Run) : dres Run :=
  match sfEmitDetails tx with
  | None => Val s
  | Some d =>
    match sfEmitCallback d with
    | None => Val s
    | Some acct =>
      let hash := default 0 (sfEmitHookHash d) in
      match definitions (run_ledger s) !! hash with
      | None => Val s
      | Some def =>
        if negb (has_callback def) then Val s
        else match hooks (run_ledger s) !! acct with
        | None => Val s
        | Some sle =>
          if (tx_type tx =? ttEMIT_FAILURE) && existsb (fun o => bool_decide (sfHookHash o = Some hash)) (sfHooks sle)
             && bool_decide (emitted (run_view s) !! emittedTxn_key (sfTransactionHash tx) = None) then Undef
          else callback_from acct hash def 0 s (sfHooks sle)
        end
      end
    end
  end.

(** ** The two phases of [operator()] *)

Definition isTesSuccess (t : TER) : bool := bool_decide (t = tesSUCCESS).

(** [finalizeHookResult] on every result; the hooks that asked to run again by account. *)
Fixpoint finalize_results (v : TxView) (doEmit : bool) (results : list HookResult) : dres TxView :=
  match results with
  | [] => Val v
  | r :: results => '(_, v) ← finalizeHookResult r v doEmit; finalize_results v doEmit results
  end.

Definition aaw_step (aawMap : gmap AccountID (gset uint256)) (r : HookResult) : gmap AccountID (gset uint256) :=
  if executeAgainAsWeak r then <[account r := {[hookHash r]} ∪ default ∅ (aawMap !! account r)]> aawMap else aawMap.

Definition start (v : TxView) : Run := mkRun v empty_cache [] 0 0.

(** From the result of [preclaim] to the call of [apply()]. *)
Definition strong_phase (base units : Z) (parties : TxParties) (objects : Objects) (preclaimResult : TER) (v : TxView)
    : dres (TER * Run * gmap AccountID (gset uint256)) :=
  if negb (isTesSuccess preclaimResult || bool_decide (preclaimResult = tecHOOK_REJECTED)) then
    Val (preclaimResult, start v, ∅)
  else
    '(ter, s) ←
      match hooks (ledger v) !! sender, sfEmitDetails tx with
      | Some sle, None => executeHookChain sle sender true (start v)
      | _, _ => Val (preclaimResult, start v)
      end;
    '(ter, s) ← (if isTesSuccess ter then doTSH base units true parties objects ∅ s else Val (ter, s));
    v ← (if isTesSuccess ter then '(_, l) ← finalizeHookState (run_map s) (run_ledger s); Val (set_ledger l (run_view s))
         else Val (run_view s));
    v ← finalize_results v (isTesSuccess ter) (run_results s);
    Val (ter, set_run_view v s, foldl aaw_step ∅ (run_results s)).

(** After the transaction is applied with the given result, up to [destroyXRP]; the
    objects are those of the view then. *)
Definition weak_phase (base units : Z) (parties : TxParties) (objects : Objects) (additionalWeakTSH_ : gset AccountID)
    (aawMap : gmap AccountID (gset uint256)) (ter : TER) (v : TxView) : dres Run :=
  s ← doHookCallback (start v);
  '(_, v) ← removeEmissionEntry tx (run_view s);
  '(_, s) ← doTSH base units false parties objects additionalWeakTSH_ (set_run_view v s);
  let s := foldl (fun s x => doAgainAsWeak x.1 x.2 s) s (in_order aawMap) in
  '(_, l) ← finalizeHookState (run_map s) (run_ledger s);
  v ← finalize_results (set_ledger l (run_view s)) (isTesSuccess ter) (run_results s);
  Val (set_run_view v s).
End run.
