(* ===== verification/HookPhases.v ===== *)
(** * HookPhases: what running the hooks around a transaction guarantees

    Theorems about the definitions of [HookTx]: which hooks of a chain run, in which
    order and with which parameters; the strong phase commits all of its effects or
    none; the fees of weak stakeholders. *)

From stdpp Require Import base numbers list option gmap sorting relations.
From Stdlib Require Import ZArith Lia.
From S2P Require Import Prelude Enum Runtime Directory Context StateLedger StateCache StateFinal HookParams.
From S2P Require Import Tsh EmitQueue HookTx.

Local Open Scope Z_scope.

(** ** One chain *)

(** The execution of the hook at an index of a chain. *)
Record Exec := mkExec { ex_index : nat; ex_obj : HookObj; ex_hash : uint256; ex_def : HookDef; ex_result : HookResult }.

(** The value overridden for a parameter of a hook. *)
Definition override (o : gmap uint256 (gmap Blob Blob)) (hash : uint256) (name : Blob) : option Blob :=
  o !! hash ≫= fun params => params !! name.
(** The latest of the values the executions gave, or the one before them. *)
Definition override_after (hash : uint256) (name : Blob) (v : option Blob) (p : list Exec) : option Blob :=
  foldl (fun v e => match override (hookParamOverrides (ex_result e)) hash name with Some v' => Some v' | None => v end) v p.
Definition skips_after (skips : gset uint256) (p : list Exec) : gset uint256 :=
  foldl (fun s e => s ∪ hookSkips (ex_result e)) skips p.
Definition map_after (m : HookStateMap) (p : list Exec) : HookStateMap :=
  foldl (fun _ e => stateMap (ex_result e)) m p.

Lemma elem_of_skips_after skips p h : h ∈ skips_after skips p <-> h ∈ skips \/ exists e, e ∈ p /\ h ∈ hookSkips (ex_result e).
Proof.
  revert skips. induction p as [|e p IH]; intros skips; cbn; [set_solver|]. rewrite IH, elem_of_union.
  setoid_rewrite elem_of_cons. naive_solver.
Qed.

Definition accepted_exec (e : Exec) : Prop := exitType (ex_result e) = ACCEPT.

(** What a chain answers when a hook ends it. *)
Definition chain_answer (r : HookResult) : TER :=
  if bool_decide (exitType r = ACCEPT) then tesSUCCESS
  else if bool_decide (exitType r = WASM_ERROR) then temMALFORMED else tecHOOK_REJECTED.

Lemma override_gather o new hash name :
  override (gather_overrides o new) hash name =
  match override new hash name with Some v => Some v | None => override o hash name end.
Proof.
  unfold override, gather_overrides. rewrite lookup_union_with.
  destruct (new !! hash) as [a|], (o !! hash) as [b|]; cbn; try done; [|by destruct (a !! name)].
  rewrite lookup_union. by destruct (a !! name), (b !! name).
Qed.

(** A set bit of [hookOn] turns a transaction type off, except for [SetHook]. *)
Definition fires_on (txType hookOn : Z) : bool :=
  if txType =? ttHOOK_SET then Z.testbit hookOn txType else negb (Z.testbit hookOn txType).

Lemma canHook_fires t on : 0 <= t < 64 -> canHook t on = Val (fires_on t on).
Proof.
  intros Ht. unfold canHook. rewrite (proj2 (Z.ltb_ge _ _)), (proj2 (Z.leb_gt _ _)) by lia. cbn [orb]. f_equal.
  change 0xFFFFFFFFFFFFFFFF with (Z.ones 64). rewrite (Z.land_ones _ 1) by lia.
  rewrite <- Z.bit0_mod, Z.shiftr_spec, Z.add_0_l, !Z.lxor_spec, Z.ones_spec_low, Z.shiftl_spec by lia.
  unfold fires_on, ttHOOK_SET. destruct (Z.eqb_spec t 22) as [->|Hne]; [by destruct (Z.testbit on 22)|].
  change 1 with (2 ^ 0). rewrite Z.pow2_bits_false by lia. by destruct (Z.testbit on t).
Qed.

Section chain.
Context `{Keylets, EmitKeylets, Engine} (tx : STTx).

(** The hook can run with this transaction. *)
Record runnable (l : Ledger) (strong : bool) (obj : HookObj) (hash : uint256) (def : HookDef) : Prop := {
  rn_hash : sfHookHash obj = Some hash;
  rn_def : definitions l !! hash = Some def;
  rn_fires : fires_on (tx_type tx) (default (def_hookOn def) (sfHookOn obj)) = true;
  rn_collect : strong || has_collect obj def = true
}.

(** [c] is the context [e] starts with after the executions [p]: its own hash, namespace,
    parameters and position, the parameters [p] overrode and the state [p] left; it has
    emitted nothing, skips nothing and rolls back unless it accepts. *)
Record started (acct : AccountID) (strong : bool) (m : HookStateMap) (overrides : gmap uint256 (gmap Blob Blob))
    (p : list Exec) (e : Exec) (c : HookContext) : Prop := {
  sd_hook : hookHash (result c) = ex_hash e /\ account (result c) = acct /\ otxnAccount (result c) = sender tx;
  sd_namespace : hookNamespace (result c) = default (def_namespace (ex_def e)) (sfHookNamespace (ex_obj e));
  sd_params : hookParams (result c) = gatherHookParameters (ex_def e) (ex_obj e);
  sd_overrides hash name :
    override (hookParamOverrides (result c)) hash name = override_after hash name (override overrides hash name) p;
  sd_state : stateMap (result c) = map_after m p;
  sd_position : hookChainPosition (result c) = Z.of_nat (ex_index e) /\ isStrong (result c) = strong;
  sd_fresh : emittedTxn (result c) = [] /\ hookSkips (result c) = ∅ /\ exitType (result c) = ROLLBACK /\
    guard_map c = ∅ /\ emit_nonce_counter c = 0
}.

(** [e] ran after the executions [p]: its hook is runnable and none of [p] skips it. *)
Record executed (l : Ledger) (acct : AccountID) (strong : bool) (m : HookStateMap) (skips : gset uint256)
    (overrides : gmap uint256 (gmap Blob Blob)) (p : list Exec) (e : Exec) : Prop := {
  ec_runnable : runnable l strong (ex_obj e) (ex_hash e) (ex_def e);
  ec_unskipped : ex_hash e ∉ skips_after skips p;
  ec_result : exists c, started acct strong m overrides p e c /\
    ex_result e = result (execute l tx (def_code (ex_def e)) false (if strong then 0 else 1) c)
}.

(** The executions of a chain whose hooks [objs] start at index [i]. *)
Record chain_trace (l : Ledger) (acct : AccountID) (strong : bool) (i : nat) (m : HookStateMap) (skips : gset uint256)
    (overrides : gmap uint256 (gmap Blob Blob)) (objs : list HookObj) (trace : list Exec) (ter : TER) : Prop := {
  ct_order : StronglySorted Nat.lt (ex_index <$> trace);
  ct_objs e : e ∈ trace -> (i <= ex_index e)%nat /\ objs !! (ex_index e - i)%nat = Some (ex_obj e);
  ct_executed j e : trace !! j = Some e -> executed l acct strong m skips overrides (take j trace) e;
  ct_accepts j e : trace !! j = Some e -> (S j < length trace)%nat -> accepted_exec e;
  ct_answer : ter = default tesSUCCESS (chain_answer <$> (ex_result <$> last trace));
  ct_all k obj hash def : ter = tesSUCCESS -> objs !! k = Some obj -> runnable l strong obj hash def ->
    (exists e, e ∈ trace /\ ex_index e = (i + k)%nat) \/
    hash ∈ skips \/ (exists e, e ∈ trace /\ (ex_index e < i + k)%nat /\ hash ∈ hookSkips (ex_result e))
}.

(** The run after a chain. *)
Definition after_chain (s : Run) (trace : list Exec) (s' : Run) : Prop :=
  run_view s' = run_view s /\ destroyedXRP s' = destroyedXRP s /\
  run_results s' = run_results s ++ (ex_result <$> trace) /\ run_map s' = map_after (run_map s) trace.

Lemma trace_skip l acct strong i m skips ov obj objs trace ter :
  chain_trace l acct strong (S i) m skips ov objs trace ter ->
  (forall hash def, runnable l strong obj hash def -> hash ∈ skips) ->
  chain_trace l acct strong i m skips ov (obj :: objs) trace ter.
Proof.
  intros [Ho Hobj He Ha Hans Hall] Hn. split; try done.
  - intros e Hin. destruct (Hobj e Hin) as [Hi Hlk]. split; [lia|].
    replace (ex_index e - i)%nat with (S (ex_index e - S i)) by lia. done.
  - intros [|k] o hash def Hter Hk Hr; cbn in Hk.
    + injection Hk as ->. right. left. by eapply Hn.
    + destruct (Hall k o hash def Hter Hk Hr) as [(e & Hin & E)|[?|(e & Hin & E & Hh)]]; [left|right; by left|do 2 right];
        exists e; (split; [done|]); [lia|]. split; [lia|done].
Qed.

(** A hook that ends the chain. *)
Lemma trace_stop l acct strong i m skips ov objs e ter :
  executed l acct strong m skips ov [] e -> ex_index e = i -> ~ accepted_exec e -> ter = chain_answer (ex_result e) ->
  chain_trace l acct strong i m skips ov (ex_obj e :: objs) [e] ter.
Proof.
  intros He Hi Hna ->. split; cbn.
  - repeat constructor.
  - intros e' ->%list_elem_of_singleton. rewrite Hi, Nat.sub_diag. done.
  - intros [|j] e' Hj; cbn in Hj; [by injection Hj as <-|done].
  - intros [|j] e' Hj; cbn; lia.
  - done.
  - intros k obj hash def Hter. unfold chain_answer in Hter. rewrite bool_decide_false in Hter by done. by case_bool_decide.
Qed.

(** A hook that accepts. *)
Lemma trace_step l acct strong i m skips ov objs e trace ter :
  executed l acct strong m skips ov [] e -> ex_index e = i -> accepted_exec e ->
  chain_trace l acct strong (S i) (stateMap (ex_result e)) (skips ∪ hookSkips (ex_result e))
    (gather_overrides ov (hookParamOverrides (ex_result e))) objs trace ter ->
  chain_trace l acct strong i m skips ov (ex_obj e :: objs) (e :: trace) ter.
Proof.
  intros He Hi Hacc [Ho Hobj Hex Ha Hans Hall]. split.
  - cbn. constructor; [done|]. apply Forall_forall. intros x (e' & -> & Hin)%list_elem_of_fmap.
    destruct (Hobj e' Hin). unfold Nat.lt. lia.
  - intros e' [->|Hin]%elem_of_cons; [rewrite Hi, Nat.sub_diag; done|]. destruct (Hobj e' Hin) as [Hle Hlk]. split; [lia|].
    replace (ex_index e' - i)%nat with (S (ex_index e' - S i)) by lia. done.
  - intros [|j] e' Hj; cbn in Hj; [by injection Hj as <-|]. destruct (Hex j e' Hj) as [Hr Hs (c & Hc & Hres)].
    split; [done|done|]. exists c. split; [|done]. destruct Hc as [? ? ? Hov ? ? ?]. split; try done.
    intros hash name. rewrite Hov, override_gather. done.
  - intros [|j] e' Hj Hlt; cbn in Hj, Hlt; [by injection Hj as <-|]. apply (Ha j); [done|lia].
  - rewrite last_cons, Hans. destruct (last trace) as [x|]; cbn; [done|].
    unfold chain_answer. by rewrite bool_decide_true.
  - intros [|k] o hash def Hter Hk Hr; cbn in Hk.
    + left. exists e. split; [by left|]. lia.
    + destruct (Hall k o hash def Hter Hk Hr) as [(e' & Hin & E)|[[?|?]%elem_of_union|(e' & Hin & E & Hh)]].
      * left. exists e'. split; [by right|lia].
      * right. by left.
      * do 2 right. exists e. split; [by left|]. split; [lia|done].
      * do 2 right. exists e'. split; [by right|]. split; [lia|done].
Qed.

Lemma chain_trace_nil l acct strong i m skips ov : chain_trace l acct strong i m skips ov [] [] tesSUCCESS.
Proof.
  split; cbn; try done; [constructor|by intros e ?%not_elem_of_nil].
Qed.

Lemma chain_from_spec acct strong objs i skips ov s :
  0 <= tx_type tx < 64 -> (i + length objs <= 255)%nat ->
  exists ter s' trace, chain_from tx acct strong (Z.of_nat i) skips ov s objs = Val (ter, s') /\
    after_chain s trace s' /\ chain_trace (run_ledger s) acct strong i (run_map s) skips ov objs trace ter.
Proof.
  intros Ht. revert i skips ov s. induction objs as [|obj objs IH]; intros i skips ov s Hlen; cbn [length] in Hlen.
  { exists tesSUCCESS, s, []. split; [done|]. split; [|apply chain_trace_nil]. split; [done|]. by rewrite app_nil_r. }
  cbn [chain_from]. replace (u8 (Z.of_nat i + 1)) with (Z.of_nat (S i)) by (rewrite u8_small by lia; lia).
  replace (u8 (Z.of_nat (S i) - 1)) with (Z.of_nat i) by (rewrite u8_small by lia; lia).
  destruct (IH (S i) skips ov s ltac:(lia)) as (ter & s' & trace & E & Hs & Htr).
  assert (forall (P : Prop), P -> (P -> forall hash def, runnable (run_ledger s) strong obj hash def -> hash ∈ skips) ->
    exists ter s' trace, chain_from tx acct strong (Z.of_nat (S i)) skips ov s objs = Val (ter, s') /\
    after_chain s trace s' /\ chain_trace (run_ledger s) acct strong i (run_map s) skips ov (obj :: objs) trace ter) as Hskip.
  { intros P HP Hn. exists ter, s', trace. split; [done|]. split; [done|]. apply trace_skip; [done|]. by apply Hn. }
  clear E Hs Htr ter s' trace. destruct (sfHookHash obj) as [hash|] eqn:Eh.
  2: { apply (Hskip _ Eh). intros _ h d [Hh _ _ _]. congruence. }
  case_bool_decide as Hin. { apply (Hskip _ Hin). intros _ h d [Hh _ _ _]. congruence. }
  destruct (definitions (run_ledger s) !! hash) as [def|] eqn:Ed.
  2: { apply (Hskip _ Ed). intros _ h d [Hh Hd _ _]. congruence. }
  rewrite canHook_fires by done. cbn [mbind res_bind]. unfold hook_on.
  destruct (fires_on (tx_type tx) _) eqn:Ef; cbn [negb]. 2: { apply (Hskip _ Ef). intros _ h d [Hh Hd Hf _]. replace d with def in * by congruence. congruence. }
  destruct (negb strong && negb (has_collect obj def)) eqn:Ec.
  { apply (Hskip _ Ec). intros _ h d [Hh Hd _ Hc]. replace d with def in * by congruence. by destruct strong, (has_collect obj def). }
  set (r := apply _ _ _ _ _ _ _ _ _ _ _ _ _). set (e := mkExec i obj hash def r).
  assert (executed (run_ledger s) acct strong (run_map s) skips ov [] e) as He.
  { split; [|done|]; [split; try done; cbn; by destruct strong, (has_collect obj def)|].
    eexists. split; [|done]. by split. }
  case_bool_decide as Hacc; cbn [negb].
  - destruct (IH (S i) (skips ∪ hookSkips r) (gather_overrides ov (hookParamOverrides r)) (push_result r s) ltac:(lia))
      as (ter & s' & trace & -> & (Hv & Hd & Hr & Hm) & Htr).
    exists ter, s', (e :: trace). split; [done|]. split; [|by apply (trace_step _ _ _ _ _ _ _ _ e)].
    split; [done|]. split; [done|]. split; [|done]. rewrite Hr. cbn. by rewrite <- app_assoc.
  - eexists _, _, [e]. split; [done|]. split; [done|]. apply (trace_stop _ _ _ _ _ _ _ _ e); try done.
    unfold chain_answer. cbn. by rewrite (bool_decide_false (exitType r = ACCEPT)).
Qed.

End chain.

(** ** The strong phase *)

Definition accepted_result (r : HookResult) : Prop := exitType r = ACCEPT.
Definition exit_code_ok (r : HookResult) : Prop := - 2 ^ 63 <= exitCode r < 2 ^ 63.
Definition least_exit (r : HookResult) : Prop := exitCode r = - 2 ^ 63.

Section strong.
Context `{Keylets, EmitKeylets, Engine} (tx : STTx).

(** What the engine is relied on for: a hook changes the shared state map only by
    calls of the state functions, and its exit code is a 64-bit integer. *)
Record engine_ok : Prop := {
  eng_state l code isCb wasmParam c :
    rtc (cache_step l) (stateMap (result c)) (stateMap (result (execute l tx code isCb wasmParam c)));
  eng_exit l code isCb wasmParam c : exit_code_ok (result (execute l tx code isCb wasmParam c))
}.

(** A ledger that holds a store and is within the limits of the network. *)
Record ledger_ok (l : Ledger) (σ : store) : Prop := {
  lk_rep : rep l σ;
  lk_accounts : Z.of_nat (size (accounts l)) < 2 ^ 31;
  lk_increment : 0 <= fee_increment (fees l);
  lk_owner a r : accounts l !! a = Some r -> sfOwnerCount r < 2 ^ 31;
  lk_chains a sle : hooks l !! a = Some sle -> (length (sfHooks sle) <= 255)%nat
}.

Lemma trace_accepts l acct strong i m skips ov objs trace :
  chain_trace tx l acct strong i m skips ov objs trace tesSUCCESS -> Forall accepted_result (ex_result <$> trace).
Proof.
  intros Ht. apply Forall_fmap, Forall_lookup. intros j e Hj. destruct (decide (S j < length trace)%nat) as [Hlt|Hge].
  - by apply (ct_accepts _ _ _ _ _ _ _ _ _ _ _ Ht j).
  - pose proof (ct_answer _ _ _ _ _ _ _ _ _ _ _ Ht) as Hans. rewrite last_lookup in Hans.
    pose proof (lookup_lt_Some _ _ _ Hj). replace (Nat.pred (length trace)) with j in Hans by lia. rewrite Hj in Hans.
    cbn in Hans. unfold chain_answer in Hans. unfold compose, accepted_result. by repeat case_bool_decide.
Qed.

Lemma trace_results l acct strong i m skips ov objs trace ter :
  engine_ok -> chain_trace tx l acct strong i m skips ov objs trace ter ->
  rtc (cache_step l) m (map_after m trace) /\ Forall exit_code_ok (ex_result <$> trace).
Proof.
  intros Heng Ht. split.
  - assert (forall j, (j <= length trace)%nat -> rtc (cache_step l) m (map_after m (take j trace))) as Hj.
    { induction j as [|j IH]; intros Hle; [done|]. destruct (lookup_lt_is_Some_2 trace j Hle) as [e He].
      rewrite (take_S_r _ _ _ He). unfold map_after. rewrite foldl_app. cbn.
      etransitivity; [apply IH; lia|].
      destruct (ec_result _ _ _ _ _ _ _ _ _ (ct_executed _ _ _ _ _ _ _ _ _ _ _ Ht j e He)) as (c & Hc & ->).
      rewrite <- (sd_state _ _ _ _ _ _ _ _ Hc). apply (eng_state Heng). }
    specialize (Hj (length trace)). rewrite firstn_all in Hj. by apply Hj.
  - apply Forall_fmap, Forall_lookup. intros j e He. unfold compose.
    destruct (ec_result _ _ _ _ _ _ _ _ _ (ct_executed _ _ _ _ _ _ _ _ _ _ _ Ht j e He)) as (c & _ & ->). apply (eng_exit Heng).
Qed.

(** What a part of the strong phase does to the run. *)
Definition ran_strong (s : Run) (ter : TER) (s' : Run) : Prop :=
  run_view s' = run_view s /\ rtc (cache_step (run_ledger s)) (run_map s) (run_map s') /\
  exists rs, run_results s' = run_results s ++ rs /\ Forall exit_code_ok rs /\ (ter = tesSUCCESS -> Forall accepted_result rs).

Lemma ran_strong_refl ter s : ran_strong s ter s.
Proof. split; [done|]. split; [done|]. exists []. by rewrite app_nil_r. Qed.

Lemma ran_strong_trans s s1 ter s2 : ran_strong s tesSUCCESS s1 -> ran_strong s1 ter s2 -> ran_strong s ter s2.
Proof.
  intros (Hv & Hm & rs & Hr & He & Ha) (Hv1 & Hm1 & rs1 & Hr1 & He1 & Ha1). unfold run_ledger in *. rewrite Hv in Hm1.
  split; [congruence|]. split; [by etransitivity|]. exists (rs ++ rs1). rewrite Hr1, Hr, app_assoc. split; [done|].
  split; [by apply Forall_app|]. intros E. apply Forall_app. auto.
Qed.

Lemma chain_ran_strong sle acct s :
  engine_ok -> 0 <= tx_type tx < 64 -> (length (sfHooks sle) <= 255)%nat ->
  exists ter s', executeHookChain tx sle acct true s = Val (ter, s') /\ ran_strong s ter s'.
Proof.
  intros Heng Ht Hlen. destruct (chain_from_spec tx acct true (sfHooks sle) 0 ∅ ∅ s Ht Hlen)
    as (ter & s' & trace & E & (Hv & _ & Hr & Hm) & Htr).
  destruct (trace_results _ _ _ _ _ _ _ _ _ _ Heng Htr) as [Hrtc Hex].
  exists ter, s'. split; [exact E|]. split; [done|]. split; [by rewrite Hm|]. exists (ex_result <$> trace).
  split; [done|]. split; [done|]. intros ->. by eapply trace_accepts.
Qed.

Lemma toDrops_total base units fee : 0 < units -> exists d, toDrops base units fee = Val d.
Proof.
  intros Hu. unfold toDrops, mulDivU. rewrite (proj2 (Z.eqb_neq units 0)) by lia.
  repeat case_match; cbn [mbind res_bind] in *; simplify_eq; eauto.
Qed.

Lemma fold_res_total {A B} (f : B -> A -> dres B) l b : (forall b x, exists b', f b x = Val b') -> exists b', fold_res f b l = Val b'.
Proof.
  intros Hf. revert b. induction l as [|x l IH]; intros b; cbn; [eauto|]. destruct (Hf b x) as [b' ->]. apply IH.
Qed.

Lemma chain_fee_total l acct collect : 0 <= tx_type tx < 64 -> exists fee, calculateHookChainFee l tx acct collect = Val fee.
Proof.
  intros Ht. unfold calculateHookChainFee. destruct (hooks l !! acct) as [sle|]; [|eauto]. apply fold_res_total.
  intros fee obj. unfold sum_fee. destruct (sfHookHash obj) as [h|]; [|eauto]. destruct (definitions l !! h) as [def|]; [|eauto].
  rewrite canHook_fires by done. cbn. eauto.
Qed.

Lemma enter_strong base units acct s :
  0 < units -> 0 <= tx_type tx < 64 -> enter_tsh tx base units acct true s = Val None \/ enter_tsh tx base units acct true s = Val (Some s).
Proof.
  intros Hu Ht. unfold enter_tsh. destruct (accounts _ !! acct) as [root|]; [|by left].
  destruct (chain_fee_total (run_ledger s) acct (negb true) Ht) as [fee ->]. cbn [mbind res_bind].
  destruct (fee =? 0); [by left|]. destruct (toDrops_total base units fee Hu) as [d ->]. by right.
Qed.

Lemma tsh_ran_strong base units already s tsh :
  engine_ok -> 0 <= tx_type tx < 64 -> 0 < units ->
  (forall a sle, hooks (run_ledger s) !! a = Some sle -> (length (sfHooks sle) <= 255)%nat) ->
  exists ter s', tsh_from tx base units true already s tsh = Val (ter, s') /\ ran_strong s ter s'.
Proof.
  intros Heng Ht Hu. revert already s. induction tsh as [|[acct rb] tsh IH]; intros already s Hlen; cbn [tsh_from].
  { do 2 eexists. split; [done|]. apply ran_strong_refl. }
  destruct (acct =? sender tx); [by apply IH|]. case_bool_decide; [by apply IH|].
  destruct rb; cbn [negb andb orb]; [|by apply IH].
  destruct (hooks (run_ledger s) !! acct) as [sle|] eqn:Esle; [|by apply IH].
  destruct (enter_strong base units acct s Hu Ht) as [-> | ->]; cbn [mbind res_bind]; [by apply IH|].
  destruct (chain_ran_strong sle acct s Heng Ht (Hlen acct sle Esle)) as (ter & s1 & -> & Hs1). cbn [mbind res_bind].
  case_bool_decide as Hter; cbn [negb].
  - subst ter. destruct (IH ({[acct]} ∪ already) s1) as (ter & s2 & -> & Hs2).
    { unfold run_ledger in *. by rewrite (proj1 Hs1). }
    do 2 eexists. split; [done|]. by eapply ran_strong_trans.
  - by do 2 eexists.
Qed.

Lemma finalize_results_spec rs v doEmit : queue_ok v -> Forall exit_code_ok rs ->
  (finalize_results v doEmit rs = Undef /\ is_open v = false /\ Exists least_exit rs) \/
  exists v', finalize_results v doEmit rs = Val v' /\ queue_ok v' /\ ledger v' = ledger v /\
    (doEmit = false -> forall id, queued v' id = queued v id).
Proof.
  intros Hq Hrs. revert v Hq. induction rs as [|r rs IH]; intros v Hq; cbn [finalize_results]; [right; by eauto|].
  apply Forall_cons in Hrs as [Hr Hrs]. pose proof (finalizeHookResult_spec r v doEmit Hq Hr) as Hf. destruct (is_open v) eqn:Ho.
  - rewrite Hf. cbn [mbind res_bind]. destruct (IH Hrs v Hq) as [(_ & ? & _)|?]; [congruence|by right].
  - destruct Hf as [[Hl ->]|(ter & v1 & -> & Hq1 & Hl1 & Ho1 & Hter)]; [left; split; [done|]; split; [done|by left]|].
    cbn [mbind res_bind]. destruct (IH Hrs v1 Hq1) as [(-> & _ & ?)|(v2 & -> & Hq2 & Hl2 & Hid)]; [left; split; [done|]; split; [done|by right]|].
    right. exists v2. split; [done|]. split; [done|].
    split; [congruence|]. intros ->. intros id. rewrite Hid by done. destruct ter; try done; [by rewrite (proj1 Hter)|by destruct Hter].
Qed.

(** The chains of the strong phase, before anything is written. *)
Definition strong_chains (base units : Z) (parties : TxParties) (objects : Objects) (ter : TER) (v : TxView) : dres (TER * Run) :=
  '(ter, s) ←
    match hooks (ledger v) !! sender tx, sfEmitDetails tx with
    | Some sle, None => executeHookChain tx sle (sender tx) true (start v)
    | _, _ => Val (ter, start v)
    end;
  if isTesSuccess ter then doTSH tx base units true parties objects ∅ s else Val (ter, s).

Lemma strong_phase_chains base units parties objects ter0 v :
  strong_phase tx base units parties objects ter0 v =
  if negb (isTesSuccess ter0 || bool_decide (ter0 = tecHOOK_REJECTED)) then Val (ter0, start v, ∅)
  else
    '(ter, s) ← strong_chains base units parties objects ter0 v;
    v ← (if isTesSuccess ter then '(_, l) ← finalizeHookState (run_map s) (run_ledger s); Val (set_ledger l (run_view s))
         else Val (run_view s));
    v ← finalize_results v (isTesSuccess ter) (run_results s);
    Val (ter, set_run_view v s, foldl aaw_step ∅ (run_results s)).
Proof.
  unfold strong_phase, strong_chains. destruct (negb _); [done|].
  by destruct (match hooks (ledger v) !! sender tx with Some _ => _ | None => _ end) as [[ter s]|e|].
Qed.

Lemma strong_chains_spec base units parties objects ter0 v σ :
  engine_ok -> 0 <= tx_type tx < 64 -> 0 < units -> ledger_ok (ledger v) σ ->
  exists ter s, strong_chains base units parties objects ter0 v = Val (ter, s) /\ ran_strong (start v) ter s.
Proof.
  intros Heng Ht Hu Hl. unfold strong_chains.
  assert (exists ter s, match hooks (ledger v) !! sender tx, sfEmitDetails tx with
    | Some sle, None => executeHookChain tx sle (sender tx) true (start v)
    | _, _ => Val (ter0, start v)
    end = Val (ter, s) /\ ran_strong (start v) ter s) as (ter & s & -> & Hs).
  { destruct (hooks (ledger v) !! sender tx) as [sle|] eqn:Esle; [destruct (sfEmitDetails tx)|];
      try (do 2 eexists; split; [done|]; apply ran_strong_refl).
    apply chain_ran_strong; [done|done|]. by apply (lk_chains _ _ Hl (sender tx)). }
  cbn [mbind res_bind]. unfold isTesSuccess. case_bool_decide as Hter; [|by eauto].
  subst ter. unfold doTSH. rewrite app_nil_r.
  destruct (tsh_ran_strong base units ∅ s (getTransactionalStakeHolders true tx parties objects) Heng Ht Hu) as (ter & s' & -> & Hs').
  { unfold run_ledger. rewrite (proj1 Hs). apply (lk_chains _ _ Hl). }
  do 2 eexists. split; [done|]. by eapply ran_strong_trans.
Qed.

(** *** Transaction types beyond the mask of [canHook]: the first hook that is asked makes the run undefined *)

Lemma canHook_wide hookOn : 64 <= tx_type tx -> canHook (tx_type tx) hookOn = Undef.
Proof. intros Ht. unfold canHook. by rewrite (proj2 (Z.leb_le 64 (tx_type tx))), orb_true_r by done. Qed.

Lemma chain_wide acct strong objs n skips ov s : 64 <= tx_type tx ->
  chain_from tx acct strong n skips ov s objs = Undef \/ chain_from tx acct strong n skips ov s objs = Val (tesSUCCESS, s).
Proof.
  intros Ht. revert n. induction objs as [|obj objs IH]; intros n; cbn [chain_from]; [by right|].
  destruct (sfHookHash obj); [|apply IH]. case_bool_decide; [apply IH|]. destruct (definitions _ !! _); [|apply IH].
  left. by rewrite canHook_wide.
Qed.

Lemma chain_fee_wide l acct collect : 64 <= tx_type tx ->
  calculateHookChainFee l tx acct collect = Undef \/ calculateHookChainFee l tx acct collect = Val 0.
Proof.
  intros Ht. unfold calculateHookChainFee. destruct (hooks l !! acct) as [sle|]; [|by right]. induction (sfHooks sle) as [|obj objs IH]; [by right|].
  cbn [fold_res]. assert (sum_fee l tx collect 0 obj = Undef \/ sum_fee l tx collect 0 obj = Val 0) as [-> | ->]; [|by left|exact IH].
  unfold sum_fee. destruct (sfHookHash obj) as [h|]; [|by right]. destruct (definitions l !! h) as [def|]; [|by right]. left. by rewrite canHook_wide.
Qed.

Lemma tsh_wide base units strong already s tsh : 64 <= tx_type tx ->
  tsh_from tx base units strong already s tsh = Undef \/ tsh_from tx base units strong already s tsh = Val (tesSUCCESS, s).
Proof.
  intros Ht. revert already. induction tsh as [|[acct rb] tsh IH]; intros already; cbn [tsh_from]; [by right|].
  destruct (acct =? sender tx); [apply IH|]. case_bool_decide; [apply IH|]. destruct (_ || _); [apply IH|].
  destruct (hooks (run_ledger s) !! acct) as [sle|]; [|apply IH]. unfold enter_tsh.
  destruct (accounts (run_ledger s) !! acct); [|apply IH].
  destruct (chain_fee_wide (run_ledger s) acct (negb rb) Ht) as [-> | ->]; [by left|apply IH].
Qed.

Lemma strong_chains_wide base units parties objects ter0 v : 64 <= tx_type tx ->
  strong_chains base units parties objects ter0 v = Undef \/ exists ter s, strong_chains base units parties objects ter0 v = Val (ter, s) /\ ran_strong (start v) ter s.
Proof.
  intros Ht. unfold strong_chains.
  assert (match hooks (ledger v) !! sender tx, sfEmitDetails tx with
    | Some sle, None => executeHookChain tx sle (sender tx) true (start v)
    | _, _ => Val (ter0, start v)
    end = Undef \/ exists ter, match hooks (ledger v) !! sender tx, sfEmitDetails tx with
    | Some sle, None => executeHookChain tx sle (sender tx) true (start v)
    | _, _ => Val (ter0, start v)
    end = Val (ter, start v)) as [-> |[ter ->]]; [|by left|].
  { destruct (hooks (ledger v) !! sender tx) as [sle|]; [destruct (sfEmitDetails tx)|]; [right; by eexists| |right; by eexists].
    unfold executeHookChain. destruct (chain_wide (sender tx) true (sfHooks sle) 0 ∅ ∅ (start v) Ht) as [-> | ->]; [by left|right; by eexists]. }
  cbn [mbind res_bind]. destruct (isTesSuccess ter); [|right; do 2 eexists; split; [done|apply ran_strong_refl]]. unfold doTSH.
  destruct (tsh_wide base units true ∅ (start v) (getTransactionalStakeHolders true tx parties objects ++ []) Ht) as [-> | ->];
    [by left|right; do 2 eexists; split; [done|apply ran_strong_refl]].
Qed.

(** C3: the strong phase commits everything or nothing.  Whatever the hooks of the
    sender and of the stakeholders do, the phase ends; if one of them does not accept,
    the ledger is as before and no transaction is emitted; and if the phase succeeds
    then every hook that ran accepted, and the ledger holds the store with exactly the
    entries the hooks wrote, all chains sharing one state, unless a directory was
    full.  There are two exceptions, in which the code is undefined: the transaction type is 64 or more, as
    that of [ttINVOKE], and [canHook] shifts its mask by the width or more; and, on a closed view, a hook ended
    with the exit code -2^63, whose negation is computed to record it. *)
Theorem strong_phase_atomic base units parties objects preclaimResult v σ :
  engine_ok -> 0 <= tx_type tx -> 0 < units -> ledger_ok (ledger v) σ -> queue_ok v ->
  (strong_phase tx base units parties objects preclaimResult v = Undef /\
   (64 <= tx_type tx \/
    is_open v = false /\ exists ter s, strong_chains base units parties objects preclaimResult v = Val (ter, s) /\ Exists least_exit (run_results s))) \/
  exists ter s aawMap, strong_phase tx base units parties objects preclaimResult v = Val (ter, s, aawMap) /\
    queue_ok (run_view s) /\
    if bool_decide (ter = tesSUCCESS) then
      Forall accepted_result (run_results s) /\ rtc (cache_step (ledger v)) empty_cache (run_map s) /\
      ((exists σ', rep (run_ledger s) σ' /\ flushed σ (run_map s) σ') \/
       finalizeHookState (run_map s) (ledger v) = Val (tecDIR_FULL, run_ledger s))
    else run_ledger s = ledger v /\ forall id, queued (run_view s) id = queued v id.
Proof.
  intros Heng Ht Hu Hl Hq. rewrite strong_phase_chains. destruct (negb _) eqn:Epre.
  { right. exists preclaimResult, (start v), ∅. split; [done|]. split; [done|]. rewrite bool_decide_false; [done|]. intros ->.
    unfold isTesSuccess in Epre. by rewrite (bool_decide_true (_ = tesSUCCESS)) in Epre. }
  clear Epre.
  assert ((strong_chains base units parties objects preclaimResult v = Undef /\ 64 <= tx_type tx) \/
    exists ter s, strong_chains base units parties objects preclaimResult v = Val (ter, s) /\ ran_strong (start v) ter s) as [[-> ?]|(ter & s & Echains & Hs)].
  { destruct (decide (64 <= tx_type tx)) as [Hw|]; [destruct (strong_chains_wide base units parties objects preclaimResult v Hw); by auto|right].
    by apply (strong_chains_spec _ _ _ _ _ _ σ); [|lia|..]. }
  { left. by split; [|left]. }
  rewrite Echains. cbn [mbind res_bind]. destruct Hs as (Hv & Hm & rs & Hr & Hex & Hacc). cbn in Hr. subst rs.
  unfold isTesSuccess. case_bool_decide as Hter.
  - subst ter. destruct (finalizeHookState_spec (ledger v) σ (run_map s)) as (ter & l' & E & Hl'); try apply Hl; [done|].
    unfold run_ledger in *. rewrite Hv. cbn [run_view start]. rewrite E. cbn [mbind res_bind].
    destruct (finalize_results_spec (run_results s) (set_ledger l' v) true) as [(-> & Ho & Hx)|(v' & -> & Hq' & El & _)];
      [by destruct Hq; split|done|left; by eauto 10|right].
    cbn [mbind res_bind]. do 3 eexists. split; [done|]. split; [done|]. rewrite bool_decide_true by done. cbn.
    split; [by apply Hacc|]. split; [done|]. rewrite El. cbn. destruct ter; try done; [left; done|right; exact E].
  - cbn [mbind res_bind]. rewrite Hv. cbn [run_view start].
    destruct (finalize_results_spec (run_results s) v false Hq Hex) as [(-> & Ho & Hx)|(v' & -> & Hq' & El & Hid)]; [left; by eauto 10|right].
    cbn [mbind res_bind]. do 3 eexists. split; [done|]. split; [done|]. rewrite bool_decide_false by done.
    unfold run_ledger. cbn. split; [done|]. by apply Hid.
Qed.
End strong.

(** ** The fees of weak stakeholders *)

Definition total_balance (l : Ledger) : Z := map_fold (fun _ r t => sfBalance r + t) 0 (accounts l).

Lemma total_balance_insert (m : gmap AccountID AccountRoot) a r r' :
  m !! a = Some r ->
  map_fold (fun _ r t => sfBalance r + t) 0 (<[a := r']> m) + sfBalance r =
  map_fold (fun _ r t => sfBalance r + t) 0 m + sfBalance r'.
Proof.
  intros Ha. rewrite <- insert_delete_eq.
  rewrite map_fold_insert_L by (intros; lia || apply lookup_delete_eq).
  rewrite (map_fold_delete_L _ 0 a r m) by (intros; lia || done). lia.
Qed.

Section weak.
Context `{Keylets, EmitKeylets, Engine} (tx : STTx) (base units : Z).

(** What [a] owes for the collect calls of its chain: it is a stakeholder other than the sender whose first nomination
    is weak, it has [lsfTshCollect] set, and its balance covers the fee and its reserve. *)
Definition owes (l : Ledger) (tsh : list (AccountID * bool)) (a : AccountID) (root : AccountRoot) (drops : Z) : Prop :=
  a <> sender tx /\ find (fun x => x.1 =? a) tsh = Some (a, false) /\ Z.land (acc_flags root) lsfTshCollect <> 0 /\
  (exists fee, calculateHookChainFee l tx a true = Val fee /\ fee <> 0 /\ toDrops base units fee = Val drops) /\
  0 < drops /\ drops + accountReserve (fees l) (sfOwnerCount root) <= sfBalance root.

(** [a] has paid what it owes and nothing else. *)
Definition settled (l : Ledger) (tsh : list (AccountID * bool)) (a : AccountID) (root root' : AccountRoot) : Prop :=
  (forall drops, owes l tsh a root drops -> root' = set_balance (sfBalance root - drops) root) /\
  ((forall drops, ~ owes l tsh a root drops) -> root' = root).

(** The ledgers differ only in the accounts. *)
Definition same_rest (l l' : Ledger) : Prop :=
  hooks l' = hooks l /\ definitions l' = definitions l /\ fees l' = fees l /\
  states l' = states l /\ state_dirs l' = state_dirs l /\ owner_dirs l' = owner_dirs l.

Lemma chain_fee_same l l' a collect :
  hooks l' = hooks l -> definitions l' = definitions l ->
  calculateHookChainFee l' tx a collect = calculateHookChainFee l tx a collect.
Proof. intros Eh Ed. unfold calculateHookChainFee. rewrite Eh. unfold sum_fee. by rewrite Ed. Qed.

(** What a step of the weak phase does to the run. *)
Definition conserves (s s' : Run) : Prop :=
  total_balance (run_ledger s') + destroyedXRP s' = total_balance (run_ledger s) + destroyedXRP s.

Lemma owes_skip l x tsh a root drops : x.1 <> a -> owes l (x :: tsh) a root drops <-> owes l tsh a root drops.
Proof. intros Hx. unfold owes. cbn [find]. by rewrite (proj2 (Z.eqb_neq x.1 a)). Qed.

Lemma settled_skip l x tsh a root root' : x.1 <> a \/ a = sender tx -> settled l tsh a root root' -> settled l (x :: tsh) a root root'.
Proof.
  intros Hx [Hy Hn]. destruct (decide (x.1 = a)) as [Ea|Hne].
  - destruct Hx as [Hx| ->]; [done|]. split; [by intros d [? _]|]. intros _. apply Hn. by intros d [? _].
  - split; [intros d Hd; apply Hy; by apply owes_skip in Hd|]. intros Hd. apply Hn. intros d Hd'. by apply (Hd d), owes_skip.
Qed.

Lemma settled_same l tsh a root : (forall drops, ~ owes l tsh a root drops) -> settled l tsh a root root.
Proof. intros Hn. split; [intros d Hd; by destruct (Hn d)|done]. Qed.

(** The payment of one stakeholder. *)
Definition pays (l : Ledger) (tsh : list (AccountID * bool)) (acct : AccountID) (s s' : Run) : Prop :=
  conserves s s' /\ same_rest l (run_ledger s') /\
  (forall a, a <> acct -> accounts (run_ledger s') !! a = accounts (run_ledger s) !! a) /\
  match accounts (run_ledger s) !! acct with
  | None => accounts (run_ledger s') !! acct = None
  | Some root => exists root', accounts (run_ledger s') !! acct = Some root' /\ settled l tsh acct root root'
  end.

Lemma pays_nothing l tsh acct s : same_rest l (run_ledger s) ->
  (forall root drops, accounts (run_ledger s) !! acct = Some root -> ~ owes l tsh acct root drops) -> pays l tsh acct s s.
Proof.
  intros Hl Hn. split; [done|]. split; [done|]. split; [done|]. destruct (accounts _ !! acct) as [root|]; [|done].
  exists root. split; [done|]. apply settled_same. eauto.
Qed.

(** It is skipped and owes nothing, or settles before its chain runs. *)
Lemma enter_weak l tsh acct s :
  0 <= tx_type tx < 64 -> 0 < units -> acct <> sender tx -> same_rest l (run_ledger s) ->
  exists o, enter_tsh tx base units acct false s = Val o /\ pays l ((acct, false) :: tsh) acct s (default s o).
Proof.
  intros Ht Hu Hs Hl. pose proof Hl as (Eh & Ed & Ef & _). unfold enter_tsh.
  destruct (accounts (run_ledger s) !! acct) as [root|] eqn:Er; [|exists None; split; [done|]; apply pays_nothing; [done|]; intros r d Hr; cbn in Hr; by rewrite Hr in Er].
  rewrite (chain_fee_same l) by done. destruct (chain_fee_total tx l acct (negb false) Ht) as [fee Efee]. rewrite Efee. cbn [mbind res_bind].
  cbn in Efee. rewrite Ef.
  assert (forall o, (forall drops, ~ owes l ((acct, false) :: tsh) acct root drops) -> default s o = s -> pays l ((acct, false) :: tsh) acct s (default s o)) as Hskip.
  { intros o Hn ->. apply pays_nothing; [done|]. intros r d [= <-]%(eq_trans (eq_sym Er)). apply Hn. }
  destruct (Z.eqb_spec fee 0) as [->|Hfee].
  { exists None. split; [done|]. apply Hskip; [|done]. intros d (_ & _ & _ & (f & E & ? & _) & _). rewrite Efee in E. congruence. }
  destruct (toDrops_total base units fee Hu) as [drops Edr]. rewrite Edr. cbn [mbind res_bind].
  assert (forall d, owes l ((acct, false) :: tsh) acct root d -> d = drops) as Hd.
  { intros d (_ & _ & _ & (f & E & _ & E') & _). rewrite Efee in E. injection E as <-. rewrite Edr in E'. by injection E'. }
  destruct (Z.eqb_spec (Z.land (acc_flags root) lsfTshCollect) 0) as [|Hfl].
  { exists None. split; [done|]. apply Hskip; [|done]. by intros d (_ & _ & ? & _). }
  destruct (Z.ltb_spec (sfBalance root) (drops + accountReserve (fees l) (sfOwnerCount root))) as [|Hbal].
  { exists None. split; [done|]. apply Hskip; [|done]. intros d Ho. pose proof (Hd d Ho) as ->. destruct Ho as (_ & _ & _ & _ & _ & ?). lia. }
  destruct (Z.ltb_spec 0 drops) as [Hpos|Hz].
  2: { exists (Some s). split; [done|]. apply Hskip; [|done]. intros d Ho. pose proof (Hd d Ho) as ->. destruct Ho as (_ & _ & _ & _ & ? & _). lia. }
  eexists. split; [done|]. cbn [default]. split; [|split; [exact Hl|split]].
  - unfold conserves, charge, run_ledger, total_balance. cbn.
    pose proof (total_balance_insert (accounts (ledger (run_view s))) acct root (set_balance (sfBalance root - drops) root) Er) as Hsum.
    cbn in Hsum. lia.
  - intros a Ha. cbn. by rewrite lookup_insert_ne.
  - rewrite Er. cbn. rewrite lookup_insert_eq. eexists. split; [done|]. split; [intros d Ho; by rewrite (Hd d Ho)|].
    intros Hn. destruct (Hn drops). split; [done|]. cbn [find fst]. rewrite Z.eqb_refl. split; [done|]. split; [done|]. split; [by exists fee|lia].
Qed.

(** The chain of a stakeholder runs without touching the ledger. *)
Lemma weak_chain l s1 sle acct : 0 <= tx_type tx < 64 -> (length (sfHooks sle) <= 255)%nat -> same_rest l (run_ledger s1) ->
  exists ter s2, executeHookChain tx sle acct false s1 = Val (ter, s2) /\ run_ledger s2 = run_ledger s1 /\ destroyedXRP s2 = destroyedXRP s1.
Proof.
  intros Ht Hlen Hl. destruct (chain_from_spec tx acct false (sfHooks sle) 0 ∅ ∅ s1 Ht Hlen) as (ter & s2 & trace & E & (Hv & Hd & _) & _).
  exists ter, s2. split; [exact E|]. split; [unfold run_ledger; by rewrite Hv|done].
Qed.

(** The loop over the stakeholders [tsh], of which those in [already] are not looked at. *)
Definition collected (l : Ledger) (tsh : list (AccountID * bool)) (already : gset AccountID) (s s' : Run) : Prop :=
  conserves s s' /\ same_rest l (run_ledger s') /\
  forall a, if bool_decide (a ∈ already) then accounts (run_ledger s') !! a = accounts (run_ledger s) !! a
    else match accounts (run_ledger s) !! a with
    | None => accounts (run_ledger s') !! a = None
    | Some root => exists root', accounts (run_ledger s') !! a = Some root' /\ settled l tsh a root root'
    end.

Lemma collected_nil l already s : same_rest l (run_ledger s) -> collected l [] already s s.
Proof.
  intros Hl. split; [done|]. split; [done|]. intros a. case_bool_decide; [done|]. destruct (accounts (run_ledger s) !! a) as [root|]; [|done].
  exists root. split; [done|]. apply settled_same. by intros d (_ & ? & _).
Qed.

Lemma collected_skip l x tsh already s s' : x.1 = sender tx \/ x.1 ∈ already -> collected l tsh already s s' -> collected l (x :: tsh) already s s'.
Proof.
  intros Hx (Hc & Hr & Ha). split; [done|]. split; [done|]. intros a. specialize (Ha a). case_bool_decide as Hin; [done|].
  destruct (accounts (run_ledger s) !! a) as [root|]; [|done]. destruct Ha as (root' & Er & Hs'). exists root'. split; [done|].
  apply settled_skip; [|done]. destruct (decide (x.1 = a)) as [<-|]; [|by left]. destruct Hx; [by right|done].
Qed.

Lemma collected_pays l x tsh already s s1 s2 s' : x.1 ∉ already -> pays l (x :: tsh) x.1 s s1 ->
  run_ledger s2 = run_ledger s1 -> destroyedXRP s2 = destroyedXRP s1 -> collected l tsh ({[x.1]} ∪ already) s2 s' -> collected l (x :: tsh) already s s'.
Proof.
  intros Hn (Hc1 & Hl1 & Hother & Hacct) El Hd (Hc & Hr & Ha). unfold conserves in *. rewrite El, Hd in Hc. split; [unfold conserves; lia|]. split; [done|].
  intros a. specialize (Ha a). rewrite El in Ha. destruct (decide (a = x.1)) as [->|Hne].
  - rewrite bool_decide_true in Ha by set_solver. rewrite bool_decide_false by done. by rewrite Ha.
  - rewrite (Hother a Hne) in Ha. destruct (decide (a ∈ already)) as [Hin|Hin].
    { rewrite bool_decide_true in Ha by set_solver. by rewrite bool_decide_true. }
    rewrite bool_decide_false in Ha by set_solver. rewrite bool_decide_false by done. destruct (accounts (run_ledger s) !! a) as [root|]; [|done].
    destruct Ha as (root' & Er & Hs'). exists root'. split; [done|]. apply settled_skip; [left; congruence|done].
Qed.

Lemma tsh_fees l tsh already s :
  0 <= tx_type tx < 64 -> 0 < units ->
  (forall a sle, hooks l !! a = Some sle -> (length (sfHooks sle) <= 255)%nat) -> same_rest l (run_ledger s) ->
  exists s', tsh_from tx base units false already s tsh = Val (tesSUCCESS, s') /\ collected l tsh already s s'.
Proof.
  intros Ht Hu Hlen. revert already s. induction tsh as [|[acct rb] tsh IH]; intros already s Hl; cbn [tsh_from].
  { exists s. split; [done|]. by apply collected_nil. }
  destruct (Z.eqb_spec acct (sender tx)) as [Es|Hs].
  { destruct (IH already s Hl) as (s' & E & Hc). exists s'. split; [done|]. apply collected_skip; [by left|done]. }
  case_bool_decide as Hn.
  { destruct (IH already s Hl) as (s' & E & Hc). exists s'. split; [done|]. apply collected_skip; [by right|done]. }
  assert (forall s1 s2, pays l ((acct, rb) :: tsh) acct s s1 -> run_ledger s2 = run_ledger s1 -> destroyedXRP s2 = destroyedXRP s1 ->
    exists s', tsh_from tx base units false ({[acct]} ∪ already) s2 tsh = Val (tesSUCCESS, s') /\ collected l ((acct, rb) :: tsh) already s s') as Hgo.
  { intros s1 s2 Hp El Hd. destruct (IH ({[acct]} ∪ already) s2) as (s' & E & Hc); [rewrite El; apply Hp|].
    exists s'. split; [done|]. by eapply (collected_pays l (acct, rb)). }
  destruct rb; cbn [negb andb orb].
  { apply (Hgo s s); [|done|done]. apply pays_nothing; [done|]. intros r d _ (_ & Hf & _). cbn [find fst] in Hf. by rewrite Z.eqb_refl in Hf. }
  destruct (hooks (run_ledger s) !! acct) as [sle|] eqn:Esle.
  2: { apply (Hgo s s); [|done|done]. apply pays_nothing; [done|]. intros r d _ (_ & _ & _ & (fee & Ef & ? & _) & _).
       unfold calculateHookChainFee in Ef. rewrite <- (proj1 Hl), Esle in Ef. congruence. }
  destruct (enter_weak l tsh acct s Ht Hu Hs Hl) as ([s1|] & -> & Hp); cbn [mbind res_bind default] in *; [|by apply (Hgo s s)].
  rewrite (proj1 Hl) in Esle. destruct (weak_chain l s1 sle acct Ht (Hlen acct sle Esle) (proj1 (proj2 Hp))) as (ter & s2 & -> & El & Hd).
  cbn [mbind res_bind andb]. by apply (Hgo s1 s2).
Qed.

End weak.

(** ** Samples

    A small engine: every hook writes four bytes of state and emits a transaction; the
    first byte of its code says whether it accepts. *)

Definition sample_execute (l : Ledger) (tx : STTx) (code : Blob) (isCb : bool) (wasmParam : Z) (c : HookContext) : HookContext :=
  let c := match state_set l 0 4 4 2 (set_memory (memory sample_context) c) with Ret c' _ => c' | _ => c end in
  let r := set_emitted [emitted_tx 11] (result c) in
  set_result (set_exit (if default 0 (head code) =? 0 then ACCEPT else ROLLBACK) [] (-1) r) c.

#[local] Instance sample_engine : Engine := {| execute := sample_execute |}.

Lemma sample_engine_ok tx : @engine_ok sample_keylets sample_engine tx.
Proof.
  split; intros l code isCb p c; change (@execute sample_engine) with sample_execute; unfold sample_execute;
    destruct (state_set l 0 4 4 2 (set_memory (memory sample_context) c)) as [c' a|c' a|] eqn:E; try done.
  apply rtc_once. by apply (@step_set sample_keylets l (set_memory (memory sample_context) c) c' a 0 4 4 2 0 0 0 0).
Qed.

(** Account 7 has a hook that accepts, account 8 one that rolls back and may be called
    with the fees collected. *)
Definition hook_def (code : Blob) : HookDef := mkDef 0 1 [] 0 code 0 1 10 None 0.
Definition party_ledger : Ledger :=
  mkLedger {[ 7 := mkRoot 1000 0 0 None 0; 8 := mkRoot 1000 0 0 None lsfTshCollect ]}
    {[ 7 := mkHookSLE [mkHookObj (Some 100) None None None None None] 0;
       8 := mkHookSLE [mkHookObj (Some 200) None None None None (Some hsfCOLLECT)] 0 ]}
    {[ 100 := hook_def [0]; 200 := hook_def [1] ]} ∅ ∅ ∅ (mkFees 200 50).
Definition party_view : TxView := mkView party_ledger ∅ ∅ [] ∅ false.
Definition sample_tx (type : Z) : STTx := mkTx 1 type (Some 7) None None None None None None None None 0.
Definition payment_to (a : AccountID) : TxParties :=
  mkParties (Some a) None None None None None None None None None None None None [].

Lemma party_accounts a r : accounts party_ledger !! a = Some r -> sfHookStateCount r = 0 /\ sfOwnerCount r = 0 /\ sfHookNamespaces r = None.
Proof.
  cbn. intros [[<- <-]|[_ [<- <-]%lookup_singleton_Some]]%lookup_insert_Some; done.
Qed.

Lemma party_chains a sle : hooks party_ledger !! a = Some sle -> (length (sfHooks sle) <= 255)%nat.
Proof. cbn. intros [[<- <-]|[_ [<- <-]%lookup_singleton_Some]]%lookup_insert_Some; cbn; lia. Qed.

Lemma party_ledger_ok : @ledger_ok sample_keylets party_ledger ∅.
Proof.
  split; [|done|done| |exact party_chains].
  - apply rep_empty; [done..|]. intros a r Er. destruct (party_accounts a r Er) as (-> & -> & Ens). unfold spaces_of. by rewrite Ens.
  - intros a r Er. destruct (party_accounts a r Er) as (_ & -> & _). done.
Qed.

Lemma party_queue_ok : queue_ok party_view.
Proof. split; cbn; [by left| |done]. intros pg x. split; [by intros ?%no_keys_empty|]. by intros (e & ? & _). Qed.

#[local] Existing Instance sample_keylets.


(** A payment to an account without hooks: the sender's hook accepts and its state is
    in the ledger. *)
Lemma strong_phase_atomic_witness :
  exists s aawMap, strong_phase (sample_tx ttPAYMENT) 10 10 (payment_to 9) no_objects tesSUCCESS party_view
      = Val (tesSUCCESS, s, aawMap) /\
    exists σ', rep (run_ledger s) σ' /\ σ' !! (7, 1, 0) = Some [10; 11; 12; 13].
Proof.
  destruct (strong_phase_atomic (sample_tx ttPAYMENT) 10 10 (payment_to 9) no_objects tesSUCCESS party_view ∅)
    as [(E & _)|(ter & s & aawMap & E & _ & Hs)];
    [exact (sample_engine_ok _)|done|done|exact party_ledger_ok|exact party_queue_ok|by vm_compute in E|].
  assert (ter = tesSUCCESS /\ lookup_state_cache (run_map s) 7 1 0 = Some (true, [10; 11; 12; 13])
    /\ is_Some (states (run_ledger s) !! hookState_key 7 0 1)) as (-> & Hm & Hst).
  { apply (f_equal (fun o => match o with
      | Val (t, s, _) => Some (t, lookup_state_cache (run_map s) 7 1 0, states (run_ledger s) !! hookState_key 7 0 1)
      | _ => None end)) in E. vm_compute in E. injection E as E1 E2 E3.
    split; [exact (eq_sym E1)|]. split; [exact (eq_sym E2)|]. eexists. exact (eq_sym E3). }
  exists s, aawMap. split; [exact E|]. rewrite bool_decide_true in Hs by done. destruct Hs as (_ & _ & [(σ' & Hrep & Hfl)|Hfull]).
  - exists σ'. split; [exact Hrep|]. by rewrite Hfl, Hm.
  - exfalso. set (flush (o : dres (TER * Run * gmap AccountID (gset uint256))) := match o with
      | Val (_, s, _) => match finalizeHookState (run_map s) party_ledger with Val (t, _) => Some t | _ => None end
      | _ => None end : option TER).
    assert (flush (Val (tesSUCCESS, s, aawMap)) = Some tesSUCCESS) as Hflush by (rewrite <- E; vm_compute; reflexivity).
    unfold flush in Hflush. change (ledger party_view) with party_ledger in Hfull. rewrite Hfull in Hflush. done.
Defined.


(** A strong stakeholder that rolls back undoes the sender's state. *)
Lemma strong_rollback_undone :
  match strong_phase (sample_tx ttPAYMENT) 10 10 (payment_to 8) no_objects tesSUCCESS party_view with
  | Val (ter, s, _) => ter = tecHOOK_REJECTED /\ length (run_results s) = 2%nat /\ states (run_ledger s) = ∅ /\
      emitted (run_view s) = ∅
  | _ => False
  end.
Proof. vm_compute. by repeat split. Qed.

(** A weak stakeholder that rolls back keeps its state and its emitted transaction. *)
Lemma weak_rollback_kept :
  match weak_phase (sample_tx ttOFFER_CREATE) 10 10 no_parties no_objects {[8]} ∅ tesSUCCESS party_view with
  | Val s => exitType <$> run_results s = [ROLLBACK] /\ is_Some (states (run_ledger s) !! hookState_key 8 0 1) /\
      queued (run_view s) 11 = Some (emitted_tx 11)
  | _ => False
  end.
Proof. vm_compute. repeat split. by eexists. Qed.

(** Whether a hook fires on an [Invoke] is undefined. *)
Lemma canHook_invoke hookOn : canHook ttINVOKE hookOn = Undef.
Proof. done. Qed.
