(* ===== verification/Condition.v ===== *)
(** * Condition: crypto-conditions ([conditions/impl/utils.h], [Condition.cpp], [Fulfillment.cpp], [PreimageSha256.h])

    An escrow may carry a condition, the SHA-256 hash of a secret with its length; the
    transaction that finishes it presents the condition again with a fulfillment, the
    secret.  Both are DER encoded.  SHA-256 itself is a parameter.

    The theorem: [checkCondition] accepts what the encoders of the format write, and
    whatever it accepts contains a secret of the length and hash the condition names. *)

From stdpp Require Import base numbers list option.
From Stdlib Require Import ZArith Lia.
From S2P Require Import Prelude.

Local Open Scope Z_scope.

(** The hash; its results are 32 bytes. *)
Class Sha256 := sha256 : list Z -> list Z.

Inductive cond_error :=
| unsupported_type | unknown_type | fingerprint_size | incorrect_encoding | trailing_garbage
| buffer_empty | buffer_overfull | buffer_underfull | malformed_encoding | short_preamble
| unexpected_tag | long_tag | large_size | preimage_too_long.

Abbreviation cres := (res cond_error).

(** ** The decoder *)

Record Preamble := mkPreamble { p_type : Z; p_tag : Z; p_length : Z }.

Definition isPrimitive (p : Preamble) : bool := Z.land (p_type p) 0x20 =? 0.
Definition isConstructed (p : Preamble) : bool := negb (isPrimitive p).
Definition isContextSpecific (p : Preamble) : bool := Z.land (p_type p) 0xC0 =? 0x80.

(** [length = (length << 8) + s[i]] over the length octets, at most eight. *)
Definition long_length (bs : list Z) : Z := fold_left (fun length b => u64 (Z.shiftl length 8 + b)) bs 0.

Definition parsePreamble (s : list Z) : cres (Preamble * list Z) :=
  match s with
  | b0 :: b1 :: s =>
    let type := Z.land b0 0xE0 in
    let tag := Z.land b0 0x1F in
    if tag =? 0x1F then Err long_tag
    else if Z.land b1 0x80 =? 0 then Val (mkPreamble type tag b1, s)
    else
      let cnt := Z.land b1 0x7F in
      if cnt =? 0 then Err malformed_encoding
      else if 8 <? cnt then Err large_size
      else if Z.of_nat (length s) <? cnt then Err short_preamble
      else
        let len := long_length (take (Z.to_nat cnt) s) in
        if len =? 0 then Err malformed_encoding
        else Val (mkPreamble type tag len, drop (Z.to_nat cnt) s)
  | _ => Err short_preamble
  end.

(** [count] is cut to 32 bits. *)
Definition parseOctetString (s : list Z) (count : Z) : cres (list Z * list Z) :=
  let count := u32 count in
  if Z.of_nat (length s) <? count then Err buffer_underfull
  else if 65535 <? count then Err large_size
  else Val (take (Z.to_nat count) s, drop (Z.to_nat count) s).

(** [parseInteger<std::uint32_t>] *)
Definition parseInteger (s : list Z) (count : Z) : cres (Z * list Z) :=
  match s with
  | [] => Err malformed_encoding
  | b0 :: _ =>
    if Z.of_nat (length s) <? count then Err buffer_underfull
    else if 5 <? count then Err large_size
    else if negb (Z.land b0 0x80 =? 0) then Err malformed_encoding
    else if (count =? 5) && negb (b0 =? 0) then Err malformed_encoding
    else
      let v := fold_left (fun v b => u32 (Z.lor (u32 (Z.shiftl v 8)) (Z.land b 0xff))) (take (Z.to_nat count) s) 0 in
      Val (v, drop (Z.to_nat count) s)
  end.

(** ** Conditions *)

Inductive cond_type := preimageSha256 | prefixSha256 | thresholdSha256 | rsaSha256 | ed25519Sha256.

#[export] Instance cond_type_eq_dec : EqDecision cond_type.
Proof. solve_decision. Defined.

(** The set of subtypes is empty for the supported type. *)
Record Condition := mkCondition { c_type : cond_type; c_cost : Z; c_fingerprint : list Z }.

#[export] Instance Condition_eq_dec : EqDecision Condition.
Proof. solve_decision. Defined.

Definition fingerprintSize : Z := 32.
Definition maxPreimageLength : Z := 128.
Definition maxSerializedCondition : Z := 128.
Definition maxSerializedFulfillment : Z := 256.

Definition loadSimpleSha256 (type : cond_type) (s : list Z) : cres Condition :=
  '(p, s) ← parsePreamble s;
  if negb (isPrimitive p) || negb (isContextSpecific p) then Err incorrect_encoding
  else if negb (p_tag p =? 0) then Err unexpected_tag
  else if negb (p_length p =? fingerprintSize) then Err fingerprint_size
  else
    '(b, s) ← parseOctetString s (p_length p);
    '(p, s) ← parsePreamble s;
    if negb (isPrimitive p) || negb (isContextSpecific p) then Err malformed_encoding
    else if negb (p_tag p =? 1) then Err unexpected_tag
    else
      '(cost, s) ← parseInteger s (p_length p);
      if negb (bool_decide (s = [])) then Err trailing_garbage
      else if bool_decide (type = preimageSha256) && (maxPreimageLength <? cost) then Err preimage_too_long
      else Val (mkCondition type cost b).

(** An error of the loader is replaced if bytes are left. *)
Definition condition_deserialize (s : list Z) : cres Condition :=
  match s with
  | [] => Err buffer_empty
  | _ =>
    '(p, s) ← parsePreamble s;
    if negb (isConstructed p) || negb (isContextSpecific p) then Err malformed_encoding
    else if Z.of_nat (length s) <? p_length p then Err buffer_underfull
    else if maxSerializedCondition <? Z.of_nat (length s) then Err large_size
    else if p_tag p =? 0 then
      match loadSimpleSha256 preimageSha256 (take (Z.to_nat (p_length p)) s) with
      | Val c => if negb (bool_decide (drop (Z.to_nat (p_length p)) s = [])) then Err trailing_garbage else Val c
      | r => if negb (bool_decide (s = [])) then Err trailing_garbage else r
      end
    else if p_tag p <=? 4 then Err unsupported_type
    else Err unknown_type
  end.

(** ** Fulfillments *)

(** A fulfillment is the secret. *)
Definition preimage_deserialize (s : list Z) : cres (list Z) :=
  '(p, s) ← parsePreamble s;
  if negb (isPrimitive p) || negb (isContextSpecific p) then Err incorrect_encoding
  else if negb (p_tag p =? 0) then Err unexpected_tag
  else if negb (Z.of_nat (length s) =? p_length p) then Err trailing_garbage
  else if maxPreimageLength <? Z.of_nat (length s) then Err preimage_too_long
  else '(b, _) ← parseOctetString s (p_length p); Val b.

Definition fulfillment_deserialize (s : list Z) : cres (list Z) :=
  match s with
  | [] => Err buffer_empty
  | _ =>
    '(p, s) ← parsePreamble s;
    if negb (isConstructed p) || negb (isContextSpecific p) then Err malformed_encoding
    else if Z.of_nat (length s) <? p_length p then Err buffer_underfull
    else if p_length p <? Z.of_nat (length s) then Err buffer_overfull
    else if maxSerializedFulfillment <? p_length p then Err large_size
    else if p_tag p =? 0 then preimage_deserialize (take (Z.to_nat (p_length p)) s)
    else if p_tag p <=? 4 then Err unsupported_type
    else Err unknown_type
  end.

Section code.
Context `{Sha256}.

(** [condition] of a fulfillment. *)
Definition condition_of (payload : list Z) : Condition :=
  mkCondition preimageSha256 (u32 (Z.of_nat (length payload))) (sha256 payload).

(** [match] and [validate]; the validation of a secret ignores the message. *)
Definition cond_match (f : list Z) (c : Condition) : bool :=
  bool_decide (preimageSha256 = c_type c) && bool_decide (c = condition_of f).

(** [checkCondition] ([app/tx/impl/Escrow.cpp]). *)
Definition checkCondition (f c : list Z) : bool :=
  match condition_deserialize c, fulfillment_deserialize f with
  | Val condition, Val fulfillment => cond_match fulfillment condition
  | _, _ => false
  end.
End code.

(** ** The format *)

Definition der_length (n : Z) : list Z := if n <? 128 then [n] else [0x81; n].
Definition der (tag : Z) (content : list Z) : list Z := tag :: der_length (vsize content) ++ content.

(** A cost of up to 128 as an integer; the leading zero keeps it positive. *)
Definition der_cost (n : Z) : list Z := if n <? 128 then [n] else [0; n].

Definition encode_fulfillment (secret : list Z) : list Z := der 0xA0 (der 0x80 secret).
Definition encode_condition (fingerprint : list Z) (cost : Z) : list Z :=
  der 0xA0 (der 0x80 fingerprint ++ der 0x81 (der_cost cost)).

Lemma parsePreamble_der tag content rest : 0 <= vsize content < 256 -> Z.land tag 0x1F <> 0x1F ->
  parsePreamble (der tag content ++ rest) = Val (mkPreamble (Z.land tag 0xE0) (Z.land tag 0x1F) (vsize content), content ++ rest).
Proof.
  intros Hn Ht. unfold der, der_length. cbn [app]. rewrite <- app_assoc. destruct (Z.ltb_spec (vsize content) 128); cbn [app parsePreamble];
    rewrite (proj2 (Z.eqb_neq _ _)) by done.
  - replace (Z.land (vsize content) 0x80) with 0; [done|]. symmetry. apply Z.bits_inj'. intros i Hi. rewrite Z.land_spec, Z.bits_0.
    destruct (Z.eq_dec i 7) as [->|]; [by rewrite (testbit_small _ 7 7) by lia|].
    replace (Z.testbit 0x80 i) with false; [apply andb_false_r|]. symmetry. change 0x80 with (2 ^ 7). apply Z.pow2_bits_false. lia.
  - change (Z.land 0x81 0x80 =? 0) with false. change (Z.land 0x81 0x7F) with 1. cbn iota beta. change (1 =? 0) with false. change (8 <? 1) with false. cbn iota.
    rewrite (proj2 (Z.ltb_ge _ 1)) by (cbn [length]; lia). change (Z.to_nat 1) with 1%nat. cbn [take drop]. rewrite take_0, drop_0.
    unfold long_length. cbn [fold_left]. rewrite Z.add_0_l, u64_small by lia. by rewrite (proj2 (Z.eqb_neq (vsize content) 0)) by lia.
Qed.

Lemma parsePreamble_suffix s p s' : parsePreamble s = Val (p, s') -> exists h, s = h ++ s'.
Proof.
  destruct s as [|b0 [|b1 s]]; [done..|]. cbn [parsePreamble]. repeat case_match; try done.
  - intros [= _ <-]. by exists [b0; b1].
  - intros [= _ <-]. exists (b0 :: b1 :: take (Z.to_nat (Z.land b1 0x7F)) s). cbn. by rewrite take_drop.
Qed.

Lemma parseOctetString_spec s n : 0 <= n <= vsize s -> n <= 65535 ->
  parseOctetString s n = Val (take (Z.to_nat n) s, drop (Z.to_nat n) s).
Proof. intros Hn Hm. unfold parseOctetString. rewrite u32_small by lia. unfold vsize in Hn. by rewrite !(proj2 (Z.ltb_ge _ _)) by lia. Qed.

Lemma parseOctetString_parts s n b s' : parseOctetString s n = Val (b, s') -> s = b ++ s'.
Proof. unfold parseOctetString. repeat case_match; try done. intros [= <- <-]. by rewrite take_drop. Qed.

(** Opens a [der] with known tag and evaluates the tests on the tag. *)
Ltac der_open E :=
  rewrite E; cbn [mbind res_bind];
  cbv [isConstructed isPrimitive isContextSpecific p_type p_tag p_length maxSerializedCondition maxSerializedFulfillment maxPreimageLength fingerprintSize];
  repeat match goal with |- context [Z.land (Zpos ?a) (Zpos ?b)] =>
    let v := eval vm_compute in (Z.land (Zpos a) (Zpos b)) in change (Z.land (Zpos a) (Zpos b)) with v end;
  cbn [Z.eqb Pos.eqb negb orb].

Lemma der_size tag content : vsize content < 256 -> vsize content < vsize (der tag content) <= vsize content + 3.
Proof.
  intros Hc. unfold der, der_length. rewrite vsize_cons, vsize_app. case_match; [change (vsize [_]) with 1|change (vsize [_; _]) with 2]; lia.
Qed.

Lemma parse_der tag content : vsize content < 256 -> Z.land tag 0x1F <> 0x1F ->
  parsePreamble (der tag content) = Val (mkPreamble (Z.land tag 0xE0) (Z.land tag 0x1F) (vsize content), content).
Proof.
  intros Hc Ht. pose proof (vsize_nonneg content). pose proof (parsePreamble_der tag content [] ltac:(lia) Ht) as E. by rewrite !app_nil_r in E.
Qed.

Lemma take_vsize l : take (Z.to_nat (vsize l)) l = l.
Proof. unfold vsize. rewrite Nat2Z.id. apply firstn_all. Qed.

Lemma fulfillment_roundtrip secret : vsize secret <= 128 -> fulfillment_deserialize (encode_fulfillment secret) = Val secret.
Proof.
  intros Hs. pose proof (vsize_nonneg secret). pose proof (der_size 0x80 secret ltac:(lia)) as Hi.
  change (encode_fulfillment secret) with (0xA0 :: (der_length (vsize (der 0x80 secret)) ++ der 0x80 secret)). cbn [fulfillment_deserialize].
  change (0xA0 :: _) with (der 0xA0 (der 0x80 secret)). der_open (parse_der 0xA0 (der 0x80 secret) ltac:(lia) ltac:(done)).
  fold (vsize (der 0x80 secret)). rewrite !Z.ltb_irrefl, (proj2 (Z.ltb_ge 256 _)), take_vsize by lia.
  unfold preimage_deserialize. der_open (parse_der 0x80 secret ltac:(lia) ltac:(done)).
  fold (vsize secret). rewrite Z.eqb_refl, (proj2 (Z.ltb_ge 128 _)) by lia. cbn [negb].
  rewrite parseOctetString_spec by lia. cbn [mbind res_bind]. by rewrite take_vsize.
Qed.

Lemma parseInteger_cost n : 0 <= n <= 128 -> parseInteger (der_cost n) (vsize (der_cost n)) = Val (n, []).
Proof.
  intros Hn. unfold der_cost. destruct (Z.ltb_spec n 128) as [Hl|Hl].
  - unfold parseInteger. change (vsize [n]) with 1. change (Z.of_nat (length [n]) <? 1) with false. change (5 <? 1) with false. cbn iota.
    replace (Z.land n 0x80) with 0. 2:{ symmetry. apply Z.bits_inj'. intros i Hi. rewrite Z.land_spec, Z.bits_0.
      destruct (Z.eq_dec i 7) as [->|]; [by rewrite (testbit_small _ 7 7) by lia|].
      replace (Z.testbit 0x80 i) with false; [apply andb_false_r|]. symmetry. change 0x80 with (2 ^ 7). apply Z.pow2_bits_false. lia. }
    change (Z.to_nat 1) with 1%nat. cbn [Z.eqb negb andb take drop fold_left]. change (u32 (Z.shiftl 0 8)) with 0.
    rewrite Z.lor_0_l. change 0xff with (Z.ones 8). rewrite Z.land_ones, Z.mod_small, u32_small by lia. done.
  - assert (n = 128) as -> by lia. by vm_compute.
Qed.

Lemma condition_roundtrip fp n : length fp = 32%nat -> 0 <= n <= 128 ->
  condition_deserialize (encode_condition fp n) = Val (mkCondition preimageSha256 n fp).
Proof.
  intros Hfp Hn. assert (vsize fp = 32) as Hv by (unfold vsize; lia). assert (1 <= vsize (der_cost n) <= 2) as Hc by (unfold der_cost; case_match; (split; by vm_compute)).
  pose proof (der_size 0x80 fp ltac:(lia)). pose proof (der_size 0x81 (der_cost n) ltac:(lia)).
  unfold encode_condition. set (inner := der 0x80 fp ++ der 0x81 (der_cost n)). assert (vsize inner <= 40 /\ 0 < vsize inner) as [Hi Hp] by (unfold inner; rewrite vsize_app; lia).
  change (der 0xA0 inner) with (0xA0 :: (der_length (vsize inner) ++ inner)). cbn [condition_deserialize].
  change (0xA0 :: _) with (der 0xA0 inner). der_open (parse_der 0xA0 inner ltac:(lia) ltac:(done)).
  fold (vsize inner). rewrite Z.ltb_irrefl, (proj2 (Z.ltb_ge 128 _)), take_vsize by lia.
  unfold loadSimpleSha256. unfold inner at 1. der_open (parsePreamble_der 0x80 fp (der 0x81 (der_cost n)) ltac:(lia) ltac:(done)).
  rewrite Hv. cbn [Z.eqb Pos.eqb negb].
  rewrite parseOctetString_spec by (rewrite ?vsize_app; lia). cbn [mbind res_bind]. change (Z.to_nat 32) with 32%nat.
  rewrite <- Hfp, take_app_length, drop_app_length. der_open (parse_der 0x81 (der_cost n) ltac:(lia) ltac:(done)).
  rewrite parseInteger_cost by done. cbn [mbind res_bind]. rewrite !bool_decide_eq_true_2, (proj2 (Z.ltb_ge 128 n)) by (done || lia). cbn [negb andb].
  unfold vsize. by rewrite Nat2Z.id, drop_all, bool_decide_eq_true_2.
Qed.

(** ** What an accepted pair contains *)

Lemma load_parts type s c : loadSimpleSha256 type s = Val c -> exists pre post, s = pre ++ c_fingerprint c ++ post.
Proof.
  unfold loadSimpleSha256. intros Hl. res_open. cbn [c_fingerprint].
  repeat match goal with
  | E : parsePreamble _ = Val _ |- _ => apply parsePreamble_suffix in E as [? ->]
  | E : parseOctetString _ _ = Val _ |- _ => apply parseOctetString_parts in E as ->
  end. eauto.
Qed.

Lemma condition_parts c cond : condition_deserialize c = Val cond -> exists pre post, c = pre ++ c_fingerprint cond ++ post.
Proof.
  unfold condition_deserialize. destruct c as [|b c]; [done|]. intros Hc. apply bind_Val in Hc as ([p s] & [h ->]%parsePreamble_suffix & Hk).
  do 4 case_if Hk. 2: by case_if Hk. destruct (loadSimpleSha256 _ _) as [c'| |] eqn:El; repeat case_if Hk; try done. injection Hk as ->.
  apply load_parts in El as (pre & post & El). exists (h ++ pre), (post ++ drop (Z.to_nat (p_length p)) s).
  rewrite <- (take_drop (Z.to_nat (p_length p)) s) at 1. rewrite El, <- !app_assoc. done.
Qed.

Lemma fulfillment_parts f secret : fulfillment_deserialize f = Val secret -> vsize secret <= 128 /\ exists h, f = h ++ secret.
Proof.
  unfold fulfillment_deserialize. destruct f as [|b f]; [done|]. intros Hf. apply bind_Val in Hf as ([p s] & [h ->]%parsePreamble_suffix & Hk).
  repeat case_if Hk. unfold preimage_deserialize in Hk. apply bind_Val in Hk as ([q r] & [h2 E]%parsePreamble_suffix & Hk).
  repeat case_if Hk. apply bind_Val in Hk as ([b' r'] & Ho & [= ->]). bool_prop.
  pose proof (parseOctetString_parts _ _ _ _ Ho) as ->. rewrite take_ge in E by lia. subst s. unfold maxPreimageLength in *.
  unfold parseOctetString in Ho. rewrite u32_small in Ho by lia. repeat case_if Ho. injection Ho as Ht Hd.
  assert (r' = []) as -> by (rewrite <- Hd; apply drop_ge; lia).
  rewrite app_nil_r in *. unfold vsize. split; [lia|]. exists (h ++ h2). by rewrite app_assoc.
Qed.

Section correct.
Context `{Sha256}.

(** C23: an escrow's condition is met by its secret.  For a hash of 32 bytes, the encoding of
    a secret of at most 128 bytes satisfies the encoding of its hash and length, and whenever
    [checkCondition] accepts a fulfillment for a condition, the fulfillment ends in a secret of at
    most 128 bytes whose hash is in the condition, and the condition parses to that hash and the
    length of the secret. *)
Theorem checkCondition_correct : (forall m, length (sha256 m) = 32%nat) ->
  (forall secret, vsize secret <= 128 -> checkCondition (encode_fulfillment secret) (encode_condition (sha256 secret) (vsize secret)) = true) /\
  (forall f c, checkCondition f c = true -> exists h secret pre post, f = h ++ secret /\ vsize secret <= 128 /\ c = pre ++ sha256 secret ++ post /\
     condition_deserialize c = Val (mkCondition preimageSha256 (vsize secret) (sha256 secret))).
Proof.
  intros Hsize. split.
  - intros secret Hs. pose proof (vsize_nonneg secret). unfold checkCondition. rewrite condition_roundtrip by (done || lia).
    rewrite fulfillment_roundtrip by done. unfold cond_match, condition_of. fold (vsize secret). rewrite u32_small by lia.
    by rewrite !bool_decide_eq_true_2.
  - intros f c Hc. unfold checkCondition in Hc. destruct (condition_deserialize c) as [cond| |] eqn:Ec; [|done..].
    destruct (fulfillment_deserialize f) as [secret| |] eqn:Ef; [|done..].
    unfold cond_match in Hc. bool_prop. subst cond. apply fulfillment_parts in Ef as [Hs [h ->]]. pose proof (vsize_nonneg secret).
    pose proof (condition_parts _ _ Ec) as (pre & post & E). exists h, secret, pre, post. repeat split; [done|done|].
    unfold condition_of. fold (vsize secret). by rewrite u32_small by lia.
Qed.
End correct.

(** ** Samples *)

Module ConditionSamples.
(** A stand-in for the hash: the length of the message and its sum. *)
#[local] Instance sum_hash : Sha256 := fun m => vsize m :: replicate 30 0 ++ [fold_left Z.add m 0].

Lemma checkCondition_correct_witness : checkCondition (encode_fulfillment [1; 2; 3]) (encode_condition (sha256 [1; 2; 3]) 3) = true.
Proof. apply (proj1 (@checkCondition_correct sum_hash (fun m => eq_refl)) [1; 2; 3]). by vm_compute. Defined.

(** Another secret of the same length is refused, and so is one of 129 bytes. *)
Lemma checkCondition_refuses :
  checkCondition (encode_fulfillment [1; 2; 4]) (encode_condition (sha256 [1; 2; 3]) 3) = false /\
  fulfillment_deserialize (encode_fulfillment (replicate 129 7)) = Err preimage_too_long.
Proof. by vm_compute. Qed.

(** The format of the fulfillment also admits lengths in the long form, so one secret has several encodings. *)
Lemma fulfillment_malleable : fulfillment_deserialize [0xA0; 0x81; 5; 0x80; 3; 1; 2; 3] = fulfillment_deserialize (encode_fulfillment [1; 2; 3]).
Proof. by vm_compute. Qed.
End ConditionSamples.
