(* ===== verification/ShaMapNode.v ===== *)
(** * ShaMapNode: nodes of the state tree ([shamap/])

    Ledger objects and transactions are stored in a tree with fan-out 16 in which
    a key is found by its hexadecimal digits and every node carries a hash of what
    is below it.  This file has the node identifiers ([SHAMapNodeID.cpp]), the two
    kinds of nodes with their hashes ([SHAMapInnerNode.cpp], [SHAMapLeafNode.cpp],
    [SHAMapTreeNode.cpp]) and their formats on the wire.

    A branch of an inner node has a hash and, when the child is in memory, the
    child itself.  [cowid] is the identifier of the map that may modify the node,
    0 for a node that is shared and clean.

    The theorems: digits order keys as numbers, the identifiers met on the way
    to a key are the masked key, and nodes survive the trip over the wire. *)

From stdpp Require Import base numbers list option.
From Stdlib Require Import ZArith Lia.
From S2P Require Import Prelude.

Local Open Scope Z_scope.

(** ** Errors: [SHAMapMissingNode], [std::logic_error] and the exceptions of parsers. *)
Inductive map_error := SHAMapMissingNode | MapLogicError | MapRuntimeError.
Abbreviation mres := (res map_error).

(** [sha512Half]: the first half of SHA-512, in OpenSSL.  The map takes a hash of zero
    to mean that it is not computed yet. *)
Class Sha512Half := {
  sha512Half : list Z -> Z;
  sha512Half_range m : 0 < sha512Half m < 2 ^ 256
}.

(** ** Node identifiers *)

Definition branchFactor : Z := 16.
Definition leafDepth : Z := 64.

Record SHAMapNodeID := mkNodeID { id_ : Z; depth_ : Z }.

Definition root_id : SHAMapNodeID := mkNodeID 0 0.
Definition isRoot (n : SHAMapNodeID) : bool := depth_ n =? 0.

(** Entry [depth] of the table of masks: the first [depth] digits are set. *)
Definition depthMask (depth : Z) : Z := Z.shiftl (Z.ones (4 * depth)) (256 - 4 * depth).

Definition getChildNodeID (n : SHAMapNodeID) (m : Z) : mres SHAMapNodeID :=
  if leafDepth <=? depth_ n then Err MapLogicError
  else if negb (id_ n =? Z.land (id_ n) (depthMask (depth_ n))) then Err MapLogicError
  else
    let byte := Z.shiftl (if Z.odd (depth_ n) then m else Z.shiftl m 4) (8 * (31 - depth_ n / 2)) in
    Val (mkNodeID (Z.lor (id_ n) byte) (depth_ n + 1)).

(** The digit of a key below a node.  At depth 64 the byte is outside the key. *)
Definition selectBranch (n : SHAMapNodeID) (hash : Z) : mres Z :=
  if leafDepth <=? depth_ n then Undef else
  let branch := Z.land (Z.shiftr hash (8 * (31 - depth_ n / 2))) 0xFF in
  Val (if Z.odd (depth_ n) then Z.land branch 0xF else Z.shiftr branch 4).

Definition createID (depth key : Z) : SHAMapNodeID := mkNodeID (Z.land key (depthMask depth)) depth.

Definition getRawString (n : SHAMapNodeID) : list Z := to_bytes 32 (id_ n) ++ [u8 (depth_ n)].

Definition deserializeSHAMapNodeID (data : list Z) : option SHAMapNodeID :=
  if negb (vsize data =? 33) then None else
  let depth := List.nth 32 data 0 in
  if negb (depth <=? leafDepth) then None else
  let id := of_bytes (take 32 data) in
  if id =? Z.land id (depthMask depth) then Some (mkNodeID id depth) else None.

(** ** Nodes *)

Inductive SHAMapNodeType := tnINNER | tnTRANSACTION_NM | tnTRANSACTION_MD | tnACCOUNT_STATE.

#[export] Instance SHAMapNodeType_eq_dec : EqDecision SHAMapNodeType.
Proof. solve_decision. Defined.

Record SHAMapItem := mkItem { item_key : Z; item_slice : list Z }.

#[export] Instance SHAMapItem_eq_dec : EqDecision SHAMapItem.
Proof. solve_decision. Defined.

Inductive SHAMapTreeNode :=
| SHAMapInnerNode (cowid hash : Z) (branches : list (option (Z * option SHAMapTreeNode)))
| SHAMapLeafNode (cowid hash : Z) (type : SHAMapNodeType) (item : SHAMapItem).

Abbreviation branch_slot := (option (Z * option SHAMapTreeNode)).

Definition isInner (n : SHAMapTreeNode) : bool :=
  match n with SHAMapInnerNode _ _ _ => true | _ => false end.
Definition isLeaf (n : SHAMapTreeNode) : bool := negb (isInner n).

Definition cowid (n : SHAMapTreeNode) : Z :=
  match n with SHAMapInnerNode c _ _ | SHAMapLeafNode c _ _ _ => c end.

Definition getHash_node (n : SHAMapTreeNode) : Z :=
  match n with SHAMapInnerNode _ h _ | SHAMapLeafNode _ h _ _ => h end.

Definition set_cowid (c : Z) (n : SHAMapTreeNode) : SHAMapTreeNode :=
  match n with
  | SHAMapInnerNode _ h bs => SHAMapInnerNode c h bs
  | SHAMapLeafNode _ h t i => SHAMapLeafNode c h t i
  end.

(** The constructor of [SHAMapInnerNode]. *)
Definition empty_branches : list branch_slot := replicate 16 None.
Definition new_inner (c : Z) : SHAMapTreeNode := SHAMapInnerNode c 0 empty_branches.

(** [isBranch_ & (1 << m)] *)
Definition isEmptyBranch (bs : list branch_slot) (m : Z) : bool :=
  match bs !! Z.to_nat m with Some (Some _) => false | _ => true end.

Definition getBranchCount (bs : list branch_slot) : Z :=
  Z.of_nat (length (filter (fun o => is_Some o) bs)).

Definition isEmpty (bs : list branch_slot) : bool := getBranchCount bs =? 0.

Definition slot_hash (o : branch_slot) : Z := match o with Some (h, _) => h | None => 0 end.

Definition getChildHash (bs : list branch_slot) (m : Z) : Z :=
  match bs !! Z.to_nat m with Some o => slot_hash o | None => 0 end.

Definition setChild (m : Z) (child : option SHAMapTreeNode) (n : SHAMapTreeNode) : SHAMapTreeNode :=
  match n with
  | SHAMapInnerNode c _ bs =>
    SHAMapInnerNode c 0 (<[Z.to_nat m := (fun ch => (0, Some ch)) <$> child]> bs)
  | leaf => leaf
  end.

(** ** Hashes *)

Definition make_hash_prefix (a b c : Z) : list Z := [a; b; c; 0].

Definition HashPrefix_transactionID := make_hash_prefix 84 88 78.
Definition HashPrefix_txNode := make_hash_prefix 83 78 68.
Definition HashPrefix_leafNode := make_hash_prefix 77 76 78.
Definition HashPrefix_innerNode := make_hash_prefix 77 73 78.

(** The bytes a leaf hashes, by its type. *)
Definition leaf_message (t : SHAMapNodeType) (i : SHAMapItem) : list Z :=
  match t with
  | tnTRANSACTION_NM => HashPrefix_transactionID ++ item_slice i
  | tnTRANSACTION_MD => HashPrefix_txNode ++ item_slice i ++ to_bytes 32 (item_key i)
  | _ => HashPrefix_leafNode ++ item_slice i ++ to_bytes 32 (item_key i)
  end.

Definition inner_message (hashes : list Z) : list Z :=
  HashPrefix_innerNode ++ concat (to_bytes 32 <$> hashes).

(** [iterChildren]: the hashes of all sixteen branches, zero for an empty one. *)
Definition iterChildren (bs : list branch_slot) : list Z := slot_hash <$> bs.

Section hashes.
Context `{Sha512Half}.

Definition updateHash_leaf (t : SHAMapNodeType) (i : SHAMapItem) : Z := sha512Half (leaf_message t i).

Definition updateHash_inner (bs : list branch_slot) : Z :=
  if isEmpty bs then 0 else sha512Half (inner_message (iterChildren bs)).

Definition updateHash (n : SHAMapTreeNode) : SHAMapTreeNode :=
  match n with
  | SHAMapInnerNode c _ bs => SHAMapInnerNode c (updateHash_inner bs) bs
  | SHAMapLeafNode c _ t i => SHAMapLeafNode c (updateHash_leaf t i) t i
  end.

(** Branches whose child is in memory take its hash first. *)
Definition refresh_slot (o : branch_slot) : branch_slot :=
  match o with
  | Some (_, Some c) => Some (getHash_node c, Some c)
  | o => o
  end.

Definition updateHashDeep (n : SHAMapTreeNode) : SHAMapTreeNode :=
  match n with
  | SHAMapInnerNode c _ bs =>
    let bs := refresh_slot <$> bs in SHAMapInnerNode c (updateHash_inner bs) bs
  | leaf => leaf
  end.

Definition makeTypedLeaf (type : SHAMapNodeType) (item : SHAMapItem) (owner : Z) : mres SHAMapTreeNode :=
  match type with
  | tnINNER => Err MapLogicError
  | _ => Val (SHAMapLeafNode owner (updateHash_leaf type item) type item)
  end.

(** [setItem]: the new leaf and whether its hash changed. *)
Definition setItem (i : SHAMapItem) (n : SHAMapTreeNode) : SHAMapTreeNode * bool :=
  match n with
  | SHAMapLeafNode c oldHash t _ =>
    let h := updateHash_leaf t i in (SHAMapLeafNode c h t i, negb (oldHash =? h))
  | inner => (inner, false)
  end.

(** ** Nodes on the wire *)

Definition wireTypeTransaction : Z := 0.
Definition wireTypeAccountState : Z := 1.
Definition wireTypeInner : Z := 2.
Definition wireTypeCompressedInner : Z := 3.
Definition wireTypeTransactionWithMeta : Z := 4.

(** The branches in use with their numbers ([iterNonEmptyChildIndexes]). *)
Fixpoint nonEmptyChildren (pos : Z) (bs : list branch_slot) : list (Z * Z) :=
  match bs with
  | [] => []
  | None :: bs => nonEmptyChildren (pos + 1) bs
  | Some (h, _) :: bs => (pos, h) :: nonEmptyChildren (pos + 1) bs
  end.

Definition serializeForWire (n : SHAMapTreeNode) : list Z :=
  match n with
  | SHAMapInnerNode _ _ bs =>
    if getBranchCount bs <? 12
    then concat ((fun '(pos, h) => to_bytes 32 h ++ [u8 pos]) <$> nonEmptyChildren 0 bs) ++ [wireTypeCompressedInner]
    else concat (to_bytes 32 <$> iterChildren bs) ++ [wireTypeInner]
  | SHAMapLeafNode _ _ tnTRANSACTION_NM i => item_slice i ++ [wireTypeTransaction]
  | SHAMapLeafNode _ _ tnTRANSACTION_MD i => item_slice i ++ to_bytes 32 (item_key i) ++ [wireTypeTransactionWithMeta]
  | SHAMapLeafNode _ _ _ i => item_slice i ++ to_bytes 32 (item_key i) ++ [wireTypeAccountState]
  end.

(** [getBitString<256>] and [get8] of a [SerialIter], which throws at its end. *)
Definition getBitString256 (data : list Z) : mres (Z * list Z) :=
  if vsize data <? 32 then Err MapRuntimeError else Val (of_bytes (take 32 data), drop 32 data).

Definition get8 (data : list Z) : mres (Z * list Z) :=
  match data with [] => Err MapRuntimeError | b :: data => Val (b, data) end.

Fixpoint read_hashes (n : nat) (data : list Z) : mres (list branch_slot) :=
  match n with
  | O => Val []
  | S n => '(h, data) ← getBitString256 data; bs ← read_hashes n data;
           Val ((if h =? 0 then None else Some (h, None)) :: bs)
  end.

Definition makeFullInner (data : list Z) : mres SHAMapTreeNode :=
  if negb (vsize data =? branchFactor * 32) then Err MapRuntimeError else
  bs ← read_hashes 16 data; Val (updateHash (SHAMapInnerNode 0 0 bs)).

(** The loop of [makeCompressedInner]; every round takes a byte of the data.  A branch
    stays in use when a later chunk sets its hash to zero. *)
Fixpoint read_chunks (fuel : nat) (data : list Z) (bs : list branch_slot) : mres (list branch_slot) :=
  match fuel, data with
  | _, [] => Val bs
  | O, _ => Undef
  | S fuel, _ =>
    '(hash, data) ← getBitString256 data; '(pos, data) ← get8 data;
    if branchFactor <=? pos then Err MapRuntimeError else
    read_chunks fuel data
      (if (hash =? 0) && isEmptyBranch bs pos then bs else <[Z.to_nat pos := Some (hash, None)]> bs)
  end.

Definition makeCompressedInner (data : list Z) : mres SHAMapTreeNode :=
  if negb (vsize data mod 33 =? 0) || (33 * branchFactor <? vsize data) then Err MapRuntimeError else
  bs ← read_chunks (length data) data empty_branches; Val (updateHash (SHAMapInnerNode 0 0 bs)).

Definition makeTransaction (data : list Z) : mres SHAMapTreeNode :=
  makeTypedLeaf tnTRANSACTION_NM (mkItem (sha512Half (HashPrefix_transactionID ++ data)) data) 0.

(** The last 32 bytes are the key. *)
Definition split_tag (data : list Z) : mres (list Z * Z) :=
  if vsize data <? 32 then Err MapRuntimeError else
  let n := (length data - 32)%nat in Val (take n data, of_bytes (drop n data)).

Definition makeTransactionWithMeta (data : list Z) : mres SHAMapTreeNode :=
  '(s, tag) ← split_tag data; makeTypedLeaf tnTRANSACTION_MD (mkItem tag s) 0.

Definition makeAccountState (data : list Z) : mres SHAMapTreeNode :=
  '(s, tag) ← split_tag data;
  if tag =? 0 then Err MapRuntimeError else makeTypedLeaf tnACCOUNT_STATE (mkItem tag s) 0.

(** A parsed node, never a null pointer. *)
Definition some_node (c : mres SHAMapTreeNode) : mres (option SHAMapTreeNode) := n ← c; Val (Some n).

(** The last byte is the type; nothing comes from an empty string. *)
Definition makeFromWire (rawNode : list Z) : mres (option SHAMapTreeNode) :=
  match rawNode !! (length rawNode - 1)%nat with
  | None => Val None
  | Some type =>
    let rawNode := take (length rawNode - 1) rawNode in
    if type =? wireTypeTransaction then some_node (makeTransaction rawNode)
    else if type =? wireTypeAccountState then some_node (makeAccountState rawNode)
    else if type =? wireTypeInner then some_node (makeFullInner rawNode)
    else if type =? wireTypeCompressedInner then some_node (makeCompressedInner rawNode)
    else if type =? wireTypeTransactionWithMeta then some_node (makeTransactionWithMeta rawNode)
    else Err MapRuntimeError
  end.
End hashes.

(** ** Digits of a key *)

Definition key_ok (k : Z) : Prop := 0 <= k < 2 ^ 256.

(** Digit [d] of a key, and the number its first [d] digits form. *)
Definition digit (d k : Z) : Z := k / 16 ^ (63 - d) mod 16.
Definition prefix (d k : Z) : Z := k / 16 ^ (64 - d).

Lemma digit_range d k : 0 <= digit d k < 16.
Proof. apply Z.mod_pos_bound. lia. Qed.

Lemma prefix_0 k : key_ok k -> prefix 0 k = 0.
Proof. intros Hk. apply Z.div_small. exact Hk. Qed.

Lemma prefix_64 k : prefix 64 k = k.
Proof. apply Z.div_1_r. Qed.

Lemma prefix_succ d k : 0 <= d < 64 -> prefix (d + 1) k = 16 * prefix d k + digit d k.
Proof.
  intros Hd. unfold prefix, digit. replace (64 - (d + 1)) with (63 - d) by lia.
  replace (16 ^ (64 - d)) with (16 ^ (63 - d) * 16) by (rewrite Z.mul_comm, <- Z.pow_succ_r by lia; f_equal; lia).
  rewrite <- Z.div_div by lia. apply Z.div_mod. lia.
Qed.

Lemma prefix_lt d j k : d <= 64 -> prefix d j < prefix d k -> j < k.
Proof.
  intros Hd H. destruct (Z.lt_ge_cases j k) as [|Hle]; [done|]. exfalso.
  enough (prefix d k <= prefix d j) by lia. apply Z.div_le_mono; lia.
Qed.

Lemma selectBranch_val n k : 0 <= depth_ n < 64 -> selectBranch n k = Val (digit (depth_ n) k).
Proof.
  intros Hd. unfold selectBranch, leafDepth, digit. destruct (Z.leb_spec 64 (depth_ n)); [lia|]. f_equal.
  pose proof (Z.div_mod (depth_ n) 2 ltac:(lia)). pose proof (Z.mod_pos_bound (depth_ n) 2 ltac:(lia)).
  change 255 with (Z.ones 8). change 15 with (Z.ones 4). rewrite !Z.land_ones, !Z.shiftr_div_pow2 by lia.
  pose proof (Zmod_odd (depth_ n)).
  destruct (Z.odd (depth_ n)).
  - replace (16 ^ (63 - depth_ n)) with (2 ^ (8 * (31 - depth_ n / 2)))
      by (change 16 with (2 ^ 4); rewrite <- Z.pow_mul_r by lia; f_equal; lia).
    change (2 ^ 8) with (2 ^ 4 * 2 ^ 4). rewrite Z.rem_mul_r by lia.
    rewrite (Z.mul_comm (2 ^ 4) (_ mod _)), Z.mod_add by lia. rewrite Z.mod_mod by lia. done.
  - replace (16 ^ (63 - depth_ n)) with (2 ^ (8 * (31 - depth_ n / 2)) * 2 ^ 4)
      by (change 16 with (2 ^ 4); rewrite <- Z.pow_mul_r, <- Z.pow_add_r by lia; f_equal; lia).
    rewrite <- Z.div_div by lia. set (a := k / _).
    change (2 ^ 8) with (2 ^ 4 * 2 ^ 4). rewrite Z.rem_mul_r by lia.
    rewrite (Z.mul_comm (2 ^ 4) (_ mod _)), Z.div_add by lia. rewrite (Z.div_small (a mod 2 ^ 4)) by (apply Z.mod_pos_bound; lia). done.
Qed.

Lemma depthMask_bit d i : 0 <= d <= 64 -> 0 <= i ->
  Z.testbit (depthMask d) i = (256 - 4 * d <=? i) && (i <? 256).
Proof.
  intros Hd Hi. unfold depthMask. rewrite Z.shiftl_spec by lia.
  destruct (Z.leb_spec (256 - 4 * d) i).
  - cbn. destruct (Z.ltb_spec i 256); [apply Z.ones_spec_low|apply Z.ones_spec_high]; lia.
  - apply Z.testbit_neg_r. lia.
Qed.

(** The identifiers that occur: no bit below their depth. *)
Definition id_ok (n : SHAMapNodeID) : Prop :=
  0 <= depth_ n <= 64 /\ Z.land (id_ n) (depthMask (depth_ n)) = id_ n.

(** The new digit of [getChildNodeID] as a shift. *)
Lemma child_byte d m : 0 <= d < 64 ->
  Z.shiftl (if Z.odd d then m else Z.shiftl m 4) (8 * (31 - d / 2)) = Z.shiftl m (4 * (63 - d)).
Proof.
  intros Hd. pose proof (Z.div_mod d 2 ltac:(lia)). pose proof (Zmod_odd d).
  destruct (Z.odd d); [|rewrite Z.shiftl_shiftl by lia]; f_equal; lia.
Qed.

Lemma getChildNodeID_val n m : id_ok n -> depth_ n < 64 ->
  getChildNodeID n m = Val (mkNodeID (Z.lor (id_ n) (Z.shiftl m (4 * (63 - depth_ n)))) (depth_ n + 1)).
Proof.
  intros [Hd Hm] Hl. unfold getChildNodeID, leafDepth. destruct (Z.leb_spec 64 (depth_ n)); [lia|].
  rewrite Hm, Z.eqb_refl. cbn [negb]. by rewrite child_byte by lia.
Qed.

Lemma small_bits m i : 0 <= m < 16 -> 4 <= i -> Z.testbit m i = false.
Proof. intros Hm Hi. apply (testbit_small m 4); lia. Qed.

Lemma getChildNodeID_ok n m : id_ok n -> depth_ n < 64 -> 0 <= m < 16 ->
  exists n', getChildNodeID n m = Val n' /\ id_ok n' /\ depth_ n' = depth_ n + 1.
Proof.
  intros Hok Hl Hm. rewrite getChildNodeID_val by done. eexists. split; [done|]. destruct Hok as [Hd Hid].
  split; [|done]. split; cbn [depth_ id_]; [lia|]. apply Z.bits_inj'. intros i Hi.
  rewrite Z.land_spec, Z.lor_spec, Z.shiftl_spec, depthMask_bit by lia.
  assert (Z.testbit (id_ n) i = Z.testbit (id_ n) i && ((256 - 4 * depth_ n <=? i) && (i <? 256))) as E
    by (rewrite <- (depthMask_bit (depth_ n)), <- Z.land_spec, Hid by lia; done).
  destruct (Z.testbit (id_ n) i); cbn [orb] in *; [lia|].
  destruct (Z.lt_ge_cases i (256 - 4 * (depth_ n + 1))); [rewrite Z.testbit_neg_r by lia; done|].
  destruct (Z.lt_ge_cases (i - 4 * (63 - depth_ n)) 4); [|rewrite small_bits by lia; done].
  destruct (Z.testbit m _); cbn; lia.
Qed.

Lemma createID_ok d k : 0 <= d <= 64 -> id_ok (createID d k).
Proof.
  intros Hd. split; [done|]. cbn. rewrite <- Z.land_assoc. f_equal. apply Z.land_diag.
Qed.

Lemma createID_0 k : createID 0 k = root_id.
Proof. unfold createID, root_id. f_equal. change (depthMask 0) with 0. apply Z.land_0_r. Qed.

(** On the way to a key the identifiers are the masked key. *)
Lemma createID_child d k : 0 <= d < 64 -> getChildNodeID (createID d k) (digit d k) = Val (createID (d + 1) k).
Proof.
  intros Hd. rewrite getChildNodeID_val by (try apply createID_ok; cbn; lia). f_equal. unfold createID. f_equal. cbn [id_ depth_].
  apply Z.bits_inj'. intros i Hi. rewrite Z.lor_spec, !Z.land_spec, Z.shiftl_spec, !depthMask_bit by lia.
  unfold digit. change 16 with (2 ^ 4) at 2. rewrite <- Z.land_ones by lia.
  replace (16 ^ (63 - d)) with (2 ^ (4 * (63 - d))) by (rewrite Z.pow_mul_r by lia; done).
  rewrite <- Z.shiftr_div_pow2 by lia.
  destruct (Z.lt_ge_cases i (4 * (63 - d))).
  { rewrite (Z.testbit_neg_r (Z.land _ _)) by lia. rewrite orb_false_r.
    destruct (Z.leb_spec (256 - 4 * d) i), (Z.leb_spec (256 - 4 * (d + 1)) i); try lia; done. }
  rewrite Z.land_spec, Z.shiftr_spec by lia. replace (i - 4 * (63 - d) + 4 * (63 - d)) with i by lia.
  destruct (Z.lt_ge_cases (i - 4 * (63 - d)) 4).
  - rewrite Z.ones_spec_low by lia. destruct (Z.leb_spec (256 - 4 * d) i), (Z.leb_spec (256 - 4 * (d + 1)) i), (Z.ltb_spec i 256); try lia.
    cbn. by rewrite andb_false_r, andb_true_r.
  - rewrite Z.ones_spec_high, andb_false_r, orb_false_r by lia.
    destruct (Z.leb_spec (256 - 4 * d) i), (Z.leb_spec (256 - 4 * (d + 1)) i); try lia; done.
Qed.

(** ** The wire format *)

Definition slot_ok (o : branch_slot) : Prop := match o with Some (h, _) => 0 < h < 2 ^ 256 | None => True end.

Definition forget_child (o : branch_slot) : branch_slot := (fun s => (s.1, None)) <$> o.

Section wire.
Context `{Sha512Half}.

(** What can be sent: sixteen branches with hashes, or an item with a proper key. *)
Definition wire_ok (n : SHAMapTreeNode) : Prop :=
  match n with
  | SHAMapInnerNode _ _ bs => length bs = 16%nat /\ Forall slot_ok bs
  | SHAMapLeafNode _ _ t i =>
    key_ok (item_key i) /\
    match t with
    | tnINNER => False
    | tnTRANSACTION_NM => item_key i = updateHash_leaf t i
    | tnTRANSACTION_MD => True
    | tnACCOUNT_STATE => item_key i <> 0
    end
  end.

(** A node as its receiver sees it: the same hashes, no children, clean. *)
Definition on_wire (n : SHAMapTreeNode) : SHAMapTreeNode :=
  match n with
  | SHAMapInnerNode _ _ bs => updateHash (SHAMapInnerNode 0 0 (forget_child <$> bs))
  | SHAMapLeafNode _ _ t i => updateHash (SHAMapLeafNode 0 0 t i)
  end.

Lemma getBitString256_to_bytes h rest : 0 <= h < 2 ^ 256 ->
  getBitString256 (to_bytes 32 h ++ rest) = Val (h, rest).
Proof.
  intros Hh. unfold getBitString256. rewrite vsize_app. pose proof (vsize_nonneg rest).
  assert (vsize (to_bytes 32 h) = 32) as -> by (unfold vsize; by rewrite to_bytes_length).
  destruct (Z.ltb_spec (32 + vsize rest) 32); [lia|].
  rewrite take_app_length', drop_app_length' by (by rewrite to_bytes_length). rewrite of_to_bytes by done. done.
Qed.

Lemma read_hashes_roundtrip bs rest : Forall slot_ok bs ->
  read_hashes (length bs) (concat (to_bytes 32 <$> iterChildren bs) ++ rest) = Val (forget_child <$> bs).
Proof.
  intros Hok. induction Hok as [|o bs Ho Hok IH]; [done|]. cbn [length read_hashes].
  unfold iterChildren in *. rewrite !fmap_cons. cbn [concat]. rewrite <- app_assoc.
  destruct o as [[h c]|]; cbn [slot_hash slot_ok] in *; rewrite getBitString256_to_bytes by lia; cbn [mbind res_bind]; rewrite IH; cbn [mbind res_bind].
  - destruct (Z.eqb_spec h 0); [lia|done].
  - done.
Qed.

Definition chunk (c : Z * Z) : list Z := to_bytes 32 c.2 ++ [u8 c.1].

Lemma read_chunk fuel pos h data acc : 0 <= pos < 16 -> 0 < h < 2 ^ 256 ->
  read_chunks (S fuel) (chunk (pos, h) ++ data) acc = read_chunks fuel data (<[Z.to_nat pos := Some (h, None)]> acc).
Proof.
  intros Hp Hh. unfold chunk. cbn [fst snd]. rewrite <- app_assoc. cbn [read_chunks].
  destruct (to_bytes 32 h ++ _) eqn:E.
  { exfalso. apply (f_equal length) in E. rewrite length_app, to_bytes_length in E. cbn in E. lia. }
  rewrite <- E. rewrite getBitString256_to_bytes by lia. cbn [mbind res_bind get8 app].
  rewrite u8_small by lia. unfold branchFactor. destruct (Z.leb_spec 16 pos); [lia|].
  destruct (Z.eqb_spec h 0); [lia|]. done.
Qed.

Lemma read_chunks_roundtrip bs done_ fuel : Forall slot_ok bs -> (length done_ + length bs = 16)%nat ->
  (length (nonEmptyChildren (Z.of_nat (length done_)) bs) <= fuel)%nat ->
  read_chunks fuel (concat (chunk <$> nonEmptyChildren (Z.of_nat (length done_)) bs)) (done_ ++ replicate (length bs) None)
  = Val (done_ ++ (forget_child <$> bs)).
Proof.
  intros Hok. revert done_ fuel. induction Hok as [|o bs Ho Hok IH]; intros acc fuel Hl Hf.
  { cbn. destruct fuel; done. }
  cbn [length] in Hl. destruct o as [[h c]|].
  - cbn [nonEmptyChildren length] in *. destruct fuel as [|fuel]; [lia|]. rewrite fmap_cons. cbn [concat].
    rewrite read_chunk by (cbn in Ho; lia). rewrite Nat2Z.id.
    cbn [replicate]. rewrite insert_app_r_alt, Nat.sub_diag by lia. cbn [insert list_insert].
    change (Some (h, None) :: replicate (length bs) None) with ([Some (h, @None SHAMapTreeNode)] ++ replicate (length bs) None).
    rewrite app_assoc. specialize (IH (acc ++ [Some (h, None)]) fuel). rewrite length_app in IH.
    cbn [length] in IH. replace (Z.of_nat (length acc + 1)) with (Z.of_nat (length acc) + 1) in IH by lia.
    rewrite IH by lia. by rewrite <- app_assoc.
  - cbn [nonEmptyChildren length replicate] in *.
    change (None :: replicate (length bs) None) with ([@None (Z * option SHAMapTreeNode)] ++ replicate (length bs) None).
    rewrite app_assoc. specialize (IH (acc ++ [None]) fuel). rewrite length_app in IH.
    cbn [length] in IH. replace (Z.of_nat (length acc + 1)) with (Z.of_nat (length acc) + 1) in IH by lia.
    rewrite IH by lia. by rewrite <- app_assoc.
Qed.

Lemma length_chunks l : length (concat (chunk <$> l)) = (33 * length l)%nat.
Proof.
  induction l as [|[p h] l IH]; [done|]. rewrite fmap_cons. cbn [concat length]. rewrite length_app, IH.
  unfold chunk. rewrite length_app, to_bytes_length. cbn. lia.
Qed.

Lemma length_nonEmptyChildren pos bs : Z.of_nat (length (nonEmptyChildren pos bs)) = getBranchCount bs.
Proof.
  unfold getBranchCount. revert pos. induction bs as [|[[h c]|] bs IH]; intros pos; cbn [nonEmptyChildren]; [done| |].
  - rewrite filter_cons_True by eauto. cbn [length]. rewrite Nat2Z.inj_succ, IH, <- Nat2Z.inj_succ. done.
  - rewrite filter_cons_False by (intros [? [=]]). apply IH.
Qed.

Lemma compressed_roundtrip bs : length bs = 16%nat -> Forall slot_ok bs -> getBranchCount bs < 12 ->
  makeCompressedInner (concat (chunk <$> nonEmptyChildren 0 bs)) = Val (updateHash (SHAMapInnerNode 0 0 (forget_child <$> bs))).
Proof.
  intros Hl Hok Hc. pose proof (length_nonEmptyChildren 0 bs) as Hn. unfold makeCompressedInner, vsize, branchFactor.
  rewrite length_chunks, Nat2Z.inj_mul, Z.mul_comm, Z.mod_mul by (cbn; lia).
  destruct (Z.ltb_spec (33 * 16) (Z.of_nat (length (nonEmptyChildren 0 bs)) * Z.of_nat 33)); [lia|]. cbn [negb orb].
  pose proof (read_chunks_roundtrip bs [] (33 * length (nonEmptyChildren 0 bs)) Hok) as E. rewrite Hl in E.
  change ([] ++ replicate 16 None) with empty_branches in E. change (Z.of_nat (length [])) with 0 in E. cbn [app] in E.
  rewrite E by (cbn; lia). done.
Qed.

Lemma full_roundtrip bs : length bs = 16%nat -> Forall slot_ok bs ->
  makeFullInner (concat (to_bytes 32 <$> iterChildren bs)) = Val (updateHash (SHAMapInnerNode 0 0 (forget_child <$> bs))).
Proof.
  intros Hl Hok. unfold makeFullInner.
  assert (forall l, length (concat (to_bytes 32 <$> l)) = (32 * length l)%nat) as Hlen.
  { induction l as [|h l IHl]; [done|]. rewrite fmap_cons. cbn [concat length]. rewrite length_app, IHl, to_bytes_length. lia. }
  unfold vsize. rewrite Hlen. unfold iterChildren at 1. rewrite length_fmap, Hl.
  change (negb (Z.of_nat (32 * 16) =? branchFactor * 32)) with false. cbn iota.
  pose proof (read_hashes_roundtrip bs [] Hok) as E. rewrite Hl, app_nil_r in E. rewrite E. done.
Qed.

Lemma split_tag_app s k : key_ok k -> split_tag (s ++ to_bytes 32 k) = Val (s, k).
Proof.
  intros Hk. unfold split_tag. rewrite vsize_app. pose proof (vsize_nonneg s).
  assert (vsize (to_bytes 32 k) = 32) as -> by (unfold vsize; by rewrite to_bytes_length).
  destruct (Z.ltb_spec (vsize s + 32) 32); [lia|]. rewrite length_app, to_bytes_length.
  replace (length s + 32 - 32)%nat with (length s) by lia. rewrite take_app_length, drop_app_length, of_to_bytes by done. done.
Qed.

(** The branches of [makeFromWire]: the type byte selects the parser. *)
Lemma makeFromWire_snoc data t : makeFromWire (data ++ [t]) =
  if t =? wireTypeTransaction then some_node (makeTransaction data)
  else if t =? wireTypeAccountState then some_node (makeAccountState data)
  else if t =? wireTypeInner then some_node (makeFullInner data)
  else if t =? wireTypeCompressedInner then some_node (makeCompressedInner data)
  else if t =? wireTypeTransactionWithMeta then some_node (makeTransactionWithMeta data)
  else Err MapRuntimeError.
Proof.
  unfold makeFromWire. rewrite length_app, Nat.add_sub. cbn [length]. rewrite list_lookup_middle by done.
  by rewrite take_app_length.
Qed.

Lemma wire_roundtrip_spec n : wire_ok n -> makeFromWire (serializeForWire n) = Val (Some (on_wire n)).
Proof.
  destruct n as [c h bs|c h t i]; cbn [wire_ok serializeForWire on_wire].
  - intros [Hl Hok]. destruct (Z.ltb_spec (getBranchCount bs) 12); rewrite makeFromWire_snoc; cbn [Z.eqb]; cbn.
    + assert (forall l, (fun '(pos, h0) => to_bytes 32 h0 ++ [u8 pos]) <$> l = chunk <$> l) as ->
        by (intros l; apply list_fmap_ext; intros ? [] _; done).
      by rewrite compressed_roundtrip.
    + by rewrite full_roundtrip.
  - intros [Hk Ht]. destruct i as [k s]; cbn [item_key item_slice] in *.
    destruct t; [done| | |]; rewrite ?app_assoc, makeFromWire_snoc.
    + change (wireTypeTransaction =? wireTypeTransaction) with true. unfold updateHash_leaf in Ht. cbn in Ht.
      unfold makeTransaction, makeTypedLeaf. cbn. rewrite <- Ht. done.
    + change (some_node (makeTransactionWithMeta (s ++ to_bytes 32 k)) = Val (Some (updateHash (SHAMapLeafNode 0 0 tnTRANSACTION_MD (mkItem k s))))).
      unfold makeTransactionWithMeta. rewrite split_tag_app by done. done.
    + change (some_node (makeAccountState (s ++ to_bytes 32 k)) = Val (Some (updateHash (SHAMapLeafNode 0 0 tnACCOUNT_STATE (mkItem k s))))).
      unfold makeAccountState. rewrite split_tag_app by done. cbn [mbind res_bind]. destruct (Z.eqb_spec k 0); [done|]. done.
Qed.
End wire.
