(* ===== verification/Serializer.v ===== *)
(** * Serializer: writing and reading of serialized data ([protocol/impl/Serializer.cpp])

    [Serializer] appends integers, field codes and length-prefixed strings to a buffer,
    [SerialIter] reads them back and throws when the data ends too early or has a form
    that is not allowed.

    The theorem: whatever is appended is read back, whatever follows. *)

From stdpp Require Import base numbers list option.
From Stdlib Require Import ZArith Lia.
From S2P Require Import Prelude ShaMapNode.

Local Open Scope Z_scope.

(** ** The code *)

(** [Serializer]: the bytes each operation appends. *)
Definition add8 (byte : Z) : list Z := [u8 byte].
Definition add16 (i : Z) : list Z := [u8 (Z.shiftr i 8); u8 (Z.land i 0xff)].
Definition add32 (i : Z) : list Z :=
  [u8 (Z.shiftr i 24); u8 (Z.land (Z.shiftr i 16) 0xff); u8 (Z.land (Z.shiftr i 8) 0xff); u8 (Z.land i 0xff)].
Definition add64 (i : Z) : list Z :=
  [u8 (Z.shiftr i 56); u8 (Z.land (Z.shiftr i 48) 0xff); u8 (Z.land (Z.shiftr i 40) 0xff); u8 (Z.land (Z.shiftr i 32) 0xff);
   u8 (Z.land (Z.shiftr i 24) 0xff); u8 (Z.land (Z.shiftr i 16) 0xff); u8 (Z.land (Z.shiftr i 8) 0xff); u8 (Z.land i 0xff)].

Definition addFieldID (type name : Z) : list Z :=
  if type <? 16 then
    if name <? 16 then [u8 (Z.lor (Z.shiftl type 4) name)]
    else [u8 (Z.shiftl type 4); u8 name]
  else if name <? 16 then [u8 name; u8 type]
  else [0; u8 type; u8 name].

Definition addEncoded (length : Z) : mres (list Z) :=
  if length <=? 192 then Val [u8 length]
  else if length <=? 12480 then
    let length := length - 193 in Val [u8 (193 + u8 (Z.shiftr length 8)); u8 (Z.land length 0xff)]
  else if length <=? 918744 then
    let length := length - 12481 in
    Val [u8 (241 + u8 (Z.shiftr length 16)); u8 (Z.land (Z.shiftr length 8) 0xff); u8 (Z.land length 0xff)]
  else Err MapRuntimeError.

Definition addVL (bs : list Z) : mres (list Z) := l ← addEncoded (vsize bs); Val (l ++ bs).

Definition encodeLengthLength (length : Z) : mres Z :=
  if length <? 0 then Err MapRuntimeError
  else if length <=? 192 then Val 1
  else if length <=? 12480 then Val 2
  else if length <=? 918744 then Val 3
  else Err MapRuntimeError.

Definition decodeLengthLength (b1 : Z) : mres Z :=
  if b1 <? 0 then Err MapRuntimeError
  else if b1 <=? 192 then Val 1
  else if b1 <=? 240 then Val 2
  else if b1 <=? 254 then Val 3
  else Err MapRuntimeError.

Definition decodeVLLength1 (b1 : Z) : mres Z :=
  if b1 <? 0 then Err MapRuntimeError else if 254 <? b1 then Err MapRuntimeError else Val b1.
Definition decodeVLLength2 (b1 b2 : Z) : mres Z :=
  if b1 <? 193 then Err MapRuntimeError else if 240 <? b1 then Err MapRuntimeError else Val (193 + (b1 - 193) * 256 + b2).
Definition decodeVLLength3 (b1 b2 b3 : Z) : mres Z :=
  if b1 <? 241 then Err MapRuntimeError else if 254 <? b1 then Err MapRuntimeError
  else Val (12481 + (b1 - 241) * 65536 + b2 * 256 + b3).

(** [SerialIter]: the value and the rest of the data. *)
Definition get16 (data : list Z) : mres (Z * list Z) :=
  match data with t0 :: t1 :: data => Val (u16 (Z.shiftl t0 8 + t1), data) | _ => Err MapRuntimeError end.
Definition get32 (data : list Z) : mres (Z * list Z) :=
  match data with
  | t0 :: t1 :: t2 :: t3 :: data => Val (u32 (Z.shiftl t0 24 + Z.shiftl t1 16 + Z.shiftl t2 8 + t3), data)
  | _ => Err MapRuntimeError
  end.
Definition get64 (data : list Z) : mres (Z * list Z) :=
  match data with
  | t0 :: t1 :: t2 :: t3 :: t4 :: t5 :: t6 :: t7 :: data =>
    Val (u64 (Z.shiftl t0 56 + Z.shiftl t1 48 + Z.shiftl t2 40 + Z.shiftl t3 32 + Z.shiftl t4 24 + Z.shiftl t5 16 + Z.shiftl t6 8 + t7), data)
  | _ => Err MapRuntimeError
  end.

Definition getFieldID (data : list Z) : mres (Z * Z * list Z) :=
  '(b, data) ← get8 data;
  let name := Z.land b 15 in
  let type := Z.shiftr b 4 in
  '(type, data) ← (if type =? 0 then '(t, data) ← get8 data; if t <? 16 then Err MapRuntimeError else Val (t, data) else Val (type, data));
  '(name, data) ← (if name =? 0 then '(n, data) ← get8 data; if n <? 16 then Err MapRuntimeError else Val (n, data) else Val (name, data));
  Val (type, name, data).

Definition getVLDataLength (data : list Z) : mres (Z * list Z) :=
  '(b1, data) ← get8 data;
  lenLen ← decodeLengthLength b1;
  if lenLen =? 1 then datLen ← decodeVLLength1 b1; Val (datLen, data)
  else if lenLen =? 2 then '(b2, data) ← get8 data; datLen ← decodeVLLength2 b1 b2; Val (datLen, data)
  else '(b2, data) ← get8 data; '(b3, data) ← get8 data; datLen ← decodeVLLength3 b1 b2 b3; Val (datLen, data).

Definition getSlice (bytes : Z) (data : list Z) : mres (list Z * list Z) :=
  if vsize data <? bytes then Err MapRuntimeError else Val (take (Z.to_nat bytes) data, drop (Z.to_nat bytes) data).

Definition getVL (data : list Z) : mres (list Z * list Z) := '(n, data) ← getVLDataLength data; getSlice n data.

(** ** Round trips *)

Ltac bytes_arith :=
  unfold u8, u16, u32, u64, uwrap; change 0xff with (Z.ones 8); change 15 with (Z.ones 4);
  rewrite ?Z.land_ones, ?Z.shiftr_div_pow2, ?Z.shiftl_mul_pow2 by lia.

Lemma get8_add8 b data : byte_range b -> get8 (add8 b ++ data) = Val (b, data).
Proof. intros Hb. cbn. by rewrite u8_small. Qed.

Lemma get16_add16 i data : 0 <= i < 2 ^ 16 -> get16 (add16 i ++ data) = Val (i, data).
Proof. intros Hi. unfold get16, add16. cbn [app]. f_equal. f_equal. bytes_arith. Z.to_euclidean_division_equations; lia. Qed.

Lemma get32_add32 i data : 0 <= i < 2 ^ 32 -> get32 (add32 i ++ data) = Val (i, data).
Proof. intros Hi. unfold get32, add32. cbn [app]. f_equal. f_equal. bytes_arith. Z.to_euclidean_division_equations; lia. Qed.

Lemma get64_add64 i data : 0 <= i < 2 ^ 64 -> get64 (add64 i ++ data) = Val (i, data).
Proof. intros Hi. unfold get64, add64. cbn [app]. f_equal. f_equal. bytes_arith. Z.to_euclidean_division_equations; lia. Qed.

Lemma nibbles type name : 0 <= type -> 0 <= name < 16 -> Z.lor (Z.shiftl type 4) name = type * 16 + name.
Proof.
  intros Ht Hn. replace (type * 16) with (Z.shiftl type 4) by (rewrite Z.shiftl_mul_pow2 by lia; lia). pose proof (Z.add_lor_land (Z.shiftl type 4) name) as E.
  assert (Z.land (Z.shiftl type 4) name = 0) as E0; [|lia]. apply Z.bits_inj'. intros i Hi. rewrite Z.land_spec, Z.bits_0, Z.shiftl_spec by lia.
  destruct (Z.lt_ge_cases i 4); [by rewrite Z.testbit_neg_r by lia|]. rewrite (testbit_small name 4) by lia. apply andb_false_r.
Qed.

(** The first byte of a field code, split. *)
Lemma split_nibbles t n : 0 <= t < 16 -> 0 <= n < 16 -> Z.land (u8 (t * 16 + n)) 15 = n /\ Z.shiftr (u8 (t * 16 + n)) 4 = t.
Proof. intros Ht Hn. bytes_arith. split; Z.to_euclidean_division_equations; lia. Qed.

Lemma getFieldID_addFieldID type name data : 0 < type < 256 -> 0 < name < 256 -> getFieldID (addFieldID type name ++ data) = Val (type, name, data).
Proof.
  intros Ht Hn. unfold addFieldID, getFieldID.
  destruct (Z.ltb_spec type 16), (Z.ltb_spec name 16); cbn [app get8 mbind res_bind].
  - rewrite nibbles by lia. destruct (split_nibbles type name ltac:(lia) ltac:(lia)) as [-> ->].
    destruct (Z.eqb_spec type 0), (Z.eqb_spec name 0); try lia. done.
  - replace (Z.shiftl type 4) with (type * 16 + 0) by (rewrite Z.shiftl_mul_pow2 by lia; lia). destruct (split_nibbles type 0 ltac:(lia) ltac:(lia)) as [-> ->].
    destruct (Z.eqb_spec type 0); [lia|]. cbn. rewrite u8_small by lia. destruct (Z.ltb_spec name 16); [lia|done].
  - destruct (split_nibbles 0 name ltac:(lia) ltac:(lia)) as [E1 E2]. change (0 * 16 + name) with name in E1, E2. rewrite E1, E2.
    cbn [Z.eqb mbind res_bind]. rewrite (u8_small type) by lia. destruct (Z.ltb_spec type 16); [lia|]. cbn [mbind res_bind]. destruct (Z.eqb_spec name 0); [lia|done].
  - rewrite !u8_small by lia. change (Z.shiftr 0 4) with 0. change (Z.land 0 15) with 0. cbn. destruct (Z.ltb_spec type 16); [lia|]. cbn. destruct (Z.ltb_spec name 16); [lia|done].
Qed.

Lemma getVLDataLength_encoded n data : 0 <= n <= 918744 -> exists l, addEncoded n = Val l /\ getVLDataLength (l ++ data) = Val (n, data).
Proof.
  intros Hn. unfold addEncoded. destruct (Z.leb_spec n 192); [|destruct (Z.leb_spec n 12480); [|destruct (Z.leb_spec n 918744); [|lia]]]; eexists; (split; [reflexivity|]).
  all: unfold getVLDataLength; cbn [app get8 mbind res_bind].
  - rewrite u8_small by lia. unfold decodeLengthLength, decodeVLLength1. repeat (case_match; try lia); cbn; done.
  - assert (u8 (193 + u8 (Z.shiftr (n - 193) 8)) = 193 + (n - 193) / 256) as -> by (bytes_arith; Z.to_euclidean_division_equations; lia).
    assert (u8 (Z.land (n - 193) 0xff) = (n - 193) mod 256) as -> by (bytes_arith; Z.to_euclidean_division_equations; lia).
    pose proof (Z.div_mod (n - 193) 256 ltac:(lia)). pose proof (Z.mod_pos_bound (n - 193) 256 ltac:(lia)).
    unfold decodeLengthLength, decodeVLLength2. repeat (case_match; try lia); cbn [mbind res_bind Z.eqb Pos.eqb]. f_equal. f_equal. lia.
  - assert (u8 (241 + u8 (Z.shiftr (n - 12481) 16)) = 241 + (n - 12481) / 65536) as -> by (bytes_arith; Z.to_euclidean_division_equations; lia).
    assert (u8 (Z.land (Z.shiftr (n - 12481) 8) 0xff) = (n - 12481) / 256 mod 256) as -> by (bytes_arith; Z.to_euclidean_division_equations; lia).
    assert (u8 (Z.land (n - 12481) 0xff) = (n - 12481) mod 256) as -> by (bytes_arith; Z.to_euclidean_division_equations; lia).
    assert (n - 12481 = (n - 12481) / 65536 * 65536 + (n - 12481) / 256 mod 256 * 256 + (n - 12481) mod 256) by (Z.to_euclidean_division_equations; lia).
    assert (0 <= (n - 12481) / 65536 < 14) by (Z.to_euclidean_division_equations; lia).
    unfold decodeLengthLength, decodeVLLength3. repeat (case_match; try lia); cbn [mbind res_bind Z.eqb Pos.eqb]. f_equal. f_equal. lia.
Qed.

Lemma getVL_addVL bs data : vsize bs <= 918744 -> exists l, addVL bs = Val l /\ getVL (l ++ data) = Val (bs, data).
Proof.
  intros Hl. pose proof (vsize_nonneg bs). destruct (getVLDataLength_encoded (vsize bs) (bs ++ data)) as (l & E & G); [lia|].
  unfold addVL. rewrite E. eexists. split; [reflexivity|]. unfold getVL. rewrite <- app_assoc, G. cbn [mbind res_bind]. unfold getSlice. rewrite vsize_app.
  pose proof (vsize_nonneg data). destruct (Z.ltb_spec (vsize bs + vsize data) (vsize bs)); [lia|]. unfold vsize. rewrite Nat2Z.id, take_app_length, drop_app_length. done.
Qed.

(** ** Sequences of values *)

Inductive value :=
| V8 (b : Z) | V16 (i : Z) | V32 (i : Z) | V64 (i : Z) | V256 (h : Z) | VField (type name : Z) | VVL (bs : list Z).

Definition value_ok (v : value) : Prop :=
  match v with
  | V8 b => byte_range b
  | V16 i => 0 <= i < 2 ^ 16
  | V32 i => 0 <= i < 2 ^ 32
  | V64 i => 0 <= i < 2 ^ 64
  | V256 h => key_ok h
  | VField type name => 0 < type < 256 /\ 0 < name < 256
  | VVL bs => vsize bs <= 918744
  end.

(** What is appended for a value; [addBitString] for 256 bits. *)
Definition write_value (v : value) : mres (list Z) :=
  match v with
  | V8 b => Val (add8 b)
  | V16 i => Val (add16 i)
  | V32 i => Val (add32 i)
  | V64 i => Val (add64 i)
  | V256 h => Val (to_bytes 32 h)
  | VField type name => Val (addFieldID type name)
  | VVL bs => addVL bs
  end.

(** Reading a value of the same form as the given one. *)
Definition read_value (form : value) (data : list Z) : mres (value * list Z) :=
  match form with
  | V8 _ => '(b, data) ← get8 data; Val (V8 b, data)
  | V16 _ => '(i, data) ← get16 data; Val (V16 i, data)
  | V32 _ => '(i, data) ← get32 data; Val (V32 i, data)
  | V64 _ => '(i, data) ← get64 data; Val (V64 i, data)
  | V256 _ => '(h, data) ← getBitString256 data; Val (V256 h, data)
  | VField _ _ => '(type, name, data) ← getFieldID data; Val (VField type name, data)
  | VVL _ => '(bs, data) ← getVL data; Val (VVL bs, data)
  end.

Fixpoint write_values (l : list value) : mres (list Z) :=
  match l with [] => Val [] | v :: l => bs ← write_value v; rest ← write_values l; Val (bs ++ rest) end.

Fixpoint read_values (forms : list value) (data : list Z) : mres (list value * list Z) :=
  match forms with
  | [] => Val ([], data)
  | f :: forms => '(v, data) ← read_value f data; '(l, data) ← read_values forms data; Val (v :: l, data)
  end.

Lemma read_write_value v data : value_ok v -> exists bs, write_value v = Val bs /\ read_value v (bs ++ data) = Val (v, data).
Proof.
  intros Hv. destruct v; cbn [value_ok write_value read_value] in *.
  - eexists. split; [reflexivity|]. by rewrite get8_add8.
  - eexists. split; [reflexivity|]. by rewrite get16_add16.
  - eexists. split; [reflexivity|]. by rewrite get32_add32.
  - eexists. split; [reflexivity|]. by rewrite get64_add64.
  - eexists. split; [reflexivity|]. by rewrite getBitString256_to_bytes.
  - destruct Hv. eexists. split; [reflexivity|]. by rewrite getFieldID_addFieldID.
  - destruct (getVL_addVL bs data Hv) as (l & E & G). exists l. split; [done|]. by rewrite G.
Qed.

(** C39: a sequence of values within their ranges is written without an exception, and reading values of
    the same forms from the data returns them and leaves what follows. *)
Theorem serializer_roundtrip l data : Forall value_ok l ->
  exists bs, write_values l = Val bs /\ read_values l (bs ++ data) = Val (l, data).
Proof.
  induction 1 as [|v l Hv _ IH]; [by exists []|]. destruct IH as (rest & Ew & Er). destruct (read_write_value v (rest ++ data) Hv) as (bs & Ewv & Erv).
  exists (bs ++ rest). cbn [write_values read_values]. rewrite Ewv. cbn [mbind res_bind]. rewrite Ew. split; [done|].
  rewrite <- app_assoc, Erv. cbn [mbind res_bind]. by rewrite Er.
Qed.

Module SerializerSamples.
Definition fields : list value := [VField 1 1; V16 0x61; VField 16 17; V256 (2 ^ 255 + 3); VField 7 26; VVL (replicate 300 7); VField 3 200; V64 (2 ^ 63)].

Lemma serializer_roundtrip_witness : exists bs, write_values fields = Val bs /\ read_values fields (bs ++ [9]) = Val (fields, [9]).
Proof. apply serializer_roundtrip. repeat apply Forall_cons_2; [cbn; unfold key_ok; lia..| |cbn; unfold key_ok; lia|cbn; unfold key_ok; lia|constructor]. vm_compute. discriminate. Defined.
End SerializerSamples.
