(* ===== verification/StoSyntax.v ===== *)
(** * StoSyntax: which bytes [sto_validate] accepts ([app/hook/impl/applyHook.cpp])

    The format of serialised objects as a grammar, independent of the function that
    measures them: a header, then a value of fixed size, a length and so many bytes, an
    amount, or members up to an end marker.  The measuring accepts the fields of this
    grammar and no others, so [sto_validate] accepts the sequences of them.

    The grammar is the one the code recognises.  It has the headers and lengths the
    ledger writes ([ledger_header], [ledger_length]).  It is narrower than the ledger's
    format in four places: a path set has a length in front, an amount that does not
    start with the bits 01 has 48 bytes, an object or array has at least one member, and
    a blob at the very end is not empty.  It is wider in others: small types and names may
    have bytes of their own, an account may have any length, and fields come in any
    order, with any names. *)

From stdpp Require Import base numbers list option.
From Stdlib Require Import ZArith Lia.
From S2P Require Import Prelude Enum Leb128 Runtime Sto ShaMapNode Serializer.

Local Open Scope Z_scope.

(** ** The grammar *)

(** Type and name: each in half a byte if it fits there and the writer likes, else in
    a byte of its own behind a half of zero. *)
Inductive header_syntax : Z -> Z -> list Z -> Prop :=
| both_common t f : 1 <= t < 16 -> 1 <= f < 16 -> header_syntax t f [16 * t + f]
| name_uncommon t f : 1 <= t < 16 -> 0 <= f < 256 -> header_syntax t f [16 * t; f]
| type_uncommon t f : 1 <= f < 16 -> 0 <= t < 256 -> header_syntax t f [f; t]
| both_uncommon t f : 0 <= t < 256 -> 0 <= f < 256 -> header_syntax t f [0; t; f].

(** A length in one to three bytes. *)
Inductive length_syntax : Z -> list Z -> Prop :=
| length_one n : 0 <= n <= 192 -> length_syntax n [n]
| length_two a b : 193 <= a <= 240 -> 0 <= b < 256 -> length_syntax (193 + (a - 193) * 256 + b) [a; b]
| length_three a b c : 241 <= a < 256 -> 0 <= b < 256 -> 0 <= c < 256 ->
  length_syntax (12481 + (a - 241) * 65536 + b * 256 + c) [a; b; c].

(** The types with values of one size: integers of 16, 32 and 64 bits, hashes of 128
    and 256, integers of 8, hashes of 160. *)
Definition sized_types : list (Z * Z) := [(1, 2); (2, 4); (3, 8); (4, 16); (5, 32); (16, 1); (17, 20)].

(** Blobs, accounts, path sets and vectors of hashes. *)
Definition blob_types : list Z := [7; 8; 18; 19].

(** Objects and arrays, with the byte that ends them. *)
Definition nested_types : list (Z * Z) := [(14, 0xE1); (15, 0xF1)].

(** A field of type [t] and name [f], nested at most [depth] deep; [last] if nothing
    follows it. *)
Inductive field_syntax : bool -> nat -> Z -> Z -> list Z -> Prop :=
| field_sized last depth t f h bs :
  header_syntax t f h -> (t, vsize bs) ∈ sized_types -> field_syntax last (S depth) t f (h ++ bs)
| field_blob last depth t f h l bs :
  header_syntax t f h -> t ∈ blob_types -> length_syntax (vsize bs) l -> (last = true -> bs <> []) ->
  field_syntax last (S depth) t f (h ++ l ++ bs)
| field_amount last depth f h b bs :
  header_syntax 6 f h -> vsize (b :: bs) = (if decide (64 <= b < 128) then 8 else 48) ->
  field_syntax last (S depth) 6 f (h ++ b :: bs)
| field_nested last depth t f h marker m ms :
  header_syntax t f h -> (t, marker) ∈ nested_types -> (length ms < 1024)%nat ->
  Forall (fun x => exists t' f', field_syntax false depth t' f' x) (m :: ms) ->
  Forall (fun x => head x <> Some marker) ms ->
  field_syntax last (S depth) t f (h ++ m ++ concat ms ++ [marker]).

(** An object: fields, the last of them in last place. *)
Fixpoint object_syntax (fs : list (list Z)) : Prop :=
  match fs with
  | [] => True
  | bs :: rest => (exists t f, field_syntax (bool_decide (rest = [])) 11 t f bs) /\ object_syntax rest
  end.

(** ** Bytes in place *)

Lemma holds_cons mem s b bs : holds mem s (b :: bs) -> rd (E := Z) mem s = Val b /\ holds mem (s + 1) bs.
Proof.
  change (b :: bs) with ([b] ++ bs). rewrite holds_app. intros [(Hs & Hl & E) H]. split; [|done].
  replace s with (s + 0) by lia. rewrite <- (rd_sub_bytes mem s (vsize [b])) by (change (vsize [b]) with 1; lia). by rewrite E.
Qed.

Lemma sub_bytes_split mem s n k : 0 <= s -> 0 <= k <= n -> sub_bytes mem s n = sub_bytes mem s k ++ sub_bytes mem (s + k) (n - k).
Proof.
  intros Hs Hk. unfold sub_bytes. rewrite <- (take_drop (Z.to_nat k) (take (Z.to_nat n) _)), take_take, skipn_firstn_comm, drop_drop.
  f_equal; f_equal; [lia|lia|]. f_equal. lia.
Qed.

Lemma sub_bytes_rd mem s n b : rd (E := Z) mem s = Val b -> 1 <= n -> sub_bytes mem s n = b :: sub_bytes mem (s + 1) (n - 1).
Proof.
  intros E Hn. unfold sub_bytes. rewrite (drop_rd _ _ _ E). replace (Z.to_nat n) with (S (Z.to_nat (n - 1))) by lia. done.
Qed.

Lemma sub_bytes_0 mem s : sub_bytes mem s 0 = [].
Proof. done. Qed.

Lemma sub_bytes_ok mem s n : bytes_ok mem -> bytes_ok (sub_bytes mem s n).
Proof. intros Hm. by apply Forall_take, Forall_drop. Qed.

(** ** Headers and lengths *)

Lemma halves b : byte_range b -> Z.shiftr b 4 = b / 16 /\ Z.land b 15 = b mod 16.
Proof. intros _. split; [by rewrite Z.shiftr_div_pow2|]. change 15 with (Z.ones 4). by rewrite Z.land_ones. Qed.

Lemma header_bytes t f h : header_syntax t f h -> bytes_ok h /\ 1 <= vsize h <= 3.
Proof. unfold bytes_ok, byte_range. intros []; (split; [repeat apply Forall_cons_2; try apply Forall_nil_2; cbv beta; lia|unfold vsize; cbn [length]; lia]). Qed.

(** Decides the tests of positions and bytes. *)
Ltac tests :=
  repeat (cbn [andb negb orb mbind res_bind assert_or];
    match goal with
    | |- context [?a <? ?b] => first [rewrite (proj2 (Z.ltb_lt a b)) by lia | rewrite (proj2 (Z.ltb_ge a b)) by lia]
    | |- context [?a <=? ?b] => first [rewrite (proj2 (Z.leb_le a b)) by lia | rewrite (proj2 (Z.leb_gt a b)) by lia]
    | |- context [?a =? ?b] => first [rewrite (proj2 (Z.eqb_eq a b)) by lia | rewrite (proj2 (Z.eqb_neq a b)) by lia]
    | H : rd ?m ?i = Val _ |- context [rd ?m ?i] => rewrite H
    end);
  cbn [andb negb orb mbind res_bind assert_or].

Lemma header_read mem s e t f h :
  header_syntax t f h -> holds mem s h -> s + vsize h < e -> stobject_header mem s e = Val (t, f, s + vsize h).
Proof.
  intros Hh Hm He. unfold stobject_header, more. destruct Hh as [t f Ht Hf|t f Ht Hf|t f Hf Ht|t f Ht Hf];
    repeat (apply holds_cons in Hm as [? Hm]); unfold vsize in *; cbn [length] in *;
    match goal with H : rd mem s = Val ?b |- _ => rewrite H; destruct (halves b) as [Eh El]; [unfold byte_range; lia|] end;
    cbn [mbind res_bind]; rewrite ?Eh, ?El.
  - replace ((16 * t + f) / 16) with t by (Z.to_euclidean_division_equations; lia).
    replace ((16 * t + f) mod 16) with f by (Z.to_euclidean_division_equations; lia). by tests.
  - replace ((16 * t) / 16) with t by (Z.to_euclidean_division_equations; lia).
    replace ((16 * t) mod 16) with 0 by (Z.to_euclidean_division_equations; lia). tests. do 2 f_equal. lia.
  - rewrite (Z.div_small f 16), (Z.mod_small f 16) by lia. tests. do 2 f_equal. lia.
  - change (0 / 16) with 0. change (0 mod 16) with 0. tests. do 2 f_equal. lia.
Qed.

(** The bytes read one by one are the bytes there. *)
Ltac bytes_read :=
  repeat match goal with
  | H : rd ?m ?i = Val _ |- context [sub_bytes ?m ?j ?n] =>
      replace j with i by lia; rewrite (sub_bytes_rd m i n _ H) by lia
  end;
  match goal with |- context [sub_bytes ?m ?i ?n] => replace n with 0 by lia; rewrite (sub_bytes_0 m i) end.

Lemma header_written mem s e t f u :
  bytes_ok mem -> stobject_header mem s e = Val (t, f, u) -> header_syntax t f (sub_bytes mem s (u - s)).
Proof.
  intros Hm E. unfold stobject_header, more in E. res_open; bool_prop;
    repeat match goal with H : rd mem _ = Val _ |- _ => pose proof (rd_byte _ _ _ Hm H); revert H end; intros;
    unfold byte_range in *;
    match goal with H : rd mem s = Val ?b |- _ => destruct (halves b) as [Eh El]; [done|]; rewrite ?Eh, ?El in * end;
    repeat match goal with H : (?b && ?c) = false |- _ => apply andb_false_iff in H end; rewrite ?Z.ltb_ge in *; bytes_read.
  - replace a with (16 * (a / 16) + a mod 16) at 3 by (Z.to_euclidean_division_equations; lia).
    constructor; Z.to_euclidean_division_equations; lia.
  - replace [a; f] with [16 * (a / 16); f] by (f_equal; Z.to_euclidean_division_equations; lia).
    constructor; Z.to_euclidean_division_equations; lia.
  - replace [a; t] with [a mod 16; t] by (f_equal; Z.to_euclidean_division_equations; lia).
    constructor; Z.to_euclidean_division_equations; lia.
  - replace a with 0 by (Z.to_euclidean_division_equations; lia). by constructor.
Qed.

Lemma length_bytes n l : length_syntax n l -> bytes_ok l /\ 1 <= vsize l <= 3 /\ 0 <= n < 2 ^ 20 /\ (n = 0 \/ 1 <= n).
Proof.
  unfold bytes_ok, byte_range.
  intros []; (split; [repeat apply Forall_cons_2; try apply Forall_nil_2; cbv beta; lia|unfold vsize; cbn [length]; lia]).
Qed.

Lemma length_read mem u e n l :
  length_syntax n l -> holds mem u l -> u + vsize l < e -> vl_length mem u e = Val (n, u + vsize l).
Proof.
  intros Hl Hm He. unfold vl_length, more. destruct Hl; repeat (apply holds_cons in Hm as [? Hm]);
    unfold vsize in *; cbn [length] in *; tests; do 2 f_equal; lia.
Qed.

Lemma length_written mem u e n u2 :
  bytes_ok mem -> vl_length mem u e = Val (n, u2) -> length_syntax n (sub_bytes mem u (u2 - u)).
Proof.
  intros Hm E. unfold vl_length, more in E. res_open; bool_prop;
    repeat match goal with H : rd mem _ = Val _ |- _ => pose proof (rd_byte _ _ _ Hm H); revert H end; intros;
    unfold byte_range in *; bytes_read.
  - constructor. lia.
  - match goal with |- length_syntax _ [?a; ?b] => replace ((a - 193) * 256 + (b + 193)) with (193 + (a - 193) * 256 + b) by lia end.
    constructor; lia.
  - match goal with |- length_syntax _ [?a; ?b; ?c] =>
      replace ((a - 241) * 65536 + (12481 + b * 256 + c)) with (12481 + (a - 241) * 65536 + b * 256 + c) by lia end.
    constructor; lia.
Qed.

(** The headers and lengths of the ledger's serialiser are among these. *)
Lemma ledger_header t f : 1 <= t < 256 -> 1 <= f < 256 -> header_syntax t f (addFieldID t f).
Proof.
  intros Ht Hf. unfold addFieldID. destruct (Z.ltb_spec t 16), (Z.ltb_spec f 16).
  - rewrite nibbles by lia. replace (t * 16 + f) with (16 * t + f) by lia. rewrite u8_small by lia. constructor; lia.
  - rewrite Z.shiftl_mul_pow2, !u8_small by lia. replace (t * 2 ^ 4) with (16 * t) by lia. constructor; lia.
  - rewrite !u8_small by lia. constructor; lia.
  - rewrite !u8_small by lia. constructor; lia.
Qed.

Lemma ledger_length n : 0 <= n <= 918744 -> exists l, addEncoded n = Val l /\ length_syntax n l.
Proof.
  intros Hn. unfold addEncoded. destruct (Z.leb_spec n 192); [|destruct (Z.leb_spec n 12480); [|destruct (Z.leb_spec n 918744); [|lia]]];
    eexists; (split; [reflexivity|]).
  - rewrite u8_small by lia. constructor. lia.
  - set (a := u8 _). set (b := u8 (Z.land _ _)). replace n with (193 + (a - 193) * 256 + b); [constructor|]; unfold a, b;
      bytes_arith; Z.to_euclidean_division_equations; lia.
  - set (a := u8 (241 + _)). set (b := u8 (Z.land (Z.shiftr _ _) _)). set (c := u8 (Z.land _ _)).
    replace n with (12481 + (a - 241) * 65536 + b * 256 + c); [constructor|]; unfold a, b, c;
      bytes_arith; Z.to_euclidean_division_equations; lia.
Qed.

(** ** Types *)

Lemma sized_spec t n : (t, n) ∈ sized_types <-> fixed_length t = Some n.
Proof.
  unfold sized_types, fixed_length. rewrite !elem_of_cons, elem_of_nil. split.
  - intros H. destruct_or! H; by simplify_eq.
  - intros H. repeat case_match; bool_prop; simplify_eq; tauto.
Qed.

Lemma blob_spec t : t ∈ blob_types <-> is_vl t = true.
Proof. unfold blob_types, is_vl. rewrite !elem_of_cons, elem_of_nil, !orb_true_iff, !Z.eqb_eq. tauto. Qed.

Lemma sized_not_blob t n : fixed_length t = Some n -> is_vl t = false /\ known_type t = true.
Proof. intros H%sized_spec. unfold sized_types in H. rewrite !elem_of_cons, elem_of_nil in H. by destruct_or! H; simplify_eq. Qed.

Lemma nested_spec t marker : (t, marker) ∈ nested_types -> t = 14 /\ marker = 0xE1 \/ t = 15 /\ marker = 0xF1.
Proof. unfold nested_types. rewrite !elem_of_cons, elem_of_nil. intros H. destruct_or! H; simplify_eq; auto. Qed.

(** The test for the end of an object or array. *)
Lemma marker_test t marker b :
  (t, marker) ∈ nested_types -> ((b =? 0xE1) && (t =? 0xE)) || ((b =? 0xF1) && (t =? 0xF)) = (b =? marker).
Proof.
  intros [[-> ->]|[-> ->]]%nested_spec; cbn; rewrite ?andb_true_r, ?andb_false_r, ?orb_false_r; done.
Qed.

Lemma amount_test b : (Z.shiftr b 6 =? 1) = bool_decide (64 <= b < 128).
Proof.
  rewrite Z.shiftr_div_pow2 by lia. case_bool_decide; [apply Z.eqb_eq|apply Z.eqb_neq]; Z.to_euclidean_division_equations; lia.
Qed.

Lemma field_size last depth t f bs : field_syntax last depth t f bs -> 2 <= vsize bs.
Proof.
  intros Hf. inversion Hf as [? ? ? ? h b Hh Hs|? ? ? ? h l b Hh _ Hl _|? ? ? h b r Hh Hv|? ? ? ? h mk m ms Hh]; subst;
    apply header_bytes in Hh as [_ Hh]; rewrite ?vsize_app.
  - apply sized_spec, fixed_length_range in Hs. lia.
  - apply length_bytes in Hl as (_ & Hl & _). pose proof (vsize_nonneg b). lia.
  - case_decide; lia.
  - pose proof (vsize_nonneg m). pose proof (vsize_nonneg (concat ms)). change (vsize [mk]) with 1. lia.
Qed.

(** ** Fields of the grammar are measured *)

(** [sub] measures [x] wherever it stands between [s] and [e] with a byte behind it. *)
Definition measures (mem : list Z) (s e : Z) (sub : Z -> sto_res sto_item) (x : list Z) : Prop :=
  forall p, s <= p -> holds mem p x -> p + vsize x < e -> exists it, sub p = Val it /\ it_length it = vsize x.

Lemma members_read sub mem s e t marker first ms : (t, marker) ∈ nested_types -> forall m rounds u,
  s <= u -> Forall (measures mem s e sub) (m :: ms) -> Forall (fun x => 2 <= vsize x) ms -> Forall (fun x => head x <> Some marker) ms ->
  (length ms < rounds)%nat -> holds mem u (m ++ concat ms ++ [marker]) -> u + vsize (m ++ concat ms ++ [marker]) <= e ->
  sto_members sub mem s e t first rounds u =
    Val (u + vsize (m ++ concat ms ++ [marker]) - s, u + vsize (m ++ concat ms) - s - first).
Proof.
  intros Ht. induction ms as [|x ms IH]; intros m rounds u Hu Hsub Hsize Hhead Hr Hh He.
  all: destruct rounds as [|rounds]; [cbn in Hr; lia|]; apply Forall_cons_1 in Hsub as [Hm Hsub].
  all: apply holds_app in Hh as [Hhm Hh]; rewrite vsize_app in He.
  - cbn [concat app] in *. apply holds_cons in Hh as [Hrd _]. change (vsize [marker]) with 1 in *.
    destruct (Hm u) as (it & E & El); [done|done|lia|]. cbn [sto_members]. rewrite E, El. unfold more.
    pose proof (vsize_nonneg m). tests. rewrite marker_test with (1 := Ht), Z.eqb_refl, app_nil_r, vsize_app.
    change (vsize [marker]) with 1. f_equal; f_equal; lia.
  - apply Forall_cons_1 in Hsize as [Hx Hsize]. apply Forall_cons_1 in Hhead as [Hne Hhead]. cbn [concat] in *.
    rewrite <- app_assoc in *. pose proof (vsize_nonneg m). pose proof (vsize_nonneg (concat ms)).
    rewrite !vsize_app in He. change (vsize [marker]) with 1 in He.
    destruct (Hm u) as (it & E & El); [done|done|lia|]. cbn [sto_members]. rewrite E, El. unfold more.
    destruct x as [|b x]; [by cbn in Hx|]. pose proof Hh as Hh'. cbn [app] in Hh'. apply holds_cons in Hh' as [Hrd _].
    tests. rewrite marker_test with (1 := Ht). destruct (Z.eqb_spec b marker) as [->|_]; [by cbn in Hne|].
    rewrite (IH (b :: x)); [|lia|done|done|done|cbn in Hr; lia|done|rewrite !vsize_app; change (vsize [marker]) with 1; lia].
    rewrite !vsize_app. f_equal; f_equal; lia.
Qed.

(** Behind a header the value is measured. *)
Lemma read_header depth mem s e t f h :
  header_syntax t f h -> holds mem s h -> s + vsize h < e -> known_type t = true ->
  get_stobject_length (S depth) mem s e =
    measure_payload (fun p => get_stobject_length depth mem p e) mem s e t f (s + vsize h).
Proof.
  intros Hh Hm He Hk. cbn [get_stobject_length]. rewrite (header_read mem s e t f h) by done. cbn [mbind res_bind].
  rewrite Hk. done.
Qed.

Lemma field_read depth : forall last t f bs mem s e,
  field_syntax last depth t f bs -> holds mem s bs -> region s e -> s + vsize bs < e \/ s + vsize bs = e /\ last = true ->
  exists first payload, get_stobject_length depth mem s e = Val (Sto.mkItem (vsize bs) t f first payload).
Proof.
  induction depth as [|depth IH]; intros last t f bs mem s e Hf Hh [Hs He] Hend; [inversion Hf|].
  inversion Hf as [? ? ? ? h b Hhd Hsz|? ? ? ? h l b Hhd Hb Hl Hne|? ? ? h b r Hhd Hv|? ? ? ? h mk m ms Hhd Ht Hn Hms Hmk]; subst;
    apply holds_app in Hh as [Hhh Hh]; pose proof (header_bytes _ _ _ Hhd) as [_ Hhs]; rewrite vsize_app in Hend.
  - apply sized_spec in Hsz. pose proof (fixed_length_range _ _ Hsz). destruct (sized_not_blob _ _ Hsz) as [Hbl Hk].
    rewrite (read_header depth mem s e t f h) by (done || lia). unfold measure_payload. rewrite Hbl, Hsz, item_exact by lia.
    rewrite vsize_app. do 2 eexists. do 2 f_equal. lia.
  - apply holds_app in Hh as [Hhl Hh]. pose proof (length_bytes _ _ Hl) as (_ & Hls & Hbs & _). rewrite vsize_app in Hend.
    assert (s + vsize h + vsize l < e).
    { destruct Hend as [|[? Hlast]]; [lia|]. specialize (Hne Hlast). destruct b; [done|]. rewrite vsize_cons in *. pose proof (vsize_nonneg b). lia. }
    apply blob_spec in Hb as Hvl. assert (known_type t = true) as Hk.
    { unfold blob_types in Hb. rewrite !elem_of_cons, elem_of_nil in Hb. by destruct_or! Hb; subst. }
    rewrite (read_header depth mem s e t f h) by (done || lia). unfold measure_payload. rewrite Hvl.
    rewrite (length_read _ _ _ _ _ Hl) by (done || lia). cbn [mbind res_bind]. rewrite item_exact by lia.
    rewrite !vsize_app. do 2 eexists. do 2 f_equal. lia.
  - apply holds_cons in Hh as [Hrd _].
    assert (vsize (b :: r) = (if Z.shiftr b 6 =? 1 then 8 else 48)) as Hsz.
    { rewrite Hv, amount_test. case_decide; [by rewrite bool_decide_true|by rewrite bool_decide_false]. }
    rewrite (read_header depth mem s e 6 f h); [|done|done|destruct (Z.shiftr b 6 =? 1); lia|done].
    unfold measure_payload, more. cbn [is_vl fixed_length Z.eqb Pos.eqb orb]. rewrite Hrd. cbn [mbind res_bind]. rewrite <- Hsz.
    rewrite (proj2 (Z.ltb_lt _ _)) by (destruct (Z.shiftr b 6 =? 1); lia). cbn [assert_or mbind res_bind]. rewrite vsize_app.
    rewrite item_exact by (destruct (Z.shiftr b 6 =? 1); lia). do 2 eexists. do 2 f_equal. lia.
  - pose proof (nested_spec _ _ Ht) as Hcase. pose proof (vsize_nonneg m). pose proof (vsize_nonneg (concat ms)).
    assert (vsize (m ++ concat ms ++ [mk]) = vsize m + vsize (concat ms) + 1) as Hsz by (by rewrite !vsize_app, Z.add_assoc).
    rewrite (read_header depth mem s e t f h) by (done || lia || by destruct Hcase as [[-> _]|[-> _]]).
    unfold measure_payload. replace (is_vl t) with false by (by destruct Hcase as [[-> _]|[-> _]]).
    replace (fixed_length t) with (@None Z) by (by destruct Hcase as [[-> _]|[-> _]]).
    replace (t =? 6) with false by (by destruct Hcase as [[-> _]|[-> _]]).
    replace ((t =? 15) || (t =? 14)) with true by (by destruct Hcase as [[-> _]|[-> _]]).
    rewrite (members_read _ mem s e t mk _ ms Ht m); try done; try lia.
    + cbn [mbind res_bind]. rewrite (vsize_app m (concat ms)), (vsize_app h), Hsz in *. rewrite item_exact by lia.
      do 2 eexists. do 2 f_equal. lia.
    + eapply Forall_impl; [|exact Hms]. intros x (t' & f' & Hx) p Hp Hhx Hpx.
      pose proof (field_size _ _ _ _ _ Hx). destruct (IH false t' f' x mem p e Hx Hhx) as (fi & pa & ->); [unfold region; lia|by left|].
      by eexists.
    + apply Forall_cons_1 in Hms as [_ Hms]. eapply Forall_impl; [|exact Hms]. intros x (t' & f' & Hx). by eapply field_size.
Qed.

(** ** What is measured is a field of the grammar *)

(** The region behind a member starts with a byte that is not the end marker. *)
Lemma members_written sub mem s e t marker first (P : list Z -> Prop) :
  (t, marker) ∈ nested_types ->
  (forall p it, s <= p -> 0 <= it_length it -> p + it_length it < e -> sub p = Val it -> 2 <= it_length it /\ P (sub_bytes mem p (it_length it))) ->
  0 <= s -> e <= vsize mem ->
  forall rounds u total payload, s <= u -> sto_members sub mem s e t first rounds u = Val (total, payload) ->
  exists m ms, sub_bytes mem u (s + total - u) = m ++ concat ms ++ [marker] /\ (length ms < rounds)%nat /\ Forall P (m :: ms) /\
    Forall (fun x => head x <> Some marker) ms /\ head m = mem !! Z.to_nat u.
Proof.
  intros Ht Hsub Hs He. induction rounds as [|rounds IH]; intros u total payload Hu E; cbn [sto_members] in E; [done|].
  destruct (sub u) as [it| |] eqn:Eit; [|done..]. unfold more in E. res_inv. bool_prop.
  destruct (Hsub u it Hu ltac:(lia) ltac:(lia) Eit) as [Hlen HP]. set (n := it_length it) in *. rename a1 into b.
  assert (head (sub_bytes mem u n) = mem !! Z.to_nat u) as Hhead.
  { replace u with (u + 0) at 2 by lia. rewrite <- (sub_bytes_lookup mem u n 0) by lia. by destruct (sub_bytes mem u n). }
  rewrite marker_test with (1 := Ht) in Hk. destruct (Z.eqb_spec b marker) as [->|Hne].
  - injection Hk as <- _. exists (sub_bytes mem u n), []. split; [|split; [cbn; lia|]].
    + rewrite (sub_bytes_split mem u _ n) by lia. cbn [concat app]. f_equal. by bytes_read.
    + split; [by constructor|]. by split; [constructor|].
  - pose proof (sto_members_spec _ _ _ _ _ _ _ _ _ _ Hk) as [Htot _].
    apply IH in Hk as (m & ms & Em & Hl & HPs & Hms & Hm); [|lia]. exists (sub_bytes mem u n), (m :: ms).
    split; [|split; [cbn; lia|split; [by constructor|split; [|done]]]].
    + rewrite (sub_bytes_split mem u _ n) by lia. cbn [concat]. rewrite <- (app_assoc m), <- Em. f_equal. f_equal. lia.
    + constructor; [|done]. rewrite Hm. apply rd_Val in Hb1 as [_ ->]. congruence.
Qed.

Lemma field_written depth : forall mem s e it,
  bytes_ok mem -> region s e -> e <= vsize mem -> get_stobject_length depth mem s e = Val it -> s + it_length it <= e ->
  field_syntax (s + it_length it =? e) depth (it_type it) (it_field it) (sub_bytes mem s (it_length it)).
Proof.
  induction depth as [|depth IH]; intros mem s e it Hm Hr He E Hfit; [done|].
  cbn [get_stobject_length] in E. apply bind_Val in E as ([[t f] u] & Eh & E). cbn beta iota in E.
  pose proof (stobject_header_end _ _ _ _ _ _ Eh) as [Hu Hue]. pose proof (header_written _ _ _ _ _ _ Hm Eh) as Hh.
  pose proof Hr as [Hs Hre]. apply bind_Val in E as ([] & Et & E).
  assert (s < u < e) as Hsu by lia. pose proof (measure_payload_ok _ _ _ _ _ _ _ _ Hm Hr Hsu E) as [Hok Hin].
  rewrite (sub_bytes_split mem s _ (u - s)) by lia. replace (s + (u - s)) with u by lia.
  unfold measure_payload, more in E. res_open.
  - destruct (vl_length_spec _ _ _ _ _ Hm Hb) as (Hlen & Hu2 & Hu2e & Hshort). rewrite item_exact in * by lia. cbn [it_length it_type it_field] in *.
    pose proof (length_written _ _ _ _ _ Hm Hb) as Hl. rewrite (sub_bytes_split mem u _ (z0 - u)) by lia.
    replace (u + (z0 - u)) with z0 by lia. replace (z + (z0 - s) - (u - s) - (z0 - u)) with z by lia.
    assert (vsize (sub_bytes mem z0 z) = z) as Hsz by (apply sub_bytes_length; lia).
    apply field_blob; [done|by apply blob_spec|by rewrite Hsz|]. intros Hend%Z.eqb_eq Hnil. rewrite Hnil in Hsz. change (vsize []) with 0 in Hsz. lia.
  - rewrite item_exact in * by (apply fixed_length_range in Hopt; lia). cbn [it_length it_type it_field] in *. replace (z + (u - s) - (u - s)) with z by lia.
    constructor; [done|]. apply sized_spec. rewrite sub_bytes_length; [done|lia|apply fixed_length_range in Hopt; lia|lia].
  - apply Z.eqb_eq in Hif0 as ->. set (n := if Z.shiftr a 6 =? 1 then 8 else 48) in *.
    assert (n = if decide (64 <= a < 128) then 8 else 48) as Hn.
    { unfold n. rewrite amount_test. case_decide; [by rewrite bool_decide_true|by rewrite bool_decide_false]. }
    assert (8 <= n <= 48) by (unfold n; destruct (_ =? 1); lia). rewrite item_exact in * by lia.
    cbn [it_length it_type it_field] in *. replace (n + (u - s) - (u - s)) with n by lia.
    assert (vsize (sub_bytes mem u n) = n) as Hsz by (apply sub_bytes_length; lia). rewrite (sub_bytes_rd mem u n a Hb) in * by lia.
    apply field_amount; [done|]. by rewrite Hsz.
  - pose proof (sto_members_spec _ _ _ _ _ _ _ _ _ _ Hb) as [Ht Hp]. rewrite item_exact in * by lia.
    cbn [it_length it_type it_field] in *.
    assert (exists marker, (t, marker) ∈ nested_types) as [mk Hmk].
    { apply orb_true_iff in Hif1 as [->%Z.eqb_eq| ->%Z.eqb_eq]; [exists 0xF1|exists 0xE1]; unfold nested_types;
        rewrite !elem_of_cons; tauto. }
    edestruct (members_written (fun p => get_stobject_length depth mem p e) mem s e t mk (u - s)
      (fun x => exists t' f', field_syntax false depth t' f' x)) as (m & ms & Em & Hl & Hall & Hheads & _);
      [done| |lia|done| |exact Hb|]; [|lia|].
    2: { replace (z - (u - s)) with (s + z - u) by lia. rewrite Em. by apply field_nested. }
    intros p it Hpu Hp0 Hpe Ep. assert (region p e) as Hrp by (unfold region; lia).
    pose proof (get_stobject_length_ok _ _ _ _ _ Hm Hrp Ep) as [Hlen _]. split; [lia|]. exists (it_type it), (it_field it).
    pose proof (IH mem p e it Hm Hrp He Ep ltac:(lia)) as Hf. by rewrite (proj2 (Z.eqb_neq _ _)) in Hf by lia.
Qed.

(** ** Objects *)

(** A field as the editing calls see it is one of the grammar, with its identifier. *)
Lemma field_ok_syntax last x :
  field_ok last x = true <->
  bytes_ok x.2 /\ vsize x.2 < 2 ^ 30 /\ exists t f, field_syntax last 11 t f x.2 /\ u32 (Z.shiftl t 16 + f) = x.1.
Proof.
  rewrite field_ok_spec. unfold measured. set (buf := x.2 ++ (if last then [] else [0])).
  assert (vsize buf = vsize x.2 + (if last then 0 else 1)) as Hbl by (unfold buf; rewrite vsize_app; by destruct last).
  assert (holds buf 0 x.2) as Hh.
  { split; [lia|]. split; [destruct last; lia|]. unfold buf, sub_bytes, vsize. rewrite Nat2Z.id. apply take_app_length. }
  split; intros (Hb & Hl & H); (split; [done|]); (split; [done|]).
  - destruct H as (it & Em & El & Ei). exists (it_type it), (it_field it). split; [|done].
    assert (bytes_ok buf) as Hbuf by (apply Forall_app; split; [done|]; destruct last; repeat constructor; lia).
    assert (0 < vsize buf) as Hpos.
    { destruct last; [|pose proof (vsize_nonneg x.2); lia]. destruct x.2; [done|]. rewrite vsize_cons in *. pose proof (vsize_nonneg l). lia. }
    pose proof (field_written 11 buf 0 (vsize buf) it Hbuf ltac:(unfold region; destruct last; lia) ltac:(lia) Em
      ltac:(destruct last; lia)) as Hf.
    rewrite El, (proj2 (proj2 Hh)) in Hf. replace (0 + vsize x.2 =? vsize buf) with last in Hf; [done|].
    symmetry. destruct last; [apply Z.eqb_eq|apply Z.eqb_neq]; lia.
  - destruct H as (t & f & Hf & Ei). pose proof (field_size _ _ _ _ _ Hf).
    destruct (field_read 11 last t f x.2 buf 0 (vsize buf) Hf Hh) as (fi & pa & E); [unfold region; destruct last; lia..|].
    rewrite Hbl in E. eexists. by rewrite Hbl.
Qed.

Lemma object_ok_syntax o : object_ok o = true -> object_syntax o.*2.
Proof.
  induction o as [|x o IH]; [done|]. intros [(last & Hx & Hlast) Ho]%object_ok_cons. cbn. split; [|by apply IH].
  apply field_ok_syntax in Hx as (_ & _ & t & f & Hf & _). exists t, f. replace (bool_decide (o.*2 = [])) with last; [done|].
  destruct last, o; cbn; intuition congruence.
Qed.

Lemma object_syntax_ok fs :
  object_syntax fs -> bytes_ok (concat fs) -> vsize (concat fs) < 2 ^ 30 -> exists o, object_ok o = true /\ o.*2 = fs.
Proof.
  induction fs as [|bs fs IH]; cbn [object_syntax concat]; intros Ho Hb Hl; [by exists []|].
  destruct Ho as [(t & f & Hf) Ho]. apply Forall_app in Hb as [Hb1 Hb2]. rewrite vsize_app in Hl.
  pose proof (vsize_nonneg bs). pose proof (vsize_nonneg (concat fs)). destruct (IH Ho Hb2 ltac:(lia)) as (o & Hok & <-).
  exists ((u32 (Z.shiftl t 16 + f), bs) :: o). split; [|done]. cbn [object_ok]. rewrite Hok, andb_true_r.
  replace (match o with [] => true | _ => false end) with (bool_decide (o.*2 = [])) by (by destruct o).
  apply field_ok_syntax. split; [done|]. split; [cbn; lia|]. by exists t, f.
Qed.

(** The bytes at [ptr] are at most 1024 fields of the grammar. *)
Definition object_at_syntax (mem : list Z) (ptr len : Z) : Prop :=
  exists fs, object_syntax fs /\ (length fs <= 1024)%nat /\ concat fs = sub_bytes mem ptr len.

(** C38: [sto_validate] decides the grammar.  For every memory and every pair of 32-bit
    arguments with a length below a gigabyte it returns and changes nothing: the code
    OUT_OF_BOUNDS if the bytes are not all in the memory, TOO_SMALL for fewer than two,
    and else 1 if the bytes are at most 1024 fields of [field_syntax], nested at most
    eleven deep, and 0 if they are not. *)
Theorem sto_validate_correct mem ptr len :
  bytes_ok mem -> vsize mem < 2 ^ 32 -> u32_arg ptr -> u32_arg len -> len < 2 ^ 30 ->
  exists code, sto_validate ptr len mem = Ret mem code /\
    if decide (vsize mem < ptr + len) then code = OUT_OF_BOUNDS
    else if decide (len < 2) then code = TOO_SMALL
    else code = 1 /\ object_at_syntax mem ptr len \/ code = 0 /\ ~ object_at_syntax mem ptr len.
Proof.
  intros Hm Hsz Hp Hn Hl. unfold u32_arg in *. case_decide as Hin; [|case_decide as Hsmall].
  - exists OUT_OF_BOUNDS. split; [|done]. unfold sto_validate, check_bounds, mbind, api_bind, memory_length. cbn [get_mem mem_only].
    destruct (NOT_IN_BOUNDS ptr len _) eqn:E; [done|]. apply NOT_IN_BOUNDS_false in E; [lia|done..].
  - exists TOO_SMALL. split; [|done]. unfold sto_validate. rewrite run_check_bounds by (cbn [get_mem mem_only]; lia).
    by rewrite (proj2 (Z.ltb_lt len 2)).
  - destruct (sto_validate_measured mem ptr len Hm) as [Hiff Hcode]; [unfold readable; lia|done|].
    assert (object_at_syntax mem ptr len <-> sto_validate ptr len mem = Ret mem 1) as Hgr.
    { rewrite Hiff. split.
      - intros (fs & Ho & Hle & E). destruct (object_syntax_ok fs Ho) as (o & Hok & <-).
        + rewrite E. by apply sub_bytes_ok.
        + rewrite E, sub_bytes_length; lia.
        + exists o. split; [done|]. by rewrite length_fmap in Hle.
      - intros (o & Hok & Hle & E). exists o.*2. split; [by apply object_ok_syntax|]. by rewrite length_fmap. }
    destruct Hcode as [E|E]; [exists 1; tauto|]. exists 0. split; [done|]. right. split; [done|]. rewrite Hgr, E. by intros [=].
Qed.

(** ** Samples *)

(** A sequence number and an array with one memo. *)
Definition memo_object : list Z := [0x24; 0; 0; 0; 1; 0xF9; 0xEA; 0x7D; 2; 65; 66; 0xE1; 0xF1].

Lemma sto_validate_correct_witness :
  exists code, sto_validate 0 13 memo_object = Ret memo_object code /\ code = 1 /\ object_at_syntax memo_object 0 13.
Proof.
  destruct (sto_validate_correct memo_object 0 13) as (code & E & H).
  - repeat constructor; lia.
  - vm_compute. congruence.
  - unfold u32_arg. lia.
  - unfold u32_arg. lia.
  - lia.
  - exists code. split; [exact E|]. vm_compute in E. injection E as <-.
    destruct (decide (vsize memo_object < 0 + 13)) as [Hd|_]; [vm_compute in Hd; discriminate Hd|].
    destruct (decide (13 < 2)) as [Hd|_]; [vm_compute in Hd; discriminate Hd|]. destruct H as [H|[H _]]; [exact H|discriminate H].
Defined.
