(* ===== verification/Slots.v ===== *)
(** * Slots: ledger objects in the hands of a hook ([app/hook/impl/applyHook.cpp])

    A hook loads objects into numbered slots, takes fields and array elements of them
    into further slots, and copies what a slot holds into its memory.  An object is a
    tree ([STBase]); a slot keeps the object it was loaded from alive and points at
    a part of it.

    The theorems: whatever a hook does, every slot points into its object, slots are
    numbered 1 to 255, a hook that has a slot left gets one, and every call returns but
    the one that asks for zero drops as a float; and the slot taken
    from a field holds that field, every other slot being as before. *)

From stdpp Require Import base numbers list option gmap sorting relations fin_sets.
From Stdlib Require Import ZArith Lia.
From S2P Require Import Prelude ShaMapNode Serializer Enum Leb128 Double Xfl IouAmount StAmount Runtime FloatApi Context.

Local Open Scope Z_scope.

(** ** Serialised types ([protocol/STBase.h] and its subclasses) *)

(** An object, an array of objects, an amount, or any other value, given by its type
    and its serialised form; each with the code of its field. *)
Inductive STBase :=
| STObject (fieldCode : Z) (fields : list STBase)
| STArray (fieldCode : Z) (v_ : list STBase)
| STAmt (fieldCode : Z) (amount : STAmount)
| STLeaf (fieldCode sType : Z) (data : Blob).

Definition STI_AMOUNT : Z := 6.
Definition STI_ACCOUNT : Z := 8.
Definition STI_OBJECT : Z := 14.
Definition STI_ARRAY : Z := 15.

Definition getFName (b : STBase) : Z :=
  match b with STObject f _ | STArray f _ | STAmt f _ | STLeaf f _ _ => f end.

Definition getSType (b : STBase) : Z :=
  match b with STObject _ _ => STI_OBJECT | STArray _ _ => STI_ARRAY | STAmt _ _ => STI_AMOUNT | STLeaf _ t _ => t end.

(** A field code is [(type << 16) | name]. *)
Definition field_id (code : Z) : list Z := addFieldID (Z.shiftr code 16) (Z.land code 0xFFFF).

Definition amount_bytes (a : STAmount) : list Z :=
  if mIsNative a then to_bytes 8 (if mIsNegative a then mValue a else Z.lor (mValue a) cPosNative)
  else
    to_bytes 8 (if mValue a =? 0 then cNotNative
                else Z.lor (mValue a)
                       (u64 (Z.shiftl (mOffset a + 512 + (if mIsNegative a then 0 else 256) + 97) 54)))
    ++ to_bytes 20 (currency (mIssue a)) ++ to_bytes 20 (issuer (mIssue a)).

(** The fields of an object in the order of their codes. *)
Definition code_le (x y : Z * list Z) : Prop := x.1 <= y.1.
#[export] Instance code_le_dec : RelDecision code_le.
Proof. intros x y. unfold code_le. apply _. Defined.

(** [add]: the value without its header.  The end of an inner object or array is
    marked with its type and name 1. *)
Fixpoint add (b : STBase) : list Z :=
  match b with
  | STObject _ fields =>
    let whole f := field_id (getFName f) ++ add f ++
      (if (getSType f =? STI_ARRAY) || (getSType f =? STI_OBJECT) then addFieldID (getSType f) 1 else []) in
    concat (snd <$> merge_sort code_le (map (fun f => (getFName f, whole f)) fields))
  | STArray _ v_ => flat_map (fun o => field_id (getFName o) ++ add o ++ addFieldID STI_OBJECT 1) v_
  | STAmt _ a => amount_bytes a
  | STLeaf _ _ data => data
  end.

(** ** The slots of a hook context *)

(** [entry] points into [storage]; null only while an entry is set up. *)
Record SlotEntry := mkSlot { storage : STBase; entry : option STBase }.

Record SlotContext := mkSlots {
  slot_memory : list Z;
  slots_ : gmap Z SlotEntry;
  slot_free : list Z;
  slot_counter : Z
}.

Definition set_slots (m : gmap Z SlotEntry) (s : SlotContext) : SlotContext :=
  mkSlots (slot_memory s) m (slot_free s) (slot_counter s).

#[export] Instance slot_mem : HasMem SlotContext.
Proof.
  by refine {| get_mem := slot_memory; set_mem m s := mkSlots m (slots_ s) (slot_free s) (slot_counter s) |}.
Defined.

(** What the slots are filled from: ledger entries by type and key (and the next key
    in a range), transactions by hash, the originating transaction (or the entry of a
    failed emission), provisional metadata; and which field codes exist. *)
Class SlotHost := {
  read_sle : Z -> uint256 -> option STBase;
  view_succ : uint256 -> uint256 -> option uint256;
  fetch_tx : uint256 -> option STBase;
  otxn_object : STBase;
  provisionalMeta : option STBase;
  known_field : Z -> bool
}.

(** The subtraction is one of unsigned 64-bit numbers. *)
Definition no_free_slots (s : SlotContext) : bool := u64 (max_slots - Z.of_nat (size (slots_ s))) <=? 0.

(** The loop of [get_free_slot]; it ends at the latest with counter 256. *)
Fixpoint next_slot (fuel : nat) (m : gmap Z SlotEntry) (counter : Z) : option Z :=
  match fuel with
  | O => None
  | S fuel =>
    let counter := u32 (counter + 1) in
    if bool_decide (is_Some (m !! counter)) && (counter <=? max_slots) then next_slot fuel m counter else Some counter
  end.

Definition get_free_slot : api SlotContext Z := fun s =>
  match slot_free s with
  | n :: free => Next (mkSlots (slot_memory s) (slots_ s) free (slot_counter s)) n
  | [] =>
    match next_slot 257 (slots_ s) (slot_counter s) with
    | Some n => Next (mkSlots (slot_memory s) (slots_ s) [] n) n
    | None => Stuck
    end
  end.

Definition choose_slot (slot_into : Z) : api SlotContext Z := if slot_into =? 0 then get_free_slot else mret slot_into.

(** [slot[n] = e] *)
Definition assign_slot (n : Z) (e : SlotEntry) : api SlotContext unit := modify (fun s => set_slots (<[n := e]> (slots_ s)) s).
(** [slot.emplace(n, e)] keeps an entry that is there. *)
Definition emplace_slot (n : Z) (e : SlotEntry) : api SlotContext unit := modify (fun s =>
  match slots_ s !! n with Some _ => s | None => set_slots (<[n := e]> (slots_ s)) s end).
(** [slot[n].entry = &( *slot[n].storage)] *)
Definition point_at_storage (n : Z) : api SlotContext unit := modify (fun s =>
  set_slots (alter (fun e => mkSlot (storage e) (Some (storage e))) n (slots_ s)) s).

Definition find_slot (slot_no : Z) : api SlotContext SlotEntry := fun s =>
  match slots_ s !! slot_no with None => Ret s DOESNT_EXIST | Some e => Next s e end.
(** A pointer that is used without a test. *)
Definition deref (e : SlotEntry) : api SlotContext STBase := match entry e with Some b => mret b | None => stuck end.
Definition not_null (e : SlotEntry) : api SlotContext STBase :=
  match entry e with Some b => mret b | None => return_code INTERNAL_ERROR end.

(** ** The API *)

Section api.
Context `{SlotHost}.

(** A serialised value handed to the hook: as the result if there is no buffer; an
    account without its length byte. *)
Definition give_value (write_ptr write_len : Z) (b : STBase) : api SlotContext Z :=
  let data := add b in
  if write_ptr =? 0 then return_code (data_as_int64 data)
  else
    let skip := if getSType b =? STI_ACCOUNT then 1 else 0 in
    _ ← return_if (write_len <? vsize data - skip) TOO_SMALL;
    WRITE_WASM_MEMORY_AND_RETURN write_ptr write_len (drop (Z.to_nat skip) data).

Definition slot (write_ptr write_len slot_no : Z) : api SlotContext Z :=
  _ ← (if write_ptr =? 0 then return_if (negb (write_len =? 0)) INVALID_ARGUMENT
       else _ ← check_bounds write_ptr write_len; return_if (write_len <? 1) TOO_SMALL);
  e ← find_slot slot_no;
  b ← not_null e;
  give_value write_ptr write_len b.

Definition slot_clear (slot_no : Z) : api SlotContext Z :=
  _ ← find_slot slot_no;
  _ ← modify (fun s => mkSlots (slot_memory s) (delete slot_no (slots_ s)) (slot_free s ++ [slot_no]) (slot_counter s));
  return_code 1.

Definition slot_count (slot_no : Z) : api SlotContext Z :=
  e ← find_slot slot_no;
  b ← deref e;
  match b with
  | STArray _ v_ => return_code (Z.of_nat (length v_))
  | _ => return_code NOT_AN_ARRAY
  end.

Definition slot_set (read_ptr read_len slot_into : Z) : api SlotContext Z :=
  _ ← check_bounds read_ptr read_len;
  _ ← return_if ((negb (read_len =? 32) && negb (read_len =? 34)) || (max_slots <? slot_into)) INVALID_ARGUMENT;
  s ← get_state;
  _ ← return_if ((slot_into =? 0) && no_free_slots s) NO_FREE_SLOTS;
  slot_key ← mem_bytes read_ptr read_len;
  let slot_value :=
    if read_len =? 34 then
      match unserialize_keylet slot_key with
      | None => None
      | Some kl => let key := of_bytes (kl_key kl) in if key =? 0 then None else read_sle (kl_type kl) key
      end
    else fetch_tx (of_bytes slot_key) in
  match slot_value with
  | None => return_code DOESNT_EXIST
  | Some value =>
    slot_into ← choose_slot slot_into;
    _ ← assign_slot slot_into (mkSlot value None);
    _ ← point_at_storage slot_into;
    return_code slot_into
  end.

(** The next entry of the ledger between two keylets of one type. *)
Definition ledger_keylet (write_ptr write_len lread_ptr lread_len hread_ptr hread_len : Z) : api SlotContext Z :=
  _ ← check_bounds write_ptr write_len;
  _ ← check_bounds lread_ptr lread_len;
  _ ← check_bounds hread_ptr hread_len;
  _ ← return_if ((lread_len <? 34) || (hread_len <? 34) || (write_len <? 34)) TOO_SMALL;
  _ ← return_if ((34 <? lread_len) || (34 <? hread_len) || (34 <? write_len)) TOO_BIG;
  lo ← mem_bytes lread_ptr lread_len;
  hi ← mem_bytes hread_ptr hread_len;
  match unserialize_keylet lo, unserialize_keylet hi with
  | Some klLo, Some klHi =>
    _ ← return_if (negb (kl_type klLo =? kl_type klHi)) DOES_NOT_MATCH;
    match view_succ (of_bytes (kl_key klLo)) ((of_bytes (kl_key klHi) + 1) mod 2 ^ 256) with
    | None => return_code DOESNT_EXIST
    | Some found => serialize_keylet (mkKeylet (kl_type klLo) (to_bytes 32 found)) write_ptr write_len
    end
  | _, _ => return_code INVALID_ARGUMENT
  end.

(** The common part of [otxn_slot] and [meta_slot]. *)
Definition slot_object (object : STBase) (slot_into : Z) : api SlotContext Z :=
  _ ← return_if (max_slots <? slot_into) INVALID_ARGUMENT;
  s ← get_state;
  _ ← return_if ((slot_into =? 0) && no_free_slots s) NO_FREE_SLOTS;
  slot_into ← choose_slot slot_into;
  _ ← emplace_slot slot_into (mkSlot object None);
  _ ← point_at_storage slot_into;
  return_code slot_into.

Definition otxn_slot (slot_into : Z) : api SlotContext Z := slot_object otxn_object slot_into.

Definition meta_slot (slot_into : Z) : api SlotContext Z :=
  match provisionalMeta with
  | None => return_code PREREQUISITE_NOT_MET
  | Some meta => slot_object meta slot_into
  end.

Definition slot_size (slot_no : Z) : api SlotContext Z :=
  e ← find_slot slot_no; b ← deref e; return_code (vsize (add b)).

(** A part of the object in slot [parent] goes into a slot, which may be [parent] itself. *)
Definition slot_part (parent : SlotEntry) (part : STBase) (new_slot : Z) : api SlotContext Z :=
  new_slot ← choose_slot new_slot;
  _ ← assign_slot new_slot (mkSlot (storage parent) (Some part));
  return_code new_slot.

Definition slot_subarray (parent_slot array_id new_slot : Z) : api SlotContext Z :=
  e ← find_slot parent_slot;
  b ← deref e;
  match b with
  | STArray _ v_ =>
    s ← get_state;
    _ ← return_if ((new_slot =? 0) && no_free_slots s) NO_FREE_SLOTS;
    _ ← return_if (max_slots <? new_slot) INVALID_ARGUMENT;
    match v_ !! Z.to_nat array_id with
    | None => return_code DOESNT_EXIST
    | Some part => slot_part e part new_slot
    end
  | _ => return_code NOT_AN_ARRAY
  end.

(** [isFieldPresent] and [getField]. *)
Definition getField (code : Z) (fields : list STBase) : option STBase := find (fun f => getFName f =? code) fields.

Definition slot_subfield (parent_slot field_id new_slot : Z) : api SlotContext Z :=
  e ← find_slot parent_slot;
  s ← get_state;
  _ ← return_if ((new_slot =? 0) && no_free_slots s) NO_FREE_SLOTS;
  _ ← return_if (max_slots <? new_slot) INVALID_ARGUMENT;
  _ ← return_if (negb (known_field field_id)) INVALID_FIELD;
  b ← deref e;
  match b with
  | STObject _ fields =>
    match getField field_id fields with
    | None => return_code DOESNT_EXIST
    | Some part => slot_part e part new_slot
    end
  | _ => return_code NOT_AN_OBJECT
  end.

Definition slot_type (slot_no flags : Z) : api SlotContext Z :=
  e ← find_slot slot_no;
  b ← not_null e;
  if flags =? 0 then return_code (getFName b)
  else if flags =? 1 then
    match b with STAmt _ a => return_code (if mIsNative a then 1 else 0) | _ => return_code NOT_AN_AMOUNT end
  else return_code INVALID_ARGUMENT.

Definition slot_float {L : Log10} (slot_no : Z) : api SlotContext Z :=
  e ← find_slot slot_no;
  b ← deref e;
  match b with
  | STAmt _ a =>
    let value := if mIsNegative a then - i64 (mValue a) else i64 (mValue a) in
    if mIsNative a then r ← lift (normalized true value (-6) false); return_code r
    else amt ← lift (normalize (mkIOU value (mOffset a))); r ← lift (make_float_iou amt); return_code r
  | _ => return_code NOT_AN_AMOUNT
  end.

(** The fields of the originating transaction; a field the transaction has but the
    entry of the failed emission lacks throws. *)
Definition otxn_field (tx_fields : list STBase) (emitFailure : option (list STBase)) (write_ptr write_len field_id : Z)
    : api SlotContext Z :=
  _ ← (if write_ptr =? 0 then return_if (negb (write_len =? 0)) INVALID_ARGUMENT else check_bounds write_ptr write_len);
  _ ← return_if (negb (known_field field_id)) INVALID_FIELD;
  match getField field_id tx_fields with
  | None => return_code DOESNT_EXIST
  | Some field =>
    match emitFailure with
    | None => give_value write_ptr write_len field
    | Some fields =>
      match getField field_id fields with None => stuck | Some field => give_value write_ptr write_len field end
    end
  end.
End api.

(** ** Well-formed slots *)

Definition children (b : STBase) : list STBase := match b with STObject _ l | STArray _ l => l | _ => [] end.

(** A part of an object, at any depth. *)
Definition part_of (whole part : STBase) : Prop := rtc (fun x y => y ∈ children x) whole part.

Definition entry_ok (e : SlotEntry) : Prop := exists b, entry e = Some b /\ part_of (storage e) b.

(** Slots are numbered 1 to 255 and point into their objects; every number the counter
    has passed is in use or in the queue of free ones. *)
Record slots_ok (s : SlotContext) : Prop := {
  so_entry n e : slots_ s !! n = Some e -> 1 <= n <= max_slots /\ entry_ok e;
  so_free n : n ∈ slot_free s -> 1 <= n <= max_slots;
  so_counter : 0 <= slot_counter s <= max_slots;
  so_passed n : 1 <= n <= slot_counter s -> is_Some (slots_ s !! n) \/ n ∈ slot_free s
}.

Lemma next_slot_spec fuel m c :
  0 <= c -> (exists k, c < k <= max_slots /\ m !! k = None) -> max_slots - c < Z.of_nat fuel ->
  exists n, next_slot fuel m c = Some n /\ c < n <= max_slots /\ m !! n = None /\ forall j, c < j < n -> is_Some (m !! j).
Proof.
  unfold max_slots. revert c. induction fuel as [|fuel IH]; intros c Hc (k & Hk & Ek) Hf; [lia|]. cbn [next_slot].
  unfold max_slots. rewrite u32_small by lia. case_bool_decide as Hin; cbn [andb].
  - rewrite (proj2 (Z.leb_le _ _)) by lia. destruct (IH (c + 1)) as (n & E & Hn & En & Hj); [lia| |lia|].
    + exists k. split; [|done]. destruct (decide (k = c + 1)) as [->|]; [|lia]. rewrite Ek in Hin. by destruct Hin.
    + exists n. split; [done|]. split; [lia|]. split; [done|]. intros j Hj'. destruct (decide (j = c + 1)) as [->|]; [done|].
      apply Hj. lia.
  - exists (c + 1). split; [done|]. split; [lia|]. split; [by apply eq_None_not_Some|]. lia.
Qed.

(** With fewer than 255 slots in use some number is free. *)
Lemma unused_slot (m : gmap Z SlotEntry) :
  (size m < 255)%nat -> exists k, 1 <= k <= max_slots /\ m !! k = None.
Proof.
  intros Hsize. unfold max_slots. destruct (decide (Forall (fun k => is_Some (m !! k)) (seqZ 1 255))) as [Hall|Hn].
  - exfalso. assert (seqZ 1 255 ⊆+ (map_to_list m).*1) as Hsub%submseteq_length.
    { apply NoDup_submseteq; [apply NoDup_seqZ|]. intros k Hk. rewrite Forall_forall in Hall. destruct (Hall k Hk) as [e He].
      apply list_elem_of_fmap. exists (k, e). split; [done|]. by apply elem_of_map_to_list. }
    rewrite length_fmap, length_map_to_list, length_seqZ in Hsub. lia.
  - apply not_Forall_Exists, Exists_exists in Hn as (k & Hk%elem_of_seqZ & Hnone); [|apply _].
    exists k. split; [lia|]. by apply eq_None_not_Some.
Qed.

Lemma slots_bounded s : slots_ok s -> (size (slots_ s) <= 255)%nat.
Proof.
  intros Hok. transitivity (length (seqZ 1 255)); [|by rewrite length_seqZ].
  rewrite <- length_map_to_list, <- (length_fmap fst). apply submseteq_length, NoDup_submseteq.
  - apply NoDup_fst_map_to_list.
  - intros k ([n e] & -> & Hin%elem_of_map_to_list)%list_elem_of_fmap. apply elem_of_seqZ.
    destruct (so_entry _ Hok n e Hin) as [Hn _]. unfold max_slots in Hn. cbn. lia.
Qed.

Lemma no_free_slots_spec s : slots_ok s -> no_free_slots s = true <-> size (slots_ s) = 255%nat.
Proof.
  intros Hok%slots_bounded. unfold no_free_slots, max_slots. rewrite u64_small by lia. rewrite Z.leb_le. lia.
Qed.

(** The state after a slot was chosen: its number may be in use or not. *)
Record chosen (s : SlotContext) (n : Z) (s' : SlotContext) : Prop := {
  ch_range : 1 <= n <= max_slots;
  ch_same : slots_ s' = slots_ s /\ slot_memory s' = slot_memory s;
  ch_free k : k ∈ slot_free s' -> k ∈ slot_free s;
  ch_counter : 0 <= slot_counter s' <= max_slots;
  ch_passed k : 1 <= k <= slot_counter s' -> k = n \/ is_Some (slots_ s !! k) \/ k ∈ slot_free s'
}.

Lemma get_free_slot_spec s :
  slots_ok s -> no_free_slots s = false -> exists n s', get_free_slot s = Next s' n /\ chosen s n s'.
Proof.
  intros Hok Hfree. pose proof (slots_bounded s Hok) as Hb.
  assert ((size (slots_ s) < 255)%nat) as Hsize.
  { destruct (decide (size (slots_ s) = 255%nat)) as [E%no_free_slots_spec|]; [congruence|done|lia]. }
  unfold get_free_slot. destruct (slot_free s) as [|n free] eqn:Ef.
  - assert (forall k, 1 <= k <= slot_counter s -> is_Some (slots_ s !! k)) as Hused.
    { intros k Hk. destruct (so_passed _ Hok k Hk) as [?|Hin]; [done|]. rewrite Ef in Hin. by apply not_elem_of_nil in Hin. }
    destruct (unused_slot (slots_ s) Hsize) as (k & Hk & Ek). pose proof (so_counter _ Hok).
    destruct (next_slot_spec 257 (slots_ s) (slot_counter s)) as (n & -> & Hn & En & Hj);
      [lia| |unfold max_slots; lia|].
    { exists k. split; [|done]. split; [|lia]. destruct (Z.lt_ge_cases (slot_counter s) k) as [|Hle]; [done|].
      destruct (Hused k) as [e He]; [lia|congruence]. }
    do 2 eexists. split; [done|]. split; cbn; [lia|done|by intros ? ?%not_elem_of_nil|lia|].
    intros j Hj'. destruct (decide (j = n)) as [->|]; [by left|right; left].
    destruct (Z.lt_ge_cases (slot_counter s) j); [apply Hj; lia|apply Hused; lia].
  - do 2 eexists. split; [done|]. split; cbn.
    + apply (so_free _ Hok). rewrite Ef. by left.
    + done.
    + intros k Hk. rewrite Ef. by right.
    + apply (so_counter _ Hok).
    + intros k Hk. destruct (so_passed _ Hok k Hk) as [?|Hin]; [tauto|]. rewrite Ef in Hin. apply elem_of_cons in Hin. tauto.
Qed.

Lemma choose_slot_spec s into :
  slots_ok s -> 0 <= into <= max_slots -> (into = 0 -> no_free_slots s = false) ->
  exists n s', choose_slot into s = Next s' n /\ chosen s n s' /\ (into <> 0 -> n = into).
Proof.
  intros Hok Hinto Hfree. unfold choose_slot. destruct (Z.eqb_spec into 0) as [->|Hne].
  - destruct (get_free_slot_spec s Hok (Hfree eq_refl)) as (n & s' & E & Hc). by exists n, s'.
  - exists into, s. split; [done|]. split; [|done]. destruct Hok as [? ? ? Hp]. split; try done; [lia|].
    intros k Hk. right. by apply Hp.
Qed.

Lemma chosen_assign s n s' e : slots_ok s -> chosen s n s' -> entry_ok e -> slots_ok (set_slots (<[n := e]> (slots_ s')) s').
Proof.
  intros Hok [Hr [Es _] Hf Hc Hp] He. split; cbn; rewrite ?Es.
  - intros k d [[<- <-]|[_ Hk]]%lookup_insert_Some; [done|]. by apply (so_entry _ Hok).
  - intros k Hk. apply (so_free _ Hok), Hf, Hk.
  - done.
  - intros k Hk. destruct (decide (n = k)) as [<-|Hne]; [left; rewrite lookup_insert_eq; eauto|].
    rewrite lookup_insert_ne by done. destruct (Hp k Hk) as [->|?]; [done|done].
Qed.

(** ** Every call returns *)

(** The call returns a number and leaves the slots well-formed. *)
Definition returns_ok (o : outcome SlotContext Z) : Prop := exists s code, o = Ret s code /\ slots_ok s.

Lemma run_assoc {S A B C} (c : api S A) (f : A -> api S B) (g : B -> api S C) s :
  ((c ≫= f) ≫= g) s = (c ≫= fun a => f a ≫= g) s.
Proof. unfold mbind, api_bind. by destruct (c s). Qed.

Lemma ok_return (code : Z) s : slots_ok s -> returns_ok ((return_code code : api SlotContext Z) s).
Proof. by eexists _, _. Qed.

Lemma ok_return_if b (code : Z) (k : unit -> api SlotContext Z) s :
  slots_ok s -> (b = false -> returns_ok (k tt s)) -> returns_ok ((return_if b code ≫= k) s).
Proof. intros Hs Hk. destruct b; [by eexists _, _|]. by apply Hk. Qed.

Lemma ok_check_bounds p n (k : unit -> api SlotContext Z) s :
  slots_ok s -> 0 <= p < 2 ^ 32 -> 0 <= n < 2 ^ 32 -> (p + n <= vsize (slot_memory s) -> returns_ok (k tt s)) ->
  returns_ok ((check_bounds p n ≫= k) s).
Proof.
  intros Hs Hp Hn Hk. destruct (Z.le_gt_cases (p + n) (vsize (slot_memory s))) as [Hle|Hgt].
  - rewrite run_check_bounds by done. auto.
  - exists s, OUT_OF_BOUNDS. split; [|done]. unfold check_bounds, mbind, api_bind, memory_length. cbn [get_mem slot_mem].
    destruct (NOT_IN_BOUNDS p n _) eqn:E; [done|]. apply NOT_IN_BOUNDS_false in E; [lia|done..].
Qed.

Lemma ok_find n (k : SlotEntry -> api SlotContext Z) s :
  slots_ok s -> (forall e, slots_ s !! n = Some e -> entry_ok e -> returns_ok (k e s)) -> returns_ok ((find_slot n ≫= k) s).
Proof.
  intros Hs Hk. unfold find_slot, mbind, api_bind. destruct (slots_ s !! n) as [e|] eqn:E; [|by eexists _, _].
  apply Hk; [done|]. by apply (so_entry _ Hs n).
Qed.

Lemma ok_deref e (k : STBase -> api SlotContext Z) s :
  entry_ok e -> (forall b, part_of (storage e) b -> returns_ok (k b s)) ->
  returns_ok ((deref e ≫= k) s) /\ returns_ok ((not_null e ≫= k) s).
Proof. intros (b & E & Hp) Hk. unfold deref, not_null. rewrite E. split; by apply Hk. Qed.

Lemma ok_choose into s (k : Z -> api SlotContext Z) :
  slots_ok s -> 0 <= into <= max_slots -> (into = 0 -> no_free_slots s = false) ->
  (forall n s', chosen s n s' -> returns_ok (k n s')) -> returns_ok ((choose_slot into ≫= k) s).
Proof.
  intros Hs Hi Hf Hk. destruct (choose_slot_spec s into Hs Hi Hf) as (n & s' & E & Hc & _). erewrite run_bind by done. by apply Hk.
Qed.

Lemma ok_give wp wl b s :
  slots_ok s -> 0 <= wp < 2 ^ 32 -> 0 <= wl < 2 ^ 32 -> (wp <> 0 -> wp + wl <= vsize (slot_memory s)) ->
  returns_ok (give_value wp wl b s).
Proof.
  intros Hs Hwp Hwl Hb. unfold give_value. destruct (Z.eqb_spec wp 0) as [->|Hne]; [by apply ok_return|].
  apply ok_return_if; [done|]. intros Hle%Z.ltb_ge. unfold WRITE_WASM_MEMORY_AND_RETURN.
  set (bs := drop _ (add b)). assert (vsize bs <= wl) as Hbs.
  { unfold bs. unfold vsize in *. rewrite length_drop. destruct (getSType b =? STI_ACCOUNT); lia. }
  specialize (Hb Hne). rewrite run_WRITE by (cbn [get_mem slot_mem]; lia). eexists _, _. split; [done|]. by destruct Hs; split.
Qed.

(** ** The amounts in the slots *)

(** An amount as the ledger's constructors leave it: drops below [2^63], or an issued
    amount in canonical form. *)
Definition amount_ok (a : STAmount) : Prop := if mIsNative a then 0 <= mValue a < 2 ^ 63 else issued a.

Definition amounts_ok (b : STBase) : Prop := forall f a, part_of b (STAmt f a) -> amount_ok a.

Definition slot_amounts_ok (s : SlotContext) : Prop := forall n e, slots_ s !! n = Some e -> amounts_ok (storage e).

(** The objects the slots are filled from have such amounts. *)
Record host_amounts_ok `{SlotHost} : Prop := {
  ha_sle t k b : read_sle t k = Some b -> amounts_ok b;
  ha_tx h b : fetch_tx h = Some b -> amounts_ok b;
  ha_otxn : amounts_ok otxn_object;
  ha_meta b : provisionalMeta = Some b -> amounts_ok b
}.

(** [c] keeps the amounts in order, and what it gives has [Q]. *)
Definition keeps {A} (Q : A -> Prop) (c : api SlotContext A) : Prop := forall s, slot_amounts_ok s ->
  match c s with Next s' a => slot_amounts_ok s' /\ Q a | Ret s' _ => slot_amounts_ok s' | Stuck => True end.

Lemma keeps_bind {A B} (P : A -> Prop) (Q : B -> Prop) (c : api SlotContext A) (f : A -> api SlotContext B) :
  keeps P c -> (forall a, P a -> keeps Q (f a)) -> keeps Q (c ≫= f).
Proof.
  intros Hc Hf s Hs. specialize (Hc s Hs). unfold mbind, api_bind. destruct (c s) as [s' a| |]; [|done|done].
  destruct Hc as [Hs' Ha]. exact (Hf a Ha s' Hs').
Qed.

Lemma keeps_mret {A} (Q : A -> Prop) a : Q a -> keeps Q (mret a).
Proof. by intros Ha s Hs. Qed.

Lemma keeps_return {A} (Q : A -> Prop) code : keeps Q (return_code code).
Proof. by intros s Hs. Qed.

Lemma keeps_return_if b code : keeps (fun _ => True) (return_if b code).
Proof. by destruct b; intros s Hs. Qed.

Lemma keeps_get : keeps (fun _ => True) get_state.
Proof. by intros s Hs. Qed.

Lemma keeps_bounds p n : keeps (fun _ => True) (check_bounds p n).
Proof. intros s Hs. unfold check_bounds, mbind, api_bind, memory_length. by destruct (NOT_IN_BOUNDS _ _ _). Qed.

Lemma keeps_mem_bytes p n : keeps (fun _ => True) (mem_bytes p n).
Proof. intros s Hs. unfold mem_bytes. by destruct (_ && _ && _). Qed.

Lemma keeps_write p n bs : keeps (fun _ => True) (WRITE_WASM_MEMORY_AND_RETURN p n bs).
Proof.
  intros s Hs. unfold WRITE_WASM_MEMORY_AND_RETURN, WRITE_WASM_MEMORY, mbind, api_bind, memory_length.
  destruct (_ <? _); [done|]. cbn. unfold mem_poke. by destruct (_ && _).
Qed.

Lemma keeps_lift {E A} (c : res E A) : keeps (fun _ => True) (lift c).
Proof. intros s Hs. unfold lift. by destruct c. Qed.

Lemma keeps_find n : keeps (fun e => amounts_ok (storage e)) (find_slot n).
Proof. intros s Hs. unfold find_slot. destruct (slots_ s !! n) as [e|] eqn:E; [|done]. split; [done|]. by apply (Hs n). Qed.

Lemma keeps_deref e : keeps (fun _ => True) (deref e).
Proof. intros s Hs. unfold deref. by destruct (entry e). Qed.

Lemma keeps_not_null e : keeps (fun _ => True) (not_null e).
Proof. intros s Hs. unfold not_null. by destruct (entry e). Qed.

Lemma keeps_choose n : keeps (fun _ => True) (choose_slot n).
Proof.
  intros s Hs. unfold choose_slot. destruct (n =? 0); [|done]. unfold get_free_slot.
  destruct (slot_free s); [|done]. by destruct (next_slot _ _ _).
Qed.

Lemma keeps_assign n e : amounts_ok (storage e) -> keeps (fun _ => True) (assign_slot n e).
Proof. intros He s Hs. split; [|done]. intros k d Hd. cbn in Hd. apply lookup_insert_Some in Hd as [[<- <-]|[_ Hk]]; [done|]. by apply (Hs k). Qed.

Lemma keeps_emplace n e : amounts_ok (storage e) -> keeps (fun _ => True) (emplace_slot n e).
Proof.
  intros He s Hs. unfold emplace_slot, modify. split; [|done]. destruct (slots_ s !! n); [done|].
  intros k d Hd. cbn in Hd. apply lookup_insert_Some in Hd as [[<- <-]|[_ Hk]]; [done|]. by apply (Hs k).
Qed.

Lemma keeps_point n : keeps (fun _ => True) (point_at_storage n).
Proof.
  intros s Hs. split; [|done]. intros k d Hd. cbn in Hd. apply lookup_alter_Some in Hd as [(<- & e & Hk & ->)|[_ Hk]]; [exact (Hs _ _ Hk)|by apply (Hs k)].
Qed.

Lemma keeps_clear n : keeps (fun _ => True)
  (modify (fun s => mkSlots (slot_memory s) (delete n (slots_ s)) (slot_free s ++ [n]) (slot_counter s))).
Proof. intros s Hs. split; [|done]. intros k e Hd. cbn in Hd. apply lookup_delete_Some in Hd as [_ Hk]. by apply (Hs k). Qed.

Create HintDb keeps discriminated.
#[export] Hint Resolve keeps_mret keeps_return keeps_return_if keeps_get keeps_bounds keeps_mem_bytes keeps_write keeps_lift
  keeps_find keeps_deref keeps_not_null keeps_choose keeps_assign keeps_emplace keeps_point keeps_clear : keeps.

(** Through the steps of a call and the cases it distinguishes. *)
Ltac keep :=
  repeat (first [ solve [auto with keeps]
                | match goal with |- keeps _ (_ ≫= _) => eapply keeps_bind; [solve [auto with keeps] | intros ? ?] end
                | match goal with |- keeps _ (match ?x with _ => _ end) => destruct x eqn:? end ]).

Section calls.
Context `{SlotHost} {L : Log10}.

(** A call by a hook; the arguments are 32-bit numbers. *)
Inductive slot_call :=
| call_slot (write_ptr write_len slot_no : Z)
| call_clear (slot_no : Z)
| call_count (slot_no : Z)
| call_set (read_ptr read_len slot_into : Z)
| call_otxn (slot_into : Z)
| call_meta (slot_into : Z)
| call_size (slot_no : Z)
| call_subarray (parent_slot array_id new_slot : Z)
| call_subfield (parent_slot field_id new_slot : Z)
| call_type (slot_no flags : Z)
| call_float (slot_no : Z).

Definition run_slot_call (c : slot_call) : api SlotContext Z :=
  match c with
  | call_slot wp wl n => slot wp wl n
  | call_clear n => slot_clear n
  | call_count n => slot_count n
  | call_set rp rl n => slot_set rp rl n
  | call_otxn n => otxn_slot n
  | call_meta n => meta_slot n
  | call_size n => slot_size n
  | call_subarray p i n => slot_subarray p i n
  | call_subfield p f n => slot_subfield p f n
  | call_type n f => slot_type n f
  | call_float n => slot_float n
  end.

Definition slot_args (c : slot_call) : list Z :=
  match c with
  | call_slot wp wl n => [wp; wl; n]
  | call_clear n | call_count n | call_otxn n | call_meta n | call_size n | call_float n => [n]
  | call_set rp rl n => [rp; rl; n]
  | call_subarray p i n => [p; i; n]
  | call_subfield p f n => [p; f; n]
  | call_type n f => [n; f]
  end.

Lemma ok_slot_part e part new s b :
  slots_ok s -> entry_ok e -> part_of (storage e) part -> 0 <= new <= max_slots -> (new =? 0) && b = false -> b = no_free_slots s ->
  returns_ok (slot_part e part new s).
Proof.
  intros Hs He Hp Hn Hf ->. unfold slot_part. apply ok_choose; [done|done| |].
  - intros ->. by destruct (no_free_slots s).
  - intros n s' Hc. eexists _, _. split; [done|]. apply (chosen_assign s); [done|done|]. by exists part.
Qed.

(** [slot_set], [otxn_slot] and [meta_slot] point the new entry at its object. *)
Lemma point_ok s n s' m v :
  slots_ok s -> chosen s n s' -> (m = <[n := mkSlot v None]> (slots_ s') \/ m = slots_ s' /\ is_Some (slots_ s' !! n)) ->
  slots_ok (set_slots (alter (fun e => mkSlot (storage e) (Some (storage e))) n m) (set_slots m s')).
Proof.
  intros Hs Hc Hm. assert (exists v, alter (fun e => mkSlot (storage e) (Some (storage e))) n m = <[n := mkSlot v (Some v)]> (slots_ s')) as (u & E).
  { destruct Hm as [->|[-> [e He]]].
    - exists v. apply map_eq. intros k. destruct (decide (n = k)) as [<-|];
        rewrite ?lookup_alter_eq, ?lookup_alter_ne, ?lookup_insert_eq, ?lookup_insert_ne by done; done.
    - exists (storage e). apply map_eq. intros k. destruct (decide (n = k)) as [<-|];
        rewrite ?lookup_alter_eq, ?lookup_alter_ne, ?lookup_insert_eq, ?lookup_insert_ne by done; [by rewrite He|done]. }
  rewrite E. change (set_slots (<[n := mkSlot u (Some u)]> (slots_ s')) (set_slots m s'))
    with (set_slots (<[n := mkSlot u (Some u)]> (slots_ s')) s').
  apply (chosen_assign s); [done|done|]. exists u. split; [done|]. apply rtc_refl.
Qed.

Lemma ok_slot_object object into s : slots_ok s -> 0 <= into -> returns_ok (slot_object object into s).
Proof.
  intros Hs Hi. unfold slot_object. apply ok_return_if; [done|]. intros Hle%Z.ltb_ge. erewrite run_bind by done.
  apply ok_return_if; [done|]. intros Hfree. apply ok_choose; [done|lia| |].
  { intros ->. by destruct (no_free_slots s). }
  intros n s' Hc. unfold emplace_slot, modify. destruct (slots_ s' !! n) as [e|] eqn:En.
  - erewrite run_bind by (cbn; rewrite En; done). eexists _, _. split; [done|].
    replace s' with (set_slots (slots_ s') s') at 2 by (by destruct s'). apply (point_ok s n s' _ object); [done|done|eauto].
  - erewrite run_bind by (cbn; rewrite En; done). eexists _, _. split; [done|].
    apply (point_ok s n s' _ object); [done|done|by left].
Qed.

Lemma ok_slot_set rp rl into s :
  slots_ok s -> 0 <= rp < 2 ^ 32 -> 0 <= rl < 2 ^ 32 -> 0 <= into -> returns_ok (slot_set rp rl into s).
Proof.
  intros Hs Hrp Hrl Hi. unfold slot_set. apply ok_check_bounds; [done..|]. intros Hb. apply ok_return_if; [done|]. intros Hle.
  apply orb_false_iff in Hle as [_ Hle%Z.ltb_ge]. erewrite run_bind by done. apply ok_return_if; [done|]. intros Hfree.
  rewrite run_mem_bytes by (cbn [get_mem slot_mem]; lia). destruct (if rl =? 34 then _ else _) as [v|]; [|by apply ok_return].
  apply ok_choose; [done|lia| |].
  { intros ->. by destruct (no_free_slots s). }
  intros n s' Hc. eexists _, _. split; [done|]. apply (point_ok s n s' _ v); [done|done|by left].
Qed.

Lemma ok_slot_clear n s : slots_ok s -> returns_ok (slot_clear n s).
Proof.
  intros Hs. unfold slot_clear. apply ok_find; [done|]. intros e He _. eexists _, _. split; [done|].
  destruct (so_entry _ Hs n e He) as [Hn _]. split; cbn.
  - intros k d [_ Hk]%lookup_delete_Some. by apply (so_entry _ Hs).
  - intros k [Hk| ->%list_elem_of_singleton]%elem_of_app; [by apply (so_free _ Hs)|done].
  - apply (so_counter _ Hs).
  - intros k Hk. rewrite elem_of_app, list_elem_of_singleton. destruct (decide (n = k)) as [<-|]; [tauto|].
    rewrite lookup_delete_ne by done. destruct (so_passed _ Hs k Hk); tauto.
Qed.

Lemma part_child whole b c : part_of whole b -> c ∈ children b -> part_of whole c.
Proof. intros Hp Hc. by eapply rtc_r. Qed.

Lemma ok_slot_subarray p i new s : slots_ok s -> 0 <= new -> returns_ok (slot_subarray p i new s).
Proof.
  intros Hs Hn. unfold slot_subarray. apply ok_find; [done|]. intros e _ He.
  apply ok_deref; [done|]. intros b Hp. destruct b as [| f v_ | |]; try by apply ok_return. erewrite run_bind by done.
  apply ok_return_if; [done|]. intros Hf. apply ok_return_if; [done|]. intros Hle%Z.ltb_ge.
  destruct (v_ !! Z.to_nat i) as [part|] eqn:Ep; [|by apply ok_return].
  eapply ok_slot_part; [done|done| |lia|exact Hf|done]. eapply part_child; [done|]. by eapply list_elem_of_lookup_2.
Qed.

Lemma ok_slot_subfield p f new s : slots_ok s -> 0 <= new -> returns_ok (slot_subfield p f new s).
Proof.
  intros Hs Hn. unfold slot_subfield. apply ok_find; [done|]. intros e _ He. erewrite run_bind by done.
  apply ok_return_if; [done|]. intros Hf. apply ok_return_if; [done|]. intros Hle%Z.ltb_ge. apply ok_return_if; [done|]. intros _.
  apply ok_deref; [done|]. intros b Hp. destruct b as [c fields| | |]; try by apply ok_return.
  destruct (getField f fields) as [part|] eqn:Ep; [|by apply ok_return].
  eapply ok_slot_part; [done|done| |lia|exact Hf|done]. eapply part_child; [done|].
  apply find_some in Ep as [Hin _]. by apply list_elem_of_In.
Qed.

(** The one call that has no result: the zero of XRP as a float. *)
Definition zero_drops (c : slot_call) (s : SlotContext) : Prop :=
  exists n e f a, c = call_float n /\ slots_ s !! n = Some e /\ entry e = Some (STAmt f a) /\ mIsNative a = true /\ mValue a = 0.

Lemma make_float_iou_total a : iou_valid a = true -> exists r, make_float_iou a = Val r.
Proof. intros Hv%make_float_iou_spec. destruct (make_float_iou a) as [r| |]; [eauto|done|done]. Qed.

(** An amount other than the zero of XRP has a float, or an error code. *)
Lemma ok_slot_float n s :
  slots_ok s -> slot_amounts_ok s -> returns_ok (slot_float n s) \/ slot_float n s = Stuck /\ zero_drops (call_float n) s.
Proof.
  intros Hs Ha. unfold slot_float, find_slot, mbind, api_bind. destruct (slots_ s !! n) as [e|] eqn:En; [|left; by eexists _, _].
  destruct (so_entry _ Hs n e En) as [_ (b & Eb & Hp)]. unfold deref. rewrite Eb. cbn.
  destruct b as [| |f a|]; try (left; by eexists _, _). pose proof (Ha n e En f a Hp) as Hok. unfold amount_ok in Hok.
  destruct (mIsNative a) eqn:Enat.
  - rewrite i64_small by lia. destruct (Z.eq_dec (mValue a) 0) as [E0|Hne].
    { right. split; [rewrite E0; by destruct (mIsNegative a)|]. by exists n, e, f, a. }
    destruct (normalize_xfl_valid true (if mIsNegative a then - mValue a else mValue a) (-6) false) as (r & m & x & E & _);
      [destruct (mIsNegative a); lia..|unfold exp_room; lia|].
    left. unfold normalized. rewrite E. by eexists _, _.
  - left. rewrite i64_small by (pose proof (issued_range a Hok); lia). destruct Hok as (_ & _ & [(Ev & Eo & Eg)|[Hv He]]).
    + rewrite Ev, Eg. by eexists _, _.
    + unfold cMinValue, cMaxValue in Hv. set (m := if mIsNegative a then _ else _).
      assert (minMantissa <= Z.abs m <= maxMantissa) as Hm by (unfold m, minMantissa, maxMantissa; destruct (mIsNegative a); lia).
      rewrite (normalize_id m) by done. cbn. destruct (make_float_iou_total (mkIOU m (mOffset a))) as [r ->]; [|by eexists _, _].
      apply iou_valid_cases. by right.
Qed.

Lemma keeps_slot_object object into : amounts_ok object -> keeps (fun _ => True) (slot_object object into).
Proof. intros Ho. unfold slot_object. keep. Qed.

Lemma keeps_slot_part e part new : amounts_ok (storage e) -> keeps (fun _ => True) (slot_part e part new).
Proof. intros He. unfold slot_part. keep. Qed.

Lemma keeps_slot_set rp rl into : host_amounts_ok -> keeps (fun _ => True) (slot_set rp rl into).
Proof.
  intros Hh. unfold slot_set. keep. eapply keeps_bind; [apply keeps_assign; cbn|intros _ _; keep]. destruct (rl =? 34); [|by eapply ha_tx].
  destruct (unserialize_keylet _); [|done]. destruct (of_bytes _ =? 0); [done|]. by eapply ha_sle.
Qed.

Lemma slot_call_keeps c : host_amounts_ok -> keeps (fun _ => True) (run_slot_call c).
Proof.
  intros Hh. destruct c; cbn [run_slot_call].
  - unfold slot, give_value. eapply (keeps_bind (fun _ => True)); [keep|intros _ _]. keep.
  - unfold slot_clear. keep.
  - unfold slot_count. keep.
  - by apply keeps_slot_set.
  - apply keeps_slot_object, Hh.
  - unfold meta_slot. destruct provisionalMeta eqn:E; [|keep]. by eapply keeps_slot_object, ha_meta.
  - unfold slot_size. keep.
  - unfold slot_subarray. keep. by apply keeps_slot_part.
  - unfold slot_subfield. keep. by apply keeps_slot_part.
  - unfold slot_type. keep.
  - unfold slot_float. keep.
Qed.

Lemma slot_call_returns c s :
  slots_ok s -> slot_amounts_ok s -> Forall (fun a => 0 <= a < 2 ^ 32) (slot_args c) ->
  returns_ok (run_slot_call c s) \/ run_slot_call c s = Stuck /\ zero_drops c s.
Proof.
  intros Hs Hm Ha. destruct c; cbn [slot_args] in Ha; rewrite ?Forall_cons in Ha; destruct_and?; cbn [run_slot_call];
    [left..|by apply ok_slot_float].
  - unfold slot. destruct (Z.eqb_spec write_ptr 0) as [->|Hne].
    + apply ok_return_if; [done|]. intros _. apply ok_find; [done|]. intros e _ He. apply ok_deref; [done|]. intros b _.
      by apply ok_give.
    + rewrite run_assoc. apply ok_check_bounds; [done..|]. intros Hb. apply ok_return_if; [done|]. intros _.
      apply ok_find; [done|]. intros e _ He. apply ok_deref; [done|]. intros b _. by apply ok_give.
  - by apply ok_slot_clear.
  - unfold slot_count. apply ok_find; [done|]. intros e _ He. apply ok_deref; [done|]. intros [] _; by apply ok_return.
  - apply ok_slot_set; try done; lia.
  - apply ok_slot_object; [done|lia].
  - unfold meta_slot. destruct provisionalMeta; [apply ok_slot_object; [done|lia]|by apply ok_return].
  - unfold slot_size. apply ok_find; [done|]. intros e _ He. apply ok_deref; [done|]. intros b _. by apply ok_return.
  - apply ok_slot_subarray; [done|lia].
  - apply ok_slot_subfield; [done|lia].
  - unfold slot_type. apply ok_find; [done|]. intros e _ He. apply ok_deref; [done|]. intros b _.
    destruct (flags =? 0); [by apply ok_return|]. destruct (flags =? 1); [|by apply ok_return]. destruct b; by apply ok_return.
Qed.

(** C36: whatever calls a hook makes, its slots stay well-formed.  If the amounts in the
    slots and in the objects they are filled from are as the ledger's constructors leave
    them, then from well-formed slots every call of the slot functions, [slot_float]
    included, with any 32-bit arguments, returns a number: no null pointer is used, no
    memory outside the hook's is touched, nothing is thrown.  There is one exception:
    [slot_float] of zero drops of XRP takes the logarithm of zero, and is undefined.  The
    slots are well-formed afterwards: numbered 1 to 255, each pointing into the object it
    keeps alive, no number lost to the allocator, and their amounts in order. *)
Theorem slot_calls_safe c s :
  host_amounts_ok -> slots_ok s -> slot_amounts_ok s -> Forall (fun a => 0 <= a < 2 ^ 32) (slot_args c) ->
  (exists s' code, run_slot_call c s = Ret s' code /\ slots_ok s' /\ slot_amounts_ok s') \/
  run_slot_call c s = Stuck /\ zero_drops c s.
Proof.
  intros Hh Hs Hm Ha. destruct (slot_call_returns c s Hs Hm Ha) as [(s' & code & E & Hs')|?]; [left|by right].
  exists s', code. split; [done|]. split; [done|]. pose proof (slot_call_keeps c Hh s Hm) as Hk. by rewrite E in Hk.
Qed.
End calls.

(** ** What a slot holds *)

Section contents.
Context `{SlotHost}.

Lemma run_slot_part e part new s :
  slots_ok s -> 0 <= new <= max_slots -> (new = 0 -> (size (slots_ s) < 255)%nat) ->
  exists s' n, slot_part e part new s = Ret s' n /\ 1 <= n <= max_slots /\ (new <> 0 -> n = new) /\
    slot_memory s' = slot_memory s /\ slots_ s' = <[n := mkSlot (storage e) (Some part)]> (slots_ s).
Proof.
  intros Hs Hn Hsize. destruct (choose_slot_spec s new Hs Hn) as (n & s' & E & [Hr [Es Em] _ _ _] & Hnew).
  { intros ->. destruct (no_free_slots s) eqn:Ef; [|done]. apply no_free_slots_spec in Ef; [|done]. specialize (Hsize eq_refl). lia. }
  unfold slot_part. erewrite run_bind by done. eexists _, n. split; [done|]. split; [done|]. split; [done|].
  cbn. by rewrite Es.
Qed.

(** The bytes of a value as a hook sees them: an account without its length. *)
Definition visible (b : STBase) : list Z := drop (if getSType b =? STI_ACCOUNT then 1 else 0) (add b).

Lemma run_slot s n e b wp wl :
  slots_ s !! n = Some e -> entry e = Some b -> 0 < wp < 2 ^ 32 -> 1 <= wl < 2 ^ 32 -> wp + wl <= vsize (slot_memory s) ->
  vsize (visible b) <= wl -> (1 <= length (add b))%nat ->
  slot wp wl n s = Ret (set_mem (splice (slot_memory s) wp (visible b)) s) (vsize (visible b)).
Proof.
  intros En Ee Hwp Hwl Hb Hv Hlen. unfold slot. rewrite (proj2 (Z.eqb_neq wp 0)) by lia.
  rewrite run_assoc, run_check_bounds by (cbn [get_mem slot_mem]; lia). rewrite run_return_if by (apply Z.ltb_ge; lia).
  erewrite run_bind by (unfold find_slot; by rewrite En). unfold not_null. rewrite Ee. erewrite run_bind by done.
  unfold give_value. rewrite (proj2 (Z.eqb_neq wp 0)) by lia. unfold visible, vsize in *. rewrite length_drop in *.
  rewrite run_return_if by (apply Z.ltb_ge; destruct (getSType b =? STI_ACCOUNT); lia).
  unfold WRITE_WASM_MEMORY_AND_RETURN.
  replace (Z.to_nat (if getSType b =? STI_ACCOUNT then 1 else 0)) with (if getSType b =? STI_ACCOUNT then 1%nat else 0%nat)
    by (by destruct (getSType b =? STI_ACCOUNT)).
  rewrite run_WRITE by (unfold vsize; cbn [get_mem slot_mem]; rewrite ?length_drop; lia).
  unfold return_code. unfold vsize. by rewrite length_drop.
Qed.

(** A slot taken from a field holds that field.  If slot [parent] holds an object with
    the field and the new slot is named or one of the 255 is free, [slot_subfield]
    succeeds and gives a number from 1 to 255, the named one if there is one; [slot] then
    writes the serialised field to any buffer inside the memory that is large enough,
    and every other slot and the memory are as before. *)
Theorem slot_subfield_slot s parent e code fields field_code part new :
  slots_ok s -> slots_ s !! parent = Some e -> entry e = Some (STObject code fields) ->
  known_field field_code = true -> getField field_code fields = Some part ->
  0 <= new <= max_slots -> (new = 0 -> (size (slots_ s) < 255)%nat) ->
  exists s' n, slot_subfield parent field_code new s = Ret s' n /\ 1 <= n <= max_slots /\ (new <> 0 -> n = new) /\
    slot_memory s' = slot_memory s /\ (forall k, k <> n -> slots_ s' !! k = slots_ s !! k) /\
    forall wp wl, 0 < wp < 2 ^ 32 -> 1 <= wl < 2 ^ 32 -> wp + wl <= vsize (slot_memory s) ->
      vsize (visible part) <= wl -> (1 <= length (add part))%nat ->
      slot wp wl n s' = Ret (set_mem (splice (slot_memory s) wp (visible part)) s') (vsize (visible part)).
Proof.
  intros Hs Ep Ee Hk Hf Hn Hsize. destruct (run_slot_part e part new s Hs Hn Hsize) as (s' & n & E & Hr & Hnew & Em & Es).
  exists s', n. split; [|split; [done|split; [done|split; [done|split]]]].
  - unfold slot_subfield. erewrite run_bind by (unfold find_slot; by rewrite Ep). erewrite run_bind by done.
    rewrite run_return_if.
    2: { destruct (Z.eqb_spec new 0) as [->|]; [|done]. destruct (no_free_slots s) eqn:Ef; [|done].
         apply no_free_slots_spec in Ef; [|done]. specialize (Hsize eq_refl). lia. }
    rewrite run_return_if by (apply Z.ltb_ge; lia). rewrite run_return_if by (by rewrite Hk).
    unfold deref. rewrite Ee. erewrite run_bind by done. cbv beta iota. by rewrite Hf.
  - intros k Hne. by rewrite Es, lookup_insert_ne.
  - intros wp wl Hwp Hwl Hb Hv Hlen. rewrite <- Em. eapply run_slot; [by rewrite Es, lookup_insert_eq|done|done|done|by rewrite Em|done|done].
Qed.
End contents.

(** ** Samples *)

(** An account root with a flags field and its account, and the originating transaction. *)
Definition sample_root : STBase := STObject 0xE0001 [STLeaf 0x20002 2 [0; 0; 0; 7]; STLeaf 0x80001 8 (20 :: replicate 20 9)].
Definition sample_otxn : STBase := STObject 0xE0001 [STLeaf 0x10002 1 [0; 0]].
#[local] Instance sample_slot_host : SlotHost :=
  {| read_sle _ _ := Some sample_root; view_succ _ _ := None; fetch_tx _ := None; otxn_object := sample_otxn; provisionalMeta := None;
     known_field _ := true |}.
Definition no_slots : SlotContext := mkSlots (replicate 33 0 ++ [1] ++ replicate 66 0) ∅ [] 0.
(** The context after some calls, and what they returned. *)
Definition calls (cs : list slot_call) : SlotContext * list Z :=
  foldl (fun '(s, codes) c => match run_slot_call c s with Ret s' code => (s', codes ++ [code]) | _ => (s, codes) end)
    (no_slots, []) cs.
Definition holds_in (s : SlotContext) (n : Z) : option STBase := slots_ s !! n ≫= entry.

Lemma no_slots_ok : slots_ok no_slots.
Proof. split; cbn; [done|by intros n ?%not_elem_of_nil|done|lia]. Qed.

Lemma amounts_ok_node b :
  (forall c, c ∈ children b -> amounts_ok c) -> (forall f a, b = STAmt f a -> amount_ok a) -> amounts_ok b.
Proof. intros Hc Hb f a Hp. unfold part_of in Hp. inversion Hp as [|? c ? Hin Hr]; subst; [by apply (Hb f)|]. by apply (Hc c Hin f). Qed.

(** An amount of 25 XRP in a transaction, in slot 1, beside the host's objects. *)
Definition sample_amount : STBase := STAmt 0x60001 (xrp_amount 25000000).
Definition sample_payment : STBase := STObject 0xE0001 [sample_amount].
Definition amount_slot : SlotContext := mkSlots [] {[ 1 := mkSlot sample_payment (Some sample_amount) ]} [] 1.

Lemma sample_amounts_ok : Forall amounts_ok [sample_root; sample_otxn; sample_payment].
Proof.
  repeat constructor; (apply amounts_ok_node; [|done]);
    intros c Hc; cbn in Hc; rewrite ?elem_of_cons, elem_of_nil in Hc; destruct_or?; subst; try done;
    (apply amounts_ok_node; [by intros d ?%not_elem_of_nil|]); try done.
  intros f a [= _ <-]. unfold amount_ok. cbn. lia.
Qed.

Lemma sample_host_amounts : host_amounts_ok.
Proof.
  pose proof sample_amounts_ok as Hs. rewrite !Forall_cons in Hs. destruct Hs as (Hr & Ho & _).
  split; cbn; [by intros _ _ b [= <-]|done|done|done].
Qed.

Lemma amount_slot_ok : slots_ok amount_slot /\ slot_amounts_ok amount_slot.
Proof.
  split.
  - split; cbn.
    + intros n e [<- <-]%lookup_singleton_Some. split; [by unfold max_slots|]. exists sample_amount. split; [done|].
      apply rtc_once. cbn. by left.
    + by intros n ?%not_elem_of_nil.
    + by unfold max_slots.
    + intros n Hn. left. replace n with 1 by lia. by eexists.
  - intros n e He. cbn in He. apply lookup_singleton_Some in He as [<- <-]. cbn. pose proof sample_amounts_ok as Hs. rewrite !Forall_cons in Hs. tauto.
Qed.

Lemma slot_calls_safe_witness :
  exists s' code, run_slot_call (call_float 1) amount_slot = Ret s' code /\ slots_ok s' /\ slot_amounts_ok s' /\
    code = make_float 2500000000000000 (-14) false.
Proof.
  destruct (slot_calls_safe (call_float 1) amount_slot sample_host_amounts (proj1 amount_slot_ok) (proj2 amount_slot_ok))
    as [(s' & code & E & Hs & Ha)|[E _]]; [repeat constructor; lia| |exfalso; vm_compute in E; discriminate E].
  exists s', code. split; [exact E|]. split; [exact Hs|]. split; [exact Ha|]. vm_compute in E. by injection E.
Defined.

(** A root in slot 1. *)
Definition one_slot : SlotContext := mkSlots (slot_memory no_slots) {[ 1 := mkSlot sample_root (Some sample_root) ]} [] 1.

Lemma one_slot_ok : slots_ok one_slot.
Proof.
  split; cbn.
  - intros n e [<- <-]%lookup_singleton_Some. split; [by unfold max_slots|]. exists sample_root. split; [done|]. apply rtc_refl.
  - by intros n ?%not_elem_of_nil.
  - by unfold max_slots.
  - intros n Hn. left. replace n with 1 by lia. by eexists.
Qed.

Lemma slot_subfield_slot_witness :
  exists s' n, slot_subfield 1 0x80001 0 one_slot = Ret s' n /\
    slot 40 20 n s' = Ret (set_mem (splice (slot_memory one_slot) 40 (replicate 20 9)) s') 20.
Proof.
  destruct (slot_subfield_slot one_slot 1 (mkSlot sample_root (Some sample_root)) 0xE0001
    [STLeaf 0x20002 2 [0; 0; 0; 7]; STLeaf 0x80001 8 (20 :: replicate 20 9)] 0x80001 (STLeaf 0x80001 8 (20 :: replicate 20 9)) 0)
    as (s' & n & E & _ & _ & _ & _ & Hslot);
    [exact one_slot_ok|reflexivity|reflexivity|reflexivity|reflexivity|by unfold max_slots|intros _; vm_compute; lia|].
  exists s', n. split; [exact E|]. apply (Hslot 40 20); try lia; vm_compute; try done; lia.
Defined.

(** [otxn_slot] and [meta_slot] into a slot in use report success and leave it as it is. *)
Lemma otxn_slot_ignored :
  let '(s, codes) := calls [call_set 0 34 5; call_otxn 5] in codes = [5; 5] /\ holds_in s 5 = Some sample_root.
Proof. vm_compute. done. Qed.

(** A slot that was cleared and then filled again by number is given out a second time:
    the object in it is lost. *)
Lemma reused_slot_overwritten :
  let '(s, codes) := calls [call_set 0 34 5; call_clear 5; call_set 0 34 5; call_otxn 7; call_set 0 34 0] in
  codes = [5; 1; 5; 7; 5].
Proof. vm_compute. done. Qed.

(** The amount 0 of an issued currency is an error as a float. *)
Lemma slot_float_zero :
  let zero := STAmt 0x60001 (mkAmount 0 (-100) false false (mkIssue 5 5)) in
  let s := mkSlots [] {[ 1 := mkSlot zero (Some zero) ]} [] 1 in
  slot_float 1 s = Ret s EXPONENT_UNDERSIZED.
Proof. vm_compute. done. Qed.

(** Zero drops of XRP, as the balance of an account may be, have no float at all. *)
Lemma slot_float_zero_drops :
  let zero := STAmt 0x60002 (xrp_amount 0) in
  slot_float 1 (mkSlots [] {[ 1 := mkSlot zero (Some zero) ]} [] 1) = Stuck.
Proof. vm_compute. done. Qed.
