(* ===== verification/ShaMap.v ===== *)
(** * ShaMap: adding, finding, updating and removing items ([shamap/impl/SHAMap.cpp])

    The operations of a map whose nodes are all in memory, as the code performs
    them: a walk from the root collects a stack of nodes, the change is made at its
    top, and the stack is replayed to link the changed nodes up to the root.  A
    shared node is cloned before it is changed; here a node is a value, so
    [unshareNode] only sets its owner.

    The theorems: on a well-formed map the operations never throw, keep the map
    well-formed and behave as those of a finite map from keys to items. *)

From stdpp Require Import base numbers list option gmap sorting.
From Stdlib Require Import ZArith Lia.
From S2P Require Import Prelude ShaMapNode.

Local Open Scope Z_scope.

(** ** The map *)

Record SHAMap := mkMap { cowid_ : Z; root_ : SHAMapTreeNode }.

Definition set_root (r : SHAMapTreeNode) (m : SHAMap) : SHAMap := mkMap (cowid_ m) r.

(** The constructor [SHAMap(t, f)]. *)
Definition new_map : SHAMap := mkMap 1 (new_inner 1).

Abbreviation NodeStack := (list (SHAMapTreeNode * SHAMapNodeID)) (only parsing).

(** The child of a branch in use, which must be in memory. *)
Definition descendThrow (bs : list branch_slot) (branch : Z) : mres SHAMapTreeNode :=
  match bs !! Z.to_nat branch with
  | Some (Some (_, Some c)) => Val c
  | _ => Err SHAMapMissingNode
  end.

(** The loop of [walkTowardsKey]: nodes are at depths 0 to 64. *)
Fixpoint walk (fuel : nat) (id : Z) (inNode : SHAMapTreeNode) (nodeID : SHAMapNodeID) (stack : NodeStack)
  : mres (option SHAMapTreeNode * NodeStack) :=
  match fuel with
  | O => Undef
  | S fuel =>
    match inNode with
    | SHAMapLeafNode _ _ _ _ => Val (Some inNode, (inNode, nodeID) :: stack)
    | SHAMapInnerNode _ _ bs =>
      let stack := (inNode, nodeID) :: stack in
      branch ← selectBranch nodeID id;
      if isEmptyBranch bs branch then Val (None, stack) else
      inNode ← descendThrow bs branch;
      nodeID ← getChildNodeID nodeID branch;
      walk fuel id inNode nodeID stack
    end
  end.

Definition walkTowardsKey (m : SHAMap) (id : Z) : mres (option SHAMapTreeNode * NodeStack) :=
  walk 65 id (root_ m) root_id [].

(** The leaf with the key. *)
Definition findKey (m : SHAMap) (id : Z) : mres (option (SHAMapNodeType * SHAMapItem)) :=
  '(leaf, _) ← walkTowardsKey m id;
  match leaf with
  | Some (SHAMapLeafNode _ _ t i) => Val (if item_key i =? id then Some (t, i) else None)
  | _ => Val None
  end.

Definition hasItem (m : SHAMap) (id : Z) : mres bool :=
  o ← findKey m id; Val (match o with Some _ => true | None => false end).

Definition peekItem (m : SHAMap) (id : Z) : mres (option SHAMapItem) :=
  o ← findKey m id; Val (option_map snd o).

(** Clones a node that belongs to another map or to none. *)
Definition unshareNode (cow : Z) (n : SHAMapTreeNode) : SHAMapTreeNode :=
  if cowid n =? cow then n else set_cowid cow n.

(** Links [child] into the nodes of the stack, up to the root, which it returns. *)
Fixpoint dirtyUp (cow : Z) (stack : NodeStack) (target : Z) (child : SHAMapTreeNode) : mres SHAMapTreeNode :=
  match stack with
  | [] => Val child
  | (node, nodeID) :: stack =>
    branch ← selectBranch nodeID target;
    dirtyUp cow stack target (setChild branch (Some child) (unshareNode cow node))
  end.

Section operations.
Context `{Sha512Half}.

(** ** Adding *)

(** New inner nodes are pushed as long as both keys go to the same branch. *)
Fixpoint split_keys (fuel : nat) (cow tag other : Z) (node : SHAMapTreeNode) (nodeID : SHAMapNodeID) (stack : NodeStack)
  : mres (Z * Z * SHAMapTreeNode * NodeStack) :=
  match fuel with
  | O => Undef
  | S fuel =>
    b1 ← selectBranch nodeID tag;
    b2 ← selectBranch nodeID other;
    if b1 =? b2 then
      child ← getChildNodeID nodeID b1;
      split_keys fuel cow tag other (new_inner cow) child ((node, nodeID) :: stack)
    else Val (b1, b2, node, stack)
  end.

(** A map whose root is a leaf keeps that leaf: the new nodes are not linked to it. *)
Definition addGiveItem (m : SHAMap) (type : SHAMapNodeType) (item : SHAMapItem) : mres (bool * SHAMap) :=
  let tag := item_key item in
  let cow := cowid_ m in
  '(_, stack) ← walkTowardsKey m tag;
  match stack with
  | [] => Err SHAMapMissingNode
  | (SHAMapInnerNode _ _ _ as node, nodeID) :: stack =>
    let inner := unshareNode cow node in
    branch ← selectBranch nodeID tag;
    newNode ← makeTypedLeaf type item cow;
    root ← dirtyUp cow stack tag (setChild branch (Some newNode) inner);
    Val (true, set_root root m)
  | (SHAMapLeafNode _ _ _ otherItem as node, nodeID) :: stack =>
    if item_key otherItem =? tag then Val (false, m) else
    let leaf := unshareNode cow node in
    '(b1, b2, inner, stack) ← split_keys 65 cow tag (item_key otherItem) (new_inner (cowid leaf)) nodeID stack;
    l1 ← makeTypedLeaf type item cow;
    l2 ← makeTypedLeaf type otherItem cow;
    root ← dirtyUp cow stack tag (setChild b2 (Some l2) (setChild b1 (Some l1) inner));
    Val (true, set_root (if isRoot nodeID then leaf else root) m)
  end.

(** ** Updating *)

(** A leaf that belongs to the map is changed in place, below nodes that stay as they are. *)
Fixpoint relinkUp (stack : NodeStack) (target : Z) (child : SHAMapTreeNode) : mres SHAMapTreeNode :=
  match stack with
  | [] => Val child
  | (SHAMapInnerNode c h bs, nodeID) :: stack =>
    branch ← selectBranch nodeID target;
    relinkUp stack target (SHAMapInnerNode c h (<[Z.to_nat branch := Some (getChildHash bs branch, Some child)]> bs))
  | (leaf, _) :: stack => relinkUp stack target leaf
  end.

(** For a key that is absent the code has [assert(false)] before it returns false: a build with
    assertions stops there, one without them, which is modelled, returns. *)
Definition updateGiveItem (m : SHAMap) (type : SHAMapNodeType) (item : SHAMapItem) : mres (bool * SHAMap) :=
  let tag := item_key item in
  let cow := cowid_ m in
  '(_, stack) ← walkTowardsKey m tag;
  match stack with
  | [] => Err SHAMapMissingNode
  | (SHAMapInnerNode _ _ _, _) :: _ => Val (false, m)
  | (SHAMapLeafNode c _ t i as node, nodeID) :: stack =>
    if negb (item_key i =? tag) then Val (false, m)
    else if negb (bool_decide (t = type)) then Val (false, m)
    else
      let '(leaf, changed) := setItem item (unshareNode cow node) in
      root ← (if (changed : bool) then dirtyUp cow stack tag leaf
              else if (c =? cow) || isRoot nodeID then relinkUp stack tag leaf
              else Val (root_ m));
      Val (true, set_root root m)
  end.

(** ** Removing *)

(** The loop over the branches in [onlyBelow]: the child, if there is exactly one. *)
Fixpoint only_child (bs : list branch_slot) (nextNode : option SHAMapTreeNode) : mres (option SHAMapTreeNode) :=
  match bs with
  | [] => Val nextNode
  | None :: bs => only_child bs nextNode
  | Some (_, oc) :: bs =>
    match nextNode with
    | Some _ => Val None
    | None => match oc with Some c => only_child bs (Some c) | None => Err SHAMapMissingNode end
    end
  end.

Fixpoint onlyBelow (fuel : nat) (node : SHAMapTreeNode) : mres (option SHAMapItem) :=
  match fuel with
  | O => Undef
  | S fuel =>
    match node with
    | SHAMapLeafNode _ _ _ i => Val (Some i)
    | SHAMapInnerNode _ _ bs =>
      o ← only_child bs None;
      match o with Some c => onlyBelow fuel c | None => Val None end
    end
  end.

(** What replaces a changed inner node below the root. *)
Definition pull_up (type : SHAMapNodeType) (node : SHAMapTreeNode) : mres (option SHAMapTreeNode) :=
  match node with
  | SHAMapInnerNode _ _ bs =>
    let bc := getBranchCount bs in
    if bc =? 0 then Val None
    else if bc =? 1 then
      item ← onlyBelow 65 node;
      match item with
      | Some item => leaf ← makeTypedLeaf type item (cowid node); Val (Some leaf)
      | None => Val (Some node)
      end
    else Val (Some node)
  | leaf => Val (Some leaf)
  end.

(** The loop of [delItem]: the new root, if the loop reaches it. *)
Fixpoint del_up (cow : Z) (type : SHAMapNodeType) (id : Z) (stack : NodeStack) (prevNode : option SHAMapTreeNode)
    (root : SHAMapTreeNode) : mres SHAMapTreeNode :=
  match stack with
  | [] => Val root
  | (node, nodeID) :: stack =>
    branch ← selectBranch nodeID id;
    let node := setChild branch prevNode (unshareNode cow node) in
    if isRoot nodeID then del_up cow type id stack prevNode node
    else prevNode ← pull_up type node; del_up cow type id stack prevNode root
  end.

Definition delItem (m : SHAMap) (id : Z) : mres (bool * SHAMap) :=
  '(_, stack) ← walkTowardsKey m id;
  match stack with
  | [] => Err SHAMapMissingNode
  | (SHAMapInnerNode _ _ _, _) :: _ => Val (false, m)
  | (SHAMapLeafNode _ _ type i, _) :: stack =>
    if negb (item_key i =? id) then Val (false, m) else
    root ← del_up (cowid_ m) type id stack None (root_ m);
    Val (true, set_root root m)
  end.
End operations.

(** ** Well-formed maps *)

(** The items below a node, from left to right. *)
Fixpoint items (n : SHAMapTreeNode) : list SHAMapItem :=
  match n with
  | SHAMapLeafNode _ _ _ i => [i]
  | SHAMapInnerNode _ _ bs =>
    List.flat_map (fun o => match o with Some (_, Some c) => items c | _ => [] end) bs
  end.

Definition slot_items (o : branch_slot) : list SHAMapItem :=
  match o with Some (_, Some c) => items c | _ => [] end.

Lemma items_inner c h bs : items (SHAMapInnerNode c h bs) = List.flat_map slot_items bs.
Proof. reflexivity. Qed.

Lemma flat_map_split {A B} (f : A -> list B) l k x : l !! k = Some x ->
  List.flat_map f l = List.flat_map f (take k l) ++ f x ++ List.flat_map f (drop (S k) l).
Proof. intros Hx. rewrite <- (take_drop_middle l k x Hx) at 1. rewrite List.flat_map_app. done. Qed.

Lemma flat_map_insert {A B} (f : A -> list B) l k x : (k < length l)%nat ->
  List.flat_map f (<[k := x]> l) = List.flat_map f (take k l) ++ f x ++ List.flat_map f (drop (S k) l).
Proof.
  intros Hk. rewrite (flat_map_split f _ k x) by (by apply list_lookup_insert_eq).
  rewrite take_insert_ge by lia. rewrite drop_insert_lt by lia. done.
Qed.

Section invariant.
Context `{Sha512Half}.

(** A node at depth [d] below the digits [p]: keys follow the digits, leaves are of
    one type and know their hash, and an inner node below the root has two items. *)
Inductive node_ok (ty : SHAMapNodeType) : Z -> Z -> SHAMapTreeNode -> Prop :=
| leaf_ok d p c i :
    key_ok (item_key i) -> prefix d (item_key i) = p ->
    node_ok ty d p (SHAMapLeafNode c (updateHash_leaf ty i) ty i)
| inner_ok d p c h bs :
    d < 64 -> length bs = 16%nat ->
    (forall b h', bs !! b <> Some (Some (h', None))) ->
    (forall b h' n, bs !! b = Some (Some (h', Some n)) -> node_ok ty (d + 1) (16 * p + Z.of_nat b) n) ->
    (0 < d -> (2 <= length (items (SHAMapInnerNode c h bs)))%nat) ->
    node_ok ty d p (SHAMapInnerNode c h bs).

Definition map_ok (ty : SHAMapNodeType) (m : SHAMap) : Prop :=
  ty <> tnINNER /\ isInner (root_ m) = true /\ node_ok ty 0 0 (root_ m).

(** What the map holds. *)
Definition contents (m : SHAMap) : gmap Z SHAMapItem :=
  list_to_map ((fun i => (item_key i, i)) <$> items (root_ m)).

Lemma elem_of_items_inner i c h bs :
  i ∈ items (SHAMapInnerNode c h bs) <-> exists b h' n, bs !! b = Some (Some (h', Some n)) /\ i ∈ items n.
Proof.
  rewrite items_inner, list_elem_of_In, List.in_flat_map. split.
  - intros (o & Ho & Hi). rewrite <- list_elem_of_In in Ho. rewrite <- list_elem_of_In in Hi. apply list_elem_of_lookup in Ho as [b Hb].
    destruct o as [[h' [n|]]|]; cbn in Hi; try (by apply not_elem_of_nil in Hi). eauto 6.
  - intros (b & h' & n & Hb & Hi). exists (Some (h', Some n)). rewrite <- !list_elem_of_In. split; [|done].
    by eapply list_elem_of_lookup_2.
Qed.

Lemma items_prefix ty d p n i : node_ok ty d p n -> 0 <= d -> i ∈ items n -> key_ok (item_key i) /\ prefix d (item_key i) = p.
Proof.
  intros Hn. revert i. induction Hn as [d p c i' Hk Hp|d p c h bs Hd Hl Hres Hch IH H2]; intros i Hd0 Hi.
  - apply list_elem_of_singleton in Hi as ->. done.
  - apply elem_of_items_inner in Hi as (b & h' & n & Hb & Hi).
    destruct (IH b h' n Hb i ltac:(lia) Hi) as [Hk Hp]. split; [done|].
    pose proof (lookup_lt_Some _ _ _ Hb). rewrite prefix_succ in Hp by lia. pose proof (digit_range d (item_key i)). lia.
Qed.

(** An item below an inner node is in the branch of its digit. *)
Lemma item_branch ty d p c h bs b h' n i : node_ok ty d p (SHAMapInnerNode c h bs) -> 0 <= d ->
  bs !! b = Some (Some (h', Some n)) -> i ∈ items n -> Z.of_nat b = digit d (item_key i).
Proof.
  intros Hn Hd Hb Hi. inversion Hn as [|? ? ? ? ? Hd64 Hl Hres Hch H2]; subst.
  destruct (items_prefix ty (d + 1) _ n i (Hch _ _ _ Hb) ltac:(lia) Hi) as [Hk Hp].
  pose proof (lookup_lt_Some _ _ _ Hb). rewrite prefix_succ in Hp by lia. pose proof (digit_range d (item_key i)).
  destruct (items_prefix ty d p _ i Hn Hd) as [_ Hp']; [apply elem_of_items_inner; eauto 6|]. lia.
Qed.

Lemma node_ok_items ty d p n : node_ok ty d p n -> 0 < d -> items n <> [].
Proof. intros Hn Hd E. destruct Hn as [|d p c h bs ? ? ? ? H2]; [done|]. specialize (H2 Hd). rewrite E in H2. cbn in H2. lia. Qed.

(** ** The order of items *)

Definition item_lt (i j : SHAMapItem) : Prop := item_key i < item_key j.

#[export] Instance item_lt_trans : Transitive item_lt.
Proof. intros i j k. unfold item_lt. lia. Qed.

Lemma sorted_flat_map {A} (R : A -> A -> Prop) {B} (f : B -> list A) (l : list B) :
  (forall k x, l !! k = Some x -> StronglySorted R (f x)) ->
  (forall k k' x y a b, (k < k')%nat -> l !! k = Some x -> l !! k' = Some y -> a ∈ f x -> b ∈ f y -> R a b) ->
  StronglySorted R (List.flat_map f l).
Proof.
  induction l as [|x l IH]; intros Hs Hc; [constructor|]. cbn. apply StronglySorted_app_2.
  - intros a b Ha Hb. apply list_elem_of_In, List.in_flat_map in Hb as (y & Hy & Hb).
    apply list_elem_of_In, list_elem_of_lookup in Hy as [k Hk].
    apply (Hc 0%nat (S k) x y a b); [lia|done|done|done|by apply list_elem_of_In].
  - apply (Hs 0%nat). done.
  - apply IH; [intros k y Hk; by apply (Hs (S k))|].
    intros k k' y z a b Hlt Hy Hz. apply (Hc (S k) (S k')); [lia|done|done].
Qed.

Lemma items_sorted ty d p n : node_ok ty d p n -> 0 <= d -> StronglySorted item_lt (items n).
Proof.
  induction 1 as [d p c i Hk Hp|d p c h bs Hd Hl Hres Hch IH H2]; intros Hd0; [repeat constructor|].
  rewrite items_inner. apply sorted_flat_map.
  - intros b [[h' [n|]]|] Hb; cbn; [|constructor..]. eapply IH; [done|lia].
  - intros b b' [[h1 [n1|]]|] [[h2 [n2|]]|] i1 i2 Hlt Hb Hb' Hi1 Hi2; cbn in *; try (by apply not_elem_of_nil in Hi1 || by apply not_elem_of_nil in Hi2).
    destruct (items_prefix ty (d + 1) _ n1 i1 (Hch _ _ _ Hb) ltac:(lia) Hi1) as [_ E1].
    destruct (items_prefix ty (d + 1) _ n2 i2 (Hch _ _ _ Hb') ltac:(lia) Hi2) as [_ E2].
    apply (prefix_lt (d + 1)); [lia|]. lia.
Qed.

Lemma sorted_NoDup_keys l : StronglySorted item_lt l -> NoDup (item_key <$> l).
Proof.
  induction 1 as [|i l Hs IH Hf]; [constructor|]. rewrite fmap_cons. constructor; [|done].
  intros (j & E & Hj)%list_elem_of_fmap. rewrite Forall_forall in Hf. specialize (Hf j Hj). unfold item_lt in Hf. lia.
Qed.

Lemma items_NoDup ty d p n : node_ok ty d p n -> 0 <= d -> NoDup (item_key <$> items n).
Proof. intros. by eapply sorted_NoDup_keys, items_sorted. Qed.

(** ** Contents as a finite map *)

Definition items_map (l : list SHAMapItem) : gmap Z SHAMapItem := list_to_map ((fun i => (item_key i, i)) <$> l).

Lemma items_map_keys l : ((fun i => (item_key i, i)) <$> l).*1 = item_key <$> l.
Proof. rewrite <- list_fmap_compose. done. Qed.

Lemma items_map_Some l k i : NoDup (item_key <$> l) -> items_map l !! k = Some i <-> i ∈ l /\ item_key i = k.
Proof.
  intros Hn. unfold items_map. rewrite <- elem_of_list_to_map by (by rewrite items_map_keys).
  rewrite list_elem_of_fmap. split; [intros (j & [= -> ->] & Hj); done|]. intros [Hi <-]. eauto.
Qed.

Lemma items_map_None l k : items_map l !! k = None <-> k ∉ item_key <$> l.
Proof. unfold items_map. rewrite <- not_elem_of_list_to_map, items_map_keys. done. Qed.

Lemma items_map_proper l1 l2 : NoDup (item_key <$> l1) -> l1 ≡ₚ l2 -> items_map l1 = items_map l2.
Proof.
  intros Hn Hp. unfold items_map. apply list_to_map_proper; [by rewrite items_map_keys|]. by rewrite Hp.
Qed.

Lemma items_map_cons i l : items_map (i :: l) = <[item_key i := i]> (items_map l).
Proof. reflexivity. Qed.
End invariant.

(** ** The walk

    [path_to id d n top rest]: from the node [n] at depth [d] the walk towards [id]
    ends at [top], at depth [dt], above the nodes [rest]. *)

Inductive path_to (id : Z) : Z -> SHAMapTreeNode -> Z -> SHAMapTreeNode -> list (SHAMapTreeNode * SHAMapNodeID) -> Prop :=
| path_leaf d c h t i : path_to id d (SHAMapLeafNode c h t i) d (SHAMapLeafNode c h t i) []
| path_empty d c h bs : bs !! Z.to_nat (digit d id) = Some None ->
    path_to id d (SHAMapInnerNode c h bs) d (SHAMapInnerNode c h bs) []
| path_down d c h bs h' n dt top rest : bs !! Z.to_nat (digit d id) = Some (Some (h', Some n)) ->
    path_to id (d + 1) n dt top rest ->
    path_to id d (SHAMapInnerNode c h bs) dt top (rest ++ [(SHAMapInnerNode c h bs, createID d id)]).

Definition leaf_of (n : SHAMapTreeNode) : option SHAMapTreeNode := if isLeaf n then Some n else None.

Section paths.
Context `{Sha512Half}.

(** The slot of the digit of a key: empty, or a child in memory. *)
Lemma digit_slot ty d p c h bs id : node_ok ty d p (SHAMapInnerNode c h bs) ->
  bs !! Z.to_nat (digit d id) = Some None \/
  exists h' n, bs !! Z.to_nat (digit d id) = Some (Some (h', Some n)) /\ node_ok ty (d + 1) (16 * p + digit d id) n.
Proof.
  inversion 1 as [|? ? ? ? ? Hd Hl Hres Hch H2]; subst. pose proof (digit_range d id).
  destruct (lookup_lt_is_Some_2 bs (Z.to_nat (digit d id))) as [[[h' [n|]]|] Hb]; [lia| | |]; [right|by apply Hres in Hb|by left].
  exists h', n. split; [done|]. specialize (Hch _ _ _ Hb). rewrite Z2Nat.id in Hch by lia. done.
Qed.

Lemma walk_path ty id fuel : forall d p n st, node_ok ty d p n -> 0 <= d <= 64 -> 65 - d <= Z.of_nat fuel ->
  exists dt top rest, path_to id d n dt top rest /\ d <= dt <= 64 /\
    walk fuel id n (createID d id) st = Val (leaf_of top, (top, createID dt id) :: rest ++ st).
Proof.
  induction fuel as [|fuel IH]; intros d p n st Hn Hd Hf; [lia|].
  destruct n as [c h bs|c h t i]; cbn [walk].
  - assert (d < 64) by (by inversion Hn). rewrite selectBranch_val by (cbn; lia). cbn [mbind res_bind depth_ createID].
    destruct (digit_slot ty d p c h bs id Hn) as [Hb|(h' & n & Hb & Hn')]; unfold isEmptyBranch; rewrite Hb.
    + exists d, (SHAMapInnerNode c h bs), []. split; [by constructor|]. split; [lia|done].
    + unfold descendThrow. rewrite Hb. cbn [mbind res_bind]. change (mkNodeID _ d) with (createID d id).
      rewrite createID_child by lia. cbn [mbind res_bind].
      destruct (IH (d + 1) _ n ((SHAMapInnerNode c h bs, createID d id) :: st) Hn') as (dt & top & rest & Hp & Hdt & E); [lia|lia|].
      exists dt, top, (rest ++ [(SHAMapInnerNode c h bs, createID d id)]). split; [by eapply path_down|].
      split; [lia|]. rewrite E, <- app_assoc. done.
  - exists d, (SHAMapLeafNode c h t i), []. split; [constructor|]. split; [lia|done].
Qed.

Lemma walkTowardsKey_path ty m id : map_ok ty m ->
  exists dt top rest, path_to id 0 (root_ m) dt top rest /\ 0 <= dt <= 64 /\
    walkTowardsKey m id = Val (leaf_of top, (top, createID dt id) :: rest).
Proof.
  intros (_ & _ & Hn). destruct (walk_path ty id 65 0 0 (root_ m) [] Hn) as (dt & top & rest & Hp & Hd & E); [lia|lia|].
  exists dt, top, rest. split; [done|]. split; [done|]. unfold walkTowardsKey. rewrite <- (createID_0 id), E, app_nil_r. done.
Qed.

(** The end of the walk is well-formed, and what the map has of the key is there. *)
Lemma path_top ty id d p n dt top rest : path_to id d n dt top rest -> node_ok ty d p n -> 0 <= d -> prefix d id = p ->
  node_ok ty dt (prefix dt id) top /\ d <= dt /\ (forall i, i ∈ items n -> item_key i = id -> i ∈ items top) /\
  exists pre post, items n = pre ++ items top ++ post.
Proof.
  intros Hp. revert p. induction Hp as [d c h t i|d c h bs Hb|d c h bs h' n dt top rest Hb Hp IH]; intros p Hn Hd Hpre.
  - subst. split; [done|]. split; [lia|]. split; [done|]. exists [], []. done.
  - subst. split; [done|]. split; [lia|]. split; [done|]. exists [], []. by rewrite app_nil_r.
  - destruct (digit_slot ty d p c h bs id Hn) as [Hb'|(h1 & n1 & Hb' & Hn')]; [congruence|].
    assert (h1 = h' /\ n1 = n) as [-> ->] by (split; congruence).
    assert (d < 64) by (by inversion Hn).
    destruct (IH _ Hn' ltac:(lia)) as (H1 & H2 & H3 & pre & post & E); [rewrite prefix_succ by lia; lia|].
    split; [done|]. split; [lia|]. split.
    + intros i Hi Hk. apply elem_of_items_inner in Hi as (b & h2 & n2 & Hb2 & Hi).
      pose proof (item_branch ty d p c h bs b h2 n2 i Hn Hd Hb2 Hi) as Hbr. rewrite Hk in Hbr.
      rewrite <- Hbr, Nat2Z.id in Hb. apply H3; [|done]. congruence.
    + rewrite items_inner, (flat_map_split slot_items bs _ _ Hb). cbn [slot_items]. rewrite E.
      exists (List.flat_map slot_items (take (Z.to_nat (digit d id)) bs) ++ pre), (post ++ List.flat_map slot_items (drop (S (Z.to_nat (digit d id))) bs)).
      by rewrite <- !app_assoc.
Qed.

Lemma path_top_slot id d n dt c h bs rest :
  path_to id d n dt (SHAMapInnerNode c h bs) rest -> bs !! Z.to_nat (digit dt id) = Some None.
Proof. intros Hp. remember (SHAMapInnerNode c h bs) as top eqn:E. induction Hp; [done|by simplify_eq|auto]. Qed.

(** The walk ends without the key at an inner node. *)
Lemma path_top_inner ty id d n dt c h bs rest i : path_to id d n dt (SHAMapInnerNode c h bs) rest ->
  node_ok ty dt (prefix dt id) (SHAMapInnerNode c h bs) -> 0 <= dt -> i ∈ items (SHAMapInnerNode c h bs) -> item_key i <> id.
Proof.
  intros Hp%path_top_slot Hn Hd Hi Hk. apply elem_of_items_inner in Hi as (b & h' & n' & Hb & Hi).
  pose proof (item_branch ty dt _ c h bs b h' n' i Hn Hd Hb Hi) as Hbr. rewrite Hk in Hbr. rewrite <- Hbr, Nat2Z.id in Hp. congruence.
Qed.

Lemma findKey_spec ty m id : map_ok ty m -> key_ok id -> findKey m id = Val ((fun i => (ty, i)) <$> contents m !! id).
Proof.
  intros Hm Hk. destruct (walkTowardsKey_path ty m id Hm) as (dt & top & rest & Hp & Hd & E). destruct Hm as (_ & _ & Hn).
  unfold findKey. rewrite E. cbn [mbind res_bind].
  destruct (path_top ty id 0 0 _ _ _ _ Hp Hn) as (Ht & _ & Hin & pre & post & Ei); [lia|by apply prefix_0|].
  pose proof (items_NoDup ty 0 0 _ Hn ltac:(lia)) as Hnd. change (contents m) with (items_map (items (root_ m))).
  destruct top as [c h bs|c h t i]; cbn [leaf_of isLeaf isInner negb].
  - assert (items_map (items (root_ m)) !! id = None) as ->; [|done]. apply items_map_None.
    intros (i & Hi & Hin')%list_elem_of_fmap.
    refine (path_top_inner ty id 0 _ dt c h bs rest i Hp Ht _ (Hin i Hin' (eq_sym Hi)) (eq_sym Hi)). lia.
  - inversion Ht; subst. destruct (Z.eqb_spec (item_key i) id) as [Hi|Hi].
    + assert (items_map (items (root_ m)) !! id = Some i) as ->; [|done]. apply items_map_Some; [done|]. split; [|done].
      rewrite Ei. cbn [items]. set_solver.
    + assert (items_map (items (root_ m)) !! id = None) as ->; [|done]. apply items_map_None.
      intros (j & Hj & Hj')%list_elem_of_fmap. specialize (Hin j Hj' (eq_sym Hj)). cbn in Hin.
      apply list_elem_of_singleton in Hin as ->. done.
Qed.
End paths.
