(* ===== verification/ShaMapOps.v ===== *)
(** * ShaMapOps: the operations implement a finite map

    Adding, updating and removing on a well-formed [SHAMap] ([ShaMap]) return normally,
    keep it well-formed, and change its contents as the operations of a finite map
    do; so does every sequence of operations from a new map. *)

From stdpp Require Import base numbers list option gmap sorting.
From Stdlib Require Import ZArith Lia.
From S2P Require Import Prelude ShaMapNode ShaMap.

Local Open Scope Z_scope.

Section replay.
Context `{Sha512Half}.

(** ** Changing one branch *)

Definition opt_items (o : option SHAMapTreeNode) : list SHAMapItem :=
  match o with Some n => items n | None => [] end.

Lemma unshare_inner cow c h bs : unshareNode cow (SHAMapInnerNode c h bs) = SHAMapInnerNode cow h bs.
Proof. unfold unshareNode. cbn. destruct (Z.eqb_spec c cow) as [->|]; done. Qed.

Lemma unshare_leaf cow c h t i : unshareNode cow (SHAMapLeafNode c h t i) = SHAMapLeafNode cow h t i.
Proof. unfold unshareNode. cbn. destruct (Z.eqb_spec c cow) as [->|]; done. Qed.

(** The items around the branch [b]. *)
Definition before (bs : list branch_slot) (b : Z) := List.flat_map slot_items (take (Z.to_nat b) bs).
Definition after (bs : list branch_slot) (b : Z) := List.flat_map slot_items (drop (S (Z.to_nat b)) bs).

Lemma items_at c h bs b o : bs !! Z.to_nat b = Some o ->
  items (SHAMapInnerNode c h bs) = before bs b ++ slot_items o ++ after bs b.
Proof. intros Hb. rewrite items_inner. by apply flat_map_split. Qed.

Lemma items_setChild c h bs b o : length bs = 16%nat -> 0 <= b < 16 ->
  items (setChild b o (SHAMapInnerNode c h bs)) = before bs b ++ opt_items o ++ after bs b.
Proof.
  intros Hl Hb. cbn [setChild]. rewrite items_inner, flat_map_insert by lia. destruct o; done.
Qed.

(** The branches of a well-formed inner node, whatever the number of items below. *)
Definition branches_ok (ty : SHAMapNodeType) (d p : Z) (bs : list branch_slot) : Prop :=
  length bs = 16%nat /\ (forall b h, bs !! b <> Some (Some (h, None))) /\
  (forall b h n, bs !! b = Some (Some (h, Some n)) -> node_ok ty (d + 1) (16 * p + Z.of_nat b) n).

Lemma inner_ok_iff ty d p c h bs : node_ok ty d p (SHAMapInnerNode c h bs) <->
  d < 64 /\ branches_ok ty d p bs /\ (0 < d -> (2 <= length (items (SHAMapInnerNode c h bs)))%nat).
Proof.
  split; [inversion 1; subst; unfold branches_ok; tauto|]. intros (Hd & (Hl & Hr & Hc) & H2). by constructor.
Qed.

Lemma empty_branches_ok ty d p : branches_ok ty d p empty_branches.
Proof.
  split; [done|]. split; intros b h; [|intros n]; intros E; apply lookup_replicate in E as [E _]; discriminate E.
Qed.

Lemma branches_ok_insert ty d p bs b h o : branches_ok ty d p bs -> 0 <= b < 16 ->
  (forall n, o = Some n -> node_ok ty (d + 1) (16 * p + b) n) ->
  branches_ok ty d p (<[Z.to_nat b := (fun n => (h, Some n)) <$> o]> bs).
Proof.
  intros (Hl & Hr & Hc) Hb Ho. split; [by rewrite length_insert|]. split; intros b' h'; [|intros n'].
  all: destruct (decide (Z.to_nat b = b')) as [<-|Hne]; [rewrite list_lookup_insert_eq by lia|rewrite list_lookup_insert_ne by done; first [apply Hr|apply Hc]].
  - by destruct o.
  - destruct o as [n|]; [|done]. intros [= <- <-]. rewrite Z2Nat.id by lia. by apply Ho.
Qed.

Lemma setChild_ok ty d p c h bs b o : d < 64 -> branches_ok ty d p bs -> 0 <= b < 16 ->
  (forall n, o = Some n -> node_ok ty (d + 1) (16 * p + b) n) ->
  (0 < d -> (2 <= length (before bs b ++ opt_items o ++ after bs b))%nat) ->
  node_ok ty d p (setChild b o (SHAMapInnerNode c h bs)).
Proof.
  intros Hd Hbs Hb Ho H2. apply inner_ok_iff. split; [done|]. split; [by apply branches_ok_insert|].
  change (SHAMapInnerNode c 0 _) with (setChild b o (SHAMapInnerNode c h bs)). rewrite items_setChild; [done|apply Hbs|done].
Qed.

(** ** Replaying the stack *)

Lemma dirtyUp_app cow s1 s2 t c : dirtyUp cow (s1 ++ s2) t c = dirtyUp cow s1 t c ≫= dirtyUp cow s2 t.
Proof.
  revert c. induction s1 as [|[n nid] s1 IH]; intros c; [done|]. cbn [dirtyUp app].
  destruct (selectBranch nid t); cbn [mbind res_bind]; [apply IH|done|done].
Qed.

Lemma dirtyUp_path ty cow id d p n dt top rest new : path_to id d n dt top rest ->
  node_ok ty d p n -> 0 <= d -> prefix d id = p ->
  node_ok ty dt (prefix dt id) new -> (length (items top) <= length (items new))%nat ->
  exists n', dirtyUp cow rest id new = Val n' /\ node_ok ty d p n' /\ (isInner new = true \/ rest <> [] -> isInner n' = true) /\
    exists pre post, items n = pre ++ items top ++ post /\ items n' = pre ++ items new ++ post.
Proof.
  intros Hp. revert p. induction Hp as [d c h t i|d c h bs Hb|d c h bs h' n dt top rest Hb Hp IH]; intros p Hn Hd Hpre Hnew Hlen.
  1, 2: subst; exists new; split; [done|]; split; [done|]; split; [by intros [|]|]; exists [], []; by rewrite !app_nil_r.
  apply inner_ok_iff in Hn as Hn0. destruct Hn0 as (Hd64 & Hbs & Htwo). pose proof (digit_range d id) as Hr.
  destruct (digit_slot ty d p c h bs id Hn) as [Hb'|(h1 & n1 & Hb' & Hn')]; [congruence|].
  assert (h1 = h' /\ n1 = n) as [-> ->] by (split; congruence). clear Hb'.
  destruct (IH _ Hn' ltac:(lia)) as (n' & E & Hok & _ & pre & post & E1 & E2); [rewrite prefix_succ by lia; lia|done|done|].
  exists (setChild (digit d id) (Some n') (SHAMapInnerNode cow h bs)).
  rewrite dirtyUp_app, E. cbn [mbind res_bind dirtyUp]. rewrite selectBranch_val by (cbn; lia). cbn [mbind res_bind depth_ createID].
  rewrite unshare_inner. split; [done|].
  pose proof (items_at c h bs _ _ Hb) as Ei. cbn [slot_items] in Ei. rewrite E1 in Ei.
  split; [|split; [done|]].
  - apply setChild_ok; [done|done|done| |].
    + intros ? [= <-]. done.
    + intros Hd0. specialize (Htwo Hd0). rewrite Ei in Htwo. cbn [opt_items]. rewrite E2. rewrite !length_app in *. lia.
  - exists (before bs (digit d id) ++ pre), (post ++ after bs (digit d id)).
    rewrite items_setChild by (done || apply Hbs). cbn [opt_items]. rewrite Ei, E2, <- !app_assoc. done.
Qed.

(** ** Splitting a leaf *)

Lemma empty_around b : before empty_branches b = [] /\ after empty_branches b = [].
Proof.
  assert (forall k, List.flat_map slot_items (replicate k None) = []) as Hrep by (induction k; done).
  unfold before, after, empty_branches. by rewrite take_replicate, drop_replicate, !Hrep.
Qed.

(** A leaf in a branch of a new node. *)
Lemma single_child cow b n : 0 <= b < 16 -> items (setChild b (Some n) (new_inner cow)) = items n.
Proof.
  intros Hb. unfold new_inner. rewrite items_setChild by done. destruct (empty_around b) as [-> ->]. by rewrite app_nil_r.
Qed.

Definition leaf_node (cow : Z) (ty : SHAMapNodeType) (i : SHAMapItem) : SHAMapTreeNode :=
  SHAMapLeafNode cow (updateHash_leaf ty i) ty i.

Lemma leaf_node_ok cow ty d p i : key_ok (item_key i) -> prefix d (item_key i) = p -> node_ok ty d p (leaf_node cow ty i).
Proof. intros. by constructor. Qed.

(** Two leaves in different branches of a new node. *)
Lemma pair_ok ty cow d p i j : 0 <= d < 64 -> key_ok (item_key i) -> key_ok (item_key j) ->
  prefix d (item_key i) = p -> prefix d (item_key j) = p -> digit d (item_key i) <> digit d (item_key j) ->
  let n := setChild (digit d (item_key j)) (Some (leaf_node cow ty j))
             (setChild (digit d (item_key i)) (Some (leaf_node cow ty i)) (new_inner cow)) in
  node_ok ty d p n /\ items n ≡ₚ [i; j].
Proof.
  intros Hd Hi Hj Pi Pj Hne n. pose proof (digit_range d (item_key i)) as Ri. pose proof (digit_range d (item_key j)) as Rj.
  set (bi := digit d (item_key i)) in *. set (bj := digit d (item_key j)) in *.
  set (bs := <[Z.to_nat bi := Some (0, Some (leaf_node cow ty i))]> empty_branches).
  assert (branches_ok ty d p bs) as Hbs.
  { apply (branches_ok_insert ty d p _ bi 0 (Some (leaf_node cow ty i))); [apply empty_branches_ok|done|].
    intros ? [= <-]. apply leaf_node_ok; [done|]. rewrite prefix_succ by lia. subst bi. lia. }
  assert (bs !! Z.to_nat bj = Some None) as Hj'.
  { unfold bs. rewrite list_lookup_insert_ne by lia. by apply lookup_replicate_2; lia. }
  assert (before bs bj ++ after bs bj ≡ₚ [i]) as Hone.
  { pose proof (items_at cow 0 bs bj None Hj') as E. cbn [slot_items app] in E.
    rewrite <- E. change (SHAMapInnerNode cow 0 bs) with (setChild bi (Some (leaf_node cow ty i)) (new_inner cow)).
    by rewrite single_child. }
  assert (before bs bj ++ opt_items (Some (leaf_node cow ty j)) ++ after bs bj ≡ₚ [i; j]) as Htwo.
  { cbn [opt_items leaf_node items app]. rewrite <- Permutation_middle, Hone. apply Permutation_swap. }
  change n with (setChild bj (Some (leaf_node cow ty j)) (SHAMapInnerNode cow 0 bs)). split.
  - apply setChild_ok; [lia|done|done| |].
    + intros ? [= <-]. apply leaf_node_ok; [done|]. rewrite prefix_succ by lia. subst bj. lia.
    + intros _. by rewrite Htwo.
  - rewrite items_setChild; [done|apply Hbs|done].
Qed.

(** The inner nodes [split_keys] pushes, replayed with the two leaves at their end. *)
Lemma split_keys_ok ty cow i j fuel : key_ok (item_key i) -> key_ok (item_key j) -> item_key i <> item_key j ->
  forall d p st, 0 <= d <= 64 -> 64 - d <= Z.of_nat fuel -> prefix d (item_key i) = p -> prefix d (item_key j) = p ->
  exists b1 b2 inner pushed n',
    split_keys fuel cow (item_key i) (item_key j) (new_inner cow) (createID d (item_key i)) st = Val (b1, b2, inner, pushed ++ st) /\
    dirtyUp cow pushed (item_key i) (setChild b2 (Some (leaf_node cow ty j)) (setChild b1 (Some (leaf_node cow ty i)) inner)) = Val n' /\
    node_ok ty d p n' /\ items n' ≡ₚ [i; j] /\ isInner n' = true.
Proof.
  intros Hi Hj Hne. induction fuel as [|fuel IH]; intros d p st Hd Hf Pi Pj.
  { exfalso. apply Hne. rewrite <- (prefix_64 (item_key i)), <- (prefix_64 (item_key j)).
    replace 64 with d by lia. congruence. }
  cbn [split_keys]. destruct (Z.eq_dec d 64) as [->|].
  { exfalso. apply Hne. rewrite <- (prefix_64 (item_key i)), <- (prefix_64 (item_key j)). congruence. }
  rewrite !selectBranch_val by (cbn; lia). cbn [mbind res_bind depth_ createID]. change (mkNodeID _ d) with (createID d (item_key i)).
  destruct (Z.eqb_spec (digit d (item_key i)) (digit d (item_key j))) as [E|E].
  - rewrite createID_child by lia. cbn [mbind res_bind]. pose proof (digit_range d (item_key i)) as Hr.
    destruct (IH (d + 1) (16 * p + digit d (item_key i)) ((new_inner cow, createID d (item_key i)) :: st))
      as (b1 & b2 & inner & pushed & n' & E1 & E2 & Hok & Hit & _); [lia|lia|rewrite prefix_succ by lia; lia..|].
    exists b1, b2, inner, (pushed ++ [(new_inner cow, createID d (item_key i))]), (setChild (digit d (item_key i)) (Some n') (new_inner cow)).
    rewrite <- app_assoc. split; [done|]. rewrite dirtyUp_app, E2. cbn [mbind res_bind dirtyUp].
    rewrite selectBranch_val by (cbn; lia). unfold new_inner. rewrite unshare_inner. split; [done|].
    pose proof (single_child cow (digit d (item_key i)) n' Hr) as Es. unfold new_inner in Es. rewrite Es.
    split; [|done]. apply setChild_ok; [lia|apply empty_branches_ok|done|by intros ? [= <-]|].
    intros _. cbn [opt_items]. rewrite !length_app, Hit. cbn. lia.
  - destruct (pair_ok ty cow d p i j) as [Hok Hit]; [lia|done..|].
    eexists _, _, _, [], _. split; [done|]. split; [done|]. done.
Qed.

(** ** Removing *)

(** The children of a node whose children are in memory. *)
Definition children (bs : list branch_slot) : list SHAMapTreeNode := omap (fun o => o ≫= snd) bs.

Definition resident (bs : list branch_slot) : Prop := Forall (fun o => forall h, o <> Some (h, None)) bs.

Lemma branches_resident ty d p bs : branches_ok ty d p bs -> resident bs.
Proof. intros (_ & Hr & _). apply Forall_lookup. intros b o Hb h ->. by apply (Hr b h). Qed.

Lemma elem_of_children n bs : n ∈ children bs <-> exists b h, bs !! b = Some (Some (h, Some n)).
Proof.
  unfold children. rewrite list_elem_of_omap. split.
  - intros (o & [b Hb]%list_elem_of_lookup & Ho). destruct o as [[h oc]|]; [|done]. cbn in Ho. subst oc. eauto.
  - intros (b & h & Hb). exists (Some (h, Some n)). split; [by eapply list_elem_of_lookup_2|done].
Qed.

Lemma items_children c h bs : items (SHAMapInnerNode c h bs) = concat (items <$> children bs).
Proof. rewrite items_inner. induction bs as [|[[h' [n|]]|] bs IH]; cbn; [done|by rewrite IH|done|done]. Qed.

Lemma branchCount_children bs : resident bs -> getBranchCount bs = Z.of_nat (length (children bs)).
Proof.
  unfold getBranchCount. intros Hr. f_equal. induction Hr as [|[[h [n|]]|] bs Ho Hr IH]; [done| | |].
  - rewrite filter_cons_True by eauto. cbn. by rewrite IH.
  - by specialize (Ho h).
  - rewrite filter_cons_False by (intros [? [=]]). exact IH.
Qed.

Lemma only_child_spec bs o : resident bs ->
  only_child bs o = Val (match o, children bs with Some n, [] | None, [n] => Some n | _, _ => None end).
Proof.
  intros Hr. revert o. induction Hr as [|[[h [n|]]|] bs Ho Hr IH]; intros o; cbn [only_child].
  - by destruct o.
  - change (children (Some (h, Some n) :: bs)) with (n :: children bs). destruct o; [done|]. rewrite IH. by destruct (children bs).
  - by specialize (Ho h).
  - rewrite IH. done.
Qed.

Lemma onlyBelow_spec ty fuel : forall d p n, node_ok ty d p n -> 0 < d -> 65 - d <= Z.of_nat fuel -> (0 < fuel)%nat ->
  onlyBelow fuel n = Val (match n with SHAMapLeafNode _ _ _ i => Some i | _ => None end).
Proof.
  induction fuel as [|fuel IH]; intros d p n Hn Hd Hf H0; [lia|].
  destruct n as [c h bs|c h t i]; [|done]. apply inner_ok_iff in Hn as (Hd64 & Hbs & H2). specialize (H2 Hd).
  cbn [onlyBelow]. rewrite only_child_spec by (by eapply branches_resident). cbn [mbind res_bind].
  rewrite items_children in H2. destruct (children bs) as [|n [|n' l]] eqn:Ec; [done| |done].
  assert (n ∈ children bs) as (b & h' & Hb)%elem_of_children by (rewrite Ec; by left).
  rewrite (IH (d + 1) _ n (proj2 (proj2 Hbs) _ _ _ Hb)) by lia.
  destruct n; [done|]. cbn in H2. lia.
Qed.

(** A changed node below the root is replaced by a well-formed one with the same items. *)
Lemma pull_up_spec ty d p c h bs : ty <> tnINNER -> 0 < d < 64 -> branches_ok ty d p bs -> items (SHAMapInnerNode c h bs) <> [] ->
  exists n, pull_up ty (SHAMapInnerNode c h bs) = Val (Some n) /\ node_ok ty d p n /\ items n = items (SHAMapInnerNode c h bs).
Proof.
  intros Hty Hd Hbs Hne. unfold pull_up. pose proof (branches_resident _ _ _ _ Hbs) as Hr.
  rewrite branchCount_children by done. rewrite items_children in *.
  destruct (children bs) as [|n [|n' l]] eqn:Ec; [done| |].
  - assert (n ∈ children bs) as (b & h' & Hb)%elem_of_children by (rewrite Ec; by left).
    pose proof (proj2 (proj2 Hbs) _ _ _ Hb) as Hn. cbn [length Z.of_nat Z.eqb]. cbn [Pos.of_succ_nat Pos.eqb].
    change (onlyBelow 65 (SHAMapInnerNode c h bs)) with (o ← only_child bs None; match o with Some c => onlyBelow 64 c | None => Val None end).
    rewrite only_child_spec, Ec by done. cbn [mbind res_bind]. rewrite (onlyBelow_spec ty 64 (d + 1) _ n Hn) by lia. cbn [mbind res_bind].
    destruct n as [c' h'' bs'|c' h'' t i].
    + eexists. split; [done|]. rewrite items_children, Ec. split; [|done]. apply inner_ok_iff. split; [lia|]. split; [done|].
      intros _. rewrite items_children, Ec. apply inner_ok_iff in Hn as (_ & _ & H2). cbn [fmap list_fmap concat]. rewrite app_nil_r. apply H2. lia.
    + inversion Hn as [? ? ? ? Hk Hp|]; subst. exists (leaf_node c t i). split; [by destruct t|]. split; [|done].
      apply leaf_node_ok; [done|]. pose proof (lookup_lt_Some _ _ _ Hb). destruct Hbs as (Hl & _).
      rewrite prefix_succ in Hp by lia. pose proof (digit_range d (item_key i)). lia.
  - destruct (Z.eqb_spec (Z.of_nat (length (n :: n' :: l))) 0); [cbn in *; lia|].
    destruct (Z.eqb_spec (Z.of_nat (length (n :: n' :: l))) 1); [cbn in *; lia|].
    eexists. split; [done|]. rewrite items_children, Ec. split; [|done]. apply inner_ok_iff. split; [lia|]. split; [done|].
    intros _. rewrite items_children, Ec. cbn [fmap list_fmap concat]. rewrite !length_app.
    assert (forall m, m ∈ children bs -> (0 < length (items m))%nat) as Hpos.
    { intros m (b & h' & Hb)%elem_of_children. pose proof (node_ok_items ty _ _ m (proj2 (proj2 Hbs) _ _ _ Hb) ltac:(lia)).
      destruct (items m); [done|cbn; lia]. }
    rewrite Ec in Hpos. pose proof (Hpos n ltac:(set_solver)). pose proof (Hpos n' ltac:(set_solver)). lia.
Qed.

(** The loop of [delItem] over the part of the stack below a node under the root. *)
Lemma del_up_path ty cow id d p n dt c h i rest st root : ty <> tnINNER ->
  path_to id d n dt (SHAMapLeafNode c h ty i) rest -> node_ok ty d p n -> 0 < d -> prefix d id = p ->
  exists o, del_up cow ty id (rest ++ st) None root = del_up cow ty id st o root /\
    (forall n', o = Some n' -> node_ok ty d p n') /\ items n ≡ₚ i :: opt_items o.
Proof.
  intros Hty Hp. remember (SHAMapLeafNode c h ty i) as top eqn:Et. revert p st.
  induction Hp as [d c' h' t' i'|d c' h' bs Hb|d c' h' bs h'' n dt top rest Hb Hp IH]; intros p st Hn Hd Hpre; [|done|].
  { simplify_eq. exists None. done. }
  pose proof Hn as (Hd64 & Hbs & Htwo)%inner_ok_iff. specialize (Htwo Hd). pose proof (digit_range d id) as Hr.
  destruct (digit_slot ty d p c' h' bs id Hn) as [Hb'|(h1 & n1 & Hb' & Hn')]; [congruence|].
  assert (h1 = h'' /\ n1 = n) as [-> ->] by (split; congruence). clear Hb'.
  rewrite <- app_assoc. destruct (IH Et _ ([(SHAMapInnerNode c' h' bs, createID d id)] ++ st) Hn' ltac:(lia)) as (o & E & Ho & Hit);
    [rewrite prefix_succ by lia; lia|].
  rewrite E. cbn [app del_up]. rewrite selectBranch_val by (cbn; lia). cbn [mbind res_bind depth_ createID]. rewrite unshare_inner.
  unfold isRoot. cbn [depth_ createID]. destruct (Z.eqb_spec d 0); [lia|].
  pose proof (items_at c' h' bs _ _ Hb) as Ei. cbn [slot_items] in Ei. rewrite Ei in Htwo |- *.
  assert (before bs (digit d id) ++ items n ++ after bs (digit d id) ≡ₚ i :: (before bs (digit d id) ++ opt_items o ++ after bs (digit d id))) as Hperm
    by (rewrite Hit; cbn [app]; by rewrite <- Permutation_middle).
  pose proof (items_setChild cow h' bs (digit d id) o (proj1 Hbs) Hr) as Es.
  assert (branches_ok ty d p (<[Z.to_nat (digit d id) := (fun ch => (0, Some ch)) <$> o]> bs)) as Hbs' by (by apply branches_ok_insert).
  cbn [setChild] in *.
  destruct (pull_up_spec ty d p cow 0 _ Hty ltac:(lia) Hbs') as (n' & E' & Hok & Hin).
  { rewrite Es. intros E0. rewrite Hperm, E0 in Htwo. cbn in Htwo. lia. }
  rewrite E'. cbn [mbind res_bind]. exists (Some n'). split; [done|]. split; [by intros ? [= <-]|].
  cbn [opt_items]. by rewrite Hin, Es.
Qed.

(** ** The operations *)

Lemma makeTypedLeaf_val ty i cow : ty <> tnINNER -> makeTypedLeaf ty i cow = Val (leaf_node cow ty i).
Proof. by destruct ty. Qed.

Lemma map_contents m : contents m = items_map (items (root_ m)).
Proof. reflexivity. Qed.

(** The walk of a map, and what its end says about the contents. *)
Lemma walk_contents ty m id : map_ok ty m -> key_ok id ->
  exists dt top rest, path_to id 0 (root_ m) dt top rest /\ 0 <= dt <= 64 /\
    walkTowardsKey m id = Val (leaf_of top, (top, createID dt id) :: rest) /\
    node_ok ty dt (prefix dt id) top /\
    contents m !! id = match top with SHAMapLeafNode _ _ _ i => if item_key i =? id then Some i else None | _ => None end.
Proof.
  intros Hm Hk. destruct (walkTowardsKey_path ty m id Hm) as (dt & top & rest & Hp & Hd & E).
  exists dt, top, rest. split; [done|]. split; [done|]. split; [done|].
  destruct (path_top ty id 0 0 _ _ _ _ Hp (proj2 (proj2 Hm))) as (Ht & _); [lia|by apply prefix_0|]. split; [done|].
  pose proof (findKey_spec ty m id Hm Hk) as Hf. unfold findKey in Hf. rewrite E in Hf. cbn [mbind res_bind] in Hf.
  destruct top as [c h bs|c h t i]; cbn [leaf_of isLeaf isInner negb] in Hf; injection Hf as Hf.
  - by destruct (contents m !! id).
  - destruct (item_key i =? id), (contents m !! id); cbn in Hf; simplify_eq; done.
Qed.

Lemma contents_root m r : contents (set_root r m) = items_map (items r).
Proof. reflexivity. Qed.

(** Two lists of items with one list around their difference. *)
Lemma contents_add ty m r i : map_ok ty m -> map_ok ty (set_root r m) -> items r ≡ₚ i :: items (root_ m) ->
  contents (set_root r m) = <[item_key i := i]> (contents m).
Proof.
  intros Hm Hm' Hp. rewrite contents_root, map_contents, <- items_map_cons. apply items_map_proper; [|done].
  destruct Hm' as (_ & _ & Hn). by eapply items_NoDup.
Qed.

(** A leaf is not the root. *)
Lemma path_depth id d n dt top rest : path_to id d n dt top rest -> dt = d + Z.of_nat (length rest) /\ (rest = [] -> top = n).
Proof.
  induction 1 as [| |? ? ? ? ? ? ? ? ? ? ? [IH _]]; [cbn; split; [lia|done]..|]. rewrite length_app. cbn. split; [lia|].
  intros E. by apply app_nil in E as [_ ?].
Qed.

Lemma path_leaf_not_root id n dt c h t i rest key : path_to id 0 n dt (SHAMapLeafNode c h t i) rest -> isInner n = true ->
  isRoot (createID dt key) = false.
Proof.
  intros [Hd Hr]%path_depth Hin. unfold isRoot. cbn [depth_ createID]. apply Z.eqb_neq. intros E.
  assert (rest = []) as Er by (destruct rest; [done|cbn in Hd; lia]). by rewrite <- (Hr Er) in Hin.
Qed.

Lemma addGiveItem_spec ty m i : map_ok ty m -> key_ok (item_key i) ->
  match contents m !! item_key i with
  | Some _ => addGiveItem m ty i = Val (false, m)
  | None => exists m', addGiveItem m ty i = Val (true, m') /\ map_ok ty m' /\ cowid_ m' = cowid_ m /\
              contents m' = <[item_key i := i]> (contents m)
  end.
Proof.
  intros Hm Hk. destruct (walk_contents ty m (item_key i) Hm Hk) as (dt & top & rest & Hp & Hd & E & Ht & Hc).
  pose proof Hm as (Hty & Hin & Hn). rewrite Hc. unfold addGiveItem. rewrite E. cbn [mbind res_bind].
  assert (forall new, node_ok ty dt (prefix dt (item_key i)) new -> items new ≡ₚ i :: items top ->
    (isInner new = true \/ rest <> []) -> exists r, dirtyUp (cowid_ m) rest (item_key i) new = Val r /\
    map_ok ty (set_root r m) /\ contents (set_root r m) = <[item_key i := i]> (contents m)) as Hup.
  { intros new Hnew Hit Hinn.
    destruct (dirtyUp_path ty (cowid_ m) _ _ _ _ _ _ _ new Hp Hn) as (r & Er & Hr & Hri & pre & post & E1 & E2);
      [lia|by apply prefix_0|done|rewrite Hit; cbn; lia|].
    exists r. split; [done|]. assert (map_ok ty (set_root r m)) as Hm' by (split; [done|]; split; [by apply Hri|done]).
    split; [done|]. apply contents_add with (ty := ty); [done|done|]. rewrite E1, E2, Hit. cbn [app]. by rewrite <- Permutation_middle. }
  destruct top as [c h bs|c h t j]; cbn [leaf_of isLeaf isInner negb] in *.
  - pose proof (path_top_slot _ _ _ _ _ _ _ _ Hp) as Hs. pose proof Ht as (Hd64 & Hbs & H2)%inner_ok_iff.
    pose proof (digit_range dt (item_key i)) as Hr.
    rewrite selectBranch_val by (cbn; lia). cbn [mbind res_bind depth_ createID]. rewrite unshare_inner, makeTypedLeaf_val by done. cbn [mbind res_bind].
    pose proof (items_at c h bs _ _ Hs) as Ei. cbn [slot_items app] in Ei.
    destruct (Hup (setChild (digit dt (item_key i)) (Some (leaf_node (cowid_ m) ty i)) (SHAMapInnerNode (cowid_ m) h bs))) as (r & -> & Hm' & Hc').
    + apply setChild_ok; [done|done|done| |].
      * intros ? [= <-]. apply leaf_node_ok; [done|]. by rewrite prefix_succ by lia.
      * intros H0. specialize (H2 H0). rewrite Ei in H2. cbn [opt_items leaf_node items]. rewrite !length_app in *. lia.
    + rewrite items_setChild by (done || apply Hbs). rewrite Ei. cbn [opt_items leaf_node items app]. by rewrite <- Permutation_middle.
    + by left.
    + cbn [mbind res_bind]. exists (set_root r m). done.
  - inversion Ht as [? ? ? ? Hkj Hpj|]; subst. destruct (Z.eqb_spec (item_key j) (item_key i)) as [Ek|Ek]; [done|].
    rewrite unshare_leaf. cbn [cowid].
    destruct (split_keys_ok t (cowid_ m) i j 65 Hk Hkj ltac:(congruence) dt _ rest ltac:(lia) ltac:(lia) eq_refl Hpj)
      as (b1 & b2 & inner & pushed & n' & -> & E2 & Hok & Hit & Hnin).
    cbn [mbind res_bind]. rewrite !makeTypedLeaf_val by done. cbn [mbind res_bind]. rewrite dirtyUp_app, E2. cbn [mbind res_bind].
    destruct (Hup n') as (r & -> & Hm' & Hc'); [done|done|by left|]. cbn [mbind res_bind].
    assert (isRoot (createID dt (item_key i)) = false) as ->.
    { by eapply path_leaf_not_root. }
    exists (set_root r m). done.
Qed.

Lemma relinkUp_app s1 s2 t c : relinkUp (s1 ++ s2) t c = relinkUp s1 t c ≫= relinkUp s2 t.
Proof.
  revert c. induction s1 as [|[[c' h' bs|c' h' ty i] nid] s1 IH]; intros c; [done| |]; cbn [relinkUp app].
  - destruct (selectBranch nid t); cbn [mbind res_bind]; [apply IH|done|done].
  - apply IH.
Qed.

(** Linking the node that is there changes nothing. *)
Lemma relinkUp_same ty id d p n dt top rest : path_to id d n dt top rest -> node_ok ty d p n -> 0 <= d -> relinkUp rest id top = Val n.
Proof.
  intros Hp. revert p. induction Hp as [d c h t i|d c h bs Hb|d c h bs h' n dt top rest Hb Hp IH]; intros p Hn Hd; [done|done|].
  pose proof Hn as (Hd64 & Hbs & Htwo)%inner_ok_iff.
  destruct (digit_slot ty d p c h bs id Hn) as [Hb'|(h1 & n1 & Hb' & Hn')]; [congruence|].
  assert (h1 = h' /\ n1 = n) as [-> ->] by (split; congruence).
  rewrite relinkUp_app, (IH _ Hn') by lia. cbn [mbind res_bind relinkUp]. rewrite selectBranch_val by (cbn; lia). cbn [mbind res_bind depth_ createID].
  unfold getChildHash. rewrite Hb. cbn [slot_hash]. by rewrite list_insert_id.
Qed.

(** Updating needs that a new item with the hash of the old one is the old one.  The
    map then changes exactly if the hash does. *)
Lemma updateGiveItem_eq ty m i j dt top rest : map_ok ty m -> key_ok (item_key i) ->
  path_to (item_key i) 0 (root_ m) dt top rest ->
  walkTowardsKey m (item_key i) = Val (leaf_of top, (top, createID dt (item_key i)) :: rest) ->
  node_ok ty dt (prefix dt (item_key i)) top -> items top = [j] -> isLeaf top = true -> item_key j = item_key i ->
  (updateHash_leaf ty j = updateHash_leaf ty i -> j = i) ->
  updateGiveItem m ty i =
    if updateHash_leaf ty j =? updateHash_leaf ty i then Val (true, m)
    else root ← dirtyUp (cowid_ m) rest (item_key i) (leaf_node (cowid_ m) ty i); Val (true, set_root root m).
Proof.
  intros Hm Hk Hp E Ht Hit Hleaf Ek Hcol. pose proof Hm as (Hty & Hin & Hn). unfold updateGiveItem. rewrite E. cbn [mbind res_bind].
  destruct top as [c h bs|c h t j']; [done|]. cbn in Hit. injection Hit as ->. inversion Ht as [? ? ? ? Hkj Hpj|]; subst.
  rewrite Ek, Z.eqb_refl. cbn [negb]. rewrite bool_decide_eq_true_2 by done. rewrite unshare_leaf. cbn [negb setItem].
  destruct (Z.eqb_spec (updateHash_leaf t j) (updateHash_leaf t i)) as [Eh|Eh]; cbn [negb]; [|done].
  assert (j = i) as -> by auto. pose proof (path_leaf_not_root _ _ _ _ _ _ _ _ (item_key i) Hp Hin) as ->. rewrite orb_false_r.
  assert (set_root (root_ m) m = m) as Es by (by destruct m).
  destruct (Z.eqb_spec c (cowid_ m)) as [->|]; [rewrite (relinkUp_same t _ _ _ _ _ _ _ Hp Hn) by lia|]; cbn [mbind res_bind]; by rewrite Es.
Qed.

Lemma updateGiveItem_spec ty m i : map_ok ty m -> key_ok (item_key i) ->
  (forall j, contents m !! item_key i = Some j -> updateHash_leaf ty j = updateHash_leaf ty i -> j = i) ->
  match contents m !! item_key i with
  | None => updateGiveItem m ty i = Val (false, m)
  | Some _ => exists m', updateGiveItem m ty i = Val (true, m') /\ map_ok ty m' /\ cowid_ m' = cowid_ m /\
              contents m' = <[item_key i := i]> (contents m)
  end.
Proof.
  intros Hm Hk Hcol. destruct (walk_contents ty m (item_key i) Hm Hk) as (dt & top & rest & Hp & Hd & E & Ht & Hc).
  pose proof Hm as (Hty & Hin & Hn).
  destruct top as [c h bs|c h t j]; [unfold updateGiveItem; by rewrite E, Hc|]. inversion Ht as [? ? ? ? Hkj Hpj|]; subst.
  destruct (Z.eqb_spec (item_key j) (item_key i)) as [Ek|Ek]; rewrite Hc in Hcol |- *.
  2:{ unfold updateGiveItem. rewrite E. cbn [mbind res_bind]. by destruct (Z.eqb_spec (item_key j) (item_key i)). }
  rewrite (updateGiveItem_eq t m i j dt _ rest Hm Hk Hp E Ht eq_refl eq_refl Ek (Hcol j eq_refl)).
  destruct (Z.eqb_spec (updateHash_leaf t j) (updateHash_leaf t i)) as [Eh|Eh].
  { exists m. rewrite insert_id; [done|]. by rewrite Hc, (Hcol j eq_refl Eh). }
  destruct (dirtyUp_path t (cowid_ m) _ _ _ _ _ _ _ (leaf_node (cowid_ m) t i) Hp Hn) as (r & -> & Hr & Hri & pre & post & E1 & E2);
    [lia|by apply prefix_0|by apply leaf_node_ok|cbn; lia|].
  assert (isInner r = true) as Hrin.
  { apply Hri. right. intros ->. apply path_depth in Hp as [_ Hp]. rewrite <- Hp in Hin; done. }
  cbn [mbind res_bind]. exists (set_root r m). split; [done|]. split; [done|]. split; [done|].
  cbn [leaf_node items] in *. rewrite contents_root, map_contents, E1, E2.
  pose proof (items_NoDup t 0 0 _ Hn ltac:(lia)) as Hnd. rewrite E1 in Hnd.
  pose proof (items_NoDup t 0 0 _ Hr ltac:(lia)) as Hnd'. rewrite E2 in Hnd'.
  rewrite (items_map_proper (pre ++ [i] ++ post) (i :: pre ++ post)), (items_map_proper (pre ++ [j] ++ post) (j :: pre ++ post)), !items_map_cons, Ek;
    [|done|cbn [app]; by rewrite <- Permutation_middle..|done|cbn [app]; by rewrite <- Permutation_middle].
  by rewrite insert_insert_eq.
Qed.

Lemma delItem_spec ty m id : map_ok ty m -> key_ok id ->
  match contents m !! id with
  | None => delItem m id = Val (false, m)
  | Some _ => exists m', delItem m id = Val (true, m') /\ map_ok ty m' /\ cowid_ m' = cowid_ m /\ contents m' = delete id (contents m)
  end.
Proof.
  intros Hm Hk. destruct (walk_contents ty m id Hm Hk) as (dt & top & rest & Hp & Hd & E & Ht & Hc).
  pose proof Hm as (Hty & Hin & Hn). unfold delItem. rewrite E. cbn [mbind res_bind]. rewrite Hc.
  destruct top as [c h bs|c h t i]; [done|]. inversion Ht as [? ? ? ? Hki Hpi|]; subst.
  destruct (Z.eqb_spec (item_key i) id) as [<-|Ek]; [|done]. cbn [negb].
  destruct (root_ m) as [cr hr bs|cr hr tr ir] eqn:Eroot; [|done].
  inversion Hp as [| |? ? ? ? h' n ? ? rest' Hb Hp']; subst. pose proof Hn as (Hd64 & Hbs & _)%inner_ok_iff. pose proof (digit_range 0 (item_key i)) as Hr.
  destruct (digit_slot t 0 0 cr hr bs (item_key i) Hn) as [Hb'|(h1 & n1 & Hb' & Hn')]; [congruence|].
  assert (h1 = h' /\ n1 = n) as [-> ->] by (split; congruence). clear Hb'.
  destruct (del_up_path t (cowid_ m) (item_key i) 1 _ n dt c _ i rest' [(SHAMapInnerNode cr hr bs, createID 0 (item_key i))] (SHAMapInnerNode cr hr bs)
    Hty Hp' Hn') as (o & -> & Ho & Hit); [lia|change 1 with (0 + 1); rewrite prefix_succ, prefix_0 by (done || lia); lia|].
  cbn [del_up]. rewrite selectBranch_val by (cbn; lia). cbn [mbind res_bind depth_ createID]. rewrite unshare_inner. cbn [isRoot depth_ Z.eqb].
  eexists. split; [done|]. pose proof (items_at cr hr bs _ _ Hb) as Ei. cbn [slot_items] in Ei.
  pose proof (items_setChild (cowid_ m) hr bs (digit 0 (item_key i)) o (proj1 Hbs) Hr) as Es.
  assert (node_ok t 0 0 (setChild (digit 0 (item_key i)) o (SHAMapInnerNode (cowid_ m) hr bs))) as Hok by (apply setChild_ok; [lia|done|done|done|lia]).
  split; [split; [done|]; split; done|]. split; [done|]. rewrite contents_root, map_contents, Eroot.
  pose proof (items_NoDup t 0 0 _ Hn ltac:(lia)) as Hnd.
  set (new := setChild _ _ _) in *.
  assert (items (SHAMapInnerNode cr hr bs) ≡ₚ i :: items new) as Hperm by (rewrite Ei, Es, Hit; cbn [app]; by rewrite <- Permutation_middle).
  rewrite (items_map_proper _ _ Hnd Hperm), items_map_cons. rewrite delete_insert_id; [done|].
  rewrite Hperm in Hnd. rewrite fmap_cons in Hnd. apply NoDup_cons in Hnd as [Hnd _]. by apply items_map_None.
Qed.

Lemma new_map_ok ty : ty <> tnINNER -> map_ok ty new_map.
Proof. intros Hty. split; [done|]. split; [done|]. apply inner_ok_iff. split; [lia|]. split; [apply empty_branches_ok|lia]. Qed.
End replay.
