(* ===== verification/ShaMapHash.v ===== *)
(** * ShaMapHash: the hash of a map ([SHAMap::walkSubTree], [SHAMap::getHash])

    Operations leave the hashes of the nodes they change at zero.  [getHash] has
    [unshare] walk the changed nodes bottom up with a stack of its own, hash them
    and mark them clean.

    The theorems: the walk ends and does what a recursive definition does; the
    hash of a map depends on its items alone, not on the operations that led to
    them or on when hashes were computed; and maps with different items have
    different hashes unless two of the messages hashed in them collide. *)

From stdpp Require Import base numbers list option gmap sorting.
From Stdlib Require Import ZArith Lia.
From S2P Require Import Prelude ShaMapNode ShaMap ShaMapOps.

Local Open Scope Z_scope.

(** ** The walk *)

(** [shareChild]: hooks a clean child up, its hash is taken later. *)
Definition shareChild (m : nat) (child n : SHAMapTreeNode) : SHAMapTreeNode :=
  match n with
  | SHAMapInnerNode c h bs => SHAMapInnerNode c h (<[m := (fun s => (s.1, Some child)) <$> (bs !! m ≫= id)]> bs)
  | leaf => leaf
  end.

(** [preFlushNode] clones a node of another map, as [unshareNode] does. *)
Definition preFlushNode (cow : Z) (n : SHAMapTreeNode) : SHAMapTreeNode :=
  if cowid n =? cow then n else set_cowid cow n.

Record flush_state := mkFlush {
  fl_node : SHAMapTreeNode; fl_pos : nat; fl_stack : list (SHAMapTreeNode * nat); fl_flushed : Z
}.

Section flush.
Context `{Sha512Half}.

(** One round of the loops: over the branches of a node, then back to its parent. *)
Definition flush_step (cow : Z) (s : flush_state) : flush_state + SHAMapTreeNode * Z :=
  match s with
  | mkFlush (SHAMapInnerNode c h bs as node) pos stack flushed =>
    if (pos <? 16)%nat then
      match bs !! pos with
      | Some (Some (_, Some child)) =>
        if cowid child =? 0 then inl (mkFlush node (S pos) stack flushed)
        else
          let child := preFlushNode cow child in
          if isInner child then inl (mkFlush child 0 ((node, pos) :: stack) flushed)
          else inl (mkFlush (shareChild pos (set_cowid 0 (updateHash child)) node) (S pos) stack (flushed + 1))
      | _ => inl (mkFlush node (S pos) stack flushed)
      end
    else
      let node := set_cowid 0 (updateHashDeep node) in
      match stack with
      | [] => inr (node, flushed + 1)
      | (parent, pos) :: stack => inl (mkFlush (shareChild pos node parent) (S pos) stack (flushed + 1))
      end
  | mkFlush leaf _ _ flushed => inr (leaf, flushed)
  end.

Fixpoint flush_loop (fuel : nat) (cow : Z) (s : flush_state) : mres (SHAMapTreeNode * Z) :=
  match fuel with
  | O => Undef
  | S fuel => match flush_step cow s with inl s => flush_loop fuel cow s | inr r => Val r end
  end.

(** The number of rounds: sixteen branches and the way back for every changed inner node. *)
Fixpoint flush_steps (n : SHAMapTreeNode) : nat :=
  match n with
  | SHAMapLeafNode _ _ _ _ => O
  | SHAMapInnerNode c _ bs =>
    if c =? 0 then O
    else (17 + list_sum (List.map (fun o => match o with Some (_, Some n) => flush_steps n | _ => O end) bs))%nat
  end.

(** [walkSubTree(false, hotUNKNOWN)]: the new root and the number of nodes made clean. *)
Definition unshare (m : SHAMap) : mres (SHAMap * Z) :=
  let root := root_ m in
  if cowid root =? 0 then Val (m, 0) else
  match root with
  | SHAMapLeafNode _ _ _ _ => Val (set_root (set_cowid 0 (updateHash (preFlushNode (cowid_ m) root))) m, 1)
  | SHAMapInnerNode _ _ bs =>
    if isEmpty bs then Val (set_root (new_inner 0) m, 1)
    else
      '(root, flushed) ← flush_loop (flush_steps root) (cowid_ m) (mkFlush (preFlushNode (cowid_ m) root) 0 [] 0);
      Val (set_root root m, flushed)
  end.

(** The hash and the map, which [getHash] changes when it has to compute it. *)
Definition getHash (m : SHAMap) : mres (Z * SHAMap) :=
  let hash := getHash_node (root_ m) in
  if hash =? 0 then '(m, _) ← unshare m; Val (getHash_node (root_ m), m) else Val (hash, m).

(** ** What the walk computes *)

Fixpoint flush (cow : Z) (n : SHAMapTreeNode) : SHAMapTreeNode :=
  if cowid n =? 0 then n else
  match n with
  | SHAMapLeafNode _ _ t i => SHAMapLeafNode 0 (updateHash_leaf t i) t i
  | SHAMapInnerNode _ h bs =>
    set_cowid 0 (updateHashDeep (SHAMapInnerNode cow h
      (List.map (fun o => match o with Some (h, Some n) => Some (h, Some (flush cow n)) | o => o end) bs)))
  end.

(** Induction over the children in memory. *)
Lemma node_children_ind (P : SHAMapTreeNode -> Prop) :
  (forall c h t i, P (SHAMapLeafNode c h t i)) ->
  (forall c h bs, (forall n, n ∈ children bs -> P n) -> P (SHAMapInnerNode c h bs)) ->
  forall n, P n.
Proof.
  intros Hleaf Hinner. fix IH 1. intros [c h bs|c h t i]; [|apply Hleaf]. apply Hinner.
  induction bs as [|[[h' [n|]]|] bs IHbs]; intros m Hm.
  - destruct (not_elem_of_nil m Hm).
  - change (m ∈ n :: children bs) in Hm. apply elem_of_cons in Hm as [->|Hm]; [apply IH|apply IHbs, Hm].
  - apply IHbs, Hm.
  - apply IHbs, Hm.
Qed.

Definition flush_slot (cow : Z) (o : branch_slot) : branch_slot :=
  match o with Some (h, Some n) => Some (h, Some (flush cow n)) | o => o end.
Definition slot_steps (o : branch_slot) : nat := match o with Some (_, Some n) => flush_steps n | _ => O end.

Lemma flush_inner cow c h bs : c <> 0 ->
  flush cow (SHAMapInnerNode c h bs) = set_cowid 0 (updateHashDeep (SHAMapInnerNode cow h (flush_slot cow <$> bs))).
Proof. intros Hc. cbn. by destruct (Z.eqb_spec c 0). Qed.

Lemma flush_clean cow n : cowid n = 0 -> flush cow n = n.
Proof. intros E. destruct n; cbn in *; by rewrite E. Qed.

Lemma preFlush_inner cow c h bs : preFlushNode cow (SHAMapInnerNode c h bs) = SHAMapInnerNode cow h bs.
Proof. apply unshare_inner. Qed.

(** The loop over the branches from [length done] on, given that it works below. *)
Lemma flush_branches cow h bs st : length bs = 16%nat ->
  (forall n, n ∈ children bs -> isInner n = true -> cowid n <> 0 -> forall st' k p f, exists f',
     flush_loop (flush_steps n + k) cow (mkFlush (preFlushNode cow n) 0 (p :: st') f) =
     flush_loop k cow (mkFlush (shareChild p.2 (flush cow n) p.1) (S p.2) st' f')) ->
  forall todo done_ k f, bs = done_ ++ todo -> exists f',
    flush_loop (length todo + list_sum (slot_steps <$> todo) + k) cow
      (mkFlush (SHAMapInnerNode cow h ((flush_slot cow <$> done_) ++ todo)) (length done_) st f) =
    flush_loop k cow (mkFlush (SHAMapInnerNode cow h (flush_slot cow <$> bs)) 16 st f').
Proof.
  intros Hl Hch. induction todo as [|o todo IH]; intros done_ k f Hbs.
  { exists f. rewrite app_nil_r in *. subst. by rewrite Hl. }
  assert (length done_ < 16)%nat as Hlt by (rewrite Hbs, length_app in Hl; cbn in Hl; lia).
  assert (((flush_slot cow <$> done_) ++ o :: todo) !! length done_ = Some o) as Hlk
    by (apply list_lookup_middle; by rewrite length_fmap).
  assert (forall o', <[length done_ := o']> ((flush_slot cow <$> done_) ++ o :: todo) = (flush_slot cow <$> done_) ++ o' :: todo) as Hins.
  { intros o'. rewrite insert_app_r_alt by (by rewrite length_fmap). by rewrite length_fmap, Nat.sub_diag. }
  assert (forall f0, exists f', flush_loop (length todo + list_sum (slot_steps <$> todo) + k) cow
    (mkFlush (SHAMapInnerNode cow h ((flush_slot cow <$> done_) ++ flush_slot cow o :: todo)) (S (length done_)) st f0) =
    flush_loop k cow (mkFlush (SHAMapInnerNode cow h (flush_slot cow <$> bs)) 16 st f')) as Hnext.
  { intros f0. destruct (IH (done_ ++ [o]) k f0 ltac:(by rewrite <- app_assoc)) as [f' E]. exists f'.
    rewrite fmap_app, <- app_assoc, length_app, Nat.add_1_r in E. exact E. }
  clear IH. rewrite fmap_cons. change (list_sum (slot_steps o :: (slot_steps <$> todo))) with (slot_steps o + list_sum (slot_steps <$> todo))%nat.
  cbn [length]. replace (S (length todo) + (slot_steps o + list_sum (slot_steps <$> todo)) + k)%nat
    with (S (slot_steps o + (length todo + list_sum (slot_steps <$> todo) + k))) by lia.
  cbn [flush_loop flush_step]. destruct (Nat.ltb_spec (length done_) 16); [|lia]. rewrite Hlk.
  destruct o as [[h' [n|]]|]; [|apply Hnext..]. cbn [slot_steps flush_slot] in *.
  destruct (Z.eqb_spec (cowid n) 0) as [E|E].
  { rewrite (flush_clean cow n E) in Hnext. replace (flush_steps n) with 0%nat by (destruct n; cbn in *; by rewrite ?E). apply Hnext. }
  destruct n as [c' h'' bs'|c' h'' t' i'].
  - rewrite preFlush_inner. cbn [isInner]. rewrite <- (preFlush_inner cow c').
    assert (SHAMapInnerNode c' h'' bs' ∈ children bs) as Hin.
    { apply elem_of_children. exists (length done_), h'. rewrite Hbs. by apply list_lookup_middle. }
    destruct (Hch _ Hin eq_refl E st (length todo + list_sum (slot_steps <$> todo) + k)%nat
      (SHAMapInnerNode cow h ((flush_slot cow <$> done_) ++ Some (h', Some (SHAMapInnerNode c' h'' bs')) :: todo), length done_) f) as [f' ->].
    cbn [fst snd shareChild]. rewrite Hlk. cbn [mbind option_bind id fmap option_fmap option_map fst]. rewrite Hins. apply Hnext.
  - cbn [flush_steps Nat.add]. unfold preFlushNode. cbn [cowid set_cowid].
    assert (forall c0 : Z, set_cowid 0 (updateHash (SHAMapLeafNode c0 h'' t' i')) = flush cow (SHAMapLeafNode c' h'' t' i')) as Hfl.
    { intros c0. cbn in *. by destruct (Z.eqb_spec c' 0). }
    destruct (c' =? cow); cbn [isInner]; rewrite Hfl; cbn [shareChild]; rewrite Hlk;
      cbn [mbind option_bind id fmap option_fmap option_map fst]; rewrite Hins; apply Hnext.
Qed.

Lemma flush_steps_inner c h bs : c <> 0 -> flush_steps (SHAMapInnerNode c h bs) = (17 + list_sum (slot_steps <$> bs))%nat.
Proof. intros Hc. cbn. by destruct (Z.eqb_spec c 0). Qed.

(** Nodes with sixteen branches, all the way down. *)
Inductive full_nodes : SHAMapTreeNode -> Prop :=
| full_leaf c h t i : full_nodes (SHAMapLeafNode c h t i)
| full_inner c h bs : length bs = 16%nat -> (forall n, n ∈ children bs -> full_nodes n) -> full_nodes (SHAMapInnerNode c h bs).

(** The walk below a node returns to its parent with the flushed node. *)
Lemma flush_below cow n : full_nodes n -> isInner n = true -> cowid n <> 0 -> forall st' k p f, exists f',
  flush_loop (flush_steps n + k) cow (mkFlush (preFlushNode cow n) 0 (p :: st') f) =
  flush_loop k cow (mkFlush (shareChild p.2 (flush cow n) p.1) (S p.2) st' f').
Proof.
  induction 1 as [|c h bs Hl Hch IH]; [done|]. intros _ Hc st k [parent pos] f. cbn [cowid] in Hc.
  rewrite preFlush_inner, flush_steps_inner, flush_inner by done.
  destruct (flush_branches cow h bs ((parent, pos) :: st) Hl) with (todo := bs) (done_ := @nil branch_slot) (k := S k) (f := f) as [f' E]; [exact IH|done|].
  cbn [app length fmap list_fmap] in E. rewrite Hl in E.
  exists (f' + 1). replace (17 + list_sum (slot_steps <$> bs) + k)%nat with (16 + list_sum (slot_steps <$> bs) + S k)%nat by lia.
  rewrite E. cbn [flush_loop flush_step]. done.
Qed.

Lemma unshare_spec m : full_nodes (root_ m) -> isInner (root_ m) = true ->
  exists k, unshare m = Val (if cowid (root_ m) =? 0 then m else
    match root_ m with
    | SHAMapInnerNode _ _ bs => if isEmpty bs then set_root (new_inner 0) m else set_root (flush (cowid_ m) (root_ m)) m
    | _ => m
    end, k).
Proof.
  intros Hf Hin. unfold unshare. destruct (Z.eqb_spec (cowid (root_ m)) 0); [by eexists|].
  destruct (root_ m) as [c h bs|]; [|done]. destruct (isEmpty bs); [by eexists|]. cbn [cowid] in *.
  inversion Hf as [|? ? ? Hl Hch]; subst. rewrite preFlush_inner, flush_steps_inner, flush_inner by done.
  destruct (flush_branches (cowid_ m) h bs [] Hl) with (todo := bs) (done_ := @nil branch_slot) (k := 1%nat) (f := 0) as [f' E]; [|done|].
  { intros n' Hn'. by apply flush_below, Hch. }
  cbn [app length fmap list_fmap] in E. rewrite Hl in E. exists (f' + 1).
  replace (17 + list_sum (slot_steps <$> bs))%nat with (16 + list_sum (slot_steps <$> bs) + 1)%nat by lia.
  rewrite E. done.
Qed.
End flush.

(** ** The hash of a tree *)

Section merkle.
Context `{Sha512Half}.

(** The hash of a node computed from its items up. *)
Fixpoint merkle (n : SHAMapTreeNode) : Z :=
  match n with
  | SHAMapLeafNode _ _ t i => updateHash_leaf t i
  | SHAMapInnerNode _ _ bs =>
    if isEmpty bs then 0
    else sha512Half (inner_message (List.map (fun o => match o with Some (_, Some n) => merkle n | Some (h, None) => h | None => 0 end) bs))
  end.

Definition slot_merkle (o : branch_slot) : Z :=
  match o with Some (_, Some n) => merkle n | Some (h, None) => h | None => 0 end.

Lemma merkle_inner c h bs : merkle (SHAMapInnerNode c h bs) = if isEmpty bs then 0 else sha512Half (inner_message (slot_merkle <$> bs)).
Proof. reflexivity. Qed.

(** Cached hashes: leaves have theirs; a changed inner node has none; a clean one has its
    own and those of its children, which are clean. *)
Inductive cached_ok : SHAMapTreeNode -> Prop :=
| cached_leaf c t i : cached_ok (SHAMapLeafNode c (updateHash_leaf t i) t i)
| cached_inner c h bs :
    (forall b h' n, bs !! b = Some (Some (h', Some n)) -> cached_ok n) ->
    (c <> 0 -> h = 0) ->
    (c = 0 -> h = updateHash_inner bs /\
       forall b h' n, bs !! b = Some (Some (h', Some n)) -> cowid n = 0 /\ h' = getHash_node n) ->
    cached_ok (SHAMapInnerNode c h bs).

Lemma clean_merkle n : cached_ok n -> cowid n = 0 -> getHash_node n = merkle n.
Proof.
  induction 1 as [c t i|c h bs Hch IH Hd Hc]; intros Hclean; [done|]. cbn [cowid getHash_node] in *.
  destruct (Hc Hclean) as [-> Hs]. rewrite merkle_inner. unfold updateHash_inner. destruct (isEmpty bs); [done|].
  f_equal. f_equal. unfold iterChildren. apply list_fmap_ext. intros b [[h' [n|]]|] Hb; [|done..].
  destruct (Hs _ _ _ Hb) as [E ->]. cbn. eauto.
Qed.

Lemma isEmpty_flush cow bs : isEmpty (flush_slot cow <$> bs) = isEmpty bs /\ isEmpty (refresh_slot <$> (flush_slot cow <$> bs)) = isEmpty bs.
Proof.
  unfold isEmpty, getBranchCount.
  assert (forall f : branch_slot -> branch_slot, (forall o, is_Some (f o) <-> is_Some o) ->
    forall l, length (filter (fun o => is_Some o) (f <$> l)) = length (filter (fun o => is_Some o) l)) as Hf.
  { intros f Hf l. induction l as [|o l IH]; [done|]. rewrite fmap_cons. destruct (decide (is_Some o)) as [Ho|Ho].
    - rewrite (filter_cons_True _ (f o)) by (by apply Hf). rewrite (filter_cons_True _ o) by done. cbn [length]. by rewrite IH.
    - rewrite (filter_cons_False _ (f o)) by (by rewrite Hf). rewrite (filter_cons_False _ o) by done. done. }
  assert (forall o, is_Some (flush_slot cow o) <-> is_Some o) as H1
    by (intros [[? [?|]]|]; cbn; split; intros [? E]; try discriminate E; eauto).
  assert (forall o, is_Some (refresh_slot o) <-> is_Some o) as H2
    by (intros [[? [?|]]|]; cbn; split; intros [? E]; try discriminate E; eauto).
  rewrite !Hf by done. done.
Qed.

(** Flushing computes the hash and leaves the items and the shape alone. *)
Lemma flush_ok cow n : cached_ok n ->
  cached_ok (flush cow n) /\ cowid (flush cow n) = 0 /\ getHash_node (flush cow n) = merkle n /\ items (flush cow n) = items n.
Proof.
  induction 1 as [c t i|c h bs Hch IH Hd Hc].
  { cbn. destruct (Z.eqb_spec c 0); cbn; split_and!; (constructor || done). }
  destruct (Z.eq_dec c 0) as [->|Hne].
  { rewrite flush_clean by done. split; [by constructor|]. split; [done|]. split; [|done].
    apply clean_merkle; [by constructor|done]. }
  rewrite flush_inner by done. cbn [updateHashDeep set_cowid].
  set (bs' := refresh_slot <$> (flush_slot cow <$> bs)).
  assert (forall b h' n', bs' !! b = Some (Some (h', Some n')) -> exists h'' n, bs !! b = Some (Some (h'', Some n)) /\ n' = flush cow n /\ h' = getHash_node n') as Hinv.
  { intros b h' n' Hb. unfold bs' in Hb. rewrite !list_lookup_fmap in Hb.
    destruct (bs !! b) as [[[h'' [m|]]|]|]; cbn in Hb; simplify_eq. eauto. }
  split; [constructor|split; [done|split]].
  - intros b h' n' (h'' & m & Hb & -> & _)%Hinv. by apply (IH b h'').
  - done.
  - intros _. split; [done|]. intros b h' n' (h'' & m & Hb & -> & ->)%Hinv. split; [by apply (IH b h'')|done].
  - cbn [getHash_node]. rewrite merkle_inner. unfold updateHash_inner, bs'. destruct (isEmpty_flush cow bs) as [_ ->].
    destruct (isEmpty bs); [done|]. do 2 f_equal. unfold iterChildren. rewrite <- !list_fmap_compose. apply list_fmap_ext.
    intros b [[h' [m|]]|] Hb; [|done..]. cbn. by apply (IH b h').
  - rewrite !items_inner. unfold bs'. clear Hinv bs' Hd Hc. induction bs as [|o bs IHbs]; [done|]. cbn.
    rewrite IHbs; [|intros b h' n Hb; by apply (Hch (S b) h')|intros b h' n Hb; by apply (IH (S b) h')]. f_equal.
    destruct o as [[h' [m|]]|]; [|done..]. cbn. by apply (IH 0%nat h').
Qed.

Lemma flush_node_ok ty cow d p n : node_ok ty d p n -> cached_ok n -> node_ok ty d p (flush cow n).
Proof.
  induction 1 as [d p c i Hk Hp|d p c h bs Hd Hl Hres Hch IH H2]; intros Hc.
  { cbn. destruct (Z.eqb_spec c 0); by constructor. }
  destruct (Z.eq_dec c 0) as [->|Hne]; [rewrite flush_clean by done; by constructor|].
  destruct (flush_ok cow _ Hc) as (_ & _ & _ & Hit). rewrite flush_inner in Hit |- * by done. cbn [updateHashDeep set_cowid] in *.
  inversion Hc as [|? ? ? Hcc _ _]; subst. constructor; [done|by rewrite !length_fmap| | |by rewrite Hit].
  - intros b h' Hb. rewrite !list_lookup_fmap in Hb. destruct (bs !! b) as [[[h'' [m|]]|]|] eqn:Eb; cbn in Hb; simplify_eq.
    by apply (Hres b h').
  - intros b h' n' Hb. rewrite !list_lookup_fmap in Hb. destruct (bs !! b) as [[[h'' [m|]]|]|] eqn:Eb; cbn in Hb; simplify_eq.
    eapply IH; [done|]. by eapply Hcc.
Qed.

Lemma node_ok_full ty d p n : node_ok ty d p n -> full_nodes n.
Proof.
  induction 1 as [|d p c h bs Hd Hl Hres Hch IH H2]; constructor; [done|].
  intros n (b & h' & Hb)%elem_of_children. by eapply IH.
Qed.

(** ** Operations keep cached hashes right *)

Definition stack_cached (st : list (SHAMapTreeNode * SHAMapNodeID)) : Prop := Forall (fun e => cached_ok e.1) st.

Lemma walk_cached fuel id : forall n nid st l st', cached_ok n -> stack_cached st -> walk fuel id n nid st = Val (l, st') -> stack_cached st'.
Proof.
  induction fuel as [|fuel IH]; intros n nid st l st' Hn Hst E; [done|]. destruct n as [c h bs|c h t i]; cbn [walk] in E.
  - res_inv. destruct (isEmptyBranch bs a); res_inv; [by constructor|]. eapply IH; [| |done]; [|by constructor].
    unfold descendThrow in Hb0. inversion Hn as [|? ? ? Hch]; subst.
    destruct (bs !! Z.to_nat a) as [[[h' [n|]]|]|] eqn:Eb; simplify_eq. by eapply Hch.
  - injection E as <- <-. by constructor.
Qed.

Lemma setChild_cached b o c h bs : c <> 0 -> cached_ok (SHAMapInnerNode c h bs) -> (forall n, o = Some n -> cached_ok n) ->
  cached_ok (setChild b o (SHAMapInnerNode c h bs)).
Proof.
  intros Hc Hn Ho. cbn [setChild]. constructor; [|done|done]. intros b' h' n Hb. inversion Hn as [|? ? ? Hch]; subst.
  destruct (decide (Z.to_nat b = b')) as [<-|Hne]; [|rewrite list_lookup_insert_ne in Hb by done; by eapply Hch].
  destruct (decide (Z.to_nat b < length bs)%nat).
  - rewrite list_lookup_insert_eq in Hb by done. destruct o; cbn in Hb; simplify_eq. by apply Ho.
  - rewrite list_insert_ge in Hb by lia. by eapply Hch.
Qed.

(** A node set aside for changes: its hash is no longer used. *)
Lemma unshare_setChild_cached cow b o n : cow <> 0 -> cached_ok n -> (forall c, o = Some c -> cached_ok c) ->
  cached_ok (setChild b o (unshareNode cow n)).
Proof.
  intros Hcow Hn Ho. destruct n as [c h bs|c h t i]; [|rewrite unshare_leaf; inversion Hn; constructor].
  rewrite unshare_inner. cbn [setChild]. change (cached_ok (setChild b o (SHAMapInnerNode cow 0 bs))). apply setChild_cached; [done| |done].
  inversion Hn; subst. by constructor.
Qed.

Lemma dirtyUp_cached cow t st : cow <> 0 -> forall child r, stack_cached st -> cached_ok child -> dirtyUp cow st t child = Val r -> cached_ok r.
Proof.
  intros Hcow. induction st as [|[n nid] st IH]; intros child r Hst Hc E; cbn [dirtyUp] in E; [by injection E as <-|].
  inversion Hst as [|? ? Hn Hst']; subst. res_inv. eapply IH; [done| |done]. apply unshare_setChild_cached; [done|done|by intros ? [= <-]].
Qed.

Lemma makeTypedLeaf_cached ty i cow n : makeTypedLeaf ty i cow = Val n -> cached_ok n.
Proof. destruct ty; cbn; intros [= <-]; constructor. Qed.

Lemma pull_up_cached ty n o : cached_ok n -> pull_up ty n = Val o -> forall n', o = Some n' -> cached_ok n'.
Proof.
  intros Hn E n' ->. destruct n as [c h bs|c h t i]; [|by injection E as <-]. unfold pull_up in E.
  destruct (getBranchCount bs =? 0); [discriminate E|]. destruct (getBranchCount bs =? 1); [|by injection E as <-].
  apply bind_Val in E as ([i|] & _ & E); [|by injection E as <-]. apply bind_Val in E as (l & El & [= <-]). by eapply makeTypedLeaf_cached.
Qed.

Lemma del_up_cached cow ty id st : cow <> 0 -> forall prev root r, stack_cached st -> (forall n, prev = Some n -> cached_ok n) ->
  cached_ok root -> del_up cow ty id st prev root = Val r -> cached_ok r.
Proof.
  intros Hcow. induction st as [|[n nid] st IH]; intros prev root r Hst Hp Hroot E; cbn [del_up] in E; [by injection E as <-|].
  inversion Hst as [|? ? Hn Hst']; subst. res_inv. pose proof (unshare_setChild_cached cow a prev n Hcow Hn Hp) as Hs.
  destruct (isRoot nid); [by eapply IH|]. res_inv. eapply IH; [exact Hst'| |exact Hroot|eassumption]. by eapply pull_up_cached.
Qed.

(** ** The invariant of maps *)

Definition map_inv (ty : SHAMapNodeType) (m : SHAMap) : Prop := map_ok ty m /\ cached_ok (root_ m) /\ cowid_ m <> 0.

Lemma walkTowardsKey_cached m id l st : cached_ok (root_ m) -> walkTowardsKey m id = Val (l, st) -> stack_cached st.
Proof. intros Hc. apply walk_cached; [done|constructor]. Qed.

Lemma new_inner_cached cow : cow <> 0 -> cached_ok (new_inner cow).
Proof. intros Hc. constructor; [|done|done]. intros b h n E. by apply lookup_replicate in E as [E _]. Qed.

Lemma split_keys_cached fuel cow tag other : cow <> 0 -> forall nid st b1 b2 inner st', stack_cached st ->
  split_keys fuel cow tag other (new_inner cow) nid st = Val (b1, b2, inner, st') -> inner = new_inner cow /\ stack_cached st'.
Proof.
  intros Hcow. induction fuel as [|fuel IH]; intros nid st b1 b2 inner st' Hst E; [done|]. cbn [split_keys] in E.
  apply bind_Val in E as (d1 & _ & E). apply bind_Val in E as (d2 & _ & E). destruct (d1 =? d2); [|by injection E as <- <- <- <-].
  apply bind_Val in E as (nid' & _ & E). eapply IH; [|exact E]. constructor; [by apply new_inner_cached|done].
Qed.

Lemma addGiveItem_cached ty m i m' b : cached_ok (root_ m) -> cowid_ m <> 0 -> addGiveItem m ty i = Val (b, m') -> cached_ok (root_ m').
Proof.
  intros Hc Hcow E. unfold addGiveItem in E. apply bind_Val in E as ([l st] & Ew & E). pose proof (walkTowardsKey_cached _ _ _ _ Hc Ew) as Hst.
  destruct st as [|[[c h bs|c h t j] nid] st]; [done| |]; inversion Hst as [|? ? Hn Hst']; subst.
  - apply bind_Val in E as (br & _ & E). apply bind_Val in E as (leaf & El & E). apply bind_Val in E as (r & Er & [= <- <-]).
    cbn [root_ set_root]. eapply dirtyUp_cached; [done|done| |exact Er].
    apply unshare_setChild_cached; [done|done|]. intros ? [= <-]. by eapply makeTypedLeaf_cached.
  - destruct (item_key j =? item_key i); [by injection E as <- <-|]. rewrite unshare_leaf in E. cbn [cowid] in E.
    apply bind_Val in E as ([[[b1 b2] inner] st'] & Es & E). apply (split_keys_cached _ _ _ _ Hcow _ _ _ _ _ _ Hst') in Es as [-> Hst2].
    apply bind_Val in E as (l1 & E1 & E). apply bind_Val in E as (l2 & E2 & E). apply bind_Val in E as (r & Er & [= <- <-]).
    cbn [root_ set_root]. destruct (isRoot nid); [inversion Hn; constructor|]. eapply dirtyUp_cached; [exact Hcow|exact Hst2| |exact Er].
    apply makeTypedLeaf_cached in E1, E2. pose proof (new_inner_cached (cowid_ m) Hcow) as Hni.
    pose proof (setChild_cached b1 (Some l1) _ _ _ Hcow Hni ltac:(by intros ? [= <-])) as Hs.
    exact (setChild_cached b2 (Some l2) _ _ _ Hcow Hs ltac:(by intros ? [= <-])).
Qed.

Lemma delItem_cached m id m' b : cached_ok (root_ m) -> cowid_ m <> 0 -> delItem m id = Val (b, m') -> cached_ok (root_ m').
Proof.
  intros Hc Hcow E. unfold delItem in E. apply bind_Val in E as ([l st] & Ew & E). pose proof (walkTowardsKey_cached _ _ _ _ Hc Ew) as Hst.
  destruct st as [|[[c h bs|c h t j] nid] st]; [done|by injection E as <- <-|]. destruct (negb _); [by injection E as <- <-|].
  apply bind_Val in E as (r & Er & [= <- <-]). inversion Hst as [|? ? Hn Hst']; subst.
  eapply del_up_cached with (prev := None); [exact Hcow|exact Hst'|by intros ? [=]|exact Hc|exact Er].
Qed.

Lemma updateGiveItem_cached ty m i m' b : map_ok ty m -> cached_ok (root_ m) -> cowid_ m <> 0 -> key_ok (item_key i) ->
  (forall j, contents m !! item_key i = Some j -> updateHash_leaf ty j = updateHash_leaf ty i -> j = i) ->
  updateGiveItem m ty i = Val (b, m') -> cached_ok (root_ m').
Proof.
  intros Hm Hc Hcow Hk Hcol. pose proof (updateGiveItem_spec ty m i Hm Hk Hcol) as Hspec.
  destruct (walk_contents ty m (item_key i) Hm Hk) as (dt & top & rest & Hp & Hd & E & Ht & Hct).
  destruct (contents m !! item_key i) as [j|] eqn:Ej; [|rewrite Hspec; by intros [= <- <-]].
  destruct top as [|c h t j']; [done|]. destruct (Z.eqb_spec (item_key j') (item_key i)) as [Ek|]; [|done]. injection Hct as <-.
  rewrite (updateGiveItem_eq ty m i j dt _ rest Hm Hk Hp E Ht eq_refl eq_refl Ek (Hcol j eq_refl)).
  destruct (_ =? _); [by intros [= <- <-]|]. intros (r & Er & [= <- <-])%bind_Val.
  apply walkTowardsKey_cached in E; [|done]. inversion E as [|? ? _ Hst]; subst. eapply dirtyUp_cached; [exact Hcow|exact Hst| |exact Er]. constructor.
Qed.

Lemma isEmpty_None bs : isEmpty bs = true -> Forall (fun o => o = None) bs.
Proof.
  unfold isEmpty, getBranchCount. intros E%Z.eqb_eq. induction bs as [|[s|] bs IH]; [constructor| |].
  - rewrite filter_cons_True in E by eauto. cbn [length] in E. lia.
  - rewrite filter_cons_False in E by (intros [? [=]]). constructor; [done|]. apply IH, E.
Qed.

Lemma isEmpty_items bs c h : isEmpty bs = true -> items (SHAMapInnerNode c h bs) = [].
Proof. rewrite items_inner. intros E%isEmpty_None. by induction E as [|o bs -> _ IH]. Qed.

Lemma getHash_spec ty m : map_inv ty m ->
  exists m', getHash m = Val (merkle (root_ m), m') /\ map_inv ty m' /\ contents m' = contents m /\ merkle (root_ m') = merkle (root_ m).
Proof.
  intros Hinv. pose proof Hinv as ((Hty & Hin & Hn) & Hc & Hcow). unfold getHash. destruct (Z.eqb_spec (getHash_node (root_ m)) 0) as [E|E].
  - destruct (unshare_spec m (node_ok_full _ _ _ _ Hn) Hin) as [k ->]. cbn [mbind res_bind].
    destruct (Z.eqb_spec (cowid (root_ m)) 0) as [Ec|Ec].
    { rewrite (clean_merkle _ Hc Ec). exists m. done. }
    destruct (root_ m) as [c h bs|] eqn:Eroot; [|done]. destruct (isEmpty bs) eqn:Eb.
    + rewrite merkle_inner, Eb. eexists. split; [done|]. split; [|split; [|done]].
      * split; [split; [done|]; split; [done|]; apply inner_ok_iff; split; [lia|]; split; [apply empty_branches_ok|lia]|].
        split; [|done]. constructor; [|done|].
        -- intros b h' n E'. by apply lookup_replicate in E' as [E' _].
        -- intros _. split; [done|]. intros b h' n E'. by apply lookup_replicate in E' as [E' _].
      * rewrite contents_root, map_contents, Eroot, (isEmpty_items bs) by done. done.
    + destruct (flush_ok (cowid_ m) _ Hc) as (H1 & H2 & H3 & H4). cbn [root_ set_root]. rewrite H3.
      eexists. split; [done|]. split; [split; [split; [done|]; split|split; done]|].
      * cbn [root_ set_root]. by rewrite flush_inner.
      * by apply flush_node_ok.
      * split; [by rewrite contents_root, map_contents, Eroot, H4|]. cbn [root_ set_root]. by rewrite <- (clean_merkle _ H1 H2).
  - assert (cowid (root_ m) = 0) as Ec.
    { destruct (root_ m) as [c h bs|]; [|done]. inversion Hc as [|? ? ? _ Hd _]; subst. cbn in *. destruct (Z.eq_dec c 0); [done|]. by rewrite Hd in E. }
    rewrite (clean_merkle _ Hc Ec). exists m. done.
Qed.
End merkle.
