(* ===== verification/ShaMapSpec.v ===== *)
(** * ShaMapSpec: what a SHAMap promises

    Sequences of operations on a new map, hash computations included, against a
    finite map; and the correspondence between items and hashes that consensus
    rests on: ledgers with the same items have the same hash, however they were
    built, and ledgers with the same hash have the same items. *)

From stdpp Require Import base numbers list option gmap sorting.
From Stdlib Require Import ZArith Lia.
From S2P Require Import Prelude ShaMapNode ShaMap ShaMapOps ShaMapHash.

Local Open Scope Z_scope.

(** ** Messages *)

Lemma concat_bytes_inj l1 l2 : length l1 = length l2 -> Forall key_ok l1 -> Forall key_ok l2 ->
  concat (to_bytes 32 <$> l1) = concat (to_bytes 32 <$> l2) -> l1 = l2.
Proof.
  revert l2. induction l1 as [|x l1 IH]; intros [|y l2] Hl H1 H2 E; try done. rewrite !fmap_cons in E. cbn [concat] in E.
  apply app_inj_1 in E as [E1 E2]; [|by rewrite !to_bytes_length].
  inversion H1; inversion H2; subst. f_equal; [by apply (to_bytes_inj 32)|]. apply IH; [by injection Hl|done..].
Qed.

Lemma leaf_message_inj ty i j : key_ok (item_key i) -> key_ok (item_key j) ->
  (ty = tnTRANSACTION_NM -> item_key i = item_key j) -> leaf_message ty i = leaf_message ty j -> i = j.
Proof.
  intros Hi Hj Hnm E. destruct i as [ki si], j as [kj sj]. cbn [item_key item_slice] in *. unfold leaf_message in E. cbn [item_key item_slice] in E.
  assert (forall p : list Z, p ++ si ++ to_bytes 32 ki = p ++ sj ++ to_bytes 32 kj -> mkItem ki si = mkItem kj sj) as Hk.
  { intros p Ep%app_inv_head. apply app_inj_2 in Ep as [-> Ep]; [|by rewrite !to_bytes_length].
    f_equal. by apply (to_bytes_inj 32). }
  destruct ty; try (by eapply Hk). apply app_inv_head in E as ->. by rewrite Hnm.
Qed.

Section canonical.
Context `{Sha512Half}.

Definition collision_free (l : list (list Z)) : Prop :=
  forall x y, x ∈ l -> y ∈ l -> sha512Half x = sha512Half y -> x = y.

(** The messages hashed in a tree. *)
Fixpoint messages (n : SHAMapTreeNode) : list (list Z) :=
  match n with
  | SHAMapLeafNode _ _ t i => [leaf_message t i]
  | SHAMapInnerNode _ _ bs =>
    (if isEmpty bs then [] else [inner_message (slot_merkle <$> bs)]) ++
    List.flat_map (fun o => match o with Some (_, Some n) => messages n | _ => [] end) bs
  end.

Definition slot_messages (o : branch_slot) : list (list Z) := match o with Some (_, Some n) => messages n | _ => [] end.

Lemma messages_inner c h bs : messages (SHAMapInnerNode c h bs) =
  (if isEmpty bs then [] else [inner_message (slot_merkle <$> bs)]) ++ List.flat_map slot_messages bs.
Proof. reflexivity. Qed.

Lemma messages_child c h bs b h' n : bs !! b = Some (Some (h', Some n)) -> messages n ⊆ messages (SHAMapInnerNode c h bs).
Proof.
  intros Hb x Hx. rewrite messages_inner. apply elem_of_app. right. apply list_elem_of_In, List.in_flat_map.
  exists (Some (h', Some n)). rewrite <- !list_elem_of_In. split; [by eapply list_elem_of_lookup_2|done].
Qed.

(** ** Items by branch *)

(** The items of a branch are those with its digit. *)
Lemma branch_filter ty d p c h bs b o : node_ok ty d p (SHAMapInnerNode c h bs) -> 0 <= d -> bs !! b = Some o ->
  slot_items o = filter (fun i => digit d (item_key i) = Z.of_nat b) (items (SHAMapInnerNode c h bs)).
Proof.
  intros Hn Hd Hb. rewrite items_inner, (flat_map_split slot_items bs b o Hb), !filter_app.
  assert (forall l, (forall o' i, o' ∈ l -> i ∈ slot_items o' -> digit d (item_key i) <> Z.of_nat b) ->
    filter (fun i => digit d (item_key i) = Z.of_nat b) (List.flat_map slot_items l) = []) as Hnone.
  { intros l Hl. induction l as [|o' l IH]; [done|]. cbn. rewrite filter_app, IH by (intros; eapply Hl; [by right|done]).
    rewrite app_nil_r. destruct (filter _ (slot_items o')) as [|i l'] eqn:E; [done|].
    assert (i ∈ filter (fun i => digit d (item_key i) = Z.of_nat b) (slot_items o')) as Hi by (rewrite E; by left).
    apply list_elem_of_filter in Hi as [Hi1 Hi2]. exfalso. by apply (Hl o' i); [left|..]. }
  assert (forall k o' i, bs !! k = Some o' -> i ∈ slot_items o' -> digit d (item_key i) = Z.of_nat k) as Hdig.
  { intros k [[h' [n|]]|] i Hk Hi; cbn in Hi; try (by apply not_elem_of_nil in Hi). symmetry. by eapply item_branch. }
  rewrite !Hnone, app_nil_r; [cbn [app]; rewrite filter_all; [done|]; intros i Hi; by eapply Hdig|..].
  - intros o' i [k Hk]%list_elem_of_lookup Hi E. rewrite lookup_drop in Hk. rewrite (Hdig _ _ _ Hk Hi) in E. lia.
  - intros o' i [k Hk]%list_elem_of_lookup Hi E. pose proof (lookup_lt_Some _ _ _ Hk) as Hlt. rewrite length_take in Hlt.
    rewrite lookup_take_lt in Hk by lia. rewrite (Hdig _ _ _ Hk Hi) in E. lia.
Qed.

Lemma isEmpty_items_iff ty d p c h bs : branches_ok ty d p bs -> 0 <= d ->
  isEmpty bs = true <-> items (SHAMapInnerNode c h bs) = [].
Proof.
  intros Hbs Hd. split; [apply isEmpty_items|]. intros E. unfold isEmpty. rewrite (branchCount_children bs) by (by eapply branches_resident).
  rewrite items_children in E. destruct (children bs) as [|n l] eqn:Ec; [done|]. exfalso.
  assert (n ∈ children bs) as (b & h' & Hb)%elem_of_children by (rewrite Ec; by left).
  apply (node_ok_items ty (d + 1) _ n (proj2 (proj2 Hbs) _ _ _ Hb)); [lia|]. cbn in E. by apply app_nil in E as [? _].
Qed.

(** ** The hash depends on the items *)

Lemma merkle_canonical ty d p n1 : node_ok ty d p n1 -> forall n2, node_ok ty d p n2 -> 0 <= d ->
  items n1 = items n2 -> (d = 0 -> isInner n1 = isInner n2) -> merkle n1 = merkle n2.
Proof.
  induction 1 as [d p c i Hk Hp|d p c h bs Hd Hl Hres Hch IH H2]; intros n2 Hn2 Hd0 Hit Hin.
  - destruct n2 as [c2 h2 bs2|c2 h2 t2 i2].
    + exfalso. apply inner_ok_iff in Hn2 as (_ & _ & H2). destruct (Z.eq_dec d 0) as [->|]; [by specialize (Hin eq_refl)|].
      specialize (H2 ltac:(lia)). rewrite <- Hit in H2. cbn in H2. lia.
    + inversion Hn2; subst. cbn in *. by simplify_eq.
  - assert (node_ok ty d p (SHAMapInnerNode c h bs)) as Hn1 by (by constructor).
    destruct n2 as [c2 h2 bs2|c2 h2 t2 i2].
    2:{ exfalso. destruct (Z.eq_dec d 0) as [->|]; [by specialize (Hin eq_refl)|]. specialize (H2 ltac:(lia)). rewrite Hit in H2. cbn in H2. lia. }
    pose proof Hn1 as (_ & Hb1 & _)%inner_ok_iff. pose proof Hn2 as (_ & Hb2 & _)%inner_ok_iff.
    rewrite !merkle_inner. destruct (isEmpty bs) eqn:E1, (isEmpty bs2) eqn:E2; [done| | |].
    + apply (isEmpty_items_iff ty d p c h bs Hb1 Hd0) in E1. rewrite Hit in E1. apply (isEmpty_items_iff ty d p c2 h2 bs2 Hb2 Hd0) in E1. congruence.
    + apply (isEmpty_items_iff ty d p c2 h2 bs2 Hb2 Hd0) in E2. rewrite <- Hit in E2. apply (isEmpty_items_iff ty d p c h bs Hb1 Hd0) in E2. congruence.
    + do 2 f_equal. apply list_eq_same_length with (n := 16%nat); [by rewrite length_fmap; apply Hb2|by rewrite length_fmap|].
      intros b x y Hb. rewrite !list_lookup_fmap. intros (o1 & L1 & ->)%fmap_Some (o2 & L2 & ->)%fmap_Some.
      pose proof (branch_filter ty d p c h bs b o1 Hn1 Hd0 L1) as F1. pose proof (branch_filter ty d p c2 h2 bs2 b o2 Hn2 Hd0 L2) as F2.
      rewrite Hit, <- F2 in F1. clear F2.
      destruct o1 as [[h1 [m1|]]|]; [|by apply (proj1 (proj2 Hb1)) in L1|]; destruct o2 as [[h2' [m2|]]|]; try (by apply (proj1 (proj2 Hb2)) in L2); cbn in F1 |- *.
      * eapply IH; [done|by eapply Hb2|lia|done|lia].
      * exfalso. eapply (node_ok_items ty (d + 1)); [by eapply Hch|lia|done].
      * exfalso. eapply (node_ok_items ty (d + 1)); [by eapply Hb2|lia|done].
      * done.
Qed.

(** ** The items depend on the hash *)

Lemma merkle_range ty d p n : node_ok ty d p n -> 0 <= d -> items n <> [] -> 0 < merkle n < 2 ^ 256.
Proof.
  intros Hn Hd Hne. destruct n as [c h bs|c h t i]; [|apply sha512Half_range].
  pose proof Hn as (_ & Hbs & _)%inner_ok_iff. rewrite merkle_inner. destruct (isEmpty bs) eqn:E; [|apply sha512Half_range].
  by apply (isEmpty_items_iff ty d p c h bs Hbs Hd) in E.
Qed.

Lemma slot_merkle_range ty d p bs b o : branches_ok ty d p bs -> 0 <= d -> bs !! b = Some o -> key_ok (slot_merkle o) /\ (slot_merkle o = 0 <-> slot_items o = []).
Proof.
  intros Hbs Hd Hb. destruct o as [[h [n|]]|]; [|by apply (proj1 (proj2 Hbs)) in Hb|done]. cbn.
  pose proof (proj2 (proj2 Hbs) _ _ _ Hb) as Hn. pose proof (node_ok_items ty _ _ n Hn ltac:(lia)) as Hne.
  pose proof (merkle_range ty _ _ n Hn ltac:(lia) Hne). unfold key_ok. split; [lia|]. split; [lia|done].
Qed.

Lemma collision_free_mono l l' : l' ⊆ l -> collision_free l -> collision_free l'.
Proof. intros Hs Hc x y Hx Hy. apply Hc; by apply Hs. Qed.

Lemma flat_map_ext_lookup {A B} (f : A -> list B) l1 l2 : length l1 = length l2 ->
  (forall k x y, l1 !! k = Some x -> l2 !! k = Some y -> f x = f y) -> List.flat_map f l1 = List.flat_map f l2.
Proof.
  revert l2. induction l1 as [|x l1 IH]; intros [|y l2] Hl Hf; try done. cbn. f_equal; [by apply (Hf 0%nat)|].
  apply IH; [by injection Hl|]. intros k. apply (Hf (S k)).
Qed.

(** Transactions without metadata are found by their own hash. *)
Definition keys_bound (ty : SHAMapNodeType) (l : list SHAMapItem) : Prop :=
  ty = tnTRANSACTION_NM -> Forall (fun i => item_key i = updateHash_leaf ty i) l.

Lemma keys_bound_mono ty l l' : l' ⊆ l -> keys_bound ty l -> keys_bound ty l'.
Proof. intros Hs Hk E. specialize (Hk E). rewrite Forall_forall in *. intros i Hi. by apply Hk, Hs. Qed.

Lemma merkle_binding ty d p n1 : node_ok ty d p n1 -> forall n2, node_ok ty d p n2 -> 0 <= d ->
  collision_free (messages n1 ++ messages n2) -> keys_bound ty (items n1 ++ items n2) -> merkle n1 = merkle n2 -> items n1 = items n2.
Proof.
  induction 1 as [d p c i Hk Hp|d p c h bs Hd Hl Hres Hch IH H2]; intros n2 Hn2 Hd0 Hcf Hkb Hm.
  - destruct n2 as [c2 h2 bs2|c2 h2 t2 i2].
    + exfalso. rewrite merkle_inner in Hm. cbn [merkle] in Hm. pose proof (sha512Half_range (leaf_message ty i)).
      destruct (isEmpty bs2) eqn:E; [unfold updateHash_leaf in Hm; lia|].
      apply Hcf in Hm; [by destruct ty|cbn; set_solver|rewrite messages_inner, E; set_solver].
    + inversion Hn2 as [? ? ? ? Hk2 _|]; subst. cbn in *. apply Hcf in Hm; [|set_solver..]. f_equal.
      eapply leaf_message_inj; [done|done| |exact Hm]. intros ->. specialize (Hkb eq_refl).
      apply Forall_cons in Hkb as [E1 [E2 _]%Forall_cons]. rewrite E1, E2. unfold updateHash_leaf. by rewrite Hm.
  - assert (node_ok ty d p (SHAMapInnerNode c h bs)) as Hn1 by (by constructor). pose proof Hn1 as (_ & Hb1 & _)%inner_ok_iff.
    destruct n2 as [c2 h2 bs2|c2 h2 t2 i2].
    2:{ exfalso. rewrite merkle_inner in Hm. cbn [merkle] in Hm. pose proof (sha512Half_range (leaf_message t2 i2)).
      destruct (isEmpty bs) eqn:E; [unfold updateHash_leaf in Hm; lia|].
      apply Hcf in Hm; [by destruct t2|rewrite messages_inner, E; set_solver|cbn; set_solver]. }
    pose proof Hn2 as (_ & Hb2 & _)%inner_ok_iff. rewrite !merkle_inner in Hm.
    destruct (isEmpty bs) eqn:E1, (isEmpty bs2) eqn:E2.
    + rewrite (proj1 (isEmpty_items_iff ty d p c h bs Hb1 Hd0) E1). by rewrite (proj1 (isEmpty_items_iff ty d p c2 h2 bs2 Hb2 Hd0) E2).
    + pose proof (sha512Half_range (inner_message (slot_merkle <$> bs2))). lia.
    + pose proof (sha512Half_range (inner_message (slot_merkle <$> bs))). lia.
    + apply Hcf in Hm; [|rewrite messages_inner, E1; set_solver|rewrite (messages_inner c2), E2; set_solver].
      apply app_inv_head, concat_bytes_inj in Hm.
      * rewrite !items_inner. apply flat_map_ext_lookup; [by rewrite Hl; symmetry; apply Hb2|]. intros b o1 o2 L1 L2.
        pose proof (f_equal (lookup b) Hm) as Hs. rewrite !list_lookup_fmap, L1, L2 in Hs. injection Hs as Hs.
        destruct (slot_merkle_range ty d p bs b o1 Hb1 Hd0 L1) as [_ Z1]. destruct (slot_merkle_range ty d p bs2 b o2 Hb2 Hd0 L2) as [_ Z2].
        destruct o1 as [[h1 [m1|]]|]; [|by apply (proj1 (proj2 Hb1)) in L1|]; destruct o2 as [[h2' [m2|]]|]; try (by apply (proj1 (proj2 Hb2)) in L2);
          cbn [slot_merkle slot_items] in *.
        -- eapply IH; [done|by eapply Hb2|lia| | |done].
           ++ eapply collision_free_mono; [|exact Hcf]. pose proof (messages_child c h bs b h1 m1 L1). pose proof (messages_child c2 h2 bs2 b h2' m2 L2). set_solver.
           ++ eapply keys_bound_mono; [|exact Hkb]. intros i [Hi|Hi]%elem_of_app; apply elem_of_app; [left|right]; apply elem_of_items_inner; eauto 6.
        -- by apply Z1.
        -- symmetry. by apply Z2.
        -- done.
      * rewrite !length_fmap, Hl. symmetry. apply Hb2.
      * apply Forall_fmap, Forall_lookup. intros b o Hb. apply (slot_merkle_range ty d p bs b o Hb1 Hd0 Hb).
      * apply Forall_fmap, Forall_lookup. intros b o Hb. apply (slot_merkle_range ty d p bs2 b o Hb2 Hd0 Hb).
Qed.
End canonical.

(** ** Sequences of operations *)

Inductive map_op :=
| OpAdd (i : SHAMapItem)
| OpUpdate (i : SHAMapItem)
| OpDel (k : Z)
| OpHash.

(** The items an operation brings in. *)
Definition op_items (o : map_op) : list SHAMapItem :=
  match o with OpAdd i | OpUpdate i => [i] | _ => [] end.

Definition op_ok (o : map_op) : Prop :=
  match o with OpAdd i | OpUpdate i => key_ok (item_key i) | OpDel k => key_ok k | OpHash => True end.

(** A finite map: adding is refused if the key is there, the other two if it is not. *)
Definition spec_op (g : gmap Z SHAMapItem) (o : map_op) : bool * gmap Z SHAMapItem :=
  match o with
  | OpAdd i => if g !! item_key i is Some _ then (false, g) else (true, <[item_key i := i]> g)
  | OpUpdate i => if g !! item_key i is Some _ then (true, <[item_key i := i]> g) else (false, g)
  | OpDel k => if g !! k is Some _ then (true, delete k g) else (false, g)
  | OpHash => (true, g)
  end.

Fixpoint spec_ops (g : gmap Z SHAMapItem) (ops : list map_op) : list bool * gmap Z SHAMapItem :=
  match ops with
  | [] => ([], g)
  | o :: ops => let '(b, g) := spec_op g o in let '(bs, g) := spec_ops g ops in (b :: bs, g)
  end.

Section sequences.
Context `{Sha512Half}.

Definition run_op (ty : SHAMapNodeType) (m : SHAMap) (o : map_op) : mres (bool * SHAMap) :=
  match o with
  | OpAdd i => addGiveItem m ty i
  | OpUpdate i => updateGiveItem m ty i
  | OpDel k => delItem m k
  | OpHash => '(_, m) ← getHash m; Val (true, m)
  end.

Fixpoint run_ops (ty : SHAMapNodeType) (m : SHAMap) (ops : list map_op) : mres (list bool * SHAMap) :=
  match ops with
  | [] => Val ([], m)
  | o :: ops => '(b, m) ← run_op ty m o; '(bs, m) ← run_ops ty m ops; Val (b :: bs, m)
  end.

(** No two items of the sequence have different contents and the same hash. *)
Definition ops_ok (ty : SHAMapNodeType) (ops : list map_op) : Prop :=
  Forall op_ok ops /\ collision_free (leaf_message ty <$> List.flat_map op_items ops).

(** The items of a map come from a list. *)
Definition from_items (l : list SHAMapItem) (m : SHAMap) : Prop := forall k i, contents m !! k = Some i -> item_key i = k /\ i ∈ l.

Lemma run_op_spec ty m o l : map_inv ty m -> op_ok o -> from_items l m -> op_items o ⊆ l -> collision_free (leaf_message ty <$> l) ->
  Forall (fun i => key_ok (item_key i)) l ->
  exists b m', run_op ty m o = Val (b, m') /\ map_inv ty m' /\ spec_op (contents m) o = (b, contents m') /\ from_items l m'.
Proof.
  intros Hinv Ho Hfrom Hsub Hcf Hkl. pose proof Hinv as (Hm & Hc & Hcow).
  assert (forall i m', from_items l m -> i ∈ l -> contents m' = <[item_key i := i]> (contents m) -> from_items l m') as Hins.
  { intros i m' Hf Hi E k j Hk. rewrite E in Hk. destruct (decide (item_key i = k)) as [<-|Hne].
    - rewrite lookup_insert_eq in Hk. by injection Hk as <-.
    - rewrite lookup_insert_ne in Hk by done. by apply Hf. }
  destruct o as [i|i|k|]; cbn [run_op spec_op op_ok op_items] in *.
  - pose proof (addGiveItem_spec ty m i Hm Ho) as Hs. destruct (contents m !! item_key i) as [j|].
    + exists false, m. done.
    + destruct Hs as (m' & E & Hm' & Hcw & Ec). exists true, m'. split; [done|]. split; [split; [done|]; split; [by eapply addGiveItem_cached|by rewrite Hcw]|].
      split; [by rewrite Ec|]. eapply Hins; [done| |done]. set_solver.
  - assert (forall j, contents m !! item_key i = Some j -> updateHash_leaf ty j = updateHash_leaf ty i -> j = i) as Hcol.
    { intros j Hj Eh. destruct (Hfrom _ _ Hj) as [Ek Hjl]. rewrite Forall_forall in Hkl.
      apply (leaf_message_inj ty); [by apply Hkl|done|done|]. apply Hcf; [by apply list_elem_of_fmap_2|apply list_elem_of_fmap_2; set_solver|done]. }
    pose proof (updateGiveItem_spec ty m i Hm Ho Hcol) as Hs. destruct (contents m !! item_key i) as [j|] eqn:Ej.
    + destruct Hs as (m' & E & Hm' & Hcw & Ec). exists true, m'. split; [done|]. split; [split; [done|]; split; [|by rewrite Hcw]|].
      * eapply updateGiveItem_cached; [exact Hm|done..| |exact E]. by rewrite Ej.
      * split; [by rewrite Ec|]. eapply Hins; [done| |done]. set_solver.
    + exists false, m. done.
  - pose proof (delItem_spec ty m k Hm Ho) as Hs. destruct (contents m !! k) as [j|].
    + destruct Hs as (m' & E & Hm' & Hcw & Ec). exists true, m'. split; [done|]. split; [split; [done|]; split; [by eapply delItem_cached|by rewrite Hcw]|].
      split; [by rewrite Ec|]. intros k' i Hi. rewrite Ec in Hi. apply lookup_delete_Some in Hi as [_ Hi]. by apply Hfrom.
    + exists false, m. done.
  - destruct (getHash_spec ty m Hinv) as (m' & E & Hinv' & Ec & _). rewrite E. exists true, m'. split; [done|]. split; [done|].
    rewrite Ec. split; [done|]. intros k i. rewrite Ec. apply Hfrom.
Qed.

Lemma run_ops_spec ty l ops : Forall op_ok ops -> List.flat_map op_items ops ⊆ l -> collision_free (leaf_message ty <$> l) ->
  Forall (fun i => key_ok (item_key i)) l -> forall m, map_inv ty m -> from_items l m ->
  exists bs m', run_ops ty m ops = Val (bs, m') /\ map_inv ty m' /\ from_items l m' /\ spec_ops (contents m) ops = (bs, contents m').
Proof.
  intros Hok Hsub Hcf Hkl. induction Hok as [|o ops Ho Hok IH]; intros m Hinv Hfrom; [by exists [], m|]. cbn in Hsub.
  destruct (run_op_spec ty m o l Hinv Ho Hfrom) as (b & m1 & E1 & Hinv1 & S1 & Hfrom1); [set_solver|done|done|].
  destruct (IH ltac:(set_solver) m1 Hinv1 Hfrom1) as (bs & m2 & E2 & Hinv2 & Hf2 & S2).
  exists (b :: bs), m2. cbn [run_ops spec_ops]. rewrite E1. cbn [mbind res_bind]. rewrite E2, S1, S2. done.
Qed.

Lemma ops_keys ops : Forall op_ok ops -> Forall (fun i => key_ok (item_key i)) (List.flat_map op_items ops).
Proof. induction 1 as [|o ops Ho Hok IH]; [constructor|]. cbn. apply Forall_app. split; [|done]. destruct o; cbn; [by apply Forall_singleton..|constructor|constructor]. Qed.

Lemma new_map_inv ty : ty <> tnINNER -> map_inv ty new_map /\ contents new_map = ∅.
Proof. intros Hty. split; [|done]. split; [by apply new_map_ok|]. split; [by apply new_inner_cached|done]. Qed.

Lemma shamap_runs ty ops : ty <> tnINNER -> ops_ok ty ops ->
  exists bs m, run_ops ty new_map ops = Val (bs, m) /\ map_inv ty m /\ from_items (List.flat_map op_items ops) m /\ spec_ops ∅ ops = (bs, contents m).
Proof.
  intros Hty [Hok Hcf]. destruct (new_map_inv ty Hty) as [Hinv He]. rewrite <- He.
  eapply run_ops_spec; [done|reflexivity|done|by apply ops_keys|done|]. intros k i. rewrite He. by rewrite lookup_empty.
Qed.

Lemma peekItem_spec ty m k : map_ok ty m -> key_ok k -> peekItem m k = Val (contents m !! k).
Proof. intros Hm Hk. unfold peekItem. rewrite (findKey_spec ty m k Hm Hk). cbn [mbind res_bind]. by destruct (contents m !! k). Qed.

(** Computing the hash leaves the messages as they are. *)
Lemma messages_flush cow n : cached_ok n -> messages (flush cow n) = messages n.
Proof.
  induction n as [c h t i|c h bs IH] using node_children_ind; intros Hc; [cbn; by destruct (c =? 0)|].
  destruct (Z.eq_dec c 0) as [->|Hne]; [by rewrite flush_clean|]. rewrite flush_inner by done. cbn [updateHashDeep set_cowid].
  inversion Hc as [|? ? ? Hch _ _]; subst. rewrite !messages_inner, (proj2 (isEmpty_flush cow bs)). f_equal.
  - destruct (isEmpty bs); [done|]. f_equal. f_equal. rewrite <- !list_fmap_compose. apply list_fmap_ext. intros b [[h' [n|]]|] Hb; [|done..]. cbn.
    destruct (flush_ok cow n (Hch _ _ _ Hb)) as (H1 & H2 & H3 & _). by rewrite <- (clean_merkle _ H1 H2).
  - rewrite <- list_fmap_compose. apply flat_map_ext_lookup; [by rewrite length_fmap|]. intros b o1 o2 Hb1 Hb2. rewrite list_lookup_fmap, Hb2 in Hb1. injection Hb1 as <-.
    destruct o2 as [[h' [n|]]|]; [|done..]. cbn. apply IH; [|by eapply Hch]. apply elem_of_children. eauto.
Qed.

Lemma messages_empty c h bs : isEmpty bs = true -> messages (SHAMapInnerNode c h bs) = [].
Proof.
  intros Eb. rewrite messages_inner, Eb. cbn [app]. apply isEmpty_None in Eb. by induction Eb as [|o bs -> _ IH].
Qed.

Lemma getHash_clean ty m h m' : map_inv ty m -> getHash m = Val (h, m') -> cowid (root_ m') = 0 /\ messages (root_ m') = messages (root_ m).
Proof.
  intros ((Hty & Hin & Hn) & Hc & Hcow) E. unfold getHash in E. destruct (Z.eqb_spec (getHash_node (root_ m)) 0) as [E0|E0].
  - destruct (unshare_spec m (node_ok_full _ _ _ _ Hn) Hin) as [k Eu]. rewrite Eu in E. cbn [mbind res_bind] in E. injection E as <- <-.
    destruct (Z.eqb_spec (cowid (root_ m)) 0) as [Ec|Ec]; [done|]. destruct (root_ m) as [c h' bs|] eqn:Er; [|done]. destruct (isEmpty bs) eqn:Eb.
    + cbn [root_ set_root]. split; [done|]. rewrite (messages_empty c h' bs) by done. reflexivity.
    + cbn [root_ set_root]. split; [by apply flush_ok|by apply messages_flush].
  - injection E as <- <-. split; [|done]. destruct (root_ m) as [c h' bs|]; [|done]. inversion Hc as [|? ? ? _ Hd _]; subst.
    cbn in *. destruct (Z.eq_dec c 0); [done|]. by rewrite Hd in E0.
Qed.

Lemma hasItem_spec ty m k : map_ok ty m -> key_ok k -> hasItem m k = Val (bool_decide (is_Some (contents m !! k))).
Proof.
  intros Hm Hk. unfold hasItem. rewrite (findKey_spec ty m k Hm Hk). cbn [mbind res_bind].
  destruct (contents m !! k); [by rewrite bool_decide_true by eauto|by rewrite bool_decide_false by (by intros [? ?])].
Qed.

(** C9: every sequence of [addGiveItem], [updateGiveItem], [delItem] and [getHash] on a new map runs without
    an exception and returns what the operations of a finite map return; afterwards the tree is well-formed and
    [peekItem] and [hasItem] find exactly the contents of the finite map.  Two items of the sequence
    must not collide in their hash.  An update of an absent key answers false, as the code does when it
    is compiled without assertions. *)
Theorem shamap_refines ty ops : ty <> tnINNER -> ops_ok ty ops ->
  exists bs m, run_ops ty new_map ops = Val (bs, m) /\
    bs = (spec_ops ∅ ops).1 /\ map_ok ty m /\
    forall k, key_ok k -> peekItem m k = Val ((spec_ops ∅ ops).2 !! k) /\ hasItem m k = Val (bool_decide (is_Some ((spec_ops ∅ ops).2 !! k))).
Proof.
  intros Hty Hok. destruct (shamap_runs ty ops Hty Hok) as (bs & m & E & (Hm & _) & _ & S). exists bs, m. rewrite S.
  split; [done|]. split; [done|]. split; [done|]. intros k Hk. split; [by apply (peekItem_spec ty)|by apply (hasItem_spec ty)].
Qed.

(** ** Items and hashes *)

#[export] Instance item_lt_antisymm : AntiSymm (=) item_lt.
Proof. intros i j. unfold item_lt. lia. Qed.

Lemma contents_items ty m1 m2 : map_ok ty m1 -> map_ok ty m2 -> contents m1 = contents m2 -> items (root_ m1) = items (root_ m2).
Proof.
  intros (_ & _ & H1) (_ & _ & H2) E. apply (StronglySorted_unique item_lt); [by eapply items_sorted|by eapply items_sorted|].
  pose proof (items_NoDup ty 0 0 _ H1 ltac:(lia)) as N1. pose proof (items_NoDup ty 0 0 _ H2 ltac:(lia)) as N2.
  apply NoDup_Permutation; [by eapply NoDup_fmap_1|by eapply NoDup_fmap_1|]. intros i. rewrite !map_contents in E.
  pose proof (items_map_Some _ (item_key i) i N1) as S1. pose proof (items_map_Some _ (item_key i) i N2) as S2. rewrite E in S1. tauto.
Qed.

Lemma from_items_all ty m l : map_ok ty m -> from_items l m -> items (root_ m) ⊆ l.
Proof.
  intros (_ & _ & Hn) Hf i Hi. eapply (Hf (item_key i)). rewrite map_contents. apply items_map_Some; [by eapply items_NoDup|done].
Qed.

(** C10: two maps built by any two sequences of operations from new maps have the same hash
    if they hold the same items, and, unless two of the messages hashed in
    them collide, only then. *)
Theorem shamap_hash_iff ty ops1 ops2 : ty <> tnINNER -> ops_ok ty ops1 -> ops_ok ty ops2 ->
  exists bs1 m1 bs2 m2 h1 m1' h2 m2',
    run_ops ty new_map ops1 = Val (bs1, m1) /\ getHash m1 = Val (h1, m1') /\
    run_ops ty new_map ops2 = Val (bs2, m2) /\ getHash m2 = Val (h2, m2') /\
    ((spec_ops ∅ ops1).2 = (spec_ops ∅ ops2).2 -> h1 = h2) /\
    (collision_free (messages (root_ m1) ++ messages (root_ m2)) -> keys_bound ty (List.flat_map op_items (ops1 ++ ops2)) ->
     h1 = h2 -> (spec_ops ∅ ops1).2 = (spec_ops ∅ ops2).2).
Proof.
  intros Hty H1 H2. destruct (shamap_runs ty ops1 Hty H1) as (bs1 & m1 & E1 & I1 & F1 & S1). destruct (shamap_runs ty ops2 Hty H2) as (bs2 & m2 & E2 & I2 & F2 & S2).
  destruct (getHash_spec ty m1 I1) as (m1' & G1 & _). destruct (getHash_spec ty m2 I2) as (m2' & G2 & _).
  exists bs1, m1, bs2, m2, (merkle (root_ m1)), m1', (merkle (root_ m2)), m2'. rewrite S1, S2. cbn [snd].
  destruct I1 as (M1 & _). destruct I2 as (M2 & _). do 4 (split; [done|]). split.
  - intros E. pose proof (contents_items ty m1 m2 M1 M2 E) as Ei. destruct M1 as (_ & In1 & N1), M2 as (_ & In2 & N2).
    eapply merkle_canonical; [done|done|lia|done|]. intros _. by rewrite In1, In2.
  - intros Hcf Hkb E. pose proof (from_items_all ty m1 _ M1 F1) as A1. pose proof (from_items_all ty m2 _ M2 F2) as A2.
    destruct M1 as (_ & _ & N1), M2 as (_ & _ & N2). rewrite !map_contents. f_equal.
    eapply merkle_binding; [done|done|lia|done| |done]. eapply keys_bound_mono; [|exact Hkb]. rewrite List.flat_map_app. set_solver.
Qed.
End sequences.

(** ** Samples *)

Module ShaSamples.

(** A stand-in for the hash function, to evaluate the definitions with. *)
Definition toy_hash (m : list Z) : Z := 1 + fold_left (fun a b => Z.land (a * 257 + b + 1) (Z.ones 61)) m 7 mod 2 ^ 61.

#[export] Instance toy_sha : Sha512Half.
Proof.
  refine {| sha512Half := toy_hash |}. intros m. unfold toy_hash. set (f := fold_left _ m 7).
  pose proof (Z.mod_pos_bound f (2 ^ 61) ltac:(lia)). lia.
Defined.

Definition no_collision (l : list (list Z)) : bool :=
  forallb (fun x => forallb (fun y => implb (toy_hash x =? toy_hash y) (bool_decide (x = y))) l) l.

Lemma no_collision_free l : no_collision l = true -> collision_free l.
Proof.
  unfold no_collision. rewrite List.forallb_forall. intros Hl x y Hx Hy E. apply list_elem_of_In in Hx, Hy.
  specialize (Hl x Hx). rewrite List.forallb_forall in Hl. specialize (Hl y Hy). cbn in E. rewrite E, Z.eqb_refl in Hl. by apply bool_decide_eq_true_1 in Hl.
Qed.

(** Three keys, two of which share their first two digits. *)
Definition k1 : Z := 0xAB1 * 16 ^ 61.
Definition k2 : Z := 0xAB2 * 16 ^ 61.
Definition k3 : Z := 0xC * 16 ^ 63.
Definition item (k v : Z) : SHAMapItem := mkItem k [v].

Definition build1 : list map_op := [OpAdd (item k1 1); OpHash; OpAdd (item k3 3); OpAdd (item k2 2); OpUpdate (item k2 4); OpDel k3; OpAdd (item k1 9)].
Definition build2 : list map_op := [OpAdd (item k2 4); OpAdd (item k1 1); OpUpdate (item k3 5); OpHash].

Lemma build_ok : ops_ok tnACCOUNT_STATE build1 /\ ops_ok tnACCOUNT_STATE build2.
Proof.
  split; (split; [repeat constructor; vm_compute; try split; discriminate || reflexivity|apply no_collision_free; vm_compute; reflexivity]).
Qed.

Lemma shamap_refines_witness : exists bs m, run_ops tnACCOUNT_STATE new_map build1 = Val (bs, m) /\
  bs = (spec_ops ∅ build1).1 /\ map_ok tnACCOUNT_STATE m /\
  forall k, key_ok k -> peekItem m k = Val ((spec_ops ∅ build1).2 !! k) /\ hasItem m k = Val (bool_decide (is_Some ((spec_ops ∅ build1).2 !! k))).
Proof. apply shamap_refines; [discriminate|exact (proj1 build_ok)]. Defined.

Lemma shamap_hash_iff_witness : exists bs1 m1 bs2 m2 h1 m1' h2 m2',
  run_ops tnACCOUNT_STATE new_map build1 = Val (bs1, m1) /\ getHash m1 = Val (h1, m1') /\
  run_ops tnACCOUNT_STATE new_map build2 = Val (bs2, m2) /\ getHash m2 = Val (h2, m2') /\
  ((spec_ops ∅ build1).2 = (spec_ops ∅ build2).2 -> h1 = h2) /\
  (collision_free (messages (root_ m1) ++ messages (root_ m2)) -> keys_bound tnACCOUNT_STATE (List.flat_map op_items (build1 ++ build2)) ->
   h1 = h2 -> (spec_ops ∅ build1).2 = (spec_ops ∅ build2).2).
Proof. apply (shamap_hash_iff tnACCOUNT_STATE build1 build2); [discriminate|exact (proj1 build_ok)|exact (proj2 build_ok)]. Defined.

(** Both sequences end with the same two items, and with the same hash. *)
Definition result_of (ops : list map_op) : mres (list bool * Z) :=
  '(bs, m) ← run_ops tnACCOUNT_STATE new_map ops; '(h, _) ← getHash m; Val (bs, h).

Lemma builds_agree : exists h, result_of build1 = Val ([true; true; true; true; true; true; false], h) /\
  result_of build2 = Val ([true; true; false; true], h).
Proof. exists (from_res ([], 0) (result_of build1)).2. split; vm_compute; reflexivity. Qed.

(** An inner node with a single child is kept if that child is an inner node: with two keys
    that differ in their third digit only, the root has one branch, and so has the node
    below it.  The documentation of the class says such nodes are merged. *)
Lemma single_child_kept :
  match run_ops tnACCOUNT_STATE new_map [OpAdd (item k1 1); OpAdd (item k2 2)] with
  | Val (_, mkMap _ (SHAMapInnerNode _ _ bs0)) =>
    getBranchCount bs0 = 1 /\
    match bs0 !! 10%nat with
    | Some (Some (_, Some (SHAMapInnerNode _ _ bs1))) => getBranchCount bs1 = 1
    | _ => False
    end
  | _ => False
  end.
Proof. vm_compute. split; reflexivity. Qed.
End ShaSamples.
