(* ===== verification/ShaMapIter.v ===== *)
(** * ShaMapIter: visiting the items of a map in order ([SHAMap::const_iterator])

    An iterator has the stack of nodes from the root to its leaf.  [firstBelow]
    descends to the leftmost leaf, [peekNextItem] climbs until a branch further right
    is in use, and [upper_bound] starts from the walk towards a key.

    The identifiers [belowHelper] pushes are made with the branch it was called with,
    not with the one it descends into; only their depth is used afterwards.

    The theorems: iteration visits the items in the order of their keys, each
    once, and [upper_bound] finds the first item after a key, present or not. *)

From stdpp Require Import base numbers list option gmap sorting.
From Stdlib Require Import ZArith Lia.
From S2P Require Import Prelude ShaMapNode ShaMap ShaMapOps.

Local Open Scope Z_scope.

Abbreviation NodeStack := (list (SHAMapTreeNode * SHAMapNodeID)) (only parsing).

(** ** The code *)

(** The loop of [belowHelper], with the loop parameters of [firstBelow]: branches are
    tried from 0 up to and including 16. *)
Fixpoint below_loop (fuel : nat) (branch : Z) (inner : SHAMapTreeNode) (i : Z) (stack : NodeStack)
  : mres (option SHAMapItem * NodeStack) :=
  match fuel with
  | O => Undef
  | S fuel =>
    match inner with
    | SHAMapLeafNode _ _ _ _ => Undef
    | SHAMapInnerNode _ _ bs =>
      if negb (i <=? branchFactor) then Val (None, stack)
      else if isEmptyBranch bs i then below_loop fuel branch inner (i + 1) stack
      else
        node ← descendThrow bs i;
        match node with
        | SHAMapLeafNode _ _ _ item => Val (Some item, (node, mkNodeID (item_key item) leafDepth) :: stack)
        | SHAMapInnerNode _ _ _ =>
          match stack with
          | [] => Undef
          | (_, topID) :: _ => nodeID ← getChildNodeID topID branch; below_loop fuel branch node 0 ((node, nodeID) :: stack)
          end
        end
    end
  end.

(** At most seventeen rounds at each of the 64 depths. *)
Definition below_fuel : nat := 1106.

Definition firstBelow (node : SHAMapTreeNode) (stack : NodeStack) (branch : Z) : mres (option SHAMapItem * NodeStack) :=
  match node with
  | SHAMapLeafNode _ _ _ item => Val (Some item, (node, mkNodeID (item_key item) leafDepth) :: stack)
  | SHAMapInnerNode _ _ _ =>
    nodeID ← match stack with [] => Val root_id | (_, topID) :: _ => getChildNodeID topID branch end;
    below_loop below_fuel branch node 0 ((node, nodeID) :: stack)
  end.

Definition peekFirstItem (m : SHAMap) : mres (option SHAMapItem * NodeStack) :=
  '(leaf, stack) ← firstBelow (root_ m) [] 0;
  match leaf with None => Val (None, []) | Some i => Val (Some i, stack) end.

(** The loop [for (i = ...; i < branchFactor; ++i)] up to a branch in use. *)
Fixpoint next_branch (fuel : nat) (bs : list branch_slot) (i : Z) : option Z :=
  match fuel with
  | O => None
  | S fuel => if negb (i <? branchFactor) then None else if isEmptyBranch bs i then next_branch fuel bs (i + 1) else Some i
  end.

(** Climbs to the first branch to the right of [id]. *)
Fixpoint climb (id : Z) (stack : NodeStack) : mres (option SHAMapItem * NodeStack) :=
  match stack with
  | [] => Val (None, [])
  | (SHAMapLeafNode _ _ _ _, _) :: _ => Undef
  | (SHAMapInnerNode _ _ bs, nodeID) :: rest =>
    b ← selectBranch nodeID id;
    match next_branch 16 bs (b + 1) with
    | Some i =>
      node ← descendThrow bs i;
      '(leaf, stack) ← firstBelow node stack i;
      match leaf with Some item => Val (Some item, stack) | None => Err SHAMapMissingNode end
    | None => climb id rest
    end
  end.

Definition peekNextItem (id : Z) (stack : NodeStack) : mres (option SHAMapItem * NodeStack) :=
  match stack with
  | [] => Undef
  | _ :: stack => climb id stack
  end.

Definition upper_bound (m : SHAMap) (id : Z) : mres (option SHAMapItem * NodeStack) :=
  '(_, stack) ← walkTowardsKey m id;
  match stack with
  | (SHAMapLeafNode _ _ _ item, _) :: rest => if id <? item_key item then Val (Some item, stack) else climb id rest
  | _ => climb id stack
  end.

(** [for (auto const& item : map)]: the items an iterator visits from its position on. *)
Fixpoint visit_from (fuel : nat) (it : option SHAMapItem * NodeStack) : mres (list SHAMapItem) :=
  match fuel, it with
  | _, (None, _) => Val []
  | O, _ => Undef
  | S fuel, (Some item, stack) => it ← peekNextItem (item_key item) stack; l ← visit_from fuel it; Val (item :: l)
  end.

(** ** Stacks *)

(** The items to the right of the path to [id]. *)
Definition stack_rest (id : Z) (st : NodeStack) : list SHAMapItem :=
  List.flat_map (fun e : SHAMapTreeNode * SHAMapNodeID => match e.1 with
    | SHAMapInnerNode _ _ bs => List.flat_map slot_items (drop (S (Z.to_nat (digit (depth_ e.2) id))) bs)
    | _ => []
    end) st.

Lemma stack_rest_cons id c h bs nid st : stack_rest id ((SHAMapInnerNode c h bs, nid) :: st) =
  List.flat_map slot_items (drop (S (Z.to_nat (digit (depth_ nid) id))) bs) ++ stack_rest id st.
Proof. reflexivity. Qed.

Section iteration.
Context `{Sha512Half}.

(** Inner nodes on the way to [id], from depth [length st - 1] to the root. *)
Inductive stack_ok (ty : SHAMapNodeType) (id : Z) : NodeStack -> Prop :=
| stack_nil : stack_ok ty id []
| stack_cons c h bs nid st : stack_ok ty id st -> depth_ nid = Z.of_nat (length st) -> id_ok nid ->
    node_ok ty (depth_ nid) (prefix (depth_ nid) id) (SHAMapInnerNode c h bs) ->
    stack_ok ty id ((SHAMapInnerNode c h bs, nid) :: st).

Lemma prefix_le k d a b : 0 <= d <= k -> k <= 64 -> prefix k a = prefix k b -> prefix d a = prefix d b.
Proof.
  intros Hd Hk E. unfold prefix in *. replace (16 ^ (64 - d)) with (16 ^ (64 - k) * 16 ^ (k - d)) by (rewrite <- Z.pow_add_r by lia; f_equal; lia).
  by rewrite <- !Z.div_div, E by lia.
Qed.

Lemma digit_prefix d a b : 0 <= d < 64 -> prefix (d + 1) a = prefix (d + 1) b -> digit d a = digit d b.
Proof. intros Hd E. rewrite !prefix_succ in E by done. pose proof (digit_range d a). pose proof (digit_range d b). lia. Qed.

(** A stack serves all keys with the digits of its path. *)
Lemma stack_rekey ty id id' st : stack_ok ty id st -> Z.of_nat (length st) <= 64 -> prefix (Z.of_nat (length st)) id = prefix (Z.of_nat (length st)) id' ->
  stack_ok ty id' st /\ stack_rest id' st = stack_rest id st.
Proof.
  induction 1 as [|c h bs nid st Hst IH Hd Hid Hn]; intros Hl E; [split; [constructor|done]|]. cbn [length] in *.
  assert (0 <= depth_ nid < 64) as Hd64 by lia. assert (prefix (depth_ nid + 1) id = prefix (depth_ nid + 1) id') as E1 by (rewrite Hd; replace (Z.of_nat (length st) + 1) with (Z.of_nat (S (length st))) by lia; done).
  destruct IH as [IH1 IH2]; [lia|rewrite <- Hd; apply (prefix_le (depth_ nid + 1)); [lia|lia|done]|].
  split.
  - constructor; [done|done|done|]. by rewrite <- (prefix_le (depth_ nid + 1) (depth_ nid) id id') by (lia || done).
  - by rewrite !stack_rest_cons, IH2, (digit_prefix (depth_ nid) id id').
Qed.

(** Branches before the first one in use have no items. *)
Lemma drop_empty bs i j : (i <= j)%nat -> (forall k, (i <= k < j)%nat -> bs !! k = Some None \/ bs !! k = None) ->
  List.flat_map slot_items (drop i bs) = List.flat_map slot_items (drop j bs).
Proof.
  intros Hij He. replace j with (i + (j - i))%nat by lia. remember (j - i)%nat as n eqn:En. assert (j = i + n)%nat as -> by lia. clear En Hij.
  induction n as [|n IH]; [by rewrite Nat.add_0_r|]. rewrite IH by (intros; apply He; lia).
  rewrite Nat.add_succ_r. destruct (He (i + n)%nat ltac:(lia)) as [E|E].
  - rewrite (drop_S _ _ _ E). done.
  - rewrite !drop_ge; [done|apply lookup_ge_None in E; lia..].
Qed.

Lemma isEmptyBranch_spec ty d p bs i : branches_ok ty d p bs -> 0 <= i < 16 ->
  if isEmptyBranch bs i then bs !! Z.to_nat i = Some None
  else exists h n, bs !! Z.to_nat i = Some (Some (h, Some n)) /\ descendThrow bs i = Val n /\ node_ok ty (d + 1) (16 * p + i) n.
Proof.
  intros (Hl & Hr & Hc) Hi. unfold isEmptyBranch, descendThrow.
  destruct (lookup_lt_is_Some_2 bs (Z.to_nat i) ltac:(lia)) as [[[h [n|]]|] Hb]; rewrite Hb; [|by apply Hr in Hb|done].
  exists h, n. split; [done|]. split; [done|]. specialize (Hc _ _ _ Hb). by rewrite Z2Nat.id in Hc by lia.
Qed.

(** ** Descending *)

(** From branch [i] on, those before being empty, the loop finds the first item below. *)
Lemma below_loop_spec ty branch fuel : 0 <= branch < 16 ->
  forall d p c h bs i nid st, node_ok ty d p (SHAMapInnerNode c h bs) -> 0 <= d -> depth_ nid = d -> id_ok nid ->
  0 <= i <= 16 -> List.flat_map slot_items (drop (Z.to_nat i) bs) <> [] -> 18 - i + 17 * (64 - d) <= Z.of_nat fuel ->
  exists item leafn leafid l path,
    below_loop fuel branch (SHAMapInnerNode c h bs) i ((SHAMapInnerNode c h bs, nid) :: st) =
      Val (Some item, (leafn, leafid) :: path ++ (SHAMapInnerNode c h bs, nid) :: st) /\
    List.flat_map slot_items (drop (Z.to_nat i) bs) = item :: l /\ stack_rest (item_key item) (path ++ [(SHAMapInnerNode c h bs, nid)]) = l /\
    forall st', stack_ok ty (item_key item) st' -> Z.of_nat (length st') = d -> stack_ok ty (item_key item) (path ++ (SHAMapInnerNode c h bs, nid) :: st').
Proof.
  intros Hbr. induction fuel as [|fuel IH]; intros d p c h bs i nid st Hn Hd Hdn Hid Hi Hne Hf.
  { apply inner_ok_iff in Hn as (? & _). lia. }
  pose proof Hn as (Hd64 & Hbs & _)%inner_ok_iff. pose proof (proj1 Hbs) as Hl.
  assert (i < 16) as Hi16.
  { destruct (Z.eq_dec i 16) as [->|]; [|lia]. exfalso. apply Hne. rewrite drop_ge by lia. done. }
  cbn [below_loop]. unfold branchFactor. destruct (Z.leb_spec i 16); [|lia]. cbn [negb].
  pose proof (isEmptyBranch_spec ty d p bs i Hbs ltac:(lia)) as Hs. destruct (isEmptyBranch bs i).
  - assert (List.flat_map slot_items (drop (Z.to_nat i) bs) = List.flat_map slot_items (drop (Z.to_nat (i + 1)) bs)) as Ed.
    { rewrite (drop_S _ _ _ Hs). cbn. by replace (Z.to_nat (i + 1)) with (S (Z.to_nat i)) by lia. }
    rewrite Ed in Hne |- *. apply (IH d p); [done..|lia|done|lia].
  - destruct Hs as (h' & n & Hb & -> & Hn'). cbn [mbind res_bind]. rewrite (drop_S _ _ _ Hb). cbn [List.flat_map slot_items].
    assert (forall it, it ∈ items n -> digit d (item_key it) = i /\ prefix d (item_key it) = p) as Hit.
    { intros it Hit. split.
      - rewrite <- (item_branch ty d p c h bs (Z.to_nat i) h' n it Hn Hd Hb Hit). lia.
      - eapply (items_prefix ty d p); [exact Hn|done|]. apply elem_of_items_inner. eauto. }
    assert (forall it st', it ∈ items n -> stack_ok ty (item_key it) st' -> Z.of_nat (length st') = d ->
      stack_ok ty (item_key it) ((SHAMapInnerNode c h bs, nid) :: st')) as Hpush.
    { intros it st' Hin Hst Hlen. destruct (Hit it Hin) as [_ Hp]. constructor; [done|lia|done|]. by rewrite Hdn, Hp. }
    destruct n as [c' h'' bs'|c' h'' t it].
    + destruct (getChildNodeID_ok nid branch Hid ltac:(lia) Hbr) as (nid' & -> & Hid' & Hd'). cbn [mbind res_bind].
      destruct (IH (d + 1) _ c' h'' bs' 0 nid' ((SHAMapInnerNode c h bs, nid) :: st) Hn' ltac:(lia) ltac:(lia) Hid' ltac:(lia))
        as (item & leafn & leafid & l & path & E & El & Er & Hst).
      { change (items (SHAMapInnerNode c' h'' bs') <> []). apply (node_ok_items ty _ _ _ Hn'). lia. }
      { lia. }
      change (List.flat_map slot_items (drop (Z.to_nat 0) bs')) with (items (SHAMapInnerNode c' h'' bs')) in El.
      assert (item ∈ items (SHAMapInnerNode c' h'' bs')) as Hin by (rewrite El; by left).
      exists item, leafn, leafid, (l ++ List.flat_map slot_items (drop (S (Z.to_nat i)) bs)), (path ++ [(SHAMapInnerNode c' h'' bs', nid')]).
      rewrite E, El. split; [by rewrite <- app_assoc|]. split; [done|]. split.
      * unfold stack_rest in *. rewrite List.flat_map_app, Er. f_equal. cbn [List.flat_map fst snd]. rewrite app_nil_r, Hdn.
        destruct (Hit item Hin) as [-> _]. done.
      * intros st' Hst' Hlen. rewrite <- app_assoc. apply Hst; [by apply Hpush|]. cbn. lia.
    + cbn [items app] in *. exists it, (SHAMapLeafNode c' h'' t it), (mkNodeID (item_key it) leafDepth), (List.flat_map slot_items (drop (S (Z.to_nat i)) bs)), [].
      split; [done|]. split; [done|]. destruct (Hit it ltac:(by left)) as [Hdig _]. split.
      * cbn [app]. rewrite stack_rest_cons, Hdn, Hdig. apply app_nil_r.
      * intros st' Hst' Hlen. cbn [app]. apply Hpush; [by left|done|done].
Qed.

(** The identifier of the parent of a node at depth [d]. *)
Definition parent_ok (d : Z) (st : NodeStack) : Prop :=
  match st with [] => d = 0 | (_, nid) :: _ => depth_ nid + 1 = d /\ id_ok nid end.

Lemma firstBelow_spec ty d p n st branch : node_ok ty d p n -> 0 <= d -> parent_ok d st -> 0 <= branch < 16 -> items n <> [] ->
  exists item leafn leafid l path,
    firstBelow n st branch = Val (Some item, (leafn, leafid) :: path ++ st) /\ items n = item :: l /\ stack_rest (item_key item) path = l /\
    forall st', stack_ok ty (item_key item) st' -> Z.of_nat (length st') = d -> stack_ok ty (item_key item) (path ++ st').
Proof.
  intros Hn Hd Hpar Hbr Hne. destruct n as [c h bs|c h t i].
  - assert (exists nid, match st with [] => Val root_id | (_, topID) :: _ => getChildNodeID topID branch end = Val nid /\ id_ok nid /\ depth_ nid = d) as (nid & E & Hid & Hdn).
    { destruct st as [|[n' nid] st]; cbn in Hpar.
      - exists root_id. split; [done|]. split; [split; cbn; [lia|done]|]. cbn. lia.
      - destruct Hpar as [Hdp Hid]. pose proof Hn as (? & _)%inner_ok_iff.
        destruct (getChildNodeID_ok nid branch Hid ltac:(lia) Hbr) as (nid' & E & Hid' & Hd'). exists nid'. split; [done|]. split; [done|lia]. }
    unfold firstBelow. rewrite E. cbn [mbind res_bind].
    destruct (below_loop_spec ty branch below_fuel Hbr d p c h bs 0 nid st Hn Hd Hdn Hid ltac:(lia)) as (item & leafn & leafid & l & path & E' & El & Er & Hst).
    { exact Hne. }
    { unfold below_fuel. lia. }
    exists item, leafn, leafid, l, (path ++ [(SHAMapInnerNode c h bs, nid)]). rewrite <- app_assoc. split; [exact E'|]. split; [exact El|]. split; [done|].
    intros st' Hst' Hlen. rewrite <- app_assoc. by apply Hst.
  - exists i. eexists _, _, [], []. split; [done|]. split; [done|]. split; [done|]. intros st' Hst' _. exact Hst'.
Qed.

Lemma next_branch_spec fuel bs i : 0 <= i <= 16 -> 16 - i <= Z.of_nat fuel ->
  match next_branch fuel bs i with
  | Some j => i <= j < 16 /\ isEmptyBranch bs j = false /\ forall k, i <= k < j -> isEmptyBranch bs k = true
  | None => forall k, i <= k < 16 -> isEmptyBranch bs k = true
  end.
Proof.
  revert i. induction fuel as [|fuel IH]; intros i Hi Hf; cbn [next_branch]; [intros; lia|].
  unfold branchFactor. destruct (Z.ltb_spec i 16); cbn [negb]; [|intros; lia].
  destruct (isEmptyBranch bs i) eqn:E; [|split; [lia|]; split; [done|]; intros; lia].
  specialize (IH (i + 1) ltac:(lia) ltac:(lia)). destruct (next_branch fuel bs (i + 1)) as [j|].
  - destruct IH as (Hj & Hne & Hb). split; [lia|]. split; [done|]. intros k Hk. destruct (Z.eq_dec k i) as [->|]; [done|]. apply Hb. lia.
  - intros k Hk. destruct (Z.eq_dec k i) as [->|]; [done|]. apply IH. lia.
Qed.

Lemma isEmptyBranch_slot bs k : isEmptyBranch bs (Z.of_nat k) = true -> bs !! k = Some None \/ bs !! k = None.
Proof. unfold isEmptyBranch. rewrite Nat2Z.id. destruct (bs !! k) as [[?|]|]; [done|by left|by right]. Qed.

Lemma climb_spec ty id st : stack_ok ty id st ->
  match stack_rest id st with
  | [] => climb id st = Val (None, [])
  | item :: l => exists leafn leafid st', climb id st = Val (Some item, (leafn, leafid) :: st') /\
                   stack_ok ty (item_key item) st' /\ stack_rest (item_key item) st' = l
  end.
Proof.
  induction 1 as [|c h bs nid st Hst IH Hd Hid Hn]; [done|]. rewrite stack_rest_cons.
  pose proof Hn as (Hd64 & Hbs & _)%inner_ok_iff. pose proof (proj1 Hbs) as Hl. pose proof (digit_range (depth_ nid) id) as Hr.
  cbn [climb]. rewrite selectBranch_val by lia. cbn [mbind res_bind].
  pose proof (next_branch_spec 16 bs (digit (depth_ nid) id + 1) ltac:(lia) ltac:(lia)) as Hnb.
  destruct (next_branch 16 bs (digit (depth_ nid) id + 1)) as [i|].
  - destruct Hnb as (Hi & Hne & Hbetween). pose proof (isEmptyBranch_spec ty _ _ bs i Hbs ltac:(lia)) as Hs. rewrite Hne in Hs.
    destruct Hs as (h' & n & Hb & -> & Hn'). cbn [mbind res_bind].
    destruct (firstBelow_spec ty _ _ n ((SHAMapInnerNode c h bs, nid) :: st) i Hn') as (item & leafn & leafid & l & path & -> & El & Er & Hok);
      [lia|by split|lia|by apply (node_ok_items ty _ _ _ Hn'); lia|]. cbn [mbind res_bind].
    assert (item ∈ items n) as Hin by (rewrite El; by left).
    pose proof (item_branch ty _ _ c h bs (Z.to_nat i) h' n item Hn ltac:(lia) Hb Hin) as Hdig. rewrite Z2Nat.id in Hdig by lia.
    destruct (items_prefix ty _ _ _ item Hn ltac:(lia)) as [_ Hpre]; [apply elem_of_items_inner; eauto|].
    destruct (stack_rekey ty id (item_key item) st Hst ltac:(lia)) as [Hst' Hrest]; [by rewrite <- Hd|].
    rewrite (drop_empty bs (S (Z.to_nat (digit (depth_ nid) id))) (Z.to_nat i)), (drop_S _ _ _ Hb);
      [|lia|intros k Hk; apply isEmptyBranch_slot, Hbetween; lia].
    cbn [List.flat_map slot_items]. rewrite El. cbn [app]. eexists _, _, _. split; [done|].
    assert (stack_ok ty (item_key item) ((SHAMapInnerNode c h bs, nid) :: st)) as Hst2 by (constructor; [done|done|done|]; by rewrite Hpre).
    split; [apply Hok; [done|]; cbn; lia|].
    unfold stack_rest in *. rewrite List.flat_map_app, Er. cbn [List.flat_map fst snd]. rewrite <- Hdig, Hrest, <- !app_assoc. done.
  - rewrite (drop_empty bs _ 16), (drop_ge bs 16) by (try lia; intros k Hk; apply isEmptyBranch_slot, Hnb; lia). exact IH.
Qed.

(** An iterator at an item visits that item and what is to the right of it. *)
Lemma visit_from_spec ty l : forall fuel item leafn leafid st, stack_ok ty (item_key item) st -> stack_rest (item_key item) st = l ->
  (length l < fuel)%nat -> visit_from fuel (Some item, (leafn, leafid) :: st) = Val (item :: l).
Proof.
  induction l as [|item' l IH]; intros [|fuel] item leafn leafid st Hst Hr Hf; cbn in Hf; try lia; cbn [visit_from peekNextItem].
  - pose proof (climb_spec ty _ st Hst) as Hc. rewrite Hr in Hc. rewrite Hc. cbn. by destruct fuel.
  - pose proof (climb_spec ty _ st Hst) as Hc. rewrite Hr in Hc. destruct Hc as (leafn' & leafid' & st' & -> & Hst' & Hr').
    cbn [mbind res_bind]. by rewrite (IH fuel item' leafn' leafid' st') by (done || lia).
Qed.

Lemma visit_after_climb ty id st fuel : stack_ok ty id st -> (length (stack_rest id st) <= fuel)%nat ->
  exists it, climb id st = Val it /\ visit_from fuel it = Val (stack_rest id st).
Proof.
  intros Hst Hf. pose proof (climb_spec ty id st Hst) as Hc. destruct (stack_rest id st) as [|item l].
  - rewrite Hc. eexists. split; [done|]. by destruct fuel.
  - destruct Hc as (leafn & leafid & st' & -> & Hst' & Hr). eexists. split; [done|]. cbn in Hf. by apply (visit_from_spec ty).
Qed.

(** ** From the first item, and from a key *)

Lemma below_loop_none fuel branch c h bs i st : length bs = 16%nat -> (forall k, isEmptyBranch bs k = true) -> 0 <= i <= 17 -> 18 - i <= Z.of_nat fuel ->
  below_loop fuel branch (SHAMapInnerNode c h bs) i st = Val (None, st).
Proof.
  intros Hl He. revert i. induction fuel as [|fuel IH]; intros i Hi Hf; [lia|]. cbn [below_loop]. unfold branchFactor.
  destruct (Z.leb_spec i 16); cbn [negb]; [|done]. rewrite He. apply IH; lia.
Qed.

Lemma peekFirstItem_spec ty m fuel : map_ok ty m -> (length (items (root_ m)) <= fuel)%nat ->
  exists it, peekFirstItem m = Val it /\ visit_from fuel it = Val (items (root_ m)).
Proof.
  intros (Hty & Hin & Hn) Hf. unfold peekFirstItem. destruct (items (root_ m)) as [|i0 l0] eqn:Ei.
  - destruct (root_ m) as [c h bs|]; [|done]. pose proof Hn as (_ & Hbs & _)%inner_ok_iff. unfold firstBelow. cbn [mbind res_bind].
    rewrite below_loop_none; [cbn; eexists; split; [done|by destruct fuel]|apply Hbs| |lia|unfold below_fuel; lia].
    intros k. unfold isEmptyBranch. destruct (bs !! Z.to_nat k) as [[[h' [n|]]|]|] eqn:Eb; try done; [|by apply (proj1 (proj2 Hbs)) in Eb].
    exfalso. pose proof (proj2 (proj2 Hbs) _ _ _ Eb) as Hn'. apply (node_ok_items ty _ _ _ Hn'); [lia|].
    rewrite (items_at c h bs (Z.of_nat (Z.to_nat k)) (Some (h', Some n))) in Ei by (by rewrite Nat2Z.id).
    by apply app_nil in Ei as [_ [? _]%app_nil].
  - destruct (firstBelow_spec ty 0 0 (root_ m) [] 0 Hn) as (item & leafn & leafid & l & path & -> & El & Er & Hok); [lia|done|lia|by rewrite Ei|].
    rewrite Ei in El. injection El as -> ->. cbn [mbind res_bind]. eexists. split; [done|]. cbn in Hf.
    apply (visit_from_spec ty); [apply Hok; [constructor|done]|by rewrite app_nil_r|lia].
Qed.

Lemma path_stack ty id d n dt top rest st : path_to id d n dt top rest -> node_ok ty d (prefix d id) n -> 0 <= d ->
  stack_ok ty id st -> Z.of_nat (length st) = d -> stack_ok ty id (rest ++ st).
Proof.
  intros Hp. revert st. induction Hp as [d c h t i|d c h bs Hb|d c h bs h' n dt top rest Hb Hp IH]; intros st Hn Hd Hst Hl; [done|done|].
  pose proof Hn as (Hd64 & _ & _)%inner_ok_iff.
  destruct (digit_slot ty d _ c h bs id Hn) as [Hb'|(h1 & n1 & Hb' & Hn')]; [congruence|].
  assert (h1 = h' /\ n1 = n) as [-> ->] by (split; congruence).
  rewrite <- app_assoc. apply IH; [by rewrite prefix_succ by lia|lia| |cbn; lia].
  constructor; [done|done|by apply createID_ok; lia|done].
Qed.

Definition after_key (id : Z) (l : list SHAMapItem) : list SHAMapItem := filter (fun i => id < item_key i) l.

Lemma after_key_none id l : (forall i, i ∈ l -> item_key i < id) -> after_key id l = [].
Proof.
  intros Hl. unfold after_key. induction l as [|i l IH]; [done|]. pose proof (Hl i ltac:(by left)).
  rewrite filter_cons_False by lia. apply IH. intros j Hj. apply Hl. by right.
Qed.

Lemma slots_elem i l : i ∈ List.flat_map slot_items l -> exists k o, l !! k = Some o /\ i ∈ slot_items o.
Proof.
  rewrite list_elem_of_In, List.in_flat_map. intros (o & Ho & Hi). apply list_elem_of_In in Ho, Hi. apply list_elem_of_lookup in Ho as [k Hk]. eauto.
Qed.

(** Below an inner node on the way to a key: the branch of its digit, and the branches to the right. *)
Lemma inner_after ty d id c h bs o : node_ok ty d (prefix d id) (SHAMapInnerNode c h bs) -> 0 <= d -> bs !! Z.to_nat (digit d id) = Some o ->
  after_key id (items (SHAMapInnerNode c h bs)) =
  after_key id (slot_items o) ++ List.flat_map slot_items (drop (S (Z.to_nat (digit d id))) bs).
Proof.
  intros Hn Hd Hb. pose proof Hn as (Hd64 & Hbs & _)%inner_ok_iff. pose proof (digit_range d id) as Hr. unfold after_key.
  rewrite items_inner, (flat_map_split slot_items bs _ o Hb), !filter_app.
  assert (forall k o' i, bs !! k = Some o' -> i ∈ slot_items o' -> prefix (d + 1) (item_key i) = 16 * prefix d id + Z.of_nat k) as Hpre.
  { intros k [[h' [n|]]|] i Hk Hi; cbn in Hi; try (by apply not_elem_of_nil in Hi).
    eapply (items_prefix ty); [by eapply Hbs|lia|done]. }
  change (filter (fun i => id < item_key i) ?l) with (after_key id l).
  rewrite (after_key_none id (List.flat_map slot_items (take _ bs))); [cbn [app]; f_equal; apply filter_all|].
  - intros i (k & o' & Hk & Hi)%slots_elem. rewrite lookup_drop in Hk. apply (prefix_lt (d + 1)); [lia|].
    rewrite (Hpre _ _ _ Hk Hi), prefix_succ by lia. lia.
  - intros i (k & o' & Hk & Hi)%slots_elem. pose proof (lookup_lt_Some _ _ _ Hk) as Hlt. rewrite length_take in Hlt.
    rewrite lookup_take_lt in Hk by lia. apply (prefix_lt (d + 1)); [lia|]. rewrite (Hpre _ _ _ Hk Hi), prefix_succ by lia. lia.
Qed.

Lemma path_after ty id d n dt top rest : path_to id d n dt top rest -> node_ok ty d (prefix d id) n -> 0 <= d ->
  after_key id (items n) = after_key id (items top) ++ stack_rest id rest.
Proof.
  induction 1 as [d c h t i|d c h bs Hb|d c h bs h' n dt top rest Hb Hp IH]; intros Hn Hd; [by rewrite app_nil_r..|].
  pose proof Hn as (Hd64 & _ & _)%inner_ok_iff.
  destruct (digit_slot ty d _ c h bs id Hn) as [Hb'|(h1 & n1 & Hb' & Hn')]; [congruence|].
  assert (h1 = h' /\ n1 = n) as [-> ->] by (split; congruence).
  rewrite (inner_after ty d id c h bs _ Hn Hd Hb). cbn [slot_items]. rewrite IH; [|by rewrite prefix_succ by lia|lia].
  unfold stack_rest. rewrite List.flat_map_app. cbn [List.flat_map fst snd depth_ createID]. by rewrite app_nil_r, <- app_assoc.
Qed.

Lemma upper_bound_spec ty m id fuel : map_ok ty m -> key_ok id -> (length (items (root_ m)) <= fuel)%nat ->
  exists it, upper_bound m id = Val it /\ visit_from fuel it = Val (after_key id (items (root_ m))).
Proof.
  intros Hm Hk Hf. destruct (walkTowardsKey_path ty m id Hm) as (dt & top & rest & Hp & Hd & E). destruct Hm as (Hty & Hin & Hn).
  assert (node_ok ty 0 (prefix 0 id) (root_ m)) as Hn' by (by rewrite prefix_0). clear Hn. rename Hn' into Hn. unfold upper_bound. rewrite E. cbn [mbind res_bind].
  pose proof (path_after ty id _ _ _ _ _ Hp Hn ltac:(lia)) as Ea.
  pose proof (path_stack ty id _ _ _ _ _ [] Hp Hn ltac:(lia) ltac:(constructor) ltac:(done)) as Hst. rewrite app_nil_r in Hst.
  destruct (path_top ty id 0 _ _ _ _ _ Hp Hn ltac:(lia) eq_refl) as (Ht & _ & _ & _).
  assert (length (after_key id (items (root_ m))) <= length (items (root_ m)))%nat as Hlen by (unfold after_key; apply length_filter).
  destruct (path_depth _ _ _ _ _ _ Hp) as [Hdep _].
  destruct top as [c h bs|c h t i].
  - pose proof (path_top_slot _ _ _ _ _ _ _ _ Hp) as Hs. pose proof Ht as (Hd64 & _ & _)%inner_ok_iff.
    assert (stack_ok ty id ((SHAMapInnerNode c h bs, createID dt id) :: rest)) as Hst2.
    { constructor; [done|cbn; lia|by apply createID_ok|done]. }
    rewrite (inner_after ty dt id c h bs None Ht ltac:(lia) Hs) in Ea. cbn [slot_items app] in Ea.
    assert (after_key id (items (root_ m)) = stack_rest id ((SHAMapInnerNode c h bs, createID dt id) :: rest)) as Ea' by (rewrite Ea; done).
    rewrite Ea' in *. apply (visit_after_climb ty); [done|lia].
  - unfold after_key in Ea at 2. cbn [items] in Ea. rewrite filter_cons in Ea. destruct (Z.ltb_spec id (item_key i)) as [Hlt|Hge].
    + rewrite decide_True in Ea by done. cbn [app] in Ea. change (filter _ []) with (@nil SHAMapItem) in Ea. cbn [app] in Ea.
      eexists. split; [done|]. rewrite Ea in *. cbn [length] in Hlen.
      destruct (items_prefix ty dt _ _ i Ht ltac:(lia) ltac:(by left)) as [_ Hpre].
      destruct (stack_rekey ty id (item_key i) rest Hst ltac:(lia)) as [Hst' Hr]; [replace (Z.of_nat (length rest)) with dt by lia; done|].
      apply (visit_from_spec ty); [done|done|lia].
    + rewrite decide_False in Ea by lia. change (filter _ []) with (@nil SHAMapItem) in Ea. cbn [app] in Ea. rewrite Ea in *.
      apply (visit_after_climb ty); [done|lia].
Qed.

Lemma sorted_after_key id l : StronglySorted item_lt l -> StronglySorted item_lt (after_key id l).
Proof.
  induction 1 as [|i l Hs IH Hf]; [constructor|]. unfold after_key in *. rewrite filter_cons. destruct (decide _); [|done].
  constructor; [done|]. rewrite Forall_forall in Hf |- *. intros j [_ Hj]%list_elem_of_filter. by apply Hf.
Qed.

(** C34: iterating over a map from its first item, and from [upper_bound] of a key that need not be in it,
    ends without an exception and visits exactly the items of the map, or those after the key, each once and in
    the order of their keys. *)
Theorem shamap_iterates ty m id : map_ok ty m -> key_ok id ->
  let fuel := size (contents m) in
  exists it it' l l', peekFirstItem m = Val it /\ visit_from fuel it = Val l /\ upper_bound m id = Val it' /\ visit_from fuel it' = Val l' /\
    StronglySorted item_lt l /\ (forall i, i ∈ l <-> contents m !! item_key i = Some i) /\
    StronglySorted item_lt l' /\ (forall i, i ∈ l' <-> contents m !! item_key i = Some i /\ id < item_key i).
Proof.
  intros Hm Hk fuel. pose proof Hm as (_ & _ & Hn).
  pose proof (items_NoDup ty 0 0 _ Hn ltac:(lia)) as Hnd. pose proof (items_sorted ty 0 0 _ Hn ltac:(lia)) as Hs.
  assert (length (items (root_ m)) = fuel) as Hf.
  { unfold fuel. rewrite map_contents. unfold items_map. rewrite map_size_list_to_map by (by rewrite items_map_keys). by rewrite length_fmap. }
  destruct (peekFirstItem_spec ty m fuel Hm ltac:(lia)) as (it & E1 & V1). destruct (upper_bound_spec ty m id fuel Hm Hk ltac:(lia)) as (it' & E2 & V2).
  exists it, it', (items (root_ m)), (after_key id (items (root_ m))). do 5 (split; [done|]).
  assert (forall i, i ∈ items (root_ m) <-> contents m !! item_key i = Some i) as Hel.
  { intros i. rewrite map_contents, items_map_Some by done. naive_solver. }
  split; [done|]. split; [by apply sorted_after_key|]. intros i. unfold after_key. rewrite list_elem_of_filter, Hel. tauto.
Qed.
End iteration.

(** ** Samples *)

Module IterSamples.

#[local] Instance const_sha : Sha512Half.
Proof. refine {| sha512Half := fun _ => 1 |}. lia. Defined.

(** A map with two keys below branch 3 and one in branch 9. *)
Definition k1 : Z := 0x31 * 16 ^ 62.
Definition k2 : Z := 0x3A * 16 ^ 62.
Definition k3 : Z := 0x90 * 16 ^ 62.
Definition sample_map : SHAMap :=
  match addGiveItem new_map tnACCOUNT_STATE (mkItem k2 []) with
  | Val (_, m) => match addGiveItem m tnACCOUNT_STATE (mkItem k3 []) with
    | Val (_, m) => match addGiveItem m tnACCOUNT_STATE (mkItem k1 []) with Val (_, m) => m | _ => m end
    | _ => m
    end
  | _ => new_map
  end.

Lemma add_sample m i : map_ok tnACCOUNT_STATE m -> key_ok (item_key i) -> contents m !! item_key i = None ->
  map_ok tnACCOUNT_STATE (match addGiveItem m tnACCOUNT_STATE i with Val (_, m) => m | _ => m end).
Proof. intros Hm Hk Hc. pose proof (addGiveItem_spec _ m i Hm Hk) as Hs. rewrite Hc in Hs. by destruct Hs as (m' & -> & Hm' & _). Qed.

Lemma key_ok_dec k : (0 <=? k) && (k <? 2 ^ 256) = true -> key_ok k.
Proof. intros. bool_prop. done. Qed.

Lemma sample_map_ok : map_ok tnACCOUNT_STATE sample_map.
Proof.
  pose proof (new_map_ok tnACCOUNT_STATE ltac:(discriminate)) as H0.
  pose proof (add_sample _ (mkItem k2 []) H0 (key_ok_dec k2 eq_refl) ltac:(vm_compute; reflexivity)) as H1.
  pose proof (add_sample _ (mkItem k3 []) H1 (key_ok_dec k3 eq_refl) ltac:(vm_compute; reflexivity)) as H2.
  exact (add_sample _ (mkItem k1 []) H2 (key_ok_dec k1 eq_refl) ltac:(vm_compute; reflexivity)).
Qed.

Lemma shamap_iterates_witness : exists it it' l l', peekFirstItem sample_map = Val it /\ visit_from 3 it = Val l /\
  upper_bound sample_map k1 = Val it' /\ visit_from 3 it' = Val l' /\
  StronglySorted item_lt l /\ (forall i, i ∈ l <-> contents sample_map !! item_key i = Some i) /\
  StronglySorted item_lt l' /\ (forall i, i ∈ l' <-> contents sample_map !! item_key i = Some i /\ k1 < item_key i).
Proof. exact (shamap_iterates tnACCOUNT_STATE sample_map k1 sample_map_ok (key_ok_dec k1 eq_refl)). Defined.
End IterSamples.
