(* ===== verification/ShaMapDelta.v ===== *)
(** * ShaMapDelta: differences between maps ([shamap/impl/SHAMapDelta.cpp])

    [compare] lists the keys at which two maps differ.  It walks both trees with a
    stack, skips branches with equal hashes, and gives up when it has found
    [maxCount] differences.

    The theorem: the table it returns is exactly the difference of the contents, or,
    when it gives up, that many entries of it. *)

From stdpp Require Import base numbers list option gmap sorting.
From Stdlib Require Import ZArith Lia.
From S2P Require Import Prelude ShaMapNode ShaMap ShaMapOps ShaMapHash ShaMapSpec.

Local Open Scope Z_scope.

(** ** The code *)

Abbreviation DeltaItem := (option SHAMapItem * option SHAMapItem)%type.
Abbreviation Delta := (gmap Z DeltaItem).

(** [std::map::insert] keeps an entry that is there. *)
Definition delta_insert (k : Z) (v : DeltaItem) (d : Delta) : Delta :=
  match d !! k with Some _ => d | None => <[k := v]> d end.

(** An entry with the item of the walked map on its side. *)
Definition orient (isFirstMap : bool) (mine other : option SHAMapItem) : DeltaItem :=
  if isFirstMap then (mine, other) else (other, mine).

(** Pushes the children of the branches in use; the last is on top. *)
Fixpoint push_children (bs : list branch_slot) (stack : list SHAMapTreeNode) : mres (list SHAMapTreeNode) :=
  match bs with
  | [] => Val stack
  | None :: bs => push_children bs stack
  | Some (_, Some c) :: bs => push_children bs (c :: stack)
  | Some (_, None) :: bs => Err SHAMapMissingNode
  end.

Fixpoint walkBranch_loop (fuel : nat) (nodeStack : list SHAMapTreeNode) (otherMapItem : option SHAMapItem) (emptyBranch isFirstMap : bool)
    (differences : Delta) (maxCount : Z) : mres (bool * Delta * Z) :=
  match fuel with
  | O => Undef
  | S fuel =>
    match nodeStack with
    | [] =>
      match otherMapItem with
      | Some o =>
        if emptyBranch then Val (true, differences, maxCount) else
        let differences := delta_insert (item_key o) (orient isFirstMap None (Some o)) differences in
        let maxCount := maxCount - 1 in
        if maxCount <=? 0 then Val (false, differences, maxCount) else Val (true, differences, maxCount)
      | None => Val (true, differences, maxCount)
      end
    | SHAMapInnerNode _ _ bs :: nodeStack =>
      nodeStack ← push_children bs nodeStack;
      walkBranch_loop fuel nodeStack otherMapItem emptyBranch isFirstMap differences maxCount
    | SHAMapLeafNode _ _ _ item :: nodeStack =>
      let unmatched :=
        let differences := delta_insert (item_key item) (orient isFirstMap (Some item) None) differences in
        let maxCount := maxCount - 1 in
        if maxCount <=? 0 then Val (false, differences, maxCount)
        else walkBranch_loop fuel nodeStack otherMapItem emptyBranch isFirstMap differences maxCount in
      match otherMapItem with
      | Some o =>
        if emptyBranch || negb (item_key item =? item_key o) then unmatched
        else if negb (bool_decide (item_slice item = item_slice o)) then
          let differences := delta_insert (item_key item) (orient isFirstMap (Some item) (Some o)) differences in
          let maxCount := maxCount - 1 in
          if maxCount <=? 0 then Val (false, differences, maxCount)
          else walkBranch_loop fuel nodeStack otherMapItem true isFirstMap differences maxCount
        else walkBranch_loop fuel nodeStack otherMapItem true isFirstMap differences maxCount
      | None => unmatched
      end
    end
  end.

Fixpoint node_count (n : SHAMapTreeNode) : nat :=
  match n with
  | SHAMapLeafNode _ _ _ _ => 1
  | SHAMapInnerNode _ _ bs => S (list_sum (List.map (fun o => match o with Some (_, Some c) => node_count c | _ => 0%nat end) bs))
  end.

Definition walkBranch (node : SHAMapTreeNode) (otherMapItem : option SHAMapItem) (isFirstMap : bool) (differences : Delta) (maxCount : Z)
  : mres (bool * Delta * Z) :=
  walkBranch_loop (S (node_count node)) [node] otherMapItem (match otherMapItem with None => true | _ => false end) isFirstMap differences maxCount.

(** The loop over the sixteen branches of two inner nodes. *)
Fixpoint compare_branches (ours others : list branch_slot) (nodeStack : list (SHAMapTreeNode * SHAMapTreeNode)) (differences : Delta) (maxCount : Z)
  : mres (bool * list (SHAMapTreeNode * SHAMapTreeNode) * Delta * Z) :=
  match ours, others with
  | o1 :: ours, o2 :: others =>
    if slot_hash o1 =? slot_hash o2 then compare_branches ours others nodeStack differences maxCount
    else
      match o2, o1 with
      | None, Some (_, c) =>
        match c with
        | None => Err SHAMapMissingNode
        | Some n =>
          '(go, differences, maxCount) ← walkBranch n None true differences maxCount;
          if (go : bool) then compare_branches ours others nodeStack differences maxCount else Val (false, nodeStack, differences, maxCount)
        end
      | Some (_, c), None =>
        match c with
        | None => Err SHAMapMissingNode
        | Some n =>
          '(go, differences, maxCount) ← walkBranch n None false differences maxCount;
          if (go : bool) then compare_branches ours others nodeStack differences maxCount else Val (false, nodeStack, differences, maxCount)
        end
      | Some (_, Some n2), Some (_, Some n1) => compare_branches ours others ((n1, n2) :: nodeStack) differences maxCount
      | _, _ => Err SHAMapMissingNode
      end
  | _, _ => Val (true, nodeStack, differences, maxCount)
  end.

Fixpoint compare_loop (fuel : nat) (nodeStack : list (SHAMapTreeNode * SHAMapTreeNode)) (differences : Delta) (maxCount : Z)
  : mres (bool * Delta) :=
  match fuel with
  | O => Undef
  | S fuel =>
    match nodeStack with
    | [] => Val (true, differences)
    | (SHAMapLeafNode _ _ _ i1, SHAMapLeafNode _ _ _ i2) :: nodeStack =>
      if item_key i1 =? item_key i2 then
        if negb (bool_decide (item_slice i1 = item_slice i2)) then
          let differences := delta_insert (item_key i1) (Some i1, Some i2) differences in
          let maxCount := maxCount - 1 in
          if maxCount <=? 0 then Val (false, differences) else compare_loop fuel nodeStack differences maxCount
        else compare_loop fuel nodeStack differences maxCount
      else
        let differences := delta_insert (item_key i1) (Some i1, None) differences in
        let maxCount := maxCount - 1 in
        if maxCount <=? 0 then Val (false, differences) else
        let differences := delta_insert (item_key i2) (None, Some i2) differences in
        let maxCount := maxCount - 1 in
        if maxCount <=? 0 then Val (false, differences) else compare_loop fuel nodeStack differences maxCount
    | (SHAMapInnerNode _ _ _ as ours, SHAMapLeafNode _ _ _ i2) :: nodeStack =>
      '(go, differences, maxCount) ← walkBranch ours (Some i2) true differences maxCount;
      if (go : bool) then compare_loop fuel nodeStack differences maxCount else Val (false, differences)
    | (SHAMapLeafNode _ _ _ i1, SHAMapInnerNode _ _ _ as other) :: nodeStack =>
      '(go, differences, maxCount) ← walkBranch other (Some i1) false differences maxCount;
      if (go : bool) then compare_loop fuel nodeStack differences maxCount else Val (false, differences)
    | (SHAMapInnerNode _ _ bs1, SHAMapInnerNode _ _ bs2) :: nodeStack =>
      '(go, nodeStack, differences, maxCount) ← compare_branches bs1 bs2 nodeStack differences maxCount;
      if (go : bool) then compare_loop fuel nodeStack differences maxCount else Val (false, differences)
    end
  end.

(** [compare] with an empty table of differences. *)
Definition compare `{Sha512Half} (m other : SHAMap) (maxCount : Z) : mres (bool * Delta) :=
  '(h1, m) ← getHash m;
  '(h2, other) ← getHash other;
  if h1 =? h2 then Val (true, ∅)
  else compare_loop (S (node_count (root_ m))) [(root_ m, root_ other)] ∅ maxCount.

(** ** Emitting entries *)

(** Inserts entries until the count is used up. *)
Fixpoint emit (l : list (Z * DeltaItem)) (d : Delta) (n : Z) : bool * Delta * Z :=
  match l with
  | [] => (true, d, n)
  | (k, v) :: l => if n - 1 <=? 0 then (false, delta_insert k v d, n - 1) else emit l (delta_insert k v d) (n - 1)
  end.

Lemma emit_app l1 l2 d n : emit (l1 ++ l2) d n = let '(b, d', n') := emit l1 d n in if b then emit l2 d' n' else (b, d', n').
Proof. revert d n. induction l1 as [|[k v] l1 IH]; intros d n; [done|]. cbn. destruct (n - 1 <=? 0); [done|]. apply IH. Qed.

(** [delta_list E f g]: [E] has one entry for every key at which [f] and [g] differ. *)
Definition delta_list (E : list (Z * DeltaItem)) (f g : Z -> option SHAMapItem) : Prop :=
  NoDup E.*1 /\ forall k x, (k, x) ∈ E <-> x = (f k, g k) /\ f k <> g k.

Definition lookup_items (l : list SHAMapItem) (k : Z) : option SHAMapItem := items_map l !! k.

Lemma delta_list_ext E f g f' g' : (forall k, f k = f' k) -> (forall k, g k = g' k) -> delta_list E f g -> delta_list E f' g'.
Proof. intros Ef Eg [Hn He]. split; [done|]. intros k x. by rewrite He, Ef, Eg. Qed.

Lemma delta_list_perm E E' f g : E ≡ₚ E' -> delta_list E f g -> delta_list E' f g.
Proof. intros Hp [Hn He]. split; [by rewrite <- Hp|]. intros k x. by rewrite <- He, Hp. Qed.

(** Differences of maps whose keys do not meet. *)
Lemma delta_list_app E1 E2 f1 g1 f2 g2 : delta_list E1 f1 g1 -> delta_list E2 f2 g2 ->
  (forall k, (f1 k = None /\ g1 k = None) \/ (f2 k = None /\ g2 k = None)) ->
  delta_list (E1 ++ E2) (fun k => f1 k ∪ f2 k) (fun k => g1 k ∪ g2 k).
Proof.
  intros [N1 H1] [N2 H2] Hd. split.
  - rewrite fmap_app. apply NoDup_app. split; [done|]. split; [|done]. intros k (e1 & -> & He1)%list_elem_of_fmap ([k2 x2] & Ek & He2)%list_elem_of_fmap.
    destruct e1 as [k1 x1]. cbn in Ek. subst k2. apply H1 in He1 as [_ He1]. apply H2 in He2 as [_ He2]. destruct (Hd k1) as [[E1' E2']|[E1' E2']]; congruence.
  - intros k x. rewrite elem_of_app, H1, H2. destruct (Hd k) as [[-> ->]|[-> ->]].
    + rewrite !(left_id_L None (∪)). naive_solver.
    + rewrite !(right_id_L None (∪)). naive_solver.
Qed.

Lemma delta_list_nil f g : (forall k, f k = g k) -> delta_list [] f g.
Proof. intros E. split; [constructor|]. intros k x. split; [by intros ?%not_elem_of_nil|]. intros [_ Hne]. by rewrite E in Hne. Qed.

Lemma delta_list_one k x f g : f k <> g k -> (f k, g k) = x -> (forall k', k' <> k -> f k' = g k') -> delta_list [(k, x)] f g.
Proof.
  intros Hne <- Ho. split; [repeat constructor; set_solver|]. intros k' x. rewrite list_elem_of_singleton. split.
  - intros [= -> ->]. done.
  - intros [-> Hne']. destruct (decide (k' = k)) as [->|]; [done|]. by rewrite Ho in Hne'.
Qed.

(** ** Walking one branch *)

Lemma lookup_items_cons i l k : lookup_items (i :: l) k = if bool_decide (item_key i = k) then Some i else lookup_items l k.
Proof.
  unfold lookup_items. rewrite items_map_cons. case_bool_decide as E; [subst; by rewrite lookup_insert_eq|by rewrite lookup_insert_ne].
Qed.

Lemma lookup_items_None l k : k ∉ item_key <$> l -> lookup_items l k = None.
Proof. apply items_map_None. Qed.

Lemma lookup_items_app l1 l2 k : lookup_items (l1 ++ l2) k = lookup_items l1 k ∪ lookup_items l2 k.
Proof.
  induction l1 as [|i l1 IH]; [by rewrite (lookup_items_None []), (left_id_L None (∪)) by apply not_elem_of_nil|]. cbn [app]. rewrite !lookup_items_cons. case_bool_decide; [|done].
  by destruct (lookup_items l2 k).
Qed.

Definition orient_list (first : bool) (E : list (Z * DeltaItem)) (f g : Z -> option SHAMapItem) : Prop :=
  if first then delta_list E f g else delta_list E g f.

Definition opt_lookup (empty : bool) (o : option SHAMapItem) (k : Z) : option SHAMapItem :=
  if empty then None else lookup_items (option_list o) k.

Lemma orient_cons first E f g k : f k <> g k -> orient_list first E (fun k' => if bool_decide (k = k') then None else f k') (fun k' => if bool_decide (k = k') then None else g k') ->
  orient_list first ((k, orient first (f k) (g k)) :: E) f g.
Proof.
  assert (forall E f g, f k <> g k -> delta_list E (fun k' => if bool_decide (k = k') then None else f k') (fun k' => if bool_decide (k = k') then None else g k') ->
    delta_list ((k, (f k, g k)) :: E) f g) as Hc.
  { clear. intros E f g Hne HE.
    pose proof (delta_list_app [(k, (f k, g k))] E (fun k' => if bool_decide (k = k') then f k' else None) (fun k' => if bool_decide (k = k') then g k' else None) _ _
      ltac:(apply delta_list_one; rewrite ?bool_decide_eq_true_2 by done; [done|done|intros k' Hk'; by rewrite !bool_decide_eq_false_2 by done]) HE) as Ha.
    eapply delta_list_ext; [| |exact (Ha ltac:(intros k'; cbn beta; case_bool_decide; auto))].
    all: intros k'; cbn beta; case_bool_decide; by rewrite ?(left_id_L None (∪)), ?(right_id_L None (∪)). }
  unfold orient_list, orient. destruct first; intros Hne HE; apply Hc; (done || congruence).
Qed.

Lemma orient_ext first E f g f' g' : (forall k, f k = f' k) -> (forall k, g k = g' k) -> orient_list first E f g -> orient_list first E f' g'.
Proof. destruct first; intros; by eapply delta_list_ext. Qed.

Lemma push_children_spec bs st : resident bs -> push_children bs st = Val (rev (children bs) ++ st).
Proof.
  intros Hr. revert st. induction Hr as [|[[h [n|]]|] bs Ho Hr IH]; intros st; cbn [push_children]; [done| |by specialize (Ho h)|].
  - rewrite IH. change (children (Some (h, Some n) :: bs)) with (n :: children bs). cbn. by rewrite <- app_assoc.
  - by rewrite IH.
Qed.

Lemma node_count_inner c h bs : node_count (SHAMapInnerNode c h bs) = S (list_sum (node_count <$> children bs)).
Proof.
  cbn [node_count]. f_equal. induction bs as [|[[h' [n|]]|] bs IH]; [done| |exact IH|exact IH].
  change (children (Some (h', Some n) :: bs)) with (n :: children bs). cbn [List.map list_sum foldr fmap list_fmap]. f_equal. exact IH.
Qed.

Lemma sum_counts_rev (l : list SHAMapTreeNode) : list_sum (node_count <$> rev l) = list_sum (node_count <$> l).
Proof. apply Permutation_list_sum. by rewrite <- Permutation_rev. Qed.

Section branches.
Context `{Sha512Half}.

Definition ok_node (n : SHAMapTreeNode) : Prop := exists ty d p, node_ok ty d p n.

Lemma ok_children c h bs : ok_node (SHAMapInnerNode c h bs) -> resident bs /\ Forall ok_node (children bs).
Proof.
  intros (ty & d & p & (_ & Hbs & _)%inner_ok_iff). split; [by eapply branches_resident|].
  apply Forall_forall. intros n (b & h' & Hb)%elem_of_children. eexists _, _, _. by eapply Hbs.
Qed.

Lemma flat_items_children l : List.flat_map items l = concat (items <$> l).
Proof. by rewrite List.flat_map_concat_map. Qed.

(** The items below the nodes of the stack against the other item. *)
Lemma walkBranch_loop_spec fuel : forall st other empty first d n,
  (other = None -> empty = true) -> Forall ok_node st ->
  (list_sum (node_count <$> st) < fuel)%nat -> NoDup (item_key <$> List.flat_map items st) ->
  exists E, walkBranch_loop fuel st other empty first d n = Val (emit E d n) /\
    orient_list first E (lookup_items (List.flat_map items st)) (opt_lookup empty other).
Proof.
  induction fuel as [|fuel IH]; intros st other empty first d n Ho Hok Hf Hnd; [lia|].
  destruct st as [|[c h bs|c h t i] st]; cbn [walkBranch_loop].
  - destruct other as [o|]; [destruct empty|].
    + exists []. split; [done|]. destruct first; by apply delta_list_nil.
    + exists [(item_key o, orient first None (Some o))]. split; [cbn; by destruct (n - 1 <=? 0)|].
      assert (forall k, opt_lookup false (Some o) k = if bool_decide (item_key o = k) then Some o else None) as Hl
        by (intros k; change (opt_lookup false (Some o) k) with (lookup_items [o] k); by rewrite lookup_items_cons, (lookup_items_None []) by apply not_elem_of_nil).
      destruct first; cbn [orient orient_list]; (apply delta_list_one; rewrite ?Hl, ?bool_decide_eq_true_2 by done; [done|done|]; intros k' Hk';
        rewrite Hl, bool_decide_eq_false_2 by done; done).
    + rewrite (Ho eq_refl). exists []. split; [done|]. destruct first; by apply delta_list_nil.
  - apply Forall_cons in Hok as [[Hr Hch]%ok_children Hok]. rewrite push_children_spec by done. cbn [mbind res_bind].
    assert (List.flat_map items (SHAMapInnerNode c h bs :: st) ≡ₚ List.flat_map items (rev (children bs) ++ st)) as Hp.
    { cbn [List.flat_map]. rewrite items_children, List.flat_map_app, <- flat_items_children.
      apply Permutation_app_tail, Permutation_flat_map, Permutation_rev. }
    destruct (IH (rev (children bs) ++ st) other empty first d n Ho) as (E & EE & HE).
    + apply Forall_app. split; [|done]. by apply Forall_rev.
    + rewrite fmap_cons, node_count_inner in Hf. change (list_sum (?x :: ?l)) with (x + list_sum l)%nat in Hf. rewrite fmap_app, list_sum_app, sum_counts_rev. lia.
    + by rewrite <- Hp.
    + exists E. split; [done|]. eapply orient_ext; [|done|exact HE]. intros k. unfold lookup_items. by rewrite (items_map_proper _ _ Hnd Hp).
  - apply Forall_cons in Hok as [_ Hok]. cbn [List.flat_map items app] in *. rewrite fmap_cons in Hnd. rewrite fmap_cons in Hf. apply NoDup_cons in Hnd as [Hni Hnd].
    assert (list_sum (node_count <$> st) < fuel)%nat as Hf' by (change (list_sum (?x :: ?l)) with (x + list_sum l)%nat in Hf; cbn [node_count] in Hf; lia). clear Hf.
    pose proof (lookup_items_None _ _ Hni) as Hnone.
    assert (forall k, (if bool_decide (item_key i = k) then None else lookup_items (i :: List.flat_map items st) k) = lookup_items (List.flat_map items st) k) as Hrest.
    { intros k. rewrite lookup_items_cons. case_bool_decide; [by subst|done]. }
    assert (lookup_items (i :: List.flat_map items st) (item_key i) = Some i) as Hhead by (by rewrite lookup_items_cons, bool_decide_eq_true_2).
    (* an entry for this item, then the rest *)
    assert (forall empty' w, (other = None -> empty' = true) -> opt_lookup empty other (item_key i) = w -> Some i <> w ->
      (forall k, (if bool_decide (item_key i = k) then None else opt_lookup empty other k) = opt_lookup empty' other k) ->
      exists E, (if n - 1 <=? 0 then Val (false, delta_insert (item_key i) (orient first (Some i) w) d, n - 1)
                 else walkBranch_loop fuel st other empty' first (delta_insert (item_key i) (orient first (Some i) w) d) (n - 1)) = Val (emit E d n) /\
        orient_list first E (lookup_items (i :: List.flat_map items st)) (opt_lookup empty other)) as Hone.
    { intros empty' w Ho' Hw Hne Hopt.
      destruct (IH st other empty' first (delta_insert (item_key i) (orient first (Some i) w) d) (n - 1) Ho' Hok Hf' Hnd) as (E & EE & HE).
      exists ((item_key i, orient first (Some i) w) :: E). split; [cbn [emit]; rewrite EE; by destruct (n - 1 <=? 0)|].
      rewrite <- Hhead, <- Hw. apply orient_cons; [by rewrite Hhead, Hw|]. eapply orient_ext; [| |exact HE]; intros k; by rewrite ?Hrest, ?Hopt. }
    destruct other as [o|].
    2:{ apply Hone; [done|by rewrite (Ho eq_refl)|done|]. intros k. rewrite (Ho eq_refl). cbn. by case_bool_decide. }
    destruct empty; cbn [orb].
    { apply Hone; [done|done|done|]. intros k. cbn. by case_bool_decide. }
    assert (forall k, opt_lookup false (Some o) k = if bool_decide (item_key o = k) then Some o else None) as Hl
      by (intros k; change (opt_lookup false (Some o) k) with (lookup_items [o] k); by rewrite lookup_items_cons, (lookup_items_None []) by apply not_elem_of_nil).
    destruct (Z.eqb_spec (item_key i) (item_key o)) as [Ek|Ek]; cbn [negb].
    + case_bool_decide as Es; cbn [negb].
      * assert (i = o) as <- by (destruct i, o; cbn in *; congruence).
        destruct (IH st (Some i) true first d n ltac:(done) Hok Hf' Hnd) as (E & EE & HE). exists E. split; [done|].
        assert (forall E f g f' g', (forall k, (f k = f' k /\ g k = g' k) \/ (f k = g k /\ f' k = g' k)) -> delta_list E f g -> delta_list E f' g') as Hswap.
        { clear. intros E f g f' g' Hfg [Hn He]. split; [done|]. intros k x. rewrite He. destruct (Hfg k) as [[-> ->]|[E1 E2]]; [done|]. naive_solver. }
        assert (forall k, (lookup_items (List.flat_map items st) k = lookup_items (i :: List.flat_map items st) k /\ None = opt_lookup false (Some i) k) \/
          (lookup_items (List.flat_map items st) k = None /\ lookup_items (i :: List.flat_map items st) k = opt_lookup false (Some i) k)) as Hk.
        { intros k. rewrite Hl, lookup_items_cons. case_bool_decide; [right; by subst|left; done]. }
        destruct first; cbn [orient_list] in *; (eapply Hswap; [|exact HE]); intros k; cbn; destruct (Hk k) as [[-> ->]|[-> ->]]; auto.
      * apply Hone; [done|rewrite Hl, bool_decide_eq_true_2 by done; done|congruence|].
        intros k. rewrite Hl, Ek. cbn. by case_bool_decide.
    + apply Hone; [done|by rewrite Hl, bool_decide_eq_false_2 by congruence|done|].
      intros k. rewrite Hl. case_bool_decide; [|done]. subst. by rewrite bool_decide_eq_false_2 by congruence.
Qed.

Lemma walkBranch_spec n other first d cnt : ok_node n -> NoDup (item_key <$> items n) ->
  exists E, walkBranch n other first d cnt = Val (emit E d cnt) /\ orient_list first E (lookup_items (items n)) (lookup_items (option_list other)).
Proof.
  intros Hok Hnd. unfold walkBranch.
  destruct (walkBranch_loop_spec (S (node_count n)) [n] other (match other with None => true | _ => false end) first d cnt) as (E & EE & HE).
  - by destruct other.
  - by repeat constructor.
  - change (list_sum (node_count <$> [n])) with (node_count n + 0)%nat. lia.
  - cbn [List.flat_map]. by rewrite app_nil_r.
  - exists E. split; [done|]. eapply orient_ext; [| |exact HE]; intros k; [cbn [List.flat_map]; by rewrite app_nil_r|].
    destruct other; [done|]. symmetry. apply lookup_items_None, not_elem_of_nil.
Qed.

(** ** Comparing two trees *)

Section pairs.
Context (ty : SHAMapNodeType) (M : list (list Z)) (K : list SHAMapItem) (HM : collision_free M) (HK : keys_bound ty K).

(** A clean node whose messages and items are among those considered. *)
Definition side_ok (d p : Z) (n : SHAMapTreeNode) : Prop :=
  node_ok ty d p n /\ cached_ok n /\ cowid n = 0 /\ messages n ⊆ M /\ items n ⊆ K.

Definition pair_ok (q : SHAMapTreeNode * SHAMapTreeNode) : Prop :=
  exists d p, 0 <= d /\ side_ok d p q.1 /\ side_ok d p q.2.

Definition pair_delta (q : SHAMapTreeNode * SHAMapTreeNode) (E : list (Z * DeltaItem)) : Prop :=
  delta_list E (lookup_items (items q.1)) (lookup_items (items q.2)).

(** Branches from number [q mod 16] on. *)
Definition slots_ok (d q : Z) (l : list branch_slot) : Prop :=
  forall j o, l !! j = Some o ->
    match o with
    | None => True
    | Some (_, None) => False
    | Some (h, Some c) => side_ok (d + 1) (q + Z.of_nat j) c /\ h = merkle c
    end.

Lemma slots_ok_cons d q o l : slots_ok d q (o :: l) ->
  match o with None => True | Some (_, None) => False | Some (h, Some c) => side_ok (d + 1) q c /\ h = merkle c end /\ slots_ok d (q + 1) l.
Proof.
  intros Hs. split.
  - specialize (Hs 0%nat o eq_refl). by rewrite Z.add_0_r in Hs.
  - intros j o' Hj. specialize (Hs (S j) o' Hj). by replace (q + 1 + Z.of_nat j) with (q + Z.of_nat (S j)) by lia.
Qed.

Lemma side_slots d p c h bs : side_ok d p (SHAMapInnerNode c h bs) -> 0 <= d -> slots_ok d (16 * p) bs.
Proof.
  intros (Hn & Hc & Hcl & Hm & Hi) Hd j o Hj. pose proof Hn as (_ & Hbs & _)%inner_ok_iff. cbn in Hcl.
  destruct o as [[h' [n|]]|]; [|by apply (proj1 (proj2 Hbs)) in Hj|done].
  inversion Hc as [|? ? ? Hch _ Hcc]; subst. destruct (Hcc eq_refl) as [_ Hs]. destruct (Hs _ _ _ Hj) as [Hcl' ->].
  split; [|by apply clean_merkle; [eapply Hch|]]. split; [by eapply Hbs|]. split; [by eapply Hch|]. split; [done|]. split.
  - etransitivity; [by eapply messages_child|exact Hm].
  - intros i Hi'. apply Hi. apply elem_of_items_inner. eauto.
Qed.

Lemma slots_prefix d q l k : slots_ok d q l -> 0 <= d -> is_Some (lookup_items (List.flat_map slot_items l) k) -> q <= prefix (d + 1) k.
Proof.
  intros Hs Hd [i Hi]. assert (k ∈ item_key <$> List.flat_map slot_items l) as (i' & -> & Hin)%list_elem_of_fmap.
  { destruct (decide (k ∈ item_key <$> List.flat_map slot_items l)) as [|Hn]; [done|]. by rewrite lookup_items_None in Hi. }
  apply list_elem_of_In, List.in_flat_map in Hin as (o & Ho & Hin). apply list_elem_of_In in Ho, Hin.
  apply list_elem_of_lookup in Ho as [j Hj]. specialize (Hs j o Hj). destruct o as [[h [n|]]|]; cbn in Hin; try (by apply not_elem_of_nil in Hin).
  destruct Hs as [(Hn & _) _]. destruct (items_prefix ty _ _ n i' Hn ltac:(lia) Hin). lia.
Qed.

Lemma head_prefix d q n k : side_ok (d + 1) q n -> 0 <= d -> is_Some (lookup_items (items n) k) -> prefix (d + 1) k = q.
Proof.
  intros (Hn & _) Hd [i Hi]. assert (k ∈ item_key <$> items n) as (i' & -> & Hin)%list_elem_of_fmap.
  { destruct (decide (k ∈ item_key <$> items n)) as [|Hn']; [done|]. by rewrite lookup_items_None in Hi. }
  by destruct (items_prefix ty _ _ n i' Hn ltac:(lia) Hin).
Qed.

Lemma side_nodup d p n : side_ok d p n -> 0 <= d -> NoDup (item_key <$> items n).
Proof. intros (Hn & _) Hd. by eapply items_NoDup. Qed.

Lemma slot_items_lookup_prefix d q o l k : slots_ok d q (o :: l) -> 0 <= d -> is_Some (lookup_items (slot_items o) k) -> prefix (d + 1) k = q.
Proof.
  intros [Ho _]%slots_ok_cons Hd Hs. destruct o as [[h [n|]]|]; [|by destruct Hs as [? Hs]; rewrite lookup_items_None in Hs by apply not_elem_of_nil..].
  destruct Ho as [Ho _]. by eapply head_prefix.
Qed.

(** The differences of the first branches and of the others. *)
Lemma delta_cons d q o1 l1 o2 l2 E0 E : slots_ok d q (o1 :: l1) -> slots_ok d q (o2 :: l2) -> 0 <= d ->
  delta_list E0 (lookup_items (slot_items o1)) (lookup_items (slot_items o2)) ->
  delta_list E (lookup_items (List.flat_map slot_items l1)) (lookup_items (List.flat_map slot_items l2)) ->
  delta_list (E0 ++ E) (lookup_items (List.flat_map slot_items (o1 :: l1))) (lookup_items (List.flat_map slot_items (o2 :: l2))).
Proof.
  intros H1 H2 Hd HE0 HE. eapply delta_list_ext; [| |apply (delta_list_app _ _ _ _ _ _ HE0 HE)].
  1, 2: intros k; cbn [List.flat_map]; by rewrite lookup_items_app.
  intros k. pose proof H1 as [_ T1]%slots_ok_cons. pose proof H2 as [_ T2]%slots_ok_cons.
  destruct (decide (prefix (d + 1) k = q)) as [Eq|Ne].
  - right. split; apply eq_None_not_Some; intros Hs; [pose proof (slots_prefix _ _ _ _ T1 Hd Hs)|pose proof (slots_prefix _ _ _ _ T2 Hd Hs)]; lia.
  - left. split; apply eq_None_not_Some; intros Hs; apply Ne; [by eapply (slot_items_lookup_prefix d q o1 l1)|by eapply (slot_items_lookup_prefix d q o2 l2)].
Qed.

Lemma ok_side d p n : side_ok d p n -> ok_node n.
Proof. intros (Hn & _). by exists ty, d, p. Qed.

(** What the loop over the branches [l1], [l2] does: it adds the entries [I], for the
    branches only one side has, and pushes pairs for the others. *)
Definition branches_post (l1 l2 : list branch_slot) (st : list (SHAMapTreeNode * SHAMapTreeNode)) (diff : Delta) (n : Z)
    (c : mres (bool * list (SHAMapTreeNode * SHAMapTreeNode) * Delta * Z)) : Prop :=
  exists I pushed st', c = Val (let '(b, diff, n) := emit I diff n in (b, st', diff, n)) /\
    ((emit I diff n).1.1 = true -> st' = pushed ++ st) /\ Forall pair_ok pushed /\
    (list_sum (node_count <$> pushed.*1) <= list_sum (node_count <$> children l1))%nat /\
    forall Es, Forall2 pair_delta pushed Es ->
      delta_list (I ++ concat Es) (lookup_items (List.flat_map slot_items l1)) (lookup_items (List.flat_map slot_items l2)).

Lemma sum_children_cons o l : (list_sum (node_count <$> children l) <= list_sum (node_count <$> children (o :: l)))%nat.
Proof.
  unfold children. cbn [omap list_omap]. destruct (o ≫= snd); [|done].
  rewrite fmap_cons. change (list_sum (?x :: ?l)) with (x + list_sum l)%nat. lia.
Qed.

(** A branch that adds the entries [E0] and no pair. *)
Lemma branches_step d q o1 l1 o2 l2 st diff n E0 : 0 <= d -> slots_ok d q (o1 :: l1) -> slots_ok d q (o2 :: l2) ->
  (forall diff n, branches_post l1 l2 st diff n (compare_branches l1 l2 st diff n)) ->
  delta_list E0 (lookup_items (slot_items o1)) (lookup_items (slot_items o2)) ->
  branches_post (o1 :: l1) (o2 :: l2) st diff n
    (let '(go, diff, n) := emit E0 diff n in if go : bool then compare_branches l1 l2 st diff n else Val (false, st, diff, n)).
Proof.
  intros Hd H1 H2 IH HE0. destruct (emit E0 diff n) as [[go diff'] n'] eqn:Ee.
  destruct (IH diff' n') as (I & pushed & st' & Ec & Hst & Hp & Hc & HE). pose proof (sum_children_cons o1 l1).
  exists (E0 ++ I), pushed, (if go then st' else st). rewrite emit_app, Ee.
  destruct go; (split; [done|]; split; [done|]; split; [done|]; split; [lia|]; intros Es HEs; rewrite <- app_assoc; eapply delta_cons; eauto).
Qed.

(** A branch both sides have, compared later. *)
Lemma branches_push d q n1 l1 n2 l2 st diff n c : 0 <= d ->
  slots_ok d q (Some (merkle n1, Some n1) :: l1) -> slots_ok d q (Some (merkle n2, Some n2) :: l2) ->
  branches_post l1 l2 ((n1, n2) :: st) diff n c ->
  branches_post (Some (merkle n1, Some n1) :: l1) (Some (merkle n2, Some n2) :: l2) st diff n c.
Proof.
  intros Hd H1 H2 (I & pushed & st' & Ec & Hst & Hp & Hc & HE). pose proof H1 as [[S1 _] _]%slots_ok_cons. pose proof H2 as [[S2 _] _]%slots_ok_cons.
  exists I, (pushed ++ [(n1, n2)]), st'. split; [done|]. split; [intros Hb; rewrite <- app_assoc; by apply Hst|]. split; [|split].
  - apply Forall_app. split; [done|]. apply Forall_singleton. exists (d + 1), q. split; [lia|done].
  - rewrite !fmap_app, list_sum_app. change (list_sum (node_count <$> [(n1, n2)].*1)) with (node_count n1 + 0)%nat.
    change (list_sum (node_count <$> children (Some (merkle n1, Some n1) :: l1))) with (node_count n1 + list_sum (node_count <$> children l1))%nat. lia.
  - intros Es HEs. apply Forall2_app_inv_l in HEs as (Es1 & Es2 & HE1 & HE2 & ->). apply Forall2_cons_inv_l in HE2 as (E0 & Es3 & HE0 & HE3 & ->).
    inversion HE3; subst. rewrite concat_app. cbn [concat]. rewrite app_nil_r.
    eapply delta_list_perm; [|eapply (delta_cons d q _ l1 _ l2 E0); [exact H1|exact H2|done|exact HE0|by apply HE]].
    rewrite (Permutation_app_comm E0), <- app_assoc. done.
Qed.

Lemma side_merkle d q n : 0 <= d -> side_ok (d + 1) q n -> 0 < merkle n.
Proof.
  intros Hd (Hn & _). assert (items n <> []) as Hi by (eapply node_ok_items; [exact Hn|lia]).
  by destruct (merkle_range ty (d + 1) q n Hn ltac:(lia) Hi).
Qed.

Lemma side_binding d p n1 n2 : 0 <= d -> side_ok d p n1 -> side_ok d p n2 -> merkle n1 = merkle n2 -> items n1 = items n2.
Proof.
  intros Hd (N1 & _ & _ & M1 & K1) (N2 & _ & _ & M2 & K2). apply (merkle_binding ty d p); [done..| |].
  - intros x y Hx Hy. apply HM; set_solver.
  - eapply keys_bound_mono; [|exact HK]. set_solver.
Qed.

Lemma compare_branches_spec d : 0 <= d -> forall l1 l2 q st diff n, length l1 = length l2 -> slots_ok d q l1 -> slots_ok d q l2 ->
  branches_post l1 l2 st diff n (compare_branches l1 l2 st diff n).
Proof.
  intros Hd. induction l1 as [|o1 l1 IH]; intros [|o2 l2] q st diff n Hl H1 H2; try done.
  { exists [], [], st. split; [done|]. split; [done|]. split; [constructor|]. split; [done|]. intros Es HEs. inversion HEs; subst. by apply delta_list_nil. }
  pose proof H1 as [S1 T1]%slots_ok_cons. pose proof H2 as [S2 T2]%slots_ok_cons. injection Hl as Hl.
  assert (forall st diff n, branches_post l1 l2 st diff n (compare_branches l1 l2 st diff n)) as IH' by (intros; by eapply IH).
  cbn [compare_branches].
  destruct o1 as [[h1 [n1|]]|]; [|done|]; (destruct o2 as [[h2 [n2|]]|]; [|done|]); cbn [slot_hash] in *.
  - destruct S1 as [S1 ->], S2 as [S2 ->]. destruct (Z.eqb_spec (merkle n1) (merkle n2)) as [Em|Em].
    + apply (branches_step d q _ _ _ _ _ _ _ []); [done..|]. cbn [slot_items]. rewrite (side_binding (d + 1) q n1 n2) by (lia || done). by apply delta_list_nil.
    + by eapply branches_push.
  - destruct S1 as [S1 ->]. pose proof (side_merkle _ _ _ Hd S1). destruct (Z.eqb_spec (merkle n1) 0); [lia|].
    destruct (walkBranch_spec n1 None true diff n (ok_side _ _ _ S1) (side_nodup _ _ _ S1 ltac:(lia))) as (E0 & -> & HE0).
    by apply (branches_step d q _ _ _ _ _ _ _ E0).
  - destruct S2 as [S2 ->]. pose proof (side_merkle _ _ _ Hd S2). destruct (Z.eqb_spec 0 (merkle n2)); [lia|].
    destruct (walkBranch_spec n2 None false diff n (ok_side _ _ _ S2) (side_nodup _ _ _ S2 ltac:(lia))) as (E0 & -> & HE0).
    by apply (branches_step d q _ _ _ _ _ _ _ E0).
  - apply (branches_step d q _ _ _ _ _ _ _ []); [done..|]. by apply delta_list_nil.
Qed.

(** The entries for two leaves. *)
Definition leaf_entries (i1 i2 : SHAMapItem) : list (Z * DeltaItem) :=
  if item_key i1 =? item_key i2 then
    if bool_decide (item_slice i1 = item_slice i2) then [] else [(item_key i1, (Some i1, Some i2))]
  else [(item_key i1, (Some i1, None)); (item_key i2, (None, Some i2))].

Lemma lookup_items_one i k : lookup_items [i] k = if bool_decide (item_key i = k) then Some i else None.
Proof. by rewrite lookup_items_cons, (lookup_items_None []) by apply not_elem_of_nil. Qed.

Lemma leaves_delta i1 i2 : delta_list (leaf_entries i1 i2) (lookup_items [i1]) (lookup_items [i2]).
Proof.
  unfold leaf_entries. destruct (Z.eqb_spec (item_key i1) (item_key i2)) as [Ek|Ek]; [case_bool_decide as Es|].
  - apply delta_list_nil. intros k. by replace i2 with i1 by (destruct i1, i2; cbn in *; congruence).
  - apply delta_list_one; rewrite ?lookup_items_one, ?bool_decide_eq_true_2 by done; [congruence|done|].
    intros k' Hk'. by rewrite !lookup_items_one, !bool_decide_eq_false_2 by congruence.
  - eapply delta_list_ext; [| |apply (delta_list_app [(item_key i1, (Some i1, None))] [(item_key i2, (None, Some i2))]
      (lookup_items [i1]) (fun _ => None) (fun _ => None) (lookup_items [i2]))].
    1, 2: intros k; cbn beta; by rewrite ?(left_id_L None (∪)), ?(right_id_L None (∪)).
    1, 2: apply delta_list_one; rewrite ?lookup_items_one, ?bool_decide_eq_true_2 by done; [done|done|];
      intros k' Hk'; by rewrite lookup_items_one, bool_decide_eq_false_2 by congruence.
    intros k. rewrite !lookup_items_one. do 2 case_bool_decide; auto. congruence.
Qed.

(** The loop over the stack of pairs. *)
Lemma compare_loop_spec fuel : forall st diff n, Forall pair_ok st -> (list_sum (node_count <$> st.*1) < fuel)%nat ->
  exists Es, Forall2 pair_delta st Es /\ compare_loop fuel st diff n = Val (emit (concat Es) diff n).1.
Proof.
  induction fuel as [|fuel IH]; intros st diff n Hst Hf; [lia|]. destruct st as [|[n1 n2] st]; cbn [compare_loop].
  { exists []. split; [constructor|done]. }
  apply Forall_cons in Hst as [(d & p & Hd & S1 & S2) Hst]. cbn [fst snd] in S1, S2. rewrite !fmap_cons in Hf. change (list_sum (?x :: ?l)) with (x + list_sum l)%nat in Hf.
  cbn [fst] in Hf.
  (* entries of this pair, then the rest of the stack *)
  assert (forall E0, pair_delta (n1, n2) E0 -> (list_sum (node_count <$> st.*1) < fuel)%nat ->
    exists Es, Forall2 pair_delta ((n1, n2) :: st) Es /\
      (let '(go, diff, n) := emit E0 diff n in if go : bool then compare_loop fuel st diff n else Val (false, diff)) = Val (emit (concat Es) diff n).1) as Hrest.
  { intros E0 HE0 Hf'. destruct (emit E0 diff n) as [[go diff'] n'] eqn:Ee. destruct (IH st diff' n' Hst Hf') as (Es & HEs & E).
    exists (E0 :: Es). split; [by constructor|]. cbn [concat]. rewrite emit_app, Ee. by destruct go. }
  destruct n1 as [c1 h1 bs1|c1 h1 t1 i1], n2 as [c2 h2 bs2|c2 h2 t2 i2].
  - destruct (compare_branches_spec d Hd bs1 bs2 (16 * p) st diff n) as (I & pushed & st' & -> & Hst' & Hp & Hc & HE).
    { destruct S1 as [(_ & (L1 & _) & _)%inner_ok_iff _], S2 as [(_ & (L2 & _) & _)%inner_ok_iff _]. congruence. }
    1, 2: by eapply side_slots.
    rewrite node_count_inner in Hf. cbn [mbind res_bind]. destruct (emit I diff n) as [[go diff'] n'] eqn:Ee. 
    destruct (IH (pushed ++ st) diff' n') as (Es & HEs & E); [by apply Forall_app|rewrite !fmap_app, list_sum_app; lia|].
    apply Forall2_app_inv_l in HEs as (Es1 & Es2 & HE1 & HE2 & ->).
    exists ((I ++ concat Es1) :: Es2). split; [constructor; [|done]; by apply HE|].
    cbn [concat]. rewrite <- app_assoc, emit_app, Ee. cbn [fst] in Hst'. destruct go; [|done]. rewrite (Hst' eq_refl), E, concat_app. done.
  - destruct (walkBranch_spec _ (Some i2) true diff n (ok_side _ _ _ S1) (side_nodup _ _ _ S1 Hd)) as (E0 & -> & HE0).
    apply (Hrest E0 HE0). rewrite node_count_inner in Hf. lia.
  - destruct (walkBranch_spec _ (Some i1) false diff n (ok_side _ _ _ S2) (side_nodup _ _ _ S2 Hd)) as (E0 & -> & HE0).
    apply (Hrest E0 HE0). cbn [node_count] in Hf. lia.
  - cbn [node_count] in Hf. destruct (Hrest _ (leaves_delta i1 i2) ltac:(lia)) as (Es & HEs & E). exists Es. split; [done|]. rewrite <- E. unfold leaf_entries.
    destruct (item_key i1 =? item_key i2); [case_bool_decide|]; cbn [negb emit]; destruct (n - 1 <=? 0); try done. by destruct (n - 1 - 1 <=? 0).
Qed.
End pairs.
End branches.

(** ** The table *)

(** The keys at which two finite maps differ, with what each has there. *)
Definition difference_of (x y : option SHAMapItem) : option DeltaItem := if decide (x = y) then None else Some (x, y).
Definition differences (c1 c2 : gmap Z SHAMapItem) : Delta := merge difference_of c1 c2.

Lemma differences_lookup c1 c2 k x : differences c1 c2 !! k = Some x <-> x = (c1 !! k, c2 !! k) /\ c1 !! k <> c2 !! k.
Proof.
  unfold differences. rewrite lookup_merge. unfold difference_of. destruct (c1 !! k) as [i|], (c2 !! k) as [j|]; cbn; repeat case_decide; naive_solver.
Qed.

Lemma delta_list_map E c1 c2 : delta_list E (fun k => c1 !! k) (fun k => c2 !! k) -> list_to_map E = differences c1 c2.
Proof.
  intros [Hn He]. apply map_eq. intros k. apply option_eq. intros x. rewrite differences_lookup, <- He. symmetry. by apply elem_of_list_to_map.
Qed.

(** Entries with new keys are all inserted, up to the count. *)
Lemma emit_fresh E : NoDup E.*1 -> forall d n, 0 < n -> (forall k, k ∈ E.*1 -> d !! k = None) ->
  (emit E d n).1 = if Z.of_nat (length E) <? n then (true, list_to_map E ∪ d) else (false, list_to_map (take (Z.to_nat n) E) ∪ d).
Proof.
  induction E as [|[k v] E IH]; intros Hnd d n Hn Hd.
  { cbn [emit fst length]. rewrite list_to_map_nil, (left_id_L ∅ (∪)). by destruct (Z.ltb_spec (Z.of_nat 0) n); [|lia]. }
  cbn [fmap list_fmap fst] in Hnd. apply NoDup_cons in Hnd as [Hk Hnd]. cbn [emit]. unfold delta_insert.
  rewrite (Hd k) by (cbn; set_solver).
  assert (forall E', k ∉ E'.*1 -> list_to_map E' ∪ <[k:=v]> d = list_to_map ((k, v) :: E') ∪ d) as Hu.
  { intros E' Hk'. rewrite list_to_map_cons, <- insert_union_l, <- insert_union_r; [done|]. by apply not_elem_of_list_to_map_1. }
  destruct (Z.leb_spec (n - 1) 0).
  - replace n with 1 by lia. cbn [length]. destruct (Z.ltb_spec (Z.of_nat (S (length E))) 1); [lia|]. cbn [fst].
    change (take (Z.to_nat 1) ((k, v) :: E)) with [(k, v)]. rewrite <- (Hu []) by apply not_elem_of_nil. by rewrite list_to_map_nil, (left_id_L ∅ (∪)).
  - rewrite IH; [|done|lia|].
    + replace (Z.to_nat n) with (S (Z.to_nat (n - 1))) by lia. cbn [length firstn take].
      replace (Z.of_nat (S (length E)) <? n) with (Z.of_nat (length E) <? n - 1) by (apply eq_true_iff_eq; rewrite !Z.ltb_lt; lia).
      destruct (Z.of_nat (length E) <? n - 1); [by rewrite Hu|]. rewrite Hu; [done|].
      intros (e & -> & He)%list_elem_of_fmap. apply Hk, list_elem_of_fmap_2. by eapply (subseteq_take (Z.to_nat (n - 1)) E).
    + intros k' Hk'. rewrite lookup_insert_ne by (intros <-; done). apply Hd. cbn. set_solver.
Qed.

Section claim.
Context `{Sha512Half}.

Lemma compare_spec ty m1 m2 maxCount : map_inv ty m1 -> map_inv ty m2 -> 0 < maxCount ->
  collision_free (messages (root_ m1) ++ messages (root_ m2)) -> keys_bound ty (items (root_ m1) ++ items (root_ m2)) ->
  exists b delta, compare m1 m2 maxCount = Val (b, delta) /\
    let D := differences (contents m1) (contents m2) in
    if b then delta = D /\ Z.of_nat (size D) < maxCount else delta ⊆ D /\ Z.of_nat (size delta) = maxCount.
Proof.
  intros I1 I2 Hmax Hcf Hkb. unfold compare.
  destruct (getHash_spec ty m1 I1) as (m1' & E1 & I1' & C1 & _). destruct (getHash_spec ty m2 I2) as (m2' & E2 & I2' & C2 & _).
  destruct (getHash_clean ty _ _ _ I1 E1) as [Z1 M1]. destruct (getHash_clean ty _ _ _ I2 E2) as [Z2 M2].
  rewrite E1. cbn [mbind res_bind]. rewrite E2. cbn [mbind res_bind].
  assert (items (root_ m1') = items (root_ m1)) as It1 by (apply (contents_items ty); [apply I1'|apply I1|done]).
  assert (items (root_ m2') = items (root_ m2)) as It2 by (apply (contents_items ty); [apply I2'|apply I2|done]).
  destruct (Z.eqb_spec (merkle (root_ m1)) (merkle (root_ m2))) as [Em|Em].
  { exists true, ∅. split; [done|]. assert (differences (contents m1) (contents m2) = ∅) as ->.
    { rewrite !map_contents. rewrite (merkle_binding ty 0 0 (root_ m1)) with (n2 := root_ m2); [|apply I1|apply I2|lia|done|done|done].
      apply map_eq. intros k. rewrite lookup_empty. apply eq_None_not_Some. intros [x [_ Hx]%differences_lookup]. done. }
    split; [done|]. rewrite map_size_empty. lia. }
  destruct (compare_loop_spec ty _ _ Hcf Hkb (S (node_count (root_ m1'))) [(root_ m1', root_ m2')] ∅ maxCount) as (Es & HEs & ->).
  { apply Forall_singleton. exists 0, 0. split; [lia|]. destruct I1' as ((_ & _ & N1) & K1 & _), I2' as ((_ & _ & N2) & K2 & _).
    unfold side_ok. cbn [fst snd]. rewrite M1, M2, It1, It2. repeat split; (done || set_solver). }
  { change (list_sum (node_count <$> [(root_ m1', root_ m2')].*1)) with (node_count (root_ m1') + 0)%nat. lia. }
  apply Forall2_cons_inv_l in HEs as (E & Es' & HE & HEs & ->). inversion HEs; subst. cbn [concat]. rewrite app_nil_r.
  assert (list_to_map E = differences (contents m1) (contents m2)) as HD.
  { apply delta_list_map. rewrite <- C1, <- C2, !map_contents. exact HE. }
  destruct HE as [Hnd _]. rewrite (emit_fresh E Hnd) by (done || intros; apply lookup_empty).
  destruct (Z.ltb_spec (Z.of_nat (length E)) maxCount) as [Hlt|Hge]; eexists _, _; (split; [done|]); cbn beta iota zeta; rewrite (right_id_L ∅ (∪)).
  - split; [done|]. rewrite <- HD, map_size_list_to_map by done. done.
  - assert (NoDup (take (Z.to_nat maxCount) E).*1) as Ht by (rewrite fmap_take; eapply sublist_NoDup; [exact Hnd|apply sublist_take]).
    split; [|rewrite map_size_list_to_map, length_take by done; lia]. rewrite <- HD. apply map_subseteq_spec. intros k x.
    rewrite <- !elem_of_list_to_map by done. apply subseteq_take.
Qed.

End claim.

(** ** Samples *)

Module DeltaSamples.
Import ShaSamples.

(** Against [build1] a changed item and a new one. *)
Definition build3 : list map_op := [OpAdd (item k3 5); OpAdd (item k2 4); OpAdd (item k1 7)].

Lemma build3_ok : ops_ok tnACCOUNT_STATE build3.
Proof. split; [repeat constructor; vm_compute; try split; discriminate || reflexivity|apply no_collision_free; vm_compute; reflexivity]. Qed.

Definition built (ops : list map_op) : list bool * SHAMap := from_res ([], new_map) (run_ops tnACCOUNT_STATE new_map ops).


(** Two differences: a limit of two is already reported as too many, with the whole table. *)
Lemma compare_limit :
  let table := {[k1 := (Some (item k1 1), Some (item k1 7)); k3 := (None, Some (item k3 5))]} in
  compare (built build1).2 (built build3).2 3 = Val (true, table) /\ compare (built build1).2 (built build3).2 2 = Val (false, table).
Proof. split; vm_compute; reflexivity. Qed.
End DeltaSamples.
