(* ===== verification/ShaMapProof.v ===== *)
(** * ShaMapProof: Merkle proofs ([getProofPath], [verifyProofPath] of [shamap/impl/SHAMapSync.cpp])

    [getProofPath] serializes the nodes from the leaf of a key up to the root;
    [verifyProofPath] checks such a list of blobs, which may come from the network,
    against the hash of a root.

    The theorems: the path of a key a map holds is accepted with the hash of the map; an
    accepted path ends in a leaf of the map whose key starts with the digits of the
    requested key the path went through.  The rest of the key is not looked at. *)

From stdpp Require Import base numbers list option gmap sorting.
From Stdlib Require Import ZArith Lia.
From S2P Require Import Prelude ShaMapNode ShaMap ShaMapOps ShaMapHash ShaMapSpec.

Local Open Scope Z_scope.

Section code.
Context `{Sha512Half}.

(** ** The code *)

(** The blobs from the leaf up, or nothing if the walk does not end at the key. *)
Definition getProofPath (m : SHAMap) (key : Z) : mres (option (list (list Z))) :=
  '(_, stack) ← walkTowardsKey m key;
  match stack with
  | (SHAMapLeafNode _ _ _ i, _) :: _ =>
    if negb (item_key i =? key) then Val None else Val (Some (serializeForWire <$> stack.*1))
  | _ => Val None
  end.

(** The loop over the blobs from the root down. *)
Fixpoint verify_loop (key size : Z) (rpath : list (list Z)) (depth hash : Z) : mres bool :=
  match rpath with
  | [] => Val false
  | blob :: rpath =>
    node ← makeFromWire blob;
    match node with
    | None => Val false
    | Some node =>
      let node := updateHash node in
      if negb (getHash_node node =? hash) then Val false else
      match node with
      | SHAMapInnerNode _ _ bs =>
        branch ← selectBranch (createID depth key) key;
        verify_loop key size rpath (depth + 1) (getChildHash bs branch)
      | SHAMapLeafNode _ _ _ _ => Val (depth + 1 =? size)
      end
    end
  end.

(** Exceptions of the parsers count as a refusal. *)
Definition verifyProofPath (rootHash key : Z) (path : list (list Z)) : mres bool :=
  if bool_decide (path = []) || (65 <? Z.of_nat (length path)) then Val false else
  match verify_loop key (Z.of_nat (length path)) (rev path) 0 rootHash with
  | Err MapLogicError => Err MapLogicError
  | Err _ => Val false
  | r => r
  end.

(** ** Paths of keys the map holds are accepted *)

(** What the wire format asks of an item. *)
Definition sendable (ty : SHAMapNodeType) (i : SHAMapItem) : Prop :=
  (ty = tnACCOUNT_STATE -> item_key i <> 0) /\ (ty = tnTRANSACTION_NM -> item_key i = updateHash_leaf ty i).

Lemma clean_slots c h bs b h' n : cached_ok (SHAMapInnerNode c h bs) -> c = 0 -> bs !! b = Some (Some (h', Some n)) ->
  cached_ok n /\ cowid n = 0 /\ h' = merkle n.
Proof.
  intros Hc -> Hb. inversion Hc as [|? ? ? Hch _ Hcl]; subst. destruct (Hcl eq_refl) as [_ Hs]. destruct (Hs _ _ _ Hb) as [E ->].
  split; [by eapply Hch|]. split; [done|]. apply clean_merkle; [by eapply Hch|done].
Qed.

Lemma clean_hashes ty d p c h bs : node_ok ty d p (SHAMapInnerNode c h bs) -> cached_ok (SHAMapInnerNode c h bs) -> c = 0 ->
  slot_hash <$> bs = slot_merkle <$> bs.
Proof.
  intros (_ & (_ & Hres & _) & _)%inner_ok_iff Hc Hz. apply list_fmap_ext. intros b [[h' [n|]]|] Hb; [|done..]. cbn.
  by destruct (clean_slots _ _ _ _ _ _ Hc Hz Hb) as (_ & _ & ->).
Qed.

Lemma isEmpty_forget bs : isEmpty (forget_child <$> bs) = isEmpty bs.
Proof.
  unfold isEmpty, getBranchCount. f_equal. f_equal. induction bs as [|[s|] bs IH]; [done| |].
  - rewrite fmap_cons, !filter_cons_True by (cbn; eauto). cbn [length]. by rewrite IH.
  - rewrite fmap_cons, !filter_cons_False by (by intros [? [=]]). done.
Qed.

Lemma hashes_forget bs : iterChildren (forget_child <$> bs) = iterChildren bs.
Proof. unfold iterChildren. rewrite <- list_fmap_compose. apply list_fmap_ext. by intros b [[h o]|] _. Qed.

(** A clean node of a tree is parsed back, with its hash. *)
Lemma clean_wire ty d p n : node_ok ty d p n -> 0 <= d -> cached_ok n -> cowid n = 0 -> ty <> tnINNER -> Forall (sendable ty) (items n) ->
  makeFromWire (serializeForWire n) = Val (Some (on_wire n)) /\ getHash_node (updateHash (on_wire n)) = merkle n.
Proof.
  intros Hn Hd Hc Hz Hty Hs. split.
  - apply wire_roundtrip_spec. destruct n as [c h bs|c h t i]; cbn [wire_ok].
    + pose proof Hn as (_ & Hbs & _)%inner_ok_iff. split; [apply Hbs|]. apply Forall_lookup. intros b [[h' [n|]]|] Hb; [|by apply (proj1 (proj2 Hbs)) in Hb|done].
      cbn in Hz. destruct (clean_slots _ _ _ _ _ _ Hc Hz Hb) as (_ & _ & ->). cbn.
      assert (node_ok ty (d + 1) (16 * p + Z.of_nat b) n) as Hn' by (by eapply Hbs). assert (items n <> []) by (eapply node_ok_items; [exact Hn'|lia]).
      by apply (merkle_range ty _ _ n Hn'); [lia|].
    + inversion Hn; subst t. apply Forall_singleton in Hs as [S1 S2]. split; [done|]. destruct ty; auto.
  - destruct n as [c h bs|c h t i]; [|done]. cbn [on_wire updateHash getHash_node]. unfold updateHash_inner.
    rewrite isEmpty_forget, hashes_forget, merkle_inner. unfold iterChildren. by rewrite (clean_hashes ty d p c h bs Hn Hc Hz).
Qed.

Lemma verify_path ty key size d n dt top rest : path_to key d n dt top rest -> isLeaf top = true -> forall p, node_ok ty d p n -> 0 <= d ->
  cached_ok n -> cowid n = 0 -> ty <> tnINNER -> Forall (sendable ty) (items n) -> size = d + Z.of_nat (length rest) + 1 ->
  verify_loop key size (rev (serializeForWire <$> top :: rest.*1)) d (merkle n) = Val true.
Proof.
  intros Hp Hl. induction Hp as [d c h t i|d c h bs Hb|d c h bs h' n dt top rest Hb Hp IH]; intros p Hn Hd Hc Hz Hty Hs Hsz; [|done|].
  - destruct (clean_wire _ _ _ _ Hn Hd Hc Hz Hty Hs) as [E1 E2]. cbn [fmap list_fmap rev app verify_loop]. rewrite E1. cbn [mbind res_bind].
    rewrite E2, Z.eqb_refl. cbn [negb updateHash on_wire]. cbn in Hsz. by rewrite Hsz, Z.add_0_r, Z.eqb_refl.
  - destruct (clean_wire _ _ _ _ Hn Hd Hc Hz Hty Hs) as [E1 E2].
    rewrite fmap_app, app_comm_cons, fmap_app, rev_app_distr. cbn [fmap list_fmap rev app fst verify_loop]. rewrite E1. cbn [mbind res_bind].
    rewrite E2, Z.eqb_refl. cbn [negb updateHash on_wire]. assert (d < 64) by (by inversion Hn).
    rewrite selectBranch_val by (cbn; lia). cbn [mbind res_bind depth_ createID].
    unfold getChildHash. rewrite list_lookup_fmap, Hb. cbn in Hz.
    destruct (clean_slots _ _ _ _ _ _ Hc Hz Hb) as (Hc' & Hz' & ->). cbn [fmap option_fmap option_map forget_child slot_hash fst].
    destruct (digit_slot ty d p c h bs key Hn) as [Hb'|(h1 & n1 & Hb' & Hn')]; [congruence|]. assert (n1 = n) as -> by congruence.
    apply (IH Hl _ Hn'); [lia|done..| |].
    + rewrite Forall_forall in Hs |- *. intros i Hi. apply Hs, elem_of_items_inner. eauto.
    + rewrite Hsz, length_app. cbn. lia.
Qed.
End code.

(** ** What a blob can be parsed to *)

Section parsed.
Context `{Sha512Half}.

Definition parsed_ok (n : SHAMapTreeNode) : Prop :=
  match n with
  | SHAMapInnerNode _ _ bs => length bs = 16%nat /\ Forall (fun o => key_ok (slot_hash o)) bs
  | SHAMapLeafNode _ _ t i => t <> tnINNER /\ key_ok (item_key i) /\ (t = tnTRANSACTION_NM -> item_key i = updateHash_leaf t i)
  end.

Lemma of_bytes_key bs : bytes_ok bs -> length bs = 32%nat -> key_ok (of_bytes bs).
Proof. intros Hb Hl. pose proof (of_bytes_range bs Hb) as Hr. unfold vsize in Hr. rewrite Hl in Hr. exact Hr. Qed.

Lemma getBitString256_ok data h rest : bytes_ok data -> getBitString256 data = Val (h, rest) -> key_ok h /\ bytes_ok rest.
Proof.
  intros Hb E. unfold getBitString256 in E. destruct (Z.ltb_spec (vsize data) 32) as [|Hl]; [done|]. injection E as <- <-.
  split; [|by apply Forall_drop]. apply of_bytes_key; [by apply Forall_take|]. rewrite length_take. unfold vsize in Hl. lia.
Qed.

Lemma read_hashes_ok n : forall data bs, bytes_ok data -> read_hashes n data = Val bs -> length bs = n /\ Forall (fun o => key_ok (slot_hash o)) bs.
Proof.
  induction n as [|n IH]; intros data bs Hb E; cbn [read_hashes] in E; [by injection E as <-|]. res_inv.
  destruct a as [h rest]. destruct (getBitString256_ok _ _ _ Hb Hb0) as [Hh Hr]. res_inv. destruct (IH _ _ Hr Hb1) as [Hl Hf]. cbn [length]. split; [by rewrite Hl|].
  constructor; [|done]. by destruct (_ =? 0).
Qed.

Lemma read_chunks_ok fuel : forall data acc bs, bytes_ok data -> Forall (fun o => key_ok (slot_hash o)) acc -> read_chunks fuel data acc = Val bs ->
  length bs = length acc /\ Forall (fun o => key_ok (slot_hash o)) bs.
Proof.
  induction fuel as [|fuel IH]; intros data acc bs Hb Ha E; cbn [read_chunks] in E; [by destruct data; simplify_eq|].
  destruct data as [|b0 data0] eqn:Ed; [by simplify_eq|]. rewrite <- Ed in *. clear Ed. res_inv. destruct a as [h rest].
  destruct (getBitString256_ok _ _ _ Hb Hb0) as [Hh Hr]. res_inv. destruct a as [pos rest']. unfold get8 in Hb1.
  destruct rest as [|b rest]; [done|]. injection Hb1 as -> ->. apply Forall_cons in Hr as [_ Hr].
  destruct (branchFactor <=? pos); [done|]. apply IH in Hk0 as [Hl Hf]; [|done|].
  - split; [|done]. rewrite Hl. destruct (_ && _); [done|]. apply length_insert.
  - destruct (_ && _); [done|]. by apply Forall_insert.
Qed.

Lemma split_tag_ok data s tag : bytes_ok data -> split_tag data = Val (s, tag) -> key_ok tag.
Proof.
  intros Hb E. unfold split_tag in E. destruct (Z.ltb_spec (vsize data) 32) as [|Hl]; [done|]. injection E as <- <-.
  apply of_bytes_key; [by apply Forall_drop|]. rewrite length_drop. unfold vsize in Hl. lia.
Qed.

Lemma makeFromWire_parsed blob n : bytes_ok blob -> makeFromWire blob = Val (Some n) -> parsed_ok n.
Proof.
  intros Hb E. destruct blob as [|t data _] using rev_ind; [done|]. apply Forall_app in Hb as [Hb _]. rewrite makeFromWire_snoc in E. unfold some_node in E.
  repeat (destruct (t =? _) in E; [unfold makeTransaction, makeAccountState, makeFullInner, makeCompressedInner, makeTransactionWithMeta, makeTypedLeaf in E|]); [..|done].
  - res_inv. split; [done|]. split; [|done]. split; [apply Z.lt_le_incl|]; apply sha512Half_range.
  - res_inv. destruct a as [s tag]. apply split_tag_ok in Hb1; [|done]. destruct (tag =? 0); [done|]. injection Hk as <-. done.
  - destruct (negb _); [done|]. res_inv. apply read_hashes_ok in Hb1; [|done]. done.
  - destruct (_ || _); [done|]. res_inv. apply read_chunks_ok in Hb1; [|done|by apply Forall_replicate]. done.
  - res_inv. destruct a as [s tag]. apply split_tag_ok in Hb1; [|done]. injection Hk as <-. done.
Qed.
End parsed.

(** ** Accepted paths end in a leaf of the map *)

Section sound.
Context `{Sha512Half}.

(** The message whose hash a blob claims. *)
Definition blob_messages (blob : list Z) : list (list Z) :=
  match makeFromWire blob with
  | Val (Some (SHAMapInnerNode _ _ bs)) => [inner_message (iterChildren bs)]
  | Val (Some (SHAMapLeafNode _ _ t i)) => [leaf_message t i]
  | _ => []
  end.

(** No leaf has the hash of an empty branch. *)
Lemma verify_zero key size rpath : forall depth, verify_loop key size rpath depth 0 <> Val true.
Proof.
  induction rpath as [|blob rpath IH]; intros depth E; [done|]. cbn [verify_loop] in E. res_inv. destruct a as [[c h bs|c h t i]|]; [| |done];
    cbn [updateHash getHash_node] in Hk.
  - destruct (Z.eqb_spec (updateHash_inner bs) 0) as [E0|]; [|done]. cbn [negb] in Hk. res_inv. unfold updateHash_inner in E0.
    destruct (isEmpty bs) eqn:Eb; [|pose proof (sha512Half_range (inner_message (iterChildren bs))); lia].
    apply isEmpty_None in Eb. unfold getChildHash in Hk0. destruct (bs !! Z.to_nat a) as [o|] eqn:Ea; [|by apply IH in Hk0].
    rewrite Forall_lookup in Eb. rewrite (Eb _ _ Ea) in Hk0. by apply IH in Hk0.
  - unfold updateHash_leaf in Hk. pose proof (sha512Half_range (leaf_message t i)). destruct (Z.eqb_spec (sha512Half (leaf_message t i)) 0); [lia|done].
Qed.

Lemma leaf_message_type t1 t2 i1 i2 : t1 <> tnINNER -> t2 <> tnINNER -> leaf_message t1 i1 = leaf_message t2 i2 -> t1 = t2.
Proof. by destruct t1, t2. Qed.

(** A node of the tree against a blob with its hash. *)
Lemma blob_binding ty d p n blob q : node_ok ty d p n -> 0 <= d -> ty <> tnINNER -> bytes_ok blob -> makeFromWire blob = Val (Some q) ->
  collision_free (messages n ++ blob_messages blob) -> keys_bound ty (items n) -> getHash_node (updateHash q) = merkle n -> merkle n <> 0 ->
  match q with
  | SHAMapInnerNode _ _ bs => exists c h bs', n = SHAMapInnerNode c h bs' /\ slot_hash <$> bs = slot_merkle <$> bs'
  | SHAMapLeafNode _ _ t i => exists c h, n = SHAMapLeafNode c h ty i /\ t = ty
  end.
Proof.
  intros Hn Hd Hty Hb Eq Hcf Hkb Hm Hnz. pose proof (makeFromWire_parsed _ _ Hb Eq) as Hq. unfold blob_messages in Hcf. rewrite Eq in Hcf.
  destruct q as [c1 h1 bs1|c1 h1 t1 i1], n as [c h bs|c h t i]; cbn [updateHash getHash_node parsed_ok] in *.
  - exists c, h, bs. split; [done|]. pose proof Hn as (_ & Hbs & _)%inner_ok_iff. unfold updateHash_inner in Hm. rewrite merkle_inner in Hm, Hnz.
    destruct (isEmpty bs) eqn:E; [done|]. destruct (isEmpty bs1); [by rewrite <- Hm in Hnz|].
    apply Hcf in Hm; [|set_solver|rewrite messages_inner, E; set_solver]. apply app_inv_head, concat_bytes_inj in Hm; [done| | |].
    + unfold iterChildren. rewrite !length_fmap, (proj1 Hq). symmetry. apply Hbs.
    + unfold iterChildren. apply Forall_fmap, Hq.
    + apply Forall_fmap, Forall_lookup. intros b o Hbo. apply (slot_merkle_range ty d p bs b o Hbs Hd Hbo).
  - exfalso. unfold updateHash_inner in Hm. cbn [merkle] in Hm, Hnz. destruct (isEmpty bs1); [by rewrite <- Hm in Hnz|].
    apply Hcf in Hm; [by destruct t|set_solver|cbn; set_solver].
  - exfalso. rewrite merkle_inner in Hm, Hnz. destruct (isEmpty bs) eqn:E; [done|]. apply Hcf in Hm; [by destruct t1|set_solver|rewrite messages_inner, E; set_solver].
  - inversion Hn as [? ? ? ? Hk _|]; subst t. cbn [merkle messages] in Hm, Hcf. apply Hcf in Hm; [|set_solver..].
    destruct Hq as (Ht & Hk1 & Hnm). apply leaf_message_type in Hm as E; [|done..]. subst t1.
    assert (i1 = i) as ->; [|by eauto]. apply (leaf_message_inj ty); [done|done| |done]. intros E. apply Hnm in E as E1. specialize (Hkb E). cbn [items] in Hkb. apply Forall_cons in Hkb as [Hkb _]. rewrite Hkb, E1. unfold updateHash_leaf. by rewrite Hm.
Qed.

Lemma verify_sound ty key size rpath : forall d n, node_ok ty d (prefix d key) n -> 0 <= d -> ty <> tnINNER -> Forall bytes_ok rpath ->
  collision_free (messages n ++ List.flat_map blob_messages rpath) -> keys_bound ty (items n) -> size = d + Z.of_nat (length rpath) ->
  verify_loop key size rpath d (merkle n) = Val true ->
  exists c h i, (blob ← last rpath; Some (makeFromWire blob)) = Some (Val (Some (SHAMapLeafNode c h ty i))) /\ i ∈ items n /\
    prefix (size - 1) (item_key i) = prefix (size - 1) key.
Proof.
  induction rpath as [|blob rpath IH]; intros d n Hn Hd Hty Hb Hcf Hkb Hsz E; [done|]. apply Forall_cons in Hb as [Hb Hbs].
  destruct (Z.eq_dec (merkle n) 0) as [E0|Hnz]; [rewrite E0 in E; by apply verify_zero in E|].
  cbn [verify_loop] in E. res_inv. destruct a as [q|]; [|done].
  destruct (Z.eqb_spec (getHash_node (updateHash q)) (merkle n)) as [Eh|]; [|done]. cbn [negb] in Hk.
  assert (collision_free (messages n ++ blob_messages blob)) as Hcf1 by (eapply collision_free_mono; [|exact Hcf]; cbn; set_solver).
  pose proof (blob_binding ty d _ n blob q Hn Hd Hty Hb Hb0 Hcf1 Hkb Eh Hnz) as Hbind.
  destruct q as [c1 h1 bs1|c1 h1 t1 i1]; cbn [updateHash] in Hk.
  - destruct Hbind as (c & h & bs & -> & Hs). assert (d < 64) by (by inversion Hn). rewrite selectBranch_val in Hk by (cbn; lia). cbn [mbind res_bind depth_ createID] in Hk.
    destruct (digit_slot ty d _ c h bs key Hn) as [Hsl|(h' & n' & Hsl & Hn')].
    all: pose proof (f_equal (lookup (Z.to_nat (digit d key))) Hs) as Hs'; rewrite !list_lookup_fmap, Hsl in Hs'.
    all: unfold getChildHash in Hk; destruct (bs1 !! Z.to_nat (digit d key)) as [o|]; [|done]; cbn in Hs'; injection Hs' as Hs'; rewrite Hs' in Hk.
    { by apply verify_zero in Hk. }
    rewrite <- prefix_succ in Hn' by lia.
    destruct (IH (d + 1) n' Hn') as (c2 & h2 & i & El & Hi & Hp); [lia|done|done| | |cbn [length] in Hsz; lia|exact Hk|].
    + eapply collision_free_mono; [|exact Hcf]. pose proof (messages_child c h bs _ h' n' Hsl). cbn. set_solver.
    + eapply keys_bound_mono; [|exact Hkb]. intros i Hi. apply elem_of_items_inner. eauto.
    + exists c2, h2, i. split; [|split; [apply elem_of_items_inner; eauto|done]]. destruct rpath; [done|exact El].
  - destruct Hbind as (c & h & -> & ->). injection Hk as Hk%Z.eqb_eq. cbn [length] in Hsz.
    destruct rpath; [|cbn [length] in Hsz; lia]. exists c1, h1, i1. split; [cbn; by rewrite Hb0|]. split; [cbn; set_solver|].
    replace (size - 1) with d by lia. by inversion Hn.
Qed.

(** ** The theorems *)

Lemma path_length id d n dt top rest : path_to id d n dt top rest -> dt = d + Z.of_nat (length rest).
Proof. induction 1 as [| |? ? ? ? ? ? ? ? ? _ _ IH]; [cbn; lia..|]. rewrite length_app. cbn. lia. Qed.

(** A map as [getHash] leaves it. *)
Lemma hashed_map ty ops bs m h m' : ty <> tnINNER -> ops_ok ty ops -> run_ops ty new_map ops = Val (bs, m) -> getHash m = Val (h, m') ->
  map_inv ty m' /\ cowid (root_ m') = 0 /\ messages (root_ m') = messages (root_ m) /\ h = merkle (root_ m') /\
  contents m' = (spec_ops ∅ ops).2 /\ items (root_ m') ⊆ List.flat_map op_items ops.
Proof.
  intros Hty Hok Er Eh. destruct (shamap_runs ty ops Hty Hok) as (bs' & m1 & E & Hinv & Hf & Es). rewrite Er in E. injection E as <- <-.
  destruct (getHash_spec ty m Hinv) as (m2 & E2 & Hinv2 & Ec & Em). rewrite Eh in E2. injection E2 as -> <-.
  destruct (getHash_clean ty _ _ _ Hinv Eh) as [Hz Hm]. rewrite Es. cbn [snd]. do 3 (split; [done|]). split; [done|]. split; [done|].
  rewrite (contents_items ty m' m) by (apply Hinv2 || apply Hinv || done). by apply (from_items_all ty m _ (proj1 Hinv)).
Qed.

(** For a key a map holds, [getProofPath] on the hashed map returns a path that starts with
    the leaf of the key and that [verifyProofPath] accepts with the hash of the map; for
    any other key it returns nothing. *)
Theorem proof_path_complete ty ops bs m h m' key : ty <> tnINNER -> ops_ok ty ops -> Forall (sendable ty) (List.flat_map op_items ops) ->
  run_ops ty new_map ops = Val (bs, m) -> getHash m = Val (h, m') -> key_ok key ->
  match (spec_ops ∅ ops).2 !! key with
  | None => getProofPath m' key = Val None
  | Some i => exists blob path, getProofPath m' key = Val (Some (blob :: path)) /\ verifyProofPath h key (blob :: path) = Val true /\
      makeFromWire blob = Val (Some (updateHash (SHAMapLeafNode 0 0 ty i)))
  end.
Proof.
  intros Hty Hok Hsend Er Eh Hk. destruct (hashed_map _ _ _ _ _ _ Hty Hok Er Eh) as (Hinv & Hz & _ & -> & <- & Hit).
  pose proof Hinv as (Hm & Hc & _). destruct (walk_contents ty m' key Hm Hk) as (dt & top & rest & Hp & Hd & Ew & Ht & ->).
  unfold getProofPath. rewrite Ew. cbn [mbind res_bind]. destruct top as [c h' bs'|c h' t i]; [done|].
  destruct (Z.eqb_spec (item_key i) key) as [Ek|Ek]; [|done]. cbn [negb].
  assert (Forall (sendable ty) (items (root_ m'))) as Hs by (rewrite Forall_forall in Hsend |- *; auto).
  assert (i ∈ items (root_ m')) as Hi.
  { destruct (path_top ty key 0 0 _ _ _ _ Hp (proj2 (proj2 Hm))) as (_ & _ & _ & pre & post & ->); [lia|by apply prefix_0|]. cbn. set_solver. }
  assert (t = ty) as -> by (by inversion Ht). exists (serializeForWire (SHAMapLeafNode c h' ty i)), (serializeForWire <$> rest.*1). split; [done|]. split.
  - pose proof (verify_path ty key (Z.of_nat (length rest) + 1) 0 _ _ _ _ Hp eq_refl 0 (proj2 (proj2 Hm)) ltac:(lia) Hc Hz Hty Hs ltac:(lia)) as Hv.
    pose proof (path_length _ _ _ _ _ _ Hp). unfold verifyProofPath. cbn [length fst].
    rewrite bool_decide_eq_false_2 by done. rewrite !length_fmap. destruct (Z.ltb_spec 65 (Z.of_nat (S (length rest)))); [lia|]. cbn [orb].
    rewrite fmap_cons in Hv. replace (Z.of_nat (S (length rest))) with (Z.of_nat (length rest) + 1) by lia. by rewrite Hv.
  - apply (wire_roundtrip_spec (SHAMapLeafNode c h' ty i)). cbn. split; [by inversion Ht|]. rewrite Forall_forall in Hs. destruct (Hs i Hi). destruct ty; auto.
Qed.

(** C18: a path of byte strings that [verifyProofPath] accepts with the hash of a map starts
    with a leaf of the map, unless messages hashed in the map and in the path collide.
    The key of the leaf agrees with the requested key on the digits the path descended through. *)
Theorem proof_path_sound ty ops bs m h m' key path : ty <> tnINNER -> ops_ok ty ops -> keys_bound ty (List.flat_map op_items ops) ->
  run_ops ty new_map ops = Val (bs, m) -> getHash m = Val (h, m') -> key_ok key -> Forall bytes_ok path ->
  collision_free (messages (root_ m) ++ List.flat_map blob_messages path) -> verifyProofPath h key path = Val true ->
  exists blob rest c h0 i, path = blob :: rest /\ makeFromWire blob = Val (Some (SHAMapLeafNode c h0 ty i)) /\
    (spec_ops ∅ ops).2 !! item_key i = Some i /\
    prefix (Z.of_nat (length rest)) (item_key i) = prefix (Z.of_nat (length rest)) key.
Proof.
  intros Hty Hok Hkb Er Eh Hk Hb Hcf Hv. destruct (hashed_map _ _ _ _ _ _ Hty Hok Er Eh) as (Hinv & Hz & Em & -> & <- & Hit).
  unfold verifyProofPath in Hv. destruct path as [|blob rest]; [done|]. case_bool_decide; [done|]. cbn [orb] in Hv. case_if Hv.
  destruct (verify_loop _ _ _ _ _) as [b|e|] eqn:Ev in Hv; [injection Hv as ->|by destruct e|done]. destruct Hinv as ((_ & _ & Hn) & _).
  destruct (verify_sound ty key (Z.of_nat (length (blob :: rest))) (rev (blob :: rest)) 0 (root_ m')) as (c & h0 & i & El & Hi & Hp).
  - by rewrite prefix_0.
  - lia.
  - done.
  - by apply Forall_rev.
  - rewrite Em. eapply collision_free_mono; [|exact Hcf]. intros x [Hx|Hx]%elem_of_app; apply elem_of_app; [by left|right].
    rewrite list_elem_of_In, List.in_flat_map in Hx |- *. destruct Hx as (b & Hb' & Hx). exists b. by rewrite List.in_rev.
  - by eapply keys_bound_mono.
  - rewrite length_rev. lia.
  - exact Ev.
  - exists blob, rest, c, h0, i. split; [done|]. cbn [rev] in El. rewrite last_snoc in El. cbn in El. injection El as El. split; [done|]. split.
    + rewrite map_contents. apply items_map_Some; [by eapply items_NoDup|done].
    + cbn [length] in Hp. by replace (Z.of_nat (S (length rest)) - 1) with (Z.of_nat (length rest)) in Hp by lia.
Qed.
End sound.

(** ** Samples *)

Module ProofSamples.
Import ShaSamples.

Definition built : list bool * SHAMap := from_res ([], new_map) (run_ops tnACCOUNT_STATE new_map build1).
Definition hashed : Z * SHAMap := from_res (0, new_map) (getHash built.2).
Definition path1 : list (list Z) := default [] (from_res None (getProofPath hashed.2 k1)).

Lemma built_eq : run_ops tnACCOUNT_STATE new_map build1 = Val (built.1, built.2).
Proof. vm_compute. reflexivity. Qed.

Lemma hashed_eq : getHash built.2 = Val (hashed.1, hashed.2).
Proof. vm_compute. reflexivity. Qed.

Lemma blobs_ok l : forallb (forallb (fun b => (0 <=? b) && (b <? 256))) l = true -> Forall bytes_ok l.
Proof.
  rewrite List.forallb_forall, Forall_forall. intros Hl bl Hb%list_elem_of_In%Hl. rewrite List.forallb_forall in Hb.
  apply Forall_forall. intros b Hi%list_elem_of_In%Hb. unfold byte_range. lia.
Qed.

Lemma proof_path_complete_witness : exists blob path, getProofPath hashed.2 k1 = Val (Some (blob :: path)) /\
  verifyProofPath hashed.1 k1 (blob :: path) = Val true /\
  makeFromWire blob = Val (Some (updateHash (SHAMapLeafNode 0 0 tnACCOUNT_STATE (item k1 1)))).
Proof.
  refine (proof_path_complete tnACCOUNT_STATE build1 built.1 built.2 hashed.1 hashed.2 k1 _ (proj1 build_ok) _ built_eq hashed_eq _).
  - discriminate.
  - repeat constructor; intros; vm_compute; discriminate.
  - vm_compute. split; [discriminate|reflexivity].
Defined.

Lemma proof_path_sound_witness : exists blob rest c h0 i, path1 = blob :: rest /\
  makeFromWire blob = Val (Some (SHAMapLeafNode c h0 tnACCOUNT_STATE i)) /\ (spec_ops ∅ build1).2 !! item_key i = Some i /\
  prefix (Z.of_nat (length rest)) (item_key i) = prefix (Z.of_nat (length rest)) (k1 + 1).
Proof.
  apply (proof_path_sound tnACCOUNT_STATE build1 built.1 built.2 hashed.1 hashed.2 (k1 + 1) path1).
  - discriminate.
  - exact (proj1 build_ok).
  - discriminate.
  - exact built_eq.
  - exact hashed_eq.
  - vm_compute. split; [discriminate|reflexivity].
  - apply blobs_ok. vm_compute. reflexivity.
  - apply no_collision_free. vm_compute. reflexivity.
  - vm_compute. reflexivity.
Defined.

(** The path of [k1] is accepted for the next key, which the map does not hold. *)
Lemma absent_key_accepted : verifyProofPath hashed.1 (k1 + 1) path1 = Val true /\ peekItem hashed.2 (k1 + 1) = Val None.
Proof. split; vm_compute; reflexivity. Qed.

(** Sixty-five nodes, each with the hash of the one before in its first branch. *)
Fixpoint tower (n : nat) (hash : Z) : list (list Z) * Z :=
  match n with
  | O => ([], hash)
  | S n =>
    let bs := <[0%nat := Some (hash, None)]> empty_branches in
    let '(path, top) := tower n (updateHash_inner bs) in (serializeForWire (SHAMapInnerNode 0 0 bs) :: path, top)
  end.

(** They pass the test of the length of the path, and the branch below the last one is chosen by a
    byte after the end of the key. *)
Lemma tower_reads_beyond_key : let '(path, top) := tower 65 1 in verifyProofPath top 0 path = Undef.
Proof. vm_compute. reflexivity. Qed.
End ProofSamples.
