(* ===== verification/Views.v ===== *)
(** * Views: ledger entries, keylets and the interfaces of views

    Transactions see the ledger through a stack of views: a [Ledger] (the state map), an
    [OpenView] with its buffer of raw changes, and sandboxes with buffers of their own
    ([ledger/ReadView.h], [ledger/RawView.h], [ledger/ApplyView.h]).  This file has the
    entries, the pointers to them, and what a view promises to the one above it:
    [ReadViewOps] and [RawViewOps] are the virtual functions, [ReadViewLaws] and
    [RawViewLaws] what they do, in terms of the finite map of entries a view shows.

    Entries are shared objects ([std::shared_ptr<SLE>]): a heap maps pointers to entries, a
    buffer holds pointers, and a client may write to an entry it got from [peek]. *)

From stdpp Require Import base numbers list option gmap sorting.
From Stdlib Require Import ZArith Lia.
From S2P Require Import Prelude ShaMapNode.

Local Open Scope Z_scope.

(** ** Entries and keylets *)

(** A ledger entry: its key, its type, and its other fields as serialized. *)
Record SLE := mkSLE { sle_key : Z; sle_type : Z; sle_fields : list Z }.

#[export] Instance SLE_eq_dec : EqDecision SLE.
Proof. solve_decision. Defined.

Definition ltANY : Z := 0.
Definition ltCHILD : Z := 0x1CD2.
Definition ltDIR_NODE : Z := 0x64.

Record Keylet := mkKeylet { k_type : Z; k_key : Z }.

(** [keylet::unchecked] and [keylet::child]. *)
Definition unchecked (key : Z) : Keylet := mkKeylet ltANY key.
Definition child (key : Z) : Keylet := mkKeylet ltCHILD key.

Definition check (k : Keylet) (sle : SLE) : bool :=
  if k_type k =? ltANY then true
  else if k_type k =? ltCHILD then negb (sle_type sle =? ltDIR_NODE)
  else sle_type sle =? k_type k.

(** The entry of a key, if it has the type of the keylet. *)
Definition lookup_keylet (c : gmap Z SLE) (k : Keylet) : option SLE := s ← c !! k_key k; if check k s then Some s else None.

Lemma lookup_keylet_Some c k s : lookup_keylet c k = Some s -> c !! k_key k = Some s /\ check k s = true.
Proof. unfold lookup_keylet. destruct (c !! k_key k) as [s'|]; cbn; [|done]. destruct (check k s') eqn:E; [|done]. by intros [= ->]. Qed.

Definition key_range (k : Z) : Prop := 0 < k < 2 ^ 256.

(** ** The heap *)

Abbreviation loc := positive.
Abbreviation heap := (gmap loc SLE).

(** A location above all those in use. *)
Definition fresh_loc (σ : heap) : loc := map_fold (fun l _ a => Pos.max (Pos.succ l) a) 1%positive σ.

Definition deref (σ : heap) (l : loc) : mres SLE := match σ !! l with Some s => Val s | None => Undef end.

(** [std::make_shared<SLE>(sle)]. *)
Definition make_shared (σ : heap) (s : SLE) : heap * loc := (<[fresh_loc σ := s]> σ, fresh_loc σ).

Lemma fresh_loc_above σ l s : σ !! l = Some s -> (l < fresh_loc σ)%positive.
Proof.
  revert l s. unfold fresh_loc. apply (map_fold_weak_ind (fun a m => forall l s, m !! l = Some s -> (l < a)%positive)).
  - intros l s E. by rewrite lookup_empty in E.
  - intros l' s' m a Hm IH l s E. destruct (decide (l' = l)) as [->|Hne]; [lia|]. rewrite lookup_insert_ne in E by done. specialize (IH _ _ E). lia.
Qed.

Lemma fresh_loc_free σ : σ !! fresh_loc σ = None.
Proof. apply eq_None_not_Some. intros [s E]. apply fresh_loc_above in E. lia. Qed.

(** ** [std::map] in the order of its keys *)

Definition entry_le {A} (a b : Z * A) : Prop := a.1 <= b.1.

#[export] Instance entry_le_dec {A} : RelDecision (@entry_le A).
Proof. intros a b. unfold entry_le. apply _. Defined.

#[export] Instance entry_le_total {A} : Total (@entry_le A).
Proof. intros a b. unfold entry_le. lia. Qed.

#[export] Instance entry_le_trans {A} : Transitive (@entry_le A).
Proof. intros a b c. unfold entry_le. lia. Qed.

Definition entries {A} (m : gmap Z A) : list (Z * A) := merge_sort entry_le (map_to_list m).

Lemma elem_of_entries {A} (m : gmap Z A) k x : (k, x) ∈ entries m <-> m !! k = Some x.
Proof. unfold entries. rewrite merge_sort_Permutation. apply elem_of_map_to_list. Qed.

Lemma entries_NoDup {A} (m : gmap Z A) : NoDup (entries m).*1.
Proof. unfold entries. rewrite merge_sort_Permutation. apply NoDup_fst_map_to_list. Qed.

Lemma entries_sorted {A} (m : gmap Z A) : StronglySorted entry_le (entries m).
Proof. apply (StronglySorted_merge_sort entry_le). Qed.

(** The first entry from [upper_bound(key)] on that satisfies a test. *)
Definition first_above {A} (p : A -> bool) (key : Z) (m : gmap Z A) : option Z :=
  fst <$> head (filter (fun e => key < e.1 /\ p e.2 = true) (entries m)).

Lemma head_filter_sorted {A} (P : Z * A -> Prop) `{!forall e, Decision (P e)} l : StronglySorted entry_le l ->
  match head (filter P l) with
  | Some e => e ∈ l /\ P e /\ forall e', e' ∈ l -> P e' -> entry_le e e'
  | None => forall e', e' ∈ l -> ~ P e'
  end.
Proof.
  induction 1 as [|e l Hs IH He]; [cbn; intros e' []%not_elem_of_nil|]. destruct (decide (P e)) as [Hp|Hp].
  - rewrite filter_cons_True by done. cbn. split; [set_solver|]. split; [done|]. intros e' [->|Hi]%elem_of_cons _; [unfold entry_le; lia|].
    rewrite Forall_forall in He. by apply He.
  - rewrite filter_cons_False by done. destruct (head (filter P l)) as [e1|].
    + destruct IH as (Hi & Hp1 & Hm). split; [set_solver|]. split; [done|]. intros e' [->|Hi']%elem_of_cons Hp'; [done|auto].
    + intros e' [->|Hi]%elem_of_cons; [done|auto].
Qed.

Lemma first_above_spec {A} (p : A -> bool) key (m : gmap Z A) :
  match first_above p key m with
  | Some k => key < k /\ (exists x, m !! k = Some x /\ p x = true) /\ forall k' x, m !! k' = Some x -> p x = true -> key < k' -> k <= k'
  | None => forall k' x, m !! k' = Some x -> p x = true -> key < k' -> False
  end.
Proof.
  unfold first_above. pose proof (head_filter_sorted (fun e => key < e.1 /\ p e.2 = true) _ (entries_sorted m)) as Hh.
  destruct (head _) as [[k x]|]; cbn.
  - destruct Hh as (Hi & [Hk Hp] & Hm). apply elem_of_entries in Hi. split; [done|]. split; [eauto|].
    intros k' x' Hi' Hp' Hk'. apply elem_of_entries in Hi'. exact (Hm _ Hi' (conj Hk' Hp')).
  - intros k' x' Hi' Hp' Hk'. apply elem_of_entries in Hi'. exact (Hh _ Hi' (conj Hk' Hp')).
Qed.

(** ** The interfaces *)

Class ReadViewOps (V : Type) := {
  exists_ : heap -> V -> Keylet -> mres bool;
  read : heap -> V -> Keylet -> mres (option SLE);
  succ : heap -> V -> Z -> option Z -> mres (option Z)
}.

(** The raw operations take the entry by pointer. *)
Class RawViewOps (V : Type) := {
  rawErase : heap -> V -> loc -> mres V;
  rawInsert : heap -> V -> loc -> mres V;
  rawReplace : heap -> V -> loc -> mres V;
  rawDestroyXRP : V -> Z -> V
}.

(** What [succ] promises: the smallest key after the given one, if it is below the limit. *)
Definition succ_spec (c : gmap Z SLE) (key : Z) (last : option Z) (r : option Z) : Prop :=
  match r with
  | Some n => key < n /\ is_Some (c !! n) /\ (forall l, last = Some l -> n < l) /\ forall m, is_Some (c !! m) -> key < m -> n <= m
  | None => forall m, is_Some (c !! m) -> key < m -> exists l, last = Some l /\ l <= m
  end.

(** What a view stands for: the entries it shows, the pointers it holds and the drops it
    has counted as destroyed. *)
Class ViewModel (V : Type) := {
  contents_of : heap -> V -> gmap Z SLE;
  locs : V -> gset loc;
  destroyed : V -> Z
}.

(** The laws of a view whose buffered entries are all in [U].  [exists_] may or may not look at the
    type of the keylet. *)
Class ReadViewLaws (V : Type) (U : SLE -> Prop) `{ReadViewOps V, ViewModel V} := {
  view_ok : heap -> V -> Prop;
  view_entries σ v k s : view_ok σ v -> contents_of σ v !! k = Some s -> sle_key s = k /\ key_range k;
  view_locs σ v l : view_ok σ v -> l ∈ locs v -> is_Some (σ !! l);
  view_frame σ σ' v : (forall l, l ∈ locs v -> σ' !! l = σ !! l) -> view_ok σ v -> view_ok σ' v /\ contents_of σ' v = contents_of σ v;
  read_law σ v k : view_ok σ v -> key_range (k_key k) ->
    read σ v k = Val (lookup_keylet (contents_of σ v) k);
  exists_law σ v k : view_ok σ v -> key_range (k_key k) -> exists b, exists_ σ v k = Val b /\
    match contents_of σ v !! k_key k with None => b = false | Some s => check k s = true -> b = true end;
  succ_law σ v key last : view_ok σ v -> 0 <= key < 2 ^ 256 ->
    exists r, succ σ v key last = Val r /\ succ_spec (contents_of σ v) key last r
}.

(** A raw operation succeeds and shows the entries [c]; the view may keep the pointer [l]. *)
Definition raw_result `{ReadViewLaws V U} (σ : heap) (v : V) (l : loc) (c : gmap Z SLE) (r : mres V) : Prop :=
  exists v', r = Val v' /\ view_ok σ v' /\ contents_of σ v' = c /\ destroyed v' = destroyed v /\ locs v' ⊆ {[l]} ∪ locs v.

(** The raw operations under the requirements of [ledger/RawView.h]. *)
Class RawViewLaws (V : Type) (U : SLE -> Prop) `{ReadViewLaws V U, !RawViewOps V} := {
  raw_erase_law σ v l s : view_ok σ v -> σ !! l = Some s -> l ∉ locs v -> is_Some (contents_of σ v !! sle_key s) ->
    raw_result σ v l (delete (sle_key s) (contents_of σ v)) (rawErase σ v l);
  raw_insert_law σ v l s : view_ok σ v -> σ !! l = Some s -> l ∉ locs v -> U s -> key_range (sle_key s) -> contents_of σ v !! sle_key s = None ->
    raw_result σ v l (<[sle_key s := s]> (contents_of σ v)) (rawInsert σ v l);
  raw_replace_law σ v l s : view_ok σ v -> σ !! l = Some s -> l ∉ locs v -> U s -> is_Some (contents_of σ v !! sle_key s) ->
    raw_result σ v l (<[sle_key s := s]> (contents_of σ v)) (rawReplace σ v l);
  raw_destroy_law σ v fee : view_ok σ v -> view_ok σ (rawDestroyXRP v fee) /\ contents_of σ (rawDestroyXRP v fee) = contents_of σ v /\
    destroyed (rawDestroyXRP v fee) = destroyed v + fee /\ locs (rawDestroyXRP v fee) = locs v
}.
