(* ===== verification/Overlay.v ===== *)
(** * Overlay: what the two buffers of a view have in common

    [ApplyStateTable] and [RawStateTable] ([ledger/detail/]) buffer changes to a view in a
    map from keys to an action and an entry.  They read, search and apply in the same
    way; [effect_of] says what an action of either stands for. *)

From stdpp Require Import base numbers list option gmap sorting.
From Stdlib Require Import ZArith Lia.
From S2P Require Import Prelude ShaMapNode Views.

Local Open Scope Z_scope.

(** A key of a buffer is only cached, has been removed, is new, or has a new entry. *)
Inductive effect := Seen | Removed | Added | Changed.

#[export] Instance effect_eq_dec : EqDecision effect.
Proof. solve_decision. Defined.

Class HasEffect (Act : Type) := effect_of : Act -> effect.

Definition is_removed `{HasEffect Act} (e : Act * loc) : bool := match effect_of e.1 with Removed => true | _ => false end.

Section code.
Context `{HasEffect Act, ReadViewOps V}.
Abbreviation items_t := (gmap Z (Act * loc)).

(** ** The code *)

Definition table_exists (σ : heap) (base : V) (items : items_t) (k : Keylet) : mres bool :=
  match items !! k_key k with
  | None => exists_ σ base k
  | Some e => if is_removed e then Val false else sle ← deref σ e.2; Val (check k sle)
  end.

Definition table_read (σ : heap) (base : V) (items : items_t) (k : Keylet) : mres (option SLE) :=
  match items !! k_key k with
  | None => read σ base k
  | Some e => if is_removed e then Val None else sle ← deref σ e.2; Val (if check k sle then Some sle else None)
  end.

(** The successor in the base that is not removed; every round but the last finds a removed key. *)
Fixpoint base_succ (fuel : nat) (σ : heap) (base : V) (items : items_t) (next : Z) (last : option Z) : mres (option Z) :=
  match fuel with
  | O => Undef
  | S fuel =>
    n ← succ σ base next last;
    match n with
    | None => Val None
    | Some n =>
      match items !! n with
      | Some e => if is_removed e then base_succ fuel σ base items n last else Val (Some n)
      | None => Val (Some n)
      end
    end
  end.

Definition table_succ (σ : heap) (base : V) (items : items_t) (key : Z) (last : option Z) : mres (option Z) :=
  next ← base_succ (S (size items)) σ base items key last;
  let next :=
    match first_above (fun e => negb (is_removed e)) key items with
    | Some k => match next with Some n => if k <? n then Some k else next | None => Some k end
    | None => next
    end in
  match last, next with
  | Some l, Some n => if l <=? n then Val None else Val next
  | _, _ => Val next
  end.

Fixpoint apply_items `{RawViewOps W} (σ : heap) (items : list (Z * (Act * loc))) (to : W) : mres W :=
  match items with
  | [] => Val to
  | (_, (a, sle)) :: items =>
    to ← match effect_of a with
         | Seen => Val to
         | Removed => rawErase σ to sle
         | Added => rawInsert σ to sle
         | Changed => rawReplace σ to sle
         end;
    apply_items σ items to
  end.

Definition table_apply `{RawViewOps W} (σ : heap) (items : items_t) (drops : Z) (to : W) : mres W :=
  apply_items σ (entries items) (rawDestroyXRP to drops).
End code.

(** ** What a buffer stands for *)

Section model.
Context `{HasEffect Act}.
Abbreviation items_t := (gmap Z (Act * loc)).
Implicit Types (B : gmap Z SLE) (items : items_t).

(** The entries seen through a buffer over [B]. *)
Definition show (σ : heap) (b : option SLE) (e : option (Act * loc)) : option SLE :=
  match e with
  | None => b
  | Some (a, l) => match effect_of a with Removed => None | _ => σ !! l end
  end.
Definition shown (σ : heap) (B : gmap Z SLE) (items : items_t) : gmap Z SLE := merge (show σ) B items.

(** The entries after the buffer has been applied to [B]: cached entries are left out. *)
Definition apply_one (σ : heap) (b : option SLE) (e : option (Act * loc)) : option SLE :=
  match e with
  | None => b
  | Some (a, l) => match effect_of a with Removed => None | Seen => b | _ => σ !! l end
  end.
Definition applied (σ : heap) (B : gmap Z SLE) (items : items_t) : gmap Z SLE := merge (apply_one σ) B items.

(** A buffer in order: it points to entries with the right keys, and has an entry as new
    just when the base does not have it. *)
Definition entry_ok (U : SLE -> Prop) (σ : heap) (B : gmap Z SLE) (k : Z) (e : Act * loc) : Prop :=
  exists s, σ !! e.2 = Some s /\ sle_key s = k /\ key_range k /\ (effect_of e.1 = Added <-> B !! k = None) /\
    (effect_of e.1 = Added \/ effect_of e.1 = Changed -> U s).
Definition table_ok (U : SLE -> Prop) (σ : heap) (B : gmap Z SLE) (items : items_t) : Prop :=
  forall k e, items !! k = Some e -> entry_ok U σ B k e.

Lemma entry_ok_old U σ B a l s : σ !! l = Some s -> key_range (sle_key s) -> is_Some (B !! sle_key s) -> effect_of a <> Added ->
  (effect_of a = Changed -> U s) -> entry_ok U σ B (sle_key s) (a, l).
Proof. intros Hl Hr [b Hb] Ha HU. exists s. rewrite Hb. cbn. split; [done|]. split; [done|]. split; [done|]. split; [done|]. intros [?|?]; auto. done. Qed.

Lemma entry_ok_new U σ B a l s : σ !! l = Some s -> key_range (sle_key s) -> B !! sle_key s = None -> effect_of a = Added -> U s ->
  entry_ok U σ B (sle_key s) (a, l).
Proof. intros Hl Hr Hb Ha HU. exists s. rewrite Hb. done. Qed.

Definition table_locs (items : items_t) : gset loc := map_to_set (fun _ e => e.2) items.

Lemma elem_of_table_locs items l : l ∈ table_locs items <-> exists k a, items !! k = Some (a, l).
Proof.
  unfold table_locs. rewrite elem_of_map_to_set. split.
  - intros (k & [a l'] & E & <-). eauto.
  - intros (k & a & E). exists k, (a, l). done.
Qed.

Lemma shown_lookup σ B items k : shown σ B items !! k = show σ (B !! k) (items !! k).
Proof. unfold shown. rewrite lookup_merge. by destruct (B !! k), (items !! k) as [[a l]|]. Qed.

Lemma applied_lookup σ B items k : applied σ B items !! k = apply_one σ (B !! k) (items !! k).
Proof. unfold applied. rewrite lookup_merge. by destruct (B !! k), (items !! k) as [[a l]|]. Qed.

(** Changing one entry of a buffer. *)
Lemma table_ok_insert U σ B items k e : table_ok U σ B items -> entry_ok U σ B k e -> table_ok U σ B (<[k := e]> items).
Proof. intros Ht He k' e' [[<- <-]|[_ Hi]]%lookup_insert_Some; [done|by apply Ht]. Qed.

Lemma table_ok_delete U σ B items k : table_ok U σ B items -> table_ok U σ B (delete k items).
Proof. intros Ht k' e' [_ Hi]%lookup_delete_Some. by apply Ht. Qed.

Lemma shown_insert σ B items k a l s : σ !! l = Some s ->
  shown σ B (<[k := (a, l)]> items) = if is_removed (a, l) then delete k (shown σ B items) else <[k := s]> (shown σ B items).
Proof.
  intros Hl. apply map_eq. intros k'. rewrite shown_lookup. unfold is_removed, show. cbn [fst].
  destruct (decide (k = k')) as [->|Hne]; [rewrite lookup_insert_eq|rewrite lookup_insert_ne by done].
  - destruct (effect_of a); rewrite ?lookup_insert_eq, ?lookup_delete_eq; done.
  - destruct (effect_of a); rewrite ?lookup_insert_ne, ?lookup_delete_ne, ?shown_lookup by done; done.
Qed.

Lemma shown_delete σ B items k : B !! k = None -> shown σ B (delete k items) = delete k (shown σ B items).
Proof.
  intros Hb. apply map_eq. intros k'. rewrite shown_lookup. destruct (decide (k = k')) as [->|Hne].
  - by rewrite !lookup_delete_eq, Hb.
  - rewrite !lookup_delete_ne, shown_lookup by done. done.
Qed.

Lemma shown_entries U σ B items k s : table_ok U σ B items -> (forall s, B !! k = Some s -> sle_key s = k /\ key_range k) ->
  shown σ B items !! k = Some s -> sle_key s = k /\ key_range k.
Proof.
  intros Ht HB. rewrite shown_lookup. unfold show. destruct (items !! k) as [[a l]|] eqn:Ei; [|by apply HB].
  destruct (Ht _ _ Ei) as (s' & Hl & Hk & Hr & _). destruct (effect_of a); [|done|..]; cbn in Hl; rewrite Hl; by intros [= <-].
Qed.

(** A buffer under another heap that agrees on its pointers. *)
Lemma table_frame U σ σ' B items : (forall l, l ∈ table_locs items -> σ' !! l = σ !! l) -> table_ok U σ B items ->
  table_ok U σ' B items /\ shown σ' B items = shown σ B items.
Proof.
  intros Hf Ht. assert (forall k a l, items !! k = Some (a, l) -> σ' !! l = σ !! l) as Hf' by (intros; apply Hf, elem_of_table_locs; eauto). split.
  - intros k [a l] Hi. destruct (Ht _ _ Hi) as (s & Hl & Hs). exists s. cbn in *. by rewrite (Hf' _ _ _ Hi).
  - apply map_eq. intros k. rewrite !shown_lookup. destruct (items !! k) as [[a l]|] eqn:Hi; [|done]. cbn. by rewrite (Hf' _ _ _ Hi).
Qed.
End model.

(** ** Reading through a buffer *)

Lemma filter_length_lt {A} (P Q : A -> Prop) `{!forall x, Decision (P x), !forall x, Decision (Q x)} l x :
  (forall y, P y -> Q y) -> x ∈ l -> Q x -> ~ P x -> (length (filter P l) < length (filter Q l))%nat.
Proof.
  intros HPQ Hx HQ HP. assert (forall l, (length (filter P l) <= length (filter Q l))%nat) as Hle.
  { clear -HPQ. induction l as [|y l IH]; [done|]. destruct (decide (P y)).
    - rewrite !filter_cons_True by auto. cbn. lia.
    - rewrite filter_cons_False by done. destruct (decide (Q y)); [rewrite filter_cons_True by done|rewrite filter_cons_False by done]; cbn; lia. }
  induction Hx as [x l|x y l Hx IH].
  - rewrite filter_cons_False, filter_cons_True by done. cbn. specialize (Hle l). lia.
  - specialize (IH HQ HP). destruct (decide (P y)); [rewrite !filter_cons_True by auto; cbn; lia|]. rewrite filter_cons_False by done.
    destruct (decide (Q y)); [rewrite filter_cons_True by done; cbn; lia|by rewrite filter_cons_False].
Qed.

Section laws.
Context `{HasEffect Act, ReadViewLaws V U}.
Implicit Types (base : V) (items : gmap Z (Act * loc)).

Lemma table_read_spec σ base items k : view_ok σ base -> table_ok U σ (contents_of σ base) items -> key_range (k_key k) ->
  table_read σ base items k = Val (lookup_keylet (shown σ (contents_of σ base) items) k).
Proof.
  intros Hv Ht Hk. unfold table_read. pose proof (shown_lookup σ (contents_of σ base) items (k_key k)) as Es. unfold lookup_keylet. rewrite Es.
  destruct (items !! k_key k) as [[a l]|] eqn:Ei; [|by rewrite read_law].
  destruct (Ht _ _ Ei) as (s & Hl & _). cbn in Hl. unfold is_removed, show, deref. cbn [fst snd].
  destruct (effect_of a); rewrite ?Hl; done.
Qed.

Lemma table_exists_spec σ base items k : view_ok σ base -> table_ok U σ (contents_of σ base) items -> key_range (k_key k) ->
  exists b, table_exists σ base items k = Val b /\
    match shown σ (contents_of σ base) items !! k_key k with None => b = false | Some s => check k s = true -> b = true end.
Proof.
  intros Hv Ht Hk. unfold table_exists. rewrite shown_lookup. destruct (items !! k_key k) as [[a l]|] eqn:Ei; [|by apply exists_law].
  destruct (Ht _ _ Ei) as (s & Hl & _). cbn in Hl. unfold is_removed, show, deref. cbn [fst snd].
  destruct (effect_of a); rewrite ?Hl; eexists; (split; [done|]); done.
Qed.

(** Keys the buffer has removed. *)
Definition gone items (k : Z) : Prop := exists e, items !! k = Some e /\ is_removed e = true.

Definition removed_above items (key : Z) : list (Z * (Act * loc)) := filter (fun e => key < e.1 /\ is_removed e.2 = true) (entries items).

Lemma base_succ_spec σ base items last : view_ok σ base -> forall fuel next, 0 <= next < 2 ^ 256 ->
  (length (removed_above items next) < fuel)%nat ->
  exists r, base_succ fuel σ base items next last = Val r /\
    match r with
    | Some n => next < n /\ is_Some (contents_of σ base !! n) /\ ~ gone items n /\ (forall l, last = Some l -> n < l) /\
        forall m, is_Some (contents_of σ base !! m) -> ~ gone items m -> next < m -> n <= m
    | None => forall m, is_Some (contents_of σ base !! m) -> ~ gone items m -> next < m -> exists l, last = Some l /\ l <= m
    end.
Proof.
  intros Hv. induction fuel as [|fuel IH]; intros next Hn Hf; [lia|]. cbn [base_succ].
  destruct (succ_law σ base next last Hv Hn) as (r & -> & Hr). cbn [mbind res_bind]. destruct r as [n|]; cbn in Hr.
  2:{ exists None. split; [done|]. intros m Hm _. by apply Hr. }
  destruct Hr as (Hlt & [s Hs] & Hlast & Hmin). pose proof (view_entries _ _ _ _ Hv Hs) as [_ Hkr].
  destruct (items !! n) as [e|] eqn:Ei.
  2:{ exists (Some n). split; [done|]. split; [done|]. split; [done|]. split; [intros (e & He & _); congruence|]. split; [done|]. intros m Hm _. by apply Hmin. }
  destruct (is_removed e) eqn:Er.
  2:{ exists (Some n). split; [done|]. split; [done|]. split; [done|]. split; [intros (e' & He & He'); congruence|]. split; [done|]. intros m Hm _. by apply Hmin. }
  assert (forall m, is_Some (contents_of σ base !! m) -> ~ gone items m -> next < m -> n < m) as Hskip.
  { intros m Hm Hg Hlm. specialize (Hmin m Hm Hlm). destruct (Z.eq_dec m n) as [->|]; [|lia]. exfalso. apply Hg. by exists e. }
  destruct (IH n ltac:(unfold key_range in Hkr; lia)) as (r & -> & Hr).
  { apply (Nat.lt_le_trans _ (length (removed_above items next))); [|lia]. apply (filter_length_lt _ _ _ (n, e)); [|by apply elem_of_entries|done|cbn; lia].
    intros e' [? ?]. split; [lia|done]. }
  exists r. split; [done|]. destruct r as [n'|].
  - destruct Hr as (H1' & H2' & H3' & H4' & H5'). split; [lia|]. split; [done|]. split; [done|]. split; [done|]. intros m Hm Hg Hlm. by apply H5'; auto.
  - intros m Hm Hg Hlm. apply Hr; auto.
Qed.

Lemma removed_above_size items key : (length (removed_above items key) < S (size items))%nat.
Proof.
  unfold removed_above. pose proof (length_filter (fun e : Z * (Act * loc) => key < e.1 /\ is_removed e.2 = true) (entries items)).
  assert (length (entries items) = size items) by (unfold entries; by rewrite merge_sort_Permutation, length_map_to_list). lia.
Qed.

(** The keys seen through a buffer. *)
Lemma shown_dom σ B items k : table_ok U σ B items ->
  is_Some (shown σ B items !! k) <-> (exists e, items !! k = Some e /\ is_removed e = false) \/ (is_Some (B !! k) /\ items !! k = None).
Proof.
  intros Ht. rewrite shown_lookup. destruct (items !! k) as [[a l]|] eqn:Ei; cbn [show].
  - destruct (Ht _ _ Ei) as (s & Hl & _). cbn in Hl. unfold is_removed. cbn. rewrite Hl. destruct (effect_of a) eqn:Ea; split; try (by intros [? [=]]); try (by eauto);
      try (intros [(e & [= <-] & He)|[_ ?]]; [cbn in He; rewrite ?Ea in He; by eauto|done]); intros _; left; eexists; (split; [done|]); cbn; by rewrite Ea.
  - split; [intros Hs; by right|]. intros [(e & ? & _)|[? _]]; done.
Qed.

Lemma table_succ_spec σ base items key last : view_ok σ base -> table_ok U σ (contents_of σ base) items -> 0 <= key < 2 ^ 256 ->
  exists r, table_succ σ base items key last = Val r /\ succ_spec (shown σ (contents_of σ base) items) key last r.
Proof.
  intros Hv Ht Hk. unfold table_succ.
  destruct (base_succ_spec σ base items last Hv (S (size items)) key Hk (removed_above_size items key)) as (nb & -> & Hb). cbn [mbind res_bind].
  pose proof (first_above_spec (fun e => negb (is_removed e)) key items) as Hf.
  (* the keys shown are those of the base that are not gone and those of the buffer *)
  assert (forall m, is_Some (shown σ (contents_of σ base) items !! m) ->
    (exists e, items !! m = Some e /\ negb (is_removed e) = true) \/ (is_Some (contents_of σ base !! m) /\ ~ gone items m)) as Hcase.
  { intros m [(e & He & Hr)|[Hs Hi]]%shown_dom; [|right|done]; [left; exists e; by rewrite Hr|]. split; [done|]. intros (e & He & _). congruence. }
  assert (forall m e, items !! m = Some e -> negb (is_removed e) = true -> is_Some (shown σ (contents_of σ base) items !! m)) as Hin.
  { intros m e He Hr. apply shown_dom; [done|]. left. exists e. by destruct (is_removed e). }
  assert (forall m, is_Some (contents_of σ base !! m) -> ~ gone items m -> is_Some (shown σ (contents_of σ base) items !! m)) as Hinb.
  { intros m Hm Hg. apply shown_dom; [done|]. destruct (items !! m) as [e|] eqn:He; [left; exists e; split; [done|]|by right].
    destruct (is_removed e) eqn:Hr; [exfalso; apply Hg; by exists e|done]. }
  set (next := match first_above _ _ _ with Some k => _ | None => nb end).
  assert (match next with
    | Some n => key < n /\ is_Some (shown σ (contents_of σ base) items !! n) /\
        (forall m, is_Some (shown σ (contents_of σ base) items !! m) -> key < m -> n <= m \/ exists l, last = Some l /\ l <= m)
    | None => forall m, is_Some (shown σ (contents_of σ base) items !! m) -> key < m -> exists l, last = Some l /\ l <= m
    end) as Hnext.
  { unfold next. destruct (first_above _ _ _) as [k|].
    - destruct Hf as (Hlt & (e & He & Hr) & Hmin). destruct nb as [n|]; [destruct (Z.ltb_spec k n)|].
      + split; [done|]. split; [by eapply Hin|]. intros m [(e' & He' & Hr')|[Hm Hg]]%Hcase Hlm; left; [by eapply Hmin|].
        destruct Hb as (_ & _ & _ & _ & Hbm). specialize (Hbm m Hm Hg Hlm). lia.
      + destruct Hb as (Hbl & Hbs & Hbg & _ & Hbm). split; [done|]. split; [by apply Hinb|]. intros m [(e' & He' & Hr')|[Hm Hg]]%Hcase Hlm; left.
        * specialize (Hmin m e' He' Hr' Hlm). lia.
        * by apply Hbm.
      + split; [done|]. split; [by eapply Hin|]. intros m [(e' & He' & Hr')|[Hm Hg]]%Hcase Hlm; [left; by eapply Hmin|right; by apply Hb].
    - destruct nb as [n|].
      + destruct Hb as (Hbl & Hbs & Hbg & _ & Hbm). split; [done|]. split; [by apply Hinb|]. intros m [(e' & He' & Hr')|[Hm Hg]]%Hcase Hlm; left; [|by apply Hbm].
        by destruct (Hf m e' He' Hr' Hlm).
      + intros m [(e' & He' & Hr')|[Hm Hg]]%Hcase Hlm; [by destruct (Hf m e' He' Hr' Hlm)|by apply Hb]. }
  clearbody next. destruct last as [l|], next as [n|]; try (destruct (Z.leb_spec l n)); eexists; (split; [done|]); cbn in Hnext |- *; try done.
  - intros m Hm Hlm. exists l. split; [done|]. destruct Hnext as (_ & _ & Hmin). destruct (Hmin m Hm Hlm) as [|(l' & [= <-] & ?)]; lia.
  - destruct Hnext as (Hl & Hs & Hmin). split; [done|]. split; [done|]. split; [intros l' [= <-]; lia|]. intros m Hm Hlm. destruct (Hmin m Hm Hlm) as [|(l' & [= <-] & ?)]; lia.
  - destruct Hnext as (Hl & Hs & Hmin). split; [done|]. split; [done|]. split; [done|]. intros m Hm Hlm. destruct (Hmin m Hm Hlm) as [|(l' & [=] & ?)]; done.
Qed.
End laws.

(** ** A view with a buffer *)

Section overlay.
Context `{HasEffect Act, ReadViewLaws V U}.
Implicit Types (base : V) (items : gmap Z (Act * loc)).

Definition overlay_ok (σ : heap) base items : Prop :=
  view_ok σ base /\ table_ok U σ (contents_of σ base) items /\ table_locs items ## locs base.

Lemma overlay_locs σ base items l : overlay_ok σ base items -> l ∈ locs base ∪ table_locs items -> is_Some (σ !! l).
Proof.
  intros (Hv & Ht & _) [Hl|(k & a & Hl)%elem_of_table_locs]%elem_of_union; [by eapply view_locs|]. destruct (Ht _ _ Hl) as (s & Hs & _). by eexists.
Qed.

Lemma overlay_frame σ σ' base items : (forall l, l ∈ locs base ∪ table_locs items -> σ' !! l = σ !! l) -> overlay_ok σ base items ->
  overlay_ok σ' base items /\ shown σ' (contents_of σ' base) items = shown σ (contents_of σ base) items.
Proof.
  intros Hf (Hv & Ht & Hd). destruct (view_frame σ σ' base) as [Hv' Ec]; [intros l Hl; apply Hf; set_solver|done|].
  destruct (table_frame U σ σ' (contents_of σ base) items) as [Ht' Es]; [intros l Hl; apply Hf; set_solver|done|].
  unfold overlay_ok. by rewrite Ec.
Qed.

Lemma overlay_set σ base items k a l s : overlay_ok σ base items -> entry_ok U σ (contents_of σ base) k (a, l) -> σ !! l = Some s -> l ∉ locs base ->
  let items' := <[k := (a, l)]> items in
  overlay_ok σ base items' /\ table_locs items' ⊆ {[l]} ∪ table_locs items /\
  shown σ (contents_of σ base) items' =
    if is_removed (a, l) then delete k (shown σ (contents_of σ base) items) else <[k := s]> (shown σ (contents_of σ base) items).
Proof.
  intros (Hv & Ht & Hd) He Hl Hb items'. assert (table_locs items' ⊆ {[l]} ∪ table_locs items) as Hs.
  { intros l' (k' & a' & [[-> [= <- <-]]|[_ Hk']]%lookup_insert_Some)%elem_of_table_locs; [set_solver|].
    apply elem_of_union. right. apply elem_of_table_locs. eauto. }
  split; [|split; [done|by apply shown_insert]]. split; [done|]. split; [by apply table_ok_insert|set_solver].
Qed.

Lemma overlay_drop σ base items k : overlay_ok σ base items -> contents_of σ base !! k = None ->
  overlay_ok σ base (delete k items) /\ table_locs (delete k items) ⊆ table_locs items /\
  shown σ (contents_of σ base) (delete k items) = delete k (shown σ (contents_of σ base) items).
Proof.
  intros (Hv & Ht & Hd) Hk. assert (table_locs (delete k items) ⊆ table_locs items) as Hs.
  { intros l' (k' & a' & [_ Hk']%lookup_delete_Some)%elem_of_table_locs. apply elem_of_table_locs. eauto. }
  split; [|split; [done|by apply shown_delete]]. split; [done|]. split; [by apply table_ok_delete|set_solver].
Qed.

(** Whether the view shows a key, by the entry of the buffer. *)
Lemma overlay_shows σ base items k : overlay_ok σ base items ->
  match items !! k with
  | None => shown σ (contents_of σ base) items !! k = contents_of σ base !! k
  | Some (a, l) =>
    match effect_of a with
    | Removed => shown σ (contents_of σ base) items !! k = None /\ is_Some (contents_of σ base !! k)
    | Added => is_Some (shown σ (contents_of σ base) items !! k) /\ contents_of σ base !! k = None
    | _ => is_Some (shown σ (contents_of σ base) items !! k) /\ is_Some (contents_of σ base !! k)
    end
  end.
Proof.
  intros (Hv & Ht & Hd). rewrite shown_lookup. destruct (items !! k) as [[a l]|] eqn:Ei; [|done].
  destruct (Ht _ _ Ei) as (s & Hl & _ & _ & Ha & _). cbn in *. rewrite Hl.
  destruct (contents_of σ base !! k); destruct (effect_of a); (split; [by eauto|]); try (by eauto); exfalso; naive_solver.
Qed.
End overlay.

(** ** Applying a buffer *)

Section apply.
Context `{HasEffect Act, RawViewLaws W U}.
Implicit Types (to : W) (l : list (Z * (Act * loc))).

Lemma applied_step σ B k a p l (c : gmap Z SLE) : k ∉ l.*1 -> (forall k', k' <> k -> c !! k' = B !! k') -> c !! k = apply_one σ (B !! k) (Some (a, p)) ->
  applied σ c (list_to_map l) = applied σ B (list_to_map ((k, (a, p)) :: l)).
Proof.
  intros Hk Hc Hck. apply map_eq. intros k'. rewrite !applied_lookup. rewrite list_to_map_cons. destruct (decide (k' = k)) as [->|Hne].
  - rewrite lookup_insert_eq, (not_elem_of_list_to_map_1 l k) by done. exact Hck.
  - rewrite lookup_insert_ne, Hc by done. done.
Qed.

(** One entry of the buffer. *)
Lemma apply_entry σ to k a p : view_ok σ to -> entry_ok U σ (contents_of σ to) k (a, p) -> p ∉ locs to ->
  exists to', match effect_of a with Seen => Val to | Removed => rawErase σ to p | Added => rawInsert σ to p | Changed => rawReplace σ to p end = Val to' /\
    view_ok σ to' /\ destroyed to' = destroyed to /\ locs to' ⊆ {[p]} ∪ locs to /\
    (forall k', k' <> k -> contents_of σ to' !! k' = contents_of σ to !! k') /\
    contents_of σ to' !! k = apply_one σ (contents_of σ to !! k) (Some (a, p)).
Proof.
  intros Hv (s & Hl & <- & Hr & Ha & HU) Hp. cbn in *. destruct (effect_of a) eqn:Ea.
  - exists to. split; [done|]. split; [done|]. split; [done|]. split; [set_solver|]. done.
  - assert (is_Some (contents_of σ to !! sle_key s)) as Hs by (destruct (contents_of σ to !! sle_key s); [done|]; by destruct Ha as [_ Ha]; discriminate Ha).
    destruct (raw_erase_law σ to p s Hv Hl Hp Hs) as (to' & E & Hv' & Ec & Ed & El). exists to'. rewrite Ec.
    split; [done|]. split; [done|]. split; [done|]. split; [done|]. split; [intros k' Hne; by rewrite lookup_delete_ne|by rewrite lookup_delete_eq].
  - destruct (raw_insert_law σ to p s Hv Hl Hp ltac:(auto) Hr) as (to' & E & Hv' & Ec & Ed & El); [by apply Ha|]. exists to'. rewrite Ec.
    split; [done|]. split; [done|]. split; [done|]. split; [done|]. split; [intros k' Hne; by rewrite lookup_insert_ne|by rewrite lookup_insert_eq].
  - assert (is_Some (contents_of σ to !! sle_key s)) as Hs by (destruct (contents_of σ to !! sle_key s); [done|]; by destruct Ha as [_ Ha]; discriminate Ha).
    destruct (raw_replace_law σ to p s Hv Hl Hp ltac:(auto) Hs) as (to' & E & Hv' & Ec & Ed & El). exists to'. rewrite Ec.
    split; [done|]. split; [done|]. split; [done|]. split; [done|]. split; [intros k' Hne; by rewrite lookup_insert_ne|by rewrite lookup_insert_eq].
Qed.

Lemma apply_items_spec σ l : forall to, view_ok σ to -> NoDup l.*1 ->
  (forall k e, (k, e) ∈ l -> entry_ok U σ (contents_of σ to) k e /\ e.2 ∉ locs to) ->
  exists to', apply_items σ l to = Val to' /\ view_ok σ to' /\ contents_of σ to' = applied σ (contents_of σ to) (list_to_map l) /\
    destroyed to' = destroyed to /\ forall p, p ∈ locs to' -> p ∈ locs to \/ exists k a, (k, (a, p)) ∈ l.
Proof.
  induction l as [|[k [a p]] l IH]; intros to Hv Hnd Hl.
  { exists to. split; [done|]. split; [done|]. split; [|split; [done|by left]]. apply map_eq. intros k. by rewrite applied_lookup, list_to_map_nil, lookup_empty. }
  cbn [fmap list_fmap fst] in Hnd. apply NoDup_cons in Hnd as [Hk Hnd].
  destruct (Hl k (a, p) ltac:(set_solver)) as [He Hp]. destruct (apply_entry σ to k a p Hv He Hp) as (to1 & E1 & Hv1 & Ed1 & El1 & Hc & Hck).
  cbn [apply_items]. rewrite E1. cbn [mbind res_bind].
  destruct (IH to1 Hv1 Hnd) as (to2 & E2 & Hv2 & Ec2 & Ed2 & El2).
  { intros k' e He'. assert (k' <> k) as Hne by (intros ->; apply Hk; by apply (list_elem_of_fmap_2 fst) in He').
    destruct (Hl k' e ltac:(set_solver)) as [(s & Hs1 & Hs2 & Hs3) Hp']. split; [exists s; by rewrite Hc|].
    assert (forall p0, p0 ∈ locs to1 -> p0 = p \/ p0 ∈ locs to) as El1' by (intros p0 Hp0; apply El1 in Hp0; set_solver).
    intros Hin. apply El1' in Hin as [Ep|Hin]; [|done]. rewrite Ep in Hs1.
    destruct He as (s0 & Hs0 & Hk0 & _). cbn in Hs0. rewrite Hs1 in Hs0. congruence. }
  exists to2. split; [done|]. split; [done|]. split; [|split; [congruence|]].
  - rewrite Ec2. by apply applied_step.
  - intros q [Hq|(k' & a' & Hq)]%El2; [|right; exists k', a'; set_solver]. apply El1, elem_of_union in Hq as [->%elem_of_singleton|Hq]; [|by left].
    right. exists k, a. set_solver.
Qed.

Lemma list_to_map_entries {A} (m : gmap Z A) : list_to_map (entries m) = m.
Proof.
  apply map_eq. intros k. apply option_eq. intros x. rewrite <- elem_of_list_to_map by apply entries_NoDup. apply elem_of_entries.
Qed.

(** Applying a buffer in order to the view it was made over. *)
Lemma table_apply_spec σ items drops to : view_ok σ to -> table_ok U σ (contents_of σ to) items -> table_locs items ## locs to ->
  exists to', table_apply σ items drops to = Val to' /\ view_ok σ to' /\ contents_of σ to' = applied σ (contents_of σ to) items /\
    destroyed to' = destroyed to + drops /\ locs to' ⊆ locs to ∪ table_locs items.
Proof.
  intros Hv Ht Hd. destruct (raw_destroy_law σ to drops Hv) as (Hv1 & Ec1 & Ed1 & El1). unfold table_apply.
  destruct (apply_items_spec σ (entries items) (rawDestroyXRP to drops) Hv1 (entries_NoDup _)) as (to' & E & Hv' & Ec & Ed & El).
  - intros k [a p] Hi%elem_of_entries. rewrite Ec1, El1. split; [by apply Ht|]. intros Hp. apply (Hd p); [|done]. apply elem_of_table_locs. eauto.
  - exists to'. split; [done|]. split; [done|]. rewrite Ec, Ec1, list_to_map_entries. split; [done|]. split; [congruence|].
    intros p [Hp|(k & a & Hp%elem_of_entries)]%El; apply elem_of_union; [left; by rewrite El1 in Hp|right; apply elem_of_table_locs; eauto].
Qed.
End apply.
