(* ===== verification/ApplyTable.v ===== *)
(** * ApplyTable: the buffer of a sandbox ([ledger/impl/ApplyStateTable.cpp], [ApplyViewBase.cpp], [Sandbox.h])

    An [ApplyViewBase] shows a base view with the changes of its [ApplyStateTable].  A
    client gets the entry of a key with [peek], as a copy it may write to, and declares the
    change with [update] or [erase]; [insert] adds a new entry.  [apply] carries the
    changes over to another view.

    The instances at the end: such a view keeps the laws of [Views], so that it can be the base of
    another one and the target of its [apply]. *)

From stdpp Require Import base numbers list option gmap sorting.
From Stdlib Require Import ZArith Lia.
From S2P Require Import Prelude ShaMapNode Views Overlay.

Local Open Scope Z_scope.

(** ** The code *)

Inductive Action := act_cache | act_erase | act_insert | act_modify.

#[export] Instance action_effect : HasEffect Action := fun a =>
  match a with act_cache => Seen | act_erase => Removed | act_insert => Added | act_modify => Changed end.

Record ApplyStateTable := mkTable { items_ : gmap Z (Action * loc); dropsDestroyed_ : Z }.

Definition empty_table : ApplyStateTable := mkTable ∅ 0.
Definition set_items (f : gmap Z (Action * loc) -> gmap Z (Action * loc)) (t : ApplyStateTable) : ApplyStateTable :=
  mkTable (f (items_ t)) (dropsDestroyed_ t).

(** The number of changes. *)
Definition ast_size (t : ApplyStateTable) : nat :=
  length (filter (fun e => effect_of e.2.1 <> Seen) (entries (items_ t))).

Section code.
Context `{ReadViewOps V}.
Implicit Types (base : V) (t : ApplyStateTable).

Definition ast_exists (σ : heap) base t (k : Keylet) : mres bool := table_exists σ base (items_ t) k.
Definition ast_read (σ : heap) base t (k : Keylet) : mres (option SLE) := table_read σ base (items_ t) k.
Definition ast_succ (σ : heap) base t (key : Z) (last : option Z) : mres (option Z) := table_succ σ base (items_ t) key last.

(** The pointer to the buffered entry; an entry of the base is copied first. *)
Definition ast_peek (σ : heap) base t (k : Keylet) : mres (heap * ApplyStateTable * option loc) :=
  match items_ t !! k_key k with
  | None =>
    sle ← read σ base k;
    match sle with
    | None => Val (σ, t, None)
    | Some sle => let '(σ, l) := make_shared σ sle in Val (σ, set_items <[sle_key sle := (act_cache, l)]> t, Some l)
    end
  | Some (act_erase, _) => Val (σ, t, None)
  | Some (_, l) => sle ← deref σ l; Val (σ, t, if check k sle then Some l else None)
  end.

Definition ast_erase (σ : heap) t (sle : loc) : mres ApplyStateTable :=
  s ← deref σ sle;
  match items_ t !! sle_key s with
  | None => Err MapLogicError
  | Some (a, l) =>
    if negb (bool_decide (l = sle)) then Err MapLogicError else
    match a with
    | act_erase => Err MapLogicError
    | act_insert => Val (set_items (delete (sle_key s)) t)
    | act_cache | act_modify => Val (set_items <[sle_key s := (act_erase, l)]> t)
    end
  end.

Definition ast_rawErase (σ : heap) t (sle : loc) : mres ApplyStateTable :=
  s ← deref σ sle;
  match items_ t !! sle_key s with
  | None => Val (set_items <[sle_key s := (act_erase, sle)]> t)
  | Some (a, _) =>
    match a with
    | act_erase => Err MapLogicError
    | act_insert => Val (set_items (delete (sle_key s)) t)
    | act_cache | act_modify => Val (set_items <[sle_key s := (act_erase, sle)]> t)
    end
  end.

Definition ast_insert (σ : heap) t (sle : loc) : mres ApplyStateTable :=
  s ← deref σ sle;
  match items_ t !! sle_key s with
  | None => Val (set_items <[sle_key s := (act_insert, sle)]> t)
  | Some (a, _) =>
    match a with
    | act_cache | act_insert | act_modify => Err MapLogicError
    | act_erase => Val (set_items <[sle_key s := (act_modify, sle)]> t)
    end
  end.

Definition ast_replace (σ : heap) t (sle : loc) : mres ApplyStateTable :=
  s ← deref σ sle;
  match items_ t !! sle_key s with
  | None => Val (set_items <[sle_key s := (act_modify, sle)]> t)
  | Some (a, _) =>
    match a with
    | act_erase => Err MapLogicError
    | act_cache => Val (set_items <[sle_key s := (act_modify, sle)]> t)
    | act_insert | act_modify => Val (set_items <[sle_key s := (a, sle)]> t)
    end
  end.

Definition ast_update (σ : heap) t (sle : loc) : mres ApplyStateTable :=
  s ← deref σ sle;
  match items_ t !! sle_key s with
  | None => Err MapLogicError
  | Some (a, l) =>
    if negb (bool_decide (l = sle)) then Err MapLogicError else
    match a with
    | act_erase => Err MapLogicError
    | act_cache => Val (set_items <[sle_key s := (act_modify, l)]> t)
    | act_insert | act_modify => Val t
    end
  end.

Definition ast_destroyXRP t (fee : Z) : ApplyStateTable := mkTable (items_ t) (dropsDestroyed_ t + fee).

Definition ast_apply `{RawViewOps W} (σ : heap) t (to : W) : mres W := table_apply σ (items_ t) (dropsDestroyed_ t) to.
End code.

(** The view: a base and a table. *)
Record ApplyViewBase (V : Type) := mkApplyView { base_ : V; table_ : ApplyStateTable }.
Arguments mkApplyView {V}.
Arguments base_ {V}.
Arguments table_ {V}.

Definition with_table {V} (v : ApplyViewBase V) (t : ApplyStateTable) : ApplyViewBase V := mkApplyView (base_ v) t.

(** [Sandbox]: a new view over a base. *)
Definition new_sandbox {V} (base : V) : ApplyViewBase V := mkApplyView base empty_table.

Section view.
Context {V : Type} `{ReadViewOps V}.
Implicit Types (v : ApplyViewBase V).

#[export] Instance apply_read_ops : ReadViewOps (ApplyViewBase V) := {|
  exists_ := fun σ v k => ast_exists σ (base_ v) (table_ v) k;
  read := fun σ v k => ast_read σ (base_ v) (table_ v) k;
  succ := fun σ v key last => ast_succ σ (base_ v) (table_ v) key last
|}.

#[export] Instance apply_raw_ops : RawViewOps (ApplyViewBase V) := {|
  rawErase := fun σ v sle => t ← ast_rawErase σ (table_ v) sle; Val (with_table v t);
  rawInsert := fun σ v sle => t ← ast_insert σ (table_ v) sle; Val (with_table v t);
  rawReplace := fun σ v sle => t ← ast_replace σ (table_ v) sle; Val (with_table v t);
  rawDestroyXRP := fun v fee => with_table v (ast_destroyXRP (table_ v) fee)
|}.

Definition peek (σ : heap) v (k : Keylet) : mres (heap * ApplyViewBase V * option loc) :=
  '(σ, t, l) ← ast_peek σ (base_ v) (table_ v) k; Val (σ, with_table v t, l).
Definition erase (σ : heap) v (sle : loc) : mres (ApplyViewBase V) := t ← ast_erase σ (table_ v) sle; Val (with_table v t).
Definition insert_sle (σ : heap) v (sle : loc) : mres (ApplyViewBase V) := t ← ast_insert σ (table_ v) sle; Val (with_table v t).
Definition update (σ : heap) v (sle : loc) : mres (ApplyViewBase V) := t ← ast_update σ (table_ v) sle; Val (with_table v t).

(** [Sandbox::apply]. *)
Definition sandbox_apply `{RawViewOps W} (σ : heap) v (to : W) : mres W := ast_apply σ (table_ v) to.
End view.

(** ** The laws of the view *)

Section laws.
Context {V : Type} {U : SLE -> Prop} `{HL : ReadViewLaws V U}.
Implicit Types (v : ApplyViewBase V).

#[export] Instance apply_model : ViewModel (ApplyViewBase V) := {|
  contents_of := fun σ v => shown σ (contents_of σ (base_ v)) (items_ (table_ v));
  locs := fun v => locs (base_ v) ∪ table_locs (items_ (table_ v));
  destroyed := fun v => dropsDestroyed_ (table_ v)
|}.

Definition apply_ok (σ : heap) v : Prop := overlay_ok (U := U) σ (base_ v) (items_ (table_ v)).

#[export] Instance apply_read_laws : ReadViewLaws (ApplyViewBase V) U.
Proof.
  refine {| view_ok := apply_ok |}.
  - intros σ v k s (Hv & Ht & _). apply (shown_entries U); [done|]. intros s'. by apply view_entries.
  - intros σ v l. apply overlay_locs.
  - intros σ σ' v. apply overlay_frame.
  - intros σ v k (Hv & Ht & _). by apply (table_read_spec (U := U)).
  - intros σ v k (Hv & Ht & _). by apply (table_exists_spec (U := U)).
  - intros σ v key last (Hv & Ht & _). by apply (table_succ_spec (U := U)).
Defined.

Lemma table_set σ v k a l s c : apply_ok σ v -> entry_ok U σ (contents_of σ (base_ v)) k (a, l) -> σ !! l = Some s -> l ∉ locs v ->
  c = (if is_removed (a, l) then delete k (contents_of σ v) else <[k := s]> (contents_of σ v)) ->
  raw_result (U := U) σ v l c (Val (with_table v (set_items <[k := (a, l)]> (table_ v)))).
Proof.
  intros Hv He Hl Hb ->. cbn in Hb. destruct (overlay_set σ (base_ v) (items_ (table_ v)) k a l s Hv He Hl) as (Hv' & Hs & Ec); [set_solver|].
  eexists. split; [done|]. split; [done|]. split; [done|]. split; [done|]. cbn. set_solver.
Qed.

Lemma table_drop σ v k l : apply_ok σ v -> contents_of σ (base_ v) !! k = None ->
  raw_result (U := U) σ v l (delete k (contents_of σ v)) (Val (with_table v (set_items (delete k) (table_ v)))).
Proof.
  intros Hv Hk. destruct (overlay_drop σ (base_ v) (items_ (table_ v)) k Hv Hk) as (Hv' & Hs & Ec).
  eexists. split; [done|]. split; [done|]. split; [done|]. split; [done|]. cbn. set_solver.
Qed.

(** An entry the view shows is in the base or new, and the table can be set accordingly. *)
#[export] Instance apply_raw_laws : RawViewLaws (ApplyViewBase V) U.
Proof.
  split.
  - intros σ v l s Hv Hl Hn Hs. cbn [rawErase apply_raw_ops]. unfold ast_rawErase, deref. rewrite Hl. cbn [mbind res_bind].
    pose proof (view_entries (U := U) σ v (sle_key s)) as Hr. destruct Hs as [s0 Hs]. destruct (Hr s0 Hv Hs) as [_ Hkr]. clear Hr.
    pose proof (overlay_shows _ _ _ (sle_key s) Hv) as Hsh. cbn in Hs. rewrite Hs in Hsh.
    destruct (items_ (table_ v) !! sle_key s) as [[a l0]|] eqn:Ei; [destruct a; cbn in Hsh |- *|cbn].
    2: by destruct Hsh.
    2: apply table_drop; [done|]; apply Hsh.
    all: eapply table_set; [done| |done|done|done]; apply entry_ok_old; first [done | apply Hsh | by rewrite <- Hsh].
  - intros σ v l s Hv Hl Hn HU Hkr Hs. cbn [rawInsert apply_raw_ops]. unfold ast_insert, deref. rewrite Hl. cbn [mbind res_bind].
    pose proof (overlay_shows _ _ _ (sle_key s) Hv) as Hsh. cbn in Hs. rewrite Hs in Hsh.
    destruct (items_ (table_ v) !! sle_key s) as [[a l0]|] eqn:Ei; [destruct a; cbn in Hsh |- *|cbn]; try (by destruct Hsh).
    + eapply table_set; [done| |done|done|done]. apply entry_ok_old; try done. apply Hsh.
    + eapply table_set; [done| |done|done|done]. by apply entry_ok_new.
  - intros σ v l s Hv Hl Hn HU Hs. cbn [rawReplace apply_raw_ops]. unfold ast_replace, deref. rewrite Hl. cbn [mbind res_bind].
    pose proof (view_entries (U := U) σ v (sle_key s)) as Hr. destruct Hs as [s0 Hs]. destruct (Hr s0 Hv Hs) as [_ Hkr]. clear Hr.
    pose proof (overlay_shows _ _ _ (sle_key s) Hv) as Hsh. cbn in Hs. rewrite Hs in Hsh.
    destruct (items_ (table_ v) !! sle_key s) as [[a l0]|] eqn:Ei; [destruct a; cbn in Hsh |- *|cbn].
    2: by destruct Hsh.
    all: eapply table_set; [done| |done|done|done].
    2: by apply entry_ok_new; [..|apply Hsh| |].
    all: apply entry_ok_old; first [done | apply Hsh | by rewrite <- Hsh].
  - intros σ v fee Hv. done.
Qed.

(** ** The operations of a client *)

(** The table points to the entry of the key with [l]. *)
Definition holds v (k : Z) (l : loc) : Prop := exists a, items_ (table_ v) !! k = Some (a, l) /\ a <> act_erase.

(** Cached entries are as in the base. *)
Definition caches_clean (σ : heap) v : Prop :=
  forall k l, items_ (table_ v) !! k = Some (act_cache, l) -> σ !! l = contents_of σ (base_ v) !! k.

Lemma holds_shown σ v k l : holds v k l -> contents_of σ v !! k = σ !! l.
Proof. intros (a & Hi & Ha). cbn. rewrite shown_lookup, Hi. by destruct a. Qed.

Lemma holds_key σ v k l s : apply_ok σ v -> holds v k l -> σ !! l = Some s -> sle_key s = k.
Proof. intros (_ & Ht & _) (a & Hi & _) Hl. destruct (Ht _ _ Hi) as (s' & Hl' & Hk & _). cbn in Hl'. congruence. Qed.

(** With clean caches a view shows what applying it gives. *)
Lemma applied_shown σ v : apply_ok σ v -> caches_clean σ v ->
  applied σ (contents_of σ (base_ v)) (items_ (table_ v)) = contents_of σ v.
Proof.
  intros Hv Hc. apply map_eq. intros k. cbn. rewrite applied_lookup, shown_lookup. destruct (items_ (table_ v) !! k) as [[a l]|] eqn:Ei; [|done].
  destruct a; cbn; [|done..]. symmetry. by apply Hc.
Qed.

(** A new pointer changes nothing. *)
Lemma alloc_ok σ v s σ' l : apply_ok σ v -> make_shared σ s = (σ', l) ->
  σ' !! l = Some s /\ (l ∉ locs v) /\ apply_ok σ' v /\ contents_of σ' v = contents_of σ v /\ contents_of σ' (base_ v) = contents_of σ (base_ v) /\
  (caches_clean σ v -> caches_clean σ' v).
Proof.
  intros Hv [= <- <-]. pose proof (view_locs (U := U) σ v (fresh_loc σ)) as Hf. pose proof (view_frame (U := U) σ (<[fresh_loc σ := s]> σ) v) as Hfr.
  assert (fresh_loc σ ∉ locs v) as Hn by (intros Hl; destruct (Hf Hv Hl) as [s' Hs']; by rewrite fresh_loc_free in Hs').
  assert (forall l, l ∈ locs v -> ((<[fresh_loc σ := s]> σ) : heap) !! l = σ !! l) as Hsame by (intros l Hl; rewrite lookup_insert_ne by congruence; done).
  destruct (Hfr Hsame Hv) as [Hv' Ec].
  destruct (view_frame (U := U) σ (<[fresh_loc σ := s]> σ) (base_ v)) as [_ Eb]; [intros l Hl; apply Hsame; cbn; set_solver|apply Hv|].
  split; [apply lookup_insert_eq|]. split; [done|]. split; [done|]. split; [done|]. split; [done|].
  intros Hc k l Hi. rewrite Eb, Hsame; [by apply Hc|]. cbn. apply elem_of_union. right. apply elem_of_table_locs. eauto.
Qed.

Lemma peek_spec σ v k : apply_ok σ v -> caches_clean σ v -> key_range (k_key k) ->
  exists σ' v' o, peek σ v k = Val (σ', v', o) /\ apply_ok σ' v' /\ caches_clean σ' v' /\ base_ v' = base_ v /\ contents_of σ' v' = contents_of σ v /\
    contents_of σ' (base_ v) = contents_of σ (base_ v) /\ dropsDestroyed_ (table_ v') = dropsDestroyed_ (table_ v) /\
    match lookup_keylet (contents_of σ v) k with Some s => exists l, o = Some l /\ σ' !! l = Some s /\ holds v' (k_key k) l | None => o = None end.
Proof.
  intros Hv Hc Hk. unfold peek, ast_peek, lookup_keylet. destruct (items_ (table_ v) !! k_key k) as [[a l]|] eqn:Ei.
  - assert (contents_of σ v !! k_key k = match a with act_erase => None | _ => σ !! l end) as -> by (cbn; rewrite shown_lookup, Ei; by destruct a).
    pose proof Hv as (_ & Ht & _). destruct (Ht _ _ Ei) as (s & Hl & _). cbn in Hl. unfold deref. rewrite Hl. destruct v as [b t].
    destruct a; cbn [mbind res_bind option_bind]; eexists _, _, _; (split; [reflexivity|]); do 6 (split; [done|]); try done;
      (destruct (check k s); [|done]; exists l; split; [done|]; split; [done|]; eexists; split; [exact Ei|done]).
  - pose proof (overlay_shows σ (base_ v) (items_ (table_ v)) (k_key k) Hv) as Hs. rewrite Ei in Hs. change (shown σ _ _) with (contents_of σ v) in Hs.
    rewrite (read_law σ (base_ v) k (proj1 Hv) Hk), Hs. unfold lookup_keylet. cbn [mbind res_bind]. destruct (contents_of σ (base_ v) !! k_key k) as [s|] eqn:Eb; cbn [mbind option_bind].
    2:{ eexists _, _, _. split; [reflexivity|]. destruct v as [b t]. done. }
    destruct (check k s). 2:{ eexists _, _, _. split; [reflexivity|]. destruct v as [b t]. done. }
    destruct (view_entries _ _ _ _ (proj1 Hv) Eb) as [Hsk _]. destruct (make_shared σ s) as [σ' l] eqn:Em.
    destruct (alloc_ok σ v s σ' l Hv Em) as (Hl & Hn & Hv' & Ec & Ecb & Hcc). cbn [mbind res_bind]. eexists _, _, _. split; [reflexivity|].
    rewrite <- Hsk in *. assert (is_Some (contents_of σ' (base_ v) !! sle_key s)) as Hin by (rewrite Ecb, Eb; eauto).
    assert (entry_ok U σ' (contents_of σ' (base_ v)) (sle_key s) (act_cache, l)) as He by (by apply entry_ok_old).
    destruct (table_set σ' v (sle_key s) act_cache l s _ Hv' He Hl Hn eq_refl) as (v2 & [= <-] & Hv2 & Ec2 & _).
    split; [done|]. split; [|split; [done|]]. 2: split.
    + intros k' l' Hi. cbn in Hi. apply lookup_insert_Some in Hi as [[<- [= <-]]|[_ Hi]]; [|by apply (Hcc Hc)]. cbn. by rewrite Hl, Ecb, Eb.
    + rewrite Ec2. cbn [is_removed effect_of action_effect fst]. rewrite Ec. apply insert_id. by rewrite Hs.
    + split; [done|]. split; [done|]. exists l. split; [done|]. split; [done|]. exists act_cache. split; [|done]. cbn. by rewrite lookup_insert_eq.
Qed.

(** Writing to an entry and declaring it: the view shows the new entry. *)
Lemma write_update σ v k l s0 s : apply_ok σ v -> caches_clean σ v -> holds v k l -> σ !! l = Some s0 -> sle_key s = k -> U s ->
  let σ' := <[l := s]> σ in
  exists v', update σ' v l = Val v' /\ apply_ok σ' v' /\ caches_clean σ' v' /\ base_ v' = base_ v /\ contents_of σ' v' = <[k := s]> (contents_of σ v) /\
    contents_of σ' (base_ v) = contents_of σ (base_ v) /\ dropsDestroyed_ (table_ v') = dropsDestroyed_ (table_ v).
Proof.
  intros Hv Hc (a & Hi & Ha) Hl <- HU σ'. pose proof Hv as (Hb & Ht & Hd). set (k := sle_key s) in *.
  assert (l ∈ table_locs (items_ (table_ v))) as Hin by (apply elem_of_table_locs; eauto).
  assert (forall k' a' l', items_ (table_ v) !! k' = Some (a', l') -> k' <> k -> l' <> l) as Hother.
  { intros k' a' l' Hi' Hne ->. destruct (Ht _ _ Hi) as (s1 & E1 & K1 & _), (Ht _ _ Hi') as (s2 & E2 & K2 & _). cbn in *. congruence. }
  destruct (view_frame σ σ' (base_ v)) as [Hb' Ecb]; [intros l' Hl'; unfold σ'; rewrite lookup_insert_ne; [done|]; intros <-; by apply (Hd l)|done|].
  destruct (Ht _ _ Hi) as (s1 & E1 & K1 & Kr & Ka & _). cbn in E1, Ka.
  set (a' := match a with act_cache => act_modify | _ => a end). set (items' := <[k := (a', l)]> (items_ (table_ v))).
  assert (exists v', update σ' v l = Val v' /\ items_ (table_ v') = items' /\ base_ v' = base_ v /\ dropsDestroyed_ (table_ v') = dropsDestroyed_ (table_ v)) as (v' & Eu & Eit & Ebs & Edr).
  { unfold update, ast_update, deref, σ'. rewrite lookup_insert_eq. cbn [mbind res_bind]. fold k. rewrite Hi, bool_decide_eq_true_2 by done. cbn [negb].
    destruct v as [b t], a; cbn [mbind res_bind]; try done; eexists; (split; [reflexivity|]); (split; [|done]); cbn; unfold items'; try done; by rewrite insert_id. }
  assert (forall k', k' <> k -> items' !! k' = items_ (table_ v) !! k') as Hit by (intros k' Hne; unfold items'; by rewrite lookup_insert_ne by congruence).
  exists v'. split; [done|]. split; [|split; [|split; [done|split; [|done]]]].
  - split; [by rewrite Ebs|]. rewrite Eit, Ebs, Ecb. split.
    + intros k' [a1 l1] Hi'. destruct (decide (k' = k)) as [->|Hne].
      * unfold items' in Hi'. rewrite lookup_insert_eq in Hi'. injection Hi' as <- <-. exists s. cbn. unfold σ'. rewrite lookup_insert_eq. split; [done|]. split; [done|].
        split; [done|]. split; [|done]. unfold a'. destruct a; cbn in *; [|done|done|done]. split; [done|]. intros E. by apply Ka in E.
      * rewrite Hit in Hi' by done. destruct (Ht _ _ Hi') as (s2 & E2 & H2). exists s2. cbn in *. unfold σ'. rewrite lookup_insert_ne by (symmetry; by eapply Hother). done.
    + intros l' (k' & a1 & Hi')%elem_of_table_locs Hl'. unfold items' in Hi'. apply lookup_insert_Some in Hi' as [[_ [= _ ->]]|[_ Hi']]; [by apply (Hd l')|].
      apply (Hd l'); [apply elem_of_table_locs; eauto|done].
  - intros k' l' Hi'. rewrite Eit in Hi'. rewrite Ebs, Ecb. destruct (decide (k' = k)) as [->|Hne].
    + unfold items' in Hi'. rewrite lookup_insert_eq in Hi'. unfold a' in Hi'. by destruct a.
    + rewrite Hit in Hi' by done. unfold σ'. rewrite lookup_insert_ne by (symmetry; by eapply Hother). by apply Hc.
  - cbn. rewrite Ebs, Ecb, Eit. apply map_eq. intros k'. rewrite shown_lookup. destruct (decide (k' = k)) as [->|Hne].
    + unfold items'. rewrite !lookup_insert_eq. unfold a'. destruct a; cbn; unfold σ'; try (by rewrite lookup_insert_eq); done.
    + rewrite Hit, lookup_insert_ne, shown_lookup by done. unfold show. destruct (items_ (table_ v) !! k') as [[a1 l1]|] eqn:Hi'; [|done].
      unfold σ'. by rewrite lookup_insert_ne by (symmetry; by eapply Hother).
Qed.

Lemma erase_spec σ v k l s : apply_ok σ v -> caches_clean σ v -> holds v k l -> σ !! l = Some s ->
  exists v', erase σ v l = Val v' /\ apply_ok σ v' /\ caches_clean σ v' /\ base_ v' = base_ v /\ contents_of σ v' = delete k (contents_of σ v) /\
    dropsDestroyed_ (table_ v') = dropsDestroyed_ (table_ v).
Proof.
  intros Hv Hc (a & Hi & Ha) Hl. pose proof Hv as (Hb & Ht & Hd). destruct (Ht _ _ Hi) as (s1 & E1 & K1 & Kr & Ka & _). cbn in E1, Ka.
  assert (s1 = s) as -> by congruence. unfold erase, ast_erase, deref. rewrite Hl. cbn [mbind res_bind]. rewrite K1, Hi, bool_decide_eq_true_2 by done. cbn [negb].
  assert (l ∉ locs (base_ v)) as Hn by (intros Hl'; apply (Hd l); [apply elem_of_table_locs; eauto|done]).
  assert (forall a0, a = act_cache \/ a = act_modify -> a0 = act_erase -> entry_ok U σ (contents_of σ (base_ v)) k (a0, l)) as He.
  { intros a0 Hor ->. rewrite <- K1 in *. apply entry_ok_old; try done. apply not_eq_None_Some. intros E. apply Ka in E. by destruct Hor as [-> | ->]. }
  destruct a; [|done| |].
  1, 3: destruct (overlay_set σ (base_ v) (items_ (table_ v)) k act_erase l s Hv (He _ ltac:(auto) eq_refl) Hl Hn) as (Hv' & _ & Ec).
  1, 2: eexists; (split; [reflexivity|]); (split; [done|]); (split; [|split; [done|split; [exact Ec|done]]]); intros k' l' Hi'; cbn in Hi';
    apply lookup_insert_Some in Hi' as [[_ [=]]|[_ Hi']]; by apply Hc.
  destruct (overlay_drop σ (base_ v) (items_ (table_ v)) k Hv) as (Hv' & _ & Ec); [by apply Ka|].
  eexists. split; [reflexivity|]. split; [done|]. split; [|split; [done|split; [exact Ec|done]]]. intros k' l' Hi'. cbn in Hi'. apply lookup_delete_Some in Hi' as [_ Hi']. by apply Hc.
Qed.

Lemma insert_spec σ v l s : apply_ok σ v -> caches_clean σ v -> σ !! l = Some s -> l ∉ locs v -> U s -> key_range (sle_key s) -> contents_of σ v !! sle_key s = None ->
  exists v', insert_sle σ v l = Val v' /\ apply_ok σ v' /\ caches_clean σ v' /\ base_ v' = base_ v /\ contents_of σ v' = <[sle_key s := s]> (contents_of σ v) /\
    dropsDestroyed_ (table_ v') = dropsDestroyed_ (table_ v).
Proof.
  intros Hv Hc Hl Hn HU Hk Hs. pose proof (raw_insert_law (U := U) σ v l s) as Hr. destruct (Hr Hv Hl Hn HU Hk Hs) as (v' & E & Hv' & Ec & Ed & _).
  exists v'. split; [done|]. split; [done|]. cbn in E. unfold ast_insert, deref in E. rewrite Hl in E. cbn [mbind res_bind] in E.
  destruct (items_ (table_ v) !! sle_key s) as [[[] l0]|]; cbn in E; try done; injection E as <-.
  all: split; [|split; [done|split; [exact Ec|done]]]; intros k' l' Hi'; cbn in Hi'; apply lookup_insert_Some in Hi' as [[_ [=]]|[_ Hi']]; by apply Hc.
Qed.
End laws.
