(* ===== verification/RawTable.v ===== *)
(** * RawTable: the buffer of an open view ([ledger/impl/RawStateTable.cpp], [OpenView.cpp])

    An [OpenView] shows a base view with the raw changes of its [RawStateTable], and the
    transactions added to it.  Sandboxes apply their changes to it, and it is applied to the
    ledger under construction.  Its range of entries, [sles], merges the entries of the
    base with those of the table.

    The theorems: an open view keeps the laws of [Views]; the range visits exactly the
    entries the view shows, in the order of their keys. *)

From stdpp Require Import base numbers list option gmap sorting.
From Stdlib Require Import ZArith Lia.
From S2P Require Import Prelude ShaMapNode Views Overlay.

Local Open Scope Z_scope.

(** ** The code *)

Inductive RawAction := raw_erase | raw_insert | raw_replace.

#[export] Instance raw_effect : HasEffect RawAction := fun a =>
  match a with raw_erase => Removed | raw_insert => Added | raw_replace => Changed end.

Record RawStateTable := mkRawTable { raw_items : gmap Z (RawAction * loc); raw_drops : Z }.

Definition set_raw_items (f : gmap Z (RawAction * loc) -> gmap Z (RawAction * loc)) (t : RawStateTable) : RawStateTable :=
  mkRawTable (f (raw_items t)) (raw_drops t).

Section code.
Context `{ReadViewOps V}.
Implicit Types (base : V) (t : RawStateTable).

Definition rst_exists (σ : heap) base t (k : Keylet) : mres bool := table_exists σ base (raw_items t) k.
Definition rst_read (σ : heap) base t (k : Keylet) : mres (option SLE) := table_read σ base (raw_items t) k.
Definition rst_succ (σ : heap) base t (key : Z) (last : option Z) : mres (option Z) := table_succ σ base (raw_items t) key last.

Definition rst_erase (σ : heap) t (sle : loc) : mres RawStateTable :=
  s ← deref σ sle;
  match raw_items t !! sle_key s with
  | None => Val (set_raw_items <[sle_key s := (raw_erase, sle)]> t)
  | Some (raw_erase, _) => Err MapLogicError
  | Some (raw_insert, _) => Val (set_raw_items (delete (sle_key s)) t)
  | Some (raw_replace, _) => Val (set_raw_items <[sle_key s := (raw_erase, sle)]> t)
  end.

Definition rst_insert (σ : heap) t (sle : loc) : mres RawStateTable :=
  s ← deref σ sle;
  match raw_items t !! sle_key s with
  | None => Val (set_raw_items <[sle_key s := (raw_insert, sle)]> t)
  | Some (raw_erase, _) => Val (set_raw_items <[sle_key s := (raw_replace, sle)]> t)
  | Some (raw_insert, _) | Some (raw_replace, _) => Err MapLogicError
  end.

Definition rst_replace (σ : heap) t (sle : loc) : mres RawStateTable :=
  s ← deref σ sle;
  match raw_items t !! sle_key s with
  | None => Val (set_raw_items <[sle_key s := (raw_replace, sle)]> t)
  | Some (raw_erase, _) => Err MapLogicError
  | Some (a, _) => Val (set_raw_items <[sle_key s := (a, sle)]> t)
  end.

Definition rst_destroyXRP t (fee : Z) : RawStateTable := mkRawTable (raw_items t) (raw_drops t + fee).

Definition rst_apply `{RawViewOps W} (σ : heap) t (to : W) : mres W := table_apply σ (raw_items t) (raw_drops t) to.
End code.

(** ** The view *)

(** Transactions: serialized, with metadata in a closed ledger. *)
Abbreviation txs_map := (gmap Z (list Z * option (list Z))).

Class TxsRawOps (V : Type) := {
  rawTxInsert : V -> Z -> list Z -> option (list Z) -> mres V
}.

Record OpenView (V : Type) := mkOpenView { ov_base : V; ov_items : RawStateTable; ov_txs : txs_map }.
Arguments mkOpenView {V}.
Arguments ov_base {V}.
Arguments ov_items {V}.
Arguments ov_txs {V}.

Definition new_open_view {V} (base : V) : OpenView V := mkOpenView base (mkRawTable ∅ 0) ∅.
Definition with_items {V} (v : OpenView V) (t : RawStateTable) : OpenView V := mkOpenView (ov_base v) t (ov_txs v).

Definition txCount {V} (v : OpenView V) : nat := size (ov_txs v).
Definition txExists {V} (v : OpenView V) (key : Z) : bool := bool_decide (is_Some (ov_txs v !! key)).

Section view.
Context {V : Type} `{ReadViewOps V}.
Implicit Types (v : OpenView V).

#[export] Instance open_read_ops : ReadViewOps (OpenView V) := {|
  exists_ := fun σ v k => rst_exists σ (ov_base v) (ov_items v) k;
  read := fun σ v k => rst_read σ (ov_base v) (ov_items v) k;
  succ := fun σ v key last => rst_succ σ (ov_base v) (ov_items v) key last
|}.

#[export] Instance open_raw_ops : RawViewOps (OpenView V) := {|
  rawErase := fun σ v sle => t ← rst_erase σ (ov_items v) sle; Val (with_items v t);
  rawInsert := fun σ v sle => t ← rst_insert σ (ov_items v) sle; Val (with_items v t);
  rawReplace := fun σ v sle => t ← rst_replace σ (ov_items v) sle; Val (with_items v t);
  rawDestroyXRP := fun v fee => with_items v (rst_destroyXRP (ov_items v) fee)
|}.

#[export] Instance open_txs_ops : TxsRawOps (OpenView V) := {|
  rawTxInsert := fun v key txn metaData =>
    match ov_txs v !! key with
    | Some _ => Err MapLogicError
    | None => Val (mkOpenView (ov_base v) (ov_items v) (<[key := (txn, metaData)]> (ov_txs v)))
    end
|}.

Fixpoint insert_txs `{TxsRawOps W} (txs : list (Z * (list Z * option (list Z)))) (to : W) : mres W :=
  match txs with
  | [] => Val to
  | (key, (txn, metaData)) :: txs => to ← rawTxInsert to key txn metaData; insert_txs txs to
  end.

(** [OpenView::apply]. *)
Definition open_apply `{RawViewOps W, !TxsRawOps W} (σ : heap) v (to : W) : mres W :=
  to ← rst_apply σ (ov_items v) to; insert_txs (entries (ov_txs v)) to.
End view.

(** ** The laws of the view *)

Section laws.
Context {V : Type} {U : SLE -> Prop} `{HL : ReadViewLaws V U}.
Implicit Types (v : OpenView V).

#[export] Instance open_model : ViewModel (OpenView V) := {|
  contents_of := fun σ v => shown σ (contents_of σ (ov_base v)) (raw_items (ov_items v));
  locs := fun v => locs (ov_base v) ∪ table_locs (raw_items (ov_items v));
  destroyed := fun v => raw_drops (ov_items v)
|}.

Definition open_ok (σ : heap) v : Prop := overlay_ok (U := U) σ (ov_base v) (raw_items (ov_items v)).

#[export] Instance open_read_laws : ReadViewLaws (OpenView V) U.
Proof.
  refine {| view_ok := open_ok |}.
  - intros σ v k s (Hv & Ht & _). apply (shown_entries U); [done|]. intros s'. by apply view_entries.
  - intros σ v l. apply overlay_locs.
  - intros σ σ' v. apply overlay_frame.
  - intros σ v k (Hv & Ht & _). by apply (table_read_spec (U := U)).
  - intros σ v k (Hv & Ht & _). by apply (table_exists_spec (U := U)).
  - intros σ v key last (Hv & Ht & _). by apply (table_succ_spec (U := U)).
Defined.

Lemma raw_set σ v k a l s c : open_ok σ v -> entry_ok U σ (contents_of σ (ov_base v)) k (a, l) -> σ !! l = Some s -> l ∉ locs v ->
  c = (if is_removed (a, l) then delete k (contents_of σ v) else <[k := s]> (contents_of σ v)) ->
  raw_result (U := U) σ v l c (Val (with_items v (set_raw_items <[k := (a, l)]> (ov_items v)))).
Proof.
  intros Hv He Hl Hb ->. cbn in Hb. destruct (overlay_set σ (ov_base v) (raw_items (ov_items v)) k a l s Hv He Hl) as (Hv' & Hs & Ec); [set_solver|].
  eexists. split; [done|]. split; [done|]. split; [done|]. split; [done|]. cbn. set_solver.
Qed.

Lemma raw_drop σ v k l : open_ok σ v -> contents_of σ (ov_base v) !! k = None ->
  raw_result (U := U) σ v l (delete k (contents_of σ v)) (Val (with_items v (set_raw_items (delete k) (ov_items v)))).
Proof.
  intros Hv Hk. destruct (overlay_drop σ (ov_base v) (raw_items (ov_items v)) k Hv Hk) as (Hv' & Hs & Ec).
  eexists. split; [done|]. split; [done|]. split; [done|]. split; [done|]. cbn. set_solver.
Qed.

#[export] Instance open_raw_laws : RawViewLaws (OpenView V) U.
Proof.
  split.
  - intros σ v l s Hv Hl Hn Hs. cbn [rawErase open_raw_ops]. unfold rst_erase, deref. rewrite Hl. cbn [mbind res_bind].
    pose proof (view_entries (U := U) σ v (sle_key s)) as Hr. destruct Hs as [s0 Hs]. destruct (Hr s0 Hv Hs) as [_ Hkr]. clear Hr.
    pose proof (overlay_shows _ _ _ (sle_key s) Hv) as Hsh. cbn in Hs. rewrite Hs in Hsh.
    destruct (raw_items (ov_items v) !! sle_key s) as [[a l0]|] eqn:Ei; [destruct a; cbn in Hsh |- *|cbn].
    1: by destruct Hsh.
    1: apply raw_drop; [done|]; apply Hsh.
    all: eapply raw_set; [done| |done|done|done]; apply entry_ok_old; first [done | apply Hsh | by rewrite <- Hsh].
  - intros σ v l s Hv Hl Hn HU Hkr Hs. cbn [rawInsert open_raw_ops]. unfold rst_insert, deref. rewrite Hl. cbn [mbind res_bind].
    pose proof (overlay_shows _ _ _ (sle_key s) Hv) as Hsh. cbn in Hs. rewrite Hs in Hsh.
    destruct (raw_items (ov_items v) !! sle_key s) as [[a l0]|] eqn:Ei; [destruct a; cbn in Hsh |- *|cbn]; try (by destruct Hsh).
    + eapply raw_set; [done| |done|done|done]. apply entry_ok_old; try done. apply Hsh.
    + eapply raw_set; [done| |done|done|done]. by apply entry_ok_new.
  - intros σ v l s Hv Hl Hn HU Hs. cbn [rawReplace open_raw_ops]. unfold rst_replace, deref. rewrite Hl. cbn [mbind res_bind].
    pose proof (view_entries (U := U) σ v (sle_key s)) as Hr. destruct Hs as [s0 Hs]. destruct (Hr s0 Hv Hs) as [_ Hkr]. clear Hr.
    pose proof (overlay_shows _ _ _ (sle_key s) Hv) as Hsh. cbn in Hs. rewrite Hs in Hsh.
    destruct (raw_items (ov_items v) !! sle_key s) as [[a l0]|] eqn:Ei; [destruct a; cbn in Hsh |- *|cbn].
    1: by destruct Hsh.
    all: eapply raw_set; [done| |done|done|done].
    1: by apply entry_ok_new; [..|apply Hsh| |].
    all: apply entry_ok_old; first [done | apply Hsh | by rewrite <- Hsh].
  - intros σ v fee Hv. done.
Qed.
End laws.

(** ** The range of entries *)

Section range.
Context (σ : heap).
Abbreviation raw_entry := (Z * (RawAction * loc))%type.

(** [sles_iter_impl]: what is left of the entries of the base and of the table. *)
Record sles_iter := mkIter { iter0 : list SLE; iter1 : list raw_entry }.

(** Passes erased entries of the table with the entries of the base they erase. *)
Fixpoint skip (iter1 : list raw_entry) (iter0 : list SLE) : mres sles_iter :=
  match iter1 with
  | (_, (raw_erase, l)) :: iter1' =>
    sle1 ← deref σ l;
    match iter0 with
    | [] => Undef
    | sle0 :: iter0' =>
      if sle_key sle0 =? sle_key sle1 then
        match iter0' with [] => Val (mkIter [] iter1') | _ => skip iter1' iter0' end
      else Val (mkIter iter0 iter1)
    end
  | _ => Val (mkIter iter0 iter1)
  end.

Definition make_iter (iter1 : list raw_entry) (iter0 : list SLE) : mres sles_iter :=
  match iter1 with [] => Val (mkIter iter0 []) | _ => skip iter1 iter0 end.

Definition increment (it : sles_iter) : mres sles_iter :=
  match iter1 it, iter0 it with
  | [], [] => Undef
  | _ :: r1, [] => Val (mkIter [] r1)
  | [], _ :: r0 => Val (mkIter r0 [])
  | (_, (_, l)) :: r1, sle0 :: r0 =>
    sle1 ← deref σ l;
    if sle_key sle1 =? sle_key sle0 then skip r1 r0
    else if sle_key sle1 <? sle_key sle0 then skip r1 (iter0 it)
    else skip (iter1 it) r0
  end.

Definition dereference (it : sles_iter) : mres SLE :=
  match iter1 it, iter0 it with
  | [], [] => Undef
  | [], sle0 :: _ => Val sle0
  | (_, (_, l)) :: _, [] => deref σ l
  | (_, (_, l)) :: _, sle0 :: _ => sle1 ← deref σ l; Val (if sle_key sle1 <=? sle_key sle0 then sle1 else sle0)
  end.

(** A loop over the range up to its end. *)
Fixpoint visit_range (fuel : nat) (it : sles_iter) : mres (list SLE) :=
  match iter1 it, iter0 it with
  | [], [] => Val []
  | _, _ =>
    match fuel with
    | O => Undef
    | S fuel => s ← dereference it; it ← increment it; l ← visit_range fuel it; Val (s :: l)
    end
  end.

Definition range_size (it : sles_iter) : nat := (length (iter0 it) + length (iter1 it))%nat.

(** ** What the range visits *)

Definition key_lt (s s' : SLE) : Prop := sle_key s < sle_key s'.
Definition entry_lt (e e' : raw_entry) : Prop := e.1 < e'.1.

(** The entries left to visit. *)
Definition left_of (r1 : list raw_entry) (r0 : list SLE) (s : SLE) : Prop :=
  (s ∈ r0 /\ sle_key s ∉ r1.*1) \/ exists k a l, (k, (a, l)) ∈ r1 /\ a <> raw_erase /\ σ !! l = Some s.

Record range_ok (r1 : list raw_entry) (r0 : list SLE) : Prop := {
  range_sorted0 : StronglySorted key_lt r0;
  range_sorted1 : StronglySorted entry_lt r1;
  range_deref k a l : (k, (a, l)) ∈ r1 -> exists s, σ !! l = Some s /\ sle_key s = k;
  range_erased k l : (k, (raw_erase, l)) ∈ r1 -> exists s, s ∈ r0 /\ sle_key s = k
}.

(** No erased entry is next to the entry it erases. *)
Definition skipped (r1 : list raw_entry) (r0 : list SLE) : Prop :=
  match r1, r0 with (k, (raw_erase, _)) :: _, s :: _ => sle_key s <> k | _, _ => True end.

Lemma range_above0 s r0 s' : StronglySorted key_lt (s :: r0) -> s' ∈ r0 -> sle_key s < sle_key s'.
Proof. intros Hs Hi. inversion Hs as [|? ? _ Hf]; subst. rewrite Forall_forall in Hf. by apply Hf. Qed.

Lemma range_above1 e r1 e' : StronglySorted entry_lt (e :: r1) -> e' ∈ r1 -> e.1 < e'.1.
Proof. intros Hs Hi. inversion Hs as [|? ? _ Hf]; subst. rewrite Forall_forall in Hf. by apply Hf. Qed.

Lemma sorted_tail {A} (R : A -> A -> Prop) x l : StronglySorted R (x :: l) -> StronglySorted R l.
Proof. by inversion 1. Qed.

(** Dropping an entry of both lists, of the table, or of the base. *)
Lemma range_ok_both k a l r1 s0 r0 : range_ok ((k, (a, l)) :: r1) (s0 :: r0) -> sle_key s0 = k -> range_ok r1 r0.
Proof.
  intros [S0 S1 Hd He] Hk. split; [by eapply sorted_tail|by eapply sorted_tail| |].
  - intros k' a' l' Hi. eapply Hd. right. exact Hi.
  - intros k' l' Hi. destruct (He k' l') as (s & Hs & Hks); [by right|]. pose proof (range_above1 _ _ _ S1 Hi) as Hlt. cbn in Hlt.
    apply elem_of_cons in Hs as [->|Hs]; [lia|by exists s].
Qed.

Lemma range_ok_table k a l r1 r0 : range_ok ((k, (a, l)) :: r1) r0 -> range_ok r1 r0.
Proof.
  intros [S0 S1 Hd He]. split; [done|by eapply sorted_tail| |].
  - intros k' a' l' Hi. eapply Hd. right. exact Hi.
  - intros k' l' Hi. apply (He k' l'). by right.
Qed.

Lemma range_ok_base r1 s0 r0 : range_ok r1 (s0 :: r0) -> (forall e, e ∈ r1 -> sle_key s0 < e.1) -> range_ok r1 r0.
Proof.
  intros [S0 S1 Hd He] Hlt. split; [by eapply sorted_tail|done|done|].
  intros k l Hi. destruct (He k l Hi) as (s & Hs & Hk). specialize (Hlt _ Hi). cbn in Hlt. apply elem_of_cons in Hs as [->|Hs]; [lia|by exists s].
Qed.

Lemma skip_spec r1 : forall r0, range_ok r1 r0 -> exists it, skip r1 r0 = Val it /\ range_ok (iter1 it) (iter0 it) /\ skipped (iter1 it) (iter0 it) /\
  (forall s, left_of (iter1 it) (iter0 it) s <-> left_of r1 r0 s) /\ (range_size it <= length r0 + length r1)%nat.
Proof.
  assert (forall r1 r0, range_ok r1 r0 -> skipped r1 r0 -> exists it, Val (E := map_error) (mkIter r0 r1) = Val it /\ range_ok (iter1 it) (iter0 it) /\ skipped (iter1 it) (iter0 it) /\
    (forall s, left_of (iter1 it) (iter0 it) s <-> left_of r1 r0 s) /\ (range_size it <= length r0 + length r1)%nat) as Hstay
    by (intros; eexists; split; [reflexivity|]; cbn; done).
  induction r1 as [|[k [a l]] r1 IH]; intros r0 Hok; [by apply Hstay|]. destruct a; cbn [skip]; [|by apply Hstay..].
  destruct (range_deref _ _ Hok k raw_erase l) as (s1 & Hl & Hk1); [by left|]. unfold deref. rewrite Hl. cbn [mbind res_bind].
  destruct r0 as [|s0 r0].
  { destruct (range_erased _ _ Hok k l) as (s & Hs & _); [by left|]. by apply not_elem_of_nil in Hs. }
  rewrite Hk1. destruct (Z.eqb_spec (sle_key s0) k) as [Ek|Ek]; [|by apply Hstay].
  pose proof (range_ok_both _ _ _ _ _ _ Hok Ek) as Hok'.
  assert (forall s, left_of r1 r0 s <-> left_of ((k, (raw_erase, l)) :: r1) (s0 :: r0) s) as Hleft.
  { intros s. unfold left_of. rewrite fmap_cons. cbn [fst]. split.
    - intros [[Hs Hn]|(k' & a' & l' & Hi & Ha)]; [left|right; exists k', a', l'; split; [by right|done]].
      pose proof (range_above0 _ _ _ (range_sorted0 _ _ Hok) Hs). split; [by right|]. apply not_elem_of_cons. split; [lia|done].
    - intros [[Hs Hn]|(k' & a' & l' & Hi & Ha & Hs)].
      + apply not_elem_of_cons in Hn as [Hne Hn]. apply elem_of_cons in Hs as [->|Hs]; [done|by left].
      + right. apply elem_of_cons in Hi as [[= -> -> ->]|Hi]; [done|]. by exists k', a', l'. }
  destruct r0 as [|s0' r0].
  - eexists. split; [reflexivity|]. cbn [iter0 iter1]. split; [done|]. split; [|split; [done|cbn; lia]].
    destruct r1 as [|[k' [[] l']] r1]; try done.
  - destruct (IH _ Hok') as (it & E & H1 & H2 & H3 & H4). exists it. split; [done|]. split; [done|]. split; [done|]. split; [|cbn [length] in *; lia].
    intros s. by rewrite H3, Hleft.
Qed.

(** One step: the entry visited is the least of those left. *)
Definition step_post (r1 : list raw_entry) (r0 : list SLE) (r1' : list raw_entry) (r0' : list SLE) (d : SLE) : Prop :=
  range_ok r1' r0' /\ (forall s, left_of r1 r0 s <-> s = d \/ left_of r1' r0' s) /\ (forall s, left_of r1' r0' s -> key_lt d s).

Lemma left_key r1 r0 s : range_ok r1 r0 -> left_of r1 r0 s -> s ∈ r0 \/ exists e, e ∈ r1 /\ e.1 = sle_key s.
Proof.
  intros Hok [[Hs _]|(k & a & l & Hi & _ & Hl)]; [by left|right]. destruct (range_deref _ _ Hok _ _ _ Hi) as (s' & Hl' & Hk).
  exists (k, (a, l)). split; [done|]. cbn. congruence.
Qed.

(** The table has the smaller key, or both have the same. *)
Lemma step_table k a l r1 r0 s1 : range_ok ((k, (a, l)) :: r1) r0 -> σ !! l = Some s1 -> sle_key s1 = k -> a <> raw_erase ->
  (forall s, s ∈ r0 -> k < sle_key s) -> step_post ((k, (a, l)) :: r1) r0 r1 r0 s1.
Proof.
  intros Hok Hl Hk Ha Hr0. pose proof (range_ok_table _ _ _ _ _ Hok) as Hok'. split; [done|]. split.
  - intros s. unfold left_of. rewrite fmap_cons. cbn [fst]. split.
    + intros [[Hs Hn]|(k' & a' & l' & Hi & Ha' & Hs)]; [right; left; split; [done|]; apply not_elem_of_cons in Hn; apply Hn|].
      apply elem_of_cons in Hi as [[= -> -> ->]|Hi]; [left; congruence|]. right. right. by exists k', a', l'.
    + intros [->|[[Hs Hn]|(k' & a' & l' & Hi & Ha' & Hs)]].
      * right. exists k, a, l. split; [by left|done].
      * left. split; [done|]. apply not_elem_of_cons. split; [specialize (Hr0 s Hs); lia|done].
      * right. exists k', a', l'. split; [by right|done].
  - intros s Hs. destruct (left_key _ _ _ Hok' Hs) as [Hs0|(e & He & Hke)]; unfold key_lt.
    + specialize (Hr0 s Hs0). lia.
    + pose proof (range_above1 _ _ _ (range_sorted1 _ _ Hok) He) as Hlt. cbn in Hlt. lia.
Qed.

Lemma step_base s0 r1 r0 : range_ok r1 (s0 :: r0) -> (forall e, e ∈ r1 -> sle_key s0 < e.1) -> step_post r1 (s0 :: r0) r1 r0 s0.
Proof.
  intros Hok Hr1. pose proof (range_ok_base _ _ _ Hok Hr1) as Hok'. split; [done|]. split.
  - intros s. unfold left_of. split.
    + intros [[Hs Hn]|Hs]; [apply elem_of_cons in Hs as [->|Hs]; [by left|right; by left]|right; by right].
    + intros [->|[[Hs Hn]|Hs]]; [left; split; [by left|]|left; split; [by right|done]|by right].
      intros (e & Hke & He)%list_elem_of_fmap. specialize (Hr1 e He). lia.
  - intros s Hs. destruct (left_key _ _ _ Hok' Hs) as [Hs0|(e & He & Hke)]; unfold key_lt.
    + by apply (range_above0 _ _ _ (range_sorted0 _ _ Hok)).
    + specialize (Hr1 e He). lia.
Qed.

Lemma step_both k a l r1 s0 r0 s1 : range_ok ((k, (a, l)) :: r1) (s0 :: r0) -> σ !! l = Some s1 -> sle_key s1 = k -> a <> raw_erase -> sle_key s0 = k ->
  step_post ((k, (a, l)) :: r1) (s0 :: r0) r1 r0 s1.
Proof.
  intros Hok Hl Hk Ha Hk0. pose proof (range_ok_both _ _ _ _ _ _ Hok Hk0) as Hok'. split; [done|]. split.
  - intros s. unfold left_of. rewrite fmap_cons. cbn [fst]. split.
    + intros [[Hs Hn]|(k' & a' & l' & Hi & Ha' & Hs)].
      * apply not_elem_of_cons in Hn as [Hne Hn]. apply elem_of_cons in Hs as [->|Hs]; [done|]. right. by left.
      * apply elem_of_cons in Hi as [[= -> -> ->]|Hi]; [left; congruence|]. right. right. by exists k', a', l'.
    + intros [->|[[Hs Hn]|(k' & a' & l' & Hi & Ha' & Hs)]].
      * right. exists k, a, l. split; [by left|done].
      * left. pose proof (range_above0 _ _ _ (range_sorted0 _ _ Hok) Hs). split; [by right|]. apply not_elem_of_cons. split; [lia|done].
      * right. exists k', a', l'. split; [by right|done].
  - intros s Hs. destruct (left_key _ _ _ Hok' Hs) as [Hs0|(e & He & Hke)]; unfold key_lt.
    + pose proof (range_above0 _ _ _ (range_sorted0 _ _ Hok) Hs0). lia.
    + pose proof (range_above1 _ _ _ (range_sorted1 _ _ Hok) He) as Hlt. cbn in Hlt. lia.
Qed.

Definition moved (it : sles_iter) (d : SLE) (it' : sles_iter) : Prop :=
  range_ok (iter1 it') (iter0 it') /\ skipped (iter1 it') (iter0 it') /\ (range_size it' < range_size it)%nat /\
  (forall s, left_of (iter1 it) (iter0 it) s <-> s = d \/ left_of (iter1 it') (iter0 it') s) /\
  (forall s, left_of (iter1 it') (iter0 it') s -> key_lt d s).

(** A step, then the erased entries. *)
Lemma moved_skip it r1 r0 d : step_post (iter1 it) (iter0 it) r1 r0 d -> (length r0 + length r1 < range_size it)%nat ->
  exists it', skip r1 r0 = Val it' /\ moved it d it'.
Proof.
  intros (P1 & P2 & P3) Hlen. destruct (skip_spec r1 r0 P1) as (it' & E & Q1 & Q2 & Q3 & Q4). exists it'.
  split; [done|]. split; [done|]. split; [done|]. split; [lia|]. split; intros s; rewrite Q3; [apply P2|apply P3].
Qed.

Lemma step_spec it : range_ok (iter1 it) (iter0 it) -> skipped (iter1 it) (iter0 it) -> (0 < range_size it)%nat ->
  exists d it', dereference it = Val d /\ increment it = Val it' /\ moved it d it'.
Proof.
  destruct it as [[|s0 r0] [|[k [a l]] r1]]; cbn [iter0 iter1]; intros Hok Hsk Hpos; unfold dereference, increment; cbn [iter0 iter1]; [by cbn in Hpos; lia| | |].
  - destruct (range_deref _ _ Hok k a l) as (s1 & Hl & Hk1); [by left|]. unfold deref. rewrite Hl.
    assert (a <> raw_erase) as Ha. { intros ->. destruct (range_erased _ _ Hok k l) as (s & Hs & _); [by left|]. by apply not_elem_of_nil in Hs. }
    destruct (step_table k a l r1 [] s1 Hok Hl Hk1 Ha) as (H1 & H2 & H3); [by intros s ?%not_elem_of_nil|].
    exists s1, (mkIter [] r1). split; [done|]. split; [done|]. split; [done|]. split; [|split; [cbn; lia|done]]. destruct r1 as [|[? [[] ?]] ?]; done.
  - destruct (step_base s0 [] r0 Hok) as (H1 & H2 & H3); [by intros e ?%not_elem_of_nil|].
    exists s0, (mkIter r0 []). split; [done|]. split; [done|]. split; [done|]. split; [done|split; [cbn; lia|done]].
  - destruct (range_deref _ _ Hok k a l) as (s1 & Hl & Hk1); [by left|]. unfold deref. rewrite Hl. cbn [mbind res_bind]. rewrite Hk1. cbn [skipped] in Hsk.
    assert (forall r1' r0' d, step_post ((k, (a, l)) :: r1) (s0 :: r0) r1' r0' d -> (length r0' + length r1' < S (length r0) + S (length r1))%nat ->
      d = (if k <=? sle_key s0 then s1 else s0) ->
      exists d0 it', Val (E := map_error) (if k <=? sle_key s0 then s1 else s0) = Val d0 /\ skip r1' r0' = Val it' /\ moved (mkIter (s0 :: r0) ((k, (a, l)) :: r1)) d0 it') as Hnext.
    { intros r1' r0' d Hp Hlen Ed. destruct (moved_skip (mkIter (s0 :: r0) ((k, (a, l)) :: r1)) r1' r0' d Hp Hlen) as (it' & E & Hm). exists d, it'. by rewrite <- Ed. }
    destruct (Z.eqb_spec k (sle_key s0)) as [Ek|Ek]; [|destruct (Z.ltb_spec k (sle_key s0)) as [Elt|Elt]].
    + apply (Hnext r1 r0 s1); [|lia|by destruct (Z.leb_spec k (sle_key s0)); [|lia]]. apply step_both; try done. destruct a; [by symmetry in Ek|done..].
    + assert (forall s, s ∈ s0 :: r0 -> k < sle_key s) as Hr0. { intros s [->|Hs]%elem_of_cons; [done|]. pose proof (range_above0 _ _ _ (range_sorted0 _ _ Hok) Hs). lia. }
      apply (Hnext r1 (s0 :: r0) s1); [|cbn; lia|by destruct (Z.leb_spec k (sle_key s0)); [|lia]]. apply step_table; try done.
      intros ->. destruct (range_erased _ _ Hok k l) as (s & Hs & Hks); [by left|]. specialize (Hr0 s Hs). lia.
    + apply (Hnext ((k, (a, l)) :: r1) r0 s0); [|cbn; lia|by destruct (Z.leb_spec k (sle_key s0)); [lia|]]. apply step_base; [done|].
      intros e [->|He]%elem_of_cons; [cbn; lia|]. pose proof (range_above1 _ _ _ (range_sorted1 _ _ Hok) He) as Hlt. cbn in Hlt. lia.
Qed.

Lemma visit_range_spec fuel : forall it, range_ok (iter1 it) (iter0 it) -> skipped (iter1 it) (iter0 it) -> (range_size it <= fuel)%nat ->
  exists l, visit_range fuel it = Val l /\ StronglySorted key_lt l /\ forall s, s ∈ l <-> left_of (iter1 it) (iter0 it) s.
Proof.
  assert (forall s, left_of [] [] s -> False) as Hnone by (intros s [[?%not_elem_of_nil _]|(? & ? & ? & ?%not_elem_of_nil & _)]; done).
  induction fuel as [|fuel IH]; intros it Hok Hsk Hf.
  { destruct it as [[|] [|]]; cbn in Hf; try lia. exists []. split; [done|]. split; [constructor|]. intros s. split; [by intros ?%not_elem_of_nil|by intros ?%Hnone]. }
  destruct (decide (range_size it = 0%nat)) as [E0|E0].
  { destruct it as [[|] [|]]; cbn in E0; try lia. exists []. split; [done|]. split; [constructor|]. intros s. split; [by intros ?%not_elem_of_nil|by intros ?%Hnone]. }
  destruct (step_spec it Hok Hsk ltac:(lia)) as (d & it' & Ed & Ei & Hok' & Hsk' & Hlt & Hl & Hmin).
  destruct (IH it' Hok' Hsk' ltac:(lia)) as (l & El & Hs & Hm). exists (d :: l). split; [|split].
  - cbn [visit_range]. rewrite Ed. cbn [mbind res_bind]. rewrite Ei. cbn [mbind res_bind]. rewrite El. cbn [mbind res_bind]. destruct it as [[|] [|]]; done.
  - constructor; [done|]. apply Forall_forall. intros s Hi. by apply Hmin, Hm.
  - intros s. by rewrite elem_of_cons, Hm, Hl.
Qed.
End range.

(** ** The range of an open view *)

(** The entries of a finite map in the order of their keys. *)
Definition range_of (c : gmap Z SLE) : list SLE := (entries c).*2.

Lemma elem_of_range_of c s : (forall k s, c !! k = Some s -> sle_key s = k) -> s ∈ range_of c <-> c !! sle_key s = Some s.
Proof.
  intros Hk. unfold range_of. rewrite list_elem_of_fmap. split.
  - intros ([k s'] & -> & Hi%elem_of_entries). cbn. by rewrite (Hk _ _ Hi).
  - intros Hs. exists (sle_key s, s). by rewrite elem_of_entries.
Qed.

Lemma entries_strict {A} (m : gmap Z A) : StronglySorted (fun a b => a.1 < b.1) (entries m).
Proof.
  pose proof (entries_sorted m) as Hs. pose proof (entries_NoDup m) as Hn. induction Hs as [|e l Hs IH He]; [constructor|].
  rewrite fmap_cons in Hn. apply NoDup_cons in Hn as [Hi Hn]. constructor; [auto|]. rewrite Forall_forall in He |- *. intros e' He'.
  specialize (He e' He'). unfold entry_le in He. assert (e.1 <> e'.1); [|lia]. intros E. apply Hi. rewrite E. by apply list_elem_of_fmap_2.
Qed.

Lemma range_of_sorted c : (forall k s, c !! k = Some s -> sle_key s = k) -> StronglySorted key_lt (range_of c).
Proof.
  intros Hk. unfold range_of. assert (forall e, e ∈ entries c -> sle_key e.2 = e.1) as He by (intros [k s] Hi%elem_of_entries; by apply Hk).
  induction (entries_strict c) as [|e l Hs IH Hf]; [constructor|]. cbn. constructor; [apply IH; intros; apply He; by right|].
  apply Forall_fmap. rewrite Forall_forall in Hf |- *. intros e' Hi. unfold key_lt. cbn. rewrite !He by (by left || by right). by apply Hf.
Qed.

#[export] Instance key_lt_antisymm : AntiSymm (=) key_lt.
Proof. intros s s'. unfold key_lt. lia. Qed.

Lemma sorted_same (l1 l2 : list SLE) : StronglySorted key_lt l1 -> StronglySorted key_lt l2 -> (forall s, s ∈ l1 <-> s ∈ l2) -> l1 = l2.
Proof.
  assert (forall l, StronglySorted key_lt l -> NoDup l) as Hnd.
  { induction 1 as [|s l Hs IH Hf]; constructor; [|done]. intros Hi. rewrite Forall_forall in Hf. specialize (Hf s Hi). unfold key_lt in Hf. lia. }
  intros H1 H2 He. apply (StronglySorted_unique key_lt); [done|done|]. apply NoDup_Permutation; auto.
Qed.

Definition slesBegin {V} (σ : heap) (v : OpenView V) (base_sles : list SLE) : mres sles_iter :=
  make_iter σ (entries (raw_items (ov_items v))) base_sles.

Section open_range.
Context {V : Type} {U : SLE -> Prop} `{HL : ReadViewLaws V U}.

Lemma open_range_ok σ (v : OpenView V) : open_ok (U := U) σ v -> range_ok σ (entries (raw_items (ov_items v))) (range_of (contents_of σ (ov_base v))).
Proof.
  intros (Hv & Ht & _). assert (forall k s, contents_of σ (ov_base v) !! k = Some s -> sle_key s = k) as Hk by (intros k s Hs; by destruct (view_entries _ _ _ _ Hv Hs)).
  split; [by apply range_of_sorted|apply entries_strict| |].
  - intros k a l Hi%elem_of_entries. destruct (Ht _ _ Hi) as (s & Hs & Hks & _). eauto.
  - intros k l Hi%elem_of_entries. destruct (Ht _ _ Hi) as (s & Hs & Hks & _ & Ha & _). destruct (contents_of σ (ov_base v) !! k) as [s0|] eqn:E.
    + exists s0. rewrite elem_of_range_of by done. rewrite (Hk _ _ E). done.
    + destruct Ha as [_ Ha]. discriminate (Ha eq_refl).
Qed.

Lemma open_left σ (v : OpenView V) s : open_ok (U := U) σ v ->
  left_of σ (entries (raw_items (ov_items v))) (range_of (contents_of σ (ov_base v))) s <-> contents_of σ v !! sle_key s = Some s.
Proof.
  intros (Hv & Ht & _). assert (forall k s, contents_of σ (ov_base v) !! k = Some s -> sle_key s = k) as Hk by (intros k s' Hs; by destruct (view_entries _ _ _ _ Hv Hs)).
  cbn. rewrite shown_lookup. unfold left_of. rewrite elem_of_range_of by done.
  assert (sle_key s ∈ (entries (raw_items (ov_items v))).*1 <-> is_Some (raw_items (ov_items v) !! sle_key s)) as Hdom.
  { rewrite list_elem_of_fmap. split; [intros ([k e] & -> & Hi%elem_of_entries); eauto|]. intros [e He]. exists (sle_key s, e). by rewrite elem_of_entries. }
  rewrite Hdom. destruct (raw_items (ov_items v) !! sle_key s) as [[a l]|] eqn:Ei.
  - split.
    + intros [[_ Hn]|(k & a' & l' & Hi%elem_of_entries & Ha & Hs)]; [by destruct Hn|].
      destruct (Ht _ _ Hi) as (s' & Hl' & Hks & _). cbn in Hl'. assert (s' = s) as -> by congruence. subst k. assert (a' = a /\ l' = l) as [-> ->] by (split; congruence). by destruct a.
    + intros Hs. right. exists (sle_key s), a, l. rewrite elem_of_entries. by destruct a.
  - split.
    + intros [[Hs _]|(k & a' & l' & Hi%elem_of_entries & Ha & Hs)]; [done|]. destruct (Ht _ _ Hi) as (s' & Hl' & Hks & _). cbn in Hl'. congruence.
    + intros Hs. left. split; [done|]. by intros [? [=]].
Qed.

Lemma open_range_spec σ (v : OpenView V) fuel : open_ok (U := U) σ v ->
  (size (contents_of σ (ov_base v)) + size (raw_items (ov_items v)) <= fuel)%nat ->
  (it ← slesBegin σ v (range_of (contents_of σ (ov_base v))); visit_range σ fuel it) = Val (range_of (contents_of σ v)).
Proof.
  intros Hok Hf. pose proof (open_range_ok σ v Hok) as Hr. destruct (skip_spec σ _ _ Hr) as (it & E & Hi & Hs & Hl & Hsz).
  assert (slesBegin σ v (range_of (contents_of σ (ov_base v))) = Val it) as ->.
  { unfold slesBegin, make_iter. rewrite <- E. by destruct (entries _). }
  cbn [mbind res_bind]. assert (forall A (m : gmap Z A), length (entries m) = size m) as Hlen by (intros; unfold entries; by rewrite merge_sort_Permutation, length_map_to_list).
  destruct (visit_range_spec σ fuel it Hi Hs) as (l & -> & Hsl & Hm).
  { etransitivity; [exact Hsz|]. unfold range_of. rewrite length_fmap, !Hlen. done. }
  f_equal. pose proof (view_entries (U := U) σ v) as Hk. assert (forall k s, contents_of σ v !! k = Some s -> sle_key s = k) as Hk' by (intros k s Hcs; by destruct (Hk k s Hok Hcs)).
  apply sorted_same; [done|by apply range_of_sorted|]. intros s. rewrite Hm, Hl, open_left, elem_of_range_of by done. done.
Qed.
End open_range.
