(* ===== verification/LedgerView.v ===== *)
(** * LedgerView: the ledger as the bottom of the stack of views ([app/ledger/Ledger.cpp])

    A [Ledger] keeps its entries serialized in the state map and its transactions, with
    their metadata, in the transaction map.

    The instances: on top of the theorems on [SHAMap] a ledger keeps the laws of [Views]. *)

From stdpp Require Import base numbers list option gmap sorting.
From Stdlib Require Import ZArith Lia.
From S2P Require Import Prelude ShaMapNode ShaMap ShaMapOps ShaMapHash ShaMapSpec ShaMapIter Serializer Views Overlay RawTable.

Local Open Scope Z_scope.

(** ** The code *)

(** [STLedgerEntry::add]: fields are written in the order of their codes, and the type, of code 1 and
    type 1, comes first. *)
Definition sle_add (s : SLE) : list Z := addFieldID 1 1 ++ add16 (sle_type s) ++ sle_fields s.

(** [STLedgerEntry(SerialIter, key)]; the other fields are kept as they are. *)
Definition sle_parse (data : list Z) (key : Z) : mres SLE :=
  '(type, name, data) ← getFieldID data;
  if negb ((type =? 1) && (name =? 1)) then Err MapRuntimeError else
  '(ty, data) ← get16 data; Val (mkSLE key ty data).

Definition sle_item (s : SLE) : SHAMapItem := mkItem (sle_key s) (sle_add s).

Record Ledger := mkLedger { stateMap_ : SHAMap; txMap_ : SHAMap; info_drops : Z }.

Definition set_state (m : SHAMap) (lg : Ledger) : Ledger := mkLedger m (txMap_ lg) (info_drops lg).
Definition set_txs (m : SHAMap) (lg : Ledger) : Ledger := mkLedger (stateMap_ lg) m (info_drops lg).

Section code.
Context `{Sha512Half}.

Definition ledger_exists (lg : Ledger) (k : Keylet) : mres bool := hasItem (stateMap_ lg) (k_key k).

Definition ledger_succ (lg : Ledger) (key : Z) (last : option Z) : mres (option Z) :=
  '(item, _) ← upper_bound (stateMap_ lg) key;
  match item with
  | None => Val None
  | Some item =>
    match last with
    | Some l => if l <=? item_key item then Val None else Val (Some (item_key item))
    | None => Val (Some (item_key item))
    end
  end.

Definition ledger_read (lg : Ledger) (k : Keylet) : mres (option SLE) :=
  if k_key k =? 0 then Val None else
  item ← peekItem (stateMap_ lg) (k_key k);
  match item with
  | None => Val None
  | Some item => sle ← sle_parse (item_slice item) (item_key item); Val (if check k sle then Some sle else None)
  end.

Definition ledger_rawErase (σ : heap) (lg : Ledger) (sle : loc) : mres Ledger :=
  s ← deref σ sle;
  '(ok, m) ← delItem (stateMap_ lg) (sle_key s);
  if negb ok then Err MapLogicError else Val (set_state m lg).

Definition ledger_rawInsert (σ : heap) (lg : Ledger) (sle : loc) : mres Ledger :=
  s ← deref σ sle;
  '(ok, m) ← addGiveItem (stateMap_ lg) tnACCOUNT_STATE (mkItem (sle_key s) (sle_add s));
  if negb ok then Err MapLogicError else Val (set_state m lg).

Definition ledger_rawReplace (σ : heap) (lg : Ledger) (sle : loc) : mres Ledger :=
  s ← deref σ sle;
  '(ok, m) ← updateGiveItem (stateMap_ lg) tnACCOUNT_STATE (mkItem (sle_key s) (sle_add s));
  if negb ok then Err MapLogicError else Val (set_state m lg).

Definition ledger_rawDestroyXRP (lg : Ledger) (fee : Z) : Ledger := mkLedger (stateMap_ lg) (txMap_ lg) (info_drops lg - fee).

Definition ledger_rawTxInsert (lg : Ledger) (key : Z) (txn : list Z) (metaData : option (list Z)) : mres Ledger :=
  match metaData with
  | None => Undef
  | Some metaData =>
    s ← addVL txn; t ← addVL metaData;
    '(ok, m) ← addGiveItem (txMap_ lg) tnTRANSACTION_MD (mkItem key (s ++ t));
    if negb ok then Err MapLogicError else Val (set_txs m lg)
  end.

(** [deserializeTxPlusMeta]: the two serialized objects. *)
Definition deserializeTxPlusMeta (item : SHAMapItem) : mres (list Z * list Z) :=
  '(txn, data) ← getVL (item_slice item); '(meta, _) ← getVL data; Val (txn, meta).

(** [txRead] of a closed ledger. *)
Definition ledger_txRead (lg : Ledger) (key : Z) : mres (option (list Z * list Z)) :=
  item ← peekItem (txMap_ lg) key;
  match item with None => Val None | Some item => r ← deserializeTxPlusMeta item; Val (Some r) end.

Fixpoint parse_items (l : list SHAMapItem) : mres (list SLE) :=
  match l with [] => Val [] | i :: l => s ← sle_parse (item_slice i) (item_key i); r ← parse_items l; Val (s :: r) end.

(** The range of a ledger's entries. *)
Definition ledger_sles (fuel : nat) (lg : Ledger) : mres (list SLE) :=
  it ← peekFirstItem (stateMap_ lg); l ← visit_from fuel it; parse_items l.

#[export] Instance ledger_read_ops : ReadViewOps Ledger := {|
  exists_ := fun _ lg k => ledger_exists lg k;
  read := fun _ lg k => ledger_read lg k;
  succ := fun _ lg key last => ledger_succ lg key last
|}.

#[export] Instance ledger_raw_ops : RawViewOps Ledger := {|
  rawErase := ledger_rawErase;
  rawInsert := ledger_rawInsert;
  rawReplace := ledger_rawReplace;
  rawDestroyXRP := ledger_rawDestroyXRP
|}.

#[export] Instance ledger_txs_ops : TxsRawOps Ledger := {| rawTxInsert := ledger_rawTxInsert |}.
End code.

(** ** The entries of a ledger *)

Definition type_ok (s : SLE) : Prop := 0 <= sle_type s < 2 ^ 16.

Lemma sle_parse_add s : type_ok s -> sle_parse (sle_add s) (sle_key s) = Val s.
Proof.
  intros Ht. unfold sle_parse, sle_add. rewrite getFieldID_addFieldID by lia. cbn [mbind res_bind]. change (negb ((1 =? 1) && (1 =? 1))) with false. cbn iota.
  rewrite get16_add16 by done. by destruct s.
Qed.

Definition item_sle (i : SHAMapItem) : option SLE := match sle_parse (item_slice i) (item_key i) with Val s => Some s | _ => None end.

Lemma item_sle_item s : type_ok s -> item_sle (sle_item s) = Some s.
Proof. intros Ht. unfold item_sle, sle_item. cbn [item_slice item_key]. by rewrite sle_parse_add. Qed.

Lemma sle_item_inj s s' : type_ok s -> type_ok s' -> sle_item s = sle_item s' -> s = s'.
Proof. intros Ht Ht' E. apply (f_equal item_sle) in E. rewrite !item_sle_item in E by done. congruence. Qed.

(** The entries that may be written: a finite list in which no two entries collide. *)
Class Entries `{Sha512Half} (L : list SLE) := {
  entries_types : Forall type_ok L;
  entries_keys : Forall (fun s => key_range (sle_key s)) L;
  entries_collide : collision_free (leaf_message tnACCOUNT_STATE <$> (sle_item <$> L))
}.

Section laws.
Context `{Hsha : Sha512Half} {L : list SLE} `{HE : !Entries L}.
Abbreviation U := (fun s => s ∈ L).
Implicit Types (lg : Ledger).

#[export] Instance ledger_model : ViewModel Ledger := {|
  contents_of := fun _ lg => omap item_sle (contents (stateMap_ lg));
  locs := fun _ => ∅;
  destroyed := fun lg => - info_drops lg
|}.

Definition ledger_ok (σ : heap) lg : Prop := map_inv tnACCOUNT_STATE (stateMap_ lg) /\ from_items (sle_item <$> L) (stateMap_ lg).

Lemma U_type s : U s -> type_ok s.
Proof. pose proof entries_types as Hf. rewrite Forall_forall in Hf. auto. Qed.

Lemma U_key s : U s -> key_range (sle_key s).
Proof. pose proof entries_keys as Hf. rewrite Forall_forall in Hf. auto. Qed.

(** What the state map has of a key, and the entry. *)
Lemma ledger_item σ lg k : ledger_ok σ lg ->
  (contents (stateMap_ lg) !! k = None /\ contents_of σ lg !! k = None) \/
  exists s, U s /\ sle_key s = k /\ contents (stateMap_ lg) !! k = Some (sle_item s) /\ contents_of σ lg !! k = Some s.
Proof.
  intros (_ & Hf). cbn. rewrite lookup_omap. destruct (contents (stateMap_ lg) !! k) as [i|] eqn:E; [right|by left].
  destruct (Hf _ _ E) as [Hk (s & -> & Hs)%list_elem_of_fmap]. exists s. split; [done|]. split; [done|]. split; [done|]. cbn. by rewrite item_sle_item by (by apply U_type).
Qed.

Lemma items_keys_ok : Forall (fun i => key_ok (item_key i)) (sle_item <$> L).
Proof. apply Forall_fmap. eapply Forall_impl; [exact entries_keys|]. intros s Hs. unfold key_range in Hs. cbn. unfold key_ok. lia. Qed.

(** An operation on the state map. *)
Lemma ledger_run σ lg o : ledger_ok σ lg -> op_ok o -> op_items o ⊆ sle_item <$> L ->
  exists b m, run_op tnACCOUNT_STATE (stateMap_ lg) o = Val (b, m) /\ ledger_ok σ (set_state m lg) /\
    spec_op (contents (stateMap_ lg)) o = (b, contents m).
Proof.
  intros [Hinv Hf] Ho Hs. destruct (run_op_spec tnACCOUNT_STATE (stateMap_ lg) o (sle_item <$> L) Hinv Ho Hf Hs entries_collide items_keys_ok) as (b & m & E & Hinv' & Es & Hf').
  exists b, m. done.
Qed.

Lemma sorted_filter {A} (R : A -> A -> Prop) (P : A -> Prop) `{!forall x, Decision (P x)} l : StronglySorted R l -> StronglySorted R (filter P l).
Proof.
  induction 1 as [|x l Hs IH Hf]; [constructor|]. destruct (decide (P x)); [rewrite filter_cons_True by done|by rewrite filter_cons_False].
  constructor; [done|]. rewrite Forall_forall in Hf |- *. intros y [_ Hy]%list_elem_of_filter. by apply Hf.
Qed.

Lemma ledger_succ_spec σ lg key last : ledger_ok σ lg -> key_ok key ->
  exists r, ledger_succ lg key last = Val r /\ succ_spec (contents_of σ lg) key last r.
Proof.
  intros Hok Hk. pose proof Hok as [(Hm & _) _]. unfold ledger_succ.
  destruct (upper_bound_spec tnACCOUNT_STATE (stateMap_ lg) key (length (items (root_ (stateMap_ lg)))) Hm Hk ltac:(done)) as ([o st] & -> & Hv). cbn [mbind res_bind].
  assert (forall k, is_Some (contents_of σ lg !! k) <-> exists i, i ∈ items (root_ (stateMap_ lg)) /\ item_key i = k) as Hdom.
  { intros k. destruct Hm as (_ & _ & Hn). pose proof (items_NoDup _ _ _ _ Hn ltac:(lia)) as Hnd.
    destruct (ledger_item σ lg k Hok) as [[E1 E2]|(s & Hs & Hk' & E1 & E2)]; rewrite E2; rewrite map_contents in E1.
    - split; [by intros [? [=]]|]. intros (i & Hi & <-). apply items_map_None in E1. exfalso. apply E1. by apply list_elem_of_fmap_2.
    - split; [|by eauto]. intros _. exists (sle_item s). by apply items_map_Some in E1. }
  assert (StronglySorted item_lt (after_key key (items (root_ (stateMap_ lg))))) as Hsort.
  { destruct Hm as (_ & _ & Hn). apply sorted_filter. eapply items_sorted; [exact Hn|lia]. }
  assert (forall k, is_Some (contents_of σ lg !! k) -> key < k -> exists i, i ∈ after_key key (items (root_ (stateMap_ lg))) /\ item_key i = k) as Hafter.
  { intros k (i & Hi & <-)%Hdom Hlt. exists i. split; [|done]. unfold after_key. by apply list_elem_of_filter. }
  destruct o as [i|].
  - assert (exists l, after_key key (items (root_ (stateMap_ lg))) = i :: l) as (l & El).
    { destruct (length (items (root_ (stateMap_ lg)))); [done|]. cbn [visit_from] in Hv. res_inv. eauto. }
    rewrite El in Hsort, Hafter. inversion Hsort as [|? ? _ Hf]; subst. rewrite Forall_forall in Hf.
    assert (i ∈ after_key key (items (root_ (stateMap_ lg)))) as Hi by (rewrite El; by left). unfold after_key in Hi. apply list_elem_of_filter in Hi as [Hlt Hi].
    assert (forall m, is_Some (contents_of σ lg !! m) -> key < m -> item_key i <= m) as Hmin.
    { intros m Hm' Hlt'. destruct (Hafter m Hm' Hlt') as (j & [->|Hj]%elem_of_cons & <-); [lia|]. specialize (Hf j Hj). unfold item_lt in Hf. lia. }
    assert (is_Some (contents_of σ lg !! item_key i)) as Hs by (apply Hdom; eauto).
    destruct last as [la|]; [destruct (Z.leb_spec la (item_key i))|]; eexists; (split; [reflexivity|]); cbn [succ_spec].
    + intros m Hm' Hlt'. exists la. split; [done|]. specialize (Hmin m Hm' Hlt'). lia.
    + split; [done|]. split; [done|]. split; [intros l' [= <-]; done|done].
    + split; [done|]. split; [done|]. split; [done|done].
  - eexists. split; [reflexivity|]. cbn. intros m Hm' Hlt. destruct (Hafter m Hm' Hlt) as (j & Hj & _).
    assert (after_key key (items (root_ (stateMap_ lg))) = []) as E by (destruct (length (items (root_ (stateMap_ lg)))); cbn in Hv; congruence).
    rewrite E in Hj. by apply not_elem_of_nil in Hj.
Qed.

#[export] Instance ledger_read_laws : ReadViewLaws Ledger U.
Proof.
  refine {| view_ok := ledger_ok |}.
  - intros σ lg k s Hok Hs. destruct (ledger_item σ lg k Hok) as [[_ E]|(s' & Hs' & Hk & _ & E)]; rewrite E in Hs; [done|]. injection Hs as <-.
    split; [done|]. rewrite <- Hk. by apply U_key.
  - intros σ lg l _ Hl. cbn in Hl. set_solver.
  - intros σ σ' lg _ Hok. done.
  - intros σ lg k Hok Hk. cbn [read ledger_read_ops]. unfold ledger_read. unfold key_range in Hk. destruct (Z.eqb_spec (k_key k) 0); [lia|].
    pose proof Hok as [(Hm & _) _]. rewrite (peekItem_spec tnACCOUNT_STATE) by (done || unfold key_ok; lia). cbn [mbind res_bind].
    unfold lookup_keylet. destruct (ledger_item σ lg (k_key k) Hok) as [[-> ->]|(s & Hs & Hks & -> & ->)]; [done|]. unfold sle_item. cbn [item_slice item_key].
    rewrite sle_parse_add by (by apply U_type). done.
  - intros σ lg k Hok Hk. cbn [exists_ ledger_read_ops]. unfold ledger_exists, hasItem. pose proof Hok as [(Hm & _) _]. unfold key_range in Hk.
    rewrite (findKey_spec tnACCOUNT_STATE) by (done || unfold key_ok; lia). cbn [mbind res_bind].
    destruct (ledger_item σ lg (k_key k) Hok) as [[-> ->]|(s & Hs & Hks & -> & ->)]; eexists; (split; [reflexivity|]); done.
  - intros σ lg key last Hok Hk. by apply ledger_succ_spec.
Defined.

Lemma contents_insert σ lg m s : type_ok s -> contents m = <[sle_key s := sle_item s]> (contents (stateMap_ lg)) ->
  contents_of σ (set_state m lg) = <[sle_key s := s]> (contents_of σ lg).
Proof. intros Ht E. cbn. rewrite E, omap_insert. by rewrite item_sle_item. Qed.

#[export] Instance ledger_raw_laws : RawViewLaws Ledger U.
Proof.
  split.
  - intros σ lg l s Hok Hl _ [s0 Hs]. cbn [rawErase ledger_raw_ops]. unfold ledger_rawErase, deref. rewrite Hl. cbn [mbind res_bind].
    destruct (ledger_item σ lg (sle_key s) Hok) as [[_ E]|(s' & Hs' & Hk & E1 & E2)]; [by rewrite E in Hs|].
    assert (key_ok (sle_key s)) as Hko by (pose proof (U_key _ Hs') as Hr; rewrite Hk in Hr; unfold key_range in Hr; unfold key_ok; lia).
    destruct (ledger_run σ lg (OpDel (sle_key s)) Hok Hko) as (b & m & Er & Hok' & Es); [cbn; set_solver|].
    cbn [run_op spec_op] in Er, Es. rewrite E1 in Es. injection Es as <- Ec. rewrite Er. cbn [mbind res_bind negb].
    eexists. split; [reflexivity|]. split; [done|]. split; [|split; [done|cbn; set_solver]]. cbn. rewrite <- Ec. apply omap_delete.
  - intros σ lg l s Hok Hl _ HU Hkr Hs. cbn [rawInsert ledger_raw_ops]. unfold ledger_rawInsert, deref. rewrite Hl. cbn [mbind res_bind]. fold (sle_item s).
    destruct (ledger_item σ lg (sle_key s) Hok) as [[E1 E2]|(s' & Hs' & Hk & E1 & E2)]; [|by rewrite E2 in Hs].
    destruct (ledger_run σ lg (OpAdd (sle_item s)) Hok) as (b & m & Er & Hok' & Es); [cbn; unfold key_ok, key_range in *; lia|cbn; set_solver|].
    cbn [run_op spec_op item_key sle_item] in Er, Es. change (item_key (sle_item s)) with (sle_key s) in Es. rewrite E1 in Es. injection Es as <- Ec. rewrite Er. cbn [mbind res_bind negb].
    eexists. split; [reflexivity|]. split; [done|]. split; [|split; [done|cbn; set_solver]]. apply contents_insert; [by apply U_type|done].
  - intros σ lg l s Hok Hl _ HU [s0 Hs]. cbn [rawReplace ledger_raw_ops]. unfold ledger_rawReplace, deref. rewrite Hl. cbn [mbind res_bind]. fold (sle_item s).
    destruct (ledger_item σ lg (sle_key s) Hok) as [[E1 E2]|(s' & Hs' & Hk & E1 & E2)]; [by rewrite E2 in Hs|].
    pose proof (U_key _ HU) as Hkr. destruct (ledger_run σ lg (OpUpdate (sle_item s)) Hok) as (b & m & Er & Hok' & Es); [cbn; unfold key_ok, key_range in *; lia|cbn; set_solver|].
    cbn [run_op spec_op item_key sle_item] in Er, Es. change (item_key (sle_item s)) with (sle_key s) in Es. rewrite E1 in Es. injection Es as <- Ec. rewrite Er. cbn [mbind res_bind negb].
    eexists. split; [reflexivity|]. split; [done|]. split; [|split; [done|cbn; set_solver]]. apply contents_insert; [by apply U_type|done].
  - intros σ lg fee Hok. split; [done|]. split; [done|]. split; [cbn; lia|done].
Qed.

(** The range of a ledger. *)
Lemma ledger_sles_spec σ lg fuel : ledger_ok σ lg -> (length (items (root_ (stateMap_ lg))) <= fuel)%nat ->
  ledger_sles fuel lg = Val (range_of (contents_of σ lg)).
Proof.
  intros Hok Hf. pose proof Hok as [(Hm & _) Hfrom]. unfold ledger_sles. destruct (peekFirstItem_spec tnACCOUNT_STATE (stateMap_ lg) fuel Hm Hf) as (it & -> & Hv).
  cbn [mbind res_bind]. rewrite Hv. cbn [mbind res_bind]. pose proof (from_items_all tnACCOUNT_STATE _ _ Hm Hfrom) as Hsub. destruct Hm as (_ & _ & Hn).
  pose proof (items_sorted _ _ _ _ Hn ltac:(lia)) as Hsort. pose proof (items_NoDup _ _ _ _ Hn ltac:(lia)) as Hnd.
  assert (forall l, l ⊆ sle_item <$> L -> exists r, parse_items l = Val r /\ l = sle_item <$> r /\ Forall U r) as Hparse.
  { induction l as [|i l IH]; intros Hl; [exists []; done|]. destruct IH as (r & E & -> & HU); [set_solver|].
    assert (i ∈ sle_item <$> L) as (s & -> & Hs)%list_elem_of_fmap by set_solver. exists (s :: r).
    change (parse_items (sle_item s :: (sle_item <$> r))) with (s0 ← sle_parse (sle_add s) (sle_key s); r0 ← parse_items (sle_item <$> r); Val (s0 :: r0)).
    rewrite sle_parse_add by (by apply U_type). cbn [mbind res_bind]. rewrite E. split; [done|]. split; [done|]. by constructor. }
  destruct (Hparse _ Hsub) as (r & -> & Ei & HU). f_equal. pose proof (view_entries (U := U) σ lg) as Hve.
  assert (forall k s, contents_of σ lg !! k = Some s -> sle_key s = k) as Hk by (intros k s Hs; by destruct (Hve k s Hok Hs)).
  apply sorted_same; [|by apply range_of_sorted|].
  - rewrite Ei in Hsort. clear -Hsort. induction r as [|s r IH]; [constructor|]. rewrite fmap_cons in Hsort. inversion Hsort as [|? ? Hs Hf]; subst. constructor; [auto|].
    rewrite Forall_fmap in Hf. exact Hf.
  - intros s. rewrite elem_of_range_of by done. destruct (ledger_item σ lg (sle_key s) Hok) as [[E1 ->]|(s' & Hs' & Hks & E1 & ->)]; rewrite map_contents in E1.
    + split; [|done]. intros Hs. exfalso. apply items_map_None in E1. apply E1. rewrite Ei, <- list_fmap_compose. by apply (list_elem_of_fmap_2 (item_key ∘ sle_item)).
    + split; [|intros [= <-]].
      * intros Hs. f_equal. assert (items_map (items (root_ (stateMap_ lg))) !! sle_key s = Some (sle_item s)) as E2.
        { apply items_map_Some; [done|]. split; [|done]. rewrite Ei. by apply list_elem_of_fmap_2. }
        rewrite E1 in E2. assert (sle_item s' = sle_item s) as E3 by congruence. rewrite Forall_forall in HU. apply sle_item_inj in E3; [done|by apply U_type|by apply U_type, HU].
      * apply items_map_Some in E1 as [E1 _]; [|done]. rewrite Ei in E1. apply list_elem_of_fmap in E1 as (s2 & E2 & Hs2). rewrite Forall_forall in HU.
        apply sle_item_inj in E2 as ->; [done|by apply U_type|by apply U_type, HU].
Qed.
End laws.
