(* ===== verification/ViewStack.v ===== *)
(** * ViewStack: working through the stack of views

    Transactors work in sandboxes over an open view, which is over a ledger; a sandbox is
    applied to the open view or discarded, transactions are added to the open view with their metadata, and
    the open view is applied to the ledger.  What [ApplyStateTable] makes of a sandbox to
    write the metadata, with the threading of entries to transactions, is not modelled.

    The theorems: a sandbox over any view that keeps the laws of [Views] behaves as a
    finite map of entries, and applying it makes the base that map; a series of sandboxes and transactions
    through an open view leaves the ledger with what was applied, one after the other; [succ]
    finds the next key through the whole stack. *)

From stdpp Require Import base numbers list option gmap sorting.
From Stdlib Require Import ZArith Lia.
From S2P Require Import Prelude ShaMapNode ShaMap ShaMapOps ShaMapHash ShaMapSpec Serializer Views Overlay ApplyTable RawTable LedgerView.

Local Open Scope Z_scope.

(** ** What a transaction does *)

(** The uses of an [ApplyView] by transactors: reading, testing, making a new entry and inserting it,
    changing an entry it has peeked and updating it, erasing one, and paying the fee. *)
Inductive view_op :=
| ORead (k : Keylet)
| OExists (k : Keylet)
| OInsert (s : SLE)
| OModify (k : Keylet) (f : SLE -> SLE)
| OErase (k : Keylet)
| ODestroy (fee : Z).

Inductive answer := AEntry (o : option SLE) | ADone (b : bool).

Section run.
Context {V : Type} `{ReadViewOps V}.
Implicit Types (v : ApplyViewBase V).

Definition run_view_op (σ : heap) v (o : view_op) : mres (heap * ApplyViewBase V * answer) :=
  match o with
  | ORead k => s ← read σ v k; Val (σ, v, AEntry s)
  | OExists k => b ← exists_ σ v k; Val (σ, v, ADone b)
  | OInsert s => let '(σ, l) := make_shared σ s in v ← insert_sle σ v l; Val (σ, v, ADone true)
  | OModify k f =>
    '(σ, v, o) ← peek σ v k;
    match o with
    | None => Val (σ, v, ADone false)
    | Some l => s ← deref σ l; let σ := <[l := f s]> σ in v ← update σ v l; Val (σ, v, ADone true)
    end
  | OErase k =>
    '(σ, v, o) ← peek σ v k;
    match o with
    | None => Val (σ, v, ADone false)
    | Some l => v ← erase σ v l; Val (σ, v, ADone true)
    end
  | ODestroy fee => Val (σ, rawDestroyXRP v fee, ADone true)
  end.

Fixpoint run_view_ops (σ : heap) v (ops : list view_op) : mres (heap * ApplyViewBase V * list answer) :=
  match ops with
  | [] => Val (σ, v, [])
  | o :: ops => '(σ, v, a) ← run_view_op σ v o; '(σ, v, l) ← run_view_ops σ v ops; Val (σ, v, a :: l)
  end.
End run.

(** The same on a finite map.  [exists_] for a key with an entry of another type is left open, so
    it is only asked for keys whose entry, if any, has the type of the keylet. *)
Definition spec_view_op (c : gmap Z SLE) (o : view_op) : answer * gmap Z SLE :=
  match o with
  | ORead k => (AEntry (lookup_keylet c k), c)
  | OExists k => (ADone (bool_decide (is_Some (c !! k_key k))), c)
  | OInsert s => (ADone true, <[sle_key s := s]> c)
  | OModify k f => match lookup_keylet c k with Some s => (ADone true, <[sle_key s := f s]> c) | None => (ADone false, c) end
  | OErase k => match lookup_keylet c k with Some s => (ADone true, delete (sle_key s) c) | None => (ADone false, c) end
  | ODestroy _ => (ADone true, c)
  end.

(** What the interface asks of its user: new keys for [insert], changes that keep the key. *)
Definition op_valid (U : SLE -> Prop) (c : gmap Z SLE) (o : view_op) : Prop :=
  match o with
  | ORead k | OErase k => key_range (k_key k)
  | OExists k => key_range (k_key k) /\ forall s, c !! k_key k = Some s -> check k s = true
  | OInsert s => U s /\ key_range (sle_key s) /\ c !! sle_key s = None
  | OModify k f => key_range (k_key k) /\ forall s, c !! k_key k = Some s -> U (f s) /\ sle_key (f s) = sle_key s
  | ODestroy _ => True
  end.

Fixpoint spec_view_ops (c : gmap Z SLE) (ops : list view_op) : list answer * gmap Z SLE :=
  match ops with
  | [] => ([], c)
  | o :: ops => let '(a, c) := spec_view_op c o in let '(l, c) := spec_view_ops c ops in (a :: l, c)
  end.

Fixpoint ops_valid (U : SLE -> Prop) (c : gmap Z SLE) (ops : list view_op) : Prop :=
  match ops with
  | [] => True
  | o :: ops => op_valid U c o /\ ops_valid U (spec_view_op c o).2 ops
  end.

Definition fees (ops : list view_op) : Z := foldr (fun o n => match o with ODestroy fee => fee + n | _ => n end) 0 ops.

(** ** A sandbox behaves as a finite map *)

Section sandbox.
Context {V : Type} {U : SLE -> Prop} `{HL : ReadViewLaws V U}.
Implicit Types (v : ApplyViewBase V).

(** The state of a run: the view is in order, over the same base, which shows the same. *)
Definition run_inv (base : V) (B : gmap Z SLE) (σ : heap) v : Prop :=
  apply_ok (U := U) σ v /\ caches_clean σ v /\ base_ v = base /\ contents_of σ base = B.

Lemma run_view_op_spec base B σ v o : run_inv base B σ v -> op_valid U (contents_of σ v) o ->
  exists σ' v' a, run_view_op σ v o = Val (σ', v', a) /\ run_inv base B σ' v' /\ spec_view_op (contents_of σ v) o = (a, contents_of σ' v') /\
    dropsDestroyed_ (table_ v') = dropsDestroyed_ (table_ v) + match o with ODestroy fee => fee | _ => 0 end.
Proof.
  intros (Hv & Hc & <- & HB) Ho. pose proof (read_law (U := U) σ v) as Hread. pose proof (exists_law (U := U) σ v) as Hex. pose proof (view_entries (U := U) σ v) as Hent.
  destruct o as [k|k|s|k f|k|fee]; cbn [run_view_op spec_view_op op_valid] in *.
  - rewrite (Hread k Hv Ho). eexists _, _, _. split; [reflexivity|]. split; [done|]. split; [done|lia].
  - destruct Ho as [Hk Hty]. destruct (Hex k Hv Hk) as (b & E & Hb). rewrite E. eexists _, _, _. split; [reflexivity|]. split; [done|]. split; [|lia]. f_equal. f_equal.
    destruct (contents_of σ v !! k_key k) as [s|] eqn:Es; [rewrite bool_decide_eq_true_2 by eauto; symmetry; auto|].
    subst b. by rewrite bool_decide_eq_false_2 by (by intros [? ?]).
  - destruct Ho as (HU & Hk & Hs). destruct (make_shared σ s) as [σ' l] eqn:Em. destruct (alloc_ok σ v s σ' l Hv Em) as (Hl & Hn & Hv' & Ec & Eb & Hcc).
    rewrite <- Ec in Hs. destruct (insert_spec σ' v l s Hv' (Hcc Hc) Hl Hn HU Hk Hs) as (v' & E & Hv2 & Hc2 & Ebs & Ec2 & Ed). rewrite E.
    eexists _, _, _. split; [reflexivity|]. split; [|split; [by rewrite Ec2, Ec|lia]]. split; [done|]. split; [done|]. by rewrite Eb.
  - destruct Ho as [Hk Hf]. destruct (peek_spec σ v k Hv Hc Hk) as (σ' & v' & o & E & Hv' & Hc' & Ebs & Ec & Ecb & Ed & Hm). rewrite E. cbn [mbind res_bind].
    destruct (lookup_keylet (contents_of σ v) k) as [s|] eqn:Es.
    2:{ subst o. eexists _, _, _. split; [reflexivity|]. split; [|split; [by rewrite Ec|lia]]. split; [done|]. split; [done|]. by rewrite Ecb. }
    apply lookup_keylet_Some in Es as [Es _].
    destruct Hm as (l & -> & Hl & Hh). destruct (Hf s Es) as [HU Hkey]. destruct (Hent _ _ Hv Es) as [Hsk _].
    unfold deref. rewrite Hl. cbn [mbind res_bind].
    destruct (write_update σ' v' (k_key k) l s (f s) Hv' Hc' Hh Hl ltac:(congruence) HU) as (v2 & E2 & Hv2 & Hc2 & Ebs2 & Ec2 & Ecb2 & Ed2). rewrite E2.
    eexists _, _, _. split; [reflexivity|]. split; [|split; [by rewrite Ec2, Ec, Hsk|lia]]. split; [done|]. split; [done|]. split; [congruence|].
    rewrite Ebs in Ecb2. rewrite Ecb2. congruence.
  - destruct (peek_spec σ v k Hv Hc Ho) as (σ' & v' & o & E & Hv' & Hc' & Ebs & Ec & Ecb & Ed & Hm). rewrite E. cbn [mbind res_bind].
    destruct (lookup_keylet (contents_of σ v) k) as [s|] eqn:Es.
    2:{ subst o. eexists _, _, _. split; [reflexivity|]. split; [|split; [by rewrite Ec|lia]]. split; [done|]. split; [done|]. by rewrite Ecb. }
    apply lookup_keylet_Some in Es as [Es _].
    destruct Hm as (l & -> & Hl & Hh). destruct (Hent _ _ Hv Es) as [Hsk _].
    destruct (erase_spec σ' v' (k_key k) l s Hv' Hc' Hh Hl) as (v2 & E2 & Hv2 & Hc2 & Ebs2 & Ec2 & Ed2). rewrite E2.
    eexists _, _, _. split; [reflexivity|]. split; [|split; [by rewrite Ec2, Ec, Hsk|lia]]. split; [done|]. split; [done|]. split; [congruence|]. by rewrite Ecb.
  - eexists _, _, _. split; [reflexivity|]. split; [done|]. done.
Qed.

Lemma run_view_ops_spec base B ops : forall σ v, run_inv base B σ v -> ops_valid U (contents_of σ v) ops ->
  exists σ' v' l, run_view_ops σ v ops = Val (σ', v', l) /\ run_inv base B σ' v' /\ spec_view_ops (contents_of σ v) ops = (l, contents_of σ' v') /\
    dropsDestroyed_ (table_ v') = dropsDestroyed_ (table_ v) + fees ops.
Proof.
  induction ops as [|o ops IH]; intros σ v Hi Ho; cbn [ops_valid] in Ho.
  { exists σ, v, []. split; [done|]. split; [done|]. split; [done|cbn; lia]. }
  destruct Ho as [Ho Hos]. destruct (run_view_op_spec base B σ v o Hi Ho) as (σ1 & v1 & a & E1 & Hi1 & S1 & D1). rewrite S1 in Hos.
  destruct (IH σ1 v1 Hi1 Hos) as (σ2 & v2 & l & E2 & Hi2 & S2 & D2). exists σ2, v2, (a :: l). cbn [run_view_ops spec_view_ops]. rewrite E1. cbn [mbind res_bind].
  rewrite E2, S1, S2. split; [done|]. split; [done|]. split; [done|]. destruct o; cbn [fees foldr] in *; unfold fees in *; lia.
Qed.
End sandbox.

(** ** Applying a sandbox *)

Section refine.
Context {V : Type} {U : SLE -> Prop} `{HW : RawViewLaws V U}.

Lemma new_sandbox_inv σ (base : V) : view_ok σ base -> run_inv (U := U) base (contents_of σ base) σ (new_sandbox base).
Proof.
  intros Hv. split; [|split; [|done]].
  - split; [done|]. split; [by intros k e Hi|]. intros l (k & a & Hi)%elem_of_table_locs. done.
  - by intros k l Hi.
Qed.

Lemma new_sandbox_contents σ (base : V) : contents_of σ (new_sandbox base) = contents_of σ base.
Proof. apply map_eq. intros k. cbn. by rewrite shown_lookup, lookup_empty. Qed.

(** The run leaves the base as it is; the changes can then be applied to a view that shows the same. *)
Lemma sandbox_run σ (base : V) ops : view_ok σ base -> ops_valid U (contents_of σ base) ops ->
  exists σ' v l c, run_view_ops σ (new_sandbox base) ops = Val (σ', v, l) /\ spec_view_ops (contents_of σ base) ops = (l, c) /\
    view_ok σ' base /\ contents_of σ' base = contents_of σ base /\
    forall to : V, view_ok σ' to -> contents_of σ' to = contents_of σ base -> locs to = locs base ->
      exists to', sandbox_apply σ' v to = Val to' /\ view_ok σ' to' /\ contents_of σ' to' = c /\ destroyed to' = destroyed to + fees ops.
Proof.
  intros Hv Ho. pose proof (new_sandbox_inv σ base Hv) as Hi. rewrite <- new_sandbox_contents in Ho.
  destruct (run_view_ops_spec _ _ ops σ _ Hi Ho) as (σ' & v & l & E & (Hv' & Hc & Hb & HB) & Es & Ed). rewrite new_sandbox_contents in Es.
  pose proof Hv' as (Hbase & Ht & Hd). pose proof (applied_shown σ' v Hv' Hc) as Happ. rewrite Hb in *.
  exists σ', v, l, (contents_of σ' v). split; [done|]. split; [done|]. split; [done|]. split; [done|]. intros to Hto Eto Hl.
  rewrite HB, <- Eto in Ht. rewrite HB, <- Eto in Happ. rewrite <- Hl in Hd.
  destruct (table_apply_spec σ' (items_ (table_ v)) (dropsDestroyed_ (table_ v)) to Hto Ht Hd) as (to' & Ea & Hvb & Ecb & Edb & _).
  exists to'. split; [done|]. split; [done|]. split; [by rewrite Ecb, Happ|]. rewrite Edb, Ed. cbn. lia.
Qed.

(** C17: a sandbox over any view that keeps the laws of the interface behaves as the finite map of entries
    the view shows: every valid sequence of operations runs without an exception and answers as on the map.
    Applying the sandbox succeeds, makes the base show the resulting map, and destroys the fees. *)
Theorem sandbox_refines σ (base : V) ops : view_ok σ base -> ops_valid U (contents_of σ base) ops ->
  exists σ' v l base', run_view_ops σ (new_sandbox base) ops = Val (σ', v, l) /\ l = (spec_view_ops (contents_of σ base) ops).1 /\
    sandbox_apply σ' v base = Val base' /\ view_ok σ' base' /\ contents_of σ' base' = (spec_view_ops (contents_of σ base) ops).2 /\
    destroyed base' = destroyed base + fees ops.
Proof.
  intros Hv Ho. destruct (sandbox_run σ base ops Hv Ho) as (σ' & v & l & c & E & Es & Hvb & Ecb & Happ).
  destruct (Happ base Hvb Ecb eq_refl) as (base' & Ea & Hv' & Ec & Ed). exists σ', v, l, base'. by rewrite Es.
Qed.
End refine.

(** ** Work on an open view *)

(** A transaction with its metadata, as they are stored. *)
Record Transaction := mkTx { tx_id : Z; tx_blob : list Z; tx_meta : list Z }.

(** A sandbox over the open view, which is applied to it or discarded; a transaction that is added. *)
Inductive open_step := SSandbox (ops : list view_op) (kept : bool) | STx (tx : Transaction).

Section steps.
Context {V : Type} `{ReadViewOps V}.

Definition run_step (σ : heap) (ov : OpenView V) (s : open_step) : mres (heap * OpenView V * list answer) :=
  match s with
  | SSandbox ops kept =>
    '(σ, v, l) ← run_view_ops σ (new_sandbox ov) ops;
    ov ← (if kept : bool then sandbox_apply σ v ov else Val ov);
    Val (σ, ov, l)
  | STx tx => ov ← rawTxInsert ov (tx_id tx) (tx_blob tx) (Some (tx_meta tx)); Val (σ, ov, [])
  end.

Fixpoint run_steps (σ : heap) (ov : OpenView V) (ss : list open_step) : mres (heap * OpenView V * list (list answer)) :=
  match ss with
  | [] => Val (σ, ov, [])
  | s :: ss => '(σ, ov, l) ← run_step σ ov s; '(σ, ov, ls) ← run_steps σ ov ss; Val (σ, ov, l :: ls)
  end.
End steps.

(** The same on a finite map. *)
Definition spec_step (c : gmap Z SLE) (s : open_step) : list answer * gmap Z SLE :=
  match s with
  | SSandbox ops kept => let '(l, c') := spec_view_ops c ops in (l, if kept : bool then c' else c)
  | STx _ => ([], c)
  end.

Fixpoint spec_steps (c : gmap Z SLE) (ss : list open_step) : list (list answer) * gmap Z SLE :=
  match ss with
  | [] => ([], c)
  | s :: ss => let '(l, c) := spec_step c s in let '(ls, c) := spec_steps c ss in (l :: ls, c)
  end.

Definition step_valid (U : SLE -> Prop) (c : gmap Z SLE) (s : open_step) : Prop :=
  match s with SSandbox ops _ => ops_valid U c ops | STx _ => True end.

Fixpoint steps_valid (U : SLE -> Prop) (c : gmap Z SLE) (ss : list open_step) : Prop :=
  match ss with
  | [] => True
  | s :: ss => step_valid U c s /\ steps_valid U (spec_step c s).2 ss
  end.

Definition step_fees (s : open_step) : Z := match s with SSandbox ops true => fees ops | _ => 0 end.
Definition total_fees (ss : list open_step) : Z := foldr (fun s n => step_fees s + n) 0 ss.
Definition step_txs (ss : list open_step) : list Transaction := omap (fun s => match s with STx tx => Some tx | _ => None end) ss.

(** The transactions of an open view. *)
Definition tx_entries (txs : list Transaction) : list (Z * (list Z * option (list Z))) := (fun tx => (tx_id tx, (tx_blob tx, Some (tx_meta tx)))) <$> txs.

Lemma tx_entries_keys txs : (tx_entries txs).*1 = tx_id <$> txs.
Proof. unfold tx_entries. by rewrite <- list_fmap_compose. Qed.

Section open.
Context {V : Type} {U : SLE -> Prop} `{HW : RawViewLaws V U}.
Implicit Types (ov : OpenView V).

(** Applying changes keeps the base and the transactions. *)
Lemma open_apply_items σ (l : list (Z * (Action * loc))) : forall ov ov', apply_items σ l ov = Val ov' -> ov_base ov' = ov_base ov /\ ov_txs ov' = ov_txs ov.
Proof.
  induction l as [|[k [a p]] l IH]; intros ov ov' E; cbn [apply_items] in E; [by injection E as <-|]. res_inv. apply IH in Hk as [-> ->].
  destruct a; cbn in Hb; [by injection Hb as <-| | |]; res_inv; done.
Qed.

Lemma open_sandbox_apply σ (v : ApplyViewBase (OpenView V)) ov ov' : sandbox_apply σ v ov = Val ov' -> ov_base ov' = ov_base ov /\ ov_txs ov' = ov_txs ov.
Proof. intros E. apply open_apply_items in E as [-> ->]. done. Qed.

Lemma run_step_spec σ ov s : open_ok (U := U) σ ov -> step_valid U (contents_of σ ov) s ->
  (forall tx, s = STx tx -> ov_txs ov !! tx_id tx = None) ->
  exists σ' ov' l, run_step σ ov s = Val (σ', ov', l) /\ open_ok (U := U) σ' ov' /\ ov_base ov' = ov_base ov /\
    spec_step (contents_of σ ov) s = (l, contents_of σ' ov') /\ raw_drops (ov_items ov') = raw_drops (ov_items ov) + step_fees s /\
    ov_txs ov' = match s with STx tx => <[tx_id tx := (tx_blob tx, Some (tx_meta tx))]> (ov_txs ov) | _ => ov_txs ov end.
Proof.
  intros Hv Ho Hnew. destruct s as [ops kept|tx]; cbn [run_step spec_step step_valid step_fees] in *.
  - pose proof (sandbox_run (U := U) σ ov ops) as Hrun. destruct (Hrun Hv Ho) as (σ1 & v & l & c & E1 & Es & Hv1 & Ec1 & Happ). rewrite E1, Es. cbn [mbind res_bind].
    destruct kept; [|exists σ1, ov, l; rewrite Ec1; do 4 (split; [done|]); split; [lia|done]].
    destruct (Happ ov Hv1 Ec1 eq_refl) as (ov2 & Ea & Hv2 & Ec2 & Ed2). apply open_sandbox_apply in Ea as Hkeep. destruct Hkeep as [Hbase Htxs].
    rewrite Ea. cbn [mbind res_bind]. exists σ1, ov2, l. rewrite Ec2. split; [done|]. split; [done|]. split; [done|]. split; [done|]. split; [|done]. cbn in Ed2. lia.
  - cbn [mbind res_bind rawTxInsert open_txs_ops]. rewrite (Hnew tx) by done. cbn [mbind res_bind]. eexists _, _, _. split; [done|]. do 3 (split; [done|]). split; [cbn; lia|done].
Qed.

Lemma run_steps_spec ss : forall σ ov, open_ok (U := U) σ ov -> steps_valid U (contents_of σ ov) ss ->
  NoDup (tx_id <$> step_txs ss) -> (forall tx, tx ∈ step_txs ss -> ov_txs ov !! tx_id tx = None) ->
  exists σ' ov' ls, run_steps σ ov ss = Val (σ', ov', ls) /\ open_ok (U := U) σ' ov' /\ ov_base ov' = ov_base ov /\
    spec_steps (contents_of σ ov) ss = (ls, contents_of σ' ov') /\
    raw_drops (ov_items ov') = raw_drops (ov_items ov) + total_fees ss /\ ov_txs ov' = list_to_map (tx_entries (step_txs ss)) ∪ ov_txs ov.
Proof.
  induction ss as [|s ss IH]; intros σ ov Hv Hval Hnd Hnew.
  { exists σ, ov, []. do 4 (split; [done|]). split; [cbn; lia|]. cbn. by rewrite (left_id_L ∅ (∪)). }
  cbn [steps_valid] in Hval. destruct Hval as [Ho Hval].
  destruct (run_step_spec σ ov s Hv Ho) as (σ1 & ov1 & l & E1 & Hv1 & Eb1 & Es1 & Ed1 & Et1).
  { intros tx ->. apply Hnew. by left. }
  rewrite Es1 in Hval. cbn [snd] in Hval.
  assert (NoDup (tx_id <$> step_txs ss) /\ forall tx, tx ∈ step_txs ss -> ov_txs ov1 !! tx_id tx = None) as [Hnd1 Hnew1].
  { rewrite Et1. destruct s as [|tx]; cbn in Hnd, Hnew; [done|]. apply NoDup_cons in Hnd as [Hid Hnd]. split; [done|]. intros tx' Hi.
    rewrite lookup_insert_ne; [apply Hnew; by right|]. intros E. apply Hid. rewrite E. by apply list_elem_of_fmap_2. }
  destruct (IH σ1 ov1 Hv1 Hval Hnd1 Hnew1) as (σ2 & ov2 & ls & E2 & Hv2 & Eb2 & Es2 & Ed2 & Et2).
  exists σ2, ov2, (l :: ls). cbn [run_steps spec_steps]. rewrite E1. cbn [mbind res_bind]. rewrite E2, Es1, Es2. split; [done|]. split; [done|]. split; [congruence|]. split; [done|].
  split; [cbn [total_fees foldr]; unfold total_fees in Ed2; lia|]. rewrite Et2, Et1. destruct s as [|tx]; [done|].
  change (tx_entries (step_txs (STx tx :: ss))) with ((tx_id tx, (tx_blob tx, Some (tx_meta tx))) :: tx_entries (step_txs ss)). rewrite list_to_map_cons.
  rewrite <- insert_union_l, <- insert_union_r; [done|]. apply not_elem_of_list_to_map_1. rewrite tx_entries_keys. cbn in Hnd. by apply NoDup_cons in Hnd as [? _].
Qed.
End open.

(** ** Closing the ledger *)

Section close.
Context `{Hsha : Sha512Half} {L : list SLE} `{HE : !Entries L}.
Abbreviation U := (fun s => s ∈ L).
Implicit Types (lg : Ledger).

Definition tx_ok (tx : Transaction) : Prop := key_ok (tx_id tx) /\ vsize (tx_blob tx) <= 918744 /\ vsize (tx_meta tx) <= 918744.

(** Applying changes to the entries keeps the transaction map. *)
Lemma ledger_apply_items σ (l : list (Z * (RawAction * loc))) : forall lg lg', apply_items σ l lg = Val lg' -> txMap_ lg' = txMap_ lg.
Proof.
  induction l as [|[k [a p]] l IH]; intros lg lg' E; cbn [apply_items] in E; [by injection E as <-|]. res_inv. apply IH in Hk as ->.
  destruct a; cbn in Hb; unfold ledger_rawErase, ledger_rawInsert, ledger_rawReplace in Hb; 
    destruct (deref σ p); try done; cbn [mbind res_bind] in Hb;
    [destruct (delItem _ _) as [[[] m]| |]|destruct (addGiveItem _ _ _) as [[[] m]| |]|destruct (updateGiveItem _ _ _) as [[[] m]| |]]; cbn in Hb; by simplify_eq.
Qed.

(** The transaction map holds the transaction. *)
Definition tx_stored lg (tx : Transaction) : Prop :=
  exists i, contents (txMap_ lg) !! tx_id tx = Some i /\ deserializeTxPlusMeta i = Val (tx_blob tx, tx_meta tx).

Lemma ledger_tx_insert lg tx : map_ok tnTRANSACTION_MD (txMap_ lg) -> tx_ok tx -> contents (txMap_ lg) !! tx_id tx = None ->
  exists lg', rawTxInsert lg (tx_id tx) (tx_blob tx) (Some (tx_meta tx)) = Val lg' /\ map_ok tnTRANSACTION_MD (txMap_ lg') /\
    stateMap_ lg' = stateMap_ lg /\ info_drops lg' = info_drops lg /\ tx_stored lg' tx /\
    forall id, id <> tx_id tx -> contents (txMap_ lg') !! id = contents (txMap_ lg) !! id.
Proof.
  intros Hm (Hk & Hb & Ht) Hn. cbn [rawTxInsert ledger_txs_ops]. unfold ledger_rawTxInsert.
  destruct (getVL_addVL (tx_meta tx) [] Ht) as (t & Et & Gt). rewrite app_nil_r in Gt. destruct (getVL_addVL (tx_blob tx) t Hb) as (s & Es & Gs).
  rewrite Es. cbn [mbind res_bind]. rewrite Et. cbn [mbind res_bind].
  pose proof (addGiveItem_spec tnTRANSACTION_MD (txMap_ lg) (mkItem (tx_id tx) (s ++ t)) Hm Hk) as Ha. cbn [item_key] in Ha. rewrite Hn in Ha.
  destruct Ha as (m & Ea & Hm' & _ & Ec). rewrite Ea. cbn [mbind res_bind negb]. eexists. split; [reflexivity|]. cbn. split; [done|]. split; [done|]. split; [done|]. split.
  - exists (mkItem (tx_id tx) (s ++ t)). cbn. rewrite Ec, lookup_insert_eq. split; [done|]. unfold deserializeTxPlusMeta. cbn [item_slice]. rewrite Gs. cbn [mbind res_bind]. by rewrite Gt.
  - intros id Hne. rewrite Ec. by rewrite lookup_insert_ne.
Qed.

Lemma ledger_insert_txs txs : forall lg, map_ok tnTRANSACTION_MD (txMap_ lg) -> Forall tx_ok txs -> NoDup (tx_id <$> txs) ->
  (forall tx, tx ∈ txs -> contents (txMap_ lg) !! tx_id tx = None) ->
  exists lg', insert_txs (tx_entries txs) lg = Val lg' /\ stateMap_ lg' = stateMap_ lg /\ info_drops lg' = info_drops lg /\
    map_ok tnTRANSACTION_MD (txMap_ lg') /\ (forall tx, tx ∈ txs \/ tx_stored lg tx -> tx_stored lg' tx).
Proof.
  induction txs as [|tx txs IH]; intros lg Hm Hok Hnd Hn.
  { exists lg. do 4 (split; [done|]). by intros tx [?%not_elem_of_nil|?]. }
  apply Forall_cons in Hok as [Ho Hok]. rewrite fmap_cons in Hnd. apply NoDup_cons in Hnd as [Hid Hnd].
  destruct (ledger_tx_insert lg tx Hm Ho) as (lg1 & E1 & Hm1 & Es1 & Ed1 & Hst & Hother); [apply Hn; by left|].
  assert (forall tx', tx' ∈ txs -> tx_id tx' <> tx_id tx) as Hne by (intros tx' Hi E; apply Hid; rewrite <- E; by apply list_elem_of_fmap_2).
  destruct (IH lg1 Hm1 Hok Hnd) as (lg2 & E2 & Es2 & Ed2 & Hm2 & Hall).
  { intros tx' Hi. rewrite Hother by auto. apply Hn. by right. }
  exists lg2. change (tx_entries (tx :: txs)) with ((tx_id tx, (tx_blob tx, Some (tx_meta tx))) :: tx_entries txs). cbn [insert_txs]. rewrite E1. cbn [mbind res_bind].
  split; [done|]. split; [congruence|]. split; [congruence|]. split; [done|]. intros tx' [[->|Hi]%elem_of_cons|(i & Hi & Hd)]; apply Hall; [by right|by left|right].
  exists i. split; [|done]. rewrite Hother; [done|]. intros E. rewrite E, Hn in Hi; [done|by left].
Qed.

(** The transactions of the open view in the order in which they are inserted. *)
Lemma tx_entries_sorted txs : NoDup (tx_id <$> txs) -> exists txs', entries (list_to_map (tx_entries txs) : txs_map) = tx_entries txs' /\ txs' ≡ₚ txs.
Proof.
  intros Hnd. assert (entries (list_to_map (tx_entries txs) : txs_map) ≡ₚ tx_entries txs) as Hp.
  { unfold entries. rewrite merge_sort_Permutation. apply map_to_list_to_map. by rewrite tx_entries_keys. }
  unfold tx_entries in Hp at 2. apply Permutation_map_inv in Hp as (txs' & E & Hp'). exists txs'. split; [exact E|]. by symmetry.
Qed.

(** C6: work on an open view over a ledger.  A series of sandboxes, each applied to the open view or discarded, and of
    transactions added with their metadata runs without an exception and answers as on the finite map of the ledger's
    entries, one after the other, the discarded sandboxes leaving no trace.  Applying the open view to the ledger succeeds: then every read finds
    what is in the resulting map, the drops are less by the fees of the sandboxes applied, and every transaction is in the transaction
    map with its metadata. *)
Theorem open_view_commits lg ss : ledger_ok (L := L) ∅ lg -> map_ok tnTRANSACTION_MD (txMap_ lg) ->
  steps_valid U (contents_of ∅ lg) ss -> Forall tx_ok (step_txs ss) -> NoDup (tx_id <$> step_txs ss) ->
  (forall tx, tx ∈ step_txs ss -> contents (txMap_ lg) !! tx_id tx = None) ->
  exists σ ov ls lg', run_steps ∅ (new_open_view lg) ss = Val (σ, ov, ls) /\ ls = (spec_steps (contents_of ∅ lg) ss).1 /\
    open_apply σ ov lg = Val lg' /\
    (forall k, key_range (k_key k) -> read σ lg' k = Val (lookup_keylet (spec_steps (contents_of ∅ lg) ss).2 k)) /\
    info_drops lg' = info_drops lg - total_fees ss /\
    forall tx, tx ∈ step_txs ss -> ledger_txRead lg' (tx_id tx) = Val (Some (tx_blob tx, tx_meta tx)).
Proof.
  intros Hlg Hmd Hval Htx Hnd Hnew.
  assert (open_ok (U := U) ∅ (new_open_view lg)) as Hov.
  { split; [done|]. split; [by intros k e Hi|]. intros l (k & a & Hi)%elem_of_table_locs. done. }
  assert (contents_of ∅ (new_open_view lg) = contents_of ∅ lg) as Ec0 by (apply map_eq; intros k; cbn; by rewrite shown_lookup, lookup_empty).
  rewrite <- Ec0 in Hval. set (txs := step_txs ss) in *. destruct (run_steps_spec ss ∅ (new_open_view lg) Hov Hval Hnd) as (σ & ov & ls & E & Hv & Eb & Es & Ed & Et); [done|].
  rewrite Ec0 in Es. cbn [ov_base new_open_view] in Eb. fold txs in Et. cbn in Et, Ed. rewrite (right_id_L ∅ (∪)) in Et.
  pose proof Hv as (Hvb & Htab & Hdis). rewrite Eb in *.
  pose proof (table_apply_spec (W := Ledger) (U := U) σ (raw_items (ov_items ov)) (raw_drops (ov_items ov)) lg) as Happ. destruct (Happ Hvb Htab Hdis) as (lg1 & Ea & Hv1 & Ec1 & Ed1 & _).
  apply ledger_apply_items in Ea as Htm. cbn in Htm. destruct (tx_entries_sorted txs Hnd) as (txs' & Een & Hperm).
  destruct (ledger_insert_txs txs' lg1) as (lg2 & E2 & Es2 & Ed2 & Hm2 & Hst).
  - by rewrite Htm.
  - by rewrite Hperm.
  - by rewrite Hperm.
  - intros tx Hi. rewrite Htm. apply Hnew. by rewrite <- Hperm.
  - exists σ, ov, ls, lg2. rewrite Es. split; [done|]. split; [done|]. split; [unfold open_apply, rst_apply; rewrite Ea; cbn [mbind res_bind]; by rewrite Et, Een|].
    assert (ledger_ok (L := L) σ lg2) as Hv2 by (destruct Hv1; split; by rewrite Es2).
    assert (contents_of σ lg2 = contents_of σ ov) as Ec2.
    { transitivity (contents_of σ lg1); [cbn; by rewrite Es2|]. rewrite Ec1. apply map_eq. intros k. cbn. rewrite Eb, applied_lookup, shown_lookup.
      destruct (raw_items (ov_items ov) !! k) as [[[] l]|]; done. }
    split; [|split].
    + intros k Hk. pose proof (read_law (U := U) σ lg2 k) as Hr. rewrite (Hr Hv2 Hk). cbn [snd]. by rewrite Ec2.
    + rewrite Ed2. cbn in Ed1. rewrite Ed in Ed1. cbn in Ed1. lia.
    + intros tx Hi. destruct (Hst tx) as (i & Hi' & Hd); [left; by rewrite Hperm|]. unfold ledger_txRead.
      assert (key_ok (tx_id tx)) as Hk by (rewrite Forall_forall in Htx; by apply Htx).
      rewrite (peekItem_spec tnTRANSACTION_MD) by done. rewrite Hi'. cbn [mbind res_bind]. by rewrite Hd.
Qed.
End close.

(** ** Searching and ranging over a stack *)

Section search.
Context `{Hsha : Sha512Half} {L : list SLE} `{HE : !Entries L}.
Abbreviation U := (fun s => s ∈ L).

(** C35: through a sandbox over an open view over a ledger, [succ] terminates with the smallest key after the
    given one that the whole stack shows, if it is below the limit, and with nothing otherwise. *)
Theorem stack_succ σ (v : ApplyViewBase (OpenView Ledger)) key last : view_ok (U := U) σ v -> 0 <= key < 2 ^ 256 ->
  exists r, succ σ v key last = Val r /\ succ_spec (contents_of σ v) key last r.
Proof. intros Hv Hk. by apply (succ_law (U := U)). Qed.

(** The range of an open view over a ledger visits exactly the entries the view shows, each once and in the order
    of their keys: those of the ledger merged with those of its buffer. *)
Theorem stack_range σ (ov : OpenView Ledger) fuel : view_ok (U := U) σ ov ->
  (length (items (root_ (stateMap_ (ov_base ov)))) <= fuel)%nat -> (size (contents_of σ (ov_base ov)) + size (raw_items (ov_items ov)) <= fuel)%nat ->
  (sles ← ledger_sles fuel (ov_base ov); it ← slesBegin σ ov sles; visit_range σ fuel it) = Val (range_of (contents_of σ ov)).
Proof.
  intros Hv Hf1 Hf2. pose proof Hv as (Hb & _ & _). rewrite (ledger_sles_spec (L := L) σ (ov_base ov) fuel Hb Hf1). cbn [mbind res_bind].
  by apply (open_range_spec (U := U)).
Qed.
End search.

(** ** Samples *)

Module ViewSamples.
Import ShaSamples.

(** Three accounts of type [0x61] and an entry of type [0x75]. *)
Definition e1 : SLE := mkSLE k1 0x61 [1].
Definition e2 : SLE := mkSLE k2 0x61 [2].
Definition e2' : SLE := mkSLE k2 0x61 [22].
Definition e3 : SLE := mkSLE k3 0x75 [3].
Definition all_entries : list SLE := [e1; e2; e2'; e3].

#[export] Instance sample_entries : Entries all_entries.
Proof.
  split.
  - repeat constructor; vm_compute; discriminate || reflexivity.
  - repeat constructor; vm_compute; reflexivity.
  - apply no_collision_free. vm_compute. reflexivity.
Qed.

Definition genesis : Ledger := mkLedger new_map new_map 1000.

Lemma genesis_ok : ledger_ok (L := all_entries) ∅ genesis.
Proof.
  destruct (new_map_inv tnACCOUNT_STATE ltac:(discriminate)) as [Hinv Hc]. split; [exact Hinv|]. intros k i Hi. change (stateMap_ genesis) with new_map in Hi. rewrite Hc in Hi. discriminate.
Qed.

Definition set_fields (f : list Z) (s : SLE) : SLE := mkSLE (sle_key s) (sle_type s) f.

Definition tx1 : Transaction := mkTx 7 [70; 71] [72].
Definition tx2 : Transaction := mkTx 5 [50] [51; 52].
Definition ops1 : list view_op := [ODestroy 10; OInsert e1; OInsert e2; ORead (mkKeylet 0x61 k1)].
Definition ops2 : list view_op := [ODestroy 12; OModify (mkKeylet 0x61 k2) (set_fields [22]); OErase (unchecked k1); OInsert e3; ORead (mkKeylet 0x61 k3); OExists (unchecked k1)].

(** The first sandbox is applied, a second one discarded, the third applied. *)
Definition steps : list open_step := [STx tx1; SSandbox ops1 true; SSandbox [ODestroy 5; OErase (unchecked k1)] false; STx tx2; SSandbox ops2 true].

Ltac entry_goal := vm_compute; (reflexivity || (split; reflexivity) || tauto).

Lemma tx1_valid : ops_valid (fun s => s ∈ all_entries) (contents_of ∅ genesis) ops1.
Proof.
  unfold ops1. cbn [ops_valid op_valid]. split; [done|]. split; [split; [set_solver|split; [entry_goal|vm_compute; reflexivity]]|].
  split; [split; [set_solver|split; [entry_goal|vm_compute; reflexivity]]|]. split; [entry_goal|done].
Qed.

Lemma tx2_valid : ops_valid (fun s => s ∈ all_entries) (spec_view_ops (contents_of ∅ genesis) ops1).2 ops2.
Proof.
  unfold ops2. cbn [ops_valid op_valid]. split; [done|]. split; [split; [entry_goal|]|].
  { intros s Hs. assert (s = e2) as -> by (vm_compute in Hs; injection Hs as <-; vm_compute; reflexivity). split; [|done]. change (set_fields [22] e2) with e2'. set_solver. }
  split; [entry_goal|]. split; [split; [set_solver|split; [entry_goal|vm_compute; reflexivity]]|].
  split; [entry_goal|]. split; [|done]. split; [entry_goal|]. intros s Hs. done.
Qed.

Lemma sandbox_refines_witness : exists σ' v l base', run_view_ops ∅ (new_sandbox genesis) ops1 = Val (σ', v, l) /\
  l = (spec_view_ops (contents_of ∅ genesis) ops1).1 /\ sandbox_apply σ' v genesis = Val base' /\ ledger_ok (L := all_entries) σ' base' /\
  contents_of σ' base' = (spec_view_ops (contents_of ∅ genesis) ops1).2 /\ destroyed base' = destroyed genesis + fees ops1.
Proof. exact (sandbox_refines (V := Ledger) (U := fun s => s ∈ all_entries) ∅ genesis ops1 genesis_ok tx1_valid). Defined.

Lemma open_view_commits_witness : exists σ ov ls lg', run_steps ∅ (new_open_view genesis) steps = Val (σ, ov, ls) /\
  ls = (spec_steps (contents_of ∅ genesis) steps).1 /\ open_apply σ ov genesis = Val lg' /\
  (forall k, key_range (k_key k) -> read σ lg' k = Val (lookup_keylet (spec_steps (contents_of ∅ genesis) steps).2 k)) /\
  info_drops lg' = info_drops genesis - total_fees steps /\
  forall tx, tx ∈ step_txs steps -> ledger_txRead lg' (tx_id tx) = Val (Some (tx_blob tx, tx_meta tx)).
Proof.
  apply (open_view_commits (L := all_entries)).
  - exact genesis_ok.
  - apply new_map_inv. discriminate.
  - unfold steps. cbn [steps_valid step_valid]. split; [done|]. split; [exact tx1_valid|]. split; [split; [done|]; split; [entry_goal|done]|]. split; [done|]. split; [exact tx2_valid|done].
  - repeat constructor; vm_compute; discriminate || reflexivity.
  - change (NoDup [7; 5]). repeat constructor; set_solver.
  - intros tx _. vm_compute. reflexivity.
Defined.

(** The fees of the discarded sandbox are not paid. *)
Lemma steps_fees : total_fees steps = 22.
Proof. reflexivity. Qed.

(** The open view after the first sandbox, and a sandbox in which the second has run. *)
Definition opened : heap * OpenView Ledger * list (list answer) := from_res (∅, new_open_view genesis, []) (run_steps ∅ (new_open_view genesis) [STx tx1; SSandbox ops1 true]).
Definition heap1 : heap := opened.1.1.
Definition open1 : OpenView Ledger := opened.1.2.
Definition sandboxed : heap * ApplyViewBase (OpenView Ledger) * list answer := from_res (heap1, new_sandbox open1, []) (run_view_ops heap1 (new_sandbox open1) ops2).

Lemma open1_ok : open_ok (U := fun s => s ∈ all_entries) heap1 open1 /\ contents_of heap1 open1 = (spec_view_ops (contents_of ∅ genesis) ops1).2.
Proof.
  assert (open_ok (U := fun s => s ∈ all_entries) ∅ (new_open_view genesis)) as Hov.
  { split; [exact genesis_ok|]. split; [by intros k e Hi|]. intros l (k & a & Hi)%elem_of_table_locs. done. }
  assert (contents_of ∅ (new_open_view genesis) = contents_of ∅ genesis) as Ec by (vm_compute; reflexivity).
  destruct (run_steps_spec [STx tx1; SSandbox ops1 true] ∅ (new_open_view genesis) Hov) as (σ & ov & ls & E & Hv & _ & Es & _).
  - split; [done|]. split; [cbn [spec_step snd step_valid]; rewrite Ec; exact tx1_valid|done].
  - repeat constructor. set_solver.
  - intros tx _. vm_compute. reflexivity.
  - unfold heap1, open1, opened. rewrite E. split; [exact Hv|]. rewrite Ec in Es. cbn [spec_steps spec_step] in Es. destruct (spec_view_ops _ ops1). cbn in Es |- *. congruence.
Qed.

Lemma sandboxed_ok : view_ok (U := fun s => s ∈ all_entries) sandboxed.1.1 sandboxed.1.2.
Proof.
  destruct open1_ok as [Hv Ec]. pose proof tx2_valid as Hval. rewrite <- Ec in Hval.
  pose proof (run_view_ops_spec (V := OpenView Ledger) (U := fun s => s ∈ all_entries) open1 (contents_of heap1 open1) ops2 heap1 (new_sandbox open1)) as Hr.
  destruct Hr as (σ & v & l & E & (Hok & _) & _).
  - exact (new_sandbox_inv (U := fun s => s ∈ all_entries) heap1 open1 Hv).
  - by rewrite new_sandbox_contents.
  - unfold sandboxed. rewrite E. exact Hok.
Qed.

Lemma stack_succ_witness : exists r, succ sandboxed.1.1 sandboxed.1.2 k1 None = Val r /\ succ_spec (contents_of sandboxed.1.1 sandboxed.1.2) k1 None r.
Proof. apply (stack_succ (L := all_entries)); [exact sandboxed_ok|]. vm_compute. split; [discriminate|reflexivity]. Defined.

(** After [k1], erased in the sandbox, comes [k2] of the open view, then the new [k3]. *)
Lemma succ_values : succ sandboxed.1.1 sandboxed.1.2 0 None = Val (Some k2) /\ succ sandboxed.1.1 sandboxed.1.2 k2 None = Val (Some k3) /\
  succ sandboxed.1.1 sandboxed.1.2 k2 (Some k3) = Val None.
Proof. split; [|split]; vm_compute; reflexivity. Qed.

Lemma stack_range_witness : (sles ← ledger_sles 5 (ov_base open1); it ← slesBegin heap1 open1 sles; visit_range heap1 5 it) = Val (range_of (contents_of heap1 open1)).
Proof. apply (stack_range (L := all_entries)); [exact (proj1 open1_ok)|vm_compute; repeat constructor|vm_compute; repeat constructor]. Defined.

(** An entry written to after [peek] but not updated: the sandbox shows the change, applying it does not. *)
Definition forgotten_update : mres (option SLE * option SLE) :=
  '(σ, v, o) ← peek heap1 (new_sandbox open1) (unchecked k1);
  match o with
  | Some l =>
    let σ := <[l := set_fields [99] e1]> σ in
    seen ← read σ v (unchecked k1); to ← sandbox_apply σ v open1; applied ← read σ to (unchecked k1); Val (seen, applied)
  | None => Undef
  end.

Lemma forgotten_update_lost : forgotten_update = Val (Some (set_fields [99] e1), Some e1).
Proof. vm_compute. reflexivity. Qed.

(** [exists] of the ledger does not look at the type of the keylet; that of the open view does. *)
Lemma exists_type_differs :
  exists_ heap1 open1 (mkKeylet 0x75 k1) = Val false /\
  (lg ← open_apply heap1 open1 genesis; exists_ heap1 lg (mkKeylet 0x75 k1)) = Val true.
Proof. split; vm_compute; reflexivity. Qed.
End ViewSamples.
