(* ===== verification/PayLedger.v ===== *)
(** * PayLedger: the part of the ledger that escrows, payment channels and trust lines use

    Account roots, trust lines, escrows, payment channels, owner directories and
    deposit authorizations, with the rules in force and the close time of the parent
    ledger.  Entries are found by the keys of their keylets ([protocol/impl/Indexes.cpp]),
    a parameter.  A handler returns a result code with the ledger as it left it; an
    exception or a [LogicError] is an error of the monad. *)

From stdpp Require Import base numbers list option gmap.
From Stdlib Require Import ZArith Lia.
From S2P Require Import Prelude Leb128 Double Xfl IouAmount StAmount Enum Runtime Directory Context StateLedger.

Local Open Scope Z_scope.

(** ** Results *)

(** The codes of [protocol/TER.h] that these transactors return. *)
Definition temBAD_AMOUNT : TER := tem_other (-298).
Definition temBAD_CURRENCY : TER := tem_other (-297).
Definition temBAD_EXPIRATION : TER := tem_other (-296).
Definition temBAD_SIGNATURE : TER := tem_other (-282).
Definition temBAD_SRC_ACCOUNT : TER := tem_other (-281).
Definition temDST_IS_SRC : TER := tem_other (-279).
Definition temINVALID_FLAG : TER := tem_other (-276).
Definition temBAD_SIGNER : TER := tem_other (-272).
Definition terNO_ACCOUNT : TER := ter_other (-96).
Definition tecUNFUNDED_PAYMENT : TER := tec_other 104.
Definition tecNO_DST : TER := tec_other 124.
Definition tecNO_LINE_INSUF_RESERVE : TER := tec_other 126.
Definition tecPATH_DRY : TER := tec_other 128.
Definition tecUNFUNDED : TER := tec_other 129.
Definition tecNO_ISSUER : TER := tec_other 133.
Definition tecNO_AUTH : TER := tec_other 134.
Definition tecNO_LINE : TER := tec_other 135.
Definition tecFROZEN : TER := tec_other 137.
Definition tecNO_TARGET : TER := tec_other 138.
Definition tecNO_PERMISSION : TER := tec_other 139.
Definition tecDST_TAG_NEEDED : TER := tec_other 143.
Definition tecCRYPTOCONDITION_ERROR : TER := tec_other 146.
Definition tecPRECISION_LOSS : TER := tec_other 163.

(** An exception, which ends the transaction, or a [LogicError], which ends the server. *)
Inductive pay_error := Exn (x : cxx_exception) | Abort.
Abbreviation pres := (res pay_error).

Definition lift_f {A} (c : fres A) : pres A := match c with Val a => Val a | Err x => Err (Exn x) | Undef => Undef end.
Definition lift_d {A} (c : dres A) : pres A := match c with Val a => Val a | Err _ => Err Abort | Undef => Undef end.

(** ** Ledger entries *)

(** An [ltRIPPLE_STATE]; the issuers of the limits are the two accounts, the balance is
    that of the low one, and absent qualities read as 0. *)
Record RippleState := mkLine {
  ln_balance : STAmount;
  ln_lowLimit : STAmount;
  ln_highLimit : STAmount;
  ln_lockedBalance : option STAmount;
  ln_lockCount : option Z;
  ln_flags : Z;
  ln_lowNode : Z;
  ln_highNode : Z;
  ln_lowQualityIn : Z;
  ln_lowQualityOut : Z;
  ln_highQualityIn : Z;
  ln_highQualityOut : Z
}.

Definition set_line_balance (b : STAmount) (ln : RippleState) : RippleState :=
  mkLine b (ln_lowLimit ln) (ln_highLimit ln) (ln_lockedBalance ln) (ln_lockCount ln) (ln_flags ln) (ln_lowNode ln) (ln_highNode ln)
    (ln_lowQualityIn ln) (ln_lowQualityOut ln) (ln_highQualityIn ln) (ln_highQualityOut ln).
Definition set_locked (b : option STAmount) (count : option Z) (ln : RippleState) : RippleState :=
  mkLine (ln_balance ln) (ln_lowLimit ln) (ln_highLimit ln) b count (ln_flags ln) (ln_lowNode ln) (ln_highNode ln)
    (ln_lowQualityIn ln) (ln_lowQualityOut ln) (ln_highQualityIn ln) (ln_highQualityOut ln).
Definition set_line_flags (f : Z) (ln : RippleState) : RippleState :=
  mkLine (ln_balance ln) (ln_lowLimit ln) (ln_highLimit ln) (ln_lockedBalance ln) (ln_lockCount ln) f (ln_lowNode ln) (ln_highNode ln)
    (ln_lowQualityIn ln) (ln_lowQualityOut ln) (ln_highQualityIn ln) (ln_highQualityOut ln).

(** An [ltESCROW]. *)
Record EscrowSLE := mkEscrow {
  e_account : AccountID;
  e_destination : AccountID;
  e_amount : STAmount;
  e_condition : option Blob;
  e_cancelAfter : option Z;
  e_finishAfter : option Z;
  e_sourceTag : option Z;
  e_destinationTag : option Z;
  e_ownerNode : Z;
  e_destinationNode : option Z
}.

(** An [ltPAYCHAN]. *)
Record PayChanSLE := mkChan {
  ch_account : AccountID;
  ch_destination : AccountID;
  ch_amount : STAmount;
  ch_balance : STAmount;
  ch_settleDelay : Z;
  ch_publicKey : Blob;
  ch_cancelAfter : option Z;
  ch_expiration : option Z;
  ch_sourceTag : option Z;
  ch_destinationTag : option Z;
  ch_ownerNode : Z;
  ch_destinationNode : option Z
}.

(** The amendments these transactors ask for. *)
Record Rules := mkRules {
  featurePaychanAndEscrowForTokens : bool;
  featureDepositAuth : bool;
  featureHooks : bool;
  featureCryptoConditionsSuite : bool;
  fix1543 : bool;
  fix1571 : bool;
  fixPayChanRecipientOwnerDir : bool
}.

(** Flags of account roots and of trust lines ([protocol/LedgerFormats.h]). *)
Definition lsfRequireDestTag : Z := 0x00020000.
Definition lsfRequireAuth : Z := 0x00040000.
Definition lsfDisallowXRP : Z := 0x00080000.
Definition lsfGlobalFreeze : Z := 0x00400000.
Definition lsfDefaultRipple : Z := 0x00800000.
Definition lsfDepositAuth : Z := 0x01000000.
Definition lsfLowReserve : Z := 0x00010000.
Definition lsfHighReserve : Z := 0x00020000.
Definition lsfLowAuth : Z := 0x00040000.
Definition lsfHighAuth : Z := 0x00080000.
Definition lsfLowNoRipple : Z := 0x00100000.
Definition lsfHighNoRipple : Z := 0x00200000.
Definition lsfLowFreeze : Z := 0x00400000.
Definition lsfHighFreeze : Z := 0x00800000.

Definition has_flag (flags f : Z) : bool := negb (Z.land flags f =? 0).

(** ** The ledger *)

(** [sfTransferRate] is kept apart from the account roots; the outcome of a condition
    check is kept by the hash router under the transaction; [pl_others] has the keys of
    all entries of other types. *)
Record PayLedger := mkPay {
  pl_accounts : gmap AccountID AccountRoot;
  pl_transferRates : gmap AccountID Z;
  pl_lines : gmap uint256 RippleState;
  pl_escrows : gmap uint256 EscrowSLE;
  pl_channels : gmap uint256 PayChanSLE;
  pl_ownerDirs : gmap AccountID Dir;
  pl_others : gset uint256;
  pl_preauths : gset (AccountID * AccountID);
  pl_router : gmap uint256 bool;
  pl_fees : Fees;
  parentCloseTime : Z;
  rules : Rules
}.

Section setters.
Context (l : PayLedger).
Definition put_account (a : AccountID) (r : AccountRoot) : PayLedger :=
  mkPay (<[a := r]> (pl_accounts l)) (pl_transferRates l) (pl_lines l) (pl_escrows l) (pl_channels l) (pl_ownerDirs l) (pl_others l) (pl_preauths l) (pl_router l) (pl_fees l) (parentCloseTime l) (rules l).
Definition put_lines (m : gmap uint256 RippleState) : PayLedger :=
  mkPay (pl_accounts l) (pl_transferRates l) m (pl_escrows l) (pl_channels l) (pl_ownerDirs l) (pl_others l) (pl_preauths l) (pl_router l) (pl_fees l) (parentCloseTime l) (rules l).
Definition put_escrows (m : gmap uint256 EscrowSLE) : PayLedger :=
  mkPay (pl_accounts l) (pl_transferRates l) (pl_lines l) m (pl_channels l) (pl_ownerDirs l) (pl_others l) (pl_preauths l) (pl_router l) (pl_fees l) (parentCloseTime l) (rules l).
Definition put_channels (m : gmap uint256 PayChanSLE) : PayLedger :=
  mkPay (pl_accounts l) (pl_transferRates l) (pl_lines l) (pl_escrows l) m (pl_ownerDirs l) (pl_others l) (pl_preauths l) (pl_router l) (pl_fees l) (parentCloseTime l) (rules l).
Definition put_dirs (m : gmap AccountID Dir) : PayLedger :=
  mkPay (pl_accounts l) (pl_transferRates l) (pl_lines l) (pl_escrows l) (pl_channels l) m (pl_others l) (pl_preauths l) (pl_router l) (pl_fees l) (parentCloseTime l) (rules l).
Definition put_router (m : gmap uint256 bool) : PayLedger :=
  mkPay (pl_accounts l) (pl_transferRates l) (pl_lines l) (pl_escrows l) (pl_channels l) (pl_ownerDirs l) (pl_others l) (pl_preauths l) m (pl_fees l) (parentCloseTime l) (rules l).
End setters.

(** What [seqID] gives: the sequence or ticket of the transaction, or the hash of an
    emitted one. *)
Inductive SeqID := SeqValue (n : Z) | SeqHash (id : uint256).

Definition seqID (hooksEnabled emitted : bool) (id : uint256) (seqProxy : Z) : SeqID :=
  if hooksEnabled && emitted then SeqHash id else SeqValue seqProxy.

(** The keys of trust lines, escrows and channels. *)
Class PayKeylets := {
  line_key : AccountID -> AccountID -> Z -> uint256;
  escrow_key : AccountID -> SeqID -> uint256;
  paychan_key : AccountID -> AccountID -> SeqID -> uint256
}.

(** The state map has an entry under the key; [insert] is then a [LogicError]. *)
Definition occupied (l : PayLedger) (key : uint256) : bool :=
  bool_decide (is_Some (pl_lines l !! key)) || bool_decide (is_Some (pl_escrows l !! key)) || bool_decide (is_Some (pl_channels l !! key))
  || bool_decide (key ∈ pl_others l).

(** [keylet::line]: the accounts in order. *)
Definition keylet_line `{PayKeylets} (a b : AccountID) (currency : Z) : uint256 := line_key (Z.min a b) (Z.max a b) currency.

(** ** Shared steps *)

(** [sfBalance] of the root of an account is raised; a null pointer is undefined. *)
Definition credit (a : AccountID) (drops : Z) (l : PayLedger) : pres PayLedger :=
  match pl_accounts l !! a with
  | None => Undef
  | Some r => if i64_fits (sfBalance r + drops) then Val (put_account l a (set_balance (sfBalance r + drops) r)) else Undef
  end.

(** [adjustOwnerCount] on the root of an account. *)
Definition adjust_owner (a : AccountID) (n : Z) (l : PayLedger) : pres PayLedger :=
  match pl_accounts l !! a with None => Undef | Some r => Val (put_account l a (adjustOwnerCount n r)) end.

Definition owner_dir (l : PayLedger) (a : AccountID) : Dir := default ∅ (pl_ownerDirs l !! a).

Definition dirInsert (a : AccountID) (key : uint256) (l : PayLedger) : pres (option Z * PayLedger) :=
  '(page, d) ← lift_d (dirAdd false (owner_dir l a) key); Val (page, put_dirs l (<[a := d]> (pl_ownerDirs l))).

Definition dirErase (a : AccountID) (page : Z) (key : uint256) (l : PayLedger) : pres (bool * PayLedger) :=
  '(ok, d) ← lift_d (dirRemove (owner_dir l a) page key true); Val (ok, put_dirs l (<[a := d]> (pl_ownerDirs l))).

(** ** Handlers

    A handler runs on the ledger and may leave early with a code; what it changed until
    then stays in its view. *)

Definition pay (A : Type) : Type := PayLedger -> pres ((A + TER) * PayLedger).

#[export] Instance pay_ret : MRet pay := fun _ a l => Val (inl a, l).
#[export] Instance pay_bind : MBind pay := fun _ _ f m l =>
  '(r, l) ← m l; match r with inl a => f a l | inr ter => Val (inr ter, l) end.

Definition leave {A} (ter : TER) : pay A := fun l => Val (inr ter, l).
Definition refuse_if (b : bool) (ter : TER) : pay unit := if b then leave ter else mret tt.
Definition ask {A} (f : PayLedger -> A) : pay A := fun l => Val (inl (f l), l).
Definition some_or {A} (o : option A) (ter : TER) : pay A := match o with Some a => mret a | None => leave ter end.
Definition calc {A} (c : fres A) : pay A := fun l => a ← lift_f c; Val (inl a, l).
Definition defined (b : bool) : pay unit := fun l => if b then Val (inl tt, l) else Undef.
Definition change (f : PayLedger -> pres PayLedger) : pay unit := fun l => l ← f l; Val (inl tt, l).
Definition step {A} (f : PayLedger -> pres (A * PayLedger)) : pay A := fun l => '(a, l) ← f l; Val (inl a, l).

(** A call whose code is returned unless it is [tesSUCCESS]. *)
Definition call (f : PayLedger -> pres (TER * PayLedger)) : pay unit := fun l =>
  '(ter, l) ← f l; Val (if bool_decide (ter = tesSUCCESS) then inl tt else inr ter, l).

Definition run (m : pay unit) (l : PayLedger) : pres (TER * PayLedger) :=
  '(r, l) ← m l; Val (match r with inl _ => tesSUCCESS | inr ter => ter end, l).

(** *** Successful runs *)

Lemma pay_bind_inl {A B} (f : A -> pay B) (m : pay A) l b l' :
  (m ≫= f) l = Val (inl b, l') <-> exists a l1, m l = Val (inl a, l1) /\ f a l1 = Val (inl b, l').
Proof.
  unfold mbind, pay_bind. destruct (m l) as [[[a|ter] l1]| |]; cbn; split; try done.
  - intros Hf. eauto.
  - by intros (a' & l2 & [= <- <-] & Hf).
  - by intros (a' & l2 & ? & _).
  - by intros (a' & l2 & ? & _).
  - by intros (a' & l2 & ? & _).
Qed.

(** One step of a run that goes on. *)
Lemma pay_seq {A B} (f : A -> pay B) (m : pay A) l a l1 : m l = Val (inl a, l1) -> (m ≫= f) l = f a l1.
Proof. unfold mbind, pay_bind. by intros ->. Qed.

Lemma refuse_if_inl b ter l u l' : refuse_if b ter l = Val (inl u, l') <-> b = false /\ l' = l.
Proof. destruct b, u; cbn; split; [done|by intros []|by intros [= <-]|by intros [_ ->]]. Qed.

Lemma ask_inl {A} (f : PayLedger -> A) l a l' : ask f l = Val (inl a, l') <-> a = f l /\ l' = l.
Proof. unfold ask. split; [by intros [= <- <-]|by intros [-> ->]]. Qed.

Lemma some_or_inl {A} (o : option A) ter l a l' : some_or o ter l = Val (inl a, l') <-> o = Some a /\ l' = l.
Proof. destruct o; cbn; split; [by intros [= <- <-]|by intros [[= ->] ->]|done|by intros []]. Qed.

Lemma calc_inl {A} (c : fres A) l a l' : calc c l = Val (inl a, l') <-> c = Val a /\ l' = l.
Proof. unfold calc. destruct c; cbn; split; try done; [by intros [= <- <-]|by intros [[= ->] ->]|by intros []|by intros []]. Qed.

Lemma defined_inl b l u l' : defined b l = Val (inl u, l') <-> b = true /\ l' = l.
Proof. destruct b, u; cbn; split; [by intros [= <-]|by intros [_ ->]|done|by intros []]. Qed.

Lemma change_inl f l u l' : change f l = Val (inl u, l') <-> f l = Val l'.
Proof. unfold change. destruct u, (f l); cbn; split; congruence. Qed.

Lemma step_inl {A} (f : PayLedger -> pres (A * PayLedger)) l a l' : step f l = Val (inl a, l') <-> f l = Val (a, l').
Proof. unfold step. destruct (f l) as [[a' l1]| |]; cbn; split; congruence. Qed.

Lemma call_inl f l u l' : call f l = Val (inl u, l') <-> f l = Val (tesSUCCESS, l').
Proof. unfold call. destruct u, (f l) as [[ter l1]| |]; cbn; [|split; done..]. case_bool_decide; subst; split; congruence. Qed.

Lemma run_success m l l' : run m l = Val (tesSUCCESS, l') -> m l = Val (inl tt, l') \/ m l = Val (inr tesSUCCESS, l').
Proof. unfold run. destruct (m l) as [[[[]|ter] l1]| |]; cbn; [intros [= ->]; by left|intros [= -> ->]; by right|done..]. Qed.

(** A handler that leaves early leaves with an error. *)
Definition leaves_failing {A} (m : pay A) : Prop := forall l l', m l <> Val (inr tesSUCCESS, l').

Create HintDb leaving.

Lemma leaving_bind {A B} (m : pay A) (f : A -> pay B) : leaves_failing m -> (forall a, leaves_failing (f a)) -> leaves_failing (m ≫= f).
Proof.
  intros Hm Hf l l'. unfold mbind, pay_bind. specialize (Hm l). destruct (m l) as [[[a|ter] l1]| |]; cbn; [apply Hf| |done..].
  intros [= -> ->]. by apply (Hm l').
Qed.
Lemma leaving_ret {A} (a : A) : leaves_failing (mret a).
Proof. done. Qed.
Lemma leaving_refuse b ter : ter <> tesSUCCESS -> leaves_failing (refuse_if b ter).
Proof. intros Ht l l'. destruct b; [|done]. by intros [= ->]. Qed.
Lemma leaving_ask {A} (f : PayLedger -> A) : leaves_failing (ask f).
Proof. done. Qed.
Lemma leaving_some {A} (o : option A) ter : ter <> tesSUCCESS -> leaves_failing (some_or o ter).
Proof. intros Ht l l'. destruct o; [done|]. by intros [= ->]. Qed.
Lemma leaving_calc {A} (c : fres A) : leaves_failing (calc c).
Proof. intros l l'. unfold calc. by destruct c. Qed.
Lemma leaving_defined b : leaves_failing (defined b).
Proof. intros l l'. by destruct b. Qed.
Lemma leaving_change f : leaves_failing (change f).
Proof. intros l l'. unfold change. by destruct (f l). Qed.
Lemma leaving_step {A} (f : PayLedger -> pres (A * PayLedger)) : leaves_failing (step f).
Proof. intros l l'. unfold step. by destruct (f l) as [[]| |]. Qed.
Lemma leaving_call f : leaves_failing (call f).
Proof. intros l l'. unfold call. destruct (f l) as [[ter l1]| |]; cbn; [|done..]. case_bool_decide; [done|]. by intros [= -> ->]. Qed.

#[export] Hint Resolve leaving_bind leaving_ret leaving_refuse leaving_ask leaving_some leaving_calc leaving_defined leaving_change leaving_step leaving_call : leaving.

(** Follows the code of a handler. *)
Ltac leaving :=
  repeat match goal with
  | |- leaves_failing (match ?x with _ => _ end) => destruct x
  | |- leaves_failing (mbind _ _) => apply leaving_bind; [|intros ?]
  | |- _ <> tesSUCCESS => discriminate
  | |- leaves_failing _ => solve [eauto with leaving nocore] || (apply leaving_refuse; discriminate) || (apply leaving_some; discriminate)
  end.

(** Opens a successful run of a handler step by step. *)
Ltac pay_inv_one :=
  match goal with
  | H : @mbind pay _ _ _ _ _ _ = Val (inl _, _) |- _ =>
      let a := fresh "a" in let l := fresh "l" in let H1 := fresh "Hs" in let H2 := fresh "Hn" in
      apply pay_bind_inl in H; destruct H as (a & l & H1 & H2); cbn beta in H2
  | H : refuse_if _ _ _ = Val (inl _, _) |- _ => apply refuse_if_inl in H; destruct H as [H ->]
  | H : ask _ _ = Val (inl _, _) |- _ => apply ask_inl in H; destruct H as [-> ->]
  | H : some_or _ _ _ = Val (inl _, _) |- _ => apply some_or_inl in H; destruct H as [H ->]
  | H : calc _ _ = Val (inl _, _) |- _ => apply calc_inl in H; destruct H as [H ->]
  | H : defined _ _ = Val (inl _, _) |- _ => apply defined_inl in H; destruct H as [H ->]
  | H : change _ _ = Val (inl _, _) |- _ => apply (proj1 (change_inl _ _ _ _)) in H
  | H : step _ _ = Val (inl _, _) |- _ => apply (proj1 (step_inl _ _ _ _)) in H
  | H : call _ _ = Val (inl _, _) |- _ => apply (proj1 (call_inl _ _ _ _)) in H
  | H : leave _ _ = Val (inl _, _) |- _ => discriminate H
  | H : @mret pay _ _ _ _ = Val (inl _, _) |- _ => injection H; clear H; intros; subst
  end.
Ltac pay_inv := repeat pay_inv_one.

(** ** Directories and drops in handlers *)

(** [dirInsert], with [tecDIR_FULL] if there is no page left. *)
Definition insert_listed (a : AccountID) (key : uint256) : pay Z := page ← step (dirInsert a key); some_or page tecDIR_FULL.

(** [dirRemove] with [keepRoot], with [tefBAD_LEDGER] if the key is not on the page. *)
Definition remove_listed (a : AccountID) (page : Z) (key : uint256) : pay unit :=
  ok ← step (dirErase a page key); refuse_if (negb ok) tefBAD_LEDGER.

Definition remove_listed_opt (a : AccountID) (page : option Z) (key : uint256) : pay unit :=
  match page with Some page => remove_listed a page key | None => mret tt end.

Definition isLegalNet (a : STAmount) : bool := negb (mIsNative a) || (mValue a <=? cMaxNativeN).

(** [tfUniversalMask]: all flags but [tfFullyCanonicalSig]. *)
Definition tfUniversalMask : Z := 0x7FFFFFFF.
