(* ===== verification/TrustLine.v ===== *)
(** * TrustLine: locked balances of trust lines ([ledger/View.h], [ledger/impl/View.cpp])

    Escrows and payment channels of issued currencies lock part of the balance of the
    sender's trust line; finishing an escrow or claiming from a channel moves a locked
    balance to the line of the receiver, which may be created.  Every change is tried
    first as a dry run.

    The theorems: locking and unlocking keep the locked balance between zero and the
    balance and change nothing else, and the dry run foretells the result; a transfer
    takes the amount from the balance and the locked balance of the sender alike. *)

From stdpp Require Import base numbers list option gmap.
From Stdlib Require Import ZArith Lia.
From S2P Require Import Prelude Leb128 Double Xfl IouAmount StAmount Enum Runtime Directory Context StateLedger PayLedger.

Local Open Scope Z_scope.

(** ** The code *)

Definition isFakeXRP (c : Z) : bool := c =? 0x5852500000000000.

Definition transferRate (l : PayLedger) (acc : AccountID) : Z :=
  match pl_accounts l !! acc with
  | Some _ => default QUALITY_ONE (pl_transferRates l !! acc)
  | None => QUALITY_ONE
  end.

Definition isGlobalFrozen (l : PayLedger) (acc : AccountID) : bool :=
  if acc =? 0 then false
  else match pl_accounts l !! acc with Some r => has_flag (acc_flags r) lsfGlobalFreeze | None => false end.

Section code.
Context `{PayKeylets}.

(** One round of the loop over the parties. *)
Definition party_allowed (l : PayLedger) (issue : Issue) (requireAuth multi : bool) (p : AccountID) : TER :=
  if p =? issuer issue then tesSUCCESS else
  match pl_lines l !! keylet_line p (issuer issue) (currency issue) with
  | None => if requireAuth then tecNO_AUTH else tesSUCCESS
  | Some line =>
    if getIssuer (ln_lowLimit line) =? getIssuer (ln_highLimit line) then tecINTERNAL
    else if match ln_lockedBalance line with
            | Some locked => negb (featurePaychanAndEscrowForTokens (rules l)) || negb (getCurrency locked =? getCurrency (ln_balance line))
            | None => false
            end then tecINTERNAL
    else
      let pHigh := issuer issue <? p in
      let flags := ln_flags line in
      if has_flag flags (if pHigh then lsfLowFreeze else lsfHighFreeze) then tecFROZEN
      else if multi && has_flag flags (if pHigh then lsfLowNoRipple else lsfHighNoRipple) then tecPATH_DRY
      else if requireAuth && negb (has_flag flags (if pHigh then lsfLowAuth else lsfHighAuth)) then tecNO_AUTH
      else tesSUCCESS
  end.

Fixpoint parties_allowed (l : PayLedger) (issue : Issue) (requireAuth multi : bool) (parties : list AccountID) : TER :=
  match parties with
  | [] => tesSUCCESS
  | p :: parties =>
    match party_allowed l issue requireAuth multi p with
    | tesSUCCESS => parties_allowed l issue requireAuth multi parties
    | ter => ter
    end
  end.

Definition trustTransferAllowed (l : PayLedger) (parties : list AccountID) (issue : Issue) : TER :=
  if isFakeXRP (currency issue) then tecNO_PERMISSION else
  match pl_accounts l !! issuer issue with
  | None => tecNO_ISSUER
  | Some r =>
    if isGlobalFrozen l (issuer issue) then tecFROZEN
    else parties_allowed l issue (has_flag (acc_flags r) lsfRequireAuth) (1 <? Z.of_nat (length parties)) parties
  end.

(** The amount as the holder of the line sees it. *)
Definition holder_view (high : bool) (a : STAmount) : STAmount := if high then st_neg a else a.

(** The counter passed zero or [2^32]. *)
Definition count_overflows (prior final delta : Z) : bool :=
  ((0 <? delta) && (final <? prior)) || ((delta <? 0) && (prior <? final)) || ((delta =? 0) && negb (prior =? final)).

(** The locked balance and its count, absent if either is zero. *)
Definition store_locked (high : bool) (final : STAmount) (count : Z) (line : RippleState) : RippleState :=
  if is_zero final || (count =? 0) then set_locked None None line
  else set_locked (Some (holder_view high final)) (Some count) line.

Definition trustAdjustLockedBalance (dryRun : bool) (sleLine : uint256) (deltaAmt : STAmount) (deltaLockCount : Z) (l : PayLedger) : pres (TER * PayLedger) :=
  if negb (featurePaychanAndEscrowForTokens (rules l)) then Val (temDISABLED, l) else
  match pl_lines l !! sleLine with
  | None => Val (tecNO_LINE, l)
  | Some line =>
    let high := getIssuer (ln_lowLimit line) =? getIssuer deltaAmt in
    let parties := [if high then getIssuer (ln_highLimit line) else getIssuer (ln_lowLimit line)] in
    match trustTransferAllowed l parties (mIssue deltaAmt) with
    | tesSUCCESS =>
      let balance := holder_view high (ln_balance line) in
      if st_signum balance <? 0 then Val (tecINTERNAL, l)
      else if is_zero deltaAmt then Val (tesSUCCESS, l)
      else if is_zero balance then Val (tecUNFUNDED_PAYMENT, l)
      else
        let priorLockedBalance := match ln_lockedBalance line with Some b => holder_view high b | None => zeroed (mIssue deltaAmt) end in
        let priorLockCount := default 0 (ln_lockCount line) in
        let finalLockCount := u32 (priorLockCount + deltaLockCount) in
        finalLockedBalance ← lift_f (st_add priorLockedBalance deltaAmt);
        above ← lift_f (st_gtb finalLockedBalance balance);
        if (above : bool) then Val (tecUNFUNDED_PAYMENT, l)
        else if st_signum finalLockedBalance <? 0 then Val (tecINTERNAL, l)
        else
          precise ← lift_f (a ← isAddable balance deltaAmt; if negb a then Val false else
                            b ← isAddable priorLockedBalance deltaAmt; if negb b then Val false else
                            isAddable finalLockedBalance balance);
          if negb precise then Val (tecPRECISION_LOSS, l)
          else if count_overflows priorLockCount finalLockCount deltaLockCount then Val (tecOVERSIZE, l)
          else if dryRun then Val (tesSUCCESS, l)
          else Val (tesSUCCESS, put_lines l (<[sleLine := store_locked high finalLockedBalance finalLockCount line]> (pl_lines l)))
    | ter => Val (ter, l)
    end
  end.

(** *** Creating a line *)

Definition blank_line : RippleState := mkLine (xrp_amount 0) (xrp_amount 0) (xrp_amount 0) None None 0 0 0 0 0 0 0.

Definition trustCreate (bSrcHigh : bool) (uSrcAccountID uDstAccountID : AccountID) (uIndex : uint256) (sleAccount : AccountID)
    (bAuth bNoRipple bFreeze : bool) (saBalance saLimit : STAmount) (uQualityIn uQualityOut : Z) (l : PayLedger) : pres (TER * PayLedger) :=
  let uLowAccountID := if bSrcHigh then uDstAccountID else uSrcAccountID in
  let uHighAccountID := if bSrcHigh then uSrcAccountID else uDstAccountID in
  if occupied l uIndex then Err Abort
  else
    let l := put_lines l (<[uIndex := blank_line]> (pl_lines l)) in
    '(lowNode, l) ← dirInsert uLowAccountID uIndex l;
    match lowNode with
    | None => Val (tecDIR_FULL, l)
    | Some lowNode =>
      '(highNode, l) ← dirInsert uHighAccountID uIndex l;
      match highNode with
      | None => Val (tecDIR_FULL, l)
      | Some highNode =>
        let bSetDst := getIssuer saLimit =? uDstAccountID in
        let bSetHigh := xorb bSrcHigh bSetDst in
        match pl_accounts l !! (if bSetHigh then uLowAccountID else uHighAccountID) with
        | None => Val (tecNO_TARGET, l)
        | Some slePeer =>
          let peerLimit := zeroed (mkIssue (getCurrency saBalance) (if bSetDst then uSrcAccountID else uDstAccountID)) in
          let uFlags := if bSetHigh then lsfHighReserve else lsfLowReserve in
          let uFlags := if bAuth then Z.lor uFlags (if bSetHigh then lsfHighAuth else lsfLowAuth) else uFlags in
          let uFlags := if bNoRipple then Z.lor uFlags (if bSetHigh then lsfHighNoRipple else lsfLowNoRipple) else uFlags in
          let uFlags := if bFreeze then Z.lor uFlags (if bSetHigh then lsfHighFreeze else lsfLowFreeze) else uFlags in
          let uFlags := if has_flag (acc_flags slePeer) lsfDefaultRipple then uFlags
                        else Z.lor uFlags (if bSetHigh then lsfLowNoRipple else lsfHighNoRipple) in
          let line := mkLine (holder_view bSetHigh saBalance) (if bSetHigh then peerLimit else saLimit) (if bSetHigh then saLimit else peerLimit)
            None None uFlags lowNode highNode (if bSetHigh then 0 else uQualityIn) (if bSetHigh then 0 else uQualityOut)
            (if bSetHigh then uQualityIn else 0) (if bSetHigh then uQualityOut else 0) in
          l ← adjust_owner sleAccount 1 (put_lines l (<[uIndex := line]> (pl_lines l)));
          Val (tesSUCCESS, l)
        end
      end
    end.

(** The flags of the account are read from the line. *)
Definition isTrustDefault (accID : AccountID) (line : RippleState) : bool :=
  let tlFlags := ln_flags line in
  let high := accID =? getIssuer (ln_highLimit line) in
  let acFlags := ln_flags line in
  let qualityIn := if high then ln_highQualityIn line else ln_lowQualityIn line in
  let qualityOut := if high then ln_highQualityOut line else ln_lowQualityOut line in
  if has_flag tlFlags (if high then lsfHighFreeze else lsfLowFreeze) then false
  else if has_flag acFlags lsfDefaultRipple && has_flag tlFlags (if high then lsfHighNoRipple else lsfLowNoRipple) then false
  else if negb (is_zero (ln_balance line)) then false
  else if match ln_lockedBalance line with Some _ => true | None => false end then false
  else if negb (is_zero (if high then ln_highLimit line else ln_lowLimit line)) then false
  else if negb (qualityIn =? 0) && negb (qualityIn =? QUALITY_ONE) then false
  else if negb (qualityOut =? 0) && negb (qualityOut =? QUALITY_ONE) then false
  else true.

(** *** Moving a locked balance *)

(** The line of the sender after the transfer, or the code that refuses it. *)
Definition take_locked (srcHigh : bool) (amount : STAmount) (deltaLockCount : Z) (line : RippleState) : fres (RippleState + TER) :=
  match ln_lockedBalance line, ln_lockCount line with
  | Some locked, Some priorLockCount =>
    let priorBalance := holder_view srcHigh (ln_balance line) in
    let priorLockedBalance := holder_view srcHigh locked in
    above ← st_gtb amount priorLockedBalance;
    if (above : bool) then Val (inr tecUNFUNDED_PAYMENT)
    else
      finalBalance ← st_sub priorBalance amount;
      finalLockedBalance ← st_sub priorLockedBalance amount;
      let finalLockCount := u32 (priorLockCount + deltaLockCount) in
      precise ← (a ← isAddable priorBalance amount; if negb a then Val false else isAddable priorLockedBalance amount);
      if negb precise then Val (inr tecPRECISION_LOSS)
      else if count_overflows priorLockCount finalLockCount deltaLockCount then Val (inr tecOVERSIZE)
      else if (st_signum finalBalance <? 0) || (st_signum finalLockedBalance <? 0) then Val (inr tecINTERNAL)
      else Val (inl (store_locked srcHigh finalLockedBalance finalLockCount (set_line_balance (holder_view srcHigh finalBalance) line)))
  | _, _ => Val (inr tecUNFUNDED_PAYMENT)
  end.

(** The line of the receiver after the transfer, or the code that refuses it. *)
Definition give_amount (dstHigh acting_is_dst : bool) (dstAmt : STAmount) (line : RippleState) : fres (RippleState + TER) :=
  let dstLimit := if dstHigh then ln_highLimit line else ln_lowLimit line in
  let priorBalance := holder_view dstHigh (ln_balance line) in
  finalBalance ← st_add priorBalance dstAmt;
  below ← st_ltb finalBalance priorBalance;
  if (below : bool) then Val (inr tecINTERNAL)
  else
    above ← st_gtb finalBalance dstLimit;
    if above && negb acting_is_dst then Val (inr tecPATH_DRY)
    else
      precise ← isAddable priorBalance dstAmt;
      if negb precise then Val (inr tecPRECISION_LOSS)
      else Val (inl (set_line_balance (holder_view dstHigh finalBalance) line)).

(** The sender stops paying the reserve of a line in its default state. *)
Definition release_reserve (srcHigh : bool) (src : AccountID) (key : uint256) (l : PayLedger) : pres PayLedger :=
  match pl_lines l !! key with
  | None => Undef
  | Some line =>
    let fReserve := if srcHigh then lsfHighReserve else lsfLowReserve in
    if isTrustDefault src line && has_flag (ln_flags line) fReserve then
      adjust_owner src (-1) (put_lines l (<[key := set_line_flags (Z.land (ln_flags line) (Z.lnot fReserve)) line]> (pl_lines l)))
    else Val l
  end.

Definition trustTransferLockedBalance (dryRun : bool) (actingAccID srcAccID dstAccID : AccountID) (amount : STAmount) (deltaLockCount : Z) (l : PayLedger)
  : pres (TER * PayLedger) :=
  if negb (featurePaychanAndEscrowForTokens (rules l)) then Val (tefINTERNAL, l) else
  match pl_accounts l !! srcAccID, pl_accounts l !! dstAccID with
  | Some _, Some sleDstAcc =>
    if st_signum amount <=? 0 then Val (tecINTERNAL, l) else
    let issuerAccID := getIssuer amount in
    let srcHigh := issuerAccID <? srcAccID in
    let dstHigh := issuerAccID <? dstAccID in
    match trustTransferAllowed l [srcAccID; dstAccID] (mIssue amount) with
    | tesSUCCESS =>
      let klSrcLine := keylet_line srcAccID issuerAccID (getCurrency amount) in
      match pl_lines l !! klSrcLine with
      | None => Val (tecNO_LINE, l)
      | Some sleSrcLine =>
        taken ← lift_f (take_locked srcHigh amount deltaLockCount sleSrcLine);
        match taken with
        | inr ter => Val (ter, l)
        | inl line =>
          let l := if dryRun then l else put_lines l (<[klSrcLine := line]> (pl_lines l)) in
          let flipDstAmt := negb ((dstHigh && srcHigh) || (negb dstHigh && negb srcHigh)) in
          dstAmt ← lift_f (multiplyRound amount (transferRate l issuerAccID) (mIssue amount) true);
          let klDstLine := keylet_line dstAccID issuerAccID (getCurrency amount) in
          '(ter, l) ←
            match pl_lines l !! klDstLine with
            | None =>
              if negb (actingAccID =? dstAccID) && negb (srcAccID =? dstAccID) then Val (tecNO_PERMISSION, l)
              else if sfBalance sleDstAcc <? accountReserve (pl_fees l) (u32 (sfOwnerCount sleDstAcc + 1)) then Val (tecNO_LINE_INSUF_RESERVE, l)
              else if dryRun then Val (tesSUCCESS, l)
              else trustCreate (negb dstHigh) issuerAccID dstAccID klDstLine dstAccID false (negb (has_flag (acc_flags sleDstAcc) lsfDefaultRipple)) false
                     (if flipDstAmt then st_neg dstAmt else dstAmt) (zeroed (mkIssue (getCurrency amount) dstAccID)) 0 0 l
            | Some sleDstLine =>
              given ← lift_f (give_amount dstHigh (actingAccID =? dstAccID) dstAmt sleDstLine);
              match given with
              | inr ter => Val (ter, l)
              | inl line => Val (tesSUCCESS, if dryRun then l else put_lines l (<[klDstLine := line]> (pl_lines l)))
              end
            end;
          match ter with
          | tesSUCCESS => l ← (if dryRun then Val l else release_reserve srcHigh srcAccID klSrcLine l); Val (tesSUCCESS, l)
          | ter => Val (ter, l)
          end
        end
      end
    | ter => Val (ter, l)
    end
  | _, _ => Val (tecINTERNAL, l)
  end.
End code.

(** ** Locking and unlocking *)

(** The accounts, directories and all other entries are as before. *)
Definition same_but_lines (l l' : PayLedger) : Prop := l' = put_lines l (pl_lines l').

(** The number locked on a line, as its holder sees it, and the number it holds. *)
Definition locked_num (high : bool) (line : RippleState) : Z :=
  match ln_lockedBalance line with Some b => st_num (holder_view high b) | None => 0 end.
Definition balance_num (high : bool) (line : RippleState) : Z := st_num (holder_view high (ln_balance line)).

(** The amounts of a line are of one issued currency, and the locked balance is between
    zero and the balance. *)
Definition line_ok (high : bool) (line : RippleState) : Prop :=
  issued (ln_balance line) /\
  (forall b, ln_lockedBalance line = Some b -> issued b /\ getCurrency b = getCurrency (ln_balance line)) /\
  0 <= locked_num high line <= balance_num high line.

Lemma st_neg_issued a : issued a -> issued (st_neg a) /\ getCurrency (st_neg a) = getCurrency a /\ st_num (st_neg a) = - st_num a.
Proof.
  intros (Hn & Hc & Ha). unfold st_neg, issued, st_num, st_iou, signed, iou_num in *. destruct (Z.eqb_spec (mValue a) 0) as [E|E].
  - split; [done|]. split; [done|]. destruct Ha as [(_ & _ & Hg)|[Hv _]]; [|unfold cMinValue in Hv; lia]. rewrite Hg. cbn. by rewrite E.
  - split; [by cbn; destruct Ha as [[? _]|?]; [|auto]|]. split; [done|]. cbn [mIsNegative mantissa exponent mValue mOffset].
    destruct (mIsNegative a); cbn [negb]; rewrite !(proj2 (Z.eqb_neq _ 0)) by lia; lia.
Qed.

Lemma holder_issued high a : issued a -> issued (holder_view high a) /\ getCurrency (holder_view high a) = getCurrency a.
Proof. intros Ha. destruct high; [|done]. by destruct (st_neg_issued a Ha) as (? & ? & _). Qed.

Lemma holder_twice high a : holder_view high (holder_view high a) = a.
Proof.
  destruct high; [|done]. destruct a as [v o n g i]. unfold holder_view, st_neg. cbn.
  destruct (v =? 0) eqn:E; cbn; rewrite E; [done|]. by rewrite negb_involutive.
Qed.

Lemma st_signum_num a : issued a -> st_signum a = Z.sgn (st_num a).
Proof.
  intros (_ & _ & Ha). unfold st_signum, st_num, iou_num, st_iou, signed. cbn. destruct Ha as [(-> & _ & ->)|[Hv Ho]]; [done|].
  unfold cMinValue in Hv. unfold_range. assert (0 < 10 ^ (mOffset a + 96)) by lia. rewrite (proj2 (Z.eqb_neq (mValue a) 0)) by lia.
  destruct (mIsNegative a); rewrite (proj2 (Z.eqb_neq _ 0)) by lia; rewrite Z.sgn_mul, (Z.sgn_pos (10 ^ _)) by lia; lia.
Qed.

Lemma is_zero_num a : issued a -> is_zero a = (st_num a =? 0).
Proof. intros Ha. unfold is_zero. rewrite st_signum_num by done. destruct (st_num a); done. Qed.

Lemma zeroed_issued issue : currency issue <> 0 -> issued (zeroed issue) /\ getCurrency (zeroed issue) = currency issue /\ st_num (zeroed issue) = 0.
Proof.
  intros Hi. unfold zeroed. rewrite (proj2 (Z.eqb_neq _ 0)) by done. split; [|done]. split; [done|]. split; [done|]. by left.
Qed.

(** A sum that is computed is an amount of the issue of the first operand. *)
Lemma st_add_issued a b c : issued a -> issued b -> getCurrency a = getCurrency b -> st_add a b = Val c ->
  issued c /\ getCurrency c = getCurrency a /\ iou_add (st_iou a) (st_iou b) = Val (st_iou c).
Proof.
  intros Ha Hb Hc H. rewrite st_add_iou in H by done.
  destruct (iou_add_result (st_iou a) (st_iou b)) as [E|(s & E & Hs)]; [by apply issued_valid..|by rewrite E in H|].
  rewrite E in *. injection H as <-. split; [|split; [done|by rewrite st_iou_to]]. apply to_st_issued; [|done]. by destruct Ha as (_ & ? & _).
Qed.

Lemma lift_f_Val {A} (c : fres A) a : lift_f c = Val a <-> c = Val a.
Proof. destruct c; cbn; split; congruence. Qed.

Section locking.
Context `{PayKeylets}.

(** The dry run answers what the change answers, and changes nothing. *)
Lemma adjust_dry_run k delta n l :
  trustAdjustLockedBalance true k delta n l = ('(ter, _) ← trustAdjustLockedBalance false k delta n l; Val (ter, l)).
Proof.
  unfold trustAdjustLockedBalance. destruct (negb _); [done|]. destruct (pl_lines l !! k) as [line|]; [|done]. cbv zeta.
  destruct (trustTransferAllowed _ _ _); try done. destruct (st_signum _ <? 0); [done|]. destruct (is_zero delta); [done|].
  destruct (is_zero _); [done|]. destruct (st_add _ _) as [f| |]; [|done..]. cbn [lift_f mbind res_bind].
  destruct (st_gtb _ _) as [[]| |]; try done. cbn [lift_f mbind res_bind]. destruct (st_signum f <? 0); [done|].
  destruct (lift_f _) as [[]| |]; try done. cbn [mbind res_bind negb]. by destruct (count_overflows _ _ _).
Qed.

(** What a change that succeeds did to the line. *)
Lemma adjust_spec k line delta n l l' :
  let high := getIssuer (ln_lowLimit line) =? getIssuer delta in
  pl_lines l !! k = Some line -> line_ok high line -> issued delta -> getCurrency delta = getCurrency (ln_balance line) -> st_num delta <> 0 ->
  trustAdjustLockedBalance false k delta n l = Val (tesSUCCESS, l') ->
  exists final prior, l' = put_lines l (<[k := store_locked high final (u32 (default 0 (ln_lockCount line) + n)) line]> (pl_lines l)) /\
    issued final /\ getCurrency final = getCurrency (ln_balance line) /\ iou_add prior (st_iou delta) = Val (st_iou final) /\
    iou_num prior = locked_num high line /\ 0 <= st_num final <= balance_num high line.
Proof.
  intros high Hk (Hb & Hlk & _) Hd Hc Hz Hadj. unfold trustAdjustLockedBalance in Hadj. rewrite Hk in Hadj. fold high in Hadj. cbv zeta in Hadj.
  destruct (negb _); [done|]. destruct (trustTransferAllowed _ _ _); try done.
  destruct (holder_issued high _ Hb) as [Hbi Hbc]. rewrite !is_zero_num, (proj2 (Z.eqb_neq (st_num delta) 0)) in Hadj by done.
  destruct (Z.ltb_spec (st_signum (holder_view high (ln_balance line))) 0); [done|]. case_if Hadj.
  set (prior := match ln_lockedBalance line with Some b => holder_view high b | None => zeroed (mIssue delta) end) in *.
  assert (issued prior /\ getCurrency prior = getCurrency delta /\ st_num prior = locked_num high line) as (Hpi & Hpc & Hpn).
  { unfold prior, locked_num. destruct (ln_lockedBalance line) as [b|].
    - destruct (Hlk b eq_refl) as [Hbb Hcc]. destruct (holder_issued high b Hbb) as [? ->]. split; [done|]. split; [congruence|done].
    - apply zeroed_issued. by destruct Hd as (_ & ? & _). }
  apply bind_Val in Hadj as (final & Hf%lift_f_Val & Hadj). apply bind_Val in Hadj as (above & Ha%lift_f_Val & Hadj).
  destruct (st_add_issued _ _ _ Hpi Hd Hpc Hf) as (Hfi & Hfc & Hfn). destruct above; [done|].
  unfold st_gtb in Ha. rewrite st_ltb_iou in Ha by (done || congruence). injection Ha as Ha.
  destruct (Z.ltb_spec (st_signum final) 0) as [|Hs]; [done|]. rewrite st_signum_num in Hs by done.
  apply bind_Val in Hadj as (precise & _ & Hadj). repeat case_if Hadj. injection Hadj as <-. bool_prop.
  exists final, (st_iou prior). split; [done|]. split; [done|]. split; [congruence|]. split; [done|]. split; [done|].
  unfold balance_num. lia.
Qed.

(** C22: locking and unlocking keep a trust line consistent.  If the locked balance of a line is between
    zero and its balance, then a call of [trustAdjustLockedBalance] that succeeds leaves the balance and
    everything but the locked balance and its counter unchanged; the locked balance is afterwards the
    rounded sum of the old one and the change, or nothing if the counter is back at zero, and is again
    between zero and the balance; and a dry run returns the same code without any change. *)
Theorem trustAdjust_consistent k line delta n l l' :
  let high := getIssuer (ln_lowLimit line) =? getIssuer delta in
  let count := u32 (default 0 (ln_lockCount line) + n) in
  pl_lines l !! k = Some line -> line_ok high line -> issued delta -> getCurrency delta = getCurrency (ln_balance line) -> st_num delta <> 0 ->
  trustAdjustLockedBalance false k delta n l = Val (tesSUCCESS, l') ->
  trustAdjustLockedBalance true k delta n l = Val (tesSUCCESS, l) /\
  exists line' prior final, same_but_lines l l' /\ pl_lines l' = <[k := line']> (pl_lines l) /\
    line' = set_locked (ln_lockedBalance line') (ln_lockCount line') line /\ line_ok high line' /\
    iou_num prior = locked_num high line /\ iou_add prior (st_iou delta) = Val final /\
    locked_num high line' = (if count =? 0 then 0 else iou_num final).
Proof.
  intros high count Hk Hok Hd Hc Hz Hadj. split; [by rewrite adjust_dry_run, Hadj|].
  destruct (adjust_spec k line delta n l l' Hk Hok Hd Hc Hz Hadj) as (final & prior & -> & Hfi & Hfc & Hadd & Hp & Hr). fold high in Hp, Hr |- *. fold count.
  destruct Hok as (Hb & _ & _). exists (store_locked high final count line), prior, (st_iou final).
  destruct (holder_issued high final Hfi) as [Hhi Hhc].
  assert (locked_num high (store_locked high final count line) = if count =? 0 then 0 else st_num final) as Hln.
  { unfold store_locked. rewrite is_zero_num by done. destruct (Z.eqb_spec (st_num final) 0) as [E|E]; cbn [orb]; [cbn; by rewrite E; case_match|].
    destruct (count =? 0); [done|]. unfold locked_num, set_locked. cbn [ln_lockedBalance]. by rewrite holder_twice. }
  split; [done|]. split; [done|]. split; [by unfold store_locked; destruct (_ || _)|]. split; [|by rewrite Hln].
  split; [by unfold store_locked; destruct (_ || _)|]. split.
  - intros b. unfold store_locked. destruct (_ || _); cbn; [done|]. intros [= <-]. split; [done|]. congruence.
  - rewrite Hln. unfold balance_num in *. assert (ln_balance (store_locked high final count line) = ln_balance line) as ->
      by (by unfold store_locked; destruct (_ || _)). case_match; lia.
Qed.
End locking.

(** ** Moving a locked balance *)

Lemma st_sub_issued a b c : issued a -> issued b -> getCurrency a = getCurrency b -> st_sub a b = Val c ->
  issued c /\ getCurrency c = getCurrency a /\ iou_add (st_iou a) (st_iou (st_neg b)) = Val (st_iou c).
Proof. intros Ha Hb Hc H. destruct (st_neg_issued b Hb) as (Hn & Hnc & _). apply st_add_issued; [done|done|congruence|done]. Qed.

Lemma balance_stored high f c b line : issued b -> balance_num high (store_locked high f c (set_line_balance (holder_view high b) line)) = st_num b.
Proof. intros Hb. unfold balance_num, store_locked. destruct (_ || _); cbn; by rewrite holder_twice. Qed.

Lemma take_locked_spec high amount n line line' : line_ok high line -> issued amount -> getCurrency amount = getCurrency (ln_balance line) ->
  take_locked high amount n line = Val (inl line') ->
  exists b, iou_add (st_iou (holder_view high (ln_balance line))) (st_iou (st_neg amount)) = Val (st_iou b) /\ balance_num high line' = st_num b /\
    0 <= st_num b /\ 0 <= locked_num high line' /\ st_num amount <= locked_num high line.
Proof.
  intros (Hb & Hlk & _) Ha Hc H. unfold take_locked in H. destruct (ln_lockedBalance line) as [lk|] eqn:El; [|done]. destruct (ln_lockCount line) as [cnt|]; [|done].
  destruct (Hlk lk eq_refl) as [Hli Hlc]. destruct (holder_issued high _ Hb) as [Hbi Hbc]. destruct (holder_issued high _ Hli) as [Hhi Hhc].
  cbv zeta in H. apply bind_Val in H as (above & Hab & H). destruct above; [done|]. unfold st_gtb in Hab. rewrite st_ltb_iou in Hab by (done || congruence).
  apply bind_Val in H as (b & Hsb & H). apply bind_Val in H as (f & Hsf & H). apply bind_Val in H as (precise & _ & H). repeat case_if H. injection H as <-. injection Hab as Hab.
  destruct (st_sub_issued _ _ _ Hbi Ha ltac:(congruence) Hsb) as (Hib & _ & Hadd). destruct (st_sub_issued _ _ _ Hhi Ha ltac:(congruence) Hsf) as (Hif' & _ & _).
  bool_prop. rewrite st_signum_num in * by done. exists b. split; [done|]. rewrite balance_stored by done. split; [done|]. split; [lia|]. split.
  - unfold store_locked. destruct (_ || _); [done|]. unfold locked_num, set_locked. cbn [ln_lockedBalance]. rewrite holder_twice. lia.
  - unfold locked_num. rewrite El. lia.
Qed.

Lemma give_amount_spec (high own : bool) amt line line' : issued (ln_balance line) -> issued amt -> getCurrency amt = getCurrency (ln_balance line) ->
  let limit := if high then ln_highLimit line else ln_lowLimit line in
  issued limit -> getCurrency limit = getCurrency (ln_balance line) -> give_amount high own amt line = Val (inl line') ->
  exists b, iou_add (st_iou (holder_view high (ln_balance line))) (st_iou amt) = Val (st_iou b) /\ balance_num high line' = st_num b /\
    balance_num high line <= st_num b /\ (st_num b <= st_num limit \/ own = true).
Proof.
  intros Hb Ha Hc limit Hl Hlc H. unfold give_amount in H. fold limit in H. cbv zeta in H. destruct (holder_issued high _ Hb) as [Hbi Hbc].
  apply bind_Val in H as (b & Hsb & H). destruct (st_add_issued _ _ _ Hbi Ha ltac:(congruence) Hsb) as (Hib & Hic & Hadd).
  rewrite st_ltb_iou in H by (done || congruence). cbn [mbind res_bind] in H. case_if H. unfold st_gtb in H. rewrite st_ltb_iou in H by (done || congruence).
  cbn [mbind res_bind] in H. case_if H. apply bind_Val in H as (precise & _ & H). case_if H. injection H as <-. bool_prop.
  exists b. split; [done|]. unfold balance_num, set_line_balance in *. cbn [ln_balance]. rewrite holder_twice. split; [done|]. split; [lia|].
  destruct own; [by right|left]. cbn [negb] in *. rewrite andb_true_r in *. bool_prop. lia.
Qed.

Lemma take_locked_refuses high amt n line : take_locked high amt n line <> Val (inr tesSUCCESS).
Proof.
  unfold take_locked. destruct (ln_lockedBalance line), (ln_lockCount line); try done. cbv zeta. intros H.
  apply bind_Val in H as (above & _ & H). case_if H. do 2 (apply bind_Val in H as (? & _ & H)). apply bind_Val in H as (precise & _ & H). by repeat case_if H.
Qed.

Lemma give_amount_refuses high own amt line : give_amount high own amt line <> Val (inr tesSUCCESS).
Proof.
  unfold give_amount. cbv zeta. intros H. apply bind_Val in H as (b & _ & H). apply bind_Val in H as (below & _ & H). case_if H.
  apply bind_Val in H as (above & _ & H). case_if H. apply bind_Val in H as (precise & _ & H). by case_if H.
Qed.

Section transfer.
Context `{PayKeylets}.

Lemma release_reserve_lines high src k l l' : release_reserve high src k l = Val l' ->
  (forall k', k' <> k -> pl_lines l' !! k' = pl_lines l !! k') /\
  (forall line, pl_lines l !! k = Some line -> exists f, pl_lines l' !! k = Some (set_line_flags f line)).
Proof.
  unfold release_reserve. destruct (pl_lines l !! k) as [line|] eqn:E; [|done]. cbv zeta. intros Hr. case_if Hr.
  - unfold adjust_owner in Hr. cbn [pl_accounts put_lines] in Hr. destruct (pl_accounts l !! src); [|done]. injection Hr as <-. cbn.
    split; [intros k' Hk; by rewrite lookup_insert_ne|]. intros line0 [= <-]. rewrite lookup_insert_eq. eauto.
  - injection Hr as <-. split; [done|]. intros line0 [= <-]. exists (ln_flags line). rewrite E. by destruct line.
Qed.

(** C21: moving a locked balance between two trust lines.  Between different lines of accounts whose
    currency has no transfer fee, a transfer that succeeds takes the amount from the balance of the sender,
    of which at least that much was locked, and adds it to the balance of the receiver, both rounded as
    amounts are; neither the sender's balance nor its locked balance becomes negative, the receiver's
    limit is exceeded only if the receiver acts, no other line changes, and the dry run announces it. *)
Theorem trustTransfer_moves acting src dst amount n l l' ls ld :
  let srcHigh := getIssuer amount <? src in
  let dstHigh := getIssuer amount <? dst in
  let ks := keylet_line src (getIssuer amount) (getCurrency amount) in
  let kd := keylet_line dst (getIssuer amount) (getCurrency amount) in
  let limit := if dstHigh then ln_highLimit ld else ln_lowLimit ld in
  transferRate l (getIssuer amount) = QUALITY_ONE -> issued amount -> ks <> kd ->
  pl_lines l !! ks = Some ls -> line_ok srcHigh ls -> getCurrency amount = getCurrency (ln_balance ls) ->
  pl_lines l !! kd = Some ld -> issued (ln_balance ld) -> getCurrency amount = getCurrency (ln_balance ld) -> issued limit -> getCurrency limit = getCurrency (ln_balance ld) ->
  trustTransferLockedBalance false acting src dst amount n l = Val (tesSUCCESS, l') ->
  trustTransferLockedBalance true acting src dst amount n l = Val (tesSUCCESS, l) /\
  (forall k, k <> ks -> k <> kd -> pl_lines l' !! k = pl_lines l !! k) /\
  exists ls' ld' bs bd, pl_lines l' !! ks = Some ls' /\ pl_lines l' !! kd = Some ld' /\
    iou_add (st_iou (holder_view srcHigh (ln_balance ls))) (st_iou (st_neg amount)) = Val bs /\ balance_num srcHigh ls' = iou_num bs /\
    0 <= iou_num bs /\ 0 <= locked_num srcHigh ls' /\ st_num amount <= locked_num srcHigh ls /\
    iou_add (st_iou (holder_view dstHigh (ln_balance ld))) (st_iou amount) = Val bd /\ balance_num dstHigh ld' = iou_num bd /\
    (iou_num bd <= st_num limit \/ acting = dst).
Proof.
  intros srcHigh dstHigh ks kd limit Hrate Ha Hne Hls Hsok Hsc Hld Hdi Hdc Hlim Hlc. unfold trustTransferLockedBalance.
  fold srcHigh dstHigh ks kd. destruct (negb _); [done|]. destruct (pl_accounts l !! src) as [sa|] eqn:Esa; [|done]. destruct (pl_accounts l !! dst) as [da|] eqn:Eda; [|done].
  destruct (st_signum amount <=? 0); [done|]. cbv zeta. destruct (trustTransferAllowed _ _ _); try done.
  fold srcHigh dstHigh ks kd. rewrite Hls. destruct (take_locked srcHigh amount n ls) as [[line1|t]| |] eqn:Et; cbn [lift_f mbind res_bind]; try done.
  2: { intros [= -> _]. by apply take_locked_refuses in Et. }
  change (transferRate (put_lines l _) _) with (transferRate l (getIssuer amount)). rewrite Hrate. unfold multiplyRound. rewrite Z.eqb_refl.
  cbn [lift_f mbind res_bind pl_lines put_lines]. rewrite lookup_insert_ne, Hld by done.
  destruct (give_amount dstHigh (acting =? dst) amount ld) as [[line2|ter]| |] eqn:Eg; cbn [lift_f mbind res_bind]; try done.
  2: { intros Hf. destruct ter; try done. by apply give_amount_refuses in Eg. }
  intros Hr. split; [done|]. destruct (release_reserve _ _ _ _) as [l2| |] eqn:Er; cbn in Hr; [|done..]. injection Hr as <-.
  apply release_reserve_lines in Er as [Hother Hsame]. cbn [pl_lines put_lines] in Hother, Hsame.
  destruct (take_locked_spec _ _ _ _ _ Hsok Ha Hsc Et) as (bs & Hbs & Hbn & Hb0 & Hl0 & Hlo).
  destruct (give_amount_spec _ _ _ _ _ Hdi Ha Hdc Hlim Hlc Eg) as (bd & Hbd & Hdn & _ & Hdl).
  split; [intros k Hk1 Hk2; by rewrite Hother, !lookup_insert_ne by done|].
  destruct (Hsame line1) as [f Hf]; [by rewrite lookup_insert_ne, lookup_insert_eq|].
  exists (set_line_flags f line1), line2, (st_iou bs), (st_iou bd). split; [done|]. split; [by rewrite Hother, lookup_insert_eq|].
  repeat split; try done. destruct Hdl as [?|Hdl]; [by left|right]. by apply Z.eqb_eq.
Qed.
End transfer.

(** ** Samples *)

Module LineSamples.
(** Keys without collisions on small accounts and currencies. *)
#[export] Instance sample_keys : PayKeylets := {|
  line_key a b c := 3000000 + a * 10000 + b * 100 + c;
  escrow_key a s := match s with SeqValue n => 1000000 + a * 1000 + n | SeqHash h => 5000000 + h end;
  paychan_key a d s := match s with SeqValue n => 2000000 + a * 10000 + d * 100 + n | SeqHash h => 6000000 + h end
|}.

Definition root (balance owners : Z) : AccountRoot := mkRoot balance owners 0 None lsfDefaultRipple.
Definition usd (v e : Z) : STAmount := mkAmount v e false (v <? 0) (mkIssue 9 50).
Definition usd_neg (v e : Z) : STAmount := mkAmount v e false true (mkIssue 9 50).
Definition limit_of (acc : AccountID) : STAmount := mkAmount 1000000000000000 (-9) false false (mkIssue 9 acc).

(** Every amendment is enabled. *)
Definition all_rules : Rules := mkRules true true true true true true true.

(** A line of account 10, on the low side of the issuer 50, with a hundred units of which
    ten are locked, and one of account 90, on the high side, with five. *)
Definition low_line : RippleState :=
  mkLine (usd 1000000000000000 (-13)) (limit_of 10) (zeroed (mkIssue 9 50)) (Some (usd 1000000000000000 (-14))) (Some 1) lsfLowReserve 0 0 0 0 0 0.
Definition high_line : RippleState :=
  mkLine (usd_neg 5000000000000000 (-15)) (zeroed (mkIssue 9 50)) (limit_of 90) None None lsfHighReserve 0 0 0 0 0 0.

Definition lines_ledger (rate : Z) (lines : gmap uint256 RippleState) : PayLedger :=
  mkPay {[ 10 := root 1000000000 1; 50 := root 1000000000 0; 90 := root 1000000000 1 ]} {[ 50 := rate ]} lines ∅ ∅ ∅ ∅ ∅ ∅ (mkFees 10000000 2000000) 100 all_rules.

Definition two_lines : PayLedger := lines_ledger QUALITY_ONE {[ keylet_line 10 50 9 := low_line; keylet_line 90 50 9 := high_line ]}.

Lemma line_usd_issued v e : cMinValue <= v <= cMaxValue -> minExponent <= e <= maxExponent -> issued (usd v e) /\ issued (usd_neg v e).
Proof. intros Hv He. split; (split; [done|]; split; [done|]; by right). Qed.

Ltac amount_ok := unfold cMinValue, cMaxValue; unfold_range; lia.

Lemma low_line_ok : line_ok false low_line.
Proof.
  split; [apply line_usd_issued; amount_ok|]. split; [|by vm_compute]. intros b [= <-]. split; [apply line_usd_issued; amount_ok|done].
Qed.

Lemma trustAdjust_consistent_witness : exists l', trustAdjustLockedBalance false (keylet_line 10 50 9) (usd 2500000000000000 (-15)) 1 two_lines = Val (tesSUCCESS, l') /\
  trustAdjustLockedBalance true (keylet_line 10 50 9) (usd 2500000000000000 (-15)) 1 two_lines = Val (tesSUCCESS, two_lines).
Proof.
  eexists. split; [by vm_compute|].
  eapply (trustAdjust_consistent (keylet_line 10 50 9) low_line (usd 2500000000000000 (-15)) 1 two_lines);
    [by vm_compute|exact low_line_ok|apply line_usd_issued; amount_ok|by vm_compute|by vm_compute|by vm_compute].
Defined.

Lemma trustTransfer_moves_witness : exists l', trustTransferLockedBalance false 10 10 90 (usd 1000000000000000 (-14)) (-1) two_lines = Val (tesSUCCESS, l') /\
  trustTransferLockedBalance true 10 10 90 (usd 1000000000000000 (-14)) (-1) two_lines = Val (tesSUCCESS, two_lines).
Proof.
  eexists. split; [by vm_compute|].
  eapply (trustTransfer_moves 10 10 90 (usd 1000000000000000 (-14)) (-1) two_lines _ low_line high_line);
    [by vm_compute|apply line_usd_issued; amount_ok|by vm_compute|by vm_compute|exact low_line_ok|by vm_compute|by vm_compute| |by vm_compute| |by vm_compute|by vm_compute].
  - apply line_usd_issued; amount_ok.
  - split; [done|]. split; [done|]. right. cbn. amount_ok.
Defined.

(** With a transfer fee of one percent the receiver gets more than the sender gave: ten
    units leave the sender and 10.1 arrive. *)
Lemma transfer_fee_mints : exists l' ls ld,
  trustTransferLockedBalance false 10 10 90 (usd 1000000000000000 (-14)) (-1)
    (lines_ledger 1010000000 {[ keylet_line 10 50 9 := low_line; keylet_line 90 50 9 := high_line ]}) = Val (tesSUCCESS, l') /\
  pl_lines l' !! keylet_line 10 50 9 = Some ls /\ pl_lines l' !! keylet_line 90 50 9 = Some ld /\
  balance_num false low_line - balance_num false ls = 10 * 10 ^ 96 /\ balance_num true ld - balance_num true high_line = 101 * 10 ^ 95.
Proof. do 3 eexists. repeat (split; [vm_compute; reflexivity|]); vm_compute; reflexivity. Qed.

(** A line created for a receiver on the other side of the issuer starts with the amount
    as a debt of the receiver. *)
Lemma new_line_is_debt : exists l' ld,
  trustTransferLockedBalance false 90 10 90 (usd 1000000000000000 (-14)) (-1) (lines_ledger QUALITY_ONE {[ keylet_line 10 50 9 := low_line ]}) = Val (tesSUCCESS, l') /\
  pl_lines l' !! keylet_line 90 50 9 = Some ld /\ balance_num true ld = - (10 * 10 ^ 96).
Proof. do 2 eexists. repeat (split; [vm_compute; reflexivity|]); vm_compute; reflexivity. Qed.

(** If the receiver is the issuer and acts, a line of the issuer with itself is created,
    and the second insertion into the same directory is a [LogicError]; the dry run
    succeeds. *)
Lemma issuer_receives_aborts :
  trustTransferLockedBalance true 50 10 50 (usd 1000000000000000 (-14)) (-1) two_lines = Val (tesSUCCESS, two_lines) /\
  trustTransferLockedBalance false 50 10 50 (usd 1000000000000000 (-14)) (-1) two_lines = Err Abort.
Proof. split; by vm_compute. Qed.
End LineSamples.
