(* ===== verification/Escrow.v ===== *)
(** * Escrow: the escrow transactors ([app/tx/impl/Escrow.cpp])

    [EscrowCreate] sets an amount of the sender aside, [EscrowFinish] delivers it to the
    destination once the finish time has passed and the condition is fulfilled, and
    [EscrowCancel] returns it once the cancel time has passed.  The amount is XRP taken
    from the account, or an issued currency locked on the trust line.

    Each transactor has a [preflight] without a ledger, which takes the results of the
    generic [preflight1] and [preflight2], and a [doApply].

    What is proved of the handlers, the XRP they keep and who may take an escrow and when,
    is in [XrpFlow.v], [PayTxns.v] and [PayLive.v]. *)

From stdpp Require Import base numbers list option gmap.
From Stdlib Require Import ZArith Lia.
From S2P Require Import Prelude Leb128 Double Xfl IouAmount StAmount Enum Runtime Directory Context StateLedger Condition PayLedger TrustLine.

Local Open Scope Z_scope.

(** ** Transactions *)

Record EscrowCreateTx := mkCreate {
  ec_account : AccountID;
  ec_destination : AccountID;
  ec_amount : STAmount;
  ec_condition : option Blob;
  ec_cancelAfter : option Z;
  ec_finishAfter : option Z;
  ec_sourceTag : option Z;
  ec_destinationTag : option Z;
  ec_flags : Z;
  ec_seqID : SeqID
}.

Record EscrowFinishTx := mkFinish {
  ef_id : uint256;
  ef_account : AccountID;
  ef_owner : AccountID;
  ef_offerSequence : Z;
  ef_escrowID : option uint256;
  ef_condition : option Blob;
  ef_fulfillment : option Blob;
  ef_flags : Z
}.

Record EscrowCancelTx := mkCancel {
  ex_account : AccountID;
  ex_owner : AccountID;
  ex_offerSequence : Z;
  ex_escrowID : option uint256;
  ex_flags : Z
}.

(** ** The code *)

(** Strictly after the mark. *)
Definition after (now mark : Z) : bool := mark <? now.

(** The test of an optional field. *)
Definition present (f : Z -> bool) (o : option Z) : bool := match o with Some v => f v | None => false end.

Section code.
Context `{PayKeylets, Sha256}.

(** The amount of a transaction: an issued currency needs the amendment, a legal value, a
    proper code and an issuer other than the sender; [disabled] and [own] are the codes
    the transactors differ in. *)
Definition preflight_amount (r : Rules) (account : AccountID) (amount : STAmount) (disabled own : TER) : TER :=
  if negb (isXRP amount) && negb (featurePaychanAndEscrowForTokens r) then disabled
  else if negb (isXRP amount) && negb (isLegalNet amount) then temBAD_AMOUNT
  else if negb (isXRP amount) && isFakeXRP (getCurrency amount) then temBAD_CURRENCY
  else if negb (isXRP amount) && (account =? getIssuer amount) then own
  else if st_signum amount <=? 0 then temBAD_AMOUNT
  else tesSUCCESS.

Definition EscrowCreate_preflight (r : Rules) (preflight1 preflight2 : TER) (tx : EscrowCreateTx) : TER :=
  if fix1543 r && has_flag (ec_flags tx) tfUniversalMask then temINVALID_FLAG
  else if negb (bool_decide (preflight1 = tesSUCCESS)) then preflight1
  else match preflight_amount r (ec_account tx) (ec_amount tx) temBAD_AMOUNT temBAD_SRC_ACCOUNT with
  | tesSUCCESS =>
    match ec_cancelAfter tx, ec_finishAfter tx with
    | None, None => temBAD_EXPIRATION
    | cancelAfter, finishAfter =>
      if match cancelAfter, finishAfter with Some c, Some f => c <=? f | _, _ => false end then temBAD_EXPIRATION
      else if fix1571 r && bool_decide (finishAfter = None) && bool_decide (ec_condition tx = None) then temMALFORMED
      else match ec_condition tx with
      | Some cb =>
        match condition_deserialize cb with
        | Val condition =>
          if negb (bool_decide (c_type condition = preimageSha256)) && negb (featureCryptoConditionsSuite r) then temDISABLED else preflight2
        | _ => temMALFORMED
        end
      | None => preflight2
      end
    end
  | ter => ter
  end.

(** The cancel or finish time of a new escrow has passed. *)
Definition create_too_late (fix1571 : bool) (now mark : Z) : bool := if fix1571 then after now mark else mark <=? now.

(** The account has the drops beyond the reserve; escrows and channels share this. *)
Definition xrp_funds (amount : STAmount) (balance reserve : Z) : pay unit :=
  drops ← calc (xrp amount);
  _ ← defined (i64_fits (reserve + drops));
  refuse_if (balance <? reserve + drops) tecUNFUNDED.

(** [doApply] checks that the amount is there: drops beyond the reserve, or a line on
    which it can be locked. *)
Definition create_funds (tx : EscrowCreateTx) (balance reserve : Z) : pay unit :=
  let amount := ec_amount tx in
  if isXRP amount then xrp_funds amount balance reserve
  else
    r ← ask rules;
    _ ← refuse_if (negb (featurePaychanAndEscrowForTokens r)) temDISABLED;
    _ ← call (fun l => Val (trustTransferAllowed l [ec_account tx; ec_destination tx] (mIssue amount), l));
    let line := keylet_line (ec_account tx) (getIssuer amount) (getCurrency amount) in
    sleLine ← ask (fun l => pl_lines l !! line);
    _ ← some_or sleLine tecUNFUNDED;
    call (trustAdjustLockedBalance true line amount 1).

(** The destination exists and takes the payment; escrows and channels share this. *)
Definition check_destination (dst : AccountID) (tag : option Z) : pay unit :=
  r ← ask rules;
  sled ← ask (fun l => pl_accounts l !! dst);
  sled ← some_or sled tecNO_DST;
  _ ← refuse_if (has_flag (acc_flags sled) lsfRequireDestTag && bool_decide (tag = None)) tecDST_TAG_NEEDED;
  refuse_if (negb (featureDepositAuth r) && has_flag (acc_flags sled) lsfDisallowXRP) tecNO_TARGET.

Definition new_escrow (tx : EscrowCreateTx) (ownerNode : Z) (destinationNode : option Z) : EscrowSLE :=
  mkEscrow (ec_account tx) (ec_destination tx) (ec_amount tx) (ec_condition tx) (ec_cancelAfter tx) (ec_finishAfter tx)
    (ec_sourceTag tx) (ec_destinationTag tx) ownerNode destinationNode.

Definition put_escrow (key : uint256) (e : EscrowSLE) (l : PayLedger) : pres PayLedger := Val (put_escrows l (<[key := e]> (pl_escrows l))).

Definition insert_escrow (key : uint256) (e : EscrowSLE) (l : PayLedger) : pres PayLedger :=
  if occupied l key then Err Abort else put_escrow key e l.

Definition erase_escrow (key : uint256) (l : PayLedger) : pres PayLedger := Val (put_escrows l (delete key (pl_escrows l))).

Definition EscrowCreate_doApply (tx : EscrowCreateTx) : pay unit :=
  let account := ec_account tx in
  let amount := ec_amount tx in
  closeTime ← ask parentCloseTime;
  r ← ask rules;
  _ ← refuse_if (present (create_too_late (fix1571 r) closeTime) (ec_cancelAfter tx)) tecNO_PERMISSION;
  _ ← refuse_if (present (create_too_late (fix1571 r) closeTime) (ec_finishAfter tx)) tecNO_PERMISSION;
  sle ← ask (fun l => pl_accounts l !! account);
  sle ← some_or sle temDISABLED;
  fees ← ask pl_fees;
  let reserve := accountReserve fees (u32 (sfOwnerCount sle + 1)) in
  _ ← refuse_if (sfBalance sle <? reserve) tecINSUFFICIENT_RESERVE;
  _ ← create_funds tx (sfBalance sle) reserve;
  _ ← check_destination (ec_destination tx) (ec_destinationTag tx);
  let key := escrow_key account (ec_seqID tx) in
  _ ← change (insert_escrow key (new_escrow tx 0 None));
  ownerNode ← insert_listed account key;
  _ ← change (put_escrow key (new_escrow tx ownerNode None));
  _ ← (if ec_destination tx =? account then mret tt
       else destinationNode ← insert_listed (ec_destination tx) key;
            change (put_escrow key (new_escrow tx ownerNode (Some destinationNode))));
  _ ← (if isXRP amount then drops ← calc (xrp amount); change (credit account (- drops))
       else _ ← refuse_if (negb (featurePaychanAndEscrowForTokens r)) temDISABLED;
            call (trustAdjustLockedBalance false (keylet_line account (getIssuer amount) (getCurrency amount)) amount 1));
  change (adjust_owner account 1).

(** *** Finish *)

(** The hash router remembers the outcome of the check of a transaction. *)
Definition router_check (id : uint256) (fb cb : Blob) (router : gmap uint256 bool) : gmap uint256 bool :=
  match router !! id with Some _ => router | None => <[id := checkCondition fb cb]> router end.

Definition EscrowFinish_preflight (r : Rules) (preflight1 preflight2 : TER) (tx : EscrowFinishTx) (router : gmap uint256 bool) : TER * gmap uint256 bool :=
  if fix1543 r && has_flag (ef_flags tx) tfUniversalMask then (temINVALID_FLAG, router)
  else if negb (bool_decide (preflight1 = tesSUCCESS)) then (preflight1, router)
  else match ef_condition tx, ef_fulfillment tx with
  | Some _, None | None, Some _ => (temMALFORMED, router)
  | cb, fb =>
    if negb (bool_decide (preflight2 = tesSUCCESS)) then (preflight2, router)
    else match cb, fb with
    | Some cb, Some fb => (tesSUCCESS, router_check (ef_id tx) fb cb router)
    | _, _ => (tesSUCCESS, router)
    end
  end.

(** Fees are 64-bit numbers; [base] is what [Transactor::calculateBaseFee] returns. *)
Definition EscrowFinish_calculateBaseFee (units base : Z) (tx : EscrowFinishTx) : Z :=
  let extraFee := match ef_fulfillment tx with Some fb => u64 (units * (32 + vsize fb / 16)) | None => 0 end in
  u64 (base + extraFee).

(** The key of the escrow a transaction names. *)
Definition named_escrow (owner : AccountID) (offerSequence : Z) (escrowID : option uint256) : pay uint256 :=
  r ← ask rules;
  _ ← refuse_if (negb (featureHooks r) && bool_decide (is_Some escrowID)) temDISABLED;
  _ ← refuse_if (bool_decide (is_Some escrowID) && negb (offerSequence =? 0)) temMALFORMED;
  mret (default (escrow_key owner (SeqValue offerSequence)) escrowID).

(** The time does not allow the finish. *)
Definition finish_too_soon (fix1571 : bool) (now mark : Z) : bool := if fix1571 then negb (after now mark) else now <=? mark.
Definition finish_too_late (fix1571 : bool) (now mark : Z) : bool := if fix1571 then after now mark else now <=? mark.

(** The condition is presented again, and was checked here or in [preflight]. *)
Definition finish_condition (tx : EscrowFinishTx) (cond : option Blob) : pay unit :=
  flags ← ask (fun l => pl_router l !! ef_id tx);
  flags ← match ef_condition tx, flags with
          | Some cb, None =>
            fb ← some_or (ef_fulfillment tx) tecINTERNAL;
            _ ← change (fun l => Val (put_router l (<[ef_id tx := checkCondition fb cb]> (pl_router l))));
            mret (Some (checkCondition fb cb))
          | _, flags => mret flags
          end;
  _ ← refuse_if (bool_decide (flags = Some false)) tecCRYPTOCONDITION_ERROR;
  _ ← refuse_if (bool_decide (cond = None) && bool_decide (is_Some (ef_condition tx))) tecCRYPTOCONDITION_ERROR;
  refuse_if (bool_decide (is_Some cond) && negb (bool_decide (cond = ef_condition tx))) tecCRYPTOCONDITION_ERROR.

(** A destination that requires authorization takes payments it makes itself or of
    accounts it has authorized; escrows and channels share this. *)
Definition deposit_authorized (dst : AccountID) (root : AccountRoot) (from : AccountID) : pay unit :=
  l ← ask id;
  refuse_if (featureDepositAuth (rules l) && has_flag (acc_flags root) lsfDepositAuth && negb (from =? dst)
             && negb (bool_decide ((dst, from) ∈ pl_preauths l))) tecNO_PERMISSION.

Definition EscrowFinish_doApply (tx : EscrowFinishTx) : pay unit :=
  k ← named_escrow (ef_owner tx) (ef_offerSequence tx) (ef_escrowID tx);
  slep ← ask (fun l => pl_escrows l !! k);
  slep ← some_or slep tecNO_TARGET;
  let account := e_account slep in
  let destID := e_destination slep in
  let amount := e_amount slep in
  r ← ask rules;
  now ← ask parentCloseTime;
  _ ← refuse_if (present (finish_too_soon (fix1571 r) now) (e_finishAfter slep)) tecNO_PERMISSION;
  _ ← refuse_if (present (finish_too_late (fix1571 r) now) (e_cancelAfter slep)) tecNO_PERMISSION;
  _ ← finish_condition tx (e_condition slep);
  sled ← ask (fun l => pl_accounts l !! destID);
  sled ← some_or sled tecNO_DST;
  _ ← deposit_authorized destID sled (ef_account tx);
  _ ← (if isXRP amount then mret tt
       else _ ← refuse_if (negb (featurePaychanAndEscrowForTokens r)) temDISABLED;
            call (trustTransferLockedBalance true (ef_account tx) account destID amount (-1)));
  _ ← remove_listed account (e_ownerNode slep) k;
  _ ← remove_listed_opt destID (e_destinationNode slep) k;
  _ ← (if isXRP amount then drops ← calc (xrp amount); change (credit destID drops)
       else call (trustTransferLockedBalance false (ef_account tx) account destID amount (-1)));
  _ ← change (adjust_owner account (-1));
  change (erase_escrow k).

(** *** Cancel *)

Definition EscrowCancel_preflight (r : Rules) (preflight1 preflight2 : TER) (tx : EscrowCancelTx) : TER :=
  if fix1543 r && has_flag (ex_flags tx) tfUniversalMask then temINVALID_FLAG
  else if negb (bool_decide (preflight1 = tesSUCCESS)) then preflight1
  else preflight2.

(** Both branches of the rule are the same comparison. *)
Definition cancel_too_soon (fix1571 : bool) (now : Z) (cancelAfter : option Z) : bool :=
  match cancelAfter with
  | None => true
  | Some mark => if fix1571 then negb (after now mark) else now <=? mark
  end.

Definition EscrowCancel_doApply (tx : EscrowCancelTx) : pay unit :=
  k ← named_escrow (ex_owner tx) (ex_offerSequence tx) (ex_escrowID tx);
  slep ← ask (fun l => pl_escrows l !! k);
  slep ← some_or slep tecNO_TARGET;
  r ← ask rules;
  now ← ask parentCloseTime;
  _ ← refuse_if (cancel_too_soon (fix1571 r) now (e_cancelAfter slep)) tecNO_PERMISSION;
  let account := e_account slep in
  let amount := e_amount slep in
  let line := keylet_line account (getIssuer amount) (getCurrency amount) in
  _ ← (if isXRP amount then mret tt
       else _ ← refuse_if (negb (featurePaychanAndEscrowForTokens r)) temDISABLED;
            call (trustAdjustLockedBalance true line (st_neg amount) (-1)));
  _ ← remove_listed account (e_ownerNode slep) k;
  _ ← remove_listed_opt (e_destination slep) (e_destinationNode slep) k;
  _ ← (if isXRP amount then drops ← calc (xrp amount); change (credit account drops)
       else _ ← refuse_if (negb (featurePaychanAndEscrowForTokens r)) temDISABLED;
            call (trustAdjustLockedBalance false line (st_neg amount) (-1)));
  _ ← change (adjust_owner account (-1));
  change (erase_escrow k).
End code.
