(* ===== verification/PayChan.v ===== *)
(** * PayChan: the payment channel transactors ([app/tx/impl/PayChan.cpp])

    [PayChanCreate] and [PayChanFund] set an amount of the sender aside in a channel,
    [PayChanClaim] pays the destination up to a balance the sender has signed, renews the
    channel or asks for its end, and [closeChannel] returns what is left.  Times are 32-bit
    numbers, so the end of the settle delay wraps.

    [verify], which the cryptographic libraries implement, is a parameter.

    The theorem of this file: a signed authorization names the channel and the amount.
    What a claim has to show is a theorem of [PayTxns.v]. *)

From stdpp Require Import base numbers list option gmap.
From Stdlib Require Import ZArith Lia.
From S2P Require Import Prelude Leb128 Double Xfl IouAmount StAmount Enum Runtime Directory Context StateLedger Condition ShaMapNode Serializer PayLedger TrustLine Escrow.

Local Open Scope Z_scope.

(** ** Transactions *)

Record PayChanCreateTx := mkChanCreate {
  cc_account : AccountID;
  cc_destination : AccountID;
  cc_amount : STAmount;
  cc_settleDelay : Z;
  cc_publicKey : Blob;
  cc_cancelAfter : option Z;
  cc_sourceTag : option Z;
  cc_destinationTag : option Z;
  cc_flags : Z;
  cc_seqID : SeqID
}.

Record PayChanFundTx := mkFund {
  cf_account : AccountID;
  cf_channel : uint256;
  cf_amount : STAmount;
  cf_expiration : option Z;
  cf_flags : Z
}.

Record PayChanClaimTx := mkClaim {
  cl_account : AccountID;
  cl_channel : uint256;
  cl_balance : option STAmount;
  cl_amount : option STAmount;
  cl_signature : option Blob;
  cl_publicKey : option Blob;
  cl_flags : Z
}.

Definition tfRenew : Z := 0x00010000.
Definition tfClose : Z := 0x00020000.
Definition tfPayChanClaimMask : Z := 0x7FFCFFFF.

(** ** Authorizations ([protocol/PayChan.h], [protocol/impl/PublicKey.cpp]) *)

Definition publicKeyType (key : Blob) : bool :=
  (vsize key =? 33) && match key with b :: _ => (b =? 0xED) || (b =? 0x02) || (b =? 0x03) | [] => false end.

(** The signature of a message by a key, fully canonical. *)
Class Verify := verify : Blob -> Blob -> Blob -> bool.

Definition paymentChannelClaim : Z := 0x434C4D00.

Definition authorization_xrp (key : uint256) (drops : Z) : Blob := add32 paymentChannelClaim ++ to_bytes 32 key ++ add64 (u64 drops).

Definition authorization_iou (key : uint256) (amt : IOUAmount) (cur iss : Z) : Blob :=
  add32 paymentChannelClaim ++ to_bytes 32 key ++
  add64 (if iou_eqb amt iou_zero then cNotNative
         else Z.lor (u64 (mantissa amt))
                (u64 (Z.shiftl (u64 (exponent amt + 512 + (if signum amt =? -1 then 0 else 256) + 97)) 54))) ++
  to_bytes 20 cur ++ to_bytes 20 iss.

Definition serializePayChanAuthorization (key : uint256) (amt : STAmount) : fres Blob :=
  if isXRP amt then drops ← xrp amt; Val (authorization_xrp key drops)
  else if mIsNative amt then Err runtime_error
  else a ← makeIOU (signed amt) (mOffset amt); Val (authorization_iou key a (getCurrency amt) (getIssuer amt)).

(** ** The code *)

(** The channel after its amount, its balance or its expiration changed. *)
Definition set_chan_amount (a : STAmount) (c : PayChanSLE) : PayChanSLE :=
  mkChan (ch_account c) (ch_destination c) a (ch_balance c) (ch_settleDelay c) (ch_publicKey c) (ch_cancelAfter c) (ch_expiration c)
    (ch_sourceTag c) (ch_destinationTag c) (ch_ownerNode c) (ch_destinationNode c).
Definition set_chan_balance (b : STAmount) (c : PayChanSLE) : PayChanSLE :=
  mkChan (ch_account c) (ch_destination c) (ch_amount c) b (ch_settleDelay c) (ch_publicKey c) (ch_cancelAfter c) (ch_expiration c)
    (ch_sourceTag c) (ch_destinationTag c) (ch_ownerNode c) (ch_destinationNode c).
Definition set_expiration (e : option Z) (c : PayChanSLE) : PayChanSLE :=
  mkChan (ch_account c) (ch_destination c) (ch_amount c) (ch_balance c) (ch_settleDelay c) (ch_publicKey c) (ch_cancelAfter c) e
    (ch_sourceTag c) (ch_destinationTag c) (ch_ownerNode c) (ch_destinationNode c).

Definition put_channel (key : uint256) (c : PayChanSLE) (l : PayLedger) : pres PayLedger := Val (put_channels l (<[key := c]> (pl_channels l))).
Definition insert_channel (key : uint256) (c : PayChanSLE) (l : PayLedger) : pres PayLedger :=
  if occupied l key then Err Abort else put_channel key c l.
Definition erase_channel (key : uint256) (l : PayLedger) : pres PayLedger := Val (put_channels l (delete key (pl_channels l))).

(** The cancel time or the expiration of the channel has come. *)
Definition channel_expired (closeTime : Z) (c : PayChanSLE) : bool :=
  present (fun t => t <=? closeTime) (ch_cancelAfter c) || present (fun t => t <=? closeTime) (ch_expiration c).

(** The end of a settle delay that starts now. *)
Definition settle_expiration (closeTime : Z) (c : PayChanSLE) : Z := u32 (closeTime + ch_settleDelay c).

Section code.
Context `{PayKeylets, Verify}.

Definition closeChannel (key : uint256) (slep : PayChanSLE) : pay unit :=
  let src := ch_account slep in
  amount ← calc (st_sub (ch_amount slep) (ch_balance slep));
  r ← ask rules;
  let line := keylet_line src (getIssuer amount) (getCurrency amount) in
  _ ← (if isXRP amount then mret tt
       else _ ← refuse_if (negb (featurePaychanAndEscrowForTokens r)) temDISABLED;
            call (trustAdjustLockedBalance true line (st_neg amount) (-1)));
  _ ← remove_listed src (ch_ownerNode slep) key;
  _ ← (if fixPayChanRecipientOwnerDir r then remove_listed_opt (ch_destination slep) (ch_destinationNode slep) key else mret tt);
  sle ← ask (fun l => pl_accounts l !! src);
  _ ← some_or sle tefINTERNAL;
  ge ← calc (st_leb (ch_balance slep) (ch_amount slep));
  _ ← defined ge;
  _ ← (if isXRP amount then drops ← calc (xrp amount); change (credit src drops)
       else call (trustAdjustLockedBalance false line (st_neg amount) (-1)));
  _ ← change (adjust_owner src (-1));
  change (erase_channel key).

(** *** Create *)

Definition PayChanCreate_preflight (r : Rules) (preflight1 preflight2 : TER) (tx : PayChanCreateTx) : TER :=
  if fix1543 r && has_flag (cc_flags tx) tfUniversalMask then temINVALID_FLAG
  else if negb (bool_decide (preflight1 = tesSUCCESS)) then preflight1
  else match preflight_amount r (cc_account tx) (cc_amount tx) temDISABLED temBAD_SRC_ACCOUNT with
  | tesSUCCESS =>
    if cc_account tx =? cc_destination tx then temDST_IS_SRC
    else if negb (publicKeyType (cc_publicKey tx)) then temMALFORMED
    else preflight2
  | ter => ter
  end.

Definition PayChanCreate_preclaim (tx : PayChanCreateTx) : pay unit :=
  let account := cc_account tx in
  let amount := cc_amount tx in
  sle ← ask (fun l => pl_accounts l !! account);
  sle ← some_or sle terNO_ACCOUNT;
  fees ← ask pl_fees;
  let reserve := accountReserve fees (u32 (sfOwnerCount sle + 1)) in
  _ ← refuse_if (sfBalance sle <? reserve) tecINSUFFICIENT_RESERVE;
  _ ← (if isXRP amount then xrp_funds amount (sfBalance sle) reserve
       else r ← ask rules;
            _ ← refuse_if (negb (featurePaychanAndEscrowForTokens r)) temDISABLED;
            _ ← call (fun l => Val (trustTransferAllowed l [account; cc_destination tx] (mIssue amount), l));
            call (trustAdjustLockedBalance true (keylet_line account (getIssuer amount) (getCurrency amount)) amount 1));
  check_destination (cc_destination tx) (cc_destinationTag tx).

Definition new_channel (tx : PayChanCreateTx) (ownerNode : Z) (destinationNode : option Z) : PayChanSLE :=
  mkChan (cc_account tx) (cc_destination tx) (cc_amount tx) (zeroed (mIssue (cc_amount tx))) (cc_settleDelay tx) (cc_publicKey tx)
    (cc_cancelAfter tx) None (cc_sourceTag tx) (cc_destinationTag tx) ownerNode destinationNode.

Definition PayChanCreate_doApply (tx : PayChanCreateTx) : pay unit :=
  let account := cc_account tx in
  let amount := cc_amount tx in
  sle ← ask (fun l => pl_accounts l !! account);
  _ ← some_or sle tefINTERNAL;
  r ← ask rules;
  let key := paychan_key account (cc_destination tx) (cc_seqID tx) in
  _ ← change (insert_channel key (new_channel tx 0 None));
  ownerNode ← insert_listed account key;
  _ ← change (put_channel key (new_channel tx ownerNode None));
  _ ← (if fixPayChanRecipientOwnerDir r then
         destinationNode ← insert_listed (cc_destination tx) key;
         change (put_channel key (new_channel tx ownerNode (Some destinationNode)))
       else mret tt);
  _ ← (if isXRP amount then drops ← calc (xrp amount); change (credit account (- drops))
       else _ ← refuse_if (negb (featurePaychanAndEscrowForTokens r)) temDISABLED;
            let line := keylet_line account (getIssuer amount) (getCurrency amount) in
            sleLine ← ask (fun l => pl_lines l !! line);
            _ ← some_or sleLine tecNO_LINE;
            call (trustAdjustLockedBalance false line amount 1));
  change (adjust_owner account 1).

(** *** Fund *)

Definition PayChanFund_preflight (r : Rules) (preflight1 preflight2 : TER) (tx : PayChanFundTx) : TER :=
  if fix1543 r && has_flag (cf_flags tx) tfUniversalMask then temINVALID_FLAG
  else if negb (bool_decide (preflight1 = tesSUCCESS)) then preflight1
  else match preflight_amount r (cf_account tx) (cf_amount tx) temBAD_AMOUNT temDST_IS_SRC with
  | tesSUCCESS => preflight2
  | ter => ter
  end.

(** A new expiration is no earlier than the settle delay or the expiration before. *)
Definition extend_channel (key : uint256) (extend : option Z) (closeTime : Z) (slep : PayChanSLE) : pay PayChanSLE :=
  match extend with
  | None => mret slep
  | Some extend =>
    let minExpiration := settle_expiration closeTime slep in
    let minExpiration := match ch_expiration slep with Some e => if e <? minExpiration then e else minExpiration | None => minExpiration end in
    _ ← refuse_if (extend <? minExpiration) temBAD_EXPIRATION;
    let slep := set_expiration (Some extend) slep in
    _ ← change (put_channel key slep);
    mret slep
  end.

Definition PayChanFund_doApply (tx : PayChanFundTx) : pay unit :=
  let k := cf_channel tx in
  let amount := cf_amount tx in
  slep ← ask (fun l => pl_channels l !! k);
  slep ← some_or slep tecNO_ENTRY;
  r ← ask rules;
  let line := keylet_line (ch_account slep) (getIssuer amount) (getCurrency amount) in
  _ ← (if negb (isXRP amount) && featurePaychanAndEscrowForTokens r then call (trustAdjustLockedBalance true line amount 1) else mret tt);
  closeTime ← ask parentCloseTime;
  if channel_expired closeTime slep then closeChannel k slep
  else
    let txAccount := cf_account tx in
    _ ← refuse_if (negb (ch_account slep =? txAccount)) tecNO_PERMISSION;
    slep ← extend_channel k (cf_expiration tx) closeTime slep;
    sle ← ask (fun l => pl_accounts l !! txAccount);
    sle ← some_or sle tefINTERNAL;
    sled ← ask (fun l => pl_accounts l !! ch_destination slep);
    _ ← some_or sled tecNO_DST;
    fees ← ask pl_fees;
    let reserve := accountReserve fees (sfOwnerCount sle) in
    _ ← refuse_if (sfBalance sle <? reserve) tecINSUFFICIENT_RESERVE;
    _ ← (if isXRP amount then
           _ ← xrp_funds amount (sfBalance sle) reserve;
           drops ← calc (xrp amount);
           change (credit txAccount (- drops))
         else
           _ ← refuse_if (negb (featurePaychanAndEscrowForTokens r)) temDISABLED;
           call (trustAdjustLockedBalance false line amount 1));
    amount ← calc (st_add (ch_amount slep) amount);
    change (put_channel k (set_chan_amount amount slep)).

(** *** Claim *)

Definition claim_amount_refused (r : Rules) (a : option STAmount) : bool :=
  match a with
  | Some a => (negb (isXRP a) && negb (featurePaychanAndEscrowForTokens r)) || (st_signum a <=? 0)
  | None => false
  end.

(** The signature is checked against the key of the transaction. *)
Definition claim_signature (preflight2 : TER) (tx : PayChanClaimTx) : fres TER :=
  match cl_signature tx with
  | None => Val preflight2
  | Some sig =>
    match cl_publicKey tx, cl_balance tx with
    | Some pk, Some reqBalance =>
      let authAmt := default reqBalance (cl_amount tx) in
      above ← st_gtb reqBalance authAmt;
      if above : bool then Val temBAD_AMOUNT
      else if negb (publicKeyType pk) then Val temMALFORMED
      else
        msg ← serializePayChanAuthorization (cl_channel tx) authAmt;
        Val (if verify pk msg sig then preflight2 else temBAD_SIGNATURE)
    | _, _ => Val temMALFORMED
    end
  end.

Definition PayChanClaim_preflight (r : Rules) (preflight1 preflight2 : TER) (tx : PayChanClaimTx) : fres TER :=
  if negb (bool_decide (preflight1 = tesSUCCESS)) then Val preflight1
  else if claim_amount_refused r (cl_balance tx) then Val temBAD_AMOUNT
  else if claim_amount_refused r (cl_amount tx) then Val temBAD_AMOUNT
  else
    above ← match cl_balance tx, cl_amount tx with Some bal, Some amt => st_gtb bal amt | _, _ => Val false end;
    if above : bool then Val temBAD_AMOUNT
    else if fix1543 r && has_flag (cl_flags tx) tfPayChanClaimMask then Val temINVALID_FLAG
    else if has_flag (cl_flags tx) tfClose && has_flag (cl_flags tx) tfRenew then Val temMALFORMED
    else claim_signature preflight2 tx.

(** A signature is by the key of the channel. *)
Definition claim_signer (tx : PayChanClaimTx) (slep : PayChanSLE) : pay unit :=
  match cl_signature tx with
  | Some _ =>
    _ ← (if publicKeyType (ch_publicKey slep) then mret tt else change (fun _ => Err Abort));
    pk ← calc (match cl_publicKey tx with Some pk => Val pk | None => Err runtime_error end);
    refuse_if (negb (bool_decide (pk = ch_publicKey slep))) temBAD_SIGNER
  | None => mret tt
  end.

(** The part of [doApply] that pays the destination. *)
Definition claim_balance (tx : PayChanClaimTx) (reqBalance : STAmount) (slep : PayChanSLE) : pay PayChanSLE :=
  let src := ch_account slep in
  let dst := ch_destination slep in
  let txAccount := cl_account tx in
  r ← ask rules;
  _ ← refuse_if ((txAccount =? dst) && bool_decide (cl_signature tx = None)) temBAD_SIGNATURE;
  _ ← claim_signer tx slep;
  above ← calc (st_gtb reqBalance (ch_amount slep));
  _ ← refuse_if above tecUNFUNDED_PAYMENT;
  nothing ← calc (st_leb reqBalance (ch_balance slep));
  _ ← refuse_if nothing tecUNFUNDED_PAYMENT;
  sled ← ask (fun l => pl_accounts l !! dst);
  sled ← some_or sled tecNO_DST;
  _ ← refuse_if (negb (featureDepositAuth r) && ((txAccount =? src) && has_flag (acc_flags sled) lsfDisallowXRP)) tecNO_TARGET;
  _ ← deposit_authorized dst sled txAccount;
  let paid := set_chan_balance reqBalance slep in
  _ ← change (put_channel (cl_channel tx) paid);
  reqDelta ← calc (st_sub reqBalance (ch_balance slep));
  _ ← defined (0 <=? st_signum reqDelta);
  _ ← (if isXRP reqDelta then drops ← calc (xrp reqDelta); change (credit dst drops)
       else _ ← refuse_if (negb (featurePaychanAndEscrowForTokens r)) temDISABLED;
            call (trustTransferLockedBalance false txAccount src dst reqDelta 0));
  mret paid.

Definition PayChanClaim_doApply (tx : PayChanClaimTx) : pay unit :=
  let k := cl_channel tx in
  slep ← ask (fun l => pl_channels l !! k);
  slep ← some_or slep tecNO_TARGET;
  let src := ch_account slep in
  let dst := ch_destination slep in
  let txAccount := cl_account tx in
  let curExpiration := ch_expiration slep in
  closeTime ← ask parentCloseTime;
  if channel_expired closeTime slep then closeChannel k slep
  else
    _ ← refuse_if (negb (txAccount =? src) && negb (txAccount =? dst)) tecNO_PERMISSION;
    slep ← match cl_balance tx with Some reqBalance => claim_balance tx reqBalance slep | None => mret slep end;
    slep ← (if has_flag (cl_flags tx) tfRenew then
              _ ← refuse_if (negb (src =? txAccount)) tecNO_PERMISSION;
              _ ← change (put_channel k (set_expiration None slep));
              mret (set_expiration None slep)
            else mret slep);
    if has_flag (cl_flags tx) tfClose then
      if (dst =? txAccount) || st_eqb (ch_balance slep) (ch_amount slep) then closeChannel k slep
      else
        let settleExpiration := settle_expiration closeTime slep in
        if match curExpiration with Some e => settleExpiration <? e | None => true end
        then change (put_channel k (set_expiration (Some settleExpiration) slep))
        else mret tt
    else mret tt.
End code.

(** ** What an authorization says *)

(** An amount that can be authorized: a positive number of drops, or a positive issued
    amount of a 160-bit currency and issuer. *)
Definition auth_amount (a : STAmount) : Prop :=
  (exists drops, a = xrp_amount drops /\ 0 < drops < 2 ^ 63) \/
  (issued a /\ mIsNegative a = false /\ cMinValue <= mValue a /\ 0 < getCurrency a < 2 ^ 160 /\ 0 <= getIssuer a < 2 ^ 160).

Lemma add64_inj x y : 0 <= x < 2 ^ 64 -> 0 <= y < 2 ^ 64 -> add64 x = add64 y -> x = y.
Proof.
  intros Hx Hy E. pose proof (get64_add64 x [] Hx) as Gx. pose proof (get64_add64 y [] Hy) as Gy. rewrite E, Gy in Gx. by injection Gx.
Qed.

(** The mantissa and the exponent in one word. *)
Definition packed (a : STAmount) : Z := mValue a + (mOffset a + 865) * 2 ^ 54.

Lemma pack_lor m e : 0 <= m < 2 ^ 54 -> 0 <= e < 1024 -> Z.lor (u64 m) (u64 (Z.shiftl (u64 e) 54)) = m + e * 2 ^ 54.
Proof.
  intros Hm He. rewrite !(u64_small m), (u64_small e) by lia. rewrite Z.shiftl_mul_pow2 by lia. rewrite u64_small by lia.
  pose proof (Z.add_lor_land m (e * 2 ^ 54)) as E. assert (Z.land m (e * 2 ^ 54) = 0) as E0; [|lia].
  rewrite <- Z.shiftl_mul_pow2 by lia. apply Z.bits_inj'. intros i Hi. rewrite Z.land_spec, Z.bits_0, Z.shiftl_spec by lia.
  destruct (Z.lt_ge_cases i 54); [rewrite (Z.testbit_neg_r e) by lia; apply andb_false_r|]. by rewrite (testbit_small m 54) by lia.
Qed.

Lemma authorization_message k a m : auth_amount a -> serializePayChanAuthorization k a = Val m ->
  (exists drops, a = xrp_amount drops /\ 0 < drops < 2 ^ 63 /\ m = add32 paymentChannelClaim ++ to_bytes 32 k ++ add64 drops) \/
  (issued a /\ mIsNegative a = false /\ 0 < getCurrency a < 2 ^ 160 /\ 0 <= getIssuer a < 2 ^ 160 /\ cMinValue <= mValue a <= cMaxValue /\ minExponent <= mOffset a <= maxExponent /\
   m = add32 paymentChannelClaim ++ to_bytes 32 k ++ add64 (packed a) ++ to_bytes 20 (getCurrency a) ++ to_bytes 20 (getIssuer a)).
Proof.
  intros [(drops & -> & Hd)|(Hi & Hneg & Hmin & Hc & His)] Hm.
  - left. exists drops. split; [done|]. split; [done|]. unfold serializePayChanAuthorization, authorization_xrp in Hm. cbn in Hm.
    rewrite (proj2 (Z.ltb_ge drops 0)), Z.abs_eq, u64_small in Hm by lia. by injection Hm as <-.
  - right. pose proof Hi as (Hn & Hcur & Hv). destruct Hv as [(Hv & _)|[Hv Ho]]; [unfold cMinValue in Hmin; lia|]. repeat (split; [done|]).
    unfold serializePayChanAuthorization in Hm. unfold isXRP in Hm. unfold getCurrency in Hc. rewrite (proj2 (Z.eqb_neq _ 0)) in Hm by lia.
    rewrite Hn in Hm. unfold makeIOU, signed in Hm. rewrite Hneg in Hm. unfold cMinValue, cMaxValue in Hv.
    rewrite normalize_id in Hm by (unfold_range; lia). cbn [mbind res_bind] in Hm. injection Hm as <-.
    unfold authorization_iou, iou_eqb, iou_zero, signum. cbn [mantissa exponent].
    rewrite (proj2 (Z.eqb_neq (mValue a) 0)), (proj2 (Z.ltb_ge (mValue a) 0)), andb_false_r by lia. change (1 =? -1) with false. cbn iota.
    unfold_range. rewrite pack_lor by lia. unfold packed. by replace (mOffset a + 512 + 256 + 97) with (mOffset a + 865) by lia.
Qed.

(** C24: An authorization binds the signer to one channel and one amount: two
    authorizations with the same signed bytes are for the same channel, the same currency
    and issuer, and the same value; none for XRP reads as one for an issued currency. *)
Theorem authorization_binding k1 k2 a1 a2 m : 0 <= k1 < 2 ^ 256 -> 0 <= k2 < 2 ^ 256 -> auth_amount a1 -> auth_amount a2 ->
  serializePayChanAuthorization k1 a1 = Val m -> serializePayChanAuthorization k2 a2 = Val m -> k1 = k2 /\ a1 = a2.
Proof.
  intros Hk1 Hk2 Ha1 Ha2 E1 E2.
  assert (forall r1 r2, add32 paymentChannelClaim ++ to_bytes 32 k1 ++ r1 = add32 paymentChannelClaim ++ to_bytes 32 k2 ++ r2 -> k1 = k2 /\ r1 = r2) as Hkey.
  { intros r1 r2 E. apply app_inv_head, app_inj_1 in E as [Ek ->]; [|by rewrite !to_bytes_length]. split; [|done]. by apply (to_bytes_inj 32). }
  destruct (authorization_message _ _ _ Ha1 E1) as [(d1 & -> & Hd1 & ->)|(Hi1 & Hn1 & Hc1 & Hs1 & Hv1 & Ho1 & ->)],
    (authorization_message _ _ _ Ha2 E2) as [(d2 & -> & Hd2 & E)|(Hi2 & Hn2 & Hc2 & Hs2 & Hv2 & Ho2 & E)]; apply Hkey in E as [-> E]; (split; [done|]).
  - apply add64_inj in E; [|lia..]. by subst.
  - apply (f_equal length) in E. rewrite !length_app, !to_bytes_length in E. cbn in E. lia.
  - apply (f_equal length) in E. rewrite !length_app, !to_bytes_length in E. cbn in E. lia.
  - apply app_inj_1 in E as [Ep E]; [|done]. apply app_inj_1 in E as [Ec Ei]; [|by rewrite !to_bytes_length].
    apply (to_bytes_inj 20) in Ec; [|lia..]. apply (to_bytes_inj 20) in Ei; [|lia..]. unfold cMinValue, cMaxValue in *. unfold_range.
    apply add64_inj in Ep; [|unfold packed; lia..]. unfold packed in Ep. assert (mOffset a1 = mOffset a2) as Eo by lia. assert (mValue a1 = mValue a2) as Ev by lia.
    destruct Hi1 as [? _], Hi2 as [? _], a1 as [? ? ? ? [? ?]], a2 as [? ? ? ? [? ?]]. cbn in *. by subst.
Qed.

Module ChannelSamples.
Lemma authorization_binding_witness : xrp_amount 5 = xrp_amount 5 /\ 7 = 7.
Proof.
  assert (auth_amount (xrp_amount 5)) as Ha by (left; exists 5; split; [reflexivity|lia]).
  destruct (authorization_binding 7 7 (xrp_amount 5) (xrp_amount 5) (authorization_xrp 7 5)) as [Hk E]; [lia|lia|exact Ha|exact Ha|reflexivity|reflexivity|].
  split; [exact E|exact Hk].
Defined.

(** The same value of two issuers gives two messages. *)
Lemma authorization_issuers :
  serializePayChanAuthorization 7 (mkAmount 1000000000000000 (-15) false false (mkIssue 9 50)) <>
  serializePayChanAuthorization 7 (mkAmount 1000000000000000 (-15) false false (mkIssue 9 51)).
Proof. by vm_compute. Qed.
End ChannelSamples.
