(* ===== verification/XrpFlow.v ===== *)
(** * XrpFlow: what escrows and payment channels do to the XRP of the ledger

    The invariant of the ledger under the transactors of [Escrow.v] and [PayChan.v], and for
    each of them what it moves.

    The invariant: the owner directories are proper and list each escrow and channel
    exactly on the pages it names, no key is used twice, the drops set aside are those of
    existing accounts, balances are not negative and the XRP in accounts, escrows and
    channels is within the supply. *)

From stdpp Require Import base numbers list option gmap.
From Stdlib Require Import ZArith Lia.
From S2P Require Import Prelude Leb128 Double Xfl IouAmount StAmount Enum Runtime Directory Context StateLedger Condition ShaMapNode Serializer PayLedger TrustLine Escrow PayChan.

Local Open Scope Z_scope.

(** ** Sums over maps *)

Definition map_sum {A} (f : A -> Z) (m : gmap Z A) : Z := map_fold (fun _ x acc => f x + acc) 0 m.

Section sums.
Context {A : Type} (f : A -> Z).
Implicit Types m : gmap Z A.

Lemma map_sum_insert m k x : m !! k = None -> map_sum f (<[k := x]> m) = f x + map_sum f m.
Proof. intros Hk. unfold map_sum. rewrite map_fold_insert_L; [done| |done]. intros. lia. Qed.

Lemma map_sum_delete m k x : m !! k = Some x -> map_sum f m = f x + map_sum f (delete k m).
Proof. intros Hk. rewrite <- (insert_delete_id m k x Hk) at 1. apply map_sum_insert, lookup_delete_eq. Qed.

Lemma map_sum_update m k x y : m !! k = Some x -> map_sum f (<[k := y]> m) = map_sum f m - f x + f y.
Proof.
  intros Hk. rewrite <- (insert_delete_eq m k y), map_sum_insert by apply lookup_delete_eq.
  rewrite (map_sum_delete m k x Hk). lia.
Qed.

Lemma map_sum_nonneg m : (forall k x, m !! k = Some x -> 0 <= f x) -> 0 <= map_sum f m.
Proof.
  induction m as [|k x m Hk IH] using map_ind; [done|]. intros Hm. rewrite map_sum_insert by done.
  pose proof (Hm k x (lookup_insert_eq _ _ _)). enough (0 <= map_sum f m) by lia. apply IH. intros k' x' Hk'.
  apply (Hm k'). rewrite lookup_insert_ne; [done|congruence].
Qed.

Lemma map_sum_member m k x : (forall k x, m !! k = Some x -> 0 <= f x) -> m !! k = Some x -> f x <= map_sum f m.
Proof.
  intros Hm Hk. rewrite (map_sum_delete m k x Hk). enough (0 <= map_sum f (delete k m)) by lia. apply map_sum_nonneg.
  intros k' x' [_ ?]%lookup_delete_Some. eauto.
Qed.
End sums.

Lemma map_sum_fmap {A B} (f : B -> Z) (g : A -> B) (m : gmap Z A) : map_sum f (g <$> m) = map_sum (fun x => f (g x)) m.
Proof.
  induction m as [|k x m Hk IH] using map_ind; [by rewrite fmap_empty|].
  rewrite fmap_insert, !map_sum_insert, IH; [done|done|]. by rewrite lookup_fmap, Hk.
Qed.

(** ** Amounts of XRP *)

(** The flag of a native amount is that of its currency, drops have no exponent, and
    zero is not negative. *)
Definition amount_ok (a : STAmount) : Prop :=
  mIsNative a = isXRP a /\ (isXRP a = true -> 0 <= mValue a /\ mOffset a = 0 /\ (mIsNegative a = true -> 0 < mValue a)).

Definition drops_of (a : STAmount) : Z := if isXRP a then signed a else 0.

Lemma xrp_drops a d : isXRP a = true -> xrp a = Val d -> drops_of a = d.
Proof. unfold xrp, drops_of, signed. intros -> H. destruct (mIsNative a); [|done]. by injection H. Qed.

Lemma xrp_value a : amount_ok a -> isXRP a = true -> xrp a = Val (drops_of a).
Proof. intros [Hn _] Hx. unfold xrp, drops_of. by rewrite Hn, Hx. Qed.

Lemma drops_signum a : amount_ok a -> isXRP a = true -> Z.sgn (drops_of a) = st_signum a.
Proof.
  intros [_ Ha] Hx. destruct (Ha Hx) as (Hv & _ & _). unfold drops_of, st_signum, signed. rewrite Hx.
  destruct (Z.eqb_spec (mValue a) 0) as [->|]; [by destruct (mIsNegative a)|]. destruct (mIsNegative a); lia.
Qed.

Lemma drops_nonneg a : amount_ok a -> 0 <= st_signum a -> 0 <= drops_of a.
Proof.
  intros Ha Hs. destruct (isXRP a) eqn:E; [|unfold drops_of; by rewrite E]. pose proof (drops_signum a Ha E). lia.
Qed.

Lemma st_neg_ok a : amount_ok a -> amount_ok (st_neg a) /\ isXRP (st_neg a) = isXRP a /\ drops_of (st_neg a) = - drops_of a.
Proof.
  intros Ha. unfold st_neg, drops_of, signed. destruct (Z.eqb_spec (mValue a) 0) as [E|E].
  - split; [done|]. split; [done|]. rewrite E. by destruct (isXRP a), (mIsNegative a).
  - split; [split; [by destruct Ha|]; intros Hx; destruct (proj2 Ha Hx) as (? & ? & _); cbn; lia|]. split; [done|]. cbn. change (isXRP (mkAmount _ _ _ _ (mIssue a))) with (isXRP a).
    destruct (isXRP a), (mIsNegative a); cbn; lia.
Qed.

Lemma canonicalize_kind issue v o n c : canonicalize issue v o n = Val c -> mIssue c = issue /\ mIsNative c = (currency issue =? 0).
Proof.
  unfold canonicalize. destruct (currency issue =? 0) eqn:E.
  - unfold canonicalize_native. intros Hc. do 2 (case_match; [by simplify_eq|]).
    apply bind_Val in Hc as (w & _ & Hc). by case_match; simplify_eq.
  - destruct (v =? 0); [by intros [= <-]|]. destruct (grow 20 v o) as [v1 o1].
    destruct (shrink 20 v1 o1) as [[v2 o2]| |]; [|done..]. by repeat (case_match; [by intros; simplify_eq|]); intros; simplify_eq.
Qed.

(** A sum of issued amounts is one of the issue of the first. *)
Lemma st_add_issue a b c : mIsNative a = false -> isXRP a = false -> st_add a b = Val c -> mIssue c = mIssue a /\ mIsNative c = false.
Proof.
  unfold st_add. intros Hn E Hc. assert ((currency (mIssue a) =? 0) = false) as E' by done. rewrite Hn in Hc.
  destruct (negb _); [done|]. destruct (is_zero b); [by injection Hc as <-|]. destruct (is_zero a).
  - apply canonicalize_kind in Hc. by rewrite E' in Hc.
  - destruct (negb _); [done|]. destruct (_ && _).
    + injection Hc as <-. unfold zeroed. by rewrite E'.
    + apply canonicalize_kind in Hc. by rewrite E' in Hc.
Qed.

(** A sum of XRP is a sum of drops; a sum of issued amounts is no XRP. *)
Lemma st_add_ok a b c : amount_ok a -> amount_ok b -> st_add a b = Val c ->
  amount_ok c /\ isXRP c = isXRP a /\ isXRP b = isXRP a /\ drops_of c = drops_of a + drops_of b.
Proof.
  intros Ha Hb Hc. unfold st_add in Hc. destruct (areComparable a b) eqn:Ecmp; [|done]. cbn [negb] in Hc.
  unfold areComparable in Ecmp. bool_prop. assert (isXRP b = isXRP a) as Hx by (unfold isXRP, getCurrency in *; congruence).
  destruct (is_zero b) eqn:Eb.
  { injection Hc as <-. split; [done|]. split; [done|]. split; [done|]. unfold drops_of. rewrite Hx. destruct (isXRP a) eqn:E; [|done].
    pose proof (drops_signum b Hb Hx) as Hd. unfold is_zero in Eb. unfold drops_of in Hd. rewrite Hx in Hd. bool_prop. lia. }
  destruct (isXRP a) eqn:E.
  - destruct Ha as [Hna Hva], Hb as [Hnb Hvb]. rewrite E in Hna. rewrite Hx in Hnb. destruct (Hva E) as (? & _ & ?), (Hvb Hx) as (? & Hob & ?).
    unfold drops_of. rewrite E, Hx. destruct (is_zero a) eqn:Ea.
    + unfold canonicalize in Hc. unfold isXRP in E. rewrite E in Hc. unfold canonicalize_native in Hc. rewrite Hob in Hc. cbn in Hc.
      unfold is_zero, st_signum in Ea, Eb. destruct (Z.eqb_spec (mValue b) 0) as [|Hb0]; [done|].
      change (Z.to_nat 0) with O in Hc. cbn in Hc. destruct (cMaxNativeN <? mValue b); [done|].
      injection Hc as <-. unfold isXRP, signed. cbn. rewrite E. split; [split; [done|]; intros _; cbn; lia|]. split; [done|]. split; [done|].
      destruct (mValue a =? 0) eqn:Ez; [|by destruct (mIsNegative a)]. bool_prop. destruct (mIsNegative a), (mIsNegative b); lia.
    + rewrite Hna in Hc. unfold xrp in Hc. rewrite Hna, Hnb in Hc. cbn [mbind res_bind] in Hc.
      destruct (i64_fits _); [|done]. injection Hc as <-. unfold signed.
      set (d := _ + _). change (isXRP (xrp_amount d)) with true. cbn [xrp_amount mIsNegative mValue].
      split; [split; [done|]; intros _; cbn; lia|]. split; [done|]. split; [done|]. destruct (Z.ltb_spec d 0); subst d; lia.
  - destruct Ha as [Hna _], Hb as [Hnb _]. rewrite E in Hna. unfold drops_of. rewrite E, Hx.
    assert (mIssue c = mIssue a /\ mIsNative c = false) as [Hi Hn].
    { destruct (is_zero a) eqn:Ea; [|rewrite Hna in Hc]; apply (st_add_issue a b c Hna E); unfold st_add; rewrite Ea, Eb, ?Hna; unfold areComparable;
        by rewrite H, (proj2 (Z.eqb_eq _ _) H0). }
    assert (isXRP c = false) as Hc' by (by unfold isXRP; rewrite Hi). rewrite Hc'. split; [split; [congruence|congruence]|done].
Qed.

Lemma st_sub_ok a b c : amount_ok a -> amount_ok b -> st_sub a b = Val c ->
  amount_ok c /\ isXRP c = isXRP a /\ isXRP b = isXRP a /\ drops_of c = drops_of a - drops_of b.
Proof.
  intros Ha Hb Hc. destruct (st_neg_ok b Hb) as (Hb' & Hx & Hd). destruct (st_add_ok _ _ _ Ha Hb' Hc) as (? & ? & ? & ?).
  split; [done|]. split; [done|]. split; [congruence|lia].
Qed.

(** The comparison of two amounts of XRP is that of their drops. *)
Lemma st_ltb_ok a b r : amount_ok a -> amount_ok b -> st_ltb a b = Val r -> isXRP b = isXRP a /\ (isXRP a = true -> r = (drops_of a <? drops_of b)).
Proof.
  intros [_ Ha] [_ Hb] Hc. unfold st_ltb in Hc. destruct (areComparable a b) eqn:Ecmp; [|done]. cbn [negb] in Hc.
  unfold areComparable in Ecmp. bool_prop. assert (isXRP b = isXRP a) as Hx by (unfold isXRP, getCurrency in *; congruence).
  split; [done|]. intros E. destruct (Ha E) as (? & Hoa & Hza), (Hb ltac:(congruence)) as (? & Hob & Hzb). injection Hc as <-.
  rewrite Hoa, Hob. unfold drops_of, signed. rewrite Hx, E. change (0 <? 0) with false. cbn iota.
  destruct (mIsNegative a), (mIsNegative b), (Z.eqb_spec (mValue b) 0); cbn [negb Bool.eqb]; try specialize (Hza eq_refl); try specialize (Hzb eq_refl);
    repeat case_match; bool_prop; symmetry; first [done | apply Z.ltb_lt; lia | apply Z.ltb_ge; lia].
Qed.

(** ** Directories *)

(** The key is listed at exactly these places. *)
Definition places (l : PayLedger) (k : uint256) (ps : list (AccountID * Z)) : Prop :=
  forall a p, has (owner_dir l a) p k <-> (a, p) ∈ ps.

Definition dirs_live (l : PayLedger) : Prop := forall a, dir_live (owner_dir l a).

(** The directories list the other keys as before. *)
Definition relisted (k : uint256) (l l' : PayLedger) : Prop :=
  dirs_live l' /\ forall k' a p, k' <> k -> has (owner_dir l' a) p k' <-> has (owner_dir l a) p k'.

(** Only the directories differ. *)
Definition same_but_dirs (l l' : PayLedger) : Prop := l' = put_dirs l (pl_ownerDirs l').

Lemma owner_dir_put l a d b : owner_dir (put_dirs l (<[a := d]> (pl_ownerDirs l))) b = if decide (b = a) then d else owner_dir l b.
Proof.
  unfold owner_dir. cbn. destruct (decide (b = a)) as [->|]; [by rewrite lookup_insert_eq|]. by rewrite lookup_insert_ne by congruence.
Qed.

Lemma has_live d p k : dir_live d -> has d p k -> dir_ok d.
Proof. intros [?| ->] Hh; [done|]. by apply empty_root_no_keys in Hh. Qed.

Lemma relisted_trans k l l1 l2 : relisted k l l1 -> relisted k l1 l2 -> relisted k l l2.
Proof. intros [_ H1] [? H2]. split; [done|]. intros. by rewrite H2, H1. Qed.

(** A key not yet listed in the directory is added at one page. *)
Lemma dirInsert_places a k l page l' ps : dirs_live l -> places l k ps -> a ∉ ps.*1 -> dirInsert a k l = Val (Some page, l') ->
  same_but_dirs l l' /\ relisted k l l' /\ places l' k ((a, page) :: ps).
Proof.
  intros Hl Hp Ha H. assert (forall p, ~ has (owner_dir l a) p k) as Hn.
  { intros p Hh. apply Ha. apply Hp in Hh. by apply (list_elem_of_fmap_2 fst) in Hh. }
  destruct (dirAdd_live false (owner_dir l a) k (Hl a) Hn) as (r & d' & E & Hr). unfold dirInsert in H. rewrite E in H. cbn in H.
  injection H as -> <-. destruct Hr as [Hok Hadd]. split; [done|]. split; [split|].
  - intros b. rewrite owner_dir_put. destruct (decide (b = a)); [by left|apply Hl].
  - intros k' b p Hk. rewrite owner_dir_put. destruct (decide (b = a)) as [->|]; [|done]. rewrite (Hadd p k'). split; [|by left]. by intros [?|[_ ?]].
  - intros b p. rewrite owner_dir_put, elem_of_cons. destruct (decide (b = a)) as [->|Hb].
    + rewrite (Hadd p k), (Hp a p). split; [intros [?|[-> _]]; auto|]. intros [[= ->]|?]; auto.
    + rewrite (Hp b p). split; [auto|]. by intros [[= -> ->]|?].
Qed.

(** A key that is listed on the page is removed. *)
Lemma dirErase_places a page k l ps : dirs_live l -> places l k ((a, page) :: ps) -> a ∉ ps.*1 ->
  exists l', dirErase a page k l = Val (true, l') /\ same_but_dirs l l' /\ relisted k l l' /\ places l' k ps.
Proof.
  intros Hl Hp Ha. assert (has (owner_dir l a) page k) as Hh by (apply Hp; by left).
  destruct (dirRemove_keep _ _ _ (has_live _ _ _ (Hl a) Hh) Hh) as (d' & E & Hlive & Hrem). unfold dirErase. rewrite E. cbn.
  eexists. split; [done|]. split; [done|]. split; [split|].
  - intros b. rewrite owner_dir_put. by destruct (decide (b = a)).
  - intros k' b p Hk. rewrite owner_dir_put. destruct (decide (b = a)) as [->|]; [|done]. rewrite (Hrem p k'). tauto.
  - intros b p. rewrite owner_dir_put. destruct (decide (b = a)) as [->|Hb].
    + rewrite (Hrem p k). split; [by intros [_ ?]|]. intros Hin. exfalso. apply Ha. by apply (list_elem_of_fmap_2 fst) in Hin.
    + rewrite (Hp b p), elem_of_cons. split; [by intros [[= -> ->]|?]|auto].
Qed.

(** The places an escrow and a channel name. *)
Definition entry_places (owner : AccountID) (page : Z) (dst : AccountID) (dstPage : option Z) : list (AccountID * Z) :=
  (owner, page) :: match dstPage with Some q => [(dst, q)] | None => [] end.

Definition listing (l : PayLedger) (k : uint256) : option (list (AccountID * Z)) :=
  match pl_escrows l !! k, pl_channels l !! k with
  | Some e, _ => Some (entry_places (e_account e) (e_ownerNode e) (e_destination e) (e_destinationNode e))
  | None, Some c => Some (entry_places (ch_account c) (ch_ownerNode c) (ch_destination c) (ch_destinationNode c))
  | None, None => None
  end.

(** The directories list the keys of [L] exactly where it says, each account once, and
    list nothing that is not in the state map. *)
Definition dirs_ok (L : uint256 -> option (list (AccountID * Z))) (l : PayLedger) : Prop :=
  dirs_live l /\
  (forall k ps, L k = Some ps -> places l k ps /\ NoDup ps.*1 /\ occupied l k = true) /\
  (forall a p k, has (owner_dir l a) p k -> occupied l k = true).

(** The directories after the listing of one key changed. *)
Lemma dirs_ok_change k ps L L' l l' : dirs_ok L l -> relisted k l l' -> places l' k ps -> ps = [] \/ occupied l' k = true ->
  (forall k', k' <> k -> L' k' = L k' /\ (occupied l k' = true -> occupied l' k' = true)) ->
  (forall ps', L' k = Some ps' -> ps' = ps /\ NoDup ps.*1 /\ occupied l' k = true) -> dirs_ok L' l'.
Proof.
  intros (_ & H2 & H3) [Hl Hr] Hp Ho Hother Hk. split; [done|]. split.
  - intros k' ps' Hk'. destruct (decide (k' = k)) as [->|Hne].
    + by destruct (Hk ps' Hk') as (-> & ?).
    + destruct (Hother k' Hne) as [E Ho']. rewrite E in Hk'. destruct (H2 k' ps' Hk') as (Hps & ? & ?). split; [|by split; [|apply Ho']].
      intros a p. by rewrite (Hr k' a p Hne).
  - intros a p k' Hh. destruct (decide (k' = k)) as [->|Hne].
    + apply Hp in Hh. destruct Ho as [->|?]; [by apply elem_of_nil in Hh|done].
    + apply (Hother k' Hne), (H3 a p). by apply Hr.
Qed.

(** A key that is free is listed nowhere. *)
Lemma free_places k L l : dirs_ok L l -> occupied l k = false -> places l k [].
Proof. intros (_ & _ & H3) Hk a p. split; [|by intros ?%elem_of_nil]. intros Hh%H3. congruence. Qed.

(** ** Trust lines and XRP *)

(** The account has [d] more drops and the others what they had, escrows and channels are
    as they were, and no entry is gone. *)
Record moved (a : AccountID) (d : Z) (l l' : PayLedger) : Prop := {
  q_balances : sfBalance <$> pl_accounts l' = alter (Z.add d) a (sfBalance <$> pl_accounts l);
  q_account : d <> 0 -> is_Some (pl_accounts l !! a);
  q_owners : (forall b r, pl_accounts l !! b = Some r -> 0 <= sfOwnerCount r) -> forall b r, pl_accounts l' !! b = Some r -> 0 <= sfOwnerCount r;
  q_escrows : pl_escrows l' = pl_escrows l;
  q_channels : pl_channels l' = pl_channels l;
  q_others : pl_others l' = pl_others l;
  q_rules : rules l' = rules l;
  q_fees : pl_fees l' = pl_fees l;
  q_time : parentCloseTime l' = parentCloseTime l;
  q_lines : forall k, is_Some (pl_lines l !! k) -> is_Some (pl_lines l' !! k)
}.

(** No account has more or less. *)
Definition quiet (l l' : PayLedger) : Prop := forall a, moved a 0 l l'.

Lemma alter_zero (m : gmap Z Z) a : alter (Z.add 0) a m = m.
Proof. apply alter_id. done. Qed.

Lemma quiet_same l l' : pl_accounts l' = pl_accounts l -> pl_escrows l' = pl_escrows l -> pl_channels l' = pl_channels l -> pl_others l' = pl_others l ->
  rules l' = rules l -> pl_fees l' = pl_fees l -> parentCloseTime l' = parentCloseTime l ->
  (forall k, is_Some (pl_lines l !! k) -> is_Some (pl_lines l' !! k)) -> quiet l l'.
Proof. intros Ha. intros. intros a. split; try done; rewrite Ha; [by rewrite alter_zero|done]. Qed.

Lemma quiet_refl l : quiet l l.
Proof. by apply quiet_same. Qed.

Lemma moved_quiet a d l l1 l2 : moved a d l l1 -> quiet l1 l2 -> moved a d l l2.
Proof.
  intros [] Hq. destruct (Hq a) as [Hb _ Ho ? ? ? ? ? ? Hl]. rewrite alter_zero in Hb. split; try congruence; [done|by intros; eapply Ho; [apply q_owners0|]|auto].
Qed.

Lemma quiet_moved a d l l1 l2 : quiet l l1 -> moved a d l1 l2 -> moved a d l l2.
Proof.
  intros Hq []. destruct (Hq a) as [Hb _ Ho ? ? ? ? ? ? Hl]. rewrite alter_zero in Hb.
  split; try congruence; [|by intros; eapply q_owners0; [apply Ho|]|auto].
  intros Hd%q_account0. rewrite <- (fmap_is_Some sfBalance), <- lookup_fmap, <- Hb, lookup_fmap. by apply fmap_is_Some.
Qed.

Lemma quiet_trans l l1 l2 : quiet l l1 -> quiet l1 l2 -> quiet l l2.
Proof. intros H1 H2 a. by eapply moved_quiet. Qed.

Lemma quiet_put_line l k line : quiet l (put_lines l (<[k := line]> (pl_lines l))).
Proof. apply quiet_same; try done. intros k' Hk. cbn. destruct (decide (k' = k)) as [->|]; [by rewrite lookup_insert_eq|by rewrite lookup_insert_ne]. Qed.

Lemma quiet_dirs l l' : same_but_dirs l l' -> quiet l l'.
Proof. intros ->. by apply quiet_same. Qed.

Lemma quiet_router l m : quiet l (put_router l m).
Proof. by apply quiet_same. Qed.

Lemma confineOwnerCount_nonneg c n : 0 <= confineOwnerCount c n.
Proof. unfold confineOwnerCount. pose proof (u32_range (c + n)). repeat case_match; lia. Qed.

Lemma adjust_owner_quiet a n l l' : adjust_owner a n l = Val l' -> quiet l l' /\ pl_ownerDirs l' = pl_ownerDirs l.
Proof.
  unfold adjust_owner. destruct (pl_accounts l !! a) as [r|] eqn:E; [|done]. intros [= <-]. split; [|done]. intros b. split; try done.
  - rewrite alter_zero. cbn. rewrite fmap_insert. apply insert_id. by rewrite lookup_fmap, E.
  - intros Ho c rc. cbn. destruct (decide (c = a)) as [->|]; [rewrite lookup_insert_eq; intros [= <-]; apply confineOwnerCount_nonneg|].
    rewrite lookup_insert_ne by congruence. apply Ho.
Qed.

Lemma credit_moved a d l l' : credit a d l = Val l' -> moved a d l l' /\ pl_ownerDirs l' = pl_ownerDirs l.
Proof.
  unfold credit. destruct (pl_accounts l !! a) as [r|] eqn:E; [|done]. destruct (i64_fits _); [|done]. intros [= <-]. split; [|done]. split; try done.
  - apply map_eq. intros b. cbn. rewrite fmap_insert. destruct (decide (b = a)) as [->|].
    + rewrite lookup_insert_eq, lookup_alter_eq, lookup_fmap, E. cbn. f_equal. lia.
    + by rewrite lookup_insert_ne, lookup_alter_ne by congruence.
  - intros Ho c rc. cbn. destruct (decide (c = a)) as [->|]; [rewrite lookup_insert_eq; intros [= <-]; by apply (Ho a r)|].
    rewrite lookup_insert_ne by congruence. apply Ho.
Qed.

Lemma moved_occupied a d l l' k : moved a d l l' -> occupied l k = true -> occupied l' k = true.
Proof.
  intros [? ? ? He Hc Ho _ _ _ Hl]. unfold occupied. rewrite He, Hc, Ho, !orb_true_iff, !bool_decide_eq_true. pose proof (Hl k). tauto.
Qed.

Lemma dirs_ok_moved a d L l l' : moved a d l l' -> pl_ownerDirs l' = pl_ownerDirs l -> dirs_ok L l -> dirs_ok L l'.
Proof.
  intros Hq Hd (H1 & H2 & H3). assert (forall b, owner_dir l' b = owner_dir l b) as E by (intros b; unfold owner_dir; by rewrite Hd).
  split; [intros b; by rewrite E|]. split.
  - intros k ps (Hp & ? & ?)%H2. split; [|split; [done|by eapply moved_occupied]]. intros b p. by rewrite E.
  - intros b p k. rewrite E. intros Hh%H3. by eapply moved_occupied.
Qed.

Lemma dirs_ok_quiet L l l' : quiet l l' -> pl_ownerDirs l' = pl_ownerDirs l -> dirs_ok L l -> dirs_ok L l'.
Proof. intros Hq. apply (dirs_ok_moved 0 0), Hq. Qed.

Section effects.
Context `{PayKeylets}.

Lemma trustAdjust_quiet dry k a n l ter l' : trustAdjustLockedBalance dry k a n l = Val (ter, l') -> quiet l l' /\ pl_ownerDirs l' = pl_ownerDirs l.
Proof.
  intros E. assert (l' = l \/ exists line, l' = put_lines l (<[k := line]> (pl_lines l))) as [->|[line ->]]; [|split; [apply quiet_refl|done]|split; [apply quiet_put_line|done]].
  unfold trustAdjustLockedBalance in E. destruct (negb _); [injection E as <- <-; by left|].
  destruct (pl_lines l !! k) as [line|]; [|injection E as <- <-; by left].
  destruct (trustTransferAllowed _ _ _); try (injection E as <- <-; by left).
  repeat (case_match; [injection E as <- <-; by left|]).
  apply bind_Val in E as (final & _ & E). apply bind_Val in E as (above & _ & E). repeat (case_match; [injection E as <- <-; by left|]).
  apply bind_Val in E as (precise & _ & E). repeat (case_match; [injection E as <- <-; by left|]).
  injection E as <- <-. right. by eexists.
Qed.

Lemma dirInsert_quiet a k l page l' : dirInsert a k l = Val (page, l') -> quiet l l'.
Proof. unfold dirInsert. intros E. apply bind_Val in E as ([pg d] & _ & E). injection E as <- <-. by apply quiet_dirs. Qed.

(** Creating a line between two accounts. *)
Lemma trustCreate_quiet hi src dst k acc auth noRipple freeze bal lim qi qo l l' :
  trustCreate hi src dst k acc auth noRipple freeze bal lim qi qo l = Val (tesSUCCESS, l') ->
  quiet l l' /\ (src <> dst -> forall L, dirs_ok L l -> dirs_ok L l').
Proof.
  unfold trustCreate. intros E. destruct (occupied l k) eqn:Hocc; [done|].
  set (low := if hi then dst else src) in *. set (high := if hi then src else dst) in *.
  apply bind_Val in E as ([lowNode l1] & E1 & E). destruct lowNode as [lowNode|]; [|done].
  apply bind_Val in E as ([highNode l2] & E2 & E). destruct highNode as [highNode|]; [|done].
  destruct (pl_accounts l2 !! _); [|done]. apply bind_Val in E as (l3 & E3 & E). injection E as <-.
  match type of E3 with context [<[_ := ?x]> _] => set (line := x) in E3; clearbody line end.
  destruct (adjust_owner_quiet _ _ _ _ E3) as [Hq3 Hd3].
  assert (quiet l l3) as Hq.
  { eapply quiet_trans; [apply quiet_put_line|]. eapply quiet_trans; [by eapply dirInsert_quiet|].
    eapply quiet_trans; [by eapply dirInsert_quiet|]. eapply quiet_trans; [|exact Hq3]. apply quiet_put_line. }
  split; [done|]. intros Hne L Hok. assert (low <> high) as Hlh by (subst low high; by destruct hi).
  pose proof (free_places k L l Hok Hocc) as Hp. destruct (dirInsert_places low k (put_lines l (<[k := blank_line]> (pl_lines l))) lowNode l1 [] (proj1 Hok) Hp (not_elem_of_nil _) E1) as (_ & Hr1 & Hp1).
  destruct (dirInsert_places high k l1 highNode l2 _ (proj1 Hr1) Hp1 ltac:(cbn; set_solver) E2) as (_ & Hr2 & Hp2).
  assert (forall b, owner_dir l3 b = owner_dir l2 b) as Hd by (intros b; unfold owner_dir; by rewrite Hd3).
  apply (dirs_ok_change k [(high, highNode); (low, lowNode)] L L l l3); try done.
  - apply (relisted_trans k l l1); [exact Hr1|]. destruct Hr2 as [Hl2 Hr2]. split; [intros b; by rewrite Hd|]. intros. rewrite Hd. by apply Hr2.
  - intros b p. rewrite Hd. apply Hp2.
  - right. unfold occupied. rewrite (bool_decide_eq_true_2 (is_Some (pl_lines l3 !! k))); [done|].
    apply (q_lines 0 0 _ _ (Hq3 0)). cbn. by rewrite lookup_insert_eq.
  - intros k' _. split; [done|]. by apply (moved_occupied 0 0).
  - intros ps' (_ & _ & Hk)%(proj1 (proj2 Hok)). congruence.
Qed.

(** Moving a locked balance. *)
Lemma trustTransfer_quiet dry acting src dst a n l l' : trustTransferLockedBalance dry acting src dst a n l = Val (tesSUCCESS, l') ->
  quiet l l' /\ (getIssuer a <> dst -> forall L, dirs_ok L l -> dirs_ok L l').
Proof.
  unfold trustTransferLockedBalance. intros E. destruct (negb _); [done|]. destruct (pl_accounts l !! src); [|done]. destruct (pl_accounts l !! dst); [|done].
  destruct (st_signum a <=? 0); [done|]. destruct (trustTransferAllowed _ _ _); try done.
  destruct (pl_lines l !! keylet_line src _ _) as [srcLine|]; [|done].
  apply bind_Val in E as (taken & _ & E). destruct taken as [line|ter]; [|by injection E as -> <-; split; [apply quiet_refl|]].
  set (l1 := if dry then l else _) in E. assert (quiet l l1 /\ pl_ownerDirs l1 = pl_ownerDirs l) as [Hq1 Hd1].
  { subst l1. destruct dry; [split; [apply quiet_refl|done]|split; [apply quiet_put_line|done]]. }
  clearbody l1. apply bind_Val in E as (dstAmt & _ & E). apply bind_Val in E as ([ter l2] & E2 & E). destruct ter; try done.
  assert (quiet l1 l2 /\ (getIssuer a <> dst -> forall L, dirs_ok L l1 -> dirs_ok L l2)) as [Hq2 Hd2].
  { destruct (pl_lines l1 !! keylet_line dst _ _) as [dstLine|].
    - apply bind_Val in E2 as (given & _ & E2). destruct given as [line2|ter]; [|injection E2 as -> <-; split; [apply quiet_refl|done]].
      injection E2 as <-. destruct dry; [split; [apply quiet_refl|done]|]. split; [apply quiet_put_line|]. intros _ L. apply dirs_ok_quiet; [apply quiet_put_line|done].
    - destruct (_ && _); [done|]. destruct (_ <? _); [done|]. destruct dry; [injection E2 as <-; split; [apply quiet_refl|done]|].
      by apply trustCreate_quiet in E2. }
  apply bind_Val in E as (l3 & E3 & E). injection E as <-. assert (quiet l2 l3 /\ pl_ownerDirs l3 = pl_ownerDirs l2) as [Hq3 Hd3].
  { destruct dry; [injection E3 as <-; split; [apply quiet_refl|done]|]. unfold release_reserve in E3.
    destruct (pl_lines l2 !! _); [|done]. case_match; [|injection E3 as <-; split; [apply quiet_refl|done]].
    apply adjust_owner_quiet in E3 as [Hq Hd]. split; [|done]. eapply quiet_trans; [apply quiet_put_line|exact Hq]. }
  split; [by eapply quiet_trans; [|eapply quiet_trans]|]. intros Hne L Hok. apply (dirs_ok_quiet L l2 l3 Hq3 Hd3), Hd2; [done|]. by apply (dirs_ok_quiet L l l1).
Qed.
End effects.

(** ** The invariant *)

Definition ch_left (c : PayChanSLE) : Z := drops_of (ch_amount c) - drops_of (ch_balance c).

Definition total_xrp (l : PayLedger) : Z :=
  map_sum sfBalance (pl_accounts l) + map_sum (fun e => drops_of (e_amount e)) (pl_escrows l) + map_sum ch_left (pl_channels l).

(** An escrow holds a positive amount of an account that exists; an issued one does not
    go to its issuer. *)
Definition escrow_ok (l : PayLedger) (e : EscrowSLE) : Prop :=
  amount_ok (e_amount e) /\ 0 < st_signum (e_amount e) /\ is_Some (pl_accounts l !! e_account e) /\
  (isXRP (e_amount e) = false -> getIssuer (e_amount e) <> e_destination e).

(** A channel has paid no more than it holds, in one kind of money. *)
Definition channel_ok (l : PayLedger) (c : PayChanSLE) : Prop :=
  amount_ok (ch_amount c) /\ amount_ok (ch_balance c) /\ isXRP (ch_balance c) = isXRP (ch_amount c) /\
  0 <= drops_of (ch_balance c) <= drops_of (ch_amount c) /\ is_Some (pl_accounts l !! ch_account c) /\
  (ch_destinationNode c <> None -> fixPayChanRecipientOwnerDir (rules l) = true).

Record ledger_ok (l : PayLedger) : Prop := {
  ok_dirs : dirs_ok (listing l) l;
  ok_keys : forall k, pl_escrows l !! k = None \/ pl_channels l !! k = None;
  ok_escrows : forall k e, pl_escrows l !! k = Some e -> escrow_ok l e;
  ok_channels : forall k c, pl_channels l !! k = Some c -> channel_ok l c;
  ok_balances : forall a r, pl_accounts l !! a = Some r -> 0 <= sfBalance r /\ 0 <= sfOwnerCount r;
  ok_supply : total_xrp l <= cMaxNativeN;
  ok_fees : 0 <= fee_reserve (pl_fees l) /\ 0 <= fee_increment (pl_fees l)
}.

(** What a transaction does to the ledger: the invariant and the supply are kept, and the
    escrows are those given. *)
Record flow (E : gmap uint256 EscrowSLE) (l l' : PayLedger) : Prop := {
  fl_ok : ledger_ok l';
  fl_total : total_xrp l' = total_xrp l;
  fl_escrows : pl_escrows l' = E;
  fl_rules : rules l' = rules l;
  fl_time : parentCloseTime l' = parentCloseTime l
}.

Lemma flow_trans E l l1 l2 : flow (pl_escrows l) l l1 -> flow (pl_escrows l1) l1 l2 -> E = pl_escrows l -> flow E l l2.
Proof. intros [] [] ->. split; congruence. Qed.

Lemma map_sum_set {A} (f : A -> Z) (m : gmap Z A) k o :
  map_sum f (partial_alter (fun _ => o) k m) = map_sum f m - default 0 (f <$> m !! k) + default 0 (f <$> o).
Proof.
  destruct (m !! k) as [x|] eqn:E, o as [y|]; cbn.
  - rewrite <- (map_sum_update f m k x y E). done.
  - rewrite (map_sum_delete f m k x E). change (partial_alter _ k m) with (delete k m). lia.
  - change (partial_alter _ k m) with (<[k := y]> m). rewrite map_sum_insert by done. lia.
  - rewrite partial_alter_id; [lia|done].
Qed.

Lemma moved_sum a d l l' : moved a d l l' -> map_sum sfBalance (pl_accounts l') = map_sum sfBalance (pl_accounts l) + d.
Proof.
  intros [Hb Ha _ _ _ _ _ _ _ _]. assert (forall m, map_sum sfBalance m = map_sum id (sfBalance <$> m)) as Hm by (intros m; by rewrite map_sum_fmap).
  rewrite !Hm, Hb.
  destruct (decide (d = 0)) as [->|Hd]; [rewrite alter_zero; lia|]. destruct (Ha Hd) as [r Hr].
  assert ((sfBalance <$> pl_accounts l) !! a = Some (sfBalance r)) as E by by rewrite lookup_fmap, Hr.
  assert (alter (Z.add d) a (sfBalance <$> pl_accounts l) = <[a := d + sfBalance r]> (sfBalance <$> pl_accounts l)) as ->.
  { apply map_eq. intros b. destruct (decide (b = a)) as [->|]; [by rewrite lookup_alter_eq, lookup_insert_eq, E|].
    by rewrite lookup_alter_ne, lookup_insert_ne by congruence. }
  rewrite (map_sum_update id _ _ _ _ E). unfold id. lia.
Qed.

Lemma moved_exists a d l l' b : moved a d l l' -> is_Some (pl_accounts l !! b) -> is_Some (pl_accounts l' !! b).
Proof.
  intros [Hb _ _ _ _ _ _ _ _ _] [r Hr]. destruct (pl_accounts l' !! b) as [r'|] eqn:E; [done|].
  assert ((sfBalance <$> pl_accounts l') !! b = None) as Hn by by rewrite lookup_fmap, E. rewrite Hb in Hn.
  destruct (decide (b = a)) as [->|]; [rewrite lookup_alter_eq in Hn|rewrite lookup_alter_ne in Hn by congruence]; by rewrite lookup_fmap, Hr in Hn.
Qed.

Lemma moved_balances a d l l' : moved a d l l' -> (forall b r, pl_accounts l !! b = Some r -> 0 <= sfBalance r /\ 0 <= sfOwnerCount r) ->
  (forall r, pl_accounts l !! a = Some r -> 0 <= sfBalance r + d) -> forall b r, pl_accounts l' !! b = Some r -> 0 <= sfBalance r /\ 0 <= sfOwnerCount r.
Proof.
  intros [Hb _ Ho _ _ _ _ _ _ _] Hl Ha b r Hr. split; [|by apply (Ho (fun c rc Hc => proj2 (Hl c rc Hc)) b)].
  assert ((sfBalance <$> pl_accounts l') !! b = Some (sfBalance r)) as E by by rewrite lookup_fmap, Hr. rewrite Hb in E.
  destruct (decide (b = a)) as [->|].
  - rewrite lookup_alter_eq, lookup_fmap in E. destruct (pl_accounts l !! a) as [r0|]; [|done]. injection E as <-. rewrite Z.add_comm. by apply Ha.
  - rewrite lookup_alter_ne, lookup_fmap in E by congruence. destruct (pl_accounts l !! b) as [r0|] eqn:E0; [|done]. injection E as <-. by apply (Hl b).
Qed.

(** ** Changing one entry *)

Lemma listing_occupied l k ps : listing l k = Some ps -> occupied l k = true.
Proof.
  unfold listing, occupied. destruct (pl_escrows l !! k); [intros _; by rewrite orb_true_r|]. destruct (pl_channels l !! k); [|done].
  intros _. by rewrite (bool_decide_eq_true_2 (is_Some (Some p))), orb_true_r by done.
Qed.

(** The entries changed under one key after its places were removed or added. *)
Lemma dirs_ok_entries k L l l' : dirs_ok L l -> pl_ownerDirs l' = pl_ownerDirs l ->
  (forall k', k' <> k -> occupied l k' = true -> occupied l' k' = true) -> L k = Some [] \/ occupied l' k = true ->
  (forall k' ps, listing l' k' = Some ps -> L k' = Some ps) -> dirs_ok (listing l') l'.
Proof.
  intros (H1 & H2 & H3) Hd Ho Hk HL. assert (forall b, owner_dir l' b = owner_dir l b) as E by (intros b; unfold owner_dir; by rewrite Hd).
  split; [intros b; by rewrite E|]. split.
  - intros k' ps Hps. destruct (H2 k' ps (HL k' ps Hps)) as (Hp & ? & _). split; [intros a p; by rewrite E|]. split; [done|by eapply listing_occupied].
  - intros a p k' Hh. rewrite E in Hh. destruct (decide (k' = k)) as [->|Hne]; [|by apply Ho, (H3 a p)].
    destruct Hk as [Hk|?]; [|done]. destruct (H2 k [] Hk) as [Hp _]. by apply Hp, elem_of_nil in Hh.
Qed.

Lemma set_escrow_other l k o k' : k' <> k ->
  let l' := put_escrows l (partial_alter (fun _ => o) k (pl_escrows l)) in listing l' k' = listing l k' /\ occupied l' k' = occupied l k'.
Proof. intros Hk. unfold listing, occupied. cbn. by rewrite lookup_partial_alter_ne. Qed.

Lemma set_channel_other l k o k' : k' <> k ->
  let l' := put_channels l (partial_alter (fun _ => o) k (pl_channels l)) in listing l' k' = listing l k' /\ occupied l' k' = occupied l k'.
Proof. intros Hk. unfold listing, occupied. cbn. by rewrite lookup_partial_alter_ne. Qed.

Lemma moved_escrow_ok a d l l' e : moved a d l l' -> escrow_ok l e -> escrow_ok l' e.
Proof. intros Hm (? & ? & ? & ?). split; [done|]. split; [done|]. split; [by eapply moved_exists|done]. Qed.

Lemma moved_channel_ok a d l l' c : moved a d l l' -> channel_ok l c -> channel_ok l' c.
Proof.
  intros Hm (? & ? & ? & ? & ? & ?). repeat (split; [done|]). split; [by eapply moved_exists|]. by rewrite (q_rules _ _ _ _ Hm).
Qed.

(** An escrow appears or goes, and the account that pays or receives has its drops less or more. *)
Lemma escrow_flow l l' k o a d : ledger_ok l -> moved a d (put_escrows l (partial_alter (fun _ => o) k (pl_escrows l))) l' ->
  d = default 0 ((fun e => drops_of (e_amount e)) <$> pl_escrows l !! k) - default 0 ((fun e => drops_of (e_amount e)) <$> o) ->
  dirs_ok (listing l') l' -> (forall e, o = Some e -> escrow_ok l e /\ pl_channels l !! k = None) ->
  (forall r, pl_accounts l !! a = Some r -> 0 <= sfBalance r + d) -> flow (partial_alter (fun _ => o) k (pl_escrows l)) l l'.
Proof.
  intros [] Hm Hd Hdirs Ho Ha. assert (total_xrp l' = total_xrp l) as Ht.
  { unfold total_xrp. rewrite (moved_sum _ _ _ _ Hm), (q_escrows _ _ _ _ Hm), (q_channels _ _ _ _ Hm). cbn. rewrite map_sum_set. lia. }
  split; [|done|apply (q_escrows _ _ _ _ Hm)|apply (q_rules _ _ _ _ Hm)|apply (q_time _ _ _ _ Hm)]. split; try done.
  - intros k'. rewrite (q_escrows _ _ _ _ Hm), (q_channels _ _ _ _ Hm). cbn. destruct (decide (k' = k)) as [->|].
    + rewrite lookup_partial_alter_eq. destruct o as [e|]; [right; by apply (Ho e)|by left].
    + rewrite lookup_partial_alter_ne by congruence. apply ok_keys0.
  - intros k' e. rewrite (q_escrows _ _ _ _ Hm). cbn. intros He. apply (moved_escrow_ok _ _ _ _ _ Hm). change (escrow_ok l e).
    destruct (decide (k' = k)) as [->|]; [rewrite lookup_partial_alter_eq in He; by apply Ho|].
    rewrite lookup_partial_alter_ne in He by congruence. by eapply ok_escrows0.
  - intros k' c. rewrite (q_channels _ _ _ _ Hm). cbn. intros Hc. apply (moved_channel_ok _ _ _ _ _ Hm). change (channel_ok l c). by eapply ok_channels0.
  - by eapply (moved_balances _ _ _ _ Hm).
  - by rewrite Ht.
  - by rewrite (q_fees _ _ _ _ Hm).
Qed.

(** The same for a channel. *)
Lemma channel_flow l l' k o a d : ledger_ok l -> moved a d (put_channels l (partial_alter (fun _ => o) k (pl_channels l))) l' ->
  d = default 0 (ch_left <$> pl_channels l !! k) - default 0 (ch_left <$> o) ->
  dirs_ok (listing l') l' -> (forall c, o = Some c -> channel_ok l c /\ pl_escrows l !! k = None) ->
  (forall r, pl_accounts l !! a = Some r -> 0 <= sfBalance r + d) -> flow (pl_escrows l) l l'.
Proof.
  intros [] Hm Hd Hdirs Ho Ha. assert (total_xrp l' = total_xrp l) as Ht.
  { unfold total_xrp. rewrite (moved_sum _ _ _ _ Hm), (q_escrows _ _ _ _ Hm), (q_channels _ _ _ _ Hm). cbn. rewrite map_sum_set. lia. }
  split; [|done|apply (q_escrows _ _ _ _ Hm)|apply (q_rules _ _ _ _ Hm)|apply (q_time _ _ _ _ Hm)]. split; try done.
  - intros k'. rewrite (q_escrows _ _ _ _ Hm), (q_channels _ _ _ _ Hm). cbn. destruct (decide (k' = k)) as [->|].
    + rewrite lookup_partial_alter_eq. destruct o as [c|]; [left; by apply (Ho c)|by right].
    + rewrite lookup_partial_alter_ne by congruence. apply ok_keys0.
  - intros k' e. rewrite (q_escrows _ _ _ _ Hm). cbn. intros He. apply (moved_escrow_ok _ _ _ _ _ Hm). change (escrow_ok l e). by eapply ok_escrows0.
  - intros k' c. rewrite (q_channels _ _ _ _ Hm). cbn. intros Hc. apply (moved_channel_ok _ _ _ _ _ Hm). change (channel_ok l c).
    destruct (decide (k' = k)) as [->|]; [rewrite lookup_partial_alter_eq in Hc; by apply Ho|].
    rewrite lookup_partial_alter_ne in Hc by congruence. by eapply ok_channels0.
  - by eapply (moved_balances _ _ _ _ Hm).
  - by rewrite Ht.
  - by rewrite (q_fees _ _ _ _ Hm).
Qed.

(** *** Directories in handlers *)

Definition unlist (k : uint256) (L : uint256 -> option (list (AccountID * Z))) : uint256 -> option (list (AccountID * Z)) :=
  fun k' => if decide (k' = k) then Some [] else L k'.

Lemma same_but_dirs_trans l l1 l2 : same_but_dirs l l1 -> same_but_dirs l1 l2 -> same_but_dirs l l2.
Proof. unfold same_but_dirs. intros -> ->. done. Qed.

Lemma same_but_dirs_occupied l l' k : same_but_dirs l l' -> occupied l' k = occupied l k.
Proof. by intros ->. Qed.

Lemma remove_listed_places a page k l ps : dirs_live l -> places l k ((a, page) :: ps) -> a ∉ ps.*1 ->
  exists l', remove_listed a page k l = Val (inl tt, l') /\ same_but_dirs l l' /\ relisted k l l' /\ places l' k ps.
Proof.
  intros Hl Hp Ha. destruct (dirErase_places a page k l ps Hl Hp Ha) as (l' & E & Hs). exists l'. split; [|done].
  unfold remove_listed, mbind, pay_bind, step. by rewrite E.
Qed.

(** An entry is taken out of the directories it is listed in. *)
Lemma remove_places o p d q k L l : dirs_ok L l -> L k = Some (entry_places o p d q) -> exists l1 l2,
  remove_listed o p k l = Val (inl tt, l1) /\ remove_listed_opt d q k l1 = Val (inl tt, l2) /\ same_but_dirs l l2 /\ dirs_ok (unlist k L) l2.
Proof.
  intros Hok HL. pose proof Hok as (H1 & H2 & H3). destruct (H2 _ _ HL) as (Hp & Hnd & Hocc).
  destruct (remove_listed_places o p k l _ H1 Hp) as (l1 & E1 & Hs1 & Hr1 & Hp1).
  { destruct q as [q|]; cbn in *; [|apply not_elem_of_nil]. by apply NoDup_cons in Hnd as [? _]. }
  assert (exists l2, remove_listed_opt d q k l1 = Val (inl tt, l2) /\ same_but_dirs l l2 /\ relisted k l l2 /\ places l2 k []) as (l2 & E2 & Hs2 & Hr2 & Hp2).
  { destruct q as [q|]; cbn; [|by exists l1]. destruct (remove_listed_places d q k l1 [] (proj1 Hr1) Hp1 (not_elem_of_nil _)) as (l2 & E2 & Hs2 & Hr2 & Hp2).
    exists l2. split; [done|]. split; [by eapply same_but_dirs_trans|]. by split; [eapply relisted_trans|]. }
  exists l1, l2. split; [done|]. split; [done|]. split; [done|].
  apply (dirs_ok_change k [] L (unlist k L) l l2); try done.
  - by left.
  - intros k' Hne. unfold unlist. rewrite decide_False by done. split; [done|]. by rewrite (same_but_dirs_occupied l l2).
  - unfold unlist. rewrite decide_True by done. intros ps' [= <-]. split; [done|]. split; [apply NoDup_nil_2|]. by rewrite (same_but_dirs_occupied l l2).
Qed.

Lemma insert_listed_places a k l page l' ps : dirs_live l -> places l k ps -> a ∉ ps.*1 -> insert_listed a k l = Val (inl page, l') ->
  same_but_dirs l l' /\ relisted k l l' /\ places l' k ((a, page) :: ps).
Proof.
  intros Hl Hp Ha H. unfold insert_listed in H. pay_inv. subst. by eapply dirInsert_places.
Qed.

(** A new entry is listed with its owner and, on another page, with its destination. *)
Lemma dirs_ok_new k o p d q l l' : dirs_ok (listing l) l -> relisted k l l' -> places l' k (entry_places o p d q) -> (q <> None -> o <> d) ->
  listing l' k = Some (entry_places o p d q) -> (forall k', k' <> k -> listing l' k' = listing l k' /\ occupied l' k' = occupied l k') ->
  dirs_ok (listing l') l'.
Proof.
  intros Hok Hr Hp Hq HL Hother. pose proof (listing_occupied _ _ _ HL) as Hocc. apply (dirs_ok_change k _ (listing l) (listing l') l l' Hok Hr Hp); [by right| |].
  - intros k' Hne. destruct (Hother k' Hne) as [-> ->]. done.
  - intros ps'. rewrite HL. intros [= <-]. split; [done|]. split; [|done]. destruct q as [q|]; cbn; [|apply NoDup_singleton].
    apply NoDup_cons. split; [|apply NoDup_singleton]. rewrite list_elem_of_singleton. by apply Hq.
Qed.

Lemma places_swap l k x y : places l k [x; y] -> places l k [y; x].
Proof. intros Hp a p. rewrite (Hp a p). set_solver. Qed.

(** Whatever the directories list, they go on listing. *)
Definition keeps_dirs (l l' : PayLedger) : Prop := forall L, dirs_ok L l -> dirs_ok L l'.

Lemma moved_dirs a d l l' : moved a d l l' -> keeps_dirs l l' -> dirs_ok (listing l) l -> dirs_ok (listing l') l'.
Proof.
  intros Hm Hd (H1 & H2 & H3)%Hd. split; [done|]. split; [|done].
  intros k ps Hk. apply H2. rewrite <- Hk. unfold listing. by rewrite (q_escrows _ _ _ _ Hm), (q_channels _ _ _ _ Hm).
Qed.

Lemma free_entries l k : occupied l k = false -> pl_escrows l !! k = None /\ pl_channels l !! k = None.
Proof.
  unfold occupied. rewrite !orb_false_iff, !bool_decide_eq_false, !eq_None_not_Some. tauto.
Qed.

Lemma trustAdjust_keeps `{PayKeylets} dry k a n l ter l' : trustAdjustLockedBalance dry k a n l = Val (ter, l') -> quiet l l' /\ keeps_dirs l l'.
Proof. intros [Hq Hd]%trustAdjust_quiet. split; [done|]. intros L. by apply dirs_ok_quiet. Qed.

(** The drops of an amount of XRP are added to the account or taken from it; an issued
    amount is handled on its trust line. *)
Lemma pay_only (a : AccountID) (amount : STAmount) (g : Z -> Z) (m : pay unit) l u l1 : g 0 = 0 ->
  (if isXRP amount then drops ← calc (xrp amount); change (credit a (g drops)) else m) l = Val (inl u, l1) ->
  (isXRP amount = false -> m l = Val (inl u, l1) -> quiet l l1 /\ keeps_dirs l l1) -> moved a (g (drops_of amount)) l l1 /\ keeps_dirs l l1.
Proof.
  intros Hg Hp Hm. destruct (isXRP amount) eqn:E.
  - pay_inv. apply credit_moved in Hn as [Hc Hd']. rewrite (xrp_drops _ _ E Hs). split; [done|]. intros L HL. by eapply dirs_ok_moved.
  - destruct (Hm eq_refl Hp) as [Hq' Hd']. unfold drops_of. rewrite E, Hg. split; [apply Hq'|done].
Qed.

Lemma pay_drops (a : AccountID) (amount : STAmount) (g : Z -> Z) (m : pay unit) n l u l1 l2 : g 0 = 0 ->
  (if isXRP amount then drops ← calc (xrp amount); change (credit a (g drops)) else m) l = Val (inl u, l1) ->
  (isXRP amount = false -> m l = Val (inl u, l1) -> quiet l l1 /\ keeps_dirs l l1) ->
  adjust_owner n 1 l1 = Val l2 \/ adjust_owner n (-1) l1 = Val l2 ->
  moved a (g (drops_of amount)) l l2 /\ keeps_dirs l l2.
Proof.
  intros Hg Hp Hm Hn. destruct (pay_only a amount g m l u l1 Hg Hp Hm) as [Hmv Hk].
  assert (quiet l1 l2 /\ pl_ownerDirs l2 = pl_ownerDirs l1) as [Hq Hd] by (destruct Hn as [Hn|Hn]; by eapply adjust_owner_quiet).
  split; [by eapply moved_quiet|]. intros L HL. eapply dirs_ok_quiet; [done|done|by apply Hk].
Qed.

(** An account that has the drops beyond its reserve is not overdrawn. *)
Lemma funds_left l a root amount n : ledger_ok l -> pl_accounts l !! a = Some root -> 0 <= n ->
  (isXRP amount = true -> exists drops, xrp amount = Val drops /\ accountReserve (pl_fees l) n + drops <= sfBalance root) ->
  forall r, pl_accounts l !! a = Some r -> 0 <= sfBalance r + - drops_of amount.
Proof.
  intros Hl Hr Hn Hf r Hr'. rewrite Hr in Hr'. injection Hr' as <-. pose proof (ok_balances _ Hl _ _ Hr) as [? ?]. pose proof (ok_fees _ Hl).
  destruct (isXRP amount) eqn:E; [|unfold drops_of; rewrite E; lia]. destruct (Hf eq_refl) as (drops & Hx & Hle).
  rewrite (xrp_drops _ _ E Hx). unfold accountReserve in Hle. nia.
Qed.

Section escrow.
Context `{PayKeylets, Sha256}.

Lemma xrp_funds_inl amount balance reserve l u l' : xrp_funds amount balance reserve l = Val (inl u, l') ->
  l' = l /\ exists drops, xrp amount = Val drops /\ reserve + drops <= balance.
Proof. unfold xrp_funds. intros E. pay_inv. split; [done|]. bool_prop. eauto. Qed.

Lemma adjust_dry_same k a n l ter l' : trustAdjustLockedBalance true k a n l = Val (ter, l') -> l' = l.
Proof. rewrite adjust_dry_run. intros E. apply bind_Val in E as ([? ?] & _ & E). by injection E. Qed.

Lemma create_funds_inl tx balance reserve l u l' : create_funds tx balance reserve l = Val (inl u, l') ->
  l' = l /\ (isXRP (ec_amount tx) = true -> exists drops, xrp (ec_amount tx) = Val drops /\ reserve + drops <= balance).
Proof.
  unfold create_funds. destruct (isXRP (ec_amount tx)) eqn:E; intros Hf.
  - apply xrp_funds_inl in Hf as [-> ?]. auto.
  - pay_inv. cbn in *. simplify_eq. split; [|done]. by eapply adjust_dry_same.
Qed.

Lemma check_destination_inl dst tag l u l' : check_destination dst tag l = Val (inl u, l') -> l' = l /\ is_Some (pl_accounts l !! dst).
Proof. unfold check_destination. intros Hc. pay_inv. eauto. Qed.

(** The escrow is inserted and listed. *)
Lemma escrow_listed tx key p l l1 l2 l3 l4 u : dirs_ok (listing l) l ->
  insert_escrow key (new_escrow tx 0 None) l = Val l1 -> insert_listed (ec_account tx) key l1 = Val (inl p, l2) ->
  put_escrow key (new_escrow tx p None) l2 = Val l3 ->
  (if ec_destination tx =? ec_account tx then mret tt
   else q ← insert_listed (ec_destination tx) key; change (put_escrow key (new_escrow tx p (Some q)))) l3 = Val (inl u, l4) ->
  occupied l key = false /\ exists q, same_but_dirs (put_escrows l (<[key := new_escrow tx p q]> (pl_escrows l))) l4 /\ dirs_ok (listing l4) l4.
Proof.
  unfold insert_escrow, put_escrow. intros Hok E1 E2 E3 E4. destruct (occupied l key) eqn:Hocc; [done|]. split; [done|].
  injection E1 as <-. injection E3 as <-. pose proof (free_places key _ l Hok Hocc) as Hp0.
  destruct (insert_listed_places _ _ _ _ _ [] (proj1 Hok : dirs_live (put_escrows l _)) (Hp0 : places (put_escrows l _) key []) (not_elem_of_nil _) E2) as (Hs2 & Hr2 & Hp2).
  assert (forall q l4, same_but_dirs (put_escrows l (<[key := new_escrow tx p q]> (pl_escrows l))) l4 ->
    listing l4 key = Some (entry_places (ec_account tx) p (ec_destination tx) q) /\
    forall k', k' <> key -> listing l4 k' = listing l k' /\ occupied l4 k' = occupied l k') as Hlist.
  { intros q l4' ->. split; [unfold listing; cbn; by rewrite lookup_insert_eq|]. intros k' Hne. apply (set_escrow_other l key (Some (new_escrow tx p q)) k' Hne). }
  destruct (Z.eqb_spec (ec_destination tx) (ec_account tx)) as [Hd|Hd]; pay_inv.
  - exists None. match goal with |- same_but_dirs ?x ?y /\ _ => assert (same_but_dirs x y) as Hs end.
    { rewrite Hs2. unfold same_but_dirs. cbn. by rewrite insert_insert_eq. }
    split; [done|]. destruct (Hlist _ _ Hs) as [HL Ho]. by apply (dirs_ok_new key (ec_account tx) p (ec_destination tx) None l _ Hok).
  - destruct (insert_listed_places (ec_destination tx) key _ _ _ _ (proj1 Hr2 : dirs_live (put_escrows l2 _)) (Hp2 : places (put_escrows l2 _) key _) ltac:(cbn; set_solver) Hs) as (Hs3 & Hr3 & Hp3).
    injection Hn as <-. exists (Some a). match goal with |- same_but_dirs ?x ?y /\ _ => assert (same_but_dirs x y) as Hs' end.
    { rewrite Hs3, Hs2. unfold same_but_dirs. cbn. by rewrite !insert_insert_eq. }
    split; [done|]. destruct (Hlist _ _ Hs') as [HL Ho].
    apply (dirs_ok_new key (ec_account tx) p (ec_destination tx) (Some a) l _ Hok); [|by apply places_swap in Hp3|congruence|done|done].
    eapply relisted_trans; [exact Hr2|exact Hr3].
Qed.

(** A new escrow takes its drops from the account. *)
Lemma EscrowCreate_flow tx l l' : ledger_ok l -> amount_ok (ec_amount tx) -> 0 < st_signum (ec_amount tx) ->
  (isXRP (ec_amount tx) = false -> getIssuer (ec_amount tx) <> ec_destination tx) ->
  EscrowCreate_doApply tx l = Val (inl tt, l') -> exists key e, occupied l key = false /\ flow (<[key := e]> (pl_escrows l)) l l'.
Proof.
  intros Hl Ha Hpos Hiss Hrun. unfold EscrowCreate_doApply in Hrun. pay_inv.
  apply create_funds_inl in Hs7 as [-> Hfunds]. apply check_destination_inl in Hs8 as [-> _].
  destruct (escrow_listed _ _ _ _ _ _ _ _ _ (ok_dirs _ Hl) Hs9 Hs10 Hs11 Hs12) as (Hocc & q & Hsd & Hdirs).
  destruct (free_entries _ _ Hocc) as [He Hc].
  destruct (pay_drops (ec_account tx) (ec_amount tx) Z.opp _ (ec_account tx) l13 a13 l14 l' eq_refl Hs13) as [Hm Hd]; [|by left|].
  { intros _ Htr. pay_inv. by eapply trustAdjust_keeps. }
  exists (escrow_key (ec_account tx) (ec_seqID tx)), (new_escrow tx a10 q). split; [done|].
  eapply (escrow_flow l l' _ (Some (new_escrow tx a10 q)) (ec_account tx) (- drops_of (ec_amount tx)) Hl).
  - eapply quiet_moved; [by apply quiet_dirs|exact Hm].
  - rewrite He. cbn. lia.
  - by eapply moved_dirs.
  - intros e [= <-]. split; [|done]. split; [done|]. split; [done|]. split; [by eexists|done].
  - apply (funds_left _ _ _ _ _ Hl Hs4 (proj1 (u32_range (sfOwnerCount a4 + 1))) Hfunds).
Qed.

Lemma named_escrow_inl owner seq id l k l' : named_escrow owner seq id l = Val (inl k, l') -> l' = l /\ k = default (escrow_key owner (SeqValue seq)) id.
Proof. unfold named_escrow. intros Hk. by pay_inv. Qed.

Lemma put_router_id l : l = put_router l (pl_router l).
Proof. by destruct l. Qed.

(** The condition of the escrow is that of the transaction, and was found fulfilled. *)
Lemma finish_condition_inl tx cond l u l' : finish_condition tx cond l = Val (inl u, l') ->
  (exists m, l' = put_router l m) /\ cond = ef_condition tx /\
  forall cb, cond = Some cb -> match pl_router l !! ef_id tx with
    | Some b => b = true
    | None => exists fb, ef_fulfillment tx = Some fb /\ checkCondition fb cb = true
    end.
Proof.
  unfold finish_condition. intros Hf. pay_inv. apply bool_decide_eq_false in Hs1.
  assert (cond = ef_condition tx) as ->.
  { apply andb_false_iff in Hs2. apply andb_false_iff in Hn0. rewrite negb_false_iff, !bool_decide_eq_false, ?bool_decide_eq_true in *.
    destruct cond as [c|]; [destruct Hn0 as [[]|?]; [by eexists|done]|]. destruct (ef_condition tx) as [cb|]; [|done]. destruct Hs2 as [[]|[]]; [done|by eexists]. }
  assert (exists m, l1 = put_router l m) as Hm.
  { destruct (ef_condition tx), (pl_router l !! ef_id tx); pay_inv; cbn in *; simplify_eq; first [by eexists|eexists; apply put_router_id]. }
  split; [done|]. split; [done|]. intros cb Hcb. rewrite Hcb in Hs0. destruct (pl_router l !! ef_id tx) as [b|]; pay_inv; [by destruct b|].
  destruct (checkCondition a cb) eqn:Ec; [|done]. by exists a.
Qed.

Lemma transfer_dry_same acting src dst a n l ter l' : trustTransferLockedBalance true acting src dst a n l = Val (ter, l') -> l' = l.
Proof.
  unfold trustTransferLockedBalance. intros E. destruct (negb _); [by injection E|]. destruct (pl_accounts l !! src); [|by injection E].
  destruct (pl_accounts l !! dst); [|by injection E]. destruct (st_signum a <=? 0); [by injection E|].
  destruct (trustTransferAllowed _ _ _); try by injection E. destruct (pl_lines l !! keylet_line src _ _); [|by injection E].
  apply bind_Val in E as (taken & _ & E). destruct taken; [|by injection E]. apply bind_Val in E as (dstAmt & _ & E).
  apply bind_Val in E as ([ter' l2] & E2 & E). assert (l2 = l) as ->.
  { clear E. destruct (pl_lines l !! _); [apply bind_Val in E2 as ([] & _ & E2); by injection E2|].
    repeat (case_match; [by injection E2|]). by injection E2. }
  cbn in E. by destruct ter'; injection E.
Qed.

(** An escrow leaves the directories and the ledger, and its drops go to an account. *)
Lemma escrow_removed l m k e a l1 l2 l3 : ledger_ok l -> pl_escrows l !! k = Some e ->
  remove_listed (e_account e) (e_ownerNode e) k (put_router l m) = Val (inl tt, l1) ->
  remove_listed_opt (e_destination e) (e_destinationNode e) k l1 = Val (inl tt, l2) ->
  (dirs_ok (unlist k (listing l)) l2 -> quiet l l2 -> moved a (drops_of (e_amount e)) l2 l3 /\ dirs_ok (unlist k (listing l)) l3) ->
  flow (delete k (pl_escrows l)) l (put_escrows l3 (delete k (pl_escrows l3))) /\
  sfBalance <$> pl_accounts l3 = alter (Z.add (drops_of (e_amount e))) a (sfBalance <$> pl_accounts l).
Proof.
  intros Hl He E1 E2 Hrest. assert (listing l k = Some (entry_places (e_account e) (e_ownerNode e) (e_destination e) (e_destinationNode e))) as HL
    by (unfold listing; by rewrite He).
  destruct (remove_places _ _ _ _ k (listing l) (put_router l m) (ok_dirs _ Hl) HL) as (l1' & l2' & E1' & E2' & Hsd & Hd2).
  rewrite E1 in E1'. injection E1' as <-. rewrite E2 in E2'. injection E2' as <-.
  assert (quiet l l2) as Hq by (eapply quiet_trans; [apply quiet_router|by apply quiet_dirs]).
  destruct (Hrest Hd2 Hq) as [Hm Hd3]. pose proof (quiet_moved _ _ _ _ _ Hq Hm) as Hm'.
  split; [|apply (q_balances _ _ _ _ Hm')]. apply (escrow_flow l _ k None a (drops_of (e_amount e)) Hl).
  - destruct Hm'. split; try done. cbn. by rewrite q_escrows0.
  - rewrite He. cbn. lia.
  - apply (dirs_ok_entries k _ _ _ Hd3); [done| | |].
    + intros k' Hne Hk'. exact (eq_trans (proj2 (set_escrow_other l3 k None k' Hne)) Hk').
    + left. unfold unlist. by rewrite decide_True.
    + intros k' ps. unfold unlist. destruct (decide (k' = k)) as [->|Hne].
      * unfold listing. cbn. rewrite lookup_delete_eq, (q_channels _ _ _ _ Hm'). destruct (ok_keys _ Hl k) as [Hn|Hn]; [congruence|by rewrite Hn].
      * intros Hps. rewrite <- Hps. transitivity (listing l3 k'); [|symmetry; exact (proj1 (set_escrow_other l3 k None k' Hne))]. unfold listing. by rewrite (q_escrows _ _ _ _ Hm'), (q_channels _ _ _ _ Hm').
  - done.
  - intros r Hr. pose proof (ok_balances _ Hl _ _ Hr). destruct (ok_escrows _ Hl k e He) as (Hok & Hpos & _).
    unfold drops_of in *. destruct (isXRP (e_amount e)) eqn:E; [|lia]. pose proof (drops_signum _ Hok E) as Hsg. unfold drops_of in Hsg. rewrite E in Hsg. lia.
Qed.

(** A step that is only made for issued amounts and leaves the ledger as it is. *)
Lemma dry_step amount (m : pay unit) l u l' : (if isXRP amount then mret tt else m) l = Val (inl u, l') -> (m l = Val (inl u, l') -> l' = l) -> l' = l.
Proof. destruct (isXRP amount); intros Hm Hs; [by pay_inv|auto]. Qed.

Lemma EscrowFinish_flow tx l l' : ledger_ok l -> EscrowFinish_doApply tx l = Val (inl tt, l') -> exists k e,
  k = default (escrow_key (ef_owner tx) (SeqValue (ef_offerSequence tx))) (ef_escrowID tx) /\ pl_escrows l !! k = Some e /\ flow (delete k (pl_escrows l)) l l' /\
  sfBalance <$> pl_accounts l' = alter (Z.add (drops_of (e_amount e))) (e_destination e) (sfBalance <$> pl_accounts l).
Proof.
  intros Hl Hrun. unfold EscrowFinish_doApply, deposit_authorized in Hrun. pay_inv.
  apply named_escrow_inl in Hs as [-> ->]. apply finish_condition_inl in Hs6 as ([m ->] & _). set (k := default _ _) in *.
  apply dry_step in Hs10 as ->; [|intros Ht; pay_inv; by eapply transfer_dry_same]. injection Hn0 as <-.
  destruct a11, a12. exists k, a1. split; [done|]. split; [done|]. apply (escrow_removed l m k a1 (e_destination a1) l12 l13 l15); [done|done|exact Hs11|exact Hs12|]. intros Hd2 Hq.
  destruct (pay_drops (e_destination a1) (e_amount a1) (fun d => d) _ (e_account a1) l13 a13 l14 l15 eq_refl Hs13) as [Hm Hk]; [|by right|by split; [|apply Hk]].
  intros Ex Ht. pay_inv. apply trustTransfer_quiet in Ht as [Hqt Hdt]. split; [done|]. intros L. apply Hdt. by apply (ok_escrows _ Hl k a1).
Qed.

Lemma EscrowCancel_flow tx l l' : ledger_ok l -> EscrowCancel_doApply tx l = Val (inl tt, l') -> exists k e,
  k = default (escrow_key (ex_owner tx) (SeqValue (ex_offerSequence tx))) (ex_escrowID tx) /\ pl_escrows l !! k = Some e /\ flow (delete k (pl_escrows l)) l l' /\
  sfBalance <$> pl_accounts l' = alter (Z.add (drops_of (e_amount e))) (e_account e) (sfBalance <$> pl_accounts l).
Proof.
  intros Hl Hrun. unfold EscrowCancel_doApply in Hrun. pay_inv. apply named_escrow_inl in Hs as [-> ->]. set (k := default _ _) in *.
  apply dry_step in Hs5 as ->; [|intros Ht; pay_inv; by eapply adjust_dry_same]. injection Hn as <-.
  destruct a6, a7. exists k, a1. split; [done|]. split; [done|]. apply (escrow_removed l (pl_router l) k a1 (e_account a1) l7 l8 l10); [done|done|by rewrite <- put_router_id|done|]. intros Hd2 Hq.
  destruct (pay_drops (e_account a1) (e_amount a1) (fun d => d) _ (e_account a1) l8 a8 l9 l10 eq_refl Hs8) as [Hm Hk]; [|by right|by split; [|apply Hk]].
  intros Ex Ht. pay_inv. by eapply trustAdjust_keeps.
Qed.
End escrow.

Section channel.
Context `{PayKeylets, Verify}.

Lemma moved_put_channels a d l l' m : moved a d l l' -> moved a d (put_channels l m) (put_channels l' m).
Proof. intros []. by split. Qed.

Definition chan_places (c : PayChanSLE) : list (AccountID * Z) := entry_places (ch_account c) (ch_ownerNode c) (ch_destination c) (ch_destinationNode c).

Lemma channel_listing l k c : ledger_ok l -> pl_channels l !! k = Some c -> pl_escrows l !! k = None /\ listing l k = Some (chan_places c).
Proof. intros Hl Hc. destruct (ok_keys _ Hl k) as [He|Hn]; [|congruence]. split; [done|]. unfold listing. by rewrite He, Hc. Qed.

(** A channel that stays where it is keeps the directories right. *)
Lemma channel_dirs l k c c' : pl_channels l !! k = Some c -> chan_places c' = chan_places c -> dirs_ok (listing l) l ->
  dirs_ok (listing (put_channels l (<[k := c']> (pl_channels l)))) (put_channels l (<[k := c']> (pl_channels l))).
Proof.
  intros Hc Hp Hok. assert (occupied (put_channels l (<[k := c']> (pl_channels l))) k = true) as Hocc.
  { unfold occupied. cbn. rewrite lookup_insert_eq, (bool_decide_eq_true_2 (is_Some (Some c'))), !orb_true_r by done. done. }
  apply (dirs_ok_entries k (listing l) l); [done|done| |by right|].
  - intros k' Hne Hk'. exact (eq_trans (proj2 (set_channel_other l k (Some c') k' Hne)) Hk').
  - intros k' ps Hps. rewrite <- Hps. destruct (decide (k' = k)) as [->|Hne].
    + unfold listing. cbn. rewrite lookup_insert_eq, Hc. destruct (pl_escrows l !! k); [done|]. f_equal. symmetry. exact Hp.
    + symmetry. exact (proj1 (set_channel_other l k (Some c') k' Hne)).
Qed.

(** A channel changes, and what it holds less or more goes to or comes from an account. *)
Lemma channel_updated l k c c' a d l' : ledger_ok l -> pl_channels l !! k = Some c -> chan_places c' = chan_places c -> channel_ok l c' ->
  moved a d (put_channels l (<[k := c']> (pl_channels l))) l' -> keeps_dirs (put_channels l (<[k := c']> (pl_channels l))) l' ->
  d = ch_left c - ch_left c' -> (forall r, pl_accounts l !! a = Some r -> 0 <= sfBalance r + d) -> flow (pl_escrows l) l l'.
Proof.
  intros Hl Hc Hp Hok Hm Hk Hd Ha. destruct (channel_listing l k c Hl Hc) as [He _].
  apply (channel_flow l l' k (Some c') a d Hl Hm).
  - by rewrite Hc.
  - eapply moved_dirs; [exact Hm|exact Hk|]. by apply (channel_dirs l k c c' Hc Hp), ok_dirs.
  - by intros ? [= <-].
  - done.
Qed.

(** The same when the account is changed first. *)
Lemma channel_updated_after l k c c' a d l2 : ledger_ok l -> pl_channels l !! k = Some c -> chan_places c' = chan_places c -> channel_ok l c' ->
  moved a d l l2 -> keeps_dirs l l2 -> d = ch_left c - ch_left c' -> (forall r, pl_accounts l !! a = Some r -> 0 <= sfBalance r + d) ->
  flow (pl_escrows l) l (put_channels l2 (<[k := c']> (pl_channels l2))).
Proof.
  intros Hl Hc Hp Hok Hm Hk Hd Ha. destruct (channel_listing l k c Hl Hc) as [He _].
  apply (channel_flow l _ k (Some c') a d Hl).
  - rewrite (q_channels _ _ _ _ Hm). by apply moved_put_channels.
  - by rewrite Hc.
  - apply (channel_dirs l2 k c c'); [by rewrite (q_channels _ _ _ _ Hm)|done|]. by eapply moved_dirs, ok_dirs.
  - by intros ? [= <-].
  - done.
Qed.

(** Only the expiration changes. *)
Lemma expiration_updated l k c x : ledger_ok l -> pl_channels l !! k = Some c ->
  flow (pl_escrows l) l (put_channels l (<[k := set_expiration x c]> (pl_channels l))).
Proof.
  intros Hl Hc. apply (channel_updated_after l k c (set_expiration x c) 0 0 l Hl Hc); [done|exact (ok_channels _ Hl k c Hc)|apply quiet_refl|by intros L|unfold ch_left; cbn; lia|].
  intros r Hr. pose proof (ok_balances _ Hl _ _ Hr). lia.
Qed.

(** What is left in a channel goes back to its owner. *)
Lemma closeChannel_flow k c l l' : ledger_ok l -> pl_channels l !! k = Some c -> closeChannel k c l = Val (inl tt, l') -> flow (pl_escrows l) l l' /\
  sfBalance <$> pl_accounts l' = alter (Z.add (ch_left c)) (ch_account c) (sfBalance <$> pl_accounts l).
Proof.
  intros Hl Hc Hrun. unfold closeChannel in Hrun. pay_inv. destruct (channel_listing l k c Hl Hc) as [He HL].
  destruct (ok_channels _ Hl k c Hc) as (Ha & Hb & _ & Hle & _ & Hrule). destruct (st_sub_ok _ _ _ Ha Hb Hs) as (_ & _ & _ & Hleft).
  apply dry_step in Hs1 as ->; [|intros Ht; pay_inv; by eapply adjust_dry_same]. injection Hn as <-. destruct a2, a3.
  assert (remove_listed_opt (ch_destination c) (ch_destinationNode c) k l3 = Val (inl tt, l4)) as Hs3'.
  { destruct (ch_destinationNode c); [by rewrite Hrule in Hs3|]. by destruct (fixPayChanRecipientOwnerDir _). }
  destruct (remove_places _ _ _ _ k (listing l) l (ok_dirs _ Hl) HL) as (l3' & l4' & E3 & E4 & Hsd & Hd4).
  rewrite Hs2 in E3. injection E3 as <-. rewrite Hs3' in E4. injection E4 as <-. pose proof (quiet_dirs _ _ Hsd) as Hq.
  destruct (pay_drops (ch_account c) a (fun d => d) _ (ch_account c) l4 a8 l9 l10 eq_refl Hs8) as [Hm Hk]; [|by right|].
  { intros Ex Ht. pay_inv. by eapply trustAdjust_keeps. }
  pose proof (quiet_moved _ _ _ _ _ Hq Hm) as Hm'. split; [|unfold ch_left; rewrite <- Hleft; apply (q_balances _ _ _ _ Hm')].
  apply (channel_flow l _ k None (ch_account c) (drops_of a) Hl).
  - rewrite (q_channels _ _ _ _ Hm'). by apply moved_put_channels.
  - rewrite Hc. cbn. unfold ch_left. lia.
  - apply (dirs_ok_entries k _ _ _ (Hk _ Hd4)); [done| | |].
    + intros k' Hne Hk'. exact (eq_trans (proj2 (set_channel_other l10 k None k' Hne)) Hk').
    + left. unfold unlist. by rewrite decide_True.
    + intros k' ps Hps. unfold unlist. destruct (decide (k' = k)) as [->|Hne].
      * unfold listing in Hps. cbn in Hps. by rewrite lookup_delete_eq, (q_escrows _ _ _ _ Hm'), He in Hps.
      * rewrite <- Hps. transitivity (listing l10 k'); [|symmetry; exact (proj1 (set_channel_other l10 k None k' Hne))].
        unfold listing. by rewrite (q_escrows _ _ _ _ Hm'), (q_channels _ _ _ _ Hm').
  - done.
  - intros r Hr. pose proof (ok_balances _ Hl _ _ Hr). lia.
Qed.

(** The channel is inserted and listed. *)
Lemma channel_listed tx key p l l1 l2 l3 l4 (r : bool) u : dirs_ok (listing l) l -> cc_account tx <> cc_destination tx ->
  insert_channel key (new_channel tx 0 None) l = Val l1 -> insert_listed (cc_account tx) key l1 = Val (inl p, l2) ->
  put_channel key (new_channel tx p None) l2 = Val l3 ->
  (if r then q ← insert_listed (cc_destination tx) key; change (put_channel key (new_channel tx p (Some q))) else mret tt) l3 = Val (inl u, l4) ->
  occupied l key = false /\ exists q, (q <> None -> r = true) /\
    same_but_dirs (put_channels l (<[key := new_channel tx p q]> (pl_channels l))) l4 /\ dirs_ok (listing l4) l4.
Proof.
  unfold insert_channel, put_channel. intros Hok Hd E1 E2 E3 E4. destruct (occupied l key) eqn:Hocc; [done|]. split; [done|].
  injection E1 as <-. injection E3 as <-. pose proof (free_places key _ l Hok Hocc) as Hp0. destruct (free_entries _ _ Hocc) as [He _].
  destruct (insert_listed_places _ _ _ _ _ [] (proj1 Hok : dirs_live (put_channels l _)) (Hp0 : places (put_channels l _) key []) (not_elem_of_nil _) E2) as (Hs2 & Hr2 & Hp2).
  assert (forall q l4, same_but_dirs (put_channels l (<[key := new_channel tx p q]> (pl_channels l))) l4 ->
    listing l4 key = Some (entry_places (cc_account tx) p (cc_destination tx) q) /\
    forall k', k' <> key -> listing l4 k' = listing l k' /\ occupied l4 k' = occupied l k') as Hlist.
  { intros q l4' ->. split; [unfold listing; cbn; by rewrite He, lookup_insert_eq|]. intros k' Hne. apply (set_channel_other l key (Some (new_channel tx p q)) k' Hne). }
  destruct r; pay_inv.
  - destruct (insert_listed_places (cc_destination tx) key _ _ _ _ (proj1 Hr2 : dirs_live (put_channels l2 _)) (Hp2 : places (put_channels l2 _) key _) ltac:(cbn; set_solver) Hs) as (Hs3 & Hr3 & Hp3).
    injection Hn as <-. exists (Some a). split; [done|]. match goal with |- same_but_dirs ?x ?y /\ _ => assert (same_but_dirs x y) as Hs' end.
    { rewrite Hs3, Hs2. unfold same_but_dirs. cbn. by rewrite !insert_insert_eq. }
    split; [done|]. destruct (Hlist _ _ Hs') as [HL Ho].
    apply (dirs_ok_new key (cc_account tx) p (cc_destination tx) (Some a) l _ Hok); [|by apply places_swap in Hp3|congruence|done|done].
    eapply relisted_trans; [exact Hr2|exact Hr3].
  - exists None. split; [done|]. match goal with |- same_but_dirs ?x ?y /\ _ => assert (same_but_dirs x y) as Hs end.
    { rewrite Hs2. unfold same_but_dirs. cbn. by rewrite insert_insert_eq. }
    split; [done|]. destruct (Hlist _ _ Hs) as [HL Ho]. by apply (dirs_ok_new key (cc_account tx) p (cc_destination tx) None l _ Hok).
Qed.

Lemma PayChanCreate_preclaim_inl tx l u l' : PayChanCreate_preclaim tx l = Val (inl u, l') -> l' = l /\ exists root,
  pl_accounts l !! cc_account tx = Some root /\
  (isXRP (cc_amount tx) = true -> exists drops, xrp (cc_amount tx) = Val drops /\ accountReserve (pl_fees l) (u32 (sfOwnerCount root + 1)) + drops <= sfBalance root).
Proof.
  unfold PayChanCreate_preclaim. intros Hp. pay_inv. apply check_destination_inl in Hn as [-> _].
  destruct (isXRP (cc_amount tx)).
  - apply xrp_funds_inl in Hs3 as [-> ?]. eauto.
  - pay_inv. cbn in *. simplify_eq. split; [by eapply adjust_dry_same|]. by eexists.
Qed.

Lemma zeroed_ok amount : amount_ok amount -> amount_ok (zeroed (mIssue amount)) /\ isXRP (zeroed (mIssue amount)) = isXRP amount /\ drops_of (zeroed (mIssue amount)) = 0.
Proof.
  unfold amount_ok, zeroed, drops_of, isXRP. intros _. destruct (currency (mIssue amount) =? 0) eqn:E; cbn; rewrite E; (split; [|done]); (split; [done|]); [lia|done].
Qed.

(** A new channel takes its drops from the account. *)
Lemma PayChanCreate_flow tx l l' : ledger_ok l -> amount_ok (cc_amount tx) -> 0 < st_signum (cc_amount tx) -> cc_account tx <> cc_destination tx ->
  (_ ← PayChanCreate_preclaim tx; PayChanCreate_doApply tx) l = Val (inl tt, l') -> flow (pl_escrows l) l l'.
Proof.
  intros Hl Ha Hpos Hne Hrun. apply pay_bind_inl in Hrun as (u & l0 & Hpre & Hrun). apply PayChanCreate_preclaim_inl in Hpre as (-> & root & Hroot & Hfunds).
  unfold PayChanCreate_doApply in Hrun. pay_inv. rewrite Hroot in Hs0. injection Hs0 as <-.
  destruct (channel_listed _ _ _ _ _ _ _ _ _ _ (ok_dirs _ Hl) Hne Hs2 Hs3 Hs4 Hs5) as (Hocc & q & Hq & Hsd & Hdirs).
  destruct (free_entries _ _ Hocc) as [He Hc]. destruct (zeroed_ok _ Ha) as (Hz & Hzx & Hz0).
  destruct (pay_drops (cc_account tx) (cc_amount tx) Z.opp _ (cc_account tx) l6 a6 l7 l' eq_refl Hs6) as [Hm Hd]; [|by left|].
  { intros _ Htr. pay_inv. by eapply trustAdjust_keeps. }
  eapply (channel_flow l l' _ (Some (new_channel tx a3 q)) (cc_account tx) (- drops_of (cc_amount tx)) Hl).
  - eapply quiet_moved; [by apply quiet_dirs|exact Hm].
  - rewrite Hc. cbn. unfold ch_left. cbn. rewrite Hz0. lia.
  - by eapply moved_dirs.
  - intros c [= <-]. split; [|done]. split; [done|]. split; [done|]. split; [done|]. split; [|split; [by eexists|done]]. cbn. rewrite Hz0.
    unfold drops_of. destruct (isXRP (cc_amount tx)) eqn:E; [|lia]. pose proof (drops_signum _ Ha E) as Hsg. unfold drops_of in Hsg. rewrite E in Hsg. lia.
  - apply (funds_left _ _ _ _ _ Hl Hroot (proj1 (u32_range (sfOwnerCount root + 1))) Hfunds).
Qed.

Lemma extend_channel_inl k x now c l c' l' : ledger_ok l -> pl_channels l !! k = Some c -> extend_channel k x now c l = Val (inl c', l') ->
  flow (pl_escrows l) l l' /\ pl_channels l' !! k = Some c' /\ exists e, c' = set_expiration e c.
Proof.
  intros Hl Hc. unfold extend_channel. destruct x as [x|]; intros Hx; pay_inv.
  - injection Hs0 as <-. split; [by apply (expiration_updated l k c (Some x))|]. split; [cbn; by rewrite lookup_insert_eq|by eexists].
  - split; [by split|]. split; [done|]. exists (ch_expiration c'). by destruct c'.
Qed.

Lemma PayChanFund_flow tx l l' : ledger_ok l -> amount_ok (cf_amount tx) -> 0 < st_signum (cf_amount tx) ->
  PayChanFund_doApply tx l = Val (inl tt, l') -> flow (pl_escrows l) l l'.
Proof.
  intros Hl Ha Hpos Hrun. unfold PayChanFund_doApply in Hrun. pay_inv.
  assert (l3 = l) as ->. { destruct (_ && _); pay_inv; [by eapply adjust_dry_same|done]. }
  destruct (channel_expired _ _); [by eapply closeChannel_flow in Hn as [? _]|]. pay_inv.
  destruct (extend_channel_inl _ _ _ _ _ _ _ Hl Hs0 Hs1) as (Hf1 & Hc & e & ->). pose proof (fl_ok _ _ _ Hf1) as Hl1. set (c := set_expiration e a0) in *.
  destruct (ok_channels _ Hl1 _ _ Hc) as (Hca & Hcb & Hx & Hle & Hacc & Hrule). destruct (st_add_ok _ _ _ Hca Ha Hs10) as (Hsum & Hsx & Htx & Hsd).
  assert (moved (cf_account tx) (- drops_of (cf_amount tx)) l1 l8 /\ keeps_dirs l1 l8 /\
    forall r, pl_accounts l1 !! cf_account tx = Some r -> 0 <= sfBalance r + - drops_of (cf_amount tx)) as (Hm & Hk & Hbal).
  { destruct (isXRP (cf_amount tx)) eqn:E; pay_inv.
    - apply xrp_funds_inl in Hs3 as [-> Hf]. apply credit_moved in Hn1 as [Hm Hd]. rewrite (xrp_drops _ _ E Hs5). split; [done|].
      split; [intros L; by eapply dirs_ok_moved|]. rewrite <- (xrp_drops _ _ E Hs5).
      exact (funds_left _ _ _ (cf_amount tx) _ Hl1 Hs4 (proj2 (ok_balances _ Hl1 _ _ Hs4)) (fun _ => Hf)).
    - apply trustAdjust_keeps in Hn0 as [Hq Hk]. unfold drops_of. rewrite E. split; [apply Hq|]. split; [done|].
      intros r Hr. pose proof (ok_balances _ Hl1 _ _ Hr). lia. }
  injection Hn as <-. eapply flow_trans; [exact Hf1| |done]. eapply (channel_updated_after l1 _ c (set_chan_amount a10 c) (cf_account tx) (- drops_of (cf_amount tx))); try done.
  - split; [done|]. split; [done|]. split; [exact (eq_trans Hx (eq_sym Hsx))|]. split; [|done]. cbn. pose proof (drops_nonneg _ Ha ltac:(lia)). cbn in *. lia.
  - unfold ch_left. cbn. cbn in Hsd. lia.
Qed.

Lemma claim_signer_inl tx c l u l' : claim_signer tx c l = Val (inl u, l') ->
  l' = l /\ (cl_signature tx <> None -> cl_publicKey tx = Some (ch_publicKey c)).
Proof.
  unfold claim_signer. destruct (cl_signature tx); intros Hs; [|by pay_inv]. destruct (publicKeyType _); pay_inv; [|done].
  destruct (cl_publicKey tx) as [pk|]; [|done]. simplify_eq. bool_prop. by subst.
Qed.

(** A claim moves drops from the channel to the destination. *)
Lemma claim_balance_flow tx req c l c' l' : ledger_ok l -> pl_channels l !! cl_channel tx = Some c -> amount_ok req -> 0 < st_signum req ->
  (isXRP req = false -> getIssuer req <> ch_destination c) -> claim_balance tx req c l = Val (inl c', l') ->
  flow (pl_escrows l) l l' /\ pl_channels l' !! cl_channel tx = Some c' /\ c' = set_chan_balance req c /\
  sfBalance <$> pl_accounts l' = alter (Z.add (drops_of req - drops_of (ch_balance c))) (ch_destination c) (sfBalance <$> pl_accounts l) /\
  drops_of req <= drops_of (ch_amount c).
Proof.
  intros Hl Hc Hreq Hpos Hiss Hrun. unfold claim_balance, deposit_authorized in Hrun. pay_inv. apply claim_signer_inl in Hs1 as [-> _].
  injection Hs10 as <-. destruct (ok_channels _ Hl _ _ Hc) as (Hca & Hcb & Hx & Hle & Hacc & Hrule).
  destruct (st_sub_ok _ _ _ Hreq Hcb Hs11) as (Hd & Hdx & Hbx & Hdd). unfold st_gtb in Hs2. destruct (st_ltb_ok _ _ _ Hca Hreq Hs2) as [Hqx Hlt].
  pose proof (drops_nonneg _ Hreq ltac:(lia)) as Hr0. bool_prop. pose proof (drops_nonneg _ Hd ltac:(lia)) as Hd0.
  destruct (pay_only (ch_destination c) a11 (fun d => d) _ _ a13 l' eq_refl Hs13) as [Hm Hk].
  { intros Ex Ht. pay_inv. match goal with Hw : trustTransferLockedBalance _ _ _ _ _ _ _ = _ |- _ => apply trustTransfer_quiet in Hw as [Hq Hdt] end. split; [done|]. intros L. apply Hdt.
    destruct (st_add_issue req _ _ (eq_trans (proj1 Hreq) (eq_trans (eq_sym Hdx) Ex)) ltac:(congruence) Hs11) as [Hi _].
    unfold getIssuer. rewrite Hi. apply Hiss. congruence. }
  assert (drops_of req <= drops_of (ch_amount c)) as Hle2.
  { destruct (isXRP (ch_amount c)) eqn:E; [|unfold drops_of; rewrite Hqx, E; lia]. specialize (Hlt eq_refl). symmetry in Hlt. bool_prop. lia. }
  split.
  1: apply (channel_updated l _ c (set_chan_balance req c) (ch_destination c) (drops_of a11) l' Hl Hc); try done.
  - unfold ch_left. cbn. lia.
  - intros r Hr. pose proof (ok_balances _ Hl _ _ Hr). lia.
  - split; [rewrite (q_channels _ _ _ _ Hm); cbn; by rewrite lookup_insert_eq|]. split; [done|]. split; [|done]. rewrite <- Hdd. apply (q_balances _ _ _ _ Hm).
Qed.

Lemma PayChanClaim_flow tx l l' : ledger_ok l ->
  (forall req, cl_balance tx = Some req -> amount_ok req /\ 0 < st_signum req /\
     forall c, pl_channels l !! cl_channel tx = Some c -> isXRP req = false -> getIssuer req <> ch_destination c) ->
  PayChanClaim_doApply tx l = Val (inl tt, l') -> flow (pl_escrows l) l l'.
Proof.
  intros Hl Hreq Hrun. unfold PayChanClaim_doApply in Hrun. pay_inv_one. pay_inv_one. pay_inv_one. pay_inv_one. pay_inv_one. pay_inv_one.
  destruct (channel_expired _ _); [by eapply closeChannel_flow in Hn as [? _]|].
  pay_inv. assert (flow (pl_escrows l) l l1 /\ pl_channels l1 !! cl_channel tx = Some a1) as [Hf1 Hc1].
  { destruct (cl_balance tx) as [req|]; [|pay_inv; by split]. destruct (Hreq req eq_refl) as (Hr & Hp & Hi).
    destruct (claim_balance_flow _ _ _ _ _ _ Hl Hs0 Hr Hp (Hi _ Hs0) Hs1) as (? & ? & _). done. }
  assert (flow (pl_escrows l1) l1 l2 /\ pl_channels l2 !! cl_channel tx = Some a2) as [Hf2 Hc2].
  { pose proof (fl_ok _ _ _ Hf1) as Hl1. destruct (has_flag _ tfRenew); pay_inv; [|by split; [split|]].
    match goal with Hw : put_channel _ _ _ = Val _ |- _ => injection Hw as <- end. split; [by apply expiration_updated|]. cbn. by rewrite lookup_insert_eq. }
  eapply flow_trans; [eapply flow_trans; [exact Hf1|exact Hf2|done]| |done]. pose proof (fl_ok _ _ _ Hf2) as Hl2.
  destruct (has_flag _ tfClose); [|by pay_inv; split]. destruct (_ || _); [by eapply closeChannel_flow in Hn0 as [? _]|].
  case_match; pay_inv; [|by split]. match goal with Hw : put_channel _ _ _ = Val _ |- _ => injection Hw as <- end. by apply expiration_updated.
Qed.
End channel.
