(* ===== verification/PayTxns.v ===== *)
(** * PayTxns: applying escrow and payment channel transactions ([app/tx/impl/applySteps.cpp])

    A transaction goes through its [preflight], its [preclaim] if it has one, and its
    [doApply]; the ledger [doApply] leaves is kept only if its code is [tesSUCCESS].  Fees
    are not part of this model.

    The theorems: every transaction keeps the invariant of [XrpFlow.v] and the XRP of the
    ledger; the two ways out of an escrow and who may take them; what a claim on a channel
    has to show.  [PayLive.v] goes on to infinite runs. *)

From stdpp Require Import base numbers list option gmap.
From Stdlib Require Import ZArith Lia.
From S2P Require Import Prelude Leb128 Double Xfl IouAmount StAmount Enum Runtime Directory Context StateLedger Condition ShaMapNode Serializer PayLedger TrustLine Escrow PayChan XrpFlow.

Local Open Scope Z_scope.

Inductive PayTx :=
| TxEscrowCreate (tx : EscrowCreateTx)
| TxEscrowFinish (tx : EscrowFinishTx)
| TxEscrowCancel (tx : EscrowCancelTx)
| TxPayChanCreate (tx : PayChanCreateTx)
| TxPayChanFund (tx : PayChanFundTx)
| TxPayChanClaim (tx : PayChanClaimTx).

Section txns.
Context `{PayKeylets, Sha256, Verify}.

(** [invoke_preflight], for a transaction that passes the generic checks. *)
Definition invoke_preflight (r : Rules) (router : gmap uint256 bool) (t : PayTx) : fres (TER * gmap uint256 bool) :=
  match t with
  | TxEscrowCreate tx => Val (EscrowCreate_preflight r tesSUCCESS tesSUCCESS tx, router)
  | TxEscrowFinish tx => Val (EscrowFinish_preflight r tesSUCCESS tesSUCCESS tx router)
  | TxEscrowCancel tx => Val (EscrowCancel_preflight r tesSUCCESS tesSUCCESS tx, router)
  | TxPayChanCreate tx => Val (PayChanCreate_preflight r tesSUCCESS tesSUCCESS tx, router)
  | TxPayChanFund tx => Val (PayChanFund_preflight r tesSUCCESS tesSUCCESS tx, router)
  | TxPayChanClaim tx => ter ← PayChanClaim_preflight r tesSUCCESS tesSUCCESS tx; Val (ter, router)
  end.

(** [invoke_preclaim] and [invoke_apply]. *)
Definition invoke_apply (t : PayTx) : pay unit :=
  match t with
  | TxEscrowCreate tx => EscrowCreate_doApply tx
  | TxEscrowFinish tx => EscrowFinish_doApply tx
  | TxEscrowCancel tx => EscrowCancel_doApply tx
  | TxPayChanCreate tx => _ ← PayChanCreate_preclaim tx; PayChanCreate_doApply tx
  | TxPayChanFund tx => PayChanFund_doApply tx
  | TxPayChanClaim tx => PayChanClaim_doApply tx
  end.

(** The ledger after the transaction.  An exception leaves it as it was; the hash router
    is not part of the view. *)
Definition apply_tx (t : PayTx) (l : PayLedger) : pres PayLedger :=
  match invoke_preflight (rules l) (pl_router l) t with
  | Val (ter, router) =>
    let l := put_router l router in
    if bool_decide (ter = tesSUCCESS) then
      match run (invoke_apply t) l with
      | Val (ter, l') => Val (if bool_decide (ter = tesSUCCESS) then l' else put_router l (pl_router l'))
      | Err (Exn _) => Val l
      | Err Abort => Err Abort
      | Undef => Undef
      end
    else Val l
  | Err _ => Val l
  | Undef => Undef
  end.

(** ** Well-formed transactions *)

(** Amounts are read from the wire as drops or as issued amounts; an issued amount does not
    go to its issuer. *)
Definition tx_ok (l : PayLedger) (t : PayTx) : Prop :=
  match t with
  | TxEscrowCreate tx => amount_ok (ec_amount tx) /\ (isXRP (ec_amount tx) = false -> getIssuer (ec_amount tx) <> ec_destination tx)
  | TxEscrowFinish _ | TxEscrowCancel _ => True
  | TxPayChanCreate tx => amount_ok (cc_amount tx)
  | TxPayChanFund tx => amount_ok (cf_amount tx)
  | TxPayChanClaim tx => forall req, cl_balance tx = Some req ->
      amount_ok req /\ forall c, pl_channels l !! cl_channel tx = Some c -> isXRP req = false -> getIssuer req <> ch_destination c
  end.

(** ** One transaction *)

Lemma invoke_apply_leaving t : leaves_failing (invoke_apply t).
Proof.
  destruct t; cbn [invoke_apply]; unfold EscrowCreate_doApply, EscrowFinish_doApply, EscrowCancel_doApply, PayChanCreate_preclaim,
    PayChanCreate_doApply, PayChanFund_doApply, PayChanClaim_doApply, claim_balance, claim_signer, closeChannel, extend_channel, create_funds,
    check_destination, named_escrow, finish_condition, deposit_authorized, insert_listed, remove_listed_opt, remove_listed, xrp_funds; cbv zeta; leaving.
Qed.

Lemma apply_tx_cases t l l' : apply_tx t l = Val l' -> (exists m, l' = put_router l m) \/
  exists m, invoke_preflight (rules l) (pl_router l) t = Val (tesSUCCESS, m) /\ invoke_apply t (put_router l m) = Val (inl tt, l').
Proof.
  unfold apply_tx. destruct (invoke_preflight _ _ t) as [[ter m]| |] eqn:Ep; [|intros [= <-]; left; eexists; apply put_router_id|done].
  case_bool_decide as Ht; [subst ter|intros [= <-]; left; by eexists]. pose proof (run_success (invoke_apply t) (put_router l m)) as Hrun.
  destruct (run _ _) as [[ter l1]|[]|] eqn:Er; [|intros [= <-]; left; by eexists|done..].
  case_bool_decide as Ht; intros [= <-]; [subst ter|left; eexists; unfold put_router; reflexivity].
  right. exists m. split; [done|]. destruct (Hrun l1 eq_refl) as [?|Hl]; [done|]. by apply invoke_apply_leaving in Hl.
Qed.

Lemma ledger_ok_router l m : ledger_ok l -> ledger_ok (put_router l m).
Proof. intros []. by split. Qed.

(** The amounts that pass [preflight] are positive. *)
Lemma preflight_amount_pos r a amount d o : preflight_amount r a amount d o = tesSUCCESS -> d <> tesSUCCESS -> o <> tesSUCCESS -> 0 < st_signum amount.
Proof. unfold preflight_amount. intros Hp Hd Ho. repeat (case_match; [done|]). bool_prop. lia. Qed.

Lemma preflight_pos r m m' t : invoke_preflight r m t = Val (tesSUCCESS, m') ->
  match t with
  | TxEscrowCreate tx => 0 < st_signum (ec_amount tx)
  | TxPayChanCreate tx => 0 < st_signum (cc_amount tx) /\ cc_account tx <> cc_destination tx
  | TxPayChanFund tx => 0 < st_signum (cf_amount tx)
  | TxPayChanClaim tx => forall req, cl_balance tx = Some req -> 0 < st_signum req
  | _ => True
  end.
Proof.
  destruct t as [tx|tx|tx|tx|tx|tx]; cbn [invoke_preflight]; try done; intros Hp.
  - injection Hp as Hp _. unfold EscrowCreate_preflight in Hp. destruct (_ && _); [done|]. cbn in Hp.
    destruct (preflight_amount _ _ _ _ _) eqn:Ea; try done. by apply preflight_amount_pos in Ea.
  - injection Hp as Hp _. unfold PayChanCreate_preflight in Hp. destruct (_ && _); [done|]. cbn in Hp.
    destruct (preflight_amount _ _ _ _ _) eqn:Ea; try done. apply preflight_amount_pos in Ea; [|done..]. split; [done|]. by destruct (Z.eqb_spec (cc_account tx) (cc_destination tx)).
  - injection Hp as Hp _. unfold PayChanFund_preflight in Hp. destruct (_ && _); [done|]. cbn in Hp.
    destruct (preflight_amount _ _ _ _ _) eqn:Ea; try done. by apply preflight_amount_pos in Ea.
  - apply bind_Val in Hp as (ter & Hp & [= -> _]). intros req Hreq. unfold PayChanClaim_preflight, claim_amount_refused in Hp. rewrite Hreq in Hp. cbn in Hp.
    destruct (negb (isXRP req) && _); [done|]. cbn in Hp. destruct (Z.leb_spec (st_signum req) 0); [done|lia].
Qed.

(** How an escrow leaves the ledger: the drops go to its destination or back to its owner. *)
Definition resolved (t : PayTx) (k : uint256) (e : EscrowSLE) (l l' : PayLedger) : Prop :=
  match t with
  | TxEscrowFinish tx => k = default (escrow_key (ef_owner tx) (SeqValue (ef_offerSequence tx))) (ef_escrowID tx) /\
      sfBalance <$> pl_accounts l' = alter (Z.add (drops_of (e_amount e))) (e_destination e) (sfBalance <$> pl_accounts l)
  | TxEscrowCancel tx => k = default (escrow_key (ex_owner tx) (SeqValue (ex_offerSequence tx))) (ex_escrowID tx) /\
      sfBalance <$> pl_accounts l' = alter (Z.add (drops_of (e_amount e))) (e_account e) (sfBalance <$> pl_accounts l)
  | _ => False
  end.

Lemma apply_flow t l l' : ledger_ok l -> tx_ok l t -> apply_tx t l = Val l' ->
  flow (pl_escrows l') l l' /\
  forall k e, pl_escrows l !! k = Some e -> pl_escrows l' !! k = Some e \/ (pl_escrows l' !! k = None /\ resolved t k e l l').
Proof.
  intros Hl Ht Ha. apply apply_tx_cases in Ha as [[m ->]|(m & Hp & Ha)]; [split; [split; try done; by apply ledger_ok_router|by left]|].
  pose proof (preflight_pos _ _ _ _ Hp) as Hpos. pose proof (ledger_ok_router l m Hl) as Hlm.
  assert (forall E l', flow E (put_router l m) l' -> flow (pl_escrows l') l l') as Hflow by (intros E l1 []; by split).
  assert (flow (pl_escrows l) (put_router l m) l' -> flow (pl_escrows l') l l' /\
    forall k e, pl_escrows l !! k = Some e -> pl_escrows l' !! k = Some e \/ (pl_escrows l' !! k = None /\ resolved t k e l l')) as Hsame.
  { intros Hf. split; [by eapply Hflow|]. left. by rewrite (fl_escrows _ _ _ Hf). }
  destruct t as [tx|tx|tx|tx|tx|tx]; cbn [invoke_apply tx_ok] in *.
  - destruct Ht as [Hok Hiss]. destruct (EscrowCreate_flow tx _ _ Hlm Hok Hpos Hiss Ha) as (key & e0 & Hocc & Hf). split; [by eapply Hflow|].
    intros k e He. left. rewrite (fl_escrows _ _ _ Hf). cbn. rewrite lookup_insert_ne; [done|]. intros ->. apply free_entries in Hocc as [Hn _]. cbn in Hn. congruence.
  - destruct (EscrowFinish_flow tx _ _ Hlm Ha) as (k0 & e0 & -> & He0 & Hf & Hb). split; [by eapply Hflow|]. intros k e He. rewrite (fl_escrows _ _ _ Hf). cbn.
    destruct (decide (k = default (escrow_key (ef_owner tx) (SeqValue (ef_offerSequence tx))) (ef_escrowID tx))) as [->|Hne].
    + right. rewrite lookup_delete_eq. split; [done|]. cbn in He0. rewrite He in He0. by injection He0 as <-.
    + left. by rewrite lookup_delete_ne by congruence.
  - destruct (EscrowCancel_flow tx _ _ Hlm Ha) as (k0 & e0 & -> & He0 & Hf & Hb). split; [by eapply Hflow|]. intros k e He. rewrite (fl_escrows _ _ _ Hf). cbn.
    destruct (decide (k = default (escrow_key (ex_owner tx) (SeqValue (ex_offerSequence tx))) (ex_escrowID tx))) as [->|Hne].
    + right. rewrite lookup_delete_eq. split; [done|]. cbn in He0. rewrite He in He0. by injection He0 as <-.
    + left. by rewrite lookup_delete_ne by congruence.
  - apply Hsame. by apply (PayChanCreate_flow tx _ _ Hlm Ht (proj1 Hpos) (proj2 Hpos)).
  - apply Hsame. by apply (PayChanFund_flow tx _ _ Hlm Ht Hpos).
  - apply Hsame. apply (PayChanClaim_flow tx _ _ Hlm); [|done]. intros req Hreq. destruct (Ht req Hreq) as [? ?]. by split; [|split; [apply Hpos|]].
Qed.

(** C7: Every escrow and payment channel transaction keeps the invariant of the ledger and its
    XRP: after it, whether it succeeded, failed or threw, the owner directories list each
    escrow and channel exactly where it says, no balance is negative, no channel has paid
    more than it holds, and the XRP in accounts, escrows and channels together is what it was. *)
Theorem pay_transactions_conserve t l l' : ledger_ok l -> tx_ok l t -> apply_tx t l = Val l' -> ledger_ok l' /\ total_xrp l' = total_xrp l.
Proof. intros Hl Ht Ha. destruct (apply_flow t l l' Hl Ht Ha) as [[] _]. done. Qed.

(** ** Leaving an escrow *)

(** The hash router has no other outcome for the transaction than that of its check. *)
Definition router_ok (l : PayLedger) (tx : EscrowFinishTx) : Prop :=
  forall b cb fb, pl_router l !! ef_id tx = Some b -> ef_condition tx = Some cb -> ef_fulfillment tx = Some fb -> b = checkCondition fb cb.

(** The times of the escrow allow the finish and the condition is fulfilled. *)
Definition may_finish (l : PayLedger) (e : EscrowSLE) (tx : EscrowFinishTx) : Prop :=
  (forall f, e_finishAfter e = Some f -> f < parentCloseTime l) /\
  (fix1571 (rules l) = true -> forall c, e_cancelAfter e = Some c -> parentCloseTime l <= c) /\
  (forall cb, e_condition e = Some cb -> ef_condition tx = Some cb /\ exists fb, ef_fulfillment tx = Some fb /\ checkCondition fb cb = true).

Definition may_cancel (l : PayLedger) (e : EscrowSLE) : Prop := exists c, e_cancelAfter e = Some c /\ c < parentCloseTime l.

Lemma present_false f o v : present f o = false -> o = Some v -> f v = false.
Proof. by intros Hp ->. Qed.

Lemma finish_guards tx l l' k e : EscrowFinish_doApply tx l = Val (inl tt, l') ->
  k = default (escrow_key (ef_owner tx) (SeqValue (ef_offerSequence tx))) (ef_escrowID tx) -> pl_escrows l !! k = Some e ->
  (forall f, e_finishAfter e = Some f -> f < parentCloseTime l) /\
  (fix1571 (rules l) = true -> forall c, e_cancelAfter e = Some c -> parentCloseTime l <= c) /\ e_condition e = ef_condition tx /\
  forall cb, e_condition e = Some cb -> match pl_router l !! ef_id tx with
    | Some b => b = true
    | None => exists fb, ef_fulfillment tx = Some fb /\ checkCondition fb cb = true
    end.
Proof.
  intros Hrun -> He. unfold EscrowFinish_doApply in Hrun. pay_inv. apply named_escrow_inl in Hs as [-> ->]. rewrite He in Hs1. injection Hs1 as <-.
  apply finish_condition_inl in Hs6 as (_ & Hcond & Hcheck). split; [|split; [|done]].
  - intros f Hf. pose proof (present_false _ _ _ Hs4 Hf) as Ht. unfold finish_too_soon, after in Ht. destruct (fix1571 _); bool_prop; lia.
  - intros Hfix c Hc. pose proof (present_false _ _ _ Hs5 Hc) as Ht. unfold finish_too_late, after in Ht. rewrite Hfix in Ht. bool_prop. lia.
Qed.

Lemma cancel_guards tx l l' k e : EscrowCancel_doApply tx l = Val (inl tt, l') ->
  k = default (escrow_key (ex_owner tx) (SeqValue (ex_offerSequence tx))) (ex_escrowID tx) -> pl_escrows l !! k = Some e -> may_cancel l e.
Proof.
  intros Hrun -> He. unfold EscrowCancel_doApply in Hrun. pay_inv. apply named_escrow_inl in Hs as [-> ->]. rewrite He in Hs1. injection Hs1 as <-.
  unfold cancel_too_soon, after in Hs4. destruct (e_cancelAfter e) as [c|] eqn:Ec; [|done]. exists c. split; [done|].
  destruct (fix1571 _); bool_prop; lia.
Qed.

(** [preflight] puts the outcome of the check into the router. *)
Lemma finish_preflight_router r tx m m' cb : EscrowFinish_preflight r tesSUCCESS tesSUCCESS tx m = (tesSUCCESS, m') -> ef_condition tx = Some cb ->
  exists fb, ef_fulfillment tx = Some fb /\ m' = router_check (ef_id tx) fb cb m.
Proof.
  unfold EscrowFinish_preflight. intros Hp Hcb. destruct (_ && _); [done|]. cbn in Hp. rewrite Hcb in Hp.
  destruct (ef_fulfillment tx) as [fb|]; [|done]. injection Hp as <-. by exists fb.
Qed.

(** *** Issued currencies *)

(** The ledger but for the owner directories and the hash router. *)
Definition same_but_listing (l l1 : PayLedger) : Prop := exists d m, l1 = put_router (put_dirs l d) m.

Lemma same_listing_refl l : same_but_listing l l.
Proof. exists (pl_ownerDirs l), (pl_router l). by destruct l. Qed.

Lemma same_listing_trans l l1 l2 : same_but_listing l l1 -> same_but_listing l1 l2 -> same_but_listing l l2.
Proof. intros (d & m & ->) (d' & m' & ->). by exists d', m'. Qed.

Lemma router_listing l m : same_but_listing l (put_router l m).
Proof. exists (pl_ownerDirs l), m. by destruct l. Qed.

Lemma remove_listed_listing a p k l u l' : remove_listed a p k l = Val (inl u, l') -> same_but_listing l l'.
Proof.
  unfold remove_listed. intros Hr. pay_inv. unfold dirErase in Hs. apply bind_Val in Hs as ([ok d] & _ & [= _ <-]). by eexists _, (pl_router l).
Qed.

Lemma remove_listed_opt_listing a p k l u l' : remove_listed_opt a p k l = Val (inl u, l') -> same_but_listing l l'.
Proof. destruct p as [p|]; cbn; [apply remove_listed_listing|]. intros Hr. pay_inv. apply same_listing_refl. Qed.

Lemma adjust_owner_lines a n l l' : adjust_owner a n l = Val l' -> pl_lines l' = pl_lines l.
Proof. unfold adjust_owner. destruct (_ !! _); [|done]. by intros [= <-]. Qed.

Lemma credit_lines a d l l' : credit a d l = Val l' -> pl_lines l' = pl_lines l.
Proof. unfold credit. destruct (_ !! _); [|done]. case_match; [|done]. by intros [= <-]. Qed.

(** What a finish does to the trust lines: nothing for XRP, and for an issued currency a transfer of the locked
    balance from the owner to the destination, in which the sender of the transaction acts. *)
Definition lines_finished (tx : EscrowFinishTx) (e : EscrowSLE) (l l' : PayLedger) : Prop :=
  if isXRP (e_amount e) then pl_lines l' = pl_lines l
  else exists l1 l2, same_but_listing l l1 /\ pl_lines l' = pl_lines l2 /\
    trustTransferLockedBalance false (ef_account tx) (e_account e) (e_destination e) (e_amount e) (-1) l1 = Val (tesSUCCESS, l2).

(** What a cancel does: an issued currency is unlocked on the line of the owner. *)
Definition lines_cancelled (e : EscrowSLE) (l l' : PayLedger) : Prop :=
  if isXRP (e_amount e) then pl_lines l' = pl_lines l
  else exists l1 l2, same_but_listing l l1 /\ pl_lines l' = pl_lines l2 /\
    trustAdjustLockedBalance false (keylet_line (e_account e) (getIssuer (e_amount e)) (getCurrency (e_amount e))) (st_neg (e_amount e)) (-1) l1 = Val (tesSUCCESS, l2).

Lemma finish_lines tx l l' k e : EscrowFinish_doApply tx l = Val (inl tt, l') ->
  k = default (escrow_key (ef_owner tx) (SeqValue (ef_offerSequence tx))) (ef_escrowID tx) -> pl_escrows l !! k = Some e -> lines_finished tx e l l'.
Proof.
  intros Hrun -> He. unfold EscrowFinish_doApply, deposit_authorized in Hrun. pay_inv. apply named_escrow_inl in Hs as [-> ->]. rewrite He in Hs1. injection Hs1 as <-.
  apply finish_condition_inl in Hs6 as ([m ->] & _). apply dry_step in Hs10 as ->; [|intros Ht; pay_inv; by eapply transfer_dry_same].
  apply remove_listed_listing in Hs11. apply remove_listed_opt_listing in Hs12. injection Hn0 as <-. apply adjust_owner_lines in Hs14.
  pose proof (same_listing_trans _ _ _ (router_listing l m) (same_listing_trans _ _ _ Hs11 Hs12)) as Hsame. unfold lines_finished. cbn. rewrite Hs14.
  destruct (isXRP (e_amount e)); pay_inv; [|by eauto 10]. apply credit_lines in Hn0 as ->. destruct Hsame as (d & m' & ->). done.
Qed.

Lemma cancel_lines tx l l' k e : EscrowCancel_doApply tx l = Val (inl tt, l') ->
  k = default (escrow_key (ex_owner tx) (SeqValue (ex_offerSequence tx))) (ex_escrowID tx) -> pl_escrows l !! k = Some e -> lines_cancelled e l l'.
Proof.
  intros Hrun -> He. unfold EscrowCancel_doApply in Hrun. pay_inv. apply named_escrow_inl in Hs as [-> ->]. rewrite He in Hs1. injection Hs1 as <-.
  apply dry_step in Hs5 as ->; [|intros Ht; pay_inv; by eapply adjust_dry_same].
  apply remove_listed_listing in Hs6. apply remove_listed_opt_listing in Hs7. injection Hn as <-. apply adjust_owner_lines in Hs9.
  pose proof (same_listing_trans _ _ _ Hs6 Hs7) as Hsame. unfold lines_cancelled. cbn. rewrite Hs9.
  destruct (isXRP (e_amount e)); pay_inv; [|by eauto 10]. apply credit_lines in Hn as ->. destruct Hsame as (d & m' & ->). done.
Qed.

(** C12: An escrow leaves the ledger in two ways only.  A finish comes
    after the finish time and, with [fix1571], not after the cancel time, and
    with the condition of the escrow and a fulfillment of it (the hash router, which remembers outcomes of checks, holding no
    wrong one); it pays XRP to the destination, and an issued currency by a transfer of the locked balance to the destination.
    A cancel comes after the cancel time; it returns XRP to the
    owner, and an issued currency by unlocking it on the line of the owner.  No other account's balance of XRP and no
    other part of the trust lines changes. *)
Theorem escrow_exits_sound t k e l l' : ledger_ok l -> tx_ok l t -> (forall tx, t = TxEscrowFinish tx -> router_ok l tx) ->
  pl_escrows l !! k = Some e -> apply_tx t l = Val l' -> pl_escrows l' !! k = None ->
  (exists tx, t = TxEscrowFinish tx /\ may_finish l e tx /\ lines_finished tx e l l' /\
     sfBalance <$> pl_accounts l' = alter (Z.add (drops_of (e_amount e))) (e_destination e) (sfBalance <$> pl_accounts l)) \/
  (exists tx, t = TxEscrowCancel tx /\ may_cancel l e /\ lines_cancelled e l l' /\
     sfBalance <$> pl_accounts l' = alter (Z.add (drops_of (e_amount e))) (e_account e) (sfBalance <$> pl_accounts l)).
Proof.
  intros Hl Ht Hrt He Ha Hgone. destruct (proj2 (apply_flow t l l' Hl Ht Ha) k e He) as [?|[_ Hres]]; [congruence|].
  apply apply_tx_cases in Ha as [[m ->]|(m & Hp & Ha)]; [cbn in Hgone; congruence|].
  destruct t as [tx|tx|tx|tx|tx|tx]; try done; destruct Hres as [Hk Hb]; [left|right]; exists tx; (split; [done|]); (split; [|split; [|done]]).
  - destruct (finish_guards tx _ _ k e Ha Hk He) as (Hf & Hc & Hcond & Hcheck). split; [done|]. split; [done|]. intros cb Hcb. split; [congruence|].
    injection Hp as Hp. destruct (finish_preflight_router _ _ _ _ cb Hp ltac:(congruence)) as (fb & Hfb & ->). exists fb. split; [done|].
    specialize (Hcheck cb Hcb). cbn in Hcheck. unfold router_check in Hcheck. destruct (pl_router l !! ef_id tx) as [b|] eqn:Er.
    + rewrite Er in Hcheck. rewrite <- Hcheck. symmetry. apply (Hrt tx eq_refl b cb fb Er); congruence.
    + by rewrite lookup_insert_eq in Hcheck.
  - pose proof (finish_lines tx _ _ k e Ha Hk He) as Hlines. unfold lines_finished in *. destruct (isXRP _); [exact Hlines|].
    destruct Hlines as (l1 & l2 & Hs & ?). exists l1, l2. split; [by eapply same_listing_trans; [apply (router_listing l m)|]|done].
  - by eapply (cancel_guards tx _ _ k e Ha Hk He).
  - pose proof (cancel_lines tx _ _ k e Ha Hk He) as Hlines. unfold lines_cancelled in *. destruct (isXRP _); [exact Hlines|].
    destruct Hlines as (l1 & l2 & Hs & ?). exists l1, l2. split; [by eapply same_listing_trans; [apply (router_listing l m)|]|done].
Qed.

(** ** Claims *)

Lemma alter_zero_add (m : gmap Z Z) a : m = alter (Z.add 0) a m.
Proof. by rewrite alter_zero. Qed.

Lemma claim_balance_signed tx req c l c' l' : claim_balance tx req c l = Val (inl c', l') ->
  (cl_account tx = ch_destination c -> cl_signature tx <> None) /\ (cl_signature tx <> None -> cl_publicKey tx = Some (ch_publicKey c)).
Proof.
  unfold claim_balance, deposit_authorized. intros Hrun. pay_inv. apply claim_signer_inl in Hs1 as [_ Hpk]. split; [|done].
  intros Hd. rewrite Hd, Z.eqb_refl in Hs0. cbn in Hs0. by apply bool_decide_eq_false in Hs0.
Qed.

Lemma claim_preflight_signature r tx sig pk req : PayChanClaim_preflight r tesSUCCESS tesSUCCESS tx = Val tesSUCCESS ->
  cl_signature tx = Some sig -> cl_publicKey tx = Some pk -> cl_balance tx = Some req ->
  exists auth msg, serializePayChanAuthorization (cl_channel tx) auth = Val msg /\ verify pk msg sig = true /\ st_gtb req auth = Val false.
Proof.
  unfold PayChanClaim_preflight. intros Hp Hs Hk Hr. change (negb (bool_decide (tesSUCCESS = tesSUCCESS))) with false in Hp. cbn iota in Hp. do 2 (destruct (claim_amount_refused _ _); [done|]).
  apply bind_Val in Hp as (above & _ & Hp). destruct above; [done|]. do 2 (destruct (_ && _); [done|]).
  unfold claim_signature in Hp. rewrite Hs, Hk, Hr in Hp. apply bind_Val in Hp as ([] & Hg & Hp); [done|]. destruct (negb _); [done|].
  apply bind_Val in Hp as (msg & Hm & Hp). exists (default req (cl_amount tx)), msg. split; [done|]. split; [|done]. by destruct (verify pk msg sig).
Qed.

(** What a claim does to the balances: the destination is paid what was requested, and what
    a closed channel has left goes to the owner. *)
Lemma claim_balances tx c l l' : ledger_ok l -> tx_ok l (TxPayChanClaim tx) -> (forall req, cl_balance tx = Some req -> 0 < st_signum req) ->
  pl_channels l !! cl_channel tx = Some c -> PayChanClaim_doApply tx l = Val (inl tt, l') -> exists paid left,
  sfBalance <$> pl_accounts l' = alter (Z.add left) (ch_account c) (alter (Z.add paid) (ch_destination c) (sfBalance <$> pl_accounts l)) /\
  (paid = 0 \/ exists req, cl_balance tx = Some req /\ paid = drops_of req - drops_of (ch_balance c) /\ drops_of req <= drops_of (ch_amount c) /\
     (cl_account tx = ch_account c \/ (cl_signature tx <> None /\ cl_publicKey tx = Some (ch_publicKey c)))).
Proof.
  intros Hl Htx Hpos Hc Hrun. unfold PayChanClaim_doApply in Hrun. do 6 pay_inv_one. rewrite Hc in Hs0. injection Hs0 as <-.
  destruct (channel_expired _ _).
  { eapply closeChannel_flow in Hn as [_ Hb]; [|done|done]. exists 0, (ch_left c). rewrite alter_zero. by split; [|left]. }
  pay_inv. assert (exists paid, (flow (pl_escrows l) l l1 /\ pl_channels l1 !! cl_channel tx = Some a0 /\ ch_account a0 = ch_account c /\
    sfBalance <$> pl_accounts l1 = alter (Z.add paid) (ch_destination c) (sfBalance <$> pl_accounts l)) /\
    (paid = 0 \/ exists req, cl_balance tx = Some req /\ paid = drops_of req - drops_of (ch_balance c) /\ drops_of req <= drops_of (ch_amount c) /\
     (cl_account tx = ch_account c \/ (cl_signature tx <> None /\ cl_publicKey tx = Some (ch_publicKey c))))) as (paid & (Hf1 & Hc1 & Hacc & Hb1) & Hpaid).
  { destruct (cl_balance tx) as [req|] eqn:Er; [|pay_inv; exists 0; rewrite alter_zero; split; [by split; [split|]|by left]].
    destruct (Htx req Er) as [Hok Hi]. destruct (claim_balance_flow _ _ _ _ _ _ Hl Hc Hok (Hpos req eq_refl) (Hi c Hc) Hs0) as (Hf & Hc1 & -> & Hb & Hle).
    destruct (claim_balance_signed _ _ _ _ _ _ Hs0) as [Hsig Hpk]. eexists. split; [by split|]. right. exists req. split; [done|]. split; [done|]. split; [done|].
    apply andb_false_iff in Hs as [Hs|Hs]; bool_prop; [by left|]. right. split; [by apply Hsig|by apply Hpk, Hsig]. }
  assert (flow (pl_escrows l1) l1 l2 /\ pl_channels l2 !! cl_channel tx = Some a1 /\ ch_account a1 = ch_account c /\ pl_accounts l2 = pl_accounts l1) as (Hf2 & Hc2 & Hacc2 & Hb2).
  { pose proof (fl_ok _ _ _ Hf1) as Hl1. destruct (has_flag _ tfRenew); pay_inv; [|by split; [split|]].
    match goal with Hw : put_channel _ _ _ = Val _ |- _ => injection Hw as <- end. split; [by apply expiration_updated|]. cbn. by rewrite lookup_insert_eq. }
  exists paid. rewrite <- Hb1, <- Hb2. pose proof (fl_ok _ _ _ Hf2) as Hl2.
  assert (pl_accounts l' = pl_accounts l2 \/ closeChannel (cl_channel tx) a1 l2 = Val (inl tt, l')) as [->|Hclose].
  { destruct (has_flag _ tfClose); [|left; by pay_inv]. destruct (_ || _); [by right|]. left.
    case_match; pay_inv; [|done]. match goal with Hw : put_channel _ _ _ = Val _ |- _ => injection Hw as <- end. done. }
  - exists 0. by rewrite alter_zero.
  - exists (ch_left a1). eapply closeChannel_flow in Hclose as [_ Hb]; [|done|done]. by rewrite Hb, Hacc2.
Qed.

(** C13: Whenever a claim raises the XRP balance of the destination of a channel, an account other than its owner
    (a [PayChanCreate] admits no others), the channel is one of XRP, and the raise is exactly the difference between the
    balance the claim asks for and the one already paid, not beyond what the channel holds;
    and the owner of the channel sent the transaction, or it carries a signature, valid
    under the key of the channel, of the channel and of an amount no smaller than that balance.  Of what a claim pays in issued
    currencies nothing is said: [claim_other_issuer] is a claim of one issuer's money with a signature for another's. *)
Theorem claim_pays_authorized tx c l l' rd rd' : ledger_ok l -> tx_ok l (TxPayChanClaim tx) -> pl_channels l !! cl_channel tx = Some c ->
  ch_account c <> ch_destination c -> apply_tx (TxPayChanClaim tx) l = Val l' ->
  pl_accounts l !! ch_destination c = Some rd -> pl_accounts l' !! ch_destination c = Some rd' -> sfBalance rd < sfBalance rd' ->
  exists req, cl_balance tx = Some req /\ isXRP req = true /\ isXRP (ch_amount c) = true /\
    sfBalance rd' = sfBalance rd + (drops_of req - drops_of (ch_balance c)) /\
    drops_of req <= drops_of (ch_amount c) /\
    (cl_account tx = ch_account c \/
     exists sig auth msg, cl_signature tx = Some sig /\ serializePayChanAuthorization (cl_channel tx) auth = Val msg /\
       verify (ch_publicKey c) msg sig = true /\ st_gtb req auth = Val false).
Proof.
  intros Hl Ht Hc Hne Ha Hd Hd' Hlt. apply apply_tx_cases in Ha as [[m ->]|(m & Hp & Ha)]; [cbn in Hd'; rewrite Hd in Hd'; injection Hd' as <-; lia|].
  pose proof (preflight_pos _ _ _ _ Hp) as Hpos.
  destruct (claim_balances tx c (put_router l m) l' (ledger_ok_router l m Hl) Ht Hpos Hc Ha) as (paid & left & Hb & Hpaid).
  assert ((sfBalance <$> pl_accounts l') !! ch_destination c = Some (sfBalance rd')) as Hb' by by rewrite lookup_fmap, Hd'.
  rewrite Hb, lookup_alter_ne, lookup_alter_eq, lookup_fmap in Hb' by done. cbn in Hb'. rewrite Hd in Hb'. injection Hb' as Hb'.
  destruct Hpaid as [->|(req & Hreq & -> & Hle & Hauth)]; [lia|].
  destruct (ok_channels _ Hl _ _ Hc) as (_ & _ & _ & Hch & _). assert (isXRP req = true /\ isXRP (ch_amount c) = true) as [Hx Hxa].
  { unfold drops_of in Hb', Hle, Hch. destruct (isXRP req), (isXRP (ch_amount c)), (isXRP (ch_balance c)); split; done || lia. }
  exists req. split; [done|]. split; [done|]. split; [done|]. split; [lia|]. split; [done|].
  destruct Hauth as [?|[Hsig Hpk]]; [by left|]. right. destruct (cl_signature tx) as [sig|] eqn:Es; [|done].
  apply bind_Val in Hp as (ter & Hp & [= -> _]). destruct (claim_preflight_signature _ _ _ _ _ Hp Es Hpk Hreq) as (auth & msg & ?). by exists sig, auth, msg.
Qed.
End txns.
