(* ===== verification/PayLive.v ===== *)
(** * PayLive: escrows of XRP are resolved

    Runs of the ledger are infinite sequences of steps: escrow and payment channel
    transactions, ledger closes, which move the close time forward, and steps of all other
    transactions, which keep the invariant and do not touch escrows.

    The theorem: if the close time passes the cancel time of an escrow of XRP and a cancel
    of it is submitted again and again, then at some step the escrow leaves the ledger,
    and its drops go to its destination or back to its owner. *)

From stdpp Require Import base numbers list option gmap.
From Stdlib Require Import ZArith Lia.
From S2P Require Import Prelude Leb128 Double Xfl IouAmount StAmount Enum Runtime Directory Context StateLedger Condition ShaMapNode Serializer PayLedger TrustLine Escrow PayChan XrpFlow PayTxns.

Local Open Scope Z_scope.

(** ** Cancelling succeeds *)

(** The drops of an account and of an escrow together are within the supply. *)
Lemma supply_bound l a r k e : ledger_ok l -> pl_accounts l !! a = Some r -> pl_escrows l !! k = Some e ->
  0 <= sfBalance r /\ 0 <= drops_of (e_amount e) /\ sfBalance r + drops_of (e_amount e) <= cMaxNativeN.
Proof.
  intros Hl Hr He. assert (forall k e, pl_escrows l !! k = Some e -> 0 <= drops_of (e_amount e)) as Hep.
  { intros k' e' He'. destruct (ok_escrows _ Hl _ _ He') as (Hok & Hpos & _). apply drops_nonneg; [done|lia]. }
  assert (0 <= map_sum ch_left (pl_channels l)) as Hch.
  { apply map_sum_nonneg. intros k' c Hc. destruct (ok_channels _ Hl _ _ Hc) as (_ & _ & _ & ? & _). unfold ch_left. lia. }
  pose proof (map_sum_member sfBalance (pl_accounts l) a r (fun b rb Hb => proj1 (ok_balances _ Hl b rb Hb)) Hr).
  pose proof (map_sum_member (fun e => drops_of (e_amount e)) (pl_escrows l) k e Hep He). pose proof (ok_supply _ Hl). unfold total_xrp in *.
  split; [by eapply ok_balances|]. split; [by eapply Hep|]. cbn in *. lia.
Qed.

Section live.
Context `{PayKeylets, Sha256, Verify}.

(** The transaction passes [preflight] and names the escrow. *)
Definition cancels (r : Rules) (tx : EscrowCancelTx) (k : uint256) : Prop :=
  EscrowCancel_preflight r tesSUCCESS tesSUCCESS tx = tesSUCCESS /\
  match ex_escrowID tx with
  | Some id => featureHooks r = true /\ ex_offerSequence tx = 0 /\ id = k
  | None => escrow_key (ex_owner tx) (SeqValue (ex_offerSequence tx)) = k
  end.

Lemma named_escrow_cancels r tx k l : cancels r tx k -> rules l = r ->
  named_escrow (ex_owner tx) (ex_offerSequence tx) (ex_escrowID tx) l = Val (inl k, l).
Proof.
  intros [_ Hk] Hr. unfold named_escrow, mbind, pay_bind, ask. cbn. rewrite Hr. destruct (ex_escrowID tx) as [id|]; [|by rewrite andb_false_r, Hk].
  destruct Hk as (-> & -> & ->). by rewrite andb_false_r.
Qed.

Lemma cancel_progress tx k e c l : ledger_ok l -> pl_escrows l !! k = Some e -> isXRP (e_amount e) = true -> e_cancelAfter e = Some c ->
  c < parentCloseTime l -> cancels (rules l) tx k -> exists l', apply_tx (TxEscrowCancel tx) l = Val l' /\ pl_escrows l' !! k = None.
Proof.
  intros Hl He Hx Hc Hlt Hk. enough (exists l', EscrowCancel_doApply tx l = Val (inl tt, l') /\ pl_escrows l' !! k = None) as (l' & Hr & Hn).
  { exists l'. split; [|done]. unfold apply_tx. cbn [invoke_preflight invoke_apply]. rewrite (proj1 Hk), <- put_router_id. cbn. unfold run. by rewrite Hr. }
  assert (listing l k = Some (entry_places (e_account e) (e_ownerNode e) (e_destination e) (e_destinationNode e))) as HL by (unfold listing; by rewrite He).
  destruct (remove_places _ _ _ _ k (listing l) l (ok_dirs _ Hl) HL) as (l1 & l2 & E1 & E2 & Hsd & _).
  destruct (ok_escrows _ Hl k e He) as (Hok & Hpos & [r Hr] & _). destruct (supply_bound l _ r k e Hl Hr He) as (Hb & Hd & Hsup).
  assert (i64_fits (sfBalance r + drops_of (e_amount e)) = true) as Hfit by (unfold i64_fits, cMaxNativeN in *; bool_prop; lia).
  assert (pl_accounts l2 = pl_accounts l) as Ha2 by by rewrite Hsd. assert (pl_escrows l2 = pl_escrows l) as He2 by by rewrite Hsd.
  unfold EscrowCancel_doApply. rewrite (pay_seq _ _ _ _ _ (named_escrow_cancels _ tx k l Hk eq_refl)).
  rewrite (pay_seq _ _ l (Some e) l) by (unfold ask; by rewrite He). rewrite (pay_seq _ _ l e l) by done. do 2 (rewrite (pay_seq _ _ l _ l eq_refl)).
  rewrite (pay_seq _ _ l tt l) by (unfold cancel_too_soon, after; rewrite Hc, (proj2 (Z.ltb_lt _ _) Hlt), (proj2 (Z.leb_gt _ _) Hlt); by destruct (fix1571 _)).
  rewrite Hx. rewrite (pay_seq _ _ l tt l) by done. rewrite (pay_seq _ _ _ _ _ E1), (pay_seq _ _ _ _ _ E2).
  erewrite (pay_seq _ _ l2 tt).
  2: { erewrite pay_seq; [|unfold calc; by rewrite (xrp_value _ Hok Hx)]. unfold change, credit. by rewrite Ha2, Hr, Hfit. }
  erewrite (pay_seq _ _ _ tt); [|unfold change, adjust_owner; cbn; by rewrite lookup_insert_eq].
  eexists. split; [done|]. cbn. apply lookup_delete_eq.
Qed.

(** ** Runs *)

Inductive event := EvTx (t : PayTx) | EvClose (time : Z) | EvOther.

Definition set_time (l : PayLedger) (time : Z) : PayLedger :=
  mkPay (pl_accounts l) (pl_transferRates l) (pl_lines l) (pl_escrows l) (pl_channels l) (pl_ownerDirs l) (pl_others l) (pl_preauths l) (pl_router l) (pl_fees l) time (rules l).

(** One step of the ledger. *)
Definition stepped (ev : event) (l l' : PayLedger) : Prop :=
  match ev with
  | EvTx t => tx_ok l t /\ apply_tx t l = Val l'
  | EvClose time => parentCloseTime l <= time /\ l' = set_time l time
  | EvOther => ledger_ok l' /\ pl_escrows l' = pl_escrows l /\ rules l' = rules l /\ parentCloseTime l' = parentCloseTime l
  end.

Lemma stepped_ok ev l l' : stepped ev l l' -> ledger_ok l -> ledger_ok l' /\ rules l' = rules l /\ parentCloseTime l <= parentCloseTime l'.
Proof.
  intros Hs Hl. destruct ev as [t|time|]; cbn in Hs.
  - destruct Hs as [Ht Ha]. destruct (apply_flow t l l' Hl Ht Ha) as [[] _]. split; [done|]. split; [done|lia].
  - destruct Hs as [Ht ->]. split; [|done]. destruct Hl. by split.
  - destruct Hs as (? & _ & ? & ?). split; [done|]. split; [done|lia].
Qed.

(** An escrow stays as it is or is resolved by a transaction. *)
Lemma stepped_escrow ev l l' k e : stepped ev l l' -> ledger_ok l -> pl_escrows l !! k = Some e ->
  pl_escrows l' !! k = Some e \/ (pl_escrows l' !! k = None /\ exists t, ev = EvTx t /\ resolved t k e l l').
Proof.
  intros Hs Hl He. destruct ev as [t|time|]; cbn in Hs.
  - destruct Hs as [Ht Ha]. destruct (proj2 (apply_flow t l l' Hl Ht Ha) k e He) as [?|[? ?]]; [by left|right]. eauto.
  - destruct Hs as [_ ->]. by left.
  - destruct Hs as (_ & -> & _). by left.
Qed.

Section run.
Context (σ : nat -> PayLedger) (ev : nat -> event).
Hypothesis start_ok : ledger_ok (σ 0%nat).
Hypothesis steps : forall n, stepped (ev n) (σ n) (σ (S n)).

Lemma run_ok n : ledger_ok (σ n) /\ rules (σ n) = rules (σ 0%nat).
Proof.
  induction n as [|n [IH IHr]]; [done|]. destruct (stepped_ok _ _ _ (steps n) IH) as (? & ? & _). split; [done|congruence].
Qed.

Lemma run_time n m : (n <= m)%nat -> parentCloseTime (σ n) <= parentCloseTime (σ m).
Proof.
  induction 1 as [|m _ IH]; [lia|]. destruct (stepped_ok _ _ _ (steps m) (proj1 (run_ok m))) as (_ & _ & ?). lia.
Qed.

(** Up to a step the escrow is there, or there was a step that resolved it. *)
Lemma run_escrow k e n : pl_escrows (σ 0%nat) !! k = Some e ->
  (forall i, (i <= n)%nat -> pl_escrows (σ i) !! k = Some e) \/
  exists j t, (forall i, (i <= j)%nat -> pl_escrows (σ i) !! k = Some e) /\ ev j = EvTx t /\ pl_escrows (σ (S j)) !! k = None /\ resolved t k e (σ j) (σ (S j)).
Proof.
  intros He. induction n as [|n [IH|IH]]; [left; intros i Hi; by replace i with 0%nat by lia| |by right].
  destruct (stepped_escrow _ _ _ k e (steps n) (proj1 (run_ok n)) (IH n ltac:(lia))) as [Hn|(Hn & t & Ht & Hr)].
  - left. intros i Hi. destruct (decide (i = S n)) as [->|]; [done|]. apply IH. lia.
  - right. exists n, t. done.
Qed.
End run.

(** C8: Every escrow of XRP with a cancel time is resolved: in an infinite run in which the
    close time passes the cancel time and a cancel of the escrow is submitted again and again,
    there is a step up to which the escrow stays untouched and at which a finish pays its drops
    to the destination or a cancel returns them to the owner. *)
Theorem escrow_eventually_resolved (σ : nat -> PayLedger) (ev : nat -> event) k e c :
  ledger_ok (σ 0%nat) -> (forall n, stepped (ev n) (σ n) (σ (S n))) ->
  pl_escrows (σ 0%nat) !! k = Some e -> isXRP (e_amount e) = true -> e_cancelAfter e = Some c ->
  (exists n, c < parentCloseTime (σ n)) ->
  (forall n, exists m tx, (n <= m)%nat /\ ev m = EvTx (TxEscrowCancel tx) /\ cancels (rules (σ 0%nat)) tx k) ->
  exists n, (forall i, (i <= n)%nat -> pl_escrows (σ i) !! k = Some e) /\ pl_escrows (σ (S n)) !! k = None /\
    ((exists tx, ev n = EvTx (TxEscrowFinish tx) /\
        sfBalance <$> pl_accounts (σ (S n)) = alter (Z.add (drops_of (e_amount e))) (e_destination e) (sfBalance <$> pl_accounts (σ n))) \/
     (exists tx, ev n = EvTx (TxEscrowCancel tx) /\
        sfBalance <$> pl_accounts (σ (S n)) = alter (Z.add (drops_of (e_amount e))) (e_account e) (sfBalance <$> pl_accounts (σ n)))).
Proof.
  intros Hok Hsteps He Hx Hc [n0 Hn0] Hfair. destruct (Hfair n0) as (m & tx & Hm & Hev & Hcan).
  destruct (run_ok σ ev Hok Hsteps m) as [Hlm Hrm]. pose proof (run_time σ ev Hok Hsteps n0 m Hm) as Htime.
  destruct (run_escrow σ ev Hok Hsteps k e (S m) He) as [Hall|(j & t & Hj & Ht & Hgone & Hres)].
  - exfalso. pose proof (Hsteps m) as Hs. rewrite Hev in Hs. destruct Hs as [_ Ha]. rewrite <- Hrm in Hcan.
    destruct (cancel_progress tx k e c (σ m) Hlm (Hall m ltac:(lia)) Hx Hc ltac:(lia) Hcan) as (l' & Ha' & Hn). rewrite Ha in Ha'. injection Ha' as <-.
    specialize (Hall (S m) ltac:(lia)). congruence.
  - exists j. split; [done|]. split; [done|]. destruct t as [tx'|tx'|tx'|tx'|tx'|tx']; try done; destruct Hres as [_ Hb]; [left|right]; by exists tx'.
Qed.
End live.

(** ** Samples *)

Module PaySamples.
Import LineSamples.

#[local] Instance sum_hash : Sha256 := fun m => vsize m :: replicate 30 0 ++ [fold_left Z.add m 0].
(** A stand-in for signatures: the bytes of the message. *)
#[local] Instance echo_verify : Verify := fun pk msg sig => bool_decide (msg = sig).

(** Two accounts with a thousand XRP each. *)
Definition genesis : PayLedger :=
  mkPay {[ 10 := root 1000000000 0; 20 := root 1000000000 0 ]} ∅ ∅ ∅ ∅ ∅ ∅ ∅ ∅ (mkFees 10000000 2000000) 100 all_rules.

Lemma pay_genesis_ok : ledger_ok genesis.
Proof.
  split; try done.
  - split; [intros a; left; by left|]. split; [done|]. intros a p k (ks & Hk & _). done.
  - by left.
  - intros a r Hr. unfold genesis in Hr. cbn in Hr. apply lookup_insert_Some in Hr as [[_ <-]|[_ Hr]]; [by cbn|].
    apply lookup_singleton_Some in Hr as [_ <-]. by cbn.
Qed.

(** An escrow of five XRP with a condition, from account 10 to account 20. *)
Definition secret : list Z := [1; 2; 3].
Definition create : EscrowCreateTx :=
  mkCreate 10 20 (xrp_amount 5000000) (Some (encode_condition (sha256 secret) 3)) (Some 150) (Some 110) None None 0 (SeqValue 7).
Definition key : uint256 := escrow_key 10 (SeqValue 7).

Definition escrowed : PayLedger := match apply_tx (TxEscrowCreate create) genesis with Val l => l | _ => genesis end.
Definition escrow : EscrowSLE := mkEscrow 10 20 (xrp_amount 5000000) (ec_condition create) (Some 150) (Some 110) None None 0 (Some 0).

Lemma create_ok : tx_ok genesis (TxEscrowCreate create).
Proof. by repeat split. Qed.

Lemma escrowed_run : apply_tx (TxEscrowCreate create) genesis = Val escrowed.
Proof. by vm_compute. Qed.

Lemma escrowed_ok : ledger_ok escrowed.
Proof. exact (fl_ok _ _ _ (proj1 (apply_flow _ _ _ pay_genesis_ok create_ok escrowed_run))). Qed.

Lemma pay_transactions_conserve_witness : ledger_ok escrowed /\ total_xrp escrowed = 2000000000.
Proof. exact (pay_transactions_conserve (TxEscrowCreate create) genesis escrowed pay_genesis_ok create_ok escrowed_run). Defined.

(** The finish at time 120 with the secret. *)
Definition finish : EscrowFinishTx := mkFinish 99 20 10 7 None (ec_condition create) (Some (encode_fulfillment secret)) 0.
Definition ripe : PayLedger := set_time escrowed 120.
Definition finished : PayLedger := match apply_tx (TxEscrowFinish finish) ripe with Val l => l | _ => ripe end.

Lemma set_time_ok l t : ledger_ok l -> ledger_ok (set_time l t).
Proof. intros []. by split. Qed.

Lemma escrow_exits_sound_witness : exists tx, TxEscrowFinish finish = TxEscrowFinish tx /\ may_finish ripe escrow tx.
Proof.
  destruct (escrow_exits_sound (TxEscrowFinish finish) key escrow ripe finished) as [(tx & E & Hm & _)|(tx & E & _)].
  - exact (set_time_ok escrowed 120 escrowed_ok).
  - exact I.
  - intros tx [= <-] b cb fb Hr. vm_compute in Hr. discriminate.
  - by vm_compute.
  - by vm_compute.
  - by vm_compute.
  - exists tx. split; [exact E|exact Hm].
  - discriminate E.
Defined.

(** A run in which the close time passes the cancel time and account 20 keeps cancelling. *)
Definition cancel : EscrowCancelTx := mkCancel 20 10 7 None 0.
Definition late : PayLedger := set_time escrowed 151.
Definition cancelled : PayLedger := match apply_tx (TxEscrowCancel cancel) late with Val l => l | _ => late end.
Definition sample_run (n : nat) : PayLedger := match n with O => escrowed | S O => late | _ => cancelled end.
Definition sample_events (n : nat) : event := match n with O => EvClose 151 | _ => EvTx (TxEscrowCancel cancel) end.

Lemma sample_steps n : stepped (sample_events n) (sample_run n) (sample_run (S n)).
Proof. destruct n as [|[|n]]; (split; [done|by vm_compute]). Qed.

Lemma escrow_eventually_resolved_witness : exists n, pl_escrows (sample_run n) !! key = Some escrow /\ pl_escrows (sample_run (S n)) !! key = None.
Proof.
  destruct (escrow_eventually_resolved sample_run sample_events key escrow 150 escrowed_ok sample_steps) as (n & Hi & Hn & _).
  - by vm_compute.
  - reflexivity.
  - reflexivity.
  - exists 1%nat. by vm_compute.
  - intros n. exists (S n), cancel. split; [lia|]. split; [reflexivity|]. split; by vm_compute.
  - exists n. split; [apply Hi; lia|exact Hn].
Defined.

(** A channel of ten XRP from account 10 to account 20. *)
Definition pk : Blob := 0xED :: replicate 32 7.
Definition open : PayChanCreateTx := mkChanCreate 10 20 (xrp_amount 10000000) 3600 pk None None None 0 (SeqValue 8).
Definition channel_id : uint256 := paychan_key 10 20 (SeqValue 8).
Definition channelled : PayLedger := match apply_tx (TxPayChanCreate open) genesis with Val l => l | _ => genesis end.
Definition channel : PayChanSLE := mkChan 10 20 (xrp_amount 10000000) (xrp_amount 0) 3600 pk None None None None 0 (Some 0).

Lemma channelled_ok : ledger_ok channelled.
Proof.
  assert (tx_ok genesis (TxPayChanCreate open)) as Ht by by repeat split.
  assert (apply_tx (TxPayChanCreate open) genesis = Val channelled) as Hr by by vm_compute.
  exact (fl_ok _ _ _ (proj1 (apply_flow _ _ _ pay_genesis_ok Ht Hr))).
Qed.

(** Account 20 claims two XRP with a signature for three. *)
Definition claim : PayChanClaimTx :=
  mkClaim 20 channel_id (Some (xrp_amount 2000000)) (Some (xrp_amount 3000000)) (Some (authorization_xrp channel_id 3000000)) (Some pk) 0.
Definition claimed : PayLedger := match apply_tx (TxPayChanClaim claim) channelled with Val l => l | _ => channelled end.

Lemma claim_pays_authorized_witness : exists req, cl_balance claim = Some req /\ drops_of req <= 10000000.
Proof.
  destruct (claim_pays_authorized claim channel channelled claimed (root 1000000000 0) (root 1002000000 0)) as (req & Hr & _ & _ & _ & Hle & _).
  - exact channelled_ok.
  - intros req [= <-]. split; [by repeat split|done].
  - by vm_compute.
  - by vm_compute.
  - by vm_compute.
  - by vm_compute.
  - by vm_compute.
  - by vm_compute.
  - exists req. split; [exact Hr|exact Hle].
Defined.

(** A claim beyond the signed amount, and one with the signature for another channel, are refused. *)
Lemma claim_refused :
  PayChanClaim_preflight all_rules tesSUCCESS tesSUCCESS
    (mkClaim 20 channel_id (Some (xrp_amount 4000000)) (Some (xrp_amount 3000000)) (Some (authorization_xrp channel_id 3000000)) (Some pk) 0) = Val temBAD_AMOUNT /\
  PayChanClaim_preflight all_rules tesSUCCESS tesSUCCESS
    (mkClaim 20 channel_id (Some (xrp_amount 3000000)) None (Some (authorization_xrp (channel_id + 1) 3000000)) (Some pk) 0) = Val temBAD_SIGNATURE.
Proof. split; by vm_compute. Qed.

(** The settle delay is added to the close time in 32 bits: with a delay of [2^32 - 50] the
    owner who asks to close gets an expiration that has passed. *)
Lemma settle_delay_wraps : settle_expiration 100 (mkChan 10 20 (xrp_amount 10000000) (xrp_amount 0) (2 ^ 32 - 50) pk None None None None 0 None) = 50.
Proof. by vm_compute. Qed.

(** *** Money of another issuer *)

(** Account 10 holds a hundred units of the currency 9 of the issuer 50, ten of them locked in a
    channel to account 20, and a hundred units of the same currency of the issuer 51. *)
Definition other_line : RippleState :=
  mkLine (mkAmount 1000000000000000 (-13) false false (mkIssue 9 51)) (limit_of 10) (zeroed (mkIssue 9 51)) None None lsfLowReserve 0 0 0 0 0 0.
Definition usd_channel : PayChanSLE := mkChan 10 20 (usd 1000000000000000 (-14)) (zeroed (mkIssue 9 50)) 3600 pk None None None None 0 (Some 0).
Definition issuers_ledger : PayLedger :=
  mkPay {[ 10 := root 1000000000 3; 20 := root 1000000000 0; 50 := root 1000000000 0; 51 := root 1000000000 0 ]} ∅
    {[ keylet_line 10 50 9 := low_line; keylet_line 10 51 9 := other_line ]} ∅ {[ 77 := usd_channel ]} ∅ ∅ ∅ ∅ (mkFees 10000000 2000000) 100 all_rules.
Definition fund : PayChanFundTx := mkFund 10 77 (mkAmount 5000000000000000 (-15) false false (mkIssue 9 51)) None 0.

(** Funding the channel with five units of the issuer 51 raises its amount to fifteen units of the
    issuer 50, of which only ten are locked. *)
Lemma fund_other_issuer : exists l' c line,
  apply_tx (TxPayChanFund fund) issuers_ledger = Val l' /\ pl_channels l' !! 77 = Some c /\ pl_lines l' !! keylet_line 10 50 9 = Some line /\
  ch_amount c = usd 1500000000000000 (-14) /\ ln_lockedBalance line = Some (usd 1000000000000000 (-14)).
Proof. do 3 eexists. split; [vm_compute; reflexivity|]. split; [vm_compute; reflexivity|]. split; [vm_compute; reflexivity|]. by vm_compute. Qed.

(** Account 10 also has two units of the issuer 51 locked.  Account 20 holds a signature for three units of
    the issuer 50 and asks for a balance of two units of the issuer 51: the signature is accepted and the
    locked units of the issuer 51 are paid. *)
Definition both_locked : PayLedger :=
  put_lines issuers_ledger {[ keylet_line 10 50 9 := low_line;
    keylet_line 10 51 9 := set_locked (Some (mkAmount 2000000000000000 (-15) false false (mkIssue 9 51))) (Some 1) other_line ]}.
Definition three_usd : STAmount := usd 3000000000000000 (-15).
Definition claim_other : PayChanClaimTx :=
  mkClaim 20 77 (Some (mkAmount 2000000000000000 (-15) false false (mkIssue 9 51))) (Some three_usd)
    (match serializePayChanAuthorization 77 three_usd with Val m => Some m | _ => None end) (Some pk) 0.

Lemma claim_other_issuer : exists l' c line,
  apply_tx (TxPayChanClaim claim_other) both_locked = Val l' /\ pl_channels l' !! 77 = Some c /\ pl_lines l' !! keylet_line 10 51 9 = Some line /\
  getIssuer (ch_amount c) = 50 /\ getIssuer (ch_balance c) = 51 /\ ln_balance line = mkAmount 9800000000000000 (-14) false false (mkIssue 9 51).
Proof. do 3 eexists. split; [vm_compute; reflexivity|]. split; [vm_compute; reflexivity|]. split; [vm_compute; reflexivity|]. by vm_compute. Qed.
End PaySamples.
